(* ===== verification/_CoqProject ===== *)
-Q . S2P
Prelude.v
Collections.v
Text.v
Json.v
Sql.v
LocalDatabase.v
Signing.v
Hashcash.v
Admission.v
Trust.v
Policy.v
Identities.v
Governance.v
Profiles.v
Missions.v
Organizations.v
PaymentModel.v
X402.v
PaymentLedger.v
PaymentChain.v
Jsonl.v
Storage.v
EventLog.v
Snapshots.v
Oracle.v
Galaxy.v
GalaxyMap.v
Travel.v
TravelState.v
Civic.v
Standing.v
Reports.v
Tasks.v
Game.v
GameMissions.v
Space.v
SpaceCatalog.v
Walk.v
Presence.v
MapSource.v
SpaceEntry.v
Access.v
Movement.v
Registration.v
Membership.v
Credentials.v
LedgerClient.v
RegistryClient.v
DailyReport.v
MissionRoutes.v
Escrow.v
EscrowLogic.v
EscrowSafety.v
Farm.v
SocialDomain.v
SocialStore.v
SocialPolicy.v
SocialRequests.v
SocialServices.v
SocialSync.v
PaymentRoutes.v
