(* ===== verification/Prelude.v ===== *)
(** * Wattetheria: verification library

    Wattetheria is a peer-to-peer agent civilization node written in Rust. The
    kernel ([src/crates/kernel-core/src], called [K] below) keeps the state of
    the civilization; the control plane ([src/crates/control-plane/src], called
    [P]) serves it over HTTP and runs the requests on missions, bounties, spaces
    and the farm; the social crate ([src/crates/social/src], called [S]) keeps
    friends and messages; the gateway contract ([src/crates/gateway-contract/src],
    called [G]) is the wire format shared with gateways. This library models the
    logic of these crates as executable functions and proves what makes it
    correct.

    ** Parts of the program and files of the library

    What the source uses of Rust and of its standard library:

    - [Prelude], [Collections], [Text], [Json], [Sql]: [result] is [anyhow::Result];
      [stm S A] is a method on [&mut self] that returns a [Result] (an error
      keeps what was already written); machine integers are [Z] with wrap-around
      or saturation written out; [HashMap] and [BTreeMap] are [gmap], the latter
      traversed in the byte order of its keys; [sort_by] is a stable insertion
      sort; [str::trim], ASCII case mapping, integer printing and parsing work
      on UTF-8 bytes; [Json.json] is [serde_json::Value]; an SQL table is the
      list of its rows, a statement a function on it.
    - [Jsonl]: files of one JSON record per line.

    Security:

    - [Signing]: [K/security/signing.rs] and the signature check of
      [K/security/identity.rs]. Canonical JSON, ed25519, base64 and SHA-256 are
      the class [Crypto]; what the kernel relies on is [SignerSound].
    - [Hashcash], [Admission], [Trust]: proof of work, admission of packets with
      its replay window, public ids, the blacklist and the capability table
      ([K/security]).
    - [Policy]: [K/brain/policy_engine.rs] and the capability check of
      [P/autonomy.rs].
    - [Access]: [P/auth.rs] and the rate limiter and event numbers of
      [P/state.rs]; also the monad [hst] of request handlers.

    Civilization:

    - [Governance]: [K/governance/constitution.rs] and [K/governance/engine.rs].
      State [GovernanceEngine]: licenses, bonds, planets, proposals, validator
      heartbeats, with every operation of the engine.
    - [Profiles], [Identities]: citizens, public identities and the controllers
      they are bound to.
    - [Missions], [Organizations]: the mission board, the registry of claims on
      missions of other nodes, organizations with their treasury and charters.
    - [Civic], [Standing]: the mailbox between subnets, hives, relationships;
      metrics, emergencies and generated events.
    - [Oracle]: [K/governance/oracle.rs]. Its side of the log is the interface
      [SignedLog], which [EventLog] implements.
    - [Galaxy], [GalaxyMap], [Travel], [TravelState]: zones and events, validated
      maps, cheapest travel plans, journeys and their consequences.
    - [Tasks], [Game], [GameMissions]: swarm tasks and puzzles, qualifications
      and progression, starter chains, mission packs and the bootstrap.

    Payments and storage:

    - [PaymentModel], [X402], [PaymentLedger]: [K/payments]. Messages between
      agents, the stablecoin amounts and receipts of the x402 rail, the ledger
      with its life cycle and its merge of remote reports. The wallet and the
      header codecs are the classes [Wallet] and [X402Codec].
    - [PaymentChain]: [P/routes/payment_chain.rs], an authorized payment as a
      signed ERC-20 transfer and the verification of a settlement on chain;
      Keccak and secp256k1 are the class [Evm], the RPC node a function.
    - [PaymentRoutes]: the payment handlers of [P/routes/payments.rs], which
      compose the ledger, the chain and the database.
    - [LocalDatabase]: [K/storage/local_db.rs], the documents of the domains, the
      migration of older files, the commit log and the record of what the agent
      did.
    - [EventLog], [Snapshots], [Storage], [Reports]: the hash-chained log over
      the text of its file, its snapshots and recovery, presence leases, the
      audit trail and the plugin registry, signed summaries and night-shift
      reports.

    Spaces, where agents are seen and walk:

    - [Space], [SpaceCatalog]: [K/space], maps of tiles, shortest walks, packages
      and catalogs.
    - [Walk]: [G/space.rs], positions on a walk in IEEE arithmetic, skins.
    - [Presence], [MapSource], [SpaceEntry], [Movement]: [P/routes/space], the
      signed presence registry, the source of its map, entering and leaving,
      walking.
    - [Farm]: [G/farm.rs] and [P/routes/farm.rs], farm commands and the hold
      they put on an agent.
    - [DailyReport]: [P/routes/mcp/activity.rs] and [P/routes/space/daily.rs],
      what the agent does is recorded and reported once a day to its owner.

    Membership of networks:

    - [Registration]: [K/network/registration.rs] and the commands of
      [src/apps/wattetheria-cli/src/network_registration.rs], the signed
      artifacts by which one network becomes a member of another, their store
      and their revocation.
    - [Membership], [RegistryClient]: [K/network/agent_registration.rs], its
      tables in [K/storage/local_db] and [P/routes/network.rs], the permission
      and the credential of an agent, their delivery to the swarm, the client
      of the registries.
    - [Credentials]: [K/network/credentials.rs] and the import of
      [P/routes/credentials.rs], the custody of third-party credentials and of
      the anchors they are trusted by.

    Bounties:

    - [LedgerClient]: [P/ledger_client.rs], requests to the gateway's ledger.
    - [MissionRoutes]: the network half of [P/routes/missions.rs] and
      [P/routes/settlement_delegation.rs].
    - [Escrow], [EscrowLogic], [EscrowSafety]: the escrow half of
      [P/routes/missions.rs] with the notices of [P/routes/agent_events.rs]; its
      invariant and program logic; its theorems.

    Social:

    - [SocialDomain], [SocialStore], [SocialPolicy], [SocialRequests],
      [SocialServices], [SocialSync]: [S], the state machines, the tables, the
      policies, the services against repository interfaces, and the commands
      that come from and go to other nodes.

    A record of the library has the fields of the struct it models, an
    inductive the variants of the enum, a definition the name of the function.
    Each source function is one definition; a loop inside it is a local
    [Fixpoint] named after what it does. [now_ts]-style clocks are arguments:
    a function that reads the clock more than once takes one reading per call.
    A request handler that awaits is a function of its state in which every
    await is a point where other requests may run ([Escrow.pause],
    [PaymentRoutes.pause]); a section under a lock is one step.

    ** What the theorems show

    - Invariants: the governance engine, the payment ledger, the log, the
      presence registry, membership evidence and the escrows keep the well-formedness of their state
      in every reachable state (induction over step relations; for escrows under
      every interleaving of requests, by a rely-guarantee argument, and likewise
      for who may change a payment).
    - Refinements: planets refine an abstract government, missions, payments and
      travel their life cycles, the text log an append-only list, the mailbox a
      queue per subnet, presence leases their history, the tables of the database
      a map of documents.
    - Safety: a payee is written once; a settled pull conserves watt; a verified
      log is determined by its last hash up to a SHA-256 collision; a message
      is accepted only from the party entitled to send it; a blocked friend
      stays blocked; a capability is allowed only by the baseline or by a grant
      an operator approved; published presences are numbered in order; a bounty
      is never lost and a settlement pays it; a farm command never shortens the
      hold on an agent; a network starts only with a credential its trust anchor
      certifies; a settlement is accepted only for a transfer found on chain, and
      what is sent decodes to the payment; a decision is carried out once; a day
      is reported once; opening an older database loses no document.
    - Functional behaviour of operations on success and on every error, exact
      decimal conversion, round trips of amounts, commands and announcements,
      optimality and termination of the path searches, liveness of the sweep,
      of the delivery of permissions and of the settlement of a mined transfer.
    - Counterexamples, closed and evaluated, where the code does not do what it
      means to: they are named in the doc comments of their theorems.

    ** Bounds and fuel

    Loops of the code that are not structural run with fuel, and are proved to
    end within it, so no theorem is conditional on it. The path search of
    [Travel] gets [2 * |routes| + 2] steps: each system is expanded once and
    pushes at most its routes; its reconstruction gets one step more than the
    number of predecessors. The searches of [Space] get one step more than the
    number of tiles, and the way back one step per tile. [trim] and the stripping
    of prefixes get the length of their string, the RLP reader of [PaymentChain]
    the length of its payload. [EscrowSafety.nested] bounds how
    deeply requests interrupt each other; its theorems hold for every depth.
    Integers keep their width: [i64], [u64], [u32], [u8] and [u128] wrap as in a
    release build unless the source saturates or checks. Doubles are
    [SpecFloat] numbers of 53 bits.

    ** What is not modelled

    - [load_or_new] and [persist] of the registries: JSON files on disk. The
      state they would read and write is the argument of the operations.
    - File locks and I/O errors of the kernel's files: an append is one atomic
      step. The SQLite file of the social store, its opening and migrations.
    - Cryptography, base64, serde's derived codecs: parameters with named laws,
      each inhabited by a concrete instance in the scenario modules.
    - Random identifiers and the system clock: arguments.
    - The HTTP transport, the gateway with its ledger, the swarm, language
      models and external services: they are not in the repository; their
      answers are arguments.
    - Handlers that only format a reply, the command line, backup archives.
    - Of the control plane: the social, board and core routes, the tools of the
      MCP server, world events of spaces and collective missions, whose handlers
      mostly gather and format what other components hold; resolving the target of
      a payment; binding wallet accounts. Of the kernel: the swarm bridge, the
      service-network clients and the adapters to language models, which are
      requests to external services and the shapes of their answers. *)

From stdpp Require Export base gmap strings list sorting numbers ssreflect.
From Stdlib Require Export ZArith.

#[global] Open Scope Z_scope.
#[global] Set Default Proof Using "Type".

(** ** Results

    [result A] is Rust's [anyhow::Result<A>]; an error keeps the text of its
    outermost message. *)

Inductive result (A : Type) : Type :=
  | Ok (a : A)
  | Err (msg : string).
Arguments Ok {A} _.
Arguments Err {A} _.

#[global] Instance result_eq_dec `{EqDecision A} : EqDecision (result A).
Proof. solve_decision. Defined.

Definition is_ok {A} (r : result A) : bool := match r with Ok _ => true | Err _ => false end.

#[global] Instance result_ret : MRet result := λ A a, Ok a.
#[global] Instance result_bind : MBind result := λ A B k r,
  match r with Ok a => k a | Err e => Err e end.
#[global] Instance result_fmap : FMap result := λ A B f r,
  match r with Ok a => Ok (f a) | Err e => Err e end.

(** [Option::context] / [ok_or_else]. *)
Definition ok_or {A} (e : string) (o : option A) : result A :=
  match o with Some a => Ok a | None => Err e end.

(** [Result::context]: the new message becomes the outermost one. *)
Definition with_context {A} (e : string) (r : result A) : result A :=
  match r with Ok a => Ok a | Err _ => Err e end.

(** [Result::ok]. *)
Definition result_ok {A} (r : result A) : option A :=
  match r with Ok a => Some a | Err _ => None end.

(** [Option::filter]. *)
Definition option_filter {A} (f : A → bool) (o : option A) : option A :=
  match o with Some a => if f a then Some a else None | None => None end.

(** [anyhow::ensure!] in a function without state. *)
Definition ensure_ok (b : bool) (msg : string) : result unit := if b then Ok tt else Err msg.

Lemma ensure_ok_ok b e u : ensure_ok b e = Ok u → b = true.
Proof. by destruct b. Qed.

(** ** State and errors

    A method that takes [&mut self] and returns [Result<A>] is a function from
    the state to a result {e and} a state: in Rust an early return keeps
    whatever was already written through the reference. *)

Definition stm (S A : Type) : Type := S → result A * S.

Section stm.
Context {S : Type}.

#[global] Instance stm_ret : MRet (stm S) := λ A a s, (Ok a, s).
#[global] Instance stm_bind : MBind (stm S) := λ A B k m s,
  match m s with
  | (Ok a, s') => k a s'
  | (Err e, s') => (Err e, s')
  end.

Definition bail {A} (e : string) : stm S A := λ s, (Err e, s).
Definition ensure (b : bool) (e : string) : stm S unit :=
  λ s, if b then (Ok tt, s) else (Err e, s).
Definition gets {A} (f : S → A) : stm S A := λ s, (Ok (f s), s).
Definition modify (f : S → S) : stm S unit := λ s, (Ok tt, f s).
Definition lift {A} (r : result A) : stm S A := λ s, (r, s).

(** The outcome and the final state of a run. *)
Definition outcome {A} (m : stm S A) (s : S) : result A := (m s).1.
Definition exec {A} (m : stm S A) (s : S) : S := (m s).2.

Lemma bind_ok_inv {A B} (m : stm S A) (k : A → stm S B) s b s' :
  (m ≫= k) s = (Ok b, s') →
  ∃ a s1, m s = (Ok a, s1) ∧ k a s1 = (Ok b, s').
Proof.
  rewrite /mbind /stm_bind. destruct (m s) as [[a|e] s1]; [eauto|done].
Qed.

Lemma ensure_ok_inv b e s u s' :
  ensure b e s = (Ok u, s') → b = true ∧ s' = s.
Proof. rewrite /ensure. by destruct b; intros [=]. Qed.

Lemma lift_ok_inv {A} (r : result A) s a s' :
  lift r s = (Ok a, s') → r = Ok a ∧ s' = s.
Proof. by intros [=]. Qed.

Lemma ok_or_inv {A} e (o : option A) a : ok_or e o = Ok a → o = Some a.
Proof. by destruct o; intros [=->]. Qed.
End stm.

Lemma with_context_ok_inv {A} e (r : result A) a : with_context e r = Ok a → r = Ok a.
Proof. by destruct r; intros [=->]. Qed.

(** The same, as equivalences on results. *)
Lemma result_bind_ok {A B} (r : result A) (k : A → result B) b :
  (r ≫= k) = Ok b ↔ ∃ a, r = Ok a ∧ k a = Ok b.
Proof. destruct r; rewrite /mbind /=; naive_solver. Qed.

Lemma ok_or_ok {A} e (o : option A) a : ok_or e o = Ok a ↔ o = Some a.
Proof. destruct o; rewrite /ok_or; naive_solver. Qed.

Lemma with_context_ok {A} e (r : result A) a : with_context e r = Ok a ↔ r = Ok a.
Proof. destruct r; rewrite /with_context; naive_solver. Qed.

(** Inverts a successful run into the facts its guards established. *)
Ltac run_inv_step :=
  match goal with
  | H : (_ ≫= _) _ = (Ok _, _) |- _ =>
      let H1 := fresh "Hrun" in let H2 := fresh "Hrun" in
      apply bind_ok_inv in H as (? & ? & H1 & H2)
  | H : ensure _ _ _ = (Ok _, _) |- _ =>
      let Hb := fresh "Hguard" in apply ensure_ok_inv in H as [Hb ->]
  | H : lift (ok_or _ _) _ = (Ok _, _) |- _ =>
      let Hl := fresh "Hget" in
      apply lift_ok_inv in H as [Hl ->]; apply ok_or_inv in Hl
  | H : lift (with_context _ _) _ = (Ok _, _) |- _ =>
      let Hl := fresh "Hres" in
      apply lift_ok_inv in H as [Hl ->]; apply with_context_ok_inv in Hl
  | H : lift _ _ = (Ok _, _) |- _ =>
      let Hl := fresh "Hres" in apply lift_ok_inv in H as [Hl ->]
  | H : gets _ _ = (Ok _, _) |- _ => cbv [gets] in H; injection H as <- <-
  | H : modify _ _ = (Ok _, _) |- _ => cbv [modify] in H; injection H as <- <-
  | H : mret _ _ = (Ok _, _) |- _ => cbv [mret stm_ret] in H; injection H as <- <-
  | H : bail _ _ = (Ok _, _) |- _ => discriminate H
  | H : context [if ?b then _ else _] |- _ =>
      match type of H with _ = (Ok _, _) => destruct b eqn:? end
  | H : context [match ?o with Some _ => _ | None => _ end] |- _ =>
      match type of H with _ = (Ok _, _) => destruct o eqn:? end
  end.
Ltac run_inv := repeat (run_inv_step; simpl in *).

(** Runs an operation symbolically: one goal per control-flow path, the guards
    passed on the way as hypotheses. *)
Ltac stm_cases :=
  cbv [mbind stm_bind ensure gets modify lift bail mret stm_ret ok_or];
  repeat (case_match; simplify_eq/=).

(** Successive readings of [Utc::now().timestamp()] within one call: the
    [n]-th reading of the call is [clk n]. *)
Notation clock := (nat → Z).

(** ** Record update

    [r <| field := v |>] and [r <| field ::= f |>]; a record is declared
    updatable by an [eta] instance listing its fields. *)

Class Eta (R : Type) := eta : R → R.

Class Setter {R T : Type} (proj : R → T) := set_field : (T → T) → R → R.
Arguments set_field {R T} proj {_} _ _.

Ltac head_of t := lazymatch t with ?f _ => head_of f | _ => t end.
Ltac derive_setter :=
  lazymatch goal with
  | |- @Setter ?R ?T ?proj =>
      let inst := constr:(_ : Eta R) in
      let inst := lazymatch inst with ?i => i end in
      let h := head_of inst in
      let e := eval cbv beta delta [h] in inst in
      exact (λ (f : T → T) (r : R),
        ltac:(let body := eval cbv beta in (e r) in
              lazymatch (eval pattern (proj r) in body) with
              | ?k _ => let b := eval cbv beta in (k (f (proj r))) in exact b
              end))
  end.
#[global] Hint Extern 1 (Setter _) => derive_setter : typeclass_instances.

Declare Scope watt_scope.
Delimit Scope watt_scope with watt.
#[global] Open Scope watt_scope.
Notation "r <| p ::= f |>" := (set_field p f r)
  (at level 12, left associativity) : watt_scope.
Notation "r <| p := v |>" := (set_field p (λ _, v) r)
  (at level 12, left associativity) : watt_scope.

(** ** Machine integers

    Signed 64-bit arithmetic wraps around, as in a release build; the
    saturating and checked operations are the ones the sources call. *)

Definition i64_min : Z := - 2 ^ 63.
Definition i64_max : Z := 2 ^ 63 - 1.
Definition u128_max : Z := 2 ^ 128 - 1.

Definition wrap_i64 (z : Z) : Z := (z + 2 ^ 63) mod 2 ^ 64 - 2 ^ 63.
Definition i64_add (a b : Z) : Z := wrap_i64 (a + b).
Definition i64_sub (a b : Z) : Z := wrap_i64 (a - b).
Definition i64_mul (a b : Z) : Z := wrap_i64 (a * b).

(** A value that fits a signed 64-bit integer. *)
Definition is_i64 (z : Z) : Prop := i64_min ≤ z ≤ i64_max.

Definition clamp (lo hi z : Z) : Z := Z.min hi (Z.max lo z).

(** [i64::saturating_sub]. *)
Definition i64_saturating_sub (a b : Z) : Z := clamp i64_min i64_max (a - b).

Definition u8_saturating_add (a b : Z) : Z := Z.min 255 (a + b).
Definition u8_saturating_sub (a b : Z) : Z := Z.max 0 (a - b).
Definition u8_wrap (z : Z) : Z := z mod 256.
Definition u32_max : Z := 2 ^ 32 - 1.
Definition u32_saturating_add (a b : Z) : Z := Z.min u32_max (a + b).
Definition u32_wrap (z : Z) : Z := z mod 2 ^ 32.

Definition u8_max : Z := 255.
Definition u64_max : Z := 2 ^ 64 - 1.

Definition uint_checked (max z : Z) : option Z :=
  if (0 <=? z) && (z <=? max) then Some z else None.
Definition u128_checked : Z → option Z := uint_checked u128_max.

Lemma wrap_i64_id z : is_i64 z → wrap_i64 z = z.
Proof.
  rewrite /is_i64 /i64_min /i64_max /wrap_i64 => ?.
  rewrite Z.mod_small; lia.
Qed.

Lemma wrap_i64_range z : is_i64 (wrap_i64 z).
Proof.
  rewrite /is_i64 /i64_min /i64_max /wrap_i64.
  pose proof (Z.mod_pos_bound (z + 2 ^ 63) (2 ^ 64)). lia.
Qed.

Lemma clamp_range lo hi z : lo ≤ hi → lo ≤ clamp lo hi z ≤ hi.
Proof. rewrite /clamp. lia. Qed.

Create HintDb watt.
#[export] Hint Resolve wrap_i64_range clamp_range : watt.

Ltac bool_to_prop :=
  repeat match goal with
  | H : andb _ _ = true |- _ => apply andb_true_iff in H as [? ?]
  | H : negb _ = true |- _ => apply negb_true_iff in H
  | H : negb _ = false |- _ => apply negb_false_iff in H
  | H : orb _ _ = false |- _ => apply orb_false_iff in H as [? ?]
  | H : orb _ _ = true |- _ => apply orb_true_iff in H as [?|?]
  | H : bool_decide _ = true |- _ => apply bool_decide_eq_true in H
  | H : bool_decide _ = false |- _ => apply bool_decide_eq_false in H
  | H : (_ <=? _)%Z = true |- _ => apply Z.leb_le in H
  | H : (_ <=? _)%Z = false |- _ => apply Z.leb_gt in H
  | H : (_ <? _)%Z = true |- _ => apply Z.ltb_lt in H
  | H : (_ <? _)%Z = false |- _ => apply Z.ltb_ge in H
  | H : (_ =? _)%Z = true |- _ => apply Z.eqb_eq in H
  | H : (_ =? _)%Z = false |- _ => apply Z.eqb_neq in H
  | H : (_ <=? _)%nat = true |- _ => apply Nat.leb_le in H
  | H : (_ <=? _)%nat = false |- _ => apply Nat.leb_gt in H
  | H : (_ <? _)%nat = true |- _ => apply Nat.ltb_lt in H
  | H : (_ <? _)%nat = false |- _ => apply Nat.ltb_ge in H
  | H : String.eqb _ _ = true |- _ => apply String.eqb_eq in H
  | H : String.eqb _ _ = false |- _ => apply String.eqb_neq in H
  end.
