(* ===== verification/Collections.v ===== *)
(** * Ordered collections

    The standard-library collections the kernel relies on: stable sorting
    ([slice::sort_by], [sort_by_key]) and the ordered traversal of a
    [BTreeMap<String, V>] / [BTreeSet<String>], which are [gmap string V] and
    [gset string] here and are listed in the byte order of their keys. *)

From S2P Require Import Prelude.
From Stdlib Require Import OrderedTypeEx.

(** ** Stable sorting *)

Section sort.
Context {A : Type} (leb : A → A → bool).

Fixpoint insert_by (x : A) (l : list A) : list A :=
  match l with
  | [] => [x]
  | y :: l' => if leb x y then x :: l else y :: insert_by x l'
  end.

(** [sort_by] keeps the relative order of elements that compare equal. *)
Definition sort_by (l : list A) : list A := foldr insert_by [] l.

Lemma insert_by_perm x l : insert_by x l ≡ₚ x :: l.
Proof.
  induction l as [|y l IH]; simpl; [done|].
  case_match; [done|]. rewrite IH. by constructor.
Qed.

Lemma sort_by_perm l : sort_by l ≡ₚ l.
Proof.
  induction l as [|x l IH]; simpl; [done|]. by rewrite insert_by_perm IH.
Qed.

Lemma elem_of_sort_by x l : x ∈ sort_by l ↔ x ∈ l.
Proof. by rewrite sort_by_perm. Qed.

Lemma length_sort_by l : length (sort_by l) = length l.
Proof. by rewrite sort_by_perm. Qed.

(** Stability: the elements of any class whose members all compare equal
    keep their order. *)
Lemma insert_by_filter (P : A → bool) x l :
  (∀ y, y ∈ l → P x = true → P y = true → leb x y = true) →
  List.filter P (insert_by x l) = List.filter P (x :: l).
Proof.
  induction l as [|y l IH]; intros HP; [done|]. simpl.
  destruct (leb x y) eqn:Hxy; [done|]. simpl.
  rewrite IH; [|set_solver]. simpl.
  destruct (P x) eqn:Hx, (P y) eqn:Hy; try done.
  rewrite HP // in Hxy. set_solver.
Qed.

Lemma sort_by_stable (P : A → bool) l :
  (∀ x y, P x = true → P y = true → leb x y = true) →
  List.filter P (sort_by l) = List.filter P l.
Proof.
  intros HP. induction l as [|x l IH]; [done|]. simpl.
  rewrite insert_by_filter; [|eauto]. simpl. by rewrite IH.
Qed.

Context (leb_total : ∀ x y, leb x y = true ∨ leb y x = true).

Lemma insert_by_sorted x l :
  Sorted (λ a b, leb a b = true) l → Sorted (λ a b, leb a b = true) (insert_by x l).
Proof using leb_total.
  induction 1 as [|y l Hl IH Hd]; simpl; [by repeat constructor|].
  destruct (leb x y) eqn:Hxy; [by repeat constructor|].
  constructor; [done|].
  destruct (leb_total x y) as [|Hyx]; [congruence|].
  destruct l as [|z l]; simpl; [by constructor|].
  case_match; constructor; [done|]. by inversion Hd.
Qed.

Lemma sort_by_sorted l : Sorted (λ a b, leb a b = true) (sort_by l).
Proof using leb_total.
  induction l as [|x l IH]; simpl; [constructor|]. by apply insert_by_sorted.
Qed.
End sort.

(** [sort_by_key (Reverse (key x))] and [sort_by_key (key x)] on integers. *)
Definition sort_by_key {A} (key : A → Z) : list A → list A :=
  sort_by (λ x y, key x <=? key y).
Definition sort_by_key_rev {A} (key : A → Z) : list A → list A :=
  sort_by (λ x y, key y <=? key x).

Lemma Sorted_weaken {A} (R S : A → A → Prop) l :
  (∀ x y, R x y → S x y) → Sorted R l → Sorted S l.
Proof.
  intros HRS. induction 1 as [|x l _ IH Hhd]; constructor; [done|].
  destruct Hhd; constructor. auto.
Qed.

Lemma StronglySorted_weaken {A} (R S : A → A → Prop) l :
  (∀ x y, R x y → S x y) → StronglySorted R l → StronglySorted S l.
Proof.
  intros HRS. induction 1 as [|x l _ IH Hall]; constructor; [done|].
  eapply Forall_impl; [done|]. eauto.
Qed.

Lemma StronglySorted_app_rel {A} (R : A → A → Prop) l1 l2 x y :
  StronglySorted R (l1 ++ l2) → x ∈ l1 → y ∈ l2 → R x y.
Proof.
  induction l1 as [|a l1 IH]; [by intros _ ?%elem_of_nil|].
  intros Hss. apply StronglySorted_inv in Hss as [Hss Hall].
  intros [->|Hx]%elem_of_cons Hy; [|by apply IH].
  rewrite Forall_forall in Hall. apply Hall. apply elem_of_app. by right.
Qed.

Lemma sort_by_key_rev_sorted {A} (key : A → Z) l :
  StronglySorted (λ a b, key b ≤ key a) (sort_by_key_rev key l).
Proof.
  apply (StronglySorted_weaken (λ a b, (key b <=? key a) = true));
    [intros a b; by rewrite Z.leb_le|].
  apply Sorted_StronglySorted; [|apply sort_by_sorted]; intros ??; rewrite ?Z.leb_le; intros; lia.
Qed.

Lemma sort_by_key_sorted {A} (key : A → Z) l :
  StronglySorted (λ a b, key a ≤ key b) (sort_by_key key l).
Proof.
  apply (StronglySorted_weaken (λ a b, (key a <=? key b) = true));
    [intros a b; by rewrite Z.leb_le|].
  apply Sorted_StronglySorted; [|apply sort_by_sorted]; intros ??; rewrite ?Z.leb_le; intros; lia.
Qed.

(** ** Byte order on strings *)

Definition str_leb (s t : string) : bool :=
  match String.compare s t with Gt => false | _ => true end.
Definition str_ltb (s t : string) : bool :=
  match String.compare s t with Lt => true | _ => false end.

Lemma str_leb_total s t : str_leb s t = true ∨ str_leb t s = true.
Proof.
  rewrite /str_leb (String.compare_antisym t s).
  destruct (String.compare s t); simpl; auto.
Qed.

Lemma str_leb_refl s : str_leb s s = true.
Proof. destruct (str_leb_total s s); done. Qed.

Lemma str_leb_antisym s t : str_leb s t = true → str_leb t s = true → s = t.
Proof.
  rewrite /str_leb (String.compare_antisym t s).
  destruct (String.compare s t) eqn:E; simpl; try done.
  by apply String.compare_eq_iff in E.
Qed.

Lemma ascii_compare_trans a b c :
  Ascii.compare a b = Lt → Ascii.compare b c = Lt → Ascii.compare a c = Lt.
Proof. rewrite /Ascii.compare !N.compare_lt_iff. lia. Qed.

Lemma str_compare_trans s t u :
  String.compare s t = Lt → String.compare t u = Lt → String.compare s u = Lt.
Proof.
  revert t u. induction s as [|a s IH]; intros [|b t] [|c u]; simpl; try done.
  destruct (Ascii.compare a b) eqn:E; try done.
  - apply Ascii.compare_eq_iff in E as ->. destruct (Ascii.compare b c); try done. apply IH.
  - intros _. destruct (Ascii.compare b c) eqn:E'; try done; intros H.
    + apply Ascii.compare_eq_iff in E' as <-. by rewrite E.
    + by rewrite (ascii_compare_trans a b c).
Qed.

Lemma str_leb_trans s t u : str_leb s t = true → str_leb t u = true → str_leb s u = true.
Proof.
  rewrite /str_leb. destruct (String.compare s t) eqn:E; try done.
  { apply String.compare_eq_iff in E as ->. done. }
  destruct (String.compare t u) eqn:E'; try done; intros _ _.
  - apply String.compare_eq_iff in E' as <-. by rewrite E.
  - by rewrite (str_compare_trans s t u).
Qed.

Lemma sort_by_str_sorted l : StronglySorted (λ s t, str_leb s t = true) (sort_by str_leb l).
Proof.
  apply Sorted_StronglySorted; [intros s t u; apply str_leb_trans|].
  apply sort_by_sorted, str_leb_total.
Qed.

(** Sorted lists of strings with the same elements are equal. *)
Lemma sort_by_str_perm l l' : l ≡ₚ l' → sort_by str_leb l = sort_by str_leb l'.
Proof.
  intros Hp. apply (StronglySorted_unique_strong (λ s t, str_leb s t = true)).
  - intros s t _ _. apply str_leb_antisym.
  - apply sort_by_str_sorted.
  - apply sort_by_str_sorted.
  - by rewrite !sort_by_perm.
Qed.

(** ** Maps and sets in key order *)

Definition btree_entries {V} (m : gmap string V) : list (string * V) :=
  sort_by (λ p q, str_leb p.1 q.1) (map_to_list m).
Definition btree_values {V} (m : gmap string V) : list V := (btree_entries m).*2.
Definition btree_set_list (s : gset string) : list string :=
  sort_by str_leb (elements s).

Section btree.
Context {V : Type}.
Implicit Types (m : gmap string V) (v : V) (k : string).

Lemma elem_of_btree_entries m k v : (k, v) ∈ btree_entries m ↔ m !! k = Some v.
Proof. by rewrite elem_of_sort_by elem_of_map_to_list. Qed.

Lemma elem_of_btree_values m v : v ∈ btree_values m ↔ ∃ k, m !! k = Some v.
Proof.
  rewrite /btree_values list_elem_of_fmap. split.
  - intros ([k w] & -> & H). exists k. by apply elem_of_btree_entries.
  - intros [k H]. exists (k, v). by rewrite elem_of_btree_entries.
Qed.

Lemma btree_entries_sorted m :
  Sorted (λ p q, str_leb p.1 q.1 = true) (btree_entries m).
Proof. apply sort_by_sorted. intros; apply str_leb_total. Qed.

Lemma btree_entries_NoDup m : NoDup (btree_entries m).*1.
Proof.
  rewrite /btree_entries sort_by_perm. apply NoDup_fst_map_to_list.
Qed.

Lemma length_btree_values m : length (btree_values m) = size m.
Proof.
  rewrite /btree_values length_fmap /btree_entries length_sort_by.
  by rewrite length_map_to_list.
Qed.
End btree.

Lemma elem_of_btree_set_list (s : gset string) x : x ∈ btree_set_list s ↔ x ∈ s.
Proof. by rewrite /btree_set_list elem_of_sort_by elem_of_elements. Qed.

(** [Option::is_none_or] and [Option::is_some_and]. *)
Definition is_none_or {A} (P : A → bool) (o : option A) : bool :=
  match o with Some a => P a | None => true end.
Definition is_some_and {A} (P : A → bool) (o : option A) : bool :=
  match o with Some a => P a | None => false end.

(** [Iterator::filter]. *)
Lemma elem_of_filterb {A} (P : A → bool) l x :
  x ∈ List.filter P l ↔ x ∈ l ∧ P x = true.
Proof. by rewrite list_elem_of_In filter_In -list_elem_of_In. Qed.

Lemma filterb_sublist {A} (P : A → bool) l : List.filter P l `sublist_of` l.
Proof. induction l; simpl; [constructor|]. case_match; by constructor. Qed.

(** [Iterator::find]. *)
Fixpoint find_first {A} (P : A → bool) (l : list A) : option A :=
  match l with
  | [] => None
  | x :: l' => if P x then Some x else find_first P l'
  end.

Lemma find_first_Some {A} (P : A → bool) l x :
  find_first P l = Some x → P x = true ∧ x ∈ l.
Proof.
  induction l as [|y l IH]; simpl; [done|]. destruct (P y) eqn:E.
  - intros [= ->]. set_solver.
  - intros H. apply IH in H. set_solver.
Qed.

Lemma find_first_None {A} (P : A → bool) l :
  find_first P l = None ↔ ∀ x, x ∈ l → P x = false.
Proof.
  induction l as [|y l IH]; simpl; [set_solver|]. destruct (P y) eqn:E.
  - split; [done|]. intros H. by rewrite (H y) in E; [|set_solver].
  - rewrite IH. set_solver.
Qed.

(** [Iterator::any] and [Iterator::all]. *)
Lemma existsb_elem_of {A} (P : A → bool) l :
  existsb P l = true ↔ ∃ x, x ∈ l ∧ P x = true.
Proof.
  rewrite existsb_exists. by setoid_rewrite list_elem_of_In.
Qed.

Lemma forallb_elem_of {A} (P : A → bool) l :
  forallb P l = true ↔ ∀ x, x ∈ l → P x = true.
Proof. rewrite forallb_forall. by setoid_rewrite list_elem_of_In. Qed.

(** [i64] sums fold with wrap-around addition. *)
Definition i64_sum (l : list Z) : Z := foldl i64_add 0 l.
Definition zsum (l : list Z) : Z := foldr Z.add 0 l.

Lemma zsum_cons x l : zsum (x :: l) = x + zsum l.
Proof. done. Qed.

Lemma zsum_nonneg l : Forall (λ x, 0 ≤ x) l → 0 ≤ zsum l.
Proof. induction 1 as [|x l Hx _ IH]; [done|]. rewrite zsum_cons. lia. Qed.

Lemma zsum_app l1 l2 : zsum (l1 ++ l2) = zsum l1 + zsum l2.
Proof. rewrite /zsum. induction l1; simpl; lia. Qed.

Lemma zsum_perm l1 l2 : l1 ≡ₚ l2 → zsum l1 = zsum l2.
Proof. rewrite /zsum. induction 1; simpl; lia. Qed.

(** ** Iterators *)

(** [iter().map(..).collect::<Result<Vec<_>>>()]. *)
Fixpoint collect {A B} (f : A → result B) (l : list A) : result (list B) :=
  match l with
  | [] => Ok []
  | x :: l' => y ← f x; ys ← collect f l'; Ok (y :: ys)
  end.

(** [Option::or_else]. *)
Definition or_else {A} (o o' : option A) : option A :=
  match o with Some a => Some a | None => o' end.

(** [Iterator::find_map]. *)
Fixpoint find_map {A B} (f : A → option B) (l : list A) : option B :=
  match l with
  | [] => None
  | x :: l' => match f x with Some y => Some y | None => find_map f l' end
  end.

Lemma collect_app {A B} (f : A → result B) l1 l2 b1 b2 :
  collect f l1 = Ok b1 → collect f l2 = Ok b2 → collect f (l1 ++ l2) = Ok (b1 ++ b2).
Proof.
  revert b1. induction l1 as [|x l1 IH]; intros b1 H1 H2; simpl in *; [by simplify_eq|].
  apply result_bind_ok in H1 as (y & -> & H1). apply result_bind_ok in H1 as (ys & Hys & [= <-]).
  by rewrite /= (IH ys).
Qed.

Lemma length_filter_le {A} (P Q : A → bool) l :
  (∀ x, P x = true → Q x = true) →
  (length (List.filter P l) ≤ length (List.filter Q l))%nat.
Proof.
  intros HPQ. induction l as [|x l IH]; simpl; [lia|].
  destruct (P x) eqn:E; [rewrite (HPQ x E) /=; lia|]. destruct (Q x); simpl; lia.
Qed.

Lemma filter_filter {A} (f g : A → bool) l :
  List.filter f (List.filter g l) = List.filter (λ x, g x && f x) l.
Proof.
  induction l as [|x l IH]; [done|]. cbn. destruct (g x); cbn; [|done].
  destruct (f x); [by f_equal|done].
Qed.

Lemma NoDup_omap_inj {A B} (f : A → option B) l :
  (∀ x y b, x ∈ l → y ∈ l → f x = Some b → f y = Some b → x = y) → NoDup l → NoDup (omap f l).
Proof.
  intros Hinj. induction 1 as [|x l Hx _ IH]; cbn; [constructor|].
  assert (NoDup (omap f l)) as Hl.
  { apply IH. intros y z b Hy Hz. apply Hinj; by right. }
  destruct (f x) as [b|] eqn:E; [|done]. constructor; [|done].
  intros (y & Hy & Ey)%list_elem_of_omap. apply Hx.
  rewrite (Hinj x y b) //; [by left|by right].
Qed.

Lemma NoDup_fmap_snoc {A B} (key : A → B) l x :
  NoDup (key <$> l) → key x ∉ key <$> l → NoDup (key <$> (l ++ [x])).
Proof.
  intros Hl Hx. rewrite fmap_app. apply NoDup_app. split_and!; [done| |apply NoDup_singleton].
  intros k Hk ->%list_elem_of_singleton. done.
Qed.

Lemma filter_fmap {A B} (P : B → bool) (f : A → B) l :
  List.filter P (f <$> l) = f <$> List.filter (λ x, P (f x)) l.
Proof. induction l as [|x l IH]; cbn; [done|]. rewrite IH. by destruct (P (f x)). Qed.

Lemma sort_by_fmap {A B} (leb : B → B → bool) (f : A → B) l :
  sort_by leb (f <$> l) = f <$> sort_by (λ x y, leb (f x) (f y)) l.
Proof.
  assert (∀ x l, insert_by leb (f x) (f <$> l) = f <$> insert_by (λ x y, leb (f x) (f y)) x l) as Hi.
  { intros x k. induction k as [|y k IH]; cbn; [done|]. destruct (leb (f x) (f y)); cbn; [done|].
    by rewrite -IH. }
  induction l as [|x l IH]; cbn; [done|]. rewrite /sort_by /= in IH |- *. by rewrite IH Hi.
Qed.
