(* ===== verification/Text.v ===== *)
(** * Strings

    A Rust [String] / [&str] is its sequence of UTF-8 bytes, a Rocq [string].
    This file has the string operations of the standard library the kernel
    uses: [trim] (Unicode white space, on the encoded bytes), ASCII case
    mapping, and decimal printing of integers ([format!]). *)

From S2P Require Import Prelude.
From stdpp Require Export pretty.
From Stdlib Require Export Ascii.

Notation bytes := (list Ascii.ascii).
Notation to_bytes := String.list_ascii_of_string.
Notation of_bytes := String.string_of_list_ascii.

(** ** Trimming *)

(** The UTF-8 encodings of the code points with the White_Space property. *)
Definition ws_encodings : list bytes :=
  (map ascii_of_nat) <$>
    ([[9]; [10]; [11]; [12]; [13]; [32]; [194; 133]; [194; 160]; [225; 154; 128]]
     ++ ((λ b, [226; 128; b]) <$> seq 128 11)
     ++ [[226; 128; 168]; [226; 128; 169]; [226; 128; 175]; [226; 129; 159];
         [227; 128; 128]])%nat.

Fixpoint strip_prefix (p s : bytes) : option bytes :=
  match p, s with
  | [], _ => Some s
  | x :: p', y :: s' => if Ascii.eqb x y then strip_prefix p' s' else None
  | _ :: _, [] => None
  end.

Fixpoint strip_any (encs : list bytes) (s : bytes) : option bytes :=
  match encs with
  | [] => None
  | p :: encs' =>
      match strip_prefix p s with Some s' => Some s' | None => strip_any encs' s end
  end.

Fixpoint trim_go (encs : list bytes) (fuel : nat) (s : bytes) : bytes :=
  match fuel with
  | O => s
  | S n => match strip_any encs s with Some s' => trim_go encs n s' | None => s end
  end.

Definition trim_front (encs : list bytes) (s : bytes) : bytes :=
  trim_go encs (length s) s.

Definition trim_bytes (s : bytes) : bytes :=
  reverse (trim_front (reverse <$> ws_encodings) (reverse (trim_front ws_encodings s))).

(** [str::trim]. *)
Definition trim (s : string) : string := of_bytes (trim_bytes (to_bytes s)).

Definition is_blank (s : string) : bool := String.eqb (trim s) "".

Lemma strip_prefix_Some p s s' : strip_prefix p s = Some s' ↔ s = p ++ s'.
Proof.
  revert s. induction p as [|x p IH]; intros s; simpl; [naive_solver|].
  destruct s as [|y s]; [naive_solver|].
  destruct (Ascii.eqb_spec x y) as [->|Hne]; [rewrite IH; naive_solver|naive_solver].
Qed.

Lemma strip_any_Some encs s s' :
  strip_any encs s = Some s' → ∃ p, p ∈ encs ∧ s = p ++ s'.
Proof.
  induction encs as [|p encs IH]; simpl; [done|].
  destruct (strip_prefix p s) eqn:E.
  - intros [= ->]. apply strip_prefix_Some in E. set_solver.
  - intros H. destruct (IH H) as (q & Hq & ->). set_solver.
Qed.

Lemma strip_any_None encs s :
  strip_any encs s = None ↔ ∀ p s', p ∈ encs → s ≠ p ++ s'.
Proof.
  induction encs as [|p encs IH]; simpl; [set_solver|].
  destruct (strip_prefix p s) as [s1|] eqn:E.
  - split; [done|]. intros H. apply strip_prefix_Some in E. by destruct (H p s1); set_solver.
  - rewrite IH. split.
    + intros H q s' [->|Hq]%elem_of_cons; [|by apply H].
      intros Hs. apply strip_prefix_Some in Hs. congruence.
    + intros H q s' Hq. apply H. set_solver.
Qed.

Section trim.
Context (encs : list bytes) (Hne : ∀ p, p ∈ encs → p ≠ []).

Lemma trim_go_spec n s :
  (length s ≤ n)%nat →
  strip_any encs (trim_go encs n s) = None ∧ ∃ q, s = q ++ trim_go encs n s.
Proof using Hne.
  revert s. induction n as [|n IH]; intros s Hn; simpl.
  - destruct s; [|simpl in Hn; lia]. split; [|by exists []].
    apply strip_any_None. intros p s' Hp Heq.
    destruct p; [by apply Hne in Hp|done].
  - destruct (strip_any encs s) as [s'|] eqn:E; [|split; [done|by exists []]].
    apply strip_any_Some in E as (p & Hp & ->).
    destruct (IH s') as [H1 [q Hq]].
    { rewrite length_app in Hn. destruct p; [by apply Hne in Hp|]. simpl in Hn. lia. }
    split; [done|]. exists (p ++ q). by rewrite -app_assoc -Hq.
Qed.

Lemma trim_front_None s : strip_any encs s = None → trim_front encs s = s.
Proof. rewrite /trim_front. destruct s; [done|]. simpl. by intros ->. Qed.

Lemma trim_front_clean s : strip_any encs (trim_front encs s) = None.
Proof using Hne. by apply trim_go_spec. Qed.

Lemma trim_front_suffix s : ∃ q, s = q ++ trim_front encs s.
Proof using Hne. by apply trim_go_spec. Qed.
End trim.

Lemma ws_encodings_ne p : p ∈ ws_encodings → p ≠ [].
Proof.
  intros Hp ->. assert (bool_decide ([] ∈ ws_encodings) = false) as E by by vm_compute.
  by apply bool_decide_eq_false in E.
Qed.

Lemma ws_encodings_rev_ne p : p ∈ reverse <$> ws_encodings → p ≠ [].
Proof.
  intros (q & -> & Hq)%list_elem_of_fmap Hr.
  apply (f_equal (@reverse Ascii.ascii)) in Hr. rewrite reverse_involutive in Hr.
  by apply ws_encodings_ne in Hq.
Qed.

(** A trimmed string has no white space left at either end: trimming again
    changes nothing. *)
Lemma trim_idem s : trim (trim s) = trim s.
Proof.
  rewrite /trim String.list_ascii_of_string_of_list_ascii. f_equal.
  rewrite {2}/trim_bytes. set (t := trim_front ws_encodings (to_bytes s)).
  assert (strip_any ws_encodings t = None) as Ht.
  { apply trim_front_clean. apply ws_encodings_ne. }
  set (u := trim_front (reverse <$> ws_encodings) (reverse t)).
  assert (strip_any (reverse <$> ws_encodings) u = None) as Hu.
  { apply trim_front_clean. apply ws_encodings_rev_ne. }
  destruct (trim_front_suffix _ ws_encodings_rev_ne (reverse t)) as [q Hq]. fold u in Hq.
  assert (t = reverse u ++ reverse q) as Hsplit.
  { by rewrite -(reverse_involutive t) Hq reverse_app. }
  rewrite /trim_bytes.
  rewrite (trim_front_None ws_encodings (reverse u)).
  - rewrite reverse_involutive. by rewrite (trim_front_None _ u).
  - apply strip_any_None. intros p s' Hp Heq.
    rewrite strip_any_None in Ht. apply (Ht p (s' ++ reverse q) Hp).
    by rewrite Hsplit Heq app_assoc.
Qed.

Lemma trim_go_concat encs n s :
  ∃ ps, Forall (λ p, p ∈ encs) ps ∧ s = concat ps ++ trim_go encs n s.
Proof.
  revert s. induction n as [|n IH]; intros s; simpl; [by exists []|].
  destruct (strip_any encs s) as [s'|] eqn:E; [|by exists []].
  apply strip_any_Some in E as (p & Hp & ->). destruct (IH s') as (ps & Hps & Hs).
  exists (p :: ps). split; [by constructor|]. simpl. by rewrite -app_assoc -Hs.
Qed.

Lemma reverse_concat_head (encs : list bytes) ps c rest :
  Forall (λ p, p ∈ reverse <$> encs) ps → reverse (concat ps) = c :: rest →
  ∃ e, e ∈ encs ∧ head e = Some c.
Proof.
  revert rest. induction ps as [|p ps IH]; intros rest Hps; [done|].
  apply Forall_cons in Hps as [Hp Hps]. simpl. rewrite reverse_app.
  destruct (reverse (concat ps)) as [|c' rest'] eqn:E.
  - simpl. intros Hr. apply list_elem_of_fmap in Hp as (e & -> & He).
    rewrite reverse_involutive in Hr. exists e. split; [done|by rewrite Hr].
  - simpl. intros [= <- _]. by eapply IH.
Qed.

(** A string that starts with a byte no white space starts with is not blank. *)
Lemma not_blank_head c s :
  forallb (λ e, negb (bool_decide (head e = Some c))) ws_encodings = true →
  is_blank (String c s) = false.
Proof.
  intros Hc. assert (∀ e, e ∈ ws_encodings → head e ≠ Some c) as Hhead.
  { intros e He. rewrite forallb_forall in Hc. apply list_elem_of_In in He. specialize (Hc e He). by bool_to_prop. }
  apply String.eqb_neq. intros Hb. apply (f_equal to_bytes) in Hb.
  rewrite /trim String.list_ascii_of_string_of_list_ascii /trim_bytes in Hb. simpl in Hb.
  rewrite (trim_front_None ws_encodings) in Hb.
  2: { apply strip_any_None. intros [|x p] s' Hp; [by apply ws_encodings_ne in Hp|].
       intros [= <- _]. by destruct (Hhead _ Hp). }
  apply (f_equal reverse) in Hb. rewrite reverse_involutive in Hb.
  destruct (trim_go_concat (reverse <$> ws_encodings)
    (length (reverse (c :: to_bytes s))) (reverse (c :: to_bytes s))) as (ps & Hps & Heq).
  rewrite /trim_front in Hb. rewrite Hb app_nil_r in Heq.
  apply (f_equal reverse) in Heq. rewrite reverse_involutive in Heq.
  destruct (reverse_concat_head _ _ _ _ Hps (eq_sym Heq)) as (e & He & Hx). by destruct (Hhead e He).
Qed.

(** ** ASCII case *)

Definition ascii_lower (a : ascii) : ascii :=
  let n := nat_of_ascii a in
  if ((65 <=? n) && (n <=? 90))%nat then ascii_of_nat (n + 32) else a.
Definition ascii_upper (a : ascii) : ascii :=
  let n := nat_of_ascii a in
  if ((97 <=? n) && (n <=? 122))%nat then ascii_of_nat (n - 32) else a.

Definition to_ascii_lowercase (s : string) : string :=
  of_bytes (ascii_lower <$> to_bytes s).
Definition to_ascii_uppercase (s : string) : string :=
  of_bytes (ascii_upper <$> to_bytes s).
Definition eq_ignore_ascii_case (s t : string) : bool :=
  String.eqb (to_ascii_lowercase s) (to_ascii_lowercase t).

Definition is_ascii_digit (a : ascii) : bool :=
  let n := nat_of_ascii a in ((48 <=? n) && (n <=? 57))%nat.
Definition is_ascii_hexdigit (a : ascii) : bool :=
  let n := nat_of_ascii a in
  is_ascii_digit a || ((97 <=? n) && (n <=? 102))%nat || ((65 <=? n) && (n <=? 70))%nat.

(** [Option<&str>] normalised the way the code does it:
    [.map(str::trim).filter(|s| !s.is_empty())]. *)
Definition trimmed_nonempty (o : option string) : option string :=
  match o with
  | Some s => if is_blank s then None else Some (trim s)
  | None => None
  end.

(** [z.to_string()]. *)
Definition show_Z (z : Z) : string := pretty z.

(** ** Bytes of a concatenation *)

Lemma to_bytes_app s t : to_bytes (s +:+ t) = to_bytes s ++ to_bytes t.
Proof. induction s; simpl; [done|]. by rewrite IHs. Qed.

Lemma to_bytes_inj s t : to_bytes s = to_bytes t → s = t.
Proof.
  intros H. rewrite -(String.string_of_list_ascii_of_string s) H.
  apply String.string_of_list_ascii_of_string.
Qed.

(** A separator that occurs in neither prefix splits a string in one way. *)
Lemma split_at_inj {A} (c : A) l1 l2 r1 r2 :
  c ∉ l1 → c ∉ l2 → l1 ++ c :: r1 = l2 ++ c :: r2 → l1 = l2 ∧ r1 = r2.
Proof.
  revert l2. induction l1 as [|x l1 IH]; intros [|y l2] H1 H2; simpl; intros [=]; simplify_eq.
  - done.
  - by destruct H2; constructor.
  - by destruct H1; constructor.
  - apply not_elem_of_cons in H1 as [_ H1]. apply not_elem_of_cons in H2 as [_ H2].
    destruct (IH l2) as [-> ->]; done.
Qed.

Definition colon_free (s : string) : Prop := ":"%char ∉ to_bytes s.
#[global] Instance colon_free_dec s : Decision (colon_free s).
Proof. rewrite /colon_free. apply _. Defined.

Lemma colon_join_inj s1 t1 s2 t2 :
  colon_free s1 → colon_free s2 → s1 +:+ ":" +:+ t1 = s2 +:+ ":" +:+ t2 → s1 = s2 ∧ t1 = t2.
Proof.
  intros H1 H2 H%(f_equal to_bytes). rewrite !to_bytes_app in H.
  destruct (split_at_inj _ _ _ _ _ H1 H2 H) as [??]. auto using to_bytes_inj.
Qed.

(** ** Decimal numbers *)

#[local] Open Scope Z_scope.

Definition digit_value (a : ascii) : Z := Z.of_nat (nat_of_ascii a - 48).

(** The number a digit string denotes, after a prefix that denotes [acc]. *)
Definition dec (acc : Z) (l : bytes) : Z := foldl (λ v c, 10 * v + digit_value c) acc l.

Definition all_digits (l : bytes) : bool := forallb is_ascii_digit l.

(** [str::parse] at an unsigned integer type with largest value [max]: an
    optional plus sign and at least one digit, no overflow. *)
Definition parse_uint (max : Z) (s : string) : option Z :=
  let b := to_bytes s in
  let ds := match b with c :: r => if Ascii.eqb c "+"%char then r else b | [] => b end in
  match ds with
  | [] => None
  | _ => if all_digits ds then uint_checked max (dec 0 ds) else None
  end.
Definition parse_u128 : string → option Z := parse_uint u128_max.
Definition parse_u64 : string → option Z := parse_uint u64_max.
Definition parse_u8 : string → option Z := parse_uint u8_max.

Lemma dec_app acc l1 l2 : dec acc (l1 ++ l2) = dec (dec acc l1) l2.
Proof. apply foldl_app. Qed.

Lemma all_digits_app l1 l2 : all_digits (l1 ++ l2) = all_digits l1 && all_digits l2.
Proof. apply forallb_app. Qed.

Lemma dec_replicate_0 acc n : dec acc (replicate n "0"%char) = acc * 10 ^ Z.of_nat n.
Proof.
  revert acc. induction n as [|n IH]; intros acc; [simpl; lia|].
  change (dec (10 * acc + 0) (replicate n "0"%char) = acc * 10 ^ Z.of_nat (S n)).
  rewrite IH Nat2Z.inj_succ Z.pow_succ_r; lia.
Qed.

Lemma pretty_N_char_digit x :
  (x < 10)%N → is_ascii_digit (pretty_N_char x) = true ∧ digit_value (pretty_N_char x) = Z.of_N x.
Proof.
  intros Hx. assert (∃ n, (n < 10)%nat ∧ x = N.of_nat n) as (n & Hn & ->).
  { exists (N.to_nat x). split; [lia|]. by rewrite N2Nat.id. }
  do 10 (destruct n as [|n]; [done|]). lia.
Qed.

Lemma pretty_N_go_digits x s :
  all_digits (to_bytes s) = true → all_digits (to_bytes (pretty_N_go x s)) = true.
Proof.
  revert s. induction (N.lt_wf_0 x) as [x _ IH]; intros s Hs.
  destruct (decide (x = 0%N)) as [->|]; [by rewrite pretty_N_go_0|].
  rewrite pretty_N_go_step; [|lia]. apply IH; [apply N.div_lt; lia|]. simpl.
  rewrite (proj1 (pretty_N_char_digit _ _)) //. apply N.mod_lt. lia.
Qed.

Lemma pretty_N_go_dec x s : dec 0 (to_bytes (pretty_N_go x s)) = dec (Z.of_N x) (to_bytes s).
Proof.
  revert s. induction (N.lt_wf_0 x) as [x _ IH]; intros s.
  destruct (decide (x = 0%N)) as [->|]; [by rewrite pretty_N_go_0|].
  rewrite pretty_N_go_step; [|lia]. rewrite IH; [|apply N.div_lt; lia].
  change (dec (10 * Z.of_N (x `div` 10) + digit_value (pretty_N_char (x `mod` 10)))
    (to_bytes s) = dec (Z.of_N x) (to_bytes s)).
  rewrite (proj2 (pretty_N_char_digit _ _)); [|apply N.mod_lt; lia]. f_equal.
  pose proof (N.div_mod x 10). lia.
Qed.

Lemma pretty_N_go_length k x s :
  (x < 10 ^ N.of_nat k)%N →
  (length (to_bytes (pretty_N_go x s)) ≤ k + length (to_bytes s))%nat.
Proof.
  revert x s. induction k as [|k IH]; intros x s Hx.
  { assert (x = 0%N) as -> by (change (10 ^ N.of_nat 0)%N with 1%N in Hx; lia).
    by rewrite pretty_N_go_0. }
  destruct (decide (x = 0%N)) as [->|]; [rewrite pretty_N_go_0; lia|].
  rewrite pretty_N_go_step; [|lia]. etrans; [apply IH|simpl; lia].
  apply N.Div0.div_lt_upper_bound. by rewrite -N.pow_succ_r' -Nat2N.inj_succ.
Qed.

(** The decimal representation of a non-negative integer. *)
Lemma show_Z_decimal n :
  0 ≤ n →
  all_digits (to_bytes (show_Z n)) = true ∧ dec 0 (to_bytes (show_Z n)) = n
  ∧ to_bytes (show_Z n) ≠ [].
Proof.
  intros Hn. destruct n as [|p|p]; [done| |lia].
  change (show_Z (Z.pos p)) with (pretty (N.pos p)). rewrite /pretty /pretty_N.
  case_decide; [done|]. split_and!.
  - by apply pretty_N_go_digits.
  - by rewrite pretty_N_go_dec.
  - intros Hnil. assert (dec 0 (to_bytes (pretty_N_go (N.pos p) "")) = 0) as H1 by by rewrite Hnil.
    rewrite pretty_N_go_dec in H1. done.
Qed.

Lemma show_Z_length n k :
  0 ≤ n < 10 ^ Z.of_nat k → (0 < k)%nat → (length (to_bytes (show_Z n)) ≤ k)%nat.
Proof.
  intros Hn Hk. destruct n as [|p|p]; [simpl; lia| |lia].
  change (show_Z (Z.pos p)) with (pretty (N.pos p)). rewrite /pretty /pretty_N.
  case_decide; [done|]. etrans; [apply (pretty_N_go_length k)|simpl; lia].
  apply N2Z.inj_lt. rewrite N2Z.inj_pow nat_N_Z. simpl. lia.
Qed.

Lemma all_digits_head l c r : all_digits l = true → l = c :: r → is_ascii_digit c = true.
Proof. intros H ->. by apply andb_true_iff in H as [? _]. Qed.

Lemma parse_uint_digits max l :
  all_digits l = true → l ≠ [] → parse_uint max (of_bytes l) = uint_checked max (dec 0 l).
Proof.
  intros Hd Hne. rewrite /parse_uint String.list_ascii_of_string_of_list_ascii.
  destruct l as [|c r]; [done|].
  destruct (Ascii.eqb_spec c "+"%char) as [->|]; [done|]. by rewrite Hd.
Qed.

Lemma parse_u128_digits l :
  all_digits l = true → l ≠ [] → parse_u128 (of_bytes l) = u128_checked (dec 0 l).
Proof.
  apply parse_uint_digits.
Qed.

Lemma parse_uint_show max n : 0 ≤ n ≤ max → parse_uint max (show_Z n) = Some n.
Proof.
  intros Hn. destruct (show_Z_decimal n) as (Hd & Hv & Hne); [lia|].
  rewrite -(String.string_of_list_ascii_of_string (show_Z n)).
  rewrite parse_uint_digits // Hv /uint_checked.
  by rewrite (proj2 (Z.leb_le 0 n)) ?(proj2 (Z.leb_le n max)); try lia.
Qed.

Lemma parse_u128_show n : 0 ≤ n ≤ u128_max → parse_u128 (show_Z n) = Some n.
Proof. apply parse_uint_show. Qed.

(** A visible ASCII character. *)
Definition is_graphic (a : ascii) : bool :=
  (33 <=? nat_of_ascii a)%nat && (nat_of_ascii a <=? 126)%nat.

(** A string that starts and ends with a visible character has nothing to trim. *)
Lemma ws_first_graphic p : p ∈ ws_encodings → ∃ c r, p = c :: r ∧ is_graphic c = false.
Proof.
  intros Hp.
  assert (forallb (λ p, match p with c :: _ => negb (is_graphic c) | [] => false end)
            ws_encodings = true) as Hall by reflexivity.
  rewrite forallb_forall in Hall. specialize (Hall p ltac:(by apply list_elem_of_In)).
  destruct p as [|c r]; [done|]. exists c, r. by apply negb_true_iff in Hall.
Qed.

Lemma ws_last_graphic p :
  p ∈ reverse <$> ws_encodings → ∃ c r, p = c :: r ∧ is_graphic c = false.
Proof.
  intros Hp.
  assert (forallb (λ p, match p with c :: _ => negb (is_graphic c) | [] => false end)
            (reverse <$> ws_encodings) = true) as Hall by reflexivity.
  rewrite forallb_forall in Hall. specialize (Hall p ltac:(by apply list_elem_of_In)).
  destruct p as [|c r]; [done|]. exists c, r. by apply negb_true_iff in Hall.
Qed.

Lemma trim_graphic_ends s c d l r :
  to_bytes s = c :: l → to_bytes s = r ++ [d] →
  is_graphic c = true → is_graphic d = true → trim s = s.
Proof.
  intros Hc Hd Hdc Hdd. rewrite /trim /trim_bytes.
  rewrite (trim_front_None ws_encodings).
  2: { apply strip_any_None. intros p s' (c' & q & -> & Hno)%ws_first_graphic Heq.
       rewrite Hc in Heq. simplify_eq/=. congruence. }
  rewrite trim_front_None.
  2: { apply strip_any_None. intros p s' (c' & q & -> & Hno)%ws_last_graphic Heq.
       rewrite Hd reverse_app /= in Heq. simplify_eq/=. congruence. }
  by rewrite reverse_involutive String.string_of_list_ascii_of_string.
Qed.

Lemma digit_graphic c : is_ascii_digit c = true → is_graphic c = true.
Proof.
  rewrite /is_ascii_digit /is_graphic !andb_true_iff !Nat.leb_le. lia.
Qed.

Lemma trim_digit_ends s c d l r :
  to_bytes s = c :: l → to_bytes s = r ++ [d] →
  is_ascii_digit c = true → is_ascii_digit d = true → trim s = s.
Proof. eauto using trim_graphic_ends, digit_graphic. Qed.

(** A string of visible characters is its own trimming. *)
Definition graphic (s : string) : bool := forallb is_graphic (to_bytes s).

Lemma trim_graphic s : graphic s = true → trim s = s.
Proof.
  rewrite /graphic. destruct (to_bytes s) as [|c l] eqn:E.
  - intros _. by apply (to_bytes_inj s "") in E as ->.
  - intros Hall. destruct (exists_last (l := c :: l)) as (r & d & Hd); [done|].
    rewrite forallb_forall in Hall.
    eapply (trim_graphic_ends s c d l r); [done|congruence| |]; apply Hall.
    + by left.
    + rewrite Hd. apply in_or_app. right. by left.
Qed.

Lemma trimmed_graphic s : graphic s = true → s ≠ "" → trimmed_nonempty (Some s) = Some s.
Proof.
  intros Hg Hne. rewrite /trimmed_nonempty /is_blank (trim_graphic s Hg).
  by destruct (String.eqb_spec s "").
Qed.

Lemma graphic_app s t : graphic (s +:+ t) = graphic s && graphic t.
Proof. by rewrite /graphic to_bytes_app forallb_app. Qed.

Lemma dec_linear acc l : dec acc l = acc * 10 ^ Z.of_nat (length l) + dec 0 l.
Proof.
  revert acc. induction l as [|c l IH]; intros acc; [simpl; lia|].
  change (dec (10 * acc + digit_value c) l =
    acc * 10 ^ Z.of_nat (S (length l)) + dec (10 * 0 + digit_value c) l).
  rewrite IH (IH (10 * 0 + digit_value c)) Nat2Z.inj_succ Z.pow_succ_r; lia.
Qed.

Lemma all_digits_snoc_inv l :
  all_digits l = true → l ≠ [] → ∃ r d, l = r ++ [d] ∧ is_ascii_digit d = true.
Proof.
  intros Hd Hne. destruct l as [|d r _] using rev_ind; [done|]. exists r, d.
  rewrite all_digits_app in Hd. apply andb_true_iff in Hd as [_ Hd].
  by apply andb_true_iff in Hd as [? _].
Qed.

Lemma all_digits_replicate_0 n : all_digits (replicate n "0"%char) = true.
Proof. by induction n. Qed.

(** ** Lines *)

Definition newline : ascii := ascii_of_nat 10.
Definition carriage_return : ascii := ascii_of_nat 13.

Definition strip_cr (l : bytes) : bytes :=
  match reverse l with
  | c :: r => if Ascii.eqb c carriage_return then reverse r else l
  | [] => l
  end.

(** [str::lines]: a line ends with a line feed, a carriage return before it is
    dropped, and a last line may lack the line feed. *)
Fixpoint lines_go (cur l : bytes) : list bytes :=
  match l with
  | [] => match cur with [] => [] | _ => [reverse cur] end
  | c :: l' => if Ascii.eqb c newline then strip_cr (reverse cur) :: lines_go [] l'
               else lines_go (c :: cur) l'
  end.
Definition lines (s : string) : list string := of_bytes <$> lines_go [] (to_bytes s).

Lemma lines_go_app cur l m :
  lines_go cur (l ++ newline :: m) = lines_go cur (l ++ [newline]) ++ lines_go [] m.
Proof.
  revert cur. induction l as [|c l IH]; intros cur; simpl; [done|].
  case_match; simpl; [f_equal|]; apply IH.
Qed.

Lemma lines_go_line cur l :
  newline ∉ l → lines_go cur (l ++ [newline]) = [strip_cr (reverse cur ++ l)].
Proof.
  revert cur. induction l as [|c l IH]; intros cur Hl; simpl; [by rewrite app_nil_r|].
  apply not_elem_of_cons in Hl as [Hc Hl].
  destruct (Ascii.eqb_spec c newline) as [->|]; [done|].
  rewrite IH // reverse_cons -app_assoc. done.
Qed.

Lemma strip_cr_id l : carriage_return ∉ l → strip_cr l = l.
Proof.
  intros Hl. rewrite /strip_cr. destruct (reverse l) as [|c r] eqn:E; [done|].
  destruct (Ascii.eqb_spec c carriage_return) as [->|]; [|done].
  destruct Hl. rewrite -(reverse_involutive l) E reverse_cons. set_solver.
Qed.

(** A byte outside every white-space encoding survives trimming. *)
Lemma trim_go_keeps encs c n s :
  (∀ p, p ∈ encs → c ∉ p) → c ∈ s → c ∈ trim_go encs n s.
Proof.
  intros Hno. revert s. induction n as [|n IH]; intros s Hc; simpl; [done|].
  destruct (strip_any encs s) as [s'|] eqn:E; [|done]. apply IH.
  apply strip_any_Some in E as (p & Hp & ->). apply elem_of_app in Hc as [Hc|]; [|done].
  by destruct (Hno p).
Qed.

Lemma trim_keeps c s :
  (∀ p, p ∈ ws_encodings → c ∉ p) → c ∈ to_bytes s → is_blank s = false.
Proof.
  intros Hno Hc. rewrite /is_blank /trim. apply String.eqb_neq. intros Hnil.
  assert (c ∈ trim_bytes (to_bytes s)) as Hin.
  { rewrite /trim_bytes elem_of_reverse. apply trim_go_keeps.
    - intros p (q & -> & Hq)%list_elem_of_fmap. rewrite elem_of_reverse. auto.
    - rewrite elem_of_reverse. by apply trim_go_keeps. }
  apply (f_equal to_bytes) in Hnil. rewrite String.list_ascii_of_string_of_list_ascii in Hnil.
  rewrite Hnil in Hin. by apply elem_of_nil in Hin.
Qed.

(** ** Splitting *)

Fixpoint split_once (c : ascii) (l : bytes) : option (bytes * bytes) :=
  match l with
  | [] => None
  | x :: l' => if Ascii.eqb x c then Some ([], l')
               else '(a, b) ← split_once c l'; Some (x :: a, b)
  end.

(** [str::splitn] and [str::rsplitn] at an ASCII character. *)
Fixpoint splitn (n : nat) (c : ascii) (l : bytes) : list bytes :=
  match n with
  | O => []
  | S O => [l]
  | S n' => match split_once c l with
            | Some (a, b) => a :: splitn n' c b
            | None => [l]
            end
  end.
Definition rsplitn (n : nat) (c : ascii) (l : bytes) : list bytes :=
  reverse <$> splitn n c (reverse l).

Lemma split_once_app c l r : c ∉ l → split_once c (l ++ c :: r) = Some (l, r).
Proof.
  induction l as [|x l IH]; intros Hl; simpl.
  - by rewrite Ascii.eqb_refl.
  - apply not_elem_of_cons in Hl as [Hx Hl].
    destruct (Ascii.eqb_spec x c) as [->|]; [done|]. by rewrite IH.
Qed.

Lemma split_once_Some c l a b : split_once c l = Some (a, b) ↔ l = a ++ c :: b ∧ c ∉ a.
Proof.
  split; [|intros [-> ?]; by apply split_once_app].
  revert a. induction l as [|x l IH]; intros a; simpl; [done|].
  destruct (Ascii.eqb_spec x c) as [->|Hne]; [intros [= <- <-]; split; [done|apply not_elem_of_nil]|].
  destruct (split_once c l) as [[a' b']|]; [|done]. intros [= <- <-].
  destruct (IH a') as [-> Hc]; [done|]. split; [done|]. by apply not_elem_of_cons.
Qed.

(** The [n]-th field of a joined string. *)
Lemma splitn_cons n c l r :
  c ∉ l → splitn (S (S n)) c (l ++ c :: r) = l :: splitn (S n) c r.
Proof. intros Hl. cbn [splitn]. by rewrite split_once_app. Qed.

Lemma digits_no_char c l : is_ascii_digit c = false → all_digits l = true → c ∉ l.
Proof.
  intros Hc Hl Hin. rewrite /all_digits forallb_forall in Hl.
  rewrite Hl in Hc; [done|]. by apply list_elem_of_In.
Qed.

Lemma show_Z_colon_free n : 0 ≤ n → colon_free (show_Z n).
Proof. intros Hn. apply digits_no_char; [done|]. by apply show_Z_decimal. Qed.

Lemma parse_uint_range max s n : parse_uint max s = Some n → 0 ≤ n ≤ max.
Proof.
  rewrite /parse_uint. set (ds := match to_bytes s with [] => _ | _ => _ end).
  destruct ds as [|c r]; [done|]. destruct (all_digits _); [|done]. rewrite /uint_checked.
  destruct (_ && _) eqn:E; [|done]. intros [= <-]. bool_to_prop. by split.
Qed.

(** [chars().any(char::is_whitespace)]: some white space encoding occurs. *)
Fixpoint has_whitespace (s : bytes) : bool :=
  match strip_any ws_encodings s with
  | Some _ => true
  | None => match s with [] => false | _ :: s' => has_whitespace s' end
  end.

(** [chars().count()]: bytes that do not continue a character. *)
Definition char_count (s : bytes) : nat :=
  length (List.filter (λ c, negb ((128 <=? nat_of_ascii c) && (nat_of_ascii c <? 192))%nat) s).

(** [haystack.contains(needle)]. *)
Fixpoint contains_text (needle haystack : bytes) : bool :=
  match strip_prefix needle haystack with
  | Some _ => true
  | None => match haystack with [] => false | _ :: h => contains_text needle h end
  end.

(** [chars().take(n)]: whole characters. *)
Fixpoint take_chars (n : nat) (s : bytes) : bytes :=
  match s with
  | [] => []
  | c :: s' =>
      if ((128 <=? nat_of_ascii c) && (nat_of_ascii c <? 192))%nat then c :: take_chars n s'
      else match n with O => [] | S n' => c :: take_chars n' s' end
  end.

Lemma take_chars_count n s : (char_count (take_chars n s) ≤ n)%nat.
Proof.
  revert n. rewrite /char_count. induction s as [|c s IH]; intros n; cbn [take_chars]; [cbn; lia|].
  destruct ((128 <=? nat_of_ascii c) && (nat_of_ascii c <? 192))%nat eqn:E.
  - cbn [List.filter]. rewrite E. cbn [negb]. apply IH.
  - destruct n as [|n]; [cbn [List.filter length]; lia|]. cbn [List.filter]. rewrite E. cbn [negb length].
    specialize (IH n). lia.
Qed.
