(* ===== verification/Json.v ===== *)
(** * JSON values

    [serde_json::Value] and the accessors the kernel calls on it. An object is
    its list of members (the parser rejects nothing and keeps one member per
    key); a floating-point number is the 64-bit pattern of its [f64]. *)

From S2P Require Import Prelude Collections Text.
#[local] Open Scope Z_scope.

(** ** Floating-point numbers as bit patterns *)

Abbreviation f64 := Z (only parsing).

(** [n as f64]: the nearest double, ties to even. *)
Definition f64_of_pos (n : Z) : f64 :=
  let e := Z.log2 n in
  let q :=
    if e <=? 52 then Z.shiftl n (52 - e)
    else
      let s := e - 52 in
      let q := Z.shiftr n s in
      let r := n - Z.shiftl q s in
      let half := Z.shiftl 1 (s - 1) in
      if (half <? r) || ((r =? half) && Z.odd q) then q + 1 else q in
  (e + 1023) * 2 ^ 52 + (q - 2 ^ 52).

Definition f64_of_Z (n : Z) : f64 :=
  if n =? 0 then 0 else if 0 <? n then f64_of_pos n else 2 ^ 63 + f64_of_pos (- n).

(** [(lo..=hi).contains(&x)] for positive [lo] and [hi]: positive doubles are
    ordered as their bit patterns, and negative numbers, infinities and NaNs
    have larger patterns than every positive finite one. *)
Definition f64_between (lo hi x : f64) : bool := (lo <=? x) && (x <=? hi).

Example f64_of_Z_1 : f64_of_Z 1 = 0x3FF0000000000000. Proof. reflexivity. Qed.
Example f64_of_Z_neg : f64_of_Z (-10) = 0xC024000000000000. Proof. reflexivity. Qed.
Example f64_of_Z_round : f64_of_Z (2 ^ 53 + 1) = f64_of_Z (2 ^ 53).
Proof. reflexivity. Qed.

(** ** Values *)

Inductive number : Type :=
  | PosInt (n : Z)
  | NegInt (n : Z)
  | Float (bits : f64).

#[global] Instance number_eq_dec : EqDecision number.
Proof. solve_decision. Defined.

Inductive json : Type :=
  | JNull
  | JBool (b : bool)
  | JNumber (n : number)
  | JString (s : string)
  | JArray (l : list json)
  | JObject (o : list (string * json)).

#[global] Instance json_eq_dec : EqDecision json.
Proof.
  refine (fix go (x y : json) : {x = y} + {x ≠ y} := _).
  destruct x as [|b|n|s|l|o], y as [|b'|n'|s'|l'|o']; try (right; discriminate).
  - by left.
  - destruct (decide (b = b')) as [->|]; [by left|right; congruence].
  - destruct (decide (n = n')) as [->|]; [by left|right; congruence].
  - destruct (decide (s = s')) as [->|]; [by left|right; congruence].
  - destruct (@list_eq_dec json go l l') as [->|]; [by left|right; congruence].
  - destruct (@list_eq_dec (string * json) (@prod_eq_dec string _ json go) o o') as [->|];
      [by left|right; congruence].
Defined.

(** Values can be encoded as numbers: needed to give codecs as concrete
    functions. *)
Definition json_leaf : Type := bool + (number + string).

#[global] Instance number_countable : Countable number.
Proof.
  apply (inj_countable'
    (λ n, match n with PosInt z => (0%nat, z) | NegInt z => (1%nat, z) | Float z => (2%nat, z) end)
    (λ p, match p with (O, z) => PosInt z | (1%nat, z) => NegInt z | (_, z) => Float z end)).
  by intros [].
Defined.

Fixpoint json_to_tree (v : json) : gen_tree json_leaf :=
  match v with
  | JNull => GenNode 0 []
  | JBool b => GenLeaf (inl b)
  | JNumber n => GenLeaf (inr (inl n))
  | JString s => GenLeaf (inr (inr s))
  | JArray l => GenNode 1 (json_to_tree <$> l)
  | JObject o =>
      GenNode 2 ((λ kv : string * json,
        GenNode 3 [GenLeaf (inr (inr kv.1)); json_to_tree kv.2]) <$> o)
  end.

Fixpoint json_of_tree (t : gen_tree json_leaf) : json :=
  match t with
  | GenLeaf (inl b) => JBool b
  | GenLeaf (inr (inl n)) => JNumber n
  | GenLeaf (inr (inr s)) => JString s
  | GenNode 1 l => JArray (json_of_tree <$> l)
  | GenNode 2 l =>
      JObject ((λ t, match t with
        | GenNode 3 [GenLeaf (inr (inr k)); v] => (k, json_of_tree v)
        | _ => (EmptyString, JNull)
        end) <$> l)
  | GenNode _ _ => JNull
  end.

Lemma json_of_to_tree v : json_of_tree (json_to_tree v) = v.
Proof.
  revert v. fix IH 1. intros [|b|n|s|l|o]; try reflexivity; simpl; f_equal.
  - induction l as [|x l IHl]; [reflexivity|]. simpl. f_equal; [apply IH|exact IHl].
  - induction o as [|[k x] o IHo]; [reflexivity|]. simpl. f_equal; [|exact IHo].
    f_equal. apply IH.
Qed.

#[global] Instance json_countable : Countable json :=
  inj_countable' json_to_tree json_of_tree json_of_to_tree.

Fixpoint assoc {A} (k : string) (l : list (string * A)) : option A :=
  match l with
  | [] => None
  | (k', v) :: l' => if String.eqb k k' then Some v else assoc k l'
  end.

(** [Value::get] with a string key, and [value["key"]]. *)
Definition json_get (k : string) (v : json) : option json :=
  match v with JObject o => assoc k o | _ => None end.
Definition json_index (v : json) (k : string) : json := default JNull (json_get k v).

Definition as_str (v : json) : option string :=
  match v with JString s => Some s | _ => None end.
Definition as_bool (v : json) : option bool :=
  match v with JBool b => Some b | _ => None end.
Definition as_i64 (v : json) : option Z :=
  match v with
  | JNumber (PosInt n) => if n <=? i64_max then Some n else None
  | JNumber (NegInt n) => Some n
  | _ => None
  end.
Definition as_u64 (v : json) : option Z :=
  match v with JNumber (PosInt n) => Some n | _ => None end.
Definition as_f64 (v : json) : option f64 :=
  match v with
  | JNumber (PosInt n) | JNumber (NegInt n) => Some (f64_of_Z n)
  | JNumber (Float b) => Some b
  | _ => None
  end.
Definition is_null (v : json) : bool := match v with JNull => true | _ => false end.

Definition get_str (k : string) (v : json) : option string := json_get k v ≫= as_str.
Definition get_i64 (k : string) (v : json) : option Z := json_get k v ≫= as_i64.

(** Serialisation of the scalar types the signed payloads use. *)
Definition json_of_Z (z : Z) : json := JNumber (if z <? 0 then NegInt z else PosInt z).
Definition json_of_option {A} (f : A → json) (o : option A) : json :=
  match o with Some a => f a | None => JNull end.

(** [Map::insert] of a map kept in key order. *)
Fixpoint obj_insert (k : string) (v : json) (o : list (string * json)) : list (string * json) :=
  match o with
  | [] => [(k, v)]
  | (k', v') :: o' =>
      if String.eqb k k' then (k, v) :: o'
      else if str_ltb k k' then (k, v) :: o else (k', v') :: obj_insert k v o'
  end.

Lemma assoc_obj_insert k v o k' :
  assoc k' (obj_insert k v o) = if String.eqb k' k then Some v else assoc k' o.
Proof.
  induction o as [|[k0 v0] o IH]; simpl; [done|].
  destruct (String.eqb_spec k k0) as [<-|Hne]; simpl; [by destruct (String.eqb k' k)|].
  destruct (str_ltb k k0); simpl; [done|]. rewrite IH.
  destruct (String.eqb_spec k' k0) as [->|]; [|done].
  by rewrite (proj2 (String.eqb_neq k0 k)) //; intros ->.
Qed.

(** [object.entry(k).or_insert(v)]. *)
Definition or_insert (k : string) (v : json) (o : list (string * json)) : list (string * json) :=
  match assoc k o with Some _ => o | None => obj_insert k v o end.

Lemma or_insert_keeps k v o k' x :
  assoc k' o = Some x → assoc k' (or_insert k v o) = Some x.
Proof.
  intros Hx. rewrite /or_insert. destruct (assoc k o) eqn:Hk; [done|].
  rewrite assoc_obj_insert. by destruct (String.eqb_spec k' k) as [->|]; [congruence|].
Qed.

(** [value["key"] = v]: a panic when the value is neither an object nor null. *)
Definition json_set (k : string) (v : json) (x : json) : option json :=
  match x with
  | JObject o => Some (JObject (obj_insert k v o))
  | JNull => Some (JObject [(k, v)])
  | _ => None
  end.
