(* ===== verification/Sql.v ===== *)
(** * SQL statements

    What the SQLite stores use of SQL: a table is the list of its rows in the
    order of insertion, [ORDER BY] is a stable sort of it, and an upsert changes
    the row of the same key in place. *)

From S2P Require Import Prelude Collections Text.
#[local] Open Scope Z_scope.

(** [ORDER BY] a list of comparisons. *)
Section order_by.
Context {R : Type}.

Definition asc_Z (f : R → Z) (x y : R) : comparison := f x ?= f y.
Definition desc_Z (f : R → Z) (x y : R) : comparison := f y ?= f x.
Definition asc_str (f : R → string) (x y : R) : comparison := String.compare (f x) (f y).

Fixpoint compare_by (cs : list (R → R → comparison)) (x y : R) : comparison :=
  match cs with
  | [] => Eq
  | c :: cs' => match c x y with Eq => compare_by cs' x y | r => r end
  end.
Definition order_by (cs : list (R → R → comparison)) : list R → list R :=
  sort_by (λ x y, match compare_by cs x y with Gt => false | _ => true end).

(** What a comparison of rows has to be for the sort to mean anything. *)
Record row_order (c : R → R → comparison) : Prop := {
  row_opp : ∀ x y, c y x = CompOpp (c x y);
  row_eq : ∀ x y z, c x y = Eq → c x z = c y z;
  row_lt : ∀ x y z, c x y = Lt → c y z = Lt → c x z = Lt;
}.

Lemma asc_Z_order f : row_order (asc_Z f).
Proof.
  split; rewrite /asc_Z; intros x y; [apply Z.compare_antisym| |].
  - by intros z ->%Z.compare_eq_iff.
  - intros z. rewrite !Z.compare_lt_iff. lia.
Qed.

Lemma desc_Z_order f : row_order (desc_Z f).
Proof.
  split; rewrite /desc_Z; intros x y; [apply Z.compare_antisym| |].
  - by intros z ->%Z.compare_eq_iff.
  - intros z. rewrite !Z.compare_lt_iff. lia.
Qed.

Lemma asc_str_order f : row_order (asc_str f).
Proof.
  split; rewrite /asc_str; intros x y; [apply String.compare_antisym| |].
  - by intros z ->%String.compare_eq_iff.
  - intros z. apply str_compare_trans.
Qed.

Lemma compare_by_order cs : Forall row_order cs → row_order (compare_by cs).
Proof.
  induction 1 as [|c cs Hc _ IH]; [by split|]. split; cbn [compare_by]; intros x y.
  - rewrite (row_opp c Hc x y). destruct (c x y); simpl; try done. apply (row_opp _ IH).
  - intros z. destruct (c x y) eqn:E; try done. rewrite (row_eq c Hc _ _ z E). intros H.
    by rewrite (row_eq _ IH x y z H).
  - intros z. destruct (c x y) eqn:E; try done.
    + rewrite (row_eq c Hc _ _ z E). destruct (c y z); try done. apply (row_lt _ IH).
    + destruct (c y z) eqn:E'; try done.
      * pose proof (row_eq c Hc y z x E') as H. rewrite (row_opp c Hc x y) (row_opp c Hc x z) E in H.
        by destruct (c x z).
      * by rewrite (row_lt c Hc x y z E E').
Qed.

Lemma elem_of_order_by cs x l : x ∈ order_by cs l ↔ x ∈ l.
Proof. apply elem_of_sort_by. Qed.

Lemma order_by_perm cs l : order_by cs l ≡ₚ l.
Proof. apply sort_by_perm. Qed.

Lemma order_by_sorted cs l :
  Forall row_order cs → StronglySorted (λ x y, compare_by cs x y ≠ Gt) (order_by cs l).
Proof.
  intros Hcs. pose proof (compare_by_order cs Hcs) as [Hopp Heq Hlt].
  apply (StronglySorted_weaken (λ x y, match compare_by cs x y with Gt => false | _ => true end
                                       = true)).
  { intros x y. by destruct (compare_by cs x y). }
  apply Sorted_StronglySorted.
  - intros x y z. destruct (compare_by cs x y) eqn:E; [|destruct (compare_by cs y z) eqn:E'|]; try done.
    + by rewrite (Heq x y z E).
    + pose proof (Heq y z x E') as H. rewrite (Hopp x y) (Hopp x z) E in H.
      by destruct (compare_by cs x z).
    + by rewrite (Hlt x y z E E').
  - apply sort_by_sorted. intros x y. rewrite (Hopp x y). destruct (compare_by cs x y); auto.
Qed.
End order_by.

(** [INSERT .. ON CONFLICT(key) DO UPDATE], and [INSERT OR IGNORE]. *)
Section upsert.
Context {R K : Type} `{EqDecision K} (key : R → K) (update : R → R → R).

Fixpoint upsert_row (new : R) (t : list R) : list R :=
  match t with
  | [] => [new]
  | r :: t' => if decide (key r = key new) then update r new :: t' else r :: upsert_row new t'
  end.

Definition insert_or_ignore (new : R) (t : list R) : list R :=
  if decide (key new ∈ key <$> t) then t else t ++ [new].

Lemma elem_of_upsert_row new t r :
  NoDup (key <$> t) →
  r ∈ upsert_row new t ↔
  (r ∈ t ∧ key r ≠ key new)
  ∨ (∃ old, old ∈ t ∧ key old = key new ∧ r = update old new)
  ∨ (key new ∉ key <$> t ∧ r = new).
Proof using Type.
  induction t as [|x t IH]; intros Hnd; cbn [upsert_row].
  { rewrite list_elem_of_singleton. split.
    - intros ->. right. right. split; [apply not_elem_of_nil|done].
    - intros [[[]%elem_of_nil _]|[(? & []%elem_of_nil & _)|[_ ->]]]; done. }
  apply NoDup_cons in Hnd as [Hx Hnd].
  destruct (decide (key x = key new)) as [Hk|Hk].
  - rewrite !elem_of_cons. split.
    + intros [->|Hr]; [right; left; exists x; set_solver|].
      left. split; [by right|]. intros Heq. apply Hx. rewrite Hk -Heq. by apply list_elem_of_fmap_2.
    + intros [[[->|Hr] Hne]|[(old & Hold & Hok & ->)|[Hn _]]].
      * done.
      * by right.
      * apply elem_of_cons in Hold as [->|Hold]; [by left|].
        destruct Hx. rewrite Hk -Hok. by apply list_elem_of_fmap_2.
      * destruct Hn. rewrite -Hk. by left.
  - rewrite elem_of_cons IH //. split.
    + intros [->|[[Hr Hne]|[(old & ? & ? & ->)|[Hn ->]]]].
      * left. split; [by left|done].
      * left. split; [by right|done].
      * right. left. exists old. split; [by right|done].
      * right. right. split; [|done]. by apply not_elem_of_cons.
    + intros [[[->|Hr]%elem_of_cons Hne]|[(old & [->|Hold]%elem_of_cons & Hok & ->)|[Hn ->]]].
      * by left.
      * right. by left.
      * done.
      * right. right. left. eauto.
      * apply not_elem_of_cons in Hn as [_ Hn]. right. right. by right.
Qed.

Lemma insert_or_ignore_NoDup new t : NoDup (key <$> t) → NoDup (key <$> insert_or_ignore new t).
Proof using Type.
  intros Ht. rewrite /insert_or_ignore. case_decide; [done|]. rewrite fmap_app.
  apply NoDup_app. split_and!; [done| |apply NoDup_singleton].
  intros k Hk ->%list_elem_of_singleton. done.
Qed.
Context (key_update : ∀ r new, key r = key new → key (update r new) = key new).

Lemma upsert_row_keys new t :
  key <$> upsert_row new t =
  if decide (key new ∈ key <$> t) then key <$> t else (key <$> t) ++ [key new].
Proof using key_update.
  induction t as [|r t IH]; [done|]. cbn [upsert_row]. rewrite fmap_cons.
  destruct (decide (key r = key new)) as [Hk|Hk]; rewrite fmap_cons.
  - rewrite decide_True; [by rewrite key_update ?Hk|]. rewrite Hk. by left.
  - rewrite IH. destruct (decide (key new ∈ key <$> t)).
    + by rewrite decide_True; [|by right].
    + rewrite decide_False; [done|]. by apply not_elem_of_cons.
Qed.

Lemma upsert_row_NoDup new t : NoDup (key <$> t) → NoDup (key <$> upsert_row new t).
Proof using key_update.
  intros Ht. rewrite upsert_row_keys. case_decide; [done|].
  apply NoDup_app. split_and!; [done| |apply NoDup_singleton].
  intros k Hk ->%list_elem_of_singleton. done.
Qed.

End upsert.

(** SQLite's [trim(x) <> '']: only spaces are trimmed. *)
Definition sql_nonblank (s : string) : bool :=
  existsb (λ c, negb (Ascii.eqb c " "%char)) (to_bytes s).

(** An upsert that replaces every column. *)
Notation replace_row key := (upsert_row key (λ _ new, new)).

Section replace.
Context {R K : Type} `{EqDecision K} (key : R → K).

Lemma elem_of_replace_row new t r :
  NoDup (key <$> t) → r ∈ replace_row key new t ↔ r = new ∨ (r ∈ t ∧ key r ≠ key new).
Proof.
  intros Ht. rewrite elem_of_upsert_row //. split.
  - intros [?|[(old & _ & _ & ->)|[_ ->]]]; [by right|by left..].
  - intros [->|?]; [|by left]. right.
    destruct (decide (key new ∈ key <$> t)) as [(old & ? & ?)%list_elem_of_fmap|?]; [|by right].
    left. by exists old.
Qed.

Lemma replace_row_NoDup new t : NoDup (key <$> t) → NoDup (key <$> replace_row key new t).
Proof. by apply upsert_row_NoDup. Qed.

Lemma replace_row_Forall (P : R → Prop) new t :
  NoDup (key <$> t) → P new → Forall P t → Forall P (replace_row key new t).
Proof.
  intros Ht Hn Hall. apply Forall_forall. rewrite Forall_forall in Hall.
  intros r [->|[? _]]%elem_of_replace_row; auto.
Qed.
End replace.

(** ** Rows by key *)

Section find_key.
Context {R K : Type} `{EqDecision K} (key : R → K).

Lemma find_first_key t r :
  NoDup (key <$> t) → r ∈ t → find_first (λ x, bool_decide (key x = key r)) t = Some r.
Proof.
  induction t as [|x t IH]; [by intros _ ?%elem_of_nil|]. rewrite fmap_cons NoDup_cons.
  intros [Hx Ht] Hr. cbn [find_first]. case_bool_decide as Hk.
  - apply elem_of_cons in Hr as [->|Hr]; [done|].
    destruct Hx. rewrite Hk. by apply list_elem_of_fmap_2.
  - apply elem_of_cons in Hr as [->|Hr]; [done|]. auto.
Qed.

Lemma key_unique t r1 r2 :
  NoDup (key <$> t) → r1 ∈ t → r2 ∈ t → key r1 = key r2 → r1 = r2.
Proof using Type*.
  intros Ht H1 H2 Hk. pose proof (find_first_key t r1 Ht H1) as E.
  rewrite Hk (find_first_key t r2 Ht H2) in E. by injection E.
Qed.

Lemma find_first_upsert (update : R → R → R) new t (k : K) :
  (∀ r, key r = key new → key (update r new) = key new) →
  find_first (λ x, bool_decide (key x = k)) (upsert_row key update new t) =
  if decide (k = key new)
  then Some (default new ((λ old, update old new) <$>
                            find_first (λ x, bool_decide (key x = k)) t))
  else find_first (λ x, bool_decide (key x = k)) t.
Proof.
  intros Hu. induction t as [|x t IH]; cbn [upsert_row find_first].
  - case_bool_decide; case_decide; congruence || done.
  - destruct (decide (key x = key new)) as [Hx|Hx]; cbn [find_first].
    + rewrite (Hu x Hx). repeat (case_bool_decide || case_decide); try congruence; done.
    + rewrite IH. repeat (case_bool_decide || case_decide); try congruence; done.
Qed.
End find_key.

(** The same with [==] on a string key. *)
Lemma find_first_eqb {R} (key : R → string) t r :
  NoDup (key <$> t) → r ∈ t → find_first (λ x, String.eqb (key x) (key r)) t = Some r.
Proof.
  intros Ht Hr. rewrite -(find_first_key key t r Ht Hr). clear Ht Hr.
  induction t as [|x t IH]; cbn; [done|]. rewrite IH.
  by destruct (String.eqb_spec (key x) (key r)); [rewrite bool_decide_true|rewrite bool_decide_false].
Qed.

(** ** The newest row *)

(** [ORDER BY updated DESC LIMIT 1]. *)
Definition latest {R} (updated : R → Z) (rows : list R) : option R :=
  head (order_by [desc_Z updated] rows).

Section latest.
Context {R : Type} (updated : R → Z).

Lemma latest_Some rows r :
  latest updated rows = Some r → r ∈ rows ∧ ∀ x, x ∈ rows → updated x ≤ updated r.
Proof.
  rewrite /latest. intros Hh.
  assert (StronglySorted (λ x y, compare_by [desc_Z updated] x y ≠ Gt)
            (order_by [desc_Z updated] rows)) as Hs.
  { apply order_by_sorted. constructor; [apply desc_Z_order|constructor]. }
  assert (∀ x, x ∈ rows → x ∈ order_by [desc_Z updated] rows) as Hin.
  { intros x. apply elem_of_order_by. }
  assert (r ∈ order_by [desc_Z updated] rows) as Hr.
  { destruct (order_by _ rows); [done|]. injection Hh as ->. by left. }
  split; [by apply elem_of_order_by in Hr|]. intros x Hx%Hin.
  destruct (order_by _ rows) as [|y l]; [done|]. injection Hh as ->.
  apply StronglySorted_inv in Hs as [_ Hall]. rewrite Forall_forall in Hall.
  apply elem_of_cons in Hx as [->|Hx]; [lia|]. specialize (Hall x Hx).
  cbn in Hall. rewrite /desc_Z in Hall. destruct (Z.compare_spec (updated x) (updated r)); lia || done.
Qed.

Lemma latest_None rows : latest updated rows = None ↔ rows = [].
Proof.
  rewrite /latest. split; [|by intros ->]. intros Hh.
  destruct rows as [|x rows]; [done|]. exfalso.
  assert (x ∈ order_by [desc_Z updated] (x :: rows)) as Hx by (apply elem_of_order_by; by left).
  destruct (order_by _ _); [by apply elem_of_nil in Hx|done].
Qed.

(** A row that is newer than all others is the newest. *)
Lemma latest_newest rows r :
  r ∈ rows → (∀ x, x ∈ rows → x = r ∨ updated x < updated r) → latest updated rows = Some r.
Proof.
  intros Hr Hmax. destruct (latest updated rows) as [y|] eqn:E.
  - apply latest_Some in E as [Hy Hle]. specialize (Hle r Hr).
    destruct (Hmax y Hy) as [->|]; [done|lia].
  - apply latest_None in E as ->. by apply elem_of_nil in Hr.
Qed.
End latest.
