(* ===== verification/LocalDatabase.v ===== *)
(** * The local database

    [K/storage/local_db.rs]: the SQLite file of the node. Each domain keeps its
    state as one document in a table of its own; the file also has the log of
    the actions that were committed for the agent and the list of what the agent
    did. A table of documents is in the map [tables] under its name, with its
    only row when it has one. The two tables of permissions and credentials of
    the same file are in [Membership]. *)

From S2P Require Import Prelude Collections Text Json Sql.
#[local] Open Scope Z_scope.

(** ** Hexadecimal names *)

Definition HEX : bytes := to_bytes "0123456789abcdef".

Definition hex_digit (n : nat) : ascii := default "0"%char (HEX !! n).

Definition hex_encode (bs : bytes) : bytes :=
  concat ((λ b, [hex_digit (nat_of_ascii b / 16)%nat; hex_digit (nat_of_ascii b `mod` 16)%nat]) <$> bs).

Definition hex_value (byte : ascii) : option nat :=
  let n := nat_of_ascii byte in
  if ((48 <=? n) && (n <=? 57))%nat then Some (n - 48)%nat
  else if ((97 <=? n) && (n <=? 102))%nat then Some (n - 97 + 10)%nat
  else if ((65 <=? n) && (n <=? 70))%nat then Some (n - 65 + 10)%nat
  else None.

Fixpoint hex_decode (value : bytes) : option bytes :=
  match value with
  | [] => Some []
  | [_] => None
  | a :: b :: value' =>
      high ← hex_value a;
      low ← hex_value b;
      rest ← hex_decode value';
      Some (ascii_of_nat (high * 16 + low) :: rest)
  end.

(** [String::from_utf8]: the well-formed byte sequences of UTF-8. *)
Definition between (lo hi : nat) (a : ascii) : bool :=
  ((lo <=? nat_of_ascii a) && (nat_of_ascii a <=? hi))%nat.
Definition continuation : ascii → bool := between 128 191.
Definition three_byte_start (a b : ascii) : bool :=
  (between 224 224 a && between 160 191 b) || (between 225 236 a && continuation b)
  || (between 237 237 a && between 128 159 b) || (between 238 239 a && continuation b).
Definition four_byte_start (a b : ascii) : bool :=
  (between 240 240 a && between 144 191 b) || (between 241 243 a && continuation b)
  || (between 244 244 a && between 128 143 b).

Fixpoint utf8_valid (l : bytes) : bool :=
  match l with
  | [] => true
  | a :: l1 =>
      if between 0 127 a then utf8_valid l1
      else match l1 with
      | [] => false
      | b :: l2 =>
          if between 194 223 a then continuation b && utf8_valid l2
          else match l2 with
          | [] => false
          | c :: l3 =>
              if three_byte_start a b then continuation c && utf8_valid l3
              else match l3 with
              | [] => false
              | d :: l4 => four_byte_start a b && continuation c && continuation d && utf8_valid l4
              end
          end
      end
  end.

Definition from_utf8 (bs : bytes) : option string :=
  if utf8_valid bs then Some (of_bytes bs) else None.

(** ** Domains *)

Definition SCHEMA_VERSION : Z := 12.
Definition SERVICENET_ASYNC_INVOCATIONS_TABLE : string := "servicenet_async_invocations".
Definition OWN_SPACE_PRESENCE : string := "own_space_presence".
Definition SERVICENET_ASYNC_INVOCATIONS : string := "servicenet_async_invocations".

Definition DOMAIN_TABLES : list (string * string) :=
  [("governance", "governance_state");
   ("mailbox", "mailbox_state");
   ("mission_board", "mission_board");
   ("public_identity_registry", "public_identity_registry_state");
   ("controller_binding_registry", "controller_binding_registry_state");
   ("citizen_registry", "citizen_registry_state");
   ("relationship_registry", "relationship_registry_state");
   ("organization_registry", "organization_registry_state");
   ("hive_registry", "hive_registry");
   ("payment_ledger", "payment_ledger_state");
   ("galaxy_state", "galaxy_state");
   ("galaxy_map_registry", "galaxy_map_registry");
   ("travel_state_registry", "travel_state_registry");
   (OWN_SPACE_PRESENCE, "own_space_presence");
   ("space_catalog_cache", "space_catalog_cache");
   ("oracle_registry", "oracle_registry_state");
   ("online_proof", "online_proof_state");
   ("policy", "policy_state");
   ("contribution_event_log", "contribution_event_log");
   ("collective_mission_runs", "collective_mission_runs");
   ("network_mission_claims", "network_mission_claims");
   (SERVICENET_ASYNC_INVOCATIONS, SERVICENET_ASYNC_INVOCATIONS_TABLE)].

Definition hex_table (domain : string) : string :=
  "domain_" +:+ of_bytes (hex_encode (to_bytes domain)).

Definition domain_table_name (domain : string) : string :=
  match find_first (λ p, String.eqb p.1 domain) DOMAIN_TABLES with
  | Some p => p.2
  | None => hex_table domain
  end.

Definition domain_from_table_name (table : string) : option string :=
  match find_first (λ p, String.eqb p.2 table) DOMAIN_TABLES with
  | Some p => Some p.1
  | None =>
      hex ← strip_prefix (to_bytes "domain_") (to_bytes table);
      bs ← hex_decode hex;
      from_utf8 bs
  end.

(** Table names determine their domains. *)

Lemma hex_byte_roundtrip b rest :
  hex_decode (hex_digit (nat_of_ascii b / 16)%nat :: hex_digit (nat_of_ascii b `mod` 16)%nat :: rest)
  = (bs ← hex_decode rest; Some (b :: bs)).
Proof. by destruct b as [[] [] [] [] [] [] [] []]. Qed.

Lemma hex_decode_encode bs : hex_decode (hex_encode bs) = Some bs.
Proof.
  induction bs as [|b bs IH]; [done|].
  change (hex_encode (b :: bs)) with
    (hex_digit (nat_of_ascii b / 16)%nat :: hex_digit (nat_of_ascii b `mod` 16)%nat :: hex_encode bs).
  rewrite hex_byte_roundtrip. by rewrite IH.
Qed.

Lemma known_not_hex p : p ∈ DOMAIN_TABLES → strip_prefix (to_bytes "domain_") (to_bytes p.2) = None.
Proof.
  intros Hp.
  assert (forallb (λ p, match strip_prefix (to_bytes "domain_") (to_bytes p.2) with
                        | None => true | Some _ => false end) DOMAIN_TABLES = true) as Hall
    by reflexivity.
  rewrite forallb_elem_of in Hall. specialize (Hall p Hp). by case_match.
Qed.

Lemma hex_table_prefix d :
  strip_prefix (to_bytes "domain_") (to_bytes (hex_table d)) = Some (hex_encode (to_bytes d)).
Proof.
  apply strip_prefix_Some. rewrite /hex_table to_bytes_app. f_equal.
  apply String.list_ascii_of_string_of_list_ascii.
Qed.

Lemma hex_table_not_known d p : p ∈ DOMAIN_TABLES → p.2 ≠ hex_table d.
Proof.
  intros Hp Heq. pose proof (known_not_hex p Hp) as Hn. by rewrite Heq hex_table_prefix in Hn.
Qed.

Lemma hex_table_unknown d : find_first (λ p, String.eqb p.2 (hex_table d)) DOMAIN_TABLES = None.
Proof.
  apply find_first_None. intros p Hp. apply String.eqb_neq. by apply hex_table_not_known.
Qed.

Lemma hex_table_inj d d' : hex_table d = hex_table d' → d = d'.
Proof.
  intros Heq. apply to_bytes_inj. pose proof (hex_table_prefix d) as E.
  rewrite Heq hex_table_prefix in E. injection E as E. apply (f_equal hex_decode) in E.
  rewrite !hex_decode_encode in E. by injection E.
Qed.

Lemma known_roundtrip p :
  p ∈ DOMAIN_TABLES → find_first (λ q, String.eqb q.2 p.2) DOMAIN_TABLES = Some p.
Proof.
  intros Hp.
  assert (Forall (λ p, find_first (λ q, String.eqb q.2 p.2) DOMAIN_TABLES = Some p) DOMAIN_TABLES)
    as Hall by (repeat constructor).
  rewrite Forall_forall in Hall. by apply Hall.
Qed.

(** A Rust string. *)
Definition is_utf8 (s : string) : Prop := utf8_valid (to_bytes s) = true.

Lemma table_name_roundtrip d :
  is_utf8 d → domain_from_table_name (domain_table_name d) = Some d.
Proof.
  intros Hd. rewrite /domain_table_name.
  destruct (find_first _ DOMAIN_TABLES) as [p|] eqn:E; rewrite /domain_from_table_name.
  - apply find_first_Some in E as [<-%String.eqb_eq Hp]. by rewrite known_roundtrip.
  - rewrite hex_table_unknown hex_table_prefix /= hex_decode_encode /= /from_utf8 Hd.
    by rewrite String.string_of_list_ascii_of_string.
Qed.

Lemma table_name_inj d d' : domain_table_name d = domain_table_name d' → d = d'.
Proof.
  rewrite /domain_table_name.
  destruct (find_first _ DOMAIN_TABLES) as [p|] eqn:E;
    destruct (find_first (λ p, String.eqb p.1 d') _) as [q|] eqn:E'; intros Heq.
  - apply find_first_Some in E as [<-%String.eqb_eq Hp].
    apply find_first_Some in E' as [<-%String.eqb_eq Hq].
    apply known_roundtrip in Hp, Hq. rewrite Heq Hq in Hp. by injection Hp as ->.
  - apply find_first_Some in E as [_ Hp]. by apply hex_table_not_known in Heq.
  - apply find_first_Some in E' as [_ Hq]. symmetry in Heq. by apply hex_table_not_known in Heq.
  - by apply hex_table_inj.
Qed.

(** The other tables of the file do not belong to a domain. *)
Example other_tables_skipped :
  Forall (λ t, domain_from_table_name t = None)
    ["schema_version"; "agent_action_commit_log"; "agent_activity"; "domain_state";
     "space_presence_registry"; "network_agent_credentials"; "network_permission_checkpoints"].
Proof. by repeat constructor. Qed.

(** ** The state *)

Record AgentActionCommitLogEntry := mkCommit {
  commit_id : string;
  ce_event_id : string;
  ce_decision_id : string;
  ce_action_type : string;
  ce_domain : string;
  ce_target_id : option string;
  ce_expected_state : option string;
  ce_result_state : option string;
  ce_request_json : string;
  ce_result_json : string;
  ce_status : string;
  ce_actor_public_id : option string;
  ce_actor_agent_did : option string;
  ce_created_at : string;
}.

Record AgentActivity := mkActivity {
  aa_kind : string;
  aa_subject : option string;
  aa_detail : json;
  aa_created_at_ms : Z;
}.

(** A row of [agent_activity]; its id is its place in the table. *)
Record activity_row := mkActivityRow {
  ar_kind : string;
  ar_subject : option string;
  ar_detail_json : string;
  ar_created_at_ms : Z;
}.

(** The payload and the time of its last change. *)
Definition document : Type := string * string.

Record LocalDb := mkLocalDb {
  schema_version : option Z;
  (** whether the blob table [domain_state] of the first versions is there *)
  domain_state : bool;
  tables : gmap string (option document);
  commit_log : list AgentActionCommitLogEntry;
  agent_activity : list activity_row;
}.
#[global] Instance eta_database : Eta LocalDb := λ d,
  mkLocalDb (schema_version d) (domain_state d) (tables d) (commit_log d) (agent_activity d).

(** A file that was just created. *)
Definition new_db : LocalDb := mkLocalDb None false ∅ [] [].

(** [serde_json::to_string] and [from_str] of the state of a domain. *)
Class DomainCodec (T : Type) := {
  to_text : T → result string;
  of_text : string → result T;
}.
Class DomainCodecLaws (T : Type) `{DomainCodec T} : Prop :=
  of_to_text (v : T) s : to_text v = Ok s → of_text s = Ok v.

(** [format] and [parse_from_str] of chrono with ["%Y-%m-%dT%H:%M:%SZ"]. *)
Class Timestamps := {
  format_timestamp : Z → string;
  parse_timestamp : string → result Z;
}.
(** They are inverse on the seconds up to the end of the year 9999. *)
Class TimestampsLaws `{Timestamps} : Prop :=
  parse_format t : 0 ≤ t < 253402300800 → parse_timestamp (format_timestamp t) = Ok t.

(** [to_string] of a JSON value and the parser. *)
Class JsonText := {
  json_to_string : json → string;
  json_of_string : string → result json;
}.
Class JsonTextLaws `{JsonText} : Prop :=
  json_of_to_string v : json_of_string (json_to_string v) = Ok v.

Section database.
Context `{Timestamps} `{JsonText}.

(** ** Documents *)

Definition row_of (d : LocalDb) (domain : string) : option document :=
  mjoin (tables d !! domain_table_name domain).

Definition load_domain (T : Type) `{DomainCodec T} (d : LocalDb) (domain : string)
    : result (option T) :=
  match row_of d domain with
  | None => Ok None
  | Some (json, _) => Some <$> with_context ("deserialize domain table: " +:+ domain) (of_text json)
  end.

Definition load_domain_if_fresh (T : Type) `{DomainCodec T} (d : LocalDb) (domain : string)
    (max_age_sec now : Z) : result (option T) :=
  match row_of d domain with
  | None => Ok None
  | Some (json, updated_at) =>
      updated ← with_context ("parse updated_at for " +:+ domain) (parse_timestamp updated_at);
      if max_age_sec <? i64_sub now updated then Ok None
      else Some <$> with_context ("deserialize domain table: " +:+ domain) (of_text json)
  end.

Definition load_domain_or_default (T : Type) `{DomainCodec T} (dflt : T) (d : LocalDb)
    (domain : string) : result T :=
  o ← load_domain T d domain;
  Ok (default dflt o).

Definition create_domain_table (table : string) (t : gmap string (option document))
    : gmap string (option document) :=
  match t !! table with Some _ => t | None => <[table := None]> t end.

Definition save_domain {T : Type} `{DomainCodec T} (domain : string) (value : T) (now : Z)
    : stm LocalDb unit :=
  json ← lift (with_context ("serialize domain table: " +:+ domain) (to_text value));
  let table := domain_table_name domain in
  modify (λ d, d <| tables ::= create_domain_table table |>);;
  modify (λ d, d <| tables ::= <[table := Some (json, format_timestamp now)]> |>).

Definition delete_domain (domain : string) : stm LocalDb unit :=
  modify (λ d, d <| tables ::= delete (domain_table_name domain) |>).

(** The legacy file is absent, unreadable, or has a text. *)
Definition load_or_migrate {T : Type} `{DomainCodec T} (dflt : T) (domain_key : string)
    (json_path : option (result string)) (now : Z) : stm LocalDb T :=
  found ← (λ d, (load_domain T d domain_key, d));
  match found with
  | Some value => mret value
  | None =>
      value ← lift (match json_path with
                    | Some raw =>
                        raw ← with_context "read legacy json" raw;
                        if is_blank raw then Ok dflt
                        else with_context ("parse legacy json for " +:+ domain_key) (of_text raw)
                    | None => Ok dflt
                    end);
      save_domain domain_key value now;;
      mret value
  end.

(** The domains of the tables that have a row, in order. The other tables of
    the file are not the table of a domain ([other_tables_skipped]). *)
Definition list_domains (d : LocalDb) : list string :=
  sort_by str_leb
    (omap (λ p, _ ← p.2; domain_from_table_name p.1) (btree_entries (tables d))).

(** ** Migration *)

(** A step whose writes are undone when it fails. *)
Definition transaction {A} (m : stm LocalDb A) : stm LocalDb A := λ d,
  match m d with
  | (Ok a, d') => (Ok a, d')
  | (Err e, _) => (Err e, d)
  end.

Definition migrate_legacy_domain_table (legacy_table current_table : string) : stm LocalDb unit :=
  found ← gets (λ d, tables d !! legacy_table);
  match found with
  | None => mret tt
  | Some legacy =>
      current ← gets (λ d, tables d !! current_table);
      current ← lift (ok_or ("read domain table migration: " +:+ current_table) current);
      (match legacy, current with
       | Some (legacy_payload, legacy_updated_at), None =>
           modify (λ d, d <| tables ::=
             <[current_table := Some (legacy_payload, legacy_updated_at)]> |>)
       | Some (legacy_payload, _), Some (current_payload, _) =>
           ensure (String.eqb legacy_payload current_payload)
             ("refusing to overwrite conflicting domain tables " +:+ legacy_table +:+ " and "
              +:+ current_table)
       | None, _ => mret tt
       end);;
      modify (λ d, d <| tables ::= delete legacy_table |>)
  end.

Definition create_domain_tables (names : list (string * string)) (t : gmap string (option document))
    : gmap string (option document) :=
  foldl (λ t p, create_domain_table p.2 t) t names.
#[local] Arguments create_domain_tables : simpl never.

Definition LEGACY_PRESENCE : string := "space_presence_registry".

Definition migrate : stm LocalDb unit := transaction (
  current ← gets schema_version;
  modify (λ d, d <| tables ::= create_domain_tables DOMAIN_TABLES |>);;
  (if default 0 current <? 5 then
     migrate_legacy_domain_table (hex_table SERVICENET_ASYNC_INVOCATIONS)
       SERVICENET_ASYNC_INVOCATIONS_TABLE
   else mret tt);;
  (if default 0 current <? 12 then
     migrate_legacy_domain_table (hex_table LEGACY_PRESENCE) OWN_SPACE_PRESENCE;;
     migrate_legacy_domain_table LEGACY_PRESENCE OWN_SPACE_PRESENCE
   else mret tt);;
  (if default 0 current <? SCHEMA_VERSION then modify (λ d, d <| domain_state := false |>)
   else mret tt);;
  modify (λ d, d <| schema_version := Some SCHEMA_VERSION |>)).

(** ** The log of committed actions *)

Definition commit_key (e : AgentActionCommitLogEntry) : string * string * string :=
  (ce_event_id e, ce_decision_id e, ce_action_type e).

Definition load_agent_action_commit (d : LocalDb) (event_id decision_id action_type : string)
    : option AgentActionCommitLogEntry :=
  find_first (λ e, bool_decide (commit_key e = (event_id, decision_id, action_type))) (commit_log d).

(** [ORDER BY created_at DESC, commit_id DESC LIMIT 1] *)
Definition load_agent_action_commit_for_event_action (d : LocalDb) (event_id action_type : string)
    : option AgentActionCommitLogEntry :=
  head (order_by [λ x y, asc_str ce_created_at y x; λ x y, asc_str commit_id y x]
    (List.filter (λ e, String.eqb (ce_event_id e) event_id
                       && String.eqb (ce_action_type e) action_type
                       && String.eqb (ce_status e) "accepted") (commit_log d))).

(** The primary key and the unique index refuse a second row. *)
Definition append_agent_action_commit (e : AgentActionCommitLogEntry) : stm LocalDb unit :=
  log ← gets commit_log;
  ensure (negb (bool_decide (commit_id e ∈ commit_id <$> log))
          && negb (bool_decide (commit_key e ∈ commit_key <$> log)))
    "insert agent action commit log";;
  modify (λ d, d <| commit_log ::= λ l, l ++ [e] |>).

(** ** What the agent did *)

Definition append_agent_activity (a : AgentActivity) : stm LocalDb unit :=
  modify (λ d, d <| agent_activity ::= λ l,
    l ++ [mkActivityRow (aa_kind a) (aa_subject a) (json_to_string (aa_detail a))
            (aa_created_at_ms a)] |>).

Definition activity_of_row (r : activity_row) : result AgentActivity :=
  detail ← with_context "parse agent activity detail" (json_of_string (ar_detail_json r));
  Ok (mkActivity (ar_kind r) (ar_subject r) detail (ar_created_at_ms r)).

Definition agent_activity_between (d : LocalDb) (from_ms to_ms : Z) : result (list AgentActivity) :=
  collect activity_of_row
    (order_by [asc_Z ar_created_at_ms]
       (List.filter (λ r, (from_ms <=? ar_created_at_ms r) && (ar_created_at_ms r <? to_ms))
          (agent_activity d))).

Definition prune_agent_activity_before (before_ms : Z) : stm LocalDb nat :=
  gone ← gets (λ d, length (List.filter (λ r, ar_created_at_ms r <? before_ms) (agent_activity d)));
  modify (λ d, d <| agent_activity ::= List.filter (λ r, negb (ar_created_at_ms r <? before_ms)) |>);;
  mret gone.

(** ** Operations in sequence *)

Inductive db_op : Type :=
  | Save (T : Type) (C : DomainCodec T) (domain : string) (value : T) (now : Z)
  | Delete (domain : string)
  | LoadOrMigrate (T : Type) (C : DomainCodec T) (dflt : T) (domain : string)
      (file : option (result string)) (now : Z)
  | Open
  | Commit (e : AgentActionCommitLogEntry)
  | Record_activity (a : AgentActivity)
  | Prune (before_ms : Z).

Definition run_op (o : db_op) (d : LocalDb) : LocalDb :=
  match o with
  | Save T C domain value now => exec (save_domain domain value now) d
  | Delete domain => exec (delete_domain domain) d
  | LoadOrMigrate T C dflt domain file now => exec (load_or_migrate dflt domain file now) d
  | Open => exec migrate d
  | Commit e => exec (append_agent_action_commit e) d
  | Record_activity a => exec (append_agent_activity a) d
  | Prune before_ms => exec (prune_agent_activity_before before_ms) d
  end.
Definition run_ops (d : LocalDb) (os : list db_op) : LocalDb := foldl (λ d o, run_op o d) d os.

(** The domain an operation writes. *)
Definition op_domain (o : db_op) : option string :=
  match o with
  | Save _ _ x _ _ | Delete x | LoadOrMigrate _ _ _ x _ _ => Some x
  | _ => None
  end.

(** The specification: a map from domains to documents. *)
Definition saved (T : Type) `{DomainCodec T} (domain : string) (value : T) (now : Z)
    (m : gmap string document) : gmap string document :=
  match to_text value with
  | Ok s => <[domain := (s, format_timestamp now)]> m
  | Err _ => m
  end.

Definition spec_op (o : db_op) (m : gmap string document) : gmap string document :=
  match o with
  | Save T C x value now => saved T x value now m
  | Delete x => delete x m
  | LoadOrMigrate T C dflt x file now =>
      match m !! x with
      | Some _ => m
      | None =>
          match file with
          | None => saved T x dflt now m
          | Some (Ok raw) =>
              if is_blank raw then saved T x dflt now m
              else match of_text raw with Ok value => saved T x value now m | Err _ => m end
          | Some (Err _) => m
          end
      end
  | _ => m
  end.

(** The database has been opened, and its documents are those of [m]. *)
Record represents (d : LocalDb) (m : gmap string document) : Prop := {
  rep_version : schema_version d = Some SCHEMA_VERSION;
  rep_utf8 x doc : m !! x = Some doc → is_utf8 x;
  rep_rows t doc : tables d !! t = Some (Some doc)
                   ↔ ∃ x, t = domain_table_name x ∧ m !! x = Some doc;
}.

Lemma represents_row d m x : represents d m → row_of d x = m !! x.
Proof using Type.
  intros [_ _ Hr]. rewrite /row_of. destruct (m !! x) as [doc|] eqn:E.
  - by rewrite (proj2 (Hr _ doc)); [|eauto].
  - destruct (tables d !! domain_table_name x) as [[doc|]|] eqn:Et; [|done..].
    apply Hr in Et as (y & Hy%table_name_inj & Hm). subst. congruence.
Qed.

Lemma represents_insert d m x s now :
  represents d m → is_utf8 x →
  represents (d <| tables ::= create_domain_table (domain_table_name x) |>
                <| tables ::= <[domain_table_name x := Some (s, now)]> |>) (<[x := (s, now)]> m).
Proof using Type.
  intros [Hv Hu Hr] Hx. split; [done| |].
  - intros y doc [[<- _]|[_ Hy]]%lookup_insert_Some; eauto.
  - intros t doc. cbn. destruct (decide (t = domain_table_name x)) as [->|Ht].
    + rewrite lookup_insert_eq. split.
      * intros [= <-]. exists x. by rewrite lookup_insert_eq.
      * intros (y & <-%table_name_inj & Hm). rewrite lookup_insert_eq in Hm. by injection Hm as ->.
    + rewrite lookup_insert_ne //.
      assert (create_domain_table (domain_table_name x) (tables d) !! t = tables d !! t) as ->.
      { rewrite /create_domain_table. case_match; [done|]. by rewrite lookup_insert_ne. }
      rewrite Hr. split; intros (y & -> & Hm); exists y; (split; [done|]).
      * by rewrite lookup_insert_ne; [|intros ->].
      * by rewrite lookup_insert_ne in Hm; [|intros ->].
Qed.

Lemma represents_delete d m x :
  represents d m →
  represents (d <| tables ::= delete (domain_table_name x) |>) (delete x m).
Proof using Type.
  intros [Hv Hu Hr]. split; [done| |].
  - intros y doc [_ Hy]%lookup_delete_Some. eauto.
  - intros t doc. cbn. rewrite lookup_delete_Some Hr. split.
    + intros [Hne (y & -> & Hm)]. exists y. split; [done|].
      rewrite lookup_delete_ne //. by intros ->.
    + intros (y & -> & [Hne Hm]%lookup_delete_Some). split; [|eauto]. by intros ?%table_name_inj.
Qed.

Lemma save_domain_represents T `{DomainCodec T} d m x value now :
  represents d m → is_utf8 x →
  represents (exec (save_domain x value now) d) (saved T x value now m).
Proof using Type.
  intros Hr Hx. rewrite /save_domain /saved /exec /with_context.
  cbv [mbind stm_bind lift modify]. destruct (to_text value); [|done].
  by apply represents_insert.
Qed.

Lemma create_all_lookup (l : list (string * string)) t0 t :
  create_domain_tables l t0 !! t
  = match t0 !! t with
    | Some r => Some r
    | None => if decide (t ∈ l.*2) then Some None else None
    end.
Proof using Type.
  revert t0. induction l as [|[k n] l IH]; intros t0.
  { rewrite /create_domain_tables /=. by destruct (t0 !! t). }
  change (create_domain_tables ((k, n) :: l) t0) with
    (create_domain_tables l (create_domain_table n t0)).
  rewrite IH /create_domain_table. cbn [fmap list_fmap snd].
  destruct (t0 !! n) as [r|] eqn:En.
  - destruct (t0 !! t) eqn:Et; [done|]. assert (t ≠ n) by congruence.
    repeat case_decide; set_solver.
  - destruct (decide (t = n)) as [->|Hne].
    + rewrite lookup_insert_eq En. rewrite decide_True; [done|set_solver].
    + rewrite lookup_insert_ne //. destruct (t0 !! t); [done|]. repeat case_decide; set_solver.
Qed.

Lemma open_represents d m : represents d m → represents (exec migrate d) m.
Proof using Type.
  intros [Hv Hu Hr]. rewrite /migrate /exec /transaction.
  cbv [mbind stm_bind gets modify mret stm_ret]. rewrite Hv. cbn.
  split; [done|done|]. intros t doc. cbn. rewrite -Hr create_all_lookup.
  destruct (tables d !! t); [done|]. by case_decide.
Qed.

Lemma load_or_migrate_represents T `{DomainCodec T} d m dflt x file now :
  represents d m → is_utf8 x →
  represents (exec (load_or_migrate dflt x file now) d) (spec_op (LoadOrMigrate T _ dflt x file now) m).
Proof using Type.
  intros Hr Hx. cbv [load_or_migrate exec mbind stm_bind lift load_domain].
  cbn [spec_op]. rewrite (represents_row d m x Hr). destruct (m !! x) as [[s u]|]; cbn.
  { destruct (with_context _ (of_text s)); done. }
  assert (∀ v : T, represents (match save_domain x v now d with
                               | (Ok _, s') => (mret v : stm LocalDb T) s'
                               | (Err e, s') => (Err e, s')
                               end).2 (saved T x v now m)) as Hs.
  { intros v. pose proof (save_domain_represents T d m x v now Hr Hx) as Hs. rewrite /exec in Hs.
    destruct (save_domain x v now d) as [[[]|?] d']; exact Hs. }
  destruct file as [[raw|e]|]; cbn; [|done|apply Hs].
  destruct (is_blank raw); [apply Hs|]. destruct (of_text raw); [apply Hs|done].
Qed.

Lemma run_op_represents o d m :
  represents d m → (∀ x, op_domain o = Some x → is_utf8 x) →
  represents (run_op o d) (spec_op o m).
Proof using Type.
  intros Hr Hx. destruct o; cbn [run_op spec_op op_domain] in *.
  - apply save_domain_represents; auto.
  - by apply represents_delete.
  - apply load_or_migrate_represents; auto.
  - by apply open_represents.
  - rewrite /exec /append_agent_action_commit. cbv [mbind stm_bind gets ensure modify].
    destruct Hr as [Hv Hu Hr]. destruct (_ && _); by split.
  - destruct Hr as [Hv Hu Hr]. by split.
  - destruct Hr as [Hv Hu Hr]. by split.
Qed.

Lemma run_ops_represents os d m :
  represents d m → Forall (λ o, ∀ x, op_domain o = Some x → is_utf8 x) os →
  represents (run_ops d os) (foldl (λ m o, spec_op o m) m os).
Proof using Type.
  revert d m. induction os as [|o os IH]; intros d m Hr Hos; [done|].
  apply Forall_cons in Hos as [Ho Hos]. apply IH; [|done]. by apply run_op_represents.
Qed.

Lemma list_domains_represents d m :
  represents d m → list_domains d = sort_by str_leb (elements (dom m)).
Proof using Type.
  intros Hr. pose proof Hr as [_ Hu Hrows].
  assert (∀ t doc x, (t, doc) ∈ btree_entries (tables d) →
    (_ ← doc; domain_from_table_name t) = Some x → t = domain_table_name x ∧ is_Some (m !! x)) as Hin.
  { intros t doc x Ht%elem_of_btree_entries Hx. destruct doc as [doc|]; [|done].
    apply Hrows in Ht as (y & -> & Hm). cbn in Hx.
    rewrite table_name_roundtrip in Hx; [|eauto]. injection Hx as <-. eauto. }
  apply sort_by_str_perm, NoDup_Permutation; [|apply NoDup_elements|].
  - apply NoDup_omap_inj.
    + intros [t doc] [t' doc'] x Ht Ht' Hx Hx'. cbn in Hx, Hx'.
      destruct (Hin _ _ _ Ht Hx) as [-> _]. destruct (Hin _ _ _ Ht' Hx') as [-> _].
      apply elem_of_btree_entries in Ht, Ht'. congruence.
    + eapply NoDup_fmap_1. apply (btree_entries_NoDup (tables d)).
  - intros x. rewrite list_elem_of_omap elem_of_elements elem_of_dom. split.
    + intros ([t doc] & Ht & Hx). by destruct (Hin _ _ _ Ht Hx).
    + intros [doc Hm]. exists (domain_table_name x, Some doc). split.
      * apply elem_of_btree_entries, Hrows. eauto.
      * cbn. apply table_name_roundtrip. eauto.
Qed.

(** C24: The tables of documents behave as one map from domains to documents:
    whatever is saved, deleted, imported from legacy files, committed, recorded
    or pruned, and however often the database is reopened, a domain loads what
    the map has for it, no two domains share a table, and the list of domains is
    the sorted list of the keys. *)
Theorem documents_refine_map os d m :
  represents d m → Forall (λ o, ∀ x, op_domain o = Some x → is_utf8 x) os →
  let d' := run_ops d os in
  let m' := foldl (λ m o, spec_op o m) m os in
  list_domains d' = sort_by str_leb (elements (dom m'))
  ∧ ∀ T (C : DomainCodec T) x,
      load_domain T d' x = match m' !! x with
                           | None => Ok None
                           | Some (s, _) =>
                               Some <$> with_context ("deserialize domain table: " +:+ x) (of_text s)
                           end.
Proof using Type.
  intros Hr Hos d' m'. pose proof (run_ops_represents os d m Hr Hos) as Hr'. split.
  - by apply list_domains_represents.
  - intros T C x. rewrite /load_domain (represents_row _ _ x Hr'). fold m'. by destruct (m' !! x) as [[]|].
Qed.

(** What other operations keep. *)
Lemma spec_op_other o m x : op_domain o ≠ Some x → spec_op o m !! x = m !! x.
Proof using Type.
  assert (∀ T (C : DomainCodec T) y v now, y ≠ x → saved T y v now m !! x = m !! x) as Hs.
  { intros T C y v now Hy. rewrite /saved. case_match; [|done]. by rewrite lookup_insert_ne. }
  intros Ho. destruct o; cbn [spec_op op_domain] in *; try done.
  - apply Hs. congruence.
  - rewrite lookup_delete_ne //. congruence.
  - repeat case_match; try done; apply Hs; congruence.
Qed.

Lemma spec_ops_other os m x :
  Forall (λ o, op_domain o ≠ Some x) os → foldl (λ m o, spec_op o m) m os !! x = m !! x.
Proof using Type.
  revert m. induction os as [|o os IH]; intros m Hos; [done|].
  apply Forall_cons in Hos as [Ho Hos]. rewrite /= IH //. by apply spec_op_other.
Qed.

(** A document that was saved loads again: after any operations that do
    not write its domain, reopening included, it is the value that was saved,
    and it counts as fresh exactly until its age exceeds the limit. *)
Theorem saved_document_loads T `{DomainCodec T} `{!DomainCodecLaws T} `{!TimestampsLaws}
    d m x (v : T) now os d1 max_age later :
  represents d m → is_utf8 x → save_domain x v now d = (Ok tt, d1) →
  Forall (λ o, op_domain o ≠ Some x ∧ ∀ y, op_domain o = Some y → is_utf8 y) os →
  0 ≤ now < 253402300800 → 0 ≤ later < 253402300800 →
  load_domain T (run_ops d1 os) x = Ok (Some v)
  ∧ load_domain_if_fresh T (run_ops d1 os) x max_age later
    = Ok (if max_age <? later - now then None else Some v).
Proof using Type*.
  intros Hr Hx Hsave Hos Hnow Hlater.
  pose proof (save_domain_represents T d m x v now Hr Hx) as Hr1.
  rewrite /exec Hsave /saved /= in Hr1.
  rewrite /save_domain in Hsave. apply bind_ok_inv in Hsave as (s & d0 & Hs & _).
  apply lift_ok_inv in Hs as [Hs%with_context_ok_inv _]. rewrite Hs in Hr1.
  assert (row_of (run_ops d1 os) x = Some (s, format_timestamp now)) as Hrow.
  { rewrite (represents_row _ _ x (run_ops_represents os _ _ Hr1 ltac:(eapply Forall_impl; [done|naive_solver]))).
    rewrite spec_ops_other; [by rewrite lookup_insert_eq|]. eapply Forall_impl; [done|naive_solver]. }
  rewrite /load_domain /load_domain_if_fresh Hrow (of_to_text v s Hs) parse_format // /=.
  split; [done|]. rewrite /i64_sub wrap_i64_id; [by case_match|]. rewrite /is_i64 /i64_min /i64_max. lia.
Qed.

(** ** Opening an older file *)

Definition version_of (d : LocalDb) : Z := default 0 (schema_version d).

(** The tables an older version kept the documents of a domain in. *)
Definition legacy_tables (d : LocalDb) (x : string) : list string :=
  if String.eqb x SERVICENET_ASYNC_INVOCATIONS && (version_of d <? 5)
  then [hex_table SERVICENET_ASYNC_INVOCATIONS]
  else if String.eqb x OWN_SPACE_PRESENCE && (version_of d <? 12)
  then [hex_table LEGACY_PRESENCE; LEGACY_PRESENCE]
  else [].

(** All the documents of a domain, that of its own table first. *)
Definition versions (d : LocalDb) (x : string) : list document :=
  omap (λ t, mjoin (tables d !! t)) (domain_table_name x :: legacy_tables d x).

(** They have the same payload. *)
Definition agree (l : list document) : bool :=
  match l with [] => true | a :: l' => forallb (λ b, String.eqb b.1 a.1) l' end.

Definition conflicts (c l : option document) : bool :=
  match c, l with Some a, Some b => negb (String.eqb b.1 a.1) | _, _ => false end.

Definition moved (legacy current : string) (c : option document)
    (t : gmap string (option document)) : gmap string (option document) :=
  delete legacy (<[current := or_else c (mjoin (t !! legacy))]> t).

Lemma migrate_step legacy current d c :
  legacy ≠ current → tables d !! current = Some c →
  migrate_legacy_domain_table legacy current d =
  if conflicts c (mjoin (tables d !! legacy))
  then (Err ("refusing to overwrite conflicting domain tables " +:+ legacy +:+ " and " +:+ current), d)
  else (Ok tt, d <| tables ::= moved legacy current c |>).
Proof using Type.
  intros Hne Hc. rewrite /migrate_legacy_domain_table.
  cbv [mbind stm_bind gets modify lift ensure mret stm_ret ok_or].
  destruct d as [v b t cl aa]. cbv [set_field]. cbn in *.
  destruct (t !! legacy) as [l|] eqn:El; cbn.
  - rewrite Hc. destruct l as [[lp lu]|], c as [[cp cu]|]; cbn; rewrite /moved /= ?El /=.
    + destruct (String.eqb lp cp); cbn; [|done].
      by rewrite (insert_id t current).
    + done.
    + by rewrite (insert_id t current).
    + by rewrite (insert_id t current).
  - assert (moved legacy current c t = t) as Hm.
    { rewrite /moved El /=. replace (or_else c None) with c by by destruct c.
      rewrite insert_id // delete_id //. }
    rewrite Hm. by destruct c.
Qed.

Lemma moved_ne legacy current c t k :
  k ≠ legacy → k ≠ current → moved legacy current c t !! k = t !! k.
Proof using Type. intros. by rewrite /moved lookup_delete_ne // lookup_insert_ne. Qed.

Lemma moved_current legacy current c t :
  legacy ≠ current → moved legacy current c t !! current = Some (or_else c (mjoin (t !! legacy))).
Proof using Type. intros. by rewrite /moved lookup_delete_ne // lookup_insert_eq. Qed.

Lemma moved_legacy legacy current c t : moved legacy current c t !! legacy = None.
Proof using Type. apply lookup_delete_eq. Qed.

(** The three legacy names are the table of no domain, one apart. *)
Lemma table_name_cases x :
  (∃ p, p ∈ DOMAIN_TABLES ∧ x = p.1 ∧ domain_table_name x = p.2)
  ∨ (x ∉ DOMAIN_TABLES.*1 ∧ domain_table_name x = hex_table x).
Proof using Type.
  rewrite /domain_table_name. destruct (find_first _ _) as [p|] eqn:E.
  - apply find_first_Some in E as [<-%String.eqb_eq Hp]. eauto.
  - right. split; [|done]. rewrite find_first_None in E.
    intros (p & -> & Hp)%list_elem_of_fmap. specialize (E p Hp). cbn in E. by rewrite String.eqb_refl in E.
Qed.

Lemma known_domain x : bool_decide (x ∈ DOMAIN_TABLES.*1) = true → x ∈ DOMAIN_TABLES.*1.
Proof using Type. apply bool_decide_eq_true. Qed.

Lemma not_servicenet_legacy x : domain_table_name x ≠ hex_table SERVICENET_ASYNC_INVOCATIONS.
Proof using Type.
  destruct (table_name_cases x) as [(p & Hp & _ & ->)|[Hx ->]]; [by apply hex_table_not_known|].
  intros ->%hex_table_inj. apply Hx, known_domain. reflexivity.
Qed.

Lemma not_presence_legacy x : x ≠ LEGACY_PRESENCE → domain_table_name x ≠ hex_table LEGACY_PRESENCE.
Proof using Type.
  destruct (table_name_cases x) as [(p & Hp & _ & ->)|[Hx ->]]; [by intros _; apply hex_table_not_known|].
  by intros Hne ?%hex_table_inj.
Qed.

Lemma not_presence_table x : domain_table_name x ≠ LEGACY_PRESENCE.
Proof using Type.
  destruct (table_name_cases x) as [(p & Hp & _ & ->)|[_ ->]].
  - intros Heq. assert (LEGACY_PRESENCE ∈ DOMAIN_TABLES.*2) as Hin.
    { rewrite -Heq. by apply list_elem_of_fmap_2. }
    by apply (bool_decide_eq_true_2 (LEGACY_PRESENCE ∈ DOMAIN_TABLES.*2)) in Hin.
  - intros Heq. pose proof (hex_table_prefix x) as Hp. by rewrite Heq in Hp.
Qed.

Lemma agree_two (c l : option document) :
  agree (omap id [c; l]) = negb (conflicts c l).
Proof using Type. destruct c, l; cbn; rewrite ?andb_true_r ?negb_involutive //. Qed.

Lemma agree_three (c l l' : option document) :
  agree (omap id [c; l; l']) = negb (conflicts c l || conflicts (or_else c l) l').
Proof using Type.
  destruct c, l, l'; cbn; rewrite ?andb_true_r; by repeat destruct (String.eqb _ _).
Qed.

Lemma created_row d t :
  mjoin (create_domain_tables DOMAIN_TABLES (tables d) !! t) = mjoin (tables d !! t).
Proof using Type. rewrite create_all_lookup. destruct (tables d !! t); [done|]. by case_decide. Qed.

Lemma created_known d t :
  t ∈ DOMAIN_TABLES.*2 →
  create_domain_tables DOMAIN_TABLES (tables d) !! t = Some (mjoin (tables d !! t)).
Proof using Type.
  intros Ht. rewrite create_all_lookup. destruct (tables d !! t); [done|]. by rewrite decide_True.
Qed.

Lemma servicenet_known : SERVICENET_ASYNC_INVOCATIONS_TABLE ∈ DOMAIN_TABLES.*2.
Proof using Type. by apply (bool_decide_eq_true_1 _). Qed.
Lemma presence_known : OWN_SPACE_PRESENCE ∈ DOMAIN_TABLES.*2.
Proof using Type. by apply (bool_decide_eq_true_1 _). Qed.

(** What the two groups of moves do to the tables. *)
Definition servicenet_moves (t : gmap string (option document)) : gmap string (option document) :=
  moved (hex_table SERVICENET_ASYNC_INVOCATIONS) SERVICENET_ASYNC_INVOCATIONS_TABLE
    (mjoin (t !! SERVICENET_ASYNC_INVOCATIONS_TABLE)) t.

Definition presence_moves (t : gmap string (option document)) : gmap string (option document) :=
  let t' := moved (hex_table LEGACY_PRESENCE) OWN_SPACE_PRESENCE (mjoin (t !! OWN_SPACE_PRESENCE)) t in
  moved LEGACY_PRESENCE OWN_SPACE_PRESENCE (mjoin (t' !! OWN_SPACE_PRESENCE)) t'.

Lemma servicenet_moves_run d c :
  tables d !! SERVICENET_ASYNC_INVOCATIONS_TABLE = Some c →
  let l := mjoin (tables d !! hex_table SERVICENET_ASYNC_INVOCATIONS) in
  migrate_legacy_domain_table (hex_table SERVICENET_ASYNC_INVOCATIONS)
    SERVICENET_ASYNC_INVOCATIONS_TABLE d
  = (if conflicts c l then Err ("refusing to overwrite conflicting domain tables "
        +:+ hex_table SERVICENET_ASYNC_INVOCATIONS +:+ " and " +:+ SERVICENET_ASYNC_INVOCATIONS_TABLE)
     else Ok tt,
     if conflicts c l then d else d <| tables ::= servicenet_moves |>).
Proof using Type.
  intros Hc l. rewrite (migrate_step _ _ d c); [|done|done].
  subst l. destruct (conflicts c _); [done|]. destruct d. cbv [set_field servicenet_moves]. cbn in *.
  by rewrite Hc.
Qed.

Lemma presence_moves_run d c :
  tables d !! OWN_SPACE_PRESENCE = Some c →
  let l := mjoin (tables d !! hex_table LEGACY_PRESENCE) in
  let l' := mjoin (tables d !! LEGACY_PRESENCE) in
  ∃ e d', (migrate_legacy_domain_table (hex_table LEGACY_PRESENCE) OWN_SPACE_PRESENCE;;
           migrate_legacy_domain_table LEGACY_PRESENCE OWN_SPACE_PRESENCE) d
  = if conflicts c l || conflicts (or_else c l) l' then (Err e, d')
    else (Ok tt, d <| tables ::= presence_moves |>).
Proof using Type.
  intros Hc l l'. rewrite /mbind /stm_bind (migrate_step _ _ d c); [|done|done]. fold l.
  destruct (conflicts c l); [by eauto|]. cbn [orb].
  set (d1 := d <| tables ::= _ |>).
  assert (tables d1 = moved (hex_table LEGACY_PRESENCE) OWN_SPACE_PRESENCE c (tables d)) as Ht by done.
  rewrite (migrate_step _ _ d1 (or_else c l)); [|done|by rewrite Ht moved_current].
  rewrite Ht moved_ne //. fold l'. destruct (conflicts (or_else c l) l'); [by eauto|].
  exists "", d. f_equal. destruct d. cbv [set_field] in *. subst d1. cbn in *.
  rewrite /presence_moves Hc /= moved_current //.
Qed.

(** Two updates of the same database, up to the fields they write. *)
Ltac same_db d :=
  destruct d;
  cbv [set_field id schema_version domain_state tables commit_log agent_activity]; reflexivity.

(** The tables when the moves of the presences begin. *)
Definition before_presence (v : Z) (t : gmap string (option document)) : gmap string (option document) :=
  (if v <? 5 then servicenet_moves else id) (create_domain_tables DOMAIN_TABLES t).

Lemma before_presence_lookup v t k :
  k ≠ SERVICENET_ASYNC_INVOCATIONS_TABLE → k ≠ hex_table SERVICENET_ASYNC_INVOCATIONS →
  before_presence v t !! k = create_domain_tables DOMAIN_TABLES t !! k.
Proof using Type.
  intros. rewrite /before_presence /servicenet_moves. case_match; [|done]. by rewrite moved_ne.
Qed.

Definition final_tables (v : Z) (t : gmap string (option document)) : gmap string (option document) :=
  (if v <? 12 then presence_moves else id) (before_presence v t).

Definition conflicting (d : LocalDb) : bool :=
  let row t := mjoin (tables d !! t) in
  let c := row OWN_SPACE_PRESENCE in let l := row (hex_table LEGACY_PRESENCE) in
  (version_of d <? 5)
    && conflicts (row SERVICENET_ASYNC_INVOCATIONS_TABLE) (row (hex_table SERVICENET_ASYNC_INVOCATIONS))
  || (version_of d <? 12) && (conflicts c l || conflicts (or_else c l) (row LEGACY_PRESENCE)).

Lemma servicenet_part d :
  let v := version_of d in
  let d1 := d <| tables ::= create_domain_tables DOMAIN_TABLES |> in
  ∃ e, (if v <? 5 then migrate_legacy_domain_table (hex_table SERVICENET_ASYNC_INVOCATIONS)
                         SERVICENET_ASYNC_INVOCATIONS_TABLE else mret tt) d1
       = if (v <? 5) && conflicts (mjoin (tables d !! SERVICENET_ASYNC_INVOCATIONS_TABLE))
                          (mjoin (tables d !! hex_table SERVICENET_ASYNC_INVOCATIONS))
         then (Err e, d1) else (Ok tt, d <| tables ::= before_presence v |>).
Proof using Type.
  intros v d1. rewrite /before_presence. destruct (v <? 5); [|exists ""; same_db d].
  rewrite (servicenet_moves_run d1 (mjoin (tables d !! SERVICENET_ASYNC_INVOCATIONS_TABLE)));
    [|apply created_known, servicenet_known].
  rewrite (created_row d (hex_table SERVICENET_ASYNC_INVOCATIONS)). cbn [andb].
  destruct (conflicts _ _); [eexists; reflexivity|exists ""; same_db d].
Qed.

Lemma presence_part d :
  let v := version_of d in
  let d2 := d <| tables ::= before_presence v |> in
  let c := mjoin (tables d !! OWN_SPACE_PRESENCE) in
  let l := mjoin (tables d !! hex_table LEGACY_PRESENCE) in
  ∃ e d', (if v <? 12 then migrate_legacy_domain_table (hex_table LEGACY_PRESENCE) OWN_SPACE_PRESENCE;;
                           migrate_legacy_domain_table LEGACY_PRESENCE OWN_SPACE_PRESENCE
           else mret tt) d2
       = if (v <? 12) && (conflicts c l || conflicts (or_else c l) (mjoin (tables d !! LEGACY_PRESENCE)))
         then (Err e, d') else (Ok tt, d <| tables ::= final_tables v |>).
Proof using Type.
  intros v d2 c l. rewrite /final_tables. destruct (v <? 12); [|exists "", d; same_db d].
  assert (∀ k, k ≠ SERVICENET_ASYNC_INVOCATIONS_TABLE → k ≠ hex_table SERVICENET_ASYNC_INVOCATIONS →
    mjoin (tables d2 !! k) = mjoin (tables d !! k)) as Hrow.
  { intros k ? ?. change (tables d2) with (before_presence v (tables d)).
    by rewrite before_presence_lookup // created_row. }
  assert (tables d2 !! OWN_SPACE_PRESENCE = Some c) as Hc.
  { change (tables d2) with (before_presence v (tables d)).
    rewrite before_presence_lookup //. apply created_known, presence_known. }
  destruct (presence_moves_run d2 c Hc) as (e & d' & Hrun). exists e, d'. rewrite Hrun.
  by rewrite !Hrow.
Qed.

Lemma migrate_run d :
  ∃ e, migrate d =
  if conflicting d then (Err e, d)
  else (Ok tt, mkLocalDb (Some SCHEMA_VERSION)
                 (if version_of d <? 12 then false else domain_state d)
                 (final_tables (version_of d) (tables d)) (commit_log d) (agent_activity d)).
Proof using Type.
  destruct (servicenet_part d) as [e1 H1]. destruct (presence_part d) as (e2 & d2 & H2).
  rewrite /migrate /transaction /conflicting.
  set (s := (version_of d <? 5) && _). set (p := (version_of d <? 12) && _).
  fold s in H1. fold p in H2.
  exists (if s then e1 else e2).
  cbv [mbind stm_bind gets modify] in H1, H2 |- *.
  change (default 0 (schema_version d)) with (version_of d).
  rewrite H1. destruct s; [done|]. rewrite H2. destruct p; [done|].
  change SCHEMA_VERSION with 12. destruct (version_of d <? 12); same_db d.
Qed.

Lemma final_known v t k : k ∈ DOMAIN_TABLES.*2 → is_Some (final_tables v t !! k).
Proof using Type.
  intros Hk. assert (∀ legacy current c t', current ∈ DOMAIN_TABLES.*2 → legacy ∉ DOMAIN_TABLES.*2 →
    is_Some (t' !! k) → is_Some (moved legacy current c t' !! k)) as Hm.
  { intros legacy current c t' Hc Hl Ht. destruct (decide (k = current)) as [->|].
    - rewrite moved_current; [eauto|]. by intros ->.
    - rewrite moved_ne //. by intros ->. }
  assert (∀ x, hex_table x ∉ DOMAIN_TABLES.*2) as Hhex.
  { intros x (p & Heq & Hp)%list_elem_of_fmap. by apply (hex_table_not_known x p). }
  assert (is_Some (create_domain_tables DOMAIN_TABLES t !! k)) as H1.
  { rewrite create_all_lookup. destruct (t !! k); [done|]. by rewrite decide_True. }
  assert (is_Some (before_presence v t !! k)) as H2.
  { rewrite /before_presence /servicenet_moves. destruct (v <? 5); [|done].
    apply Hm; [apply servicenet_known|apply Hhex|done]. }
  rewrite /final_tables /presence_moves. destruct (v <? 12); [|done].
  apply Hm; [apply presence_known| |].
  - by apply (bool_decide_eq_false_1 _).
  - apply Hm; [apply presence_known|apply Hhex|done].
Qed.

(** Reopening a database at the current version changes nothing. *)
Lemma final_idem v t : final_tables 12 (final_tables v t) = final_tables v t.
Proof using Type.
  change (create_domain_tables DOMAIN_TABLES (final_tables v t) = final_tables v t).
  apply map_eq. intros k. rewrite create_all_lookup.
  destruct (final_tables v t !! k) as [r|] eqn:E; [done|].
  rewrite decide_False //. intros Hk%(final_known v t). rewrite E in Hk. by destruct Hk.
Qed.

Lemma presence_moves_own t :
  presence_moves t !! OWN_SPACE_PRESENCE
  = Some (or_else (or_else (mjoin (t !! OWN_SPACE_PRESENCE)) (mjoin (t !! hex_table LEGACY_PRESENCE)))
            (mjoin (t !! LEGACY_PRESENCE))).
Proof using Type.
  rewrite /presence_moves moved_current // moved_current //. cbn [mjoin option_join].
  by rewrite moved_ne.
Qed.

Lemma presence_moves_ne t k :
  k ≠ OWN_SPACE_PRESENCE → k ≠ hex_table LEGACY_PRESENCE → k ≠ LEGACY_PRESENCE →
  presence_moves t !! k = t !! k.
Proof using Type. intros. by rewrite /presence_moves !moved_ne. Qed.

Lemma head_two (c l : option document) : head (omap id [c; l]) = or_else c l.
Proof using Type. by destruct c, l. Qed.
Lemma head_three (c l l' : option document) : head (omap id [c; l; l']) = or_else (or_else c l) l'.
Proof using Type. by destruct c, l, l'. Qed.

Lemma versions_agree d x : conflicting d = false → agree (versions d x) = true.
Proof using Type.
  intros Hc. rewrite /conflicting in Hc. apply orb_false_iff in Hc as [Hs Hp].
  rewrite /versions /legacy_tables.
  destruct (String.eqb_spec x SERVICENET_ASYNC_INVOCATIONS) as [->|].
  - destruct (version_of d <? 5); cbn [andb].
    + change (agree (omap id [mjoin (tables d !! SERVICENET_ASYNC_INVOCATIONS_TABLE);
        mjoin (tables d !! hex_table SERVICENET_ASYNC_INVOCATIONS)]) = true).
      rewrite agree_two. cbn [andb] in Hs. by rewrite Hs.
    + cbn. by case_match.
  - destruct (String.eqb_spec x OWN_SPACE_PRESENCE) as [->|]; cbn [andb].
    + destruct (version_of d <? 12); [|cbn; by case_match].
      change (agree (omap id [mjoin (tables d !! OWN_SPACE_PRESENCE);
        mjoin (tables d !! hex_table LEGACY_PRESENCE); mjoin (tables d !! LEGACY_PRESENCE)]) = true).
      rewrite agree_three. cbn [andb] in Hp. by rewrite Hp.
    + cbn. by case_match.
Qed.

Lemma versions_conflict d : conflicting d = true → ∃ x, agree (versions d x) = false.
Proof using Type.
  rewrite /conflicting. intros [[Hv Hs]%andb_true_iff|[Hv Hp]%andb_true_iff]%orb_true_iff.
  - exists SERVICENET_ASYNC_INVOCATIONS. rewrite /versions /legacy_tables String.eqb_refl Hv.
    change (agree (omap id [mjoin (tables d !! SERVICENET_ASYNC_INVOCATIONS_TABLE);
      mjoin (tables d !! hex_table SERVICENET_ASYNC_INVOCATIONS)]) = false).
    by rewrite agree_two Hs.
  - exists OWN_SPACE_PRESENCE. rewrite /versions /legacy_tables Hv.
    change (agree (omap id [mjoin (tables d !! OWN_SPACE_PRESENCE);
      mjoin (tables d !! hex_table LEGACY_PRESENCE); mjoin (tables d !! LEGACY_PRESENCE)]) = false).
    by rewrite agree_three Hp.
Qed.

Lemma before_presence_row d x :
  mjoin (before_presence (version_of d) (tables d) !! domain_table_name x)
  = head (omap (λ t, mjoin (tables d !! t))
      (domain_table_name x :: if String.eqb x SERVICENET_ASYNC_INVOCATIONS && (version_of d <? 5)
                              then [hex_table SERVICENET_ASYNC_INVOCATIONS] else [])).
Proof using Type.
  assert (∀ o : option document, o = head (omap id [o])) as Hone by by intros [].
  destruct (String.eqb_spec x SERVICENET_ASYNC_INVOCATIONS) as [->|Hx]; cbn [andb].
  - change (domain_table_name SERVICENET_ASYNC_INVOCATIONS) with SERVICENET_ASYNC_INVOCATIONS_TABLE.
    rewrite /before_presence /servicenet_moves. destruct (version_of d <? 5).
    + rewrite moved_current // !created_row. cbn [mjoin option_join].
      change (omap _ _) with (omap id [mjoin (tables d !! SERVICENET_ASYNC_INVOCATIONS_TABLE);
        mjoin (tables d !! hex_table SERVICENET_ASYNC_INVOCATIONS)]).
      by rewrite head_two.
    + rewrite created_row. apply Hone.
  - rewrite before_presence_lookup; [|by intros Heq; apply Hx, table_name_inj|apply not_servicenet_legacy].
    rewrite created_row. apply Hone.
Qed.

Lemma final_row d x :
  (x = LEGACY_PRESENCE → 12 ≤ version_of d) →
  mjoin (final_tables (version_of d) (tables d) !! domain_table_name x) = head (versions d x).
Proof using Type.
  intros Hx. pose proof (before_presence_row d) as Hb. rewrite /final_tables.
  destruct (Z.ltb_spec (version_of d) 12) as [Hv|Hv].
  - rewrite /versions /legacy_tables. destruct (String.eqb_spec x OWN_SPACE_PRESENCE) as [->|Hne].
    + change (domain_table_name OWN_SPACE_PRESENCE) with OWN_SPACE_PRESENCE.
      rewrite presence_moves_own !before_presence_lookup // !created_row.
      rewrite (proj2 (Z.ltb_lt _ _) Hv). cbn [mjoin option_join andb String.eqb].
      change (omap _ _) with (omap id [mjoin (tables d !! OWN_SPACE_PRESENCE);
        mjoin (tables d !! hex_table LEGACY_PRESENCE); mjoin (tables d !! LEGACY_PRESENCE)]).
      by rewrite head_three.
    + rewrite presence_moves_ne; [by rewrite Hb|by intros Heq; apply Hne, table_name_inj| |].
      * apply not_presence_legacy. intros ->. specialize (Hx eq_refl). lia.
      * apply not_presence_table.
  - rewrite Hb /versions /legacy_tables. rewrite (proj2 (Z.ltb_ge (version_of d) 12) Hv) andb_false_r.
    by case_match.
Qed.

Lemma final_legacy d x t :
  t ∈ legacy_tables d x → final_tables (version_of d) (tables d) !! t = None.
Proof using Type.
  rewrite /legacy_tables /final_tables.
  destruct (String.eqb x SERVICENET_ASYNC_INVOCATIONS && (version_of d <? 5)) eqn:Es.
  - intros ->%list_elem_of_singleton. apply andb_true_iff in Es as [_ Hv].
    assert (before_presence (version_of d) (tables d) !! hex_table SERVICENET_ASYNC_INVOCATIONS = None) as Hn.
    { rewrite /before_presence /servicenet_moves Hv. apply moved_legacy. }
    case_match; [|done]. by rewrite presence_moves_ne.
  - destruct (String.eqb x OWN_SPACE_PRESENCE && (version_of d <? 12)) eqn:Ep; [|by intros ?%elem_of_nil].
    apply andb_true_iff in Ep as [_ Hv]. rewrite Hv /presence_moves.
    intros [->| ->%list_elem_of_singleton]%elem_of_cons; [|apply moved_legacy].
    rewrite moved_ne //. apply moved_legacy.
Qed.


(** ** Commits *)

(** No two rows have the same id or the same key. *)
Definition commits_unique (d : LocalDb) : Prop :=
  NoDup (commit_id <$> commit_log d) ∧ NoDup (commit_key <$> commit_log d).

Lemma run_op_commits o d :
  commit_log (run_op o d) = commit_log d
  ∨ ∃ e, o = Commit e ∧ commit_log (run_op o d) = commit_log d ++ [e]
         ∧ commit_id e ∉ commit_id <$> commit_log d ∧ commit_key e ∉ commit_key <$> commit_log d.
Proof using Type.
  assert (∀ T (C : DomainCodec T) x (v : T) now,
    commit_log (exec (save_domain x v now) d) = commit_log d) as Hs.
  { intros. rewrite /exec /save_domain. cbv [mbind stm_bind lift modify]. by case_match. }
  destruct o; cbn [run_op].
  - left. apply Hs.
  - by left.
  - left. rewrite /exec /load_or_migrate. cbv [mbind stm_bind lift].
    destruct (load_domain T d domain) as [[v|]|]; [done| |done].
    destruct (match file with Some _ => _ | None => _ end) as [v|]; [|done].
    specialize (Hs T C domain v now). rewrite /exec in Hs.
    by destruct (save_domain domain v now d) as [[] ?].
  - left. rewrite /exec. destruct (migrate_run d) as [e ->]. by destruct (conflicting d).
  - rewrite /exec /append_agent_action_commit. cbv [mbind stm_bind gets ensure modify].
    destruct (_ && _) eqn:E; [|by left]. right. exists e. bool_to_prop. eauto.
  - by left.
  - by left.
Qed.

Lemma run_ops_commits os d e :
  commits_unique d → e ∈ commit_log d →
  commits_unique (run_ops d os) ∧ e ∈ commit_log (run_ops d os).
Proof using Type.
  revert d. induction os as [|o os IH]; intros d Hu He; [done|]. cbn. apply IH.
  - destruct Hu as [Hi Hk]. destruct (run_op_commits o d) as [Heq|(e' & _ & Heq & Hni & Hnk)];
      rewrite /commits_unique Heq; [done|].
    split; by apply NoDup_fmap_snoc.
  - destruct (run_op_commits o d) as [->|(e' & _ & -> & _)]; [done|]. apply elem_of_app. by left.
Qed.

Lemma load_commit_elem d e :
  commits_unique d → e ∈ commit_log d →
  load_agent_action_commit d (ce_event_id e) (ce_decision_id e) (ce_action_type e) = Some e.
Proof using Type.
  intros [_ Hk] He. rewrite /load_agent_action_commit.
  destruct (find_first _ _) as [e'|] eqn:E.
  - apply find_first_Some in E as [Heq%bool_decide_eq_true He']. f_equal.
    by apply (key_unique commit_key (commit_log d)).
  - rewrite find_first_None in E. specialize (E e He). by rewrite bool_decide_eq_false in E.
Qed.

Lemma load_commit_None d a b c :
  load_agent_action_commit d a b c = None ↔ (a, b, c) ∉ commit_key <$> commit_log d.
Proof using Type.
  rewrite /load_agent_action_commit find_first_None. split.
  - intros Hn (e & Heq & He)%list_elem_of_fmap. specialize (Hn e He).
    by apply bool_decide_eq_false in Hn.
  - intros Hn e He. apply bool_decide_eq_false. intros Heq. apply Hn. rewrite -Heq.
    by apply list_elem_of_fmap_2.
Qed.

(** C38: An action of a decision is committed once. A commit succeeds only when
    there is none for the same event, decision and action, and from then on,
    whatever else happens to the database, that one is found; a commit that is
    refused changes nothing. *)
Theorem committed_once d e os :
  commits_unique d →
  match append_agent_action_commit e d with
  | (Ok _, d1) =>
      load_agent_action_commit d (ce_event_id e) (ce_decision_id e) (ce_action_type e) = None
      ∧ load_agent_action_commit (run_ops d1 os) (ce_event_id e) (ce_decision_id e) (ce_action_type e)
        = Some e
  | (Err _, d1) =>
      d1 = d
      ∧ (is_Some (load_agent_action_commit d (ce_event_id e) (ce_decision_id e) (ce_action_type e))
         ∨ commit_id e ∈ commit_id <$> commit_log d)
  end.
Proof using Type.
  intros Hu. rewrite /append_agent_action_commit. cbv [mbind stm_bind gets ensure modify].
  destruct (_ && _) eqn:E.
  - apply andb_true_iff in E as [Hi%negb_true_iff%bool_decide_eq_false Hk%negb_true_iff%bool_decide_eq_false].
    split; [by apply load_commit_None|].
    assert (commits_unique (d <| commit_log ::= λ l, l ++ [e] |>)) as Hu1.
    { destruct Hu as [Hui Huk]. split; by apply NoDup_fmap_snoc. }
    destruct (run_ops_commits os _ e Hu1) as [Hu' He]; [apply elem_of_app; right; by left|].
    by apply load_commit_elem.
  - split; [done|]. apply andb_false_iff in E as [E|E]; apply negb_false_iff, bool_decide_eq_true in E.
    + by right.
    + left. destruct (load_agent_action_commit _ _ _ _) eqn:El; [done|].
      by apply load_commit_None in El.
Qed.

(** ** Activity *)

Definition row_of_activity (a : AgentActivity) : activity_row :=
  mkActivityRow (aa_kind a) (aa_subject a) (json_to_string (aa_detail a)) (aa_created_at_ms a).

(** The specification: the list of what the agent did. *)
Definition spec_activity (o : db_op) (l : list AgentActivity) : list AgentActivity :=
  match o with
  | Record_activity a => l ++ [a]
  | Prune before_ms => List.filter (λ a, negb (aa_created_at_ms a <? before_ms)) l
  | _ => l
  end.

Lemma run_op_activity o d l :
  agent_activity d = row_of_activity <$> l →
  agent_activity (run_op o d) = row_of_activity <$> spec_activity o l.
Proof using Type.
  intros Hl.
  assert (∀ T (C : DomainCodec T) x (v : T) now,
    agent_activity (exec (save_domain x v now) d) = agent_activity d) as Hs.
  { intros. rewrite /exec /save_domain. cbv [mbind stm_bind lift modify]. by case_match. }
  destruct o; cbn [run_op spec_activity].
  - by rewrite Hs.
  - done.
  - rewrite /exec /load_or_migrate. cbv [mbind stm_bind lift].
    destruct (load_domain T d domain) as [[v|]|]; [done| |done].
    destruct (match file with Some _ => _ | None => _ end) as [v|]; [|done].
    specialize (Hs T C domain v now). rewrite /exec in Hs. rewrite -Hl -Hs.
    by destruct (save_domain domain v now d) as [[] ?].
  - rewrite /exec. destruct (migrate_run d) as [e ->]. by destruct (conflicting d).
  - rewrite /exec /append_agent_action_commit. cbv [mbind stm_bind gets ensure modify].
    by destruct (_ && _).
  - by rewrite /exec /= Hl fmap_app.
  - rewrite /exec /=. cbv [mbind stm_bind gets modify mret stm_ret set_field]. cbn.
    by rewrite Hl filter_fmap.
Qed.

Lemma collect_activities `{!JsonTextLaws} l : collect activity_of_row (row_of_activity <$> l) = Ok l.
Proof using Type*.
  assert (∀ a, activity_of_row (row_of_activity a) = Ok a) as Ha.
  { intros [k s dt t]. by rewrite /activity_of_row /= json_of_to_string. }
  induction l as [|a l IH]; [done|]. cbn [fmap list_fmap collect].
  rewrite Ha. rewrite /fmap in IH. by rewrite IH.
Qed.

(** The report of what the agent did in a window of time lists every
    recorded action of the window that was not pruned, with its details, oldest
    first and in the order they were recorded when they are of the same
    millisecond. *)
Theorem activity_refines `{!JsonTextLaws} d os l from_ms to_ms :
  agent_activity d = row_of_activity <$> l →
  agent_activity_between (run_ops d os) from_ms to_ms
  = Ok (order_by [asc_Z aa_created_at_ms]
          (List.filter (λ a, (from_ms <=? aa_created_at_ms a) && (aa_created_at_ms a <? to_ms))
             (foldl (λ l o, spec_activity o l) l os))).
Proof using Type*.
  intros Hl. rewrite /agent_activity_between.
  assert (agent_activity (run_ops d os) = row_of_activity <$> foldl (λ l o, spec_activity o l) l os) as ->.
  { revert d l Hl. induction os as [|o os IH]; intros d l Hl; [done|]. by apply IH, run_op_activity. }
  rewrite filter_fmap /order_by sort_by_fmap. apply collect_activities.
Qed.
End database.

(** A database that was just created has no documents. *)
Lemma opened_represents : represents (exec migrate new_db) ∅.
Proof.
  split; [done|by intros x doc; rewrite lookup_empty|]. intros t doc. split.
  - intros Ht. assert (map_Forall (λ _ r, r = None) (tables (exec migrate new_db))) as Hall
      by (apply (bool_decide_eq_true_1 _); vm_compute; reflexivity).
    by specialize (Hall t _ Ht).
  - intros (x & _ & Hx). by rewrite lookup_empty in Hx.
Qed.

Module DatabaseScenario.
#[export] Instance texts : DomainCodec string := {|
  to_text s := Ok ("'" +:+ s);
  of_text s := ok_or "expected value" (of_bytes <$> strip_prefix ["'"%char] (to_bytes s));
|}.
#[export] Instance texts_laws : DomainCodecLaws string.
Proof.
  intros v s [= <-].
  change (ok_or "expected value" (Some (of_bytes (to_bytes v))) = Ok v).
  by rewrite String.string_of_list_ascii_of_string.
Qed.

#[export] Instance seconds : Timestamps := {|
  format_timestamp t := show_Z t;
  parse_timestamp s := ok_or "input contains invalid characters" (parse_u64 s);
|}.
#[export] Instance seconds_laws : TimestampsLaws.
Proof.
  intros t Ht. cbn. rewrite /parse_u64 parse_uint_show //. rewrite /u64_max. lia.
Qed.

#[export] Instance values : JsonText := {|
  json_to_string v := show_Z (Z.pos (encode v));
  json_of_string s := ok_or "expected value" (decode (Z.to_pos (dec 0 (to_bytes s))));
|}.
#[export] Instance values_laws : JsonTextLaws.
Proof.
  intros v. cbn [json_of_string json_to_string values].
  destruct (show_Z_decimal (Z.pos (encode v))) as (_ & -> & _); [done|].
  cbn [Z.to_pos]. by rewrite decode_encode.
Qed.

Definition opened : LocalDb := exec migrate new_db.

Definition saves : list db_op :=
  [Save string _ "topics" "t" 10; Save string _ "governance" "g" 20; Save string _ "identity" "i" 30;
   Open; Delete "identity"; Save string _ "topics" "t2" 40].

Lemma documents_refine_map_witness :
  list_domains (run_ops opened saves) = ["governance"; "topics"]
  ∧ load_domain string (run_ops opened saves) "topics" = Ok (Some "t2").
Proof.
  destruct (documents_refine_map saves opened ∅ opened_represents) as [Hl Hd].
  { repeat (constructor; [by intros ? [= <-]|]). constructor. }
  split; [rewrite Hl; vm_compute; reflexivity|]. rewrite (Hd string _ "topics"). reflexivity.
Defined.

Lemma saved_document_loads_witness :
  load_domain string (run_ops (exec (save_domain "daily" "x" 100) opened) saves) "daily" = Ok (Some "x").
Proof.
  refine (proj1 (saved_document_loads string opened ∅ "daily" "x" 100 saves
    (exec (save_domain "daily" "x" 100) opened) 60 130 opened_represents _ _ _ _ _));
    [reflexivity|reflexivity| |lia|lia].
  repeat (constructor; [by split; [|intros ? [= <-]]|]). constructor.
Defined.

Definition commit1 : AgentActionCommitLogEntry :=
  mkCommit "commit-1" "event-1" "decision-1" "payments.authorize" "payment" None None None "{}" "{}"
    "accepted" None None "2026-01-01T00:00:00Z".

Lemma committed_once_witness :
  load_agent_action_commit (run_ops (exec (append_agent_action_commit commit1) new_db) [Open; Commit commit1])
    "event-1" "decision-1" "payments.authorize" = Some commit1.
Proof.
  assert (commits_unique new_db) as Hu by (split; apply NoDup_nil_2).
  pose proof (committed_once new_db commit1 [Open; Commit commit1] Hu) as Hc.
  assert (append_agent_action_commit commit1 new_db
          = (Ok tt, exec (append_agent_action_commit commit1) new_db)) as E by reflexivity.
  rewrite E in Hc. exact (proj2 Hc).
Defined.

Definition did (kind : string) (at_ms : Z) : AgentActivity := mkActivity kind None JNull at_ms.

Lemma activity_refines_witness :
  agent_activity_between
    (run_ops new_db [Record_activity (did "b" 20); Record_activity (did "a" 5); Record_activity (did "c" 20);
                     Prune 5; Record_activity (did "d" 30)]) 5 30
  = Ok [did "a" 5; did "b" 20; did "c" 20].
Proof. rewrite (activity_refines new_db _ []); reflexivity. Defined.

(** A file of version 11 with the presence under its old name; and one in which
    the old and the new table differ. *)
Definition version11 (current : option document) : LocalDb :=
  mkLocalDb (Some 11) false
    (<[LEGACY_PRESENCE := Some ("signed", "t")]> (<[OWN_SPACE_PRESENCE := current]> ∅)) [] [].

Example presence_moved :
  row_of (exec migrate (version11 None)) OWN_SPACE_PRESENCE = Some ("signed", "t").
Proof. vm_compute. reflexivity. Qed.

Example conflicting_presence_refused :
  is_ok (outcome migrate (version11 (Some ("other", "t")))) = false.
Proof. vm_compute. reflexivity. Qed.
End DatabaseScenario.
