(* ===== verification/Signing.v ===== *)
(** * Signing and hashing

    [security/signing.rs] and the signature check of [security/identity.rs].
    The primitives are third-party code (serde_jcs, ed25519-dalek, base64,
    sha2, the did:key decoder): they are the operations of the class [Crypto],
    and what the kernel relies on is the class [SignerSound]. *)

From S2P Require Import Prelude Text Json.
#[local] Open Scope Z_scope.

Class Crypto := {
  (** [serde_jcs::to_string] *)
  jcs_to_string : json → result string;
  (** [hex::encode(Sha256::digest(..))] *)
  sha256_hex : string → string;
  (** [base64::STANDARD.decode] *)
  base64_decode : string → option string;
  (** [DidKey::decode_public_key] of an Ed25519 did:key, base64 encoded *)
  did_key_public_key_b64 : string → result string;
  (** [VerifyingKey::from_bytes] on 32 bytes *)
  verifying_key_from_bytes : string → result unit;
  (** [VerifyingKey::verify(message, signature).is_ok()] *)
  ed25519_verify : string → string → string → bool;
}.

(** The trait [PayloadSigner]. *)
Record PayloadSigner := mkPayloadSigner {
  ps_agent_did : string;
  ps_public_key : string;
  sign_bytes : string → result string;
}.

Section signing.
Context `{Crypto}.

Definition canonical_bytes (payload : json) : result string :=
  with_context "canonicalize payload" (jcs_to_string payload).

Definition sign_payload_with (payload : json) (signer : PayloadSigner) : result string :=
  b ← canonical_bytes payload; sign_bytes signer b.

Definition DID_KEY_PREFIX : string := "did:key:".

Definition decode_public_key_from_ref (public_key_ref : string) : result string :=
  if String.prefix DID_KEY_PREFIX public_key_ref then
    public_key_b64 ← did_key_public_key_b64 public_key_ref;
    ok_or "decode did:key public key base64" (base64_decode public_key_b64)
  else ok_or "decode public key base64" (base64_decode public_key_ref).

Definition verify_with_public_key (message signature_b64 public_key_ref : string)
    : result bool :=
  public ← decode_public_key_from_ref public_key_ref;
  signature ← ok_or "decode signature base64" (base64_decode signature_b64);
  if negb (String.length public =? 32)%nat then Err "invalid public key length"
  else
    _ ← verifying_key_from_bytes public;
    if negb (String.length signature =? 64)%nat then Err "invalid signature length"
    else Ok (ed25519_verify public message signature).

Definition verify_payload (payload : json) (signature_b64 public_key_b64 : string)
    : result bool :=
  b ← canonical_bytes payload;
  verify_with_public_key b signature_b64 public_key_b64.

Definition canonical_equal (a b : json) : result bool :=
  x ← canonical_bytes a; y ← canonical_bytes b; Ok (String.eqb x y).

(** A signer is sound when what it signs verifies under its own agent DID:
    the documented contract of an Ed25519 identity. *)
Class SignerSound (signer : PayloadSigner) : Prop :=
  signer_sound : ∀ m sig, sign_bytes signer m = Ok sig →
    verify_with_public_key m sig (ps_agent_did signer) = Ok true.

Lemma sign_then_verify signer payload sig :
  SignerSound signer →
  sign_payload_with payload signer = Ok sig →
  verify_payload payload sig (ps_agent_did signer) = Ok true.
Proof.
  rewrite /sign_payload_with /verify_payload.
  intros Hs. destruct (canonical_bytes payload) as [b|]; simpl; [|done]. apply Hs.
Qed.
End signing.

(** ** A concrete instance

    Signatures are the message tagged with the key, cut to 64 bytes; used to
    exhibit inputs on which the hypotheses of the theorems hold. *)

Module Demo.

Fixpoint render (v : json) : string :=
  match v with
  | JNull => "null"
  | JBool true => "true"
  | JBool false => "false"
  | JNumber (PosInt n) | JNumber (NegInt n) => show_Z n
  | JNumber (Float b) => "f" +:+ show_Z b
  | JString s => "'" +:+ s +:+ "'"
  | JArray l => "[" +:+ foldr (λ x acc, render x +:+ "," +:+ acc) "]" l
  | JObject o => "{" +:+ foldr (λ kv acc, kv.1 +:+ ":" +:+ render kv.2 +:+ "," +:+ acc) "}" o
  end.

(** Pads or cuts a string to [n] bytes. *)
Fixpoint fit (n : nat) (s : string) : string :=
  match n with
  | O => ""
  | S n => match s with
           | EmptyString => String "=" (fit n "")
           | String a s => String a (fit n s)
           end
  end.

Lemma length_fit n s : String.length (fit n s) = n.
Proof. revert s. induction n as [|n IH]; intros [|a s]; simpl; auto. Qed.
#[global] Arguments fit : simpl never.

#[export] Instance crypto : Crypto := {|
  jcs_to_string v := Ok (render v);
  sha256_hex s := "h" +:+ fit 40 s;
  base64_decode s := Some s;
  did_key_public_key_b64 s := Ok (fit 32 s);
  verifying_key_from_bytes _ := Ok tt;
  ed25519_verify key m sig := String.eqb sig (fit 64 (key +:+ m));
|}.

Definition signer (did : string) : PayloadSigner :=
  {| ps_agent_did := DID_KEY_PREFIX +:+ did;
     ps_public_key := fit 32 (DID_KEY_PREFIX +:+ did);
     sign_bytes m := Ok (fit 64 (fit 32 (DID_KEY_PREFIX +:+ did) +:+ m)) |}.

#[export] Instance signer_is_sound did : SignerSound (signer did).
Proof.
  intros m sig [= <-]. rewrite /verify_with_public_key /decode_public_key_from_ref.
  replace (String.prefix _ _) with true by by destruct did.
  rewrite {1}/did_key_public_key_b64 /base64_decode /=. by rewrite !length_fit /= String.eqb_refl.
Qed.

End Demo.
