(* ===== verification/Hashcash.v ===== *)
(** * Proof of work

    [security/hashcash.rs]: minting and verifying hashcash stamps. SHA-256 is
    third-party code: the class [Digest]; the nonce (a random UUID) and the
    date of a minted stamp are arguments. *)

From S2P Require Import Prelude Text.
#[local] Open Scope Z_scope.
#[local] Set Default Proof Using "Type*".

(** [Sha256::digest], as its bytes. *)
Class Digest := sha256_digest : string → list Z.

(** What the code relies on: a digest has 32 bytes. *)
Class DigestLaws `{Digest} : Prop := {
  digest_length s : length (sha256_digest s) = 32%nat;
  digest_bytes s : Forall (λ b, 0 ≤ b < 256) (sha256_digest s);
}.

Record HashcashStamp := mkHashcashStamp {
  version : Z;
  bits : Z;
  date : string;
  resource : string;
  nonce : string;
  counter : Z;
}.

Definition as_string (s : HashcashStamp) : string :=
  show_Z (version s) +:+ ":" +:+ show_Z (bits s) +:+ ":" +:+ date s +:+ ":"
    +:+ resource s +:+ ":" +:+ nonce s +:+ ":" +:+ show_Z (counter s).

(** [splitn(4, ':')] gives the version, the bits, the date and the rest, which
    is split from its end: the resource may hold colons itself. *)
Definition parse (stamp : string) : option HashcashStamp :=
  let head := splitn 4 ":"%char (to_bytes stamp) in
  version ← (head !! 0%nat) ≫= (λ b, parse_u8 (of_bytes b));
  bits ← (head !! 1%nat) ≫= (λ b, parse_u8 (of_bytes b));
  date ← of_bytes <$> (head !! 2%nat);
  tail ← head !! 3%nat;
  let tail_parts := rsplitn 3 ":"%char tail in
  counter ← (tail_parts !! 0%nat) ≫= (λ b, parse_u64 (of_bytes b));
  nonce ← of_bytes <$> (tail_parts !! 1%nat);
  resource ← of_bytes <$> (tail_parts !! 2%nat);
  Some (mkHashcashStamp version bits date resource nonce counter).

(** [u8::leading_zeros]. *)
Definition u8_leading_zeros (b : Z) : Z := if b =? 0 then 8 else 7 - Z.log2 b.

Fixpoint leading_zero_bits_from (count : Z) (bs : list Z) : Z :=
  match bs with
  | [] => count
  | byte :: bs' =>
      if byte =? 0 then leading_zero_bits_from (u8_saturating_add count 8) bs'
      else u8_saturating_add count (u8_leading_zeros byte)
  end.
Definition leading_zero_bits (bs : list Z) : Z := leading_zero_bits_from 0 bs.

Section hashcash.
Context `{Digest}.

Definition meets_difficulty (input : string) (bits : Z) : bool :=
  bits <=? leading_zero_bits (sha256_digest input).

(** The loop of [mint], from counter [c] for [n] more rounds. *)
Fixpoint mint_from (n : nat) (c : Z) (nonce date resource : string) (bits : Z)
    : option string :=
  match n with
  | O => None
  | S n' =>
      let stamp := as_string (mkHashcashStamp 1 bits date resource nonce c) in
      if meets_difficulty stamp bits then Some stamp
      else mint_from n' (c + 1) nonce date resource bits
  end.

Definition mint (nonce date resource : string) (bits max_iterations : Z) : option string :=
  mint_from (Z.to_nat max_iterations) 0 nonce date resource bits.

Definition verify (stamp resource_ : string) (min_bits : Z) : bool :=
  match parse stamp with
  | None => false
  | Some parsed =>
      if negb (version parsed =? 1) then false
      else if negb (String.eqb (resource parsed) resource_) then false
      else if bits parsed <? min_bits then false
      else meets_difficulty stamp (bits parsed)
  end.
End hashcash.

(** ** Round trip of stamps *)

Definition stamp_wf (s : HashcashStamp) : Prop :=
  0 ≤ version s ≤ u8_max ∧ 0 ≤ bits s ≤ u8_max ∧ 0 ≤ counter s ≤ u64_max
  ∧ colon_free (date s) ∧ colon_free (nonce s).

Lemma parse_as_string s : stamp_wf s → parse (as_string s) = Some s.
Proof.
  destruct s as [v b d r n c]. intros (Hv & Hb & Hc & Hd & Hn). simpl in *.
  assert (to_bytes (as_string (mkHashcashStamp v b d r n c)) =
    to_bytes (show_Z v) ++ ":"%char :: to_bytes (show_Z b) ++ ":"%char :: to_bytes d
      ++ ":"%char :: to_bytes r ++ ":"%char :: to_bytes n ++ ":"%char :: to_bytes (show_Z c))
    as Heq by by rewrite /as_string !to_bytes_app.
  rewrite /parse Heq. do 3 (rewrite splitn_cons; [|first [done|apply show_Z_colon_free; lia]]).
  rewrite /= !String.string_of_list_ascii_of_string.
  rewrite /parse_u8 !parse_uint_show //=.
  rewrite /rsplitn !reverse_app !reverse_cons !reverse_app !reverse_cons -!app_assoc; cbn [app].
  do 2 (rewrite splitn_cons;
    [|rewrite elem_of_reverse; first [done|apply show_Z_colon_free; lia]]).
  rewrite /= !reverse_involutive !String.string_of_list_ascii_of_string.
  by rewrite /parse_u64 parse_uint_show.
Qed.

(** ** What the leading zeros say *)

(** The big-endian value of a digest. *)
Fixpoint be_value (bs : list Z) : Z :=
  match bs with
  | [] => 0
  | b :: bs' => b * 2 ^ (8 * Z.of_nat (length bs')) + be_value bs'
  end.

(** The number of leading zero bits, not limited to eight bits. *)
Fixpoint zero_prefix (bs : list Z) : Z :=
  match bs with
  | [] => 0
  | b :: bs' => if b =? 0 then 8 + zero_prefix bs' else u8_leading_zeros b
  end.

Lemma leading_zero_bits_from_eq c bs :
  Forall (λ b, 0 ≤ b < 256) bs → 0 ≤ c ≤ 255 →
  leading_zero_bits_from c bs = Z.min 255 (c + zero_prefix bs) ∧ 0 ≤ zero_prefix bs.
Proof.
  intros Hall. revert c. induction Hall as [|b bs Hb _ IH]; intros c Hc; simpl; [lia|].
  rewrite /u8_saturating_add. destruct (b =? 0) eqn:E; bool_to_prop.
  - destruct (IH (Z.min 255 (c + 8))) as [-> ?]; lia.
  - rewrite /u8_leading_zeros (proj2 (Z.eqb_neq b 0)) //.
    pose proof (Z.log2_lt_pow2 b 8). change (2 ^ 8) with 256 in *. lia.
Qed.

Lemma be_value_range bs :
  Forall (λ b, 0 ≤ b < 256) bs → 0 ≤ be_value bs < 2 ^ (8 * Z.of_nat (length bs)).
Proof.
  induction 1 as [|b bs Hb _ IH]; [done|]. simpl be_value. simpl length.
  rewrite Nat2Z.inj_succ. replace (8 * Z.succ (Z.of_nat (length bs)))
    with (8 + 8 * Z.of_nat (length bs)) by lia. rewrite Z.pow_add_r; [|lia..].
  change (2 ^ 8) with 256. nia.
Qed.

Lemma zero_prefix_spec bs k :
  Forall (λ b, 0 ≤ b < 256) bs → 0 ≤ k ≤ 8 * Z.of_nat (length bs) →
  k ≤ zero_prefix bs ↔ be_value bs < 2 ^ (8 * Z.of_nat (length bs) - k).
Proof.
  intros Hall. revert k. induction Hall as [|b bs Hb Hall IH]; intros k Hk.
  { simpl in *. replace k with 0 by lia. done. }
  simpl zero_prefix. simpl be_value. simpl length in *. rewrite Nat2Z.inj_succ in Hk |- *.
  set (n := Z.of_nat (length bs)) in *. pose proof (be_value_range _ Hall) as Hr. fold n in Hr.
  destruct (b =? 0) eqn:E; bool_to_prop.
  - subst b. rewrite Z.mul_0_l Z.add_0_l. destruct (decide (k ≤ 8)) as [Hk8|].
    + pose proof (Z.pow_le_mono_r 2 (8 * n) (8 * Z.succ n - k)).
      assert (0 ≤ zero_prefix bs) by (by apply (leading_zero_bits_from_eq 0)). lia.
    + replace (8 * Z.succ n - k) with (8 * n - (k - 8)) by lia. rewrite -IH; lia.
  - rewrite /u8_leading_zeros (proj2 (Z.eqb_neq b 0)) //.
    pose proof (Z.log2_spec b ltac:(lia)) as [Hlo Hhi]. pose proof (Z.log2_nonneg b).
    assert (Z.log2 b < 8) by (apply Z.log2_lt_pow2; lia).
    assert (2 ^ (Z.log2 b + 8 * n) ≤ b * 2 ^ (8 * n) + be_value bs
            < 2 ^ (Z.succ (Z.log2 b) + 8 * n)).
    { rewrite (Z.pow_add_r 2 (Z.log2 b)) ?(Z.pow_add_r 2 (Z.succ _)); [|lia..].
      pose proof (Z.mul_le_mono_nonneg_r _ _ (2 ^ (8 * n)) ltac:(lia) Hlo).
      pose proof (Z.mul_le_mono_nonneg_r (b + 1) (2 ^ Z.succ (Z.log2 b)) (2 ^ (8 * n))). lia. }
    destruct (decide (k ≤ 7 - Z.log2 b)).
    + pose proof (Z.pow_le_mono_r 2 (Z.succ (Z.log2 b) + 8 * n) (8 * Z.succ n - k)). lia.
    + pose proof (Z.pow_le_mono_r 2 (8 * Z.succ n - k) (Z.log2 b + 8 * n)). lia.
Qed.

Section work.
Context `{DigestLaws}.

Definition digest_value (s : string) : Z := be_value (sha256_digest s).

Lemma meets_difficulty_iff s k :
  0 ≤ k ≤ u8_max → meets_difficulty s k = true ↔ digest_value s < 2 ^ (256 - k).
Proof.
  intros Hk. rewrite /meets_difficulty /leading_zero_bits Z.leb_le /u8_max in Hk |- *.
  destruct (leading_zero_bits_from_eq 0 _ (digest_bytes s)) as [-> ?]; [lia|].
  pose proof (zero_prefix_spec _ k (digest_bytes s)) as Hz. rewrite digest_length in Hz.
  change (8 * Z.of_nat 32) with 256 in Hz. rewrite /digest_value -Hz; lia.
Qed.

Lemma mint_from_spec n c nonce date resource bits :
  match mint_from n c nonce date resource bits with
  | Some stamp => ∃ i, c ≤ i < c + Z.of_nat n
      ∧ stamp = as_string (mkHashcashStamp 1 bits date resource nonce i)
      ∧ meets_difficulty stamp bits = true
  | None => ∀ i, c ≤ i < c + Z.of_nat n →
      meets_difficulty (as_string (mkHashcashStamp 1 bits date resource nonce i)) bits = false
  end.
Proof.
  revert c. induction n as [|n IH]; intros c; simpl; [lia|].
  destruct (meets_difficulty _ bits) eqn:E; [exists c; split_and!; [lia..|done|done]|].
  specialize (IH (c + 1)). destruct (mint_from n _ _ _ _ _).
  - destruct IH as (i & ? & ?). exists i. split; [lia|done].
  - intros i Hi. destruct (decide (i = c)) as [->|]; [done|]. apply IH. lia.
Qed.

Lemma verify_iff stamp res min :
  verify stamp res min = true ↔
  ∃ p, parse stamp = Some p ∧ version p = 1 ∧ resource p = res ∧ min ≤ bits p
       ∧ meets_difficulty stamp (bits p) = true.
Proof.
  rewrite /verify. destruct (parse stamp) as [p|]; [|split; [done|by intros (? & ? & _)]].
  destruct (version p =? 1) eqn:E1, (String.eqb (resource p) res) eqn:E2,
    (bits p <? min) eqn:E3; simpl; bool_to_prop;
    split; intros Hv; try done; try destruct Hv as (q & [= <-] & ? & ? & ? & ?); try done; try lia.
  by exists p.
Qed.

Lemma parse_bits stamp p : parse stamp = Some p → 0 ≤ bits p ≤ u8_max.
Proof.
  rewrite /parse. intros Hp.
  repeat (apply bind_Some in Hp as (? & ? & Hp)). injection Hp as <-. simpl.
  match goal with
  | Hb : (_ !! 1%nat) ≫= _ = Some _ |- _ => apply bind_Some in Hb as (? & _ & Hb);
      by apply parse_uint_range in Hb
  end.
Qed.

(** Minting tries the counters in order and fails only when none below
    the limit has enough leading zeros; a minted stamp verifies exactly for its
    own resource and for every difficulty up to its own, also when the resource
    holds colons as a DID does. *)
Theorem mint_verify_roundtrip nonce date res bits max_iterations :
  colon_free nonce → colon_free date → 0 ≤ bits ≤ u8_max → 0 ≤ max_iterations ≤ u64_max →
  match mint nonce date res bits max_iterations with
  | Some stamp => ∀ res' min,
      verify stamp res' min = true ↔ res' = res ∧ min ≤ bits
  | None => ∀ i, 0 ≤ i < max_iterations →
      meets_difficulty (as_string (mkHashcashStamp 1 bits date res nonce i)) bits = false
  end.
Proof.
  intros Hn Hd Hb Hm. rewrite /mint.
  pose proof (mint_from_spec (Z.to_nat max_iterations) 0 nonce date res bits) as Hspec.
  rewrite Z2Nat.id in Hspec; [|lia].
  destruct (mint_from _ _ _ _ _ _) as [stamp|]; [|exact Hspec].
  destruct Hspec as (i & Hi & -> & Hmd). intros res' min. rewrite verify_iff.
  rewrite parse_as_string; [|split_and!; simpl; try done; lia].
  split; [by intros (? & [= <-] & ? & ? & ? & ?)|]. intros [-> Hmin]. by eexists.
Qed.

(** A stamp verifies exactly when it parses as a version 1 stamp for the
    resource, announces at least the required number of bits [b], and its
    SHA-256 digest, read as a 256-bit number, is below [2 ^ (256 - b)]: the bit
    counting is the proof of work it stands for. *)
Theorem verify_work stamp res min_bits :
  verify stamp res min_bits = true ↔
  ∃ p, parse stamp = Some p ∧ version p = 1 ∧ resource p = res ∧ min_bits ≤ bits p
       ∧ digest_value stamp < 2 ^ (256 - bits p).
Proof.
  rewrite verify_iff.
  split; intros (p & Hp & ? & ? & ? & Hw); exists p; split_and!; try done;
    apply (meets_difficulty_iff stamp (bits p)); eauto using parse_bits.
Qed.
End work.

(** ** A concrete digest *)

Module HashcashScenario.

(** A checksum in the first byte; the other bytes are one. *)
#[local] Instance demo_digest : Digest := λ s,
  (foldl (λ acc c, (7 * acc + Z.of_nat (nat_of_ascii c)) mod 256) 0 (to_bytes s))
    :: replicate 31 1.

#[local] Instance demo_digest_laws : DigestLaws.
Proof.
  split; intros s; [reflexivity|]. constructor; [|by apply Forall_replicate].
  induction (to_bytes s) as [|c l _] using rev_ind; [simpl; lia|].
  rewrite foldl_app. apply Z.mod_pos_bound. lia.
Qed.

Definition minted : option string := mint "f3c1" "20260101" "did:key:z6Mk" 2 100.

Example minted_value : minted = Some "1:2:20260101:did:key:z6Mk:f3c1:17".
Proof. vm_compute. reflexivity. Qed.

Lemma mint_verify_roundtrip_witness :
  match minted with
  | Some stamp => verify stamp "did:key:z6Mk" 1 = true ∧ verify stamp "did:key:other" 1 = false
  | None => False
  end.
Proof.
  pose proof (mint_verify_roundtrip "f3c1" "20260101" "did:key:z6Mk" 2 100) as Hm.
  specialize (Hm ltac:(by apply (bool_decide_unpack _)) ltac:(by apply (bool_decide_unpack _))
    ltac:(rewrite /u8_max; lia) ltac:(rewrite /u64_max; lia)).
  change (match minted with
    | Some stamp => ∀ res' min, verify stamp res' min = true ↔ res' = "did:key:z6Mk" ∧ min ≤ 2
    | None => ∀ i, 0 ≤ i < 100 → meets_difficulty (as_string
        (mkHashcashStamp 1 2 "20260101" "did:key:z6Mk" "f3c1" i)) 2 = false
    end) in Hm.
  rewrite minted_value in Hm |- *. split; [apply Hm; split; [done|lia]|].
  destruct (verify _ _ _) eqn:E; [|done]. by apply Hm in E as [? _].
Defined.

Lemma verify_work_witness :
  verify "1:2:20260101:did:key:z6Mk:f3c1:17" "did:key:z6Mk" 2 = true.
Proof.
  apply verify_work. exists (mkHashcashStamp 1 2 "20260101" "did:key:z6Mk" "f3c1" 17).
  split_and!; [by vm_compute..|by simpl|by vm_compute].
Defined.

End HashcashScenario.
