(* ===== verification/Admission.v ===== *)
(** * Admission of network packets

    The self-certifying public ids of [security/identity.rs] and
    [security/admission.rs]: the checks made on an incoming handshake or
    broadcast, and the tracker of nonces that rejects replays. Parsing JSON text
    and hexadecimal printing are third-party code: the classes [JsonReader] and
    [Hex]. *)

From S2P Require Import Prelude Collections Text Json Signing Hashcash.
#[local] Open Scope Z_scope.
#[local] Set Default Proof Using "Type*".

(** [serde_json::from_slice::<Value>(bytes).ok()]. *)
Class JsonReader := json_from_slice : string → option json.

(** [hex::encode]. *)
Class Hex := hex_encode : list Z → string.

(** Two hexadecimal digits per byte. *)
Class HexLaws `{Hex} : Prop := {
  hex_length bs : length (to_bytes (hex_encode bs)) = (2 * length bs)%nat;
  hex_digits bs : forallb is_ascii_hexdigit (to_bytes (hex_encode bs)) = true;
}.

(** ** Public ids *)

Module PublicId.
Section public_id.
Context `{Crypto, Digest, Hex}.

Definition FINGERPRINT_BYTES : nat := 8.
Definition PUBLIC_ID_SEPARATOR : ascii := "."%char.

Definition public_key_fingerprint (public_key_b64 : string) : result string :=
  public_key ← ok_or "decode public key base64 for fingerprint" (base64_decode public_key_b64);
  Ok (hex_encode (take FINGERPRINT_BYTES (sha256_digest public_key))).

Definition fingerprint_from_did_key (agent_did : string) : result string :=
  public_key_b64 ← did_key_public_key_b64 agent_did;
  public_key_fingerprint public_key_b64.

Definition build_scoped_public_id (slug fingerprint : string) : string :=
  slug +:+ String PUBLIC_ID_SEPARATOR fingerprint.

Definition is_did_key_public_id (public_id : string) : bool :=
  String.prefix DID_KEY_PREFIX public_id.

(** The text after the last separator is split off from the end. *)
Definition extract_public_id_fingerprint (public_id : string) : option string :=
  if is_did_key_public_id public_id then None
  else
    '(rev_candidate, _) ← split_once PUBLIC_ID_SEPARATOR (reverse (to_bytes public_id));
    let candidate := reverse rev_candidate in
    if (length candidate =? FINGERPRINT_BYTES * 2)%nat && forallb is_ascii_hexdigit candidate
    then Some (of_bytes candidate) else None.

Definition verify_public_id_ownership (public_id public_key_ref : string) : result bool :=
  if is_did_key_public_id public_id then
    did_public_key ← did_key_public_key_b64 public_id;
    ref_public_key ←
      (if String.prefix DID_KEY_PREFIX public_key_ref
       then did_key_public_key_b64 public_key_ref else Ok public_key_ref);
    Ok (String.eqb did_public_key ref_public_key)
  else
    match extract_public_id_fingerprint public_id with
    | None => Ok false
    | Some embedded =>
        expected ←
          (if String.prefix DID_KEY_PREFIX public_key_ref
           then fingerprint_from_did_key public_key_ref
           else public_key_fingerprint public_key_ref);
        Ok (String.eqb embedded expected)
    end.

(** The fingerprint of a key given by DID or in base64. *)
Definition key_fingerprint (public_key_ref : string) : result string :=
  if String.prefix DID_KEY_PREFIX public_key_ref
  then fingerprint_from_did_key public_key_ref else public_key_fingerprint public_key_ref.

Context `{!DigestLaws, !HexLaws}.

Lemma fingerprint_shape key fp :
  key_fingerprint key = Ok fp →
  length (to_bytes fp) = 16%nat ∧ forallb is_ascii_hexdigit (to_bytes fp) = true.
Proof.
  intros Hfp. assert (∃ k, public_key_fingerprint k = Ok fp) as [k Hk].
  { rewrite /key_fingerprint in Hfp. case_match; [|by eauto].
    apply result_bind_ok in Hfp as (k & _ & Hk). eauto. }
  apply result_bind_ok in Hk as (bs & _ & [= <-]). split; [|apply hex_digits].
  by rewrite hex_length length_take digest_length.
Qed.

Lemma hex_no_separator fp :
  forallb is_ascii_hexdigit (to_bytes fp) = true → PUBLIC_ID_SEPARATOR ∉ to_bytes fp.
Proof.
  intros Hfp Hin. rewrite forallb_forall in Hfp.
  by specialize (Hfp PUBLIC_ID_SEPARATOR ltac:(by apply list_elem_of_In)).
Qed.

Lemma extract_scoped slug fp :
  is_did_key_public_id (build_scoped_public_id slug fp) = false →
  length (to_bytes fp) = 16%nat → forallb is_ascii_hexdigit (to_bytes fp) = true →
  extract_public_id_fingerprint (build_scoped_public_id slug fp) = Some fp.
Proof.
  intros Hdid Hlen Hhex. rewrite /extract_public_id_fingerprint Hdid.
  assert (to_bytes (build_scoped_public_id slug fp) =
    to_bytes slug ++ PUBLIC_ID_SEPARATOR :: to_bytes fp) as -> by apply to_bytes_app.
  rewrite reverse_app reverse_cons -app_assoc; cbn [app].
  rewrite split_once_app; [|rewrite elem_of_reverse; by apply hex_no_separator].
  by rewrite /= reverse_involutive Hlen Hhex String.string_of_list_ascii_of_string.
Qed.

(** The scoped public id built from a slug and the fingerprint of a key is
    owned by exactly the keys with that fingerprint. *)
Theorem scoped_public_id_owned slug owner key fp fp' :
  is_did_key_public_id (build_scoped_public_id slug fp) = false →
  key_fingerprint owner = Ok fp → key_fingerprint key = Ok fp' →
  verify_public_id_ownership (build_scoped_public_id slug fp) key = Ok (String.eqb fp fp').
Proof.
  intros Hdid Ho Hk. destruct (fingerprint_shape owner fp Ho) as [Hlen Hhex].
  rewrite /verify_public_id_ownership Hdid extract_scoped //.
  rewrite /key_fingerprint in Hk. by rewrite Hk.
Qed.
End public_id.
End PublicId.

(** ** Nonces *)

Record AdmissionConfig := mkAdmissionConfig {
  max_time_drift_sec : Z;
  min_hashcash_bits : Z;
  require_hashcash_for_handshake : bool;
  require_hashcash_for_broadcast : bool;
}.

Definition AdmissionConfig_default : AdmissionConfig :=
  {| max_time_drift_sec := 180; min_hashcash_bits := 12;
     require_hashcash_for_handshake := false; require_hashcash_for_broadcast := false |}.

Inductive AdmissionVerdict : Type :=
  | Accept
  | Reject (reason : string).

#[global] Instance AdmissionVerdict_eq_dec : EqDecision AdmissionVerdict.
Proof. solve_decision. Defined.

Record NonceTracker := mkNonceTracker {
  seen : gmap string Z;
  ttl_sec : Z;
}.

Definition new_tracker (ttl : Z) : NonceTracker := mkNonceTracker ∅ ttl.

Definition gc (now : Z) (t : NonceTracker) : NonceTracker :=
  let cutoff := i64_sub now (ttl_sec t) in
  mkNonceTracker (filter (λ p, cutoff ≤ p.2) (seen t)) (ttl_sec t).

(** [now] is the reading of the clock. *)
Definition check_and_record (now : Z) (nonce : string) (t : NonceTracker) : bool * NonceTracker :=
  let t := gc now t in
  match seen t !! nonce with
  | Some _ => (false, t)
  | None => (true, mkNonceTracker (<[nonce := now]> (seen t)) (ttl_sec t))
  end.

(** [i64::abs], which wraps around at [i64::MIN] in a release build. *)
Definition i64_abs (z : Z) : Z := wrap_i64 (Z.abs z).

(** [Result::map_err(|error| format!("{prefix}{error}"))]. *)
Definition map_err {A} (prefix : string) (r : result A) : result A :=
  match r with Ok a => Ok a | Err e => Err (prefix +:+ e) end.

(** ** Envelopes *)

Section admission.
Context `{Crypto, Digest, Hex, JsonReader}.

(** The tracker is optional; without one every nonce counts as fresh. *)
Definition check_nonce (now : Z) (nonce : string) : stm (option NonceTracker) bool := λ t,
  match t with
  | None => (Ok true, None)
  | Some tracker =>
      let '(fresh, tracker') := check_and_record now nonce tracker in (Ok fresh, Some tracker')
  end.

(** The proof of work in a [hashcash] member. *)
Definition check_hashcash (config : AdmissionConfig) (hashcash_payload : json)
    (default_resource : string) : result AdmissionVerdict :=
  stamp ← ok_or "hashcash_missing_stamp" (get_str "stamp" hashcash_payload);
  let resource := default default_resource (get_str "resource" hashcash_payload) in
  Ok (if verify stamp resource (min_hashcash_bits config) then Accept
      else Reject "invalid_hashcash").

(** [value.get("hashcash").filter(|value| !value.is_null())]. *)
Definition hashcash_member (v : json) : option json :=
  json_get "hashcash" v ≫= (λ h, if is_null h then None else Some h).

(** The claimed public id, if there is one, must be owned by the signing key. *)
Definition owns_public_id (payload : json) (controller_id : string) : result bool :=
  match get_str "public_id" payload with
  | Some claimed_public_id =>
      if String.eqb claimed_public_id "" then Ok true
      else map_err "public_id_verify_error:"
             (PublicId.verify_public_id_ownership claimed_public_id controller_id)
  | None => Ok true
  end.

Definition validate_handshake (clk : clock) (value : json) (config : AdmissionConfig)
    : stm (option NonceTracker) AdmissionVerdict :=
  agent_did ← lift (ok_or "missing_agent_did" (get_str "agent_did" value));
  payload ← lift (ok_or "missing_payload" (json_get "payload" value));
  signature ← lift (ok_or "missing_signature" (get_str "signature" value));
  let controller_id := default agent_did (get_str "controller_id" payload) in
  valid ← lift (map_err "verify_error:" (verify_payload payload signature controller_id));
  if negb valid then mret (Reject "invalid_signature")
  else
    owns ← lift (owns_public_id payload controller_id);
    if negb owns then mret (Reject "public_id_ownership_mismatch")
    else
      timestamp ← lift (ok_or "missing_timestamp" (get_i64 "timestamp" payload));
      let drift := i64_abs (i64_sub (clk 0%nat) timestamp) in
      if max_time_drift_sec config <? drift then mret (Reject "clock_drift_exceeded")
      else
        nonce ← lift (ok_or "missing_nonce" (get_str "nonce" payload));
        if is_blank nonce then mret (Reject "missing_nonce")
        else
          fresh ← check_nonce (clk 1%nat) nonce;
          if negb fresh then mret (Reject "nonce_replay")
          else
            match hashcash_member payload with
            | None => mret (if require_hashcash_for_handshake config
                            then Reject "hashcash_required" else Accept)
            | Some hashcash_payload => lift (check_hashcash config hashcash_payload agent_did)
            end.

Definition validate_broadcast (envelope_type : string) (value : json) (config : AdmissionConfig)
    : result AdmissionVerdict :=
  if require_hashcash_for_broadcast config
     && bool_decide (envelope_type ∈ ["ACTION"; "ORACLE_FEED"; "PUBLIC_CLIENT_SNAPSHOT"])
  then
    hashcash_payload ← ok_or "hashcash_required_for_broadcast" (hashcash_member value);
    check_hashcash config hashcash_payload envelope_type
  else Ok Accept.

Definition validate_envelope (clk : clock) (value : json) (config : AdmissionConfig)
    : stm (option NonceTracker) AdmissionVerdict :=
  let envelope_type := default "" (get_str "type" value) in
  if String.eqb envelope_type "HANDSHAKE" then validate_handshake clk value config
  else lift (validate_broadcast envelope_type value config).

(** [unwrap_or_else(AdmissionVerdict::Reject)]. *)
Definition verdict_of (r : result AdmissionVerdict) : AdmissionVerdict :=
  match r with Ok v => v | Err e => Reject e end.

Definition validate_gossip_packet (clk : clock) (bytes : string) (config : AdmissionConfig)
    : AdmissionVerdict :=
  match json_from_slice bytes with
  | None => Reject "invalid_json"
  | Some value => verdict_of (outcome (validate_envelope clk value config) None)
  end.

Definition validate_gossip_packet_with_nonce (clk : clock) (bytes : string)
    (config : AdmissionConfig) (nonce_tracker : NonceTracker) : AdmissionVerdict * NonceTracker :=
  match json_from_slice bytes with
  | None => (Reject "invalid_json", nonce_tracker)
  | Some value =>
      let '(r, t) := validate_envelope clk value config (Some nonce_tracker) in
      (verdict_of r, default nonce_tracker t)
  end.

(** ** When a handshake is admitted *)

Definition is_handshake (value : json) : Prop := get_str "type" value = Some "HANDSHAKE".

Definition hashcash_ok (config : AdmissionConfig) (agent_did : string) (payload : json) : Prop :=
  match hashcash_member payload with
  | None => require_hashcash_for_handshake config = false
  | Some h => ∃ stamp, get_str "stamp" h = Some stamp
      ∧ verify stamp (default agent_did (get_str "resource" h)) (min_hashcash_bits config) = true
  end.

(** The checks on a handshake that do not depend on the tracker. *)
Definition handshake_valid (now : Z) (config : AdmissionConfig) (value : json)
    (nonce : string) : Prop :=
  ∃ agent_did payload signature timestamp,
    let controller_id := default agent_did (get_str "controller_id" payload) in
    get_str "agent_did" value = Some agent_did
    ∧ json_get "payload" value = Some payload
    ∧ get_str "signature" value = Some signature
    ∧ verify_payload payload signature controller_id = Ok true
    ∧ (∀ id, get_str "public_id" payload = Some id → id ≠ "" →
         PublicId.verify_public_id_ownership id controller_id = Ok true)
    ∧ get_i64 "timestamp" payload = Some timestamp
    ∧ i64_abs (i64_sub now timestamp) ≤ max_time_drift_sec config
    ∧ get_str "nonce" payload = Some nonce
    ∧ is_blank nonce = false
    ∧ hashcash_ok config agent_did payload.

(** Whether a tracker takes a nonce for fresh at [now]. *)
Definition nonce_fresh (now : Z) (nonce : string) (t : option NonceTracker) : Prop :=
  match t with None => True | Some t => seen (gc now t) !! nonce = None end.

(** The tracker after a nonce was accepted. *)
Definition record_nonce (now : Z) (nonce : string) (t : option NonceTracker)
    : option NonceTracker := (check_nonce now nonce t).2.

Lemma check_nonce_outcome now nonce t :
  outcome (check_nonce now nonce) t = Ok true ↔ nonce_fresh now nonce t.
Proof.
  rewrite /outcome /check_nonce /nonce_fresh. destruct t as [t|]; [|done].
  rewrite /check_and_record. destruct (seen (gc now t) !! nonce); split; try done; congruence.
Qed.

Lemma map_err_ok {A} p (r : result A) a : map_err p r = Ok a ↔ r = Ok a.
Proof. destruct r; simpl; split; congruence. Qed.

Lemma check_hashcash_accept config h did :
  check_hashcash config h did = Ok Accept ↔
  ∃ stamp, get_str "stamp" h = Some stamp
    ∧ verify stamp (default did (get_str "resource" h)) (min_hashcash_bits config) = true.
Proof.
  rewrite /check_hashcash result_bind_ok. split.
  - intros (stamp & Hs%ok_or_ok & Hv). exists stamp. split; [done|]. by destruct (verify _ _ _).
  - intros (stamp & Hs & Hv). exists stamp. rewrite ok_or_ok Hv. done.
Qed.

Lemma owns_public_id_ok payload c :
  owns_public_id payload c = Ok true ↔
  ∀ id, get_str "public_id" payload = Some id → id ≠ "" →
    PublicId.verify_public_id_ownership id c = Ok true.
Proof.
  rewrite /owns_public_id. destruct (get_str "public_id" payload) as [id|]; [|done].
  destruct (String.eqb_spec id "") as [->|Hne].
  - split; [|done]. by intros _ ? [= <-].
  - rewrite map_err_ok. split; [by intros ? ? [= <-]|]. intros Hall. by apply Hall.
Qed.

Lemma check_nonce_eq now nonce t :
  check_nonce now nonce t = (outcome (check_nonce now nonce) t, record_nonce now nonce t).
Proof. rewrite /outcome /record_nonce. by destruct (check_nonce _ _ _). Qed.

(** A run that accepts went through every check; conversely the checks are
    enough. *)
Lemma validate_handshake_accept clk value config t t' :
  validate_handshake clk value config t = (Ok Accept, t') ↔
  ∃ nonce, handshake_valid (clk 0%nat) config value nonce
    ∧ nonce_fresh (clk 1%nat) nonce t ∧ t' = record_nonce (clk 1%nat) nonce t.
Proof.
  split.
  - rewrite /validate_handshake. intros Hrun.
    run_inv; simplify_eq/=; rewrite check_nonce_eq in Hrun; simplify_eq/=;
      rewrite ->?map_err_ok, ?check_hashcash_accept in *; bool_to_prop; subst;
      try match goal with Hm : mret _ _ = _ |- _ => injection Hm as <- end;
      (match goal with Hn : get_str "nonce" _ = Some ?n |- _ => exists n end);
      (split; [|split; [by apply check_nonce_outcome|done]]); do 4 eexists;
      split_and!; try done; try (by apply owns_public_id_ok); rewrite /hashcash_ok; by simplify_option_eq.
  - intros (nonce & (did & payload & sig & ts & Hdid & Hpl & Hsig & Hv & Hpid%owns_public_id_ok
      & Hts & Hdrift & Hn & Hb & Hh) & Hf%check_nonce_outcome & ->).
    rewrite /validate_handshake /mbind /stm_bind /lift Hdid Hpl Hsig /=.
    rewrite Hv /= Hpid /= Hts /=. rewrite (proj2 (Z.ltb_ge _ _) Hdrift) Hn /= Hb.
    rewrite check_nonce_eq Hf /=. rewrite /hashcash_ok in Hh.
    destruct (hashcash_member payload); [by apply check_hashcash_accept in Hh as ->|by rewrite Hh].
Qed.

Lemma validate_envelope_accept clk value config t t' :
  is_handshake value →
  validate_envelope clk value config t = (Ok Accept, t') ↔
  ∃ nonce, handshake_valid (clk 0%nat) config value nonce
    ∧ nonce_fresh (clk 1%nat) nonce t ∧ t' = record_nonce (clk 1%nat) nonce t.
Proof. intros Hh. rewrite /validate_envelope Hh. apply validate_handshake_accept. Qed.

Lemma check_nonce_record now nonce t r o :
  check_nonce now nonce t = (r, o) → ∃ nonce, o = record_nonce now nonce t.
Proof. intros Hc. exists nonce. by rewrite /record_nonce Hc. Qed.

Lemma record_nonce_Some now nonce t :
  record_nonce now nonce (Some t) = Some (check_and_record now nonce t).2.
Proof. rewrite /record_nonce /check_nonce. by destruct (check_and_record _ _ _). Qed.

(** What a run may do to the tracker. *)
Lemma validate_envelope_tracker clk value config t :
  exec (validate_envelope clk value config) t = t
  ∨ ∃ nonce, exec (validate_envelope clk value config) t = record_nonce (clk 1%nat) nonce t.
Proof.
  rewrite /exec /validate_envelope. case_match; [|by left]. rewrite /validate_handshake.
  cbv [mbind stm_bind lift ok_or].
  repeat (case_match; simplify_eq/=; try (by left)); right;
    by eapply check_nonce_record.
Qed.

(** A handshake packet is admitted exactly when it is signed by the
    controller it names, claims a public id that key owns, is within the clock
    drift, has a nonce that is not blank and not tracked as seen, and carries
    the proof of work asked for; admitting it records its nonce. *)
Theorem handshake_admitted_iff clk bytes config t t' value :
  json_from_slice bytes = Some value → is_handshake value →
  validate_gossip_packet_with_nonce clk bytes config t = (Accept, t') ↔
  ∃ nonce, handshake_valid (clk 0%nat) config value nonce
    ∧ seen (gc (clk 1%nat) t) !! nonce = None
    ∧ t' = (check_and_record (clk 1%nat) nonce t).2.
Proof.
  intros Hb Hh. rewrite /validate_gossip_packet_with_nonce Hb.
  destruct (validate_envelope clk value config (Some t)) as [r o] eqn:E. split.
  - destruct r as [[|]|]; [|done..]. intros [= <-].
    apply validate_envelope_accept in E as (nonce & ? & ? & ->); [|done].
    exists nonce. by rewrite record_nonce_Some.
  - intros (nonce & Hv & Hf & ->).
    assert (validate_envelope clk value config (Some t) =
      (Ok Accept, Some (check_and_record (clk 1%nat) nonce t).2)) as E'.
    { apply validate_envelope_accept; [done|]. exists nonce. by rewrite record_nonce_Some. }
    rewrite E in E'. by injection E' as -> ->.
Qed.

(** ** Replays *)

(** A packet with the two readings of the clock made while validating it. *)
Record arrival := mkArrival { at_drift : Z; at_nonce : Z; packet : string }.

Definition arrival_clock (a : arrival) : clock :=
  λ n, match n with O => at_drift a | _ => at_nonce a end.
Definition gate (config : AdmissionConfig) (t : NonceTracker) (a : arrival)
    : AdmissionVerdict * NonceTracker :=
  validate_gossip_packet_with_nonce (arrival_clock a) (packet a) config t.
Definition gate_all (config : AdmissionConfig) (t : NonceTracker) (l : list arrival)
    : NonceTracker := foldl (λ t a, (gate config t a).2) t l.
Definition readings (l : list arrival) : list Z := l ≫= (λ a, [at_drift a; at_nonce a]).

(** Times a clock may show and lifetimes for which no arithmetic overflows. *)
Definition sane (z : Z) : Prop := 0 ≤ z < 2 ^ 62.

Lemma sane_sub a b : sane a → sane b → i64_sub a b = a - b.
Proof. rewrite /sane => ??. apply wrap_i64_id. rewrite /is_i64 /i64_min /i64_max. lia. Qed.

Lemma gc_tracked now n r t :
  seen t !! n = Some r → sane now → sane (ttl_sec t) → now ≤ r + ttl_sec t →
  seen (gc now t) !! n = Some r.
Proof.
  intros. rewrite /gc /= map_lookup_filter_Some sane_sub //=. split; [done|lia].
Qed.

Lemma check_and_record_tracked now nonce n r t :
  seen t !! n = Some r → sane now → sane (ttl_sec t) → now ≤ r + ttl_sec t →
  seen (check_and_record now nonce t).2 !! n = Some r.
Proof.
  intros Hn Hnow Httl Hle.
  pose proof (gc_tracked now n r t) as Hgc.
  rewrite /check_and_record. destruct (seen (gc now t) !! nonce) eqn:E; [by apply Hgc|].
  simpl. rewrite lookup_insert_ne; [by apply Hgc|]. intros ->. by rewrite Hgc in E.
Qed.

Lemma check_and_record_ttl now nonce t : ttl_sec (check_and_record now nonce t).2 = ttl_sec t.
Proof. rewrite /check_and_record. by case_match. Qed.

Lemma gate_tracker config t a :
  (gate config t a).2 = t ∨ ∃ nonce, (gate config t a).2 = (check_and_record (at_nonce a) nonce t).2.
Proof.
  rewrite /gate /validate_gossip_packet_with_nonce. case_match; [|by left].
  destruct (validate_envelope_tracker (arrival_clock a) j config (Some t)) as [He|[n He]];
    rewrite /exec in He; destruct (validate_envelope _ _ _ _) as [r o]; simpl in *; subst o.
  - by left.
  - right. exists n. by rewrite record_nonce_Some.
Qed.

Lemma gate_tracked config t a n r :
  seen t !! n = Some r → sane (at_nonce a) → sane (ttl_sec t) → at_nonce a ≤ r + ttl_sec t →
  seen (gate config t a).2 !! n = Some r ∧ ttl_sec (gate config t a).2 = ttl_sec t.
Proof.
  intros. destruct (gate_tracker config t a) as [->|[nonce ->]]; [done|].
  split; [by apply check_and_record_tracked|apply check_and_record_ttl].
Qed.

Lemma gate_all_tracked config t l n r :
  seen t !! n = Some r → sane (ttl_sec t) →
  Forall (λ a, sane (at_nonce a) ∧ at_nonce a ≤ r + ttl_sec t) l →
  seen (gate_all config t l) !! n = Some r ∧ ttl_sec (gate_all config t l) = ttl_sec t.
Proof.
  intros Hn Httl Hall. revert t Hn Httl Hall.
  induction l as [|a l IH]; intros t Hn Httl Hall; [done|].
  inversion_clear Hall as [|?? [Ha1 Ha2] Hl].
  destruct (gate_tracked config t a n r) as [Hk Ht]; [done..|].
  simpl. rewrite -Ht. apply IH; [done|by rewrite Ht|by rewrite Ht].
Qed.

(** The drift test, and the one reading it lets through by overflow. *)
Lemma drift_ok_iff now ts d :
  sane now → sane d → is_i64 ts →
  i64_abs (i64_sub now ts) ≤ d ↔ Z.abs (now - ts) ≤ d ∨ now - ts = 2 ^ 63.
Proof.
  rewrite /sane /is_i64 /i64_min /i64_max => Hn Hd Hts. rewrite /i64_abs /i64_sub.
  destruct (decide (now - ts < 2 ^ 63)).
  - rewrite (wrap_i64_id (now - ts)); [|rewrite /is_i64 /i64_min /i64_max; lia].
    rewrite wrap_i64_id; [|rewrite /is_i64 /i64_min /i64_max; lia]. lia.
  - assert (wrap_i64 (now - ts) = now - ts - 2 ^ 64) as ->.
    { rewrite /wrap_i64. rewrite -(Z.mod_unique (now - ts + 2 ^ 63) (2 ^ 64) 1
        (now - ts + 2 ^ 63 - 2 ^ 64)); lia. }
    destruct (decide (now - ts = 2 ^ 63)) as [->|].
    + change (wrap_i64 _) with (- 2 ^ 63). lia.
    + rewrite wrap_i64_id; [|rewrite /is_i64 /i64_min /i64_max; lia]. lia.
Qed.

Lemma handshake_drift now config value nonce :
  handshake_valid now config value nonce →
  ∃ payload ts, json_get "payload" value = Some payload ∧ get_i64 "timestamp" payload = Some ts
    ∧ get_str "nonce" payload = Some nonce
    ∧ i64_abs (i64_sub now ts) ≤ max_time_drift_sec config.
Proof. intros (did & payload & sig & ts & ? & ? & ? & ? & ? & ? & ? & ? & ?). by exists payload, ts. Qed.

(** Two readings that both pass the drift test for one timestamp are close. *)
Lemma drift_window t1 t2 ts d :
  sane t1 → sane t2 → sane d → is_i64 ts → t1 ≤ t2 →
  i64_abs (i64_sub t1 ts) ≤ d → i64_abs (i64_sub t2 ts) ≤ d → t2 - t1 ≤ 2 * d.
Proof.
  intros Ht1 Ht2 Hd Hts Hle Hd1%drift_ok_iff Hd2%drift_ok_iff; try done.
  rewrite /sane in Ht1 Ht2 Hd. lia.
Qed.

Lemma elem_of_readings m l : m ∈ l → at_drift m ∈ readings l ∧ at_nonce m ∈ readings l.
Proof.
  intros Hm. split; apply list_elem_of_bind; exists m; (split; [|done]); [by left|by right; left].
Qed.

Lemma readings_order a mid b :
  StronglySorted Z.le (readings (a :: mid ++ [b])) →
  at_drift a ≤ at_nonce a ∧ at_drift a ≤ at_drift b
  ∧ ∀ m, m ∈ mid → at_nonce m ≤ at_nonce b.
Proof.
  intros Hs. change (a :: mid ++ [b]) with ((a :: mid) ++ [b]) in Hs.
  rewrite /readings bind_app in Hs. split_and!.
  - apply StronglySorted_inv in Hs as [_ Hall]. by inversion Hall.
  - eapply StronglySorted_app_rel; [exact Hs|by left|by left].
  - intros m Hm. eapply StronglySorted_app_rel; [exact Hs| |by right; left].
    apply elem_of_readings. by right.
Qed.

(** Numbers of a parsed document fit the type they are read at. *)
Definition timestamp_fits (value : json) : Prop :=
  ∀ payload ts, json_get "payload" value = Some payload →
    get_i64 "timestamp" payload = Some ts → is_i64 ts.

End admission.

(** ** A concrete network *)

Module AdmissionScenario.
Import Signing.Demo.
#[local] Existing Instance HashcashScenario.demo_digest.
#[local] Existing Instance HashcashScenario.demo_digest_laws.

Definition hex_digit (n : Z) : ascii :=
  default "0"%char (to_bytes "0123456789abcdef" !! Z.to_nat n).
#[local] Instance demo_hex : Hex := λ bs,
  of_bytes (bs ≫= (λ b, [hex_digit (b / 16 mod 16); hex_digit (b mod 16)])).

Lemma hex_digit_hex n : 0 ≤ n < 16 → is_ascii_hexdigit (hex_digit n) = true.
Proof.
  intros Hn. assert (∃ k, (k < 16)%nat ∧ n = Z.of_nat k) as (k & Hk & ->).
  { exists (Z.to_nat n). lia. }
  rewrite /hex_digit Nat2Z.id. do 16 (destruct k as [|k]; [done|]). lia.
Qed.

#[local] Instance demo_hex_laws : HexLaws.
Proof.
  split; intros bs; rewrite /hex_encode /demo_hex String.list_ascii_of_string_of_list_ascii;
    (induction bs as [|b bs IH]; [done|]); simpl.
  - rewrite IH. lia.
  - rewrite !hex_digit_hex ?IH //; apply Z.mod_pos_bound; lia.
Qed.

Definition alice : PayloadSigner := signer "alice".
Definition bob : PayloadSigner := signer "bob".

Definition alice_fingerprint : string :=
  match PublicId.key_fingerprint (ps_agent_did alice) with Ok fp => fp | Err _ => "" end.
Definition alice_id : string := PublicId.build_scoped_public_id "captain" alice_fingerprint.

(** A handshake of alice, signed, with the given time stamp. *)
Definition handshake_payload (timestamp : Z) : json :=
  JObject [("controller_id", JString (ps_agent_did alice)); ("public_id", JString alice_id);
           ("timestamp", json_of_Z timestamp); ("nonce", JString "n-1")].
Definition handshake (timestamp : Z) : json :=
  JObject [("type", JString "HANDSHAKE"); ("agent_did", JString (ps_agent_did alice));
           ("payload", handshake_payload timestamp);
           ("signature", JString match sign_payload_with (handshake_payload timestamp) alice with
                                 | Ok sig => sig | Err _ => "" end)].

(** Two packets of the network: an ordinary handshake, and one whose time stamp
    is [2 ^ 63] seconds before the reading of the clock. *)
#[local] Instance demo_reader : JsonReader := λ bytes,
  if String.eqb bytes "hello" then Some (handshake 1180)
  else if String.eqb bytes "far" then Some (handshake (1000 - 2 ^ 63))
  else None.

Lemma scoped_public_id_owned_witness :
  PublicId.verify_public_id_ownership alice_id (ps_agent_did alice) = Ok true.
Proof.
  rewrite /alice_id (PublicId.scoped_public_id_owned "captain" (ps_agent_did alice)
    (ps_agent_did alice) alice_fingerprint alice_fingerprint); by vm_compute.
Defined.

Definition at_1000 : clock := λ _, 1000.

Lemma handshake_admitted_iff_witness :
  ∃ nonce, handshake_valid 1000 AdmissionConfig_default (handshake 1180) nonce
    ∧ nonce = "n-1".
Proof.
  destruct (proj1 (handshake_admitted_iff (H2 := demo_reader) at_1000 "hello" AdmissionConfig_default
    (new_tracker 360) (mkNonceTracker {[ "n-1" := 1000 ]} 360) (handshake 1180)
    ltac:(reflexivity) ltac:(reflexivity)) ltac:(by vm_compute)) as (n & Hv & _).
  exists n. split; [exact Hv|].
  apply handshake_drift in Hv as (p & ts & [= <-] & _ & [= <-] & _). reflexivity.
Defined.

(** A lifetime below twice the drift is not enough: the packet, stamped 180
    seconds ahead, is admitted again after 301 seconds by a tracker that keeps
    nonces for 300. *)
Example short_lifetime_replay :
  let t := new_tracker 300 in
  let a := mkArrival 1000 1000 "hello" in let b := mkArrival 1301 1301 "hello" in
  (gate AdmissionConfig_default t a).1 = Accept
  ∧ (gate AdmissionConfig_default (gate AdmissionConfig_default t a).2 b).1 = Accept.
Proof. vm_compute. done. Qed.


(** A handshake stamped exactly [2 ^ 63] seconds in the past passes the
    drift test, because the difference overflows to [i64::MIN] and its absolute
    value stays negative. *)
Theorem overflow_timestamp_admitted :
  validate_gossip_packet at_1000 "far" AdmissionConfig_default = Accept.
Proof. by vm_compute. Qed.

End AdmissionScenario.
