(* ===== verification/Trust.v ===== *)
(** * Peer trust and capabilities

    [security/trust.rs]: the web of trust that blacklists reported nodes; and
    [security/capabilities.rs]: what an extension of a trust level may do. *)

From S2P Require Import Prelude Collections Text.
#[local] Open Scope Z_scope.

(** ** Web of trust *)

Record TrustReport := mkTrustReport {
  tr_node_id : string;
  tr_reporter_id : string;
  tr_reason : string;
  tr_timestamp : Z;
  tr_weight : Z;
}.

Record TrustConfig := mkTrustConfig { blacklist_weight_threshold : Z }.
Definition TrustConfig_default : TrustConfig := mkTrustConfig 10.

Record WebOfTrust := mkWebOfTrust {
  config : TrustConfig;
  reporter_weights : gmap string Z;
  reports_by_node : gmap string (list TrustReport);
  blacklisted : gset string;
}.
#[global] Instance WebOfTrust_eta : Eta WebOfTrust := λ t,
  mkWebOfTrust (config t) (reporter_weights t) (reports_by_node t) (blacklisted t).

Definition new (c : TrustConfig) : WebOfTrust := mkWebOfTrust c ∅ ∅ ∅.

Definition set_reporter_weight (reporter_id : string) (weight : Z) (t : WebOfTrust) : WebOfTrust :=
  t <| reporter_weights ::= <[reporter_id := Z.max weight 1]> |>.

(** The reports on a node; an absent entry has none. *)
Definition reports (t : WebOfTrust) (node_id : string) : list TrustReport :=
  default [] (reports_by_node t !! node_id).

Definition total_weight (t : WebOfTrust) (node_id : string) : Z :=
  match reports_by_node t !! node_id with
  | None => 0
  | Some rs => i64_sum (tr_weight <$> rs)
  end.

Definition report_node (now : Z) (node_id reporter_id reason : string) (t : WebOfTrust)
    : TrustReport * WebOfTrust :=
  let weight := default 1 (reporter_weights t !! reporter_id) in
  let report := mkTrustReport node_id reporter_id reason now weight in
  let t := t <| reports_by_node ::= <[node_id := reports t node_id ++ [report]]> |> in
  (report,
   if blacklist_weight_threshold (config t) <=? total_weight t node_id
   then t <| blacklisted ::= union {[ node_id ]} |> else t).

Definition ingest_remote_blacklist (nodes : list string) (t : WebOfTrust) : WebOfTrust :=
  foldl (λ t node, t <| blacklisted ::= union {[ node ]} |>) t nodes.

Definition is_blacklisted (t : WebOfTrust) (node_id : string) : bool :=
  bool_decide (node_id ∈ blacklisted t).

Definition export_blacklist (t : WebOfTrust) : list string := btree_set_list (blacklisted t).

(** *** Histories *)

Inductive trust_op : Type :=
  | SetReporterWeight (reporter_id : string) (weight : Z)
  | ReportNode (now : Z) (node_id reporter_id reason : string)
  | IngestRemoteBlacklist (nodes : list string).

Definition trust_step (t : WebOfTrust) (op : trust_op) : WebOfTrust :=
  match op with
  | SetReporterWeight r w => set_reporter_weight r w t
  | ReportNode now n r why => (report_node now n r why t).2
  | IngestRemoteBlacklist ns => ingest_remote_blacklist ns t
  end.
Definition trust_run (c : TrustConfig) (ops : list trust_op) : WebOfTrust :=
  foldl trust_step (new c) ops.

(** The exact weight of the reports on a node. *)
Definition weight_of (t : WebOfTrust) (node : string) : Z :=
  zsum (tr_weight <$> reports t node).

(** Every weight in use is positive. *)
Definition trust_inv (c : TrustConfig) (t : WebOfTrust) : Prop :=
  config t = c ∧ (∀ r w, reporter_weights t !! r = Some w → 1 ≤ w)
  ∧ ∀ n, Forall (λ w, 1 ≤ w) (tr_weight <$> reports t n).

Lemma ingest_blacklisted ns t :
  ingest_remote_blacklist ns t = t <| blacklisted := blacklisted t ∪ list_to_set ns |>.
Proof.
  rewrite /ingest_remote_blacklist. revert t. induction ns as [|n ns IH]; intros t; simpl.
  - destruct t as [c w r b]. rewrite /set_field /=. by rewrite union_empty_r_L.
  - rewrite IH. destruct t as [c w r b]. rewrite /set_field /=. f_equal.
    by rewrite (union_comm_L {[n]} b) -union_assoc_L.
Qed.

Lemma i64_sum_exact acc l :
  0 ≤ acc → Forall (λ w, 0 ≤ w) l → acc + zsum l ≤ i64_max → foldl i64_add acc l = acc + zsum l.
Proof.
  intros Hacc Hl. revert acc Hacc. induction Hl as [|w l Hw Hl IH]; intros acc Hacc Hb; simpl; [lia|].
  rewrite zsum_cons in Hb. pose proof (zsum_nonneg l Hl).
  assert (i64_add acc w = acc + w) as ->.
  { apply wrap_i64_id. rewrite /is_i64 /i64_min. lia. }
  rewrite IH; lia.
Qed.

Lemma total_weight_exact c t n :
  trust_inv c t → weight_of t n ≤ i64_max → total_weight t n = weight_of t n.
Proof.
  intros (_ & _ & Hr) Hb. specialize (Hr n).
  rewrite /total_weight /weight_of /reports in Hr Hb |- *.
  destruct (reports_by_node t !! n) as [rs|]; [|done]. simpl in *.
  rewrite /i64_sum i64_sum_exact //; try lia. eapply Forall_impl; [exact Hr|]. simpl. lia.
Qed.

(** What a report adds. *)
Lemma report_node_reports now n r why t n' :
  reports (report_node now n r why t).2 n' =
  if decide (n' = n)
  then reports t n ++ [mkTrustReport n r why now (default 1 (reporter_weights t !! r))]
  else reports t n'.
Proof.
  rewrite /report_node /reports /=. case_match; simpl; case_decide; subst;
    by rewrite ?lookup_insert_eq ?lookup_insert_ne.
Qed.

Lemma report_node_frame now n r why t :
  config (report_node now n r why t).2 = config t
  ∧ reporter_weights (report_node now n r why t).2 = reporter_weights t.
Proof. rewrite /report_node /=. by case_match. Qed.

Lemma trust_step_inv c t op : trust_inv c t → trust_inv c (trust_step t op).
Proof.
  intros (Hc & Hw & Hr). destruct op as [r w|now n r why|ns]; simpl.
  - split_and!; [done| |done]. simpl. intros r' w' [[_ <-]|[_ ?]]%lookup_insert_Some; [lia|eauto].
  - destruct (report_node_frame now n r why t) as [Hf1 Hf2].
    split; [by rewrite Hf1|]. split; [rewrite Hf2; exact Hw|]. intros n'.
    rewrite report_node_reports. case_decide; [|apply Hr].
    rewrite fmap_app. apply Forall_app. split; [apply Hr|]. constructor; [|done]. simpl.
    destruct (reporter_weights t !! r) eqn:E; [eauto|simpl; lia].
  - rewrite ingest_blacklisted. done.
Qed.

Lemma trust_run_inv c ops : trust_inv c (trust_run c ops).
Proof.
  rewrite /trust_run. induction ops as [|op ops IH] using rev_ind.
  - split_and!; [done| |]; simpl; intros; [done|]. by constructor.
  - rewrite foldl_app. by apply trust_step_inv.
Qed.

Definition ingested (ops : list trust_op) (n : string) : Prop :=
  ∃ ns, IngestRemoteBlacklist ns ∈ ops ∧ n ∈ ns.

Lemma ingested_snoc ops op n :
  ingested (ops ++ [op]) n ↔
  ingested ops n ∨ match op with IngestRemoteBlacklist ns => n ∈ ns | _ => False end.
Proof.
  rewrite /ingested. setoid_rewrite elem_of_app. setoid_rewrite list_elem_of_singleton. split.
  - intros (ns & [?| <-] & ?); eauto.
  - intros [(ns & ? & ?)|Hop]; [by eauto|]. destruct op; [done..|]. eauto.
Qed.

Lemma report_node_blacklisted now n r why t m :
  m ∈ blacklisted (report_node now n r why t).2 ↔
  m ∈ blacklisted t
  ∨ m = n ∧ blacklist_weight_threshold (config t) ≤ total_weight (report_node now n r why t).2 n.
Proof.
  assert (total_weight (report_node now n r why t).2 n =
    total_weight (t <| reports_by_node ::= <[n := reports t n ++
      [mkTrustReport n r why now (default 1 (reporter_weights t !! r))]]> |>) n) as ->.
  { rewrite /report_node /=. by case_match. }
  rewrite /report_node /=. destruct (_ <=? _) eqn:E; bool_to_prop; simpl.
  - rewrite elem_of_union elem_of_singleton. split; [|by intros [?|[? _]]; auto].
    intros [->|?]; auto.
  - split; [auto|]. intros [?|[_ ?]]; [done|lia].
Qed.

Lemma report_node_weight now n r why t :
  weight_of (report_node now n r why t).2 n =
  weight_of t n + default 1 (reporter_weights t !! r).
Proof.
  rewrite /weight_of report_node_reports decide_True // fmap_app zsum_app /zsum /=. lia.
Qed.

Lemma blacklisted_iff c ops n :
  weight_of (trust_run c ops) n ≤ i64_max →
  is_blacklisted (trust_run c ops) n = true ↔
  ingested ops n
  ∨ reports (trust_run c ops) n ≠ [] ∧ blacklist_weight_threshold c ≤ weight_of (trust_run c ops) n.
Proof.
  rewrite /is_blacklisted bool_decide_eq_true /trust_run.
  induction ops as [|op ops IH] using rev_ind.
  { intros _. split; [by intros ?%elem_of_empty|]. by intros [(? & []%elem_of_nil & _)|[[] _]]. }
  pose proof (trust_run_inv c ops) as Hinv. rewrite /trust_run in Hinv.
  rewrite ingested_snoc foldl_app; cbn [foldl]. set (t := foldl trust_step (new c) ops) in *.
  pose proof (trust_step_inv c t op Hinv) as Hinv'.
  destruct op as [r w|now m r why|ns]; cbn [trust_step]; intros Hw.
  - simpl. rewrite IH //. tauto.
  - destruct Hinv as (Hc & Hws & _). rewrite report_node_blacklisted Hc.
    destruct (decide (n = m)) as [->|Hne].
    + rewrite (total_weight_exact c) // report_node_weight.
      rewrite report_node_weight in Hw. rewrite report_node_reports decide_True //.
      assert (1 ≤ default 1 (reporter_weights t !! r)).
      { destruct (reporter_weights t !! r) eqn:E; simpl; [eauto|lia]. }
      rewrite IH; [|lia].
      assert (∀ x, reports t m ++ [x] ≠ []) by (intros ?; by destruct (reports t m)).
      split; [|naive_solver]. intros [[?|[_ ?]]|[_ ?]]; auto with lia.
    + assert (reports (report_node now m r why t).2 n = reports t n) as Hr.
      { by rewrite report_node_reports decide_False. }
      rewrite /weight_of Hr in Hw |- *. rewrite IH //. tauto.
  - rewrite ingest_blacklisted /= in Hw |- *.
    rewrite elem_of_union elem_of_list_to_set IH //. tauto.
Qed.

(** As long as the weights of its reports add up within 64 bits, a node is
    blacklisted exactly when a remote blacklist named it or when it was reported
    and its reports reached the threshold, whatever the order of reports, weight
    changes and remote lists: a node is never dropped and never added early. *)
Theorem blacklist_exact c ops n :
  weight_of (trust_run c ops) n ≤ i64_max →
  is_blacklisted (trust_run c ops) n = true ↔
  ingested ops n
  ∨ reports (trust_run c ops) n ≠ [] ∧ blacklist_weight_threshold c ≤ weight_of (trust_run c ops) n.
Proof. apply blacklisted_iff. Qed.

(** Weights count reports, not reporters: one reporter nobody vouches for
    blacklists any node by reporting it as often as the threshold. *)
Theorem single_reporter_blacklists c node reporter k :
  1 ≤ Z.of_nat k ≤ i64_max →
  is_blacklisted (trust_run c (replicate k (ReportNode 0 node reporter "spam"))) node = true ↔
  blacklist_weight_threshold c ≤ Z.of_nat k.
Proof.
  intros Hk. set (t := λ j, trust_run c (replicate j (ReportNode 0 node reporter "spam"))).
  assert (∀ j, weight_of (t j) node = Z.of_nat j ∧ reporter_weights (t j) = ∅
    ∧ length (reports (t j) node) = j) as Ht.
  { intros j. induction j as [|j (IHw & IHr & IHl)]; [done|].
    assert (t (S j) = (report_node 0 node reporter "spam" (t j)).2) as ->.
    { rewrite /t /trust_run replicate_S_end foldl_app. done. }
    rewrite report_node_weight (proj2 (report_node_frame _ _ _ _ _)) IHr IHw lookup_empty.
    split; [simpl; lia|]. split; [done|].
    rewrite report_node_reports decide_True // length_app IHl /=. lia. }
  destruct (Ht k) as (Hw & _ & Hl). rewrite blacklisted_iff; fold (t k); rewrite Hw; [|lia].
  assert (reports (t k) node ≠ []) by (intros Hnil; rewrite Hnil /= in Hl; lia).
  split; [|tauto]. intros [(ns & Hin & _)|[_ ?]]; [|done].
  by apply elem_of_replicate in Hin as [? _].
Qed.

(** *** A history *)

Module TrustScenario.

Definition history : list trust_op :=
  [SetReporterWeight "validator-a" 3; SetReporterWeight "validator-b" 3;
   ReportNode 10 "node-x" "validator-a" "spam"; ReportNode 11 "node-x" "validator-b" "sybil"].

Lemma blacklist_exact_witness :
  is_blacklisted (trust_run (mkTrustConfig 5) history) "node-x" = true.
Proof.
  apply blacklist_exact; [by vm_compute|]. right. by vm_compute.
Defined.

Lemma single_reporter_blacklists_witness :
  is_blacklisted (trust_run TrustConfig_default
    (replicate 10 (ReportNode 0 "node-x" "nobody" "spam"))) "node-x" = true.
Proof. apply single_reporter_blacklists; simpl; rewrite /i64_max; lia. Defined.

End TrustScenario.

(** ** Capabilities *)

Module Capabilities.

Inductive TrustLevel : Type := Trusted | Verified | Untrusted.

#[export] Instance TrustLevel_eq_dec : EqDecision TrustLevel.
Proof. solve_decision. Defined.
#[export] Instance TrustLevel_countable : Countable TrustLevel.
Proof.
  apply (inj_countable'
    (λ t, match t with Trusted => 0 | Verified => 1 | Untrusted => 2 end)
    (λ n, match n with 0 => Trusted | 1 => Verified | _ => Untrusted end)). by intros [].
Defined.

Record CapabilityPolicy := mkCapabilityPolicy { allowed : gmap TrustLevel (gset string) }.

Definition default_capabilities (t : TrustLevel) : list string :=
  match t with
  | Trusted =>
      ["fs.read"; "fs.write"; "net.outbound"; "proc.exec"; "wallet.sign"; "wallet.send";
       "mcp.call"; "model.invoke"; "oracle.publish"; "oracle.subscribe"; "p2p.publish"]
  | Verified =>
      ["fs.read"; "fs.write"; "net.outbound"; "mcp.call"; "model.invoke"; "oracle.subscribe";
       "p2p.publish"]
  | Untrusted => ["fs.read"; "model.invoke"]
  end.

Definition CapabilityPolicy_default : CapabilityPolicy := {| allowed :=
  <[Trusted := list_to_set (default_capabilities Trusted)]>
  (<[Verified := list_to_set (default_capabilities Verified)]>
  (<[Untrusted := list_to_set (default_capabilities Untrusted)]> ∅)) |}.

(** [capability.split(':').next()]. *)
Definition base (capability : string) : string :=
  match split_once ":"%char (to_bytes capability) with
  | Some (b, _) => of_bytes b
  | None => capability
  end.

Definition is_allowed (p : CapabilityPolicy) (trust : TrustLevel) (capability : string) : bool :=
  is_some_and (λ s, bool_decide (capability ∈ s) || bool_decide (base capability ∈ s))
    (allowed p !! trust).

Definition trust_debug (t : TrustLevel) : string :=
  match t with Trusted => "Trusted" | Verified => "Verified" | Untrusted => "Untrusted" end.

Definition assert_allowed (p : CapabilityPolicy) (trust : TrustLevel) (capability : string)
    : result unit :=
  if negb (is_allowed p trust capability)
  then Err ("capability denied: " +:+ trust_debug trust +:+ ":" +:+ capability) else Ok tt.

Definition list_allowed (p : CapabilityPolicy) (trust : TrustLevel) : list string :=
  match allowed p !! trust with Some s => btree_set_list s | None => [] end.

Lemma default_allowed t :
  allowed CapabilityPolicy_default !! t = Some (list_to_set (default_capabilities t)).
Proof.
  rewrite /CapabilityPolicy_default; cbn [allowed].
  destruct t; repeat (rewrite lookup_insert_eq // || (rewrite lookup_insert_ne; [|done])).
Qed.

(** Names of capabilities hold no colon: the qualifier after one is ignored. *)
Lemma default_names_plain t c : c ∈ default_capabilities t → base c = c.
Proof.
  assert (forallb (λ c, String.eqb (base c) c) (default_capabilities t) = true) as Hall
    by by destruct t.
  rewrite forallb_elem_of in Hall. intros Hc. by apply String.eqb_eq, Hall.
Qed.

Lemma is_allowed_default t c :
  is_allowed CapabilityPolicy_default t c = true ↔ base c ∈ default_capabilities t.
Proof.
  rewrite /is_allowed default_allowed; cbn [is_some_and]; rewrite orb_true_iff !bool_decide_eq_true !elem_of_list_to_set.
  split; [|by right]. intros [Hc|]; [|done]. by rewrite (default_names_plain t).
Qed.

Lemma default_levels lo hi c :
  lo = Untrusted ∧ hi = Verified ∨ lo = Verified ∧ hi = Trusted →
  c ∈ default_capabilities lo → c ∈ default_capabilities hi.
Proof.
  intros Hl. revert c. apply Forall_forall.
  destruct Hl as [[-> ->]|[-> ->]]; by apply (bool_decide_unpack _).
Qed.

(** Under the default policy a capability is granted exactly when the
    name before its first colon is listed for the trust level; each level grants
    everything the level below it does; a denial names the level and the
    capability. *)
Theorem default_policy_spec t c :
  (assert_allowed CapabilityPolicy_default t c = Ok tt ↔
   base c ∈ list_allowed CapabilityPolicy_default t)
  ∧ (is_allowed CapabilityPolicy_default Untrusted c = true →
     is_allowed CapabilityPolicy_default Verified c = true)
  ∧ (is_allowed CapabilityPolicy_default Verified c = true →
     is_allowed CapabilityPolicy_default Trusted c = true)
  ∧ (base c ∉ list_allowed CapabilityPolicy_default t →
     assert_allowed CapabilityPolicy_default t c =
       Err ("capability denied: " +:+ trust_debug t +:+ ":" +:+ c)).
Proof.
  assert (base c ∈ list_allowed CapabilityPolicy_default t ↔
    is_allowed CapabilityPolicy_default t c = true) as Hiff.
  { rewrite /list_allowed default_allowed elem_of_btree_set_list elem_of_list_to_set.
    by rewrite is_allowed_default. }
  rewrite Hiff /assert_allowed. split_and!.
  - destruct (is_allowed CapabilityPolicy_default t c); simpl; split; congruence.
  - rewrite !is_allowed_default. apply default_levels; auto.
  - rewrite !is_allowed_default. apply default_levels; auto.
  - by destruct (is_allowed CapabilityPolicy_default t c).
Qed.

End Capabilities.
