(* ===== verification/Policy.v ===== *)
(** * The policy engine

    [brain/policy_engine.rs]: capability requests, the approvals they wait for
    and the grants an operator gives; [autonomy.rs] of the control plane: the
    check of the capabilities an autonomous action needs. *)

From S2P Require Import Prelude Collections Text Json Trust.
Import Trust.Capabilities.
#[local] Open Scope Z_scope.

(** ** Requests, grants and decisions *)

Inductive GrantScope : Type := Once | Session | Permanent.

#[global] Instance GrantScope_eq_dec : EqDecision GrantScope.
Proof. solve_decision. Defined.

Record CapabilityGrant := mkCapabilityGrant {
  grant_id : string;
  created_at : Z;
  approved_by : string;
  subject_pattern : string;
  capability_pattern : string;
  scope : GrantScope;
  g_session_id : option string;
}.

Record CapabilityRequest := mkCapabilityRequest {
  request_id : string;
  timestamp : Z;
  subject : string;
  trust : TrustLevel;
  capability : string;
  reason : option string;
  input_digest : option string;
}.
#[global] Instance CapabilityRequest_eta : Eta CapabilityRequest := λ r,
  mkCapabilityRequest (request_id r) (timestamp r) (subject r) (trust r) (capability r)
    (reason r) (input_digest r).

Inductive DecisionKind : Type := Allowed | DeniedPendingApproval.

#[global] Instance DecisionKind_eq_dec : EqDecision DecisionKind.
Proof. solve_decision. Defined.

Record PolicyDecision := mkPolicyDecision {
  decision : DecisionKind;
  d_reason : string;
  d_request_id : option string;
  d_grant_id : option string;
}.

Record PolicyState := mkPolicyState {
  grants : list CapabilityGrant;
  pending : list CapabilityRequest;
}.
#[global] Instance PolicyState_eta : Eta PolicyState := λ s, mkPolicyState (grants s) (pending s).
Definition PolicyState_default : PolicyState := mkPolicyState [] [].

Record PolicyEngine := mkPolicyEngine {
  session_id : string;
  base_policy : CapabilityPolicy;
  state : PolicyState;
}.
#[global] Instance PolicyEngine_eta : Eta PolicyEngine := λ e,
  mkPolicyEngine (session_id e) (base_policy e) (state e).

Definition new_engine (session : string) (base : CapabilityPolicy) (s : PolicyState)
    : PolicyEngine := mkPolicyEngine session base s.

(** ** Patterns and risk *)

Definition is_high_risk (capability : string) : bool :=
  bool_decide (base capability ∈
    ["proc.exec"; "wallet.sign"; "wallet.send"; "fs.write"; "net.outbound"; "oracle.publish";
     "p2p.publish"]).

(** [pattern.strip_suffix('*')]. *)
Definition strip_star (pattern : string) : option string :=
  match reverse (to_bytes pattern) with
  | "*"%char :: r => Some (of_bytes (reverse r))
  | _ => None
  end.

Definition starts_with (prefix value : string) : bool :=
  match strip_prefix (to_bytes prefix) (to_bytes value) with Some _ => true | None => false end.

Definition matches_pattern (pattern value : string) : bool :=
  if String.eqb pattern "*" then true
  else match strip_star pattern with
       | Some prefix => starts_with prefix value
       | None => String.eqb pattern value
       end.

(** ** Operations *)

Definition grant_matches (session : string) (request : CapabilityRequest)
    (grant : CapabilityGrant) : bool :=
  matches_pattern (subject_pattern grant) (subject request)
  && matches_pattern (capability_pattern grant) (capability request)
  && match scope grant with
     | Session => is_some_and (λ s, String.eqb s session) (g_session_id grant)
     | Once | Permanent => true
     end.

Definition find_matching_grant (e : PolicyEngine) (request : CapabilityRequest)
    : option CapabilityGrant :=
  find_first (grant_matches (session_id e) request) (grants (state e)).

Definition same_request (request p : CapabilityRequest) : bool :=
  String.eqb (subject p) (subject request) && String.eqb (capability p) (capability request)
  && bool_decide (trust p = trust request).

(** [now] and [uuid] are the clock and the fresh identifier of the call. *)
Definition evaluate (now : Z) (uuid : string) (request : CapabilityRequest) (e : PolicyEngine)
    : PolicyDecision * PolicyEngine :=
  match find_matching_grant e request with
  | Some grant =>
      (mkPolicyDecision Allowed "approved_by_grant" None (Some (grant_id grant)),
       if decide (scope grant = Once)
       then e <| state ::= λ s, s <| grants ::=
              List.filter (λ g, negb (String.eqb (grant_id g) (grant_id grant))) |> |>
       else e)
  | None =>
      if is_allowed (base_policy e) (trust request) (capability request)
         && negb (is_high_risk (capability request))
      then (mkPolicyDecision Allowed "allowed_by_baseline_policy" None None, e)
      else
        match find_first (same_request request) (pending (state e)) with
        | Some existing =>
            (mkPolicyDecision DeniedPendingApproval "pending_existing_approval"
               (Some (request_id existing)) None, e)
        | None =>
            let p := request <| request_id ::= λ i, if String.eqb i "" then uuid else i |> in
            let p := p <| timestamp ::= λ t, if t =? 0 then now else t |> in
            (mkPolicyDecision DeniedPendingApproval "approval_required" (Some (request_id p)) None,
             e <| state ::= λ s, s <| pending ::= λ l, l ++ [p] |> |>)
        end
  end.

(** [position] and [remove]: the first request of the id and the others. *)
Fixpoint take_pending (rid : string) (l : list CapabilityRequest)
    : option (CapabilityRequest * list CapabilityRequest) :=
  match l with
  | [] => None
  | r :: l =>
      if String.eqb (request_id r) rid then Some (r, l)
      else '(x, l') ← take_pending rid l; Some (x, r :: l')
  end.

Definition approve_pending (now : Z) (uuid : string) (rid by_whom : string) (sc : GrantScope)
    (e : PolicyEngine) : result CapabilityGrant * PolicyEngine :=
  match take_pending rid (pending (state e)) with
  | None => (Err "pending request not found", e)
  | Some (request, rest) =>
      let grant := mkCapabilityGrant uuid now by_whom (subject request) (capability request) sc
        (if decide (sc = Session) then Some (session_id e) else None) in
      (Ok grant,
       e <| state ::= λ s, s <| pending := rest |> <| grants ::= λ l, l ++ [grant] |> |>)
  end.

Definition reject_pending (rid : string) (e : PolicyEngine) : result unit * PolicyEngine :=
  let before := length (pending (state e)) in
  let e := e <| state ::= λ s, s <| pending ::=
             List.filter (λ r, negb (String.eqb (request_id r) rid)) |> |> in
  if Nat.eqb (length (pending (state e))) before
  then (Err "pending request not found", e) else (Ok tt, e).

Definition revoke_grant (gid : string) (e : PolicyEngine) : result unit * PolicyEngine :=
  let before := length (grants (state e)) in
  let e := e <| state ::= λ s, s <| grants ::=
             List.filter (λ g, negb (String.eqb (grant_id g) gid)) |> |> in
  if Nat.eqb (length (grants (state e))) before
  then (Err "grant not found", e) else (Ok tt, e).

Definition list_pending (e : PolicyEngine) : list CapabilityRequest := pending (state e).
Definition list_grants (e : PolicyEngine) : list CapabilityGrant := grants (state e).

(** ** The capabilities of an autonomous action *)

(** The request [check_action_capabilities] makes for one capability. *)
Definition action_request (agent_did capability : string) : CapabilityRequest :=
  mkCapabilityRequest "" 0 ("autonomy:" +:+ agent_did) Verified capability (Some "autonomy.tick")
    None.

(** The [n]-th evaluation of the call reads the clock [clk n] and the fresh
    identifier [uuids n]. Saving the policy state after the loop is left out: a
    failed save only logs. *)
Fixpoint check_action_capabilities (clk : clock) (uuids : nat → string) (agent_did : string)
    (required_caps : list string) (e : PolicyEngine)
    : bool * list (string * PolicyDecision) * PolicyEngine :=
  match required_caps with
  | [] => (true, [], e)
  | c :: cs =>
      let '(d, e) := evaluate (clk 0%nat) (uuids 0%nat) (action_request agent_did c) e in
      if decide (decision d = Allowed) then
        let '(ok, ds, e) :=
          check_action_capabilities (λ n, clk (S n)) (λ n, uuids (S n)) agent_did cs e in
        (ok, (c, d) :: ds, e)
      else (false, [(c, d)], e)
  end.

(** ** Histories *)

Inductive policy_op : Type :=
  | OpEvaluate (now : Z) (uuid : string) (request : CapabilityRequest)
  | OpApprove (now : Z) (uuid rid by_whom : string) (sc : GrantScope)
  | OpReject (rid : string)
  | OpRevoke (gid : string).

Definition policy_step (e : PolicyEngine) (op : policy_op) : PolicyEngine :=
  match op with
  | OpEvaluate now uuid r => (evaluate now uuid r e).2
  | OpApprove now uuid rid by_whom sc => (approve_pending now uuid rid by_whom sc e).2
  | OpReject rid => (reject_pending rid e).2
  | OpRevoke gid => (revoke_grant gid e).2
  end.
Definition policy_run (e : PolicyEngine) (ops : list policy_op) : PolicyEngine :=
  foldl policy_step e ops.

(** The history refused a request for [p]'s subject and capability and told the
    caller to wait for [p]. *)
Definition requested_in (e : PolicyEngine) (ops : list policy_op) (p : CapabilityRequest) : Prop :=
  ∃ pre now uuid r post, ops = pre ++ OpEvaluate now uuid r :: post
  ∧ (evaluate now uuid r (policy_run e pre)).1
    = mkPolicyDecision DeniedPendingApproval "approval_required" (Some (request_id p)) None
  ∧ subject p = subject r ∧ capability p = capability r ∧ trust p = trust r.

(** An operator approved in the history a request made before, as grant [g]. *)
Definition granted_in (e : PolicyEngine) (ops : list policy_op) (g : CapabilityGrant) : Prop :=
  ∃ pre now uuid rid by_whom sc post p, ops = pre ++ OpApprove now uuid rid by_whom sc :: post
  ∧ (approve_pending now uuid rid by_whom sc (policy_run e pre)).1 = Ok g
  ∧ requested_in e pre p ∧ request_id p = rid
  ∧ subject_pattern g = subject p ∧ capability_pattern g = capability p.

Lemma strip_star_Some p q : strip_star p = Some q → p = q +:+ "*".
Proof.
  rewrite /strip_star. destruct (reverse (to_bytes p)) as [|a r] eqn:E; [done|].
  apply (f_equal reverse) in E. rewrite reverse_involutive reverse_cons in E.
  intros Hq. apply to_bytes_inj. rewrite E to_bytes_app.
  destruct a as [[] [] [] [] [] [] [] []]; try discriminate Hq. injection Hq as <-.
  by rewrite String.list_ascii_of_string_of_list_ascii.
Qed.

Lemma starts_with_iff p v : starts_with p v = true ↔ ∃ s, v = p +:+ s.
Proof.
  rewrite /starts_with. destruct (strip_prefix _ _) as [s|] eqn:E.
  - apply strip_prefix_Some in E. split; [intros _|done]. exists (of_bytes s).
    apply to_bytes_inj. by rewrite to_bytes_app String.list_ascii_of_string_of_list_ascii.
  - split; [done|]. intros [s ->]. rewrite to_bytes_app in E.
    assert (strip_prefix (to_bytes p) (to_bytes p ++ to_bytes s) = Some (to_bytes s)) as Hs
      by by apply strip_prefix_Some.
    congruence.
Qed.

(** A request matches the pattern an approval makes of it. *)
Lemma matches_pattern_refl v : matches_pattern v v = true.
Proof.
  rewrite /matches_pattern. case_match; [done|]. destruct (strip_star v) as [p|] eqn:E.
  - apply strip_star_Some in E as ->. apply starts_with_iff. by exists "*".
  - apply String.eqb_refl.
Qed.

Lemma take_pending_Some rid l p rest :
  take_pending rid l = Some (p, rest) →
  request_id p = rid ∧ ∃ l1 l2, l = l1 ++ p :: l2 ∧ rest = l1 ++ l2.
Proof.
  revert rest. induction l as [|r l IH]; intros rest; simpl; [done|].
  destruct (String.eqb_spec (request_id r) rid) as [<-|Hne].
  - intros [= <- <-]. split; [done|]. by exists [], l.
  - destruct (take_pending rid l) as [[x l']|]; [|done]. intros [= <- <-].
    destruct (IH l' eq_refl) as (Hid & l1 & l2 & -> & ->). split; [done|]. by exists (r :: l1), l2.
Qed.

Lemma evaluate_pending now uuid r e p :
  p ∈ pending (state (evaluate now uuid r e).2) →
  p ∈ pending (state e)
  ∨ (evaluate now uuid r e).1
    = mkPolicyDecision DeniedPendingApproval "approval_required" (Some (request_id p)) None
    ∧ subject p = subject r ∧ capability p = capability r ∧ trust p = trust r.
Proof.
  rewrite /evaluate. destruct (find_matching_grant e r); [case_decide; by left|].
  case_match; [by left|]. case_match; [by left|]. rewrite /set_field /=.
  rewrite elem_of_app list_elem_of_singleton. intros [?| ->]; [by left|]. by right.
Qed.

Lemma evaluate_grants now uuid r e g :
  g ∈ grants (state (evaluate now uuid r e).2) → g ∈ grants (state e).
Proof.
  rewrite /evaluate. destruct (find_matching_grant e r).
  - case_decide; [|done]. rewrite /set_field /=. by rewrite elem_of_filterb; intros [? _].
  - case_match; [done|]. by case_match.
Qed.

Lemma evaluate_frame now uuid r e :
  session_id (evaluate now uuid r e).2 = session_id e
  ∧ base_policy (evaluate now uuid r e).2 = base_policy e.
Proof. rewrite /evaluate. by repeat (case_match || case_decide). Qed.

Lemma policy_step_frame e op :
  session_id (policy_step e op) = session_id e ∧ base_policy (policy_step e op) = base_policy e.
Proof.
  destruct op as [now uuid r|now uuid rid by_whom sc|rid|gid]; simpl.
  - apply evaluate_frame.
  - rewrite /approve_pending. by repeat case_match.
  - rewrite /reject_pending. by case_match.
  - rewrite /revoke_grant. by case_match.
Qed.

Lemma policy_run_frame e ops :
  session_id (policy_run e ops) = session_id e ∧ base_policy (policy_run e ops) = base_policy e.
Proof.
  rewrite /policy_run. induction ops as [|op ops [IH1 IH2]] using rev_ind; [done|].
  rewrite foldl_app /=. destruct (policy_step_frame (foldl policy_step e ops) op). split; congruence.
Qed.

Lemma requested_in_snoc e ops op p : requested_in e ops p → requested_in e (ops ++ [op]) p.
Proof.
  intros (pre & now & uuid & r & post & -> & ?). exists pre, now, uuid, r, (post ++ [op]).
  by rewrite -app_assoc.
Qed.

Lemma granted_in_snoc e ops op g : granted_in e ops g → granted_in e (ops ++ [op]) g.
Proof.
  intros (pre & now & uuid & rid & w & sc & post & p & -> & ?).
  exists pre, now, uuid, rid, w, sc, (post ++ [op]), p. by rewrite -app_assoc.
Qed.

(** What waits and what was granted is in the history. *)
Lemma policy_run_traced e ops :
  state e = PolicyState_default →
  (∀ p, p ∈ pending (state (policy_run e ops)) → requested_in e ops p)
  ∧ ∀ g, g ∈ grants (state (policy_run e ops)) → granted_in e ops g.
Proof.
  intros He. induction ops as [|op ops [IHp IHg]] using rev_ind.
  { rewrite /policy_run /= He. split; by intros ? ?%elem_of_nil. }
  assert (policy_run e (ops ++ [op]) = policy_step (policy_run e ops) op) as ->
    by by rewrite /policy_run foldl_app.
  destruct op as [now uuid r|now uuid rid w sc|rid|gid]; simpl.
  - split; [|eauto using evaluate_grants, granted_in_snoc].
    intros p [Hp|Hp]%evaluate_pending; [eauto using requested_in_snoc|].
    by exists ops, now, uuid, r, [].
  - destruct (approve_pending now uuid rid w sc (policy_run e ops)) as [res e'] eqn:E.
    pose proof E as E'. rewrite /approve_pending in E'. simpl.
    destruct (take_pending _ _) as [[p rest]|] eqn:Et;
      [|injection E' as _ <-; split; eauto using requested_in_snoc, granted_in_snoc].
    injection E' as <- <-. rewrite /set_field /=.
    apply take_pending_Some in Et as (Hid & l1 & l2 & Hl & ->). split.
    + intros q Hq. apply requested_in_snoc, IHp. rewrite Hl. set_solver.
    + intros g [Hg| ->%list_elem_of_singleton]%elem_of_app; [eauto using granted_in_snoc|].
      exists ops, now, uuid, rid, w, sc, [], p. rewrite E. split_and!; try done.
      apply IHp. rewrite Hl. set_solver.
  - rewrite /reject_pending. case_match; rewrite /set_field /=;
      (split; [|eauto using granted_in_snoc]); intros p [Hp _]%elem_of_filterb;
      eauto using requested_in_snoc.
  - rewrite /revoke_grant. case_match; rewrite /set_field /=;
      (split; [eauto using requested_in_snoc|]); intros g [Hg _]%elem_of_filterb;
      eauto using granted_in_snoc.
Qed.

Lemma evaluate_allowed now uuid r e :
  decision (evaluate now uuid r e).1 = Allowed ↔
  (∃ g, g ∈ grants (state e) ∧ grant_matches (session_id e) r g = true)
  ∨ is_allowed (base_policy e) (trust r) (capability r) = true
    ∧ is_high_risk (capability r) = false.
Proof.
  rewrite /evaluate. destruct (find_matching_grant e r) as [g|] eqn:Eg.
  - apply find_first_Some in Eg. simpl. split; [intros _|done]. left. exists g. naive_solver.
  - rewrite /find_matching_grant find_first_None in Eg.
    assert (¬ ∃ g, g ∈ grants (state e) ∧ grant_matches (session_id e) r g = true) as Hno.
    { intros (g & Hg & Hm). rewrite Eg // in Hm. }
    destruct (is_allowed _ _ _); simpl; [destruct (is_high_risk _); simpl|];
      try (case_match; simpl); naive_solver.
Qed.

(** Over any history of requests, approvals, rejections and revocations of
    a fresh engine, a capability is allowed exactly when the baseline policy
    lists it and it is not a high-risk one, or when a stored grant matches; and
    every stored grant was approved in the history, for a request of the same
    subject and capability that the engine had refused before. *)
Theorem access_traceable session base ops now uuid r :
  let start := new_engine session base PolicyState_default in
  let e := policy_run start ops in
  (decision (evaluate now uuid r e).1 = Allowed ↔
   (∃ g, g ∈ grants (state e) ∧ grant_matches session r g = true)
   ∨ is_allowed base (trust r) (capability r) = true ∧ is_high_risk (capability r) = false)
  ∧ ∀ g, g ∈ grants (state e) → granted_in start ops g.
Proof.
  intros start e. destruct (policy_run_frame start ops) as [Hs Hb].
  rewrite evaluate_allowed Hs Hb. split; [done|].
  by apply policy_run_traced.
Qed.

(** ** Single use *)

Definition issues (gid : string) (op : policy_op) : Prop :=
  match op with OpApprove _ uuid _ _ _ => uuid = gid | _ => False end.

(** No grant of the id is stored. *)
Definition no_grant (gid : string) (e : PolicyEngine) : Prop :=
  ∀ g, g ∈ grants (state e) → grant_id g ≠ gid.

Lemma policy_step_no_grant gid e op :
  ¬ issues gid op → no_grant gid e → no_grant gid (policy_step e op).
Proof.
  intros Hop Hno g. destruct op as [now uuid r|now uuid rid w sc|rid|gid']; simpl.
  - intros Hg%evaluate_grants. by apply Hno.
  - rewrite /approve_pending. destruct (take_pending _ _) as [[p rest]|]; [|apply Hno].
    rewrite /set_field /=. intros [Hg| ->%list_elem_of_singleton]%elem_of_app; [by apply Hno|].
    exact Hop.
  - rewrite /reject_pending. case_match; apply Hno.
  - rewrite /revoke_grant. case_match; rewrite /set_field /=;
      intros [Hg _]%elem_of_filterb; by apply Hno.
Qed.

Lemma policy_run_no_grant gid e ops :
  Forall (λ op, ¬ issues gid op) ops → no_grant gid e → no_grant gid (policy_run e ops).
Proof.
  intros Hops. revert e. induction Hops as [|op ops Hop _ IH]; intros e Hno; [done|].
  apply IH. by apply policy_step_no_grant.
Qed.

Lemma no_grant_unused gid e now uuid r :
  no_grant gid e → d_grant_id (evaluate now uuid r e).1 ≠ Some gid.
Proof.
  intros Hno. rewrite /evaluate. destruct (find_matching_grant e r) as [g|] eqn:Eg.
  - apply find_first_Some in Eg. simpl. intros [= Heq]. by apply (Hno g); [naive_solver|].
  - repeat case_match; by simpl.
Qed.

Lemma filter_no_grant gid e :
  no_grant gid (e <| state ::= λ s, s <| grants ::=
    List.filter (λ g, negb (String.eqb (grant_id g) gid)) |> |>).
Proof.
  intros g. rewrite /set_field /=. intros [_ Hg]%elem_of_filterb. bool_to_prop. done.
Qed.

(** A grant for one use allows one request: once it has allowed one, or once
    any grant has been revoked, no later request is allowed by its id, whatever
    happens in between, as long as the id is not issued again. *)
Theorem grant_ends gid e ops now uuid r e' :
  (∃ now0 uuid0 r0 g, find_matching_grant e r0 = Some g ∧ grant_id g = gid ∧ scope g = Once
     ∧ e' = (evaluate now0 uuid0 r0 e).2)
  ∨ revoke_grant gid e = (Ok tt, e') →
  Forall (λ op, ¬ issues gid op) ops →
  d_grant_id (evaluate now uuid r (policy_run e' ops)).1 ≠ Some gid.
Proof.
  intros He Hops. apply no_grant_unused, policy_run_no_grant; [done|].
  destruct He as [(now0 & uuid0 & r0 & g & Hg & <- & Hsc & ->)|Hr].
  - rewrite /evaluate Hg decide_True //. apply filter_no_grant.
  - rewrite /revoke_grant in Hr. case_match; [done|]. injection Hr as <-. apply filter_no_grant.
Qed.

(** ** Waiting requests *)

Definition request_key (r : CapabilityRequest) : string * string * TrustLevel :=
  (subject r, capability r, trust r).

(** At most one request waits for a subject, capability and trust level, and no
    two waiting requests share an id. *)
Definition pending_ok (e : PolicyEngine) : Prop :=
  NoDup (request_key <$> pending (state e)) ∧ NoDup (request_id <$> pending (state e)).

(** Requests come without an id, as the control plane makes them, and the
    identifier drawn for one is not in use. *)
Definition fresh_op (e : PolicyEngine) (op : policy_op) : Prop :=
  match op with
  | OpEvaluate _ uuid r => request_id r = "" ∧ uuid ∉ request_id <$> pending (state e)
  | _ => True
  end.

Lemma same_request_key r p : same_request r p = true ↔ request_key p = request_key r.
Proof.
  rewrite /same_request /request_key !andb_true_iff !String.eqb_eq bool_decide_eq_true.
  split; [intros [[-> ->] ->]|intros [= -> -> ->]]; done.
Qed.

Lemma evaluate_pending_ok now uuid r e :
  request_id r = "" → uuid ∉ request_id <$> pending (state e) →
  pending_ok e → pending_ok (evaluate now uuid r e).2.
Proof.
  intros Hid Hu [Hk Hi]. rewrite /evaluate. destruct (find_matching_grant e r).
  { case_decide; by split. }
  case_match; [by split|]. case_match eqn:Ef; [by split|].
  rewrite find_first_None in Ef. split; rewrite /set_field /= fmap_app; apply NoDup_app.
  - split; [done|]. split; [|apply NoDup_singleton].
    intros k (p & -> & Hp)%list_elem_of_fmap [= Heq]%list_elem_of_singleton.
    assert (same_request r p = true) as Hs by (apply same_request_key; rewrite /request_key; congruence).
    rewrite (Ef p Hp) in Hs. done.
  - split; [done|]. split; [|apply NoDup_singleton]. rewrite Hid /=.
    intros k Hk' ->%list_elem_of_singleton. done.
Qed.

Lemma pending_ok_sublist e e' :
  pending (state e') `sublist_of` pending (state e) → pending_ok e → pending_ok e'.
Proof.
  intros Hs [Hk Hi]. split; (eapply sublist_NoDup; [done|by apply fmap_sublist]).
Qed.

Lemma policy_step_pending_ok e op : fresh_op e op → pending_ok e → pending_ok (policy_step e op).
Proof.
  destruct op as [now uuid r|now uuid rid w sc|rid|gid]; simpl.
  - intros [? ?]. by apply evaluate_pending_ok.
  - intros _. apply pending_ok_sublist. rewrite /approve_pending.
    destruct (take_pending _ _) as [[p rest]|] eqn:Et; [|done].
    apply take_pending_Some in Et as (_ & l1 & l2 & Hl & ->). rewrite /set_field /= Hl.
    apply sublist_app; [done|]. by apply sublist_cons.
  - intros _. apply pending_ok_sublist. rewrite /reject_pending.
    case_match; rewrite /set_field /=; apply filterb_sublist.
  - intros _. apply pending_ok_sublist. rewrite /revoke_grant. by case_match.
Qed.

Lemma take_pending_of rid l p :
  NoDup (request_id <$> l) → p ∈ l → request_id p = rid → ∃ rest, take_pending rid l = Some (p, rest).
Proof.
  intros Hn Hp Hid. induction l as [|r l IH]; [by apply elem_of_nil in Hp|]. simpl.
  apply NoDup_cons in Hn as [Hr Hn]. destruct (String.eqb_spec (request_id r) rid) as [Hr'|Hne].
  - apply elem_of_cons in Hp as [->|Hp]; [by exists l|]. exfalso. apply Hr. rewrite Hr' -Hid.
    by apply list_elem_of_fmap_2.
  - apply elem_of_cons in Hp as [->|Hp]; [done|]. destruct (IH Hn Hp) as [rest ->]. by exists (r :: rest).
Qed.

(** A refusal names a waiting request of the same subject and capability. *)
Lemma evaluate_denied now uuid r e :
  decision (evaluate now uuid r e).1 = DeniedPendingApproval →
  ∃ p, p ∈ pending (state (evaluate now uuid r e).2)
  ∧ d_request_id (evaluate now uuid r e).1 = Some (request_id p) ∧ request_key p = request_key r.
Proof.
  rewrite /evaluate. destruct (find_matching_grant e r); [done|]. case_match; [done|].
  case_match eqn:Ef; intros _.
  - apply find_first_Some in Ef. eexists. split; [naive_solver|]. split; [done|].
    apply same_request_key. naive_solver.
  - eexists. split; [|split]; [|done|done]. rewrite /set_field /=.
    apply elem_of_app. right. by apply list_elem_of_singleton.
Qed.

(** A refused request can always be granted: the refusal names a waiting
    request, approving that id succeeds in every scope, and the same request is
    then allowed, in this session. *)
Theorem refused_then_approved e now uuid r now1 uuid1 w sc now2 uuid2 :
  pending_ok e → fresh_op e (OpEvaluate now uuid r) →
  decision (evaluate now uuid r e).1 = DeniedPendingApproval →
  ∃ rid g e2, d_request_id (evaluate now uuid r e).1 = Some rid
  ∧ approve_pending now1 uuid1 rid w sc (evaluate now uuid r e).2 = (Ok g, e2)
  ∧ pending_ok e2 ∧ decision (evaluate now2 uuid2 r e2).1 = Allowed.
Proof.
  intros Hok Hf Hden. pose proof (policy_step_pending_ok _ _ Hf Hok) as Hok1.
  destruct (evaluate_denied _ _ _ _ Hden) as (p & Hp & Hrid & Hkey). simpl in Hok1.
  set (e1 := (evaluate now uuid r e).2) in *.
  destruct (take_pending_of (request_id p) _ p (proj2 Hok1) Hp eq_refl) as [rest Ht].
  pose proof (policy_step_pending_ok e1 (OpApprove now1 uuid1 (request_id p) w sc) I Hok1) as Hok2.
  rewrite /= /approve_pending Ht in Hok2.
  exists (request_id p). eexists _, _. split; [done|]. rewrite /approve_pending Ht.
  split; [reflexivity|]. split; [exact Hok2|]. injection Hkey as Hsub Hcap _.
  apply evaluate_allowed. left. eexists. split.
  { rewrite /set_field /=. apply elem_of_app. right. by apply list_elem_of_singleton. }
  rewrite /grant_matches /= Hsub Hcap !matches_pattern_refl /=.
  destruct sc; simpl; [done| |done]. apply String.eqb_refl.
Qed.

(** ** Autonomous actions *)

(** An action's capabilities are all checked, in order, until one is
    refused; the answer is yes exactly when every check made was allowed and
    none was left out. *)
Theorem check_action_spec clk uuids did caps e :
  let '(ok, ds, _) := check_action_capabilities clk uuids did caps e in
  ds.*1 `prefix_of` caps
  ∧ (ok = true ↔ ds.*1 = caps ∧ Forall (λ cd, decision cd.2 = Allowed) ds)
  ∧ (ok = false → ∃ ds' c d, ds = ds' ++ [(c, d)] ∧ decision d = DeniedPendingApproval
       ∧ Forall (λ cd, decision cd.2 = Allowed) ds').
Proof.
  revert clk uuids e. induction caps as [|c caps IH]; intros clk uuids e; simpl.
  { split_and!; [done| |done]. split; [|done]. intros _. by split. }
  destruct (evaluate _ _ _ e) as [d e1] eqn:Ed. case_decide as Hd.
  - specialize (IH (λ n, clk (S n)) (λ n, uuids (S n)) e1).
    destruct (check_action_capabilities _ _ did caps e1) as [[ok ds] e2].
    destruct IH as (Hpre & Hok & Hno). split_and!.
    + simpl. by apply prefix_cons.
    + rewrite Hok Forall_cons fmap_cons; cbn [fst snd].
      split; [intros [Heq ?]; by rewrite Heq|by intros [[= ?] [_ ?]]].
    + intros Hf. destruct (Hno Hf) as (ds' & c' & d' & -> & Hd' & Hall).
      exists ((c, d) :: ds'), c', d'. split_and!; [done..|]. by constructor.
  - split_and!.
    + simpl. by apply prefix_cons, prefix_nil.
    + split; [done|]. rewrite Forall_cons /=. by intros [_ [? _]].
    + intros _. exists [], c, d. split_and!; [done| |by constructor]. by destruct (decision d).
Qed.

(** ** A session *)

Module PolicyScenario.

Definition start : PolicyEngine :=
  new_engine "session-a" CapabilityPolicy_default PolicyState_default.
Definition request (c : string) : CapabilityRequest :=
  mkCapabilityRequest "" 0 "controller:echo" Verified c (Some "test") None.
Definition caps : list string := ["net.outbound"; "p2p.publish"].

(** Both capabilities are asked for and the first is granted for one use. *)
Definition half_approved : PolicyEngine := policy_run start
  [OpEvaluate 1 "r1" (action_request "did" "net.outbound");
   OpEvaluate 2 "r2" (action_request "did" "p2p.publish");
   OpApprove 3 "g1" "r1" "operator" Once].

(** An action that is blocked by its second capability has spent the one-use
    grant of its first: the next attempt is blocked by the first one again,
    though the second has been granted meanwhile. *)
Theorem blocked_action_spends_grant :
  let '(ok1, _, e1) := check_action_capabilities (λ _, 4) (λ _, "u") "did" caps half_approved in
  let e2 := policy_step e1 (OpApprove 5 "g2" "r2" "operator" Once) in
  let '(ok2, ds2, e3) := check_action_capabilities (λ _, 6) (λ _, "u") "did" caps e2 in
  ok1 = false ∧ grant_id <$> list_grants half_approved = ["g1"] ∧ list_grants e1 = []
  ∧ ok2 = false ∧ ds2.*1 = ["net.outbound"] ∧ grant_id <$> list_grants e3 = ["g2"].
Proof. vm_compute. done. Qed.

Example session_runs :
  d_reason (evaluate 1 "r" (request "p2p.publish") start).1 = "approval_required"
  ∧ d_reason (evaluate 1 "r" (request "mcp.call:tool") start).1 = "allowed_by_baseline_policy".
Proof. vm_compute. done. Qed.

Definition granted : PolicyEngine := policy_run start
  [OpEvaluate 1 "r1" (request "p2p.publish"); OpApprove 2 "g1" "r1" "operator" Once].

Lemma grant_ends_witness :
  d_grant_id (evaluate 5 "r3" (request "p2p.publish")
    (policy_run (evaluate 3 "r2" (request "p2p.publish") granted).2
       [OpEvaluate 4 "r4" (request "fs.write")])).1 ≠ Some "g1".
Proof.
  apply (grant_ends "g1" granted).
  - left. exists 3, "r2", (request "p2p.publish").
    exists (mkCapabilityGrant "g1" 2 "operator" "controller:echo" "p2p.publish" Once None).
    split; [vm_compute; reflexivity|]. done.
  - repeat constructor. simpl. tauto.
Defined.

Lemma refused_then_approved_witness :
  ∃ rid g e2, d_request_id (evaluate 1 "r1" (request "wallet.sign:eth") start).1 = Some rid
  ∧ approve_pending 2 "g1" rid "operator" Session
      (evaluate 1 "r1" (request "wallet.sign:eth") start).2 = (Ok g, e2)
  ∧ pending_ok e2 ∧ decision (evaluate 3 "r2" (request "wallet.sign:eth") e2).1 = Allowed.
Proof.
  apply refused_then_approved.
  - split; vm_compute; constructor.
  - split; [done|]. vm_compute. by intros ?%elem_of_nil.
  - vm_compute. reflexivity.
Defined.

End PolicyScenario.
