(* ===== verification/Identities.v ===== *)
(** * Identities of citizens

    [K/civilization/identities.rs]: the registry of public identities, the registry of the
    controllers they are bound to, and the reconciliation of both with the agent a node runs.
    The files they are kept in are not modelled. Strings are UTF-8 bytes; characters are
    split off at the leading byte of each. *)

From S2P Require Import Prelude Collections Text Json Signing Hashcash Admission.
Import PublicId.
#[local] Open Scope Z_scope.
#[local] Set Default Proof Using "Type*".

(** ** Characters *)

(** A byte that continues a character: [10xxxxxx]. *)
Definition is_continuation (a : ascii) : bool :=
  let n := nat_of_ascii a in ((128 <=? n) && (n <? 192))%nat.

(** [str::chars]: each character as the bytes that encode it. *)
Fixpoint utf8_chars (l : bytes) : list bytes :=
  match l with
  | [] => []
  | a :: l' =>
      match utf8_chars l' with
      | (b :: c) :: cs => if is_continuation b then (a :: b :: c) :: cs else [a] :: (b :: c) :: cs
      | cs => [a] :: cs
      end
  end.

(** [char::is_control]: U+0000 to U+001F and U+007F to U+009F. *)
Definition is_control (c : bytes) : bool :=
  match nat_of_ascii <$> c with
  | [n] => (n <? 32)%nat || (n =? 127)%nat
  | [n; m] => (n =? 194)%nat && ((128 <=? m) && (m <=? 159))%nat
  | _ => false
  end.

Definition MAX_DISPLAY_NAME_CHARS : nat := 40.

Definition normalize_display_name (name : string) : result string :=
  let name := trim name in
  if String.eqb name "" then Err "display_name is required"
  else if (MAX_DISPLAY_NAME_CHARS <? length (utf8_chars (to_bytes name)))%nat
  then Err "display_name must be 40 characters or fewer"
  else if existsb is_control (utf8_chars (to_bytes name))
  then Err "display_name must not contain control characters"
  else Ok name.

(** [trim_start_matches("did:key:")] strips the prefix as often as it occurs. *)
Fixpoint strip_did_prefixes (fuel : nat) (l : bytes) : bytes :=
  match fuel with
  | O => l
  | S fuel' =>
      match strip_prefix (to_bytes DID_KEY_PREFIX) l with
      | Some l' => strip_did_prefixes fuel' l'
      | None => l
      end
  end.

Definition did_suffix (agent_did : string) (len : nat) : string :=
  let raw := strip_did_prefixes (String.length agent_did) (to_bytes agent_did) in
  of_bytes (concat (reverse (take len (reverse (utf8_chars raw))))).

Definition default_public_slug (agent_did : string) : string :=
  "agent-" +:+ did_suffix agent_did 12.
Definition default_display_name (agent_did : string) : string :=
  "Agent-" +:+ did_suffix agent_did 8.

(** ** Data *)

Inductive ControllerKind := LocalWattswarm | ExternalRuntime.
#[global] Instance ControllerKind_eq_dec : EqDecision ControllerKind.
Proof. solve_decision. Defined.
Inductive OwnershipScope := Local | External.
#[global] Instance OwnershipScope_eq_dec : EqDecision OwnershipScope.
Proof. solve_decision. Defined.

Record PublicIdentity := mkPublicIdentity {
  pi_public_id : string;
  pi_display_name : string;
  pi_agent_did : option string;
  pi_active : bool;
  pi_created_at : Z;
  pi_updated_at : Z;
}.
#[global] Instance eta_PublicIdentity : Eta PublicIdentity := λ i,
  mkPublicIdentity (pi_public_id i) (pi_display_name i) (pi_agent_did i) (pi_active i)
    (pi_created_at i) (pi_updated_at i).

Record ControllerBinding := mkControllerBinding {
  cb_public_id : string;
  controller_kind : ControllerKind;
  controller_ref : string;
  controller_node_id : option string;
  ownership_scope : OwnershipScope;
  cb_active : bool;
  cb_created_at : Z;
  cb_updated_at : Z;
}.

Definition PublicIdentityRegistry : Type := gmap string PublicIdentity.
Definition ControllerBindingRegistry : Type := gmap string ControllerBinding.

(** ** Public identities *)

Section identities.
Context `{Crypto, Digest, Hex}.

Definition upsert (clk : clock) (public_id display_name : string) (agent_did : option string)
    (active : bool) : stm PublicIdentityRegistry PublicIdentity :=
  name ← lift (normalize_display_name display_name);
  match agent_did with
  | Some did =>
      ok ← lift (with_context "verify public_id ownership" (verify_public_id_ownership public_id did));
      ensure ok ("public_id '" +:+ public_id
        +:+ "' does not contain a valid fingerprint for agent_did '" +:+ did +:+ "'")
  | None => mret tt
  end;;
  let now := clk 0%nat in
  old ← gets (λ r : PublicIdentityRegistry, r !! public_id);
  let i := mkPublicIdentity public_id name agent_did active (from_option pi_created_at now old) now in
  modify (λ r : PublicIdentityRegistry, <[public_id := i]> r);; mret i.

Definition update_display_name (clk : clock) (public_id display_name : string)
    : stm PublicIdentityRegistry PublicIdentity :=
  name ← lift (normalize_display_name display_name);
  i ← gets (λ r : PublicIdentityRegistry, r !! public_id);
  match i with
  | None => bail ("public identity '" +:+ public_id +:+ "' not found")
  | Some i =>
      let i' := i <| pi_display_name := name |> <| pi_updated_at := clk 0%nat |> in
      modify (λ r : PublicIdentityRegistry, <[public_id := i']> r);; mret i'
  end.

Definition active_for_agent_did (agent_did : string) (r : PublicIdentityRegistry)
    : option PublicIdentity :=
  find_first (λ i, pi_active i && bool_decide (pi_agent_did i = Some agent_did)) (btree_values r).

Definition ensure_local_default_for_agent (clk : clock) (agent_did : string)
    (bound : option string) : stm PublicIdentityRegistry PublicIdentity :=
  legacy ← gets (λ r : PublicIdentityRegistry, r !! agent_did);
  match legacy with
  | Some i => mret i
  | None =>
      fp ← lift (with_context "derive fingerprint for default public_id"
                   (fingerprint_from_did_key agent_did));
      let public_id := build_scoped_public_id (default_public_slug agent_did) fp in
      scoped ← gets (λ r : PublicIdentityRegistry, r !! public_id);
      match scoped with
      | Some i => mret i
      | None =>
          bound_id ← gets (active_for_agent_did agent_did);
          match bound_id with
          | Some i => mret i
          | None => upsert clk public_id (default_display_name agent_did) bound true
          end
      end
  end.

Definition ensure_local_default (clk : clock) (agent_did : string)
    : stm PublicIdentityRegistry PublicIdentity :=
  ensure_local_default_for_agent clk agent_did (Some agent_did).

Definition get (r : PublicIdentityRegistry) (public_id : string) : option PublicIdentity := r !! public_id.
Definition list_identities (r : PublicIdentityRegistry) : list PublicIdentity := btree_values r.

(** ** Controllers *)

Definition upsert_binding (clk : clock) (public_id : string) (kind : ControllerKind) (ref : string)
    (node : option string) (scope : OwnershipScope) (active : bool) (r : ControllerBindingRegistry)
    : ControllerBinding * ControllerBindingRegistry :=
  let now := clk 0%nat in
  let b := mkControllerBinding public_id kind ref node scope active
             (from_option cb_created_at now (r !! public_id)) now in
  (b, <[public_id := b]> r).

Definition ensure_local_wattswarm (clk : clock) (public_id node : string)
    (r : ControllerBindingRegistry) : ControllerBinding * ControllerBindingRegistry :=
  match r !! public_id with
  | Some b => (b, r)
  | None => upsert_binding clk public_id LocalWattswarm "local-default" (Some node) Local true r
  end.

Definition get_binding (r : ControllerBindingRegistry) (public_id : string) : option ControllerBinding :=
  r !! public_id.
Definition active_for_controller (node : string) (r : ControllerBindingRegistry)
    : option ControllerBinding :=
  find_first (λ b, cb_active b && bool_decide (controller_node_id b = Some node)) (btree_values r).
Definition list_bindings (r : ControllerBindingRegistry) : list ControllerBinding := btree_values r.

(** ** Reconciliation *)

Definition is_local_default (b : ControllerBinding) : bool :=
  bool_decide (controller_kind b = LocalWattswarm) && String.eqb (controller_ref b) "local-default"
  && bool_decide (ownership_scope b = Local).

(** The identity a binding names belongs to another agent. *)
Definition replaced_by (agent_did : string) (ids : PublicIdentityRegistry) (b : ControllerBinding)
    : option string :=
  i ← ids !! cb_public_id b;
  if is_some_and (λ d, negb (String.eqb d agent_did)) (pi_agent_did i) then Some (cb_public_id b) else None.

Definition replaced_ids (agent_did : string) (ids : PublicIdentityRegistry)
    (bindings : ControllerBindingRegistry) : list string :=
  omap (replaced_by agent_did ids) (List.filter is_local_default (btree_values bindings)).

Definition remove_replaced_local_runtime_identities (agent_did : string)
    (s : PublicIdentityRegistry * ControllerBindingRegistry)
    : nat * (PublicIdentityRegistry * ControllerBindingRegistry) :=
  let '(ids, bindings) := s in
  let gone := replaced_ids agent_did ids bindings in
  (length gone,
   (foldl (λ r id, delete id r) ids gone, foldl (λ r id, delete id r) bindings gone)).

Definition reconcile_local_runtime_identity (clk : clock) (agent_did : string)
    : stm (PublicIdentityRegistry * ControllerBindingRegistry) (PublicIdentity * ControllerBinding) :=
  λ s,
    let '(_, (ids, bindings)) := remove_replaced_local_runtime_identities agent_did s in
    match ensure_local_default_for_agent clk agent_did (Some agent_did) ids with
    | (Err e, ids') => (Err e, (ids', bindings))
    | (Ok i, ids') =>
        let '(b, bindings') :=
          ensure_local_wattswarm (λ n, clk (S n)) (pi_public_id i) agent_did bindings in
        (Ok (i, b), (ids', bindings'))
    end.
End identities.

(** ** Display names *)

Definition name_ok (n : string) : Prop :=
  trim n = n ∧ n ≠ ""%string ∧ (length (utf8_chars (to_bytes n)) ≤ 40)%nat
  ∧ Forall (λ c, is_control c = false) (utf8_chars (to_bytes n)).

Lemma normalize_ok name n : normalize_display_name name = Ok n → n = trim name ∧ name_ok n.
Proof.
  rewrite /normalize_display_name. destruct (String.eqb_spec (trim name) ""); [done|].
  destruct (Nat.ltb_spec MAX_DISPLAY_NAME_CHARS (length (utf8_chars (to_bytes (trim name))))); [done|].
  destruct (existsb _ _) eqn:E; [done|]. intros [= <-]. split; [done|]. split_and!; [apply trim_idem|done|done|].
  apply Forall_forall. intros c Hc. destruct (is_control c) eqn:Ec; [|done].
  rewrite -E. symmetry. apply existsb_exists. exists c. split; [by apply list_elem_of_In|done].
Qed.

(** ** The registry invariant *)

Section invariant.
Context `{Crypto, Digest, Hex}.

(** An identity is stored under its own id, with a printable name, and an agent it names
    owns the id. *)
Definition identity_ok (id : string) (i : PublicIdentity) : Prop :=
  pi_public_id i = id ∧ name_ok (pi_display_name i)
  ∧ ∀ did, pi_agent_did i = Some did → verify_public_id_ownership id did = Ok true.
Definition identities_inv (r : PublicIdentityRegistry) : Prop := map_Forall identity_ok r.

Lemma upsert_outcome clk id name did active r :
  match upsert clk id name did active r with
  | (Ok i, r') => r' = <[id := i]> r ∧ identity_ok id i ∧ pi_agent_did i = did ∧ pi_active i = active
  | (Err _, r') => r' = r
  end.
Proof.
  rewrite /upsert. destruct (normalize_display_name name) as [n|e] eqn:En; [|done].
  apply normalize_ok in En as [_ Hn].
  destruct did as [did|]; cbv [mbind stm_bind lift gets modify mret stm_ret ensure with_context].
  - destruct (verify_public_id_ownership id did) as [[]|] eqn:Ev; [|done..].
    split; [done|]. split; [|done]. split_and!; [done|done|]. by intros ? [= <-].
  - split; [done|]. split; [|done]. by split_and!.
Qed.

Lemma update_display_name_outcome clk id name r :
  match update_display_name clk id name r with
  | (Ok i', r') => r' = <[id := i']> r ∧ ∃ i, r !! id = Some i ∧ name_ok (pi_display_name i')
      ∧ pi_public_id i' = pi_public_id i ∧ pi_agent_did i' = pi_agent_did i
  | (Err _, r') => r' = r
  end.
Proof.
  rewrite /update_display_name. destruct (normalize_display_name name) as [n|e] eqn:En; [|done].
  apply normalize_ok in En as [_ Hn]. cbv [mbind stm_bind lift gets modify mret stm_ret bail].
  destruct (r !! id) as [i|] eqn:Ei; [|done]. split; [done|]. exists i. by split_and!.
Qed.

(** Finding or creating the default identity adds at most the one it returns. *)
Lemma ensure_outcome clk did bound r :
  match ensure_local_default_for_agent clk did bound r with
  | (Ok i, r') => (r' = r ∧ ∃ id, r !! id = Some i)
      ∨ (∃ id, r !! id = None ∧ r' = <[id := i]> r ∧ identity_ok id i ∧ pi_agent_did i = bound)
  | (Err _, r') => r' = r
  end.
Proof.
  rewrite /ensure_local_default_for_agent. cbv [mbind stm_bind gets lift mret stm_ret with_context].
  destruct (r !! did) as [i|] eqn:E1; [left; eauto|].
  destruct (fingerprint_from_did_key did) as [fp|]; [|done].
  set (id := build_scoped_public_id _ _). destruct (r !! id) as [i|] eqn:E2; [left; eauto|].
  destruct (active_for_agent_did did r) as [i|] eqn:E3.
  { left. split; [done|]. apply find_first_Some in E3 as [_ Hin].
    by apply elem_of_btree_values in Hin. }
  pose proof (upsert_outcome clk id (default_display_name did) bound true r) as Hu.
  destruct (upsert _ _ _ _ _ r) as [[i|e] r']; [|done]. right. exists id. naive_solver.
Qed.

Lemma delete_all_lookup {A} (m : gmap string A) l id :
  foldl (λ r k, delete k r) m l !! id = (if bool_decide (id ∈ l) then None else m !! id).
Proof using Type.
  revert m. induction l as [|k l IH]; intros m; cbn [foldl].
  { rewrite bool_decide_false //. by intros ?%elem_of_nil. }
  rewrite IH. case_bool_decide as Hin.
  - rewrite bool_decide_true //. by right.
  - destruct (decide (id = k)) as [->|Hne].
    + rewrite lookup_delete_eq bool_decide_true //. by left.
    + rewrite lookup_delete_ne // bool_decide_false //. by intros [?|?]%elem_of_cons.
Qed.

Inductive identity_step (r : PublicIdentityRegistry) : PublicIdentityRegistry → Prop :=
  | step_upsert clk id name did active : identity_step r (exec (upsert clk id name did active) r)
  | step_rename clk id name : identity_step r (exec (update_display_name clk id name) r)
  | step_ensure clk did bound : identity_step r (exec (ensure_local_default_for_agent clk did bound) r)
  | step_remove did bindings :
      identity_step r (remove_replaced_local_runtime_identities did (r, bindings)).2.1.
Definition identities_reachable : PublicIdentityRegistry → Prop := rtc identity_step ∅.

Lemma identity_step_inv r r' : identities_inv r → identity_step r r' → identities_inv r'.
Proof.
  intros Hinv [clk id name did active|clk id name|clk did bound|did bindings].
  - pose proof (upsert_outcome clk id name did active r) as Hu. rewrite /exec.
    destruct (upsert _ _ _ _ _ r) as [[i|e] r'']; cbn; [|by subst]. destruct Hu as (-> & Hok & _).
    by apply map_Forall_insert_2.
  - pose proof (update_display_name_outcome clk id name r) as Hu. rewrite /exec.
    destruct (update_display_name _ _ _ r) as [[i'|e] r'']; cbn; [|by subst].
    destruct Hu as (-> & i & Hi & Hn & Hp & Hd). apply map_Forall_insert_2; [|done].
    destruct (Hinv _ _ Hi) as (? & _ & Hown). split_and!; [by rewrite Hp|done|].
    intros d Ed. apply Hown. by rewrite -Hd.
  - pose proof (ensure_outcome clk did bound r) as Hu. rewrite /exec.
    destruct (ensure_local_default_for_agent _ _ _ r) as [[i|e] r'']; cbn; [|by subst].
    destruct Hu as [[-> _]|(id & _ & -> & Hok & _)]; [done|]. by apply map_Forall_insert_2.
  - intros id i. cbn. rewrite delete_all_lookup. case_bool_decide; [done|]. apply Hinv.
Qed.

(** In every reachable registry an identity is stored under its own public id, its
    display name is trimmed, printable and at most forty characters long, and when it names
    an agent that agent's key owns the public id. *)
Theorem identities_certified r id i :
  identities_reachable r → r !! id = Some i →
  pi_public_id i = id
  ∧ (trim (pi_display_name i) = pi_display_name i
     ∧ (1 ≤ length (utf8_chars (to_bytes (pi_display_name i))) ≤ 40)%nat
     ∧ Forall (λ c, is_control c = false) (utf8_chars (to_bytes (pi_display_name i))))
  ∧ ∀ did, pi_agent_did i = Some did → verify_public_id_ownership id did = Ok true.
Proof.
  intros Hr Hi. assert (identities_inv r) as Hinv.
  { assert (identities_inv ∅) as Hempty by apply map_Forall_empty. revert Hempty.
    clear Hi. induction Hr; eauto using identity_step_inv. }
  destruct (Hinv _ _ Hi) as (? & (Ht & Hne & Hlen & Hc) & Ho). split_and!; try done.
  destruct (pi_display_name i) as [|a s]; [done|]. cbn.
  destruct (utf8_chars (to_bytes s)) as [|[|b c] cs]; cbn; [lia..|]. case_match; cbn; lia.
Qed.
End invariant.

(** ** Reconciliation succeeds and settles *)

Section reconcile.
Context `{Crypto, Digest, Hex, !DigestLaws, !HexLaws}.

(** An agent whose key can be fingerprinted and whose default name is printable. *)
Definition well_formed_agent (did : string) : Prop :=
  String.prefix DID_KEY_PREFIX did = true ∧ is_ok (fingerprint_from_did_key did) = true
  ∧ is_ok (normalize_display_name (default_display_name did)) = true.

(** The default public id of an agent is its own. *)
Lemma default_id_owned did fp :
  String.prefix DID_KEY_PREFIX did = true → fingerprint_from_did_key did = Ok fp →
  verify_public_id_ownership (build_scoped_public_id (default_public_slug did) fp) did = Ok true.
Proof.
  intros Hp Hfp. assert (key_fingerprint did = Ok fp) as Hk by by rewrite /key_fingerprint Hp.
  destruct (fingerprint_shape did fp Hk) as [Hlen Hhex].
  assert (is_did_key_public_id (build_scoped_public_id (default_public_slug did) fp) = false) as Hd by done.
  rewrite /verify_public_id_ownership Hd extract_scoped // Hp Hfp /= String.eqb_refl. done.
Qed.

Lemma ensure_succeeds clk did r :
  well_formed_agent did → identities_inv r →
  ∃ i r', ensure_local_default_for_agent clk did (Some did) r = (Ok i, r')
    ∧ r' !! pi_public_id i = Some i
    ∧ (r' = r ∨ (pi_agent_did i = Some did ∧ r !! pi_public_id i = None
                 ∧ r' = <[pi_public_id i := i]> r))
    ∧ ∀ clk', ensure_local_default_for_agent clk' did (Some did) r' = (Ok i, r').
Proof.
  intros (Hp & Hfp & Hn) Hinv. destruct (fingerprint_from_did_key did) as [fp|] eqn:Ef; [|done].
  destruct (normalize_display_name _) as [n|] eqn:En; [|done].
  rewrite /ensure_local_default_for_agent.
  cbv [mbind stm_bind gets lift mret stm_ret with_context]. rewrite Ef.
  set (id := build_scoped_public_id _ fp).
  destruct (r !! did) as [i|] eqn:E1.
  { exists i, r. rewrite (proj1 (Hinv _ _ E1)) E1. split_and!; [done..|by left|done]. }
  destruct (r !! id) as [i|] eqn:E2.
  { exists i, r. rewrite (proj1 (Hinv _ _ E2)) E1 E2. split_and!; [done..|by left|done]. }
  destruct (active_for_agent_did did r) as [i|] eqn:E3.
  { pose proof E3 as E4. apply find_first_Some in E4 as [_ [k Hk]%elem_of_btree_values].
    exists i, r. rewrite (proj1 (Hinv _ _ Hk)) E1 E2 E3 Hk. split_and!; [done..|by left|done]. }
  rewrite /upsert En. cbv [mbind stm_bind gets lift mret stm_ret with_context ensure modify].
  rewrite default_id_owned //. rewrite E2. cbn [from_option].
  eexists _, _. split; [reflexivity|]. cbn [pi_public_id]. rewrite lookup_insert_eq. split; [done|].
  split; [right; by split_and!|]. intros clk'.
  rewrite lookup_insert_ne; [by rewrite E1 lookup_insert_eq|].
  intros E. rewrite -E in Hp. by vm_compute in Hp.
Qed.

Lemma replaced_gone did ids bindings b :
  let s := (remove_replaced_local_runtime_identities did (ids, bindings)).2 in
  b ∈ btree_values s.2 → is_local_default b = true → replaced_by did s.1 b = None.
Proof using Type.
  cbn. intros Hb Hl. destruct (replaced_by did (foldl _ ids _) b) as [k|] eqn:Er; [|done]. exfalso.
  rewrite /replaced_by in Er. apply bind_Some in Er as (i & Hi & Er).
  rewrite delete_all_lookup in Hi. case_bool_decide as Hno; [done|].
  apply Hno. rewrite /replaced_ids list_elem_of_omap. exists b. split.
  - apply elem_of_filterb. split; [|done]. apply elem_of_btree_values in Hb as [id Hb].
    rewrite delete_all_lookup in Hb. case_bool_decide; [done|]. apply elem_of_btree_values. eauto.
  - rewrite /replaced_by Hi /=. case_match; [by injection Er as <-|done].
Qed.

Lemma ensure_binding_cases clk id node r :
  let '(b, r') := ensure_local_wattswarm clk id node r in
  r' !! id = Some b ∧ (r' = r ∨ (cb_public_id b = id ∧ r' = <[id := b]> r))
  ∧ ∀ clk', ensure_local_wattswarm clk' id node r' = (b, r').
Proof using Type.
  rewrite /ensure_local_wattswarm. destruct (r !! id) as [b|] eqn:E.
  - rewrite E. split_and!; [done|by left|done].
  - cbn. rewrite lookup_insert_eq. split_and!; [done|by right|done].
Qed.

(** Reconciling a node with the agent it runs always succeeds for a well-formed agent.
    It returns an identity and a binding that are both stored; apart from that identity, no
    default binding is left that names an identity of another agent; and when the identity
    returned is not another agent's, reconciling again returns the same and changes nothing. *)
Theorem reconcile_spec clk did ids bindings :
  well_formed_agent did → identities_inv ids →
  ∃ i b s', reconcile_local_runtime_identity clk did (ids, bindings) = (Ok (i, b), s')
    ∧ s'.1 !! pi_public_id i = Some i ∧ s'.2 !! pi_public_id i = Some b
    ∧ (∀ b', b' ∈ btree_values s'.2 → is_local_default b' = true →
         cb_public_id b' = pi_public_id i ∨ replaced_by did s'.1 b' = None)
    ∧ (from_option (λ d, d = did) True (pi_agent_did i) →
         ∀ clk', reconcile_local_runtime_identity clk' did s' = (Ok (i, b), s')).
Proof.
  intros Hwf Hinv. rewrite /reconcile_local_runtime_identity.
  pose proof (replaced_gone did ids bindings) as Hgone. cbn zeta in Hgone.
  assert (identities_inv (remove_replaced_local_runtime_identities did (ids, bindings)).2.1) as Hinv1.
  { by eapply identity_step_inv; [|apply step_remove]. }
  destruct (remove_replaced_local_runtime_identities did (ids, bindings)) as [n [ids1 bs1]].
  cbn [fst snd] in *.
  destruct (ensure_succeeds clk did ids1 Hwf Hinv1) as (i & ids2 & -> & Hi & Hids & Hagain).
  pose proof (ensure_binding_cases (λ n, clk (S n)) (pi_public_id i) did bs1) as Hbind.
  destruct (ensure_local_wattswarm _ _ _ bs1) as [b bs2]. destruct Hbind as (Hb & Hbs & Hbagain).
  exists i, b, (ids2, bs2). cbn [fst snd].
  assert (∀ b', b' ∈ btree_values bs2 → is_local_default b' = true →
    cb_public_id b' = pi_public_id i ∨ replaced_by did ids2 b' = None) as Hleft.
  { intros b' Hin Hl. destruct (decide (cb_public_id b' = pi_public_id i)) as [?|Hne]; [by left|right].
    assert (replaced_by did ids1 b' = None) as Hr.
    { apply Hgone; [|done]. destruct Hbs as [->|[Hbid ->]]; [done|].
      apply elem_of_btree_values in Hin as [k Hk]. apply elem_of_btree_values.
      apply lookup_insert_Some in Hk as [[_ ->]|[_ Hk]]; [done|by eauto]. }
    destruct Hids as [->|(_ & _ & ->)]; [done|]. rewrite /replaced_by lookup_insert_ne //. }
  split_and!; try done. intros Hbound clk'.
  assert (replaced_ids did ids2 bs2 = []) as Hnone.
  { destruct (replaced_ids did ids2 bs2) as [|k l] eqn:E; [done|]. exfalso.
    assert (k ∈ replaced_ids did ids2 bs2) as Hk by (rewrite E; by left).
    apply list_elem_of_omap in Hk as (b' & [Hin Hl]%elem_of_filterb & Hr).
    destruct (Hleft b' Hin Hl) as [Heq|Hr']; [|by rewrite Hr' in Hr].
    rewrite /replaced_by Heq Hi /= in Hr. destruct (pi_agent_did i) as [d|]; [|done].
    cbn in Hbound, Hr. subst d. by rewrite String.eqb_refl in Hr. }
  rewrite /remove_replaced_local_runtime_identities Hnone. cbn [foldl length].
  rewrite Hagain Hbagain. done.
Qed.
End reconcile.

(** ** A node that changes its agent *)

Module IdentityScenario.
Import Demo.
#[local] Existing Instance HashcashScenario.demo_digest.
#[local] Existing Instance HashcashScenario.demo_digest_laws.
#[local] Existing Instance AdmissionScenario.demo_hex.
#[local] Existing Instance AdmissionScenario.demo_hex_laws.

Definition clk : clock := λ _, 100.
Definition old_agent : string := "did:key:z6MkhaXgBZDvotDkL5257faiztiGiC2QtKLGpbnnEGta2doK".
Definition new_agent : string := "did:key:z6MkpTHR8VNsBxYAAWHut2Geadd9jSwuBV8xRoAnwWsdvktH".
Definition after_old : PublicIdentityRegistry * ControllerBindingRegistry :=
  exec (reconcile_local_runtime_identity clk old_agent) (∅, ∅).
Definition after_new : PublicIdentityRegistry * ControllerBindingRegistry :=
  exec (reconcile_local_runtime_identity clk new_agent) after_old.

(** The identity of the agent that was replaced is gone with its binding. *)
Example replaced :
  (pi_agent_did <$> btree_values after_old.1) = [Some old_agent]
  ∧ (pi_agent_did <$> btree_values after_new.1) = [Some new_agent]
  ∧ length (btree_values after_new.2) = 1%nat.
Proof. split_and!; vm_compute; reflexivity. Qed.

Lemma reconcile_spec_witness :
  ∃ i b s', reconcile_local_runtime_identity clk new_agent (∅, ∅) = (Ok (i, b), s')
    ∧ s'.1 !! pi_public_id i = Some i.
Proof.
  destruct (reconcile_spec clk new_agent ∅ ∅) as (i & b & s' & Hrun & Hi & _).
  - split_and!; vm_compute; reflexivity.
  - apply map_Forall_empty.
  - exists i, b, s'. split; [exact Hrun|exact Hi].
Defined.

Definition ada : string := build_scoped_public_id "ada"
  match fingerprint_from_did_key old_agent with Ok fp => fp | Err _ => "" end.
Definition named : PublicIdentityRegistry := exec (upsert clk ada "  Ada  " (Some old_agent) true) ∅.

Lemma identities_certified_witness :
  from_option pi_display_name "" (named !! ada) = "Ada"%string
  ∧ verify_public_id_ownership ada old_agent = Ok true.
Proof.
  split; [vm_compute; reflexivity|].
  destruct (named !! ada) as [i|] eqn:E; [|vm_compute in E; discriminate E].
  destruct (identities_certified named ada i) as (_ & _ & Hown).
  - eapply rtc_l; [apply (step_upsert ∅ clk ada "  Ada  " (Some old_agent) true)|]. apply rtc_refl.
  - exact E.
  - apply Hown. vm_compute in E. injection E as <-. vm_compute. reflexivity.
Defined.
End IdentityScenario.
