(* ===== verification/Governance.v ===== *)
(** * Subnet governance

    [governance/constitution.rs] and [governance/engine.rs]: civic licenses,
    sovereignty bonds, planets (subnets) with their treasury, stability and
    government, proposals with their votes, validator heartbeats. *)

From S2P Require Import Prelude Collections Text Json Signing.
#[local] Open Scope Z_scope.

(** ** Constitution *)

Inductive SovereigntyMode := FrontierClaim | Auction | Election.
Inductive VotingChamber := Capital | Citizen | Reputation.
Inductive TaxMode := Flat | Progressive | TradeTax | Land.
Inductive SecurityPolicy := PeaceZone | LimitedPvp | OpenPvp.
Inductive AccessPolicy := OpenAccess | InviteOnly | Bonded.
Inductive PlanetConstitutionTemplate := CorporateCharter | MigrantCouncil | FrontierCompact.

Record PlanetConstitution := mkConstitution {
  template : PlanetConstitutionTemplate;
  sovereignty_mode : SovereigntyMode;
  voting_chambers : list VotingChamber;
  tax_modes : list TaxMode;
  security_policy : SecurityPolicy;
  access_policy : AccessPolicy;
}.

Definition from_template (t : PlanetConstitutionTemplate) : PlanetConstitution :=
  match t with
  | CorporateCharter =>
      {| template := t; sovereignty_mode := Auction;
         voting_chambers := [Capital; Reputation]; tax_modes := [TradeTax; Flat];
         security_policy := LimitedPvp; access_policy := Bonded |}
  | MigrantCouncil =>
      {| template := t; sovereignty_mode := Election;
         voting_chambers := [Citizen; Reputation]; tax_modes := [Progressive; TradeTax];
         security_policy := PeaceZone; access_policy := OpenAccess |}
  | FrontierCompact =>
      {| template := t; sovereignty_mode := FrontierClaim;
         voting_chambers := [Capital]; tax_modes := [Flat; Land];
         security_policy := OpenPvp; access_policy := InviteOnly |}
  end.

(** ** Data *)

Record CivicLicense := mkCivicLicense {
  lic_agent_did : string;
  lic_issued_at : Z;
  lic_expires_at : Z;
  lic_issued_by : string;
  lic_proof_event_hash : string;
}.

Record SovereigntyBond := mkSovereigntyBond {
  bond_agent_did : string;
  bond_amount_watt : Z;
  bond_locked_until : Z;
  bond_active : bool;
}.

Record GenesisApproval := mkGenesisApproval {
  signer_agent_did : string;
  signature : string;
}.

Inductive GovernmentStatus := Active | Recall | Custody.
#[global] Instance GovernmentStatus_eq_dec : EqDecision GovernmentStatus.
Proof. solve_decision. Defined.

Record RecallProcess := mkRecallProcess {
  initiated_by : string;
  recall_reason : string;
  started_at : Z;
  threshold : Z;
}.

Record CustodyPeriod := mkCustodyPeriod {
  managed_by : option string;
  custody_reason : string;
  entered_at : Z;
}.

Record SubnetPlanet := mkSubnetPlanet {
  subnet_id : string;
  name : string;
  creator : string;
  tax_rate : f64;
  created_at : Z;
  constitution : PlanetConstitution;
  treasury_watt : Z;
  stability : Z;
  government_status : GovernmentStatus;
  active_recall : option RecallProcess;
  custody : option CustodyPeriod;
  last_takeover_by : option string;
  validators : gset string;
  relays : gset string;
  archivists : gset string;
}.
#[global] Instance eta_SubnetPlanet : Eta SubnetPlanet := λ p,
  mkSubnetPlanet (subnet_id p) (name p) (creator p) (tax_rate p) (created_at p)
    (constitution p) (treasury_watt p) (stability p) (government_status p)
    (active_recall p) (custody p) (last_takeover_by p) (validators p) (relays p)
    (archivists p).

Inductive ProposalStatus := Open | Accepted | Rejected.
#[global] Instance ProposalStatus_eq_dec : EqDecision ProposalStatus.
Proof. solve_decision. Defined.

Record GovernanceProposal := mkGovernanceProposal {
  proposal_id : string;
  prop_subnet_id : string;
  kind : string;
  payload : json;
  created_by : string;
  prop_created_at : Z;
  votes_for : gset string;
  votes_against : gset string;
  status : ProposalStatus;
}.
#[global] Instance eta_GovernanceProposal : Eta GovernanceProposal := λ p,
  mkGovernanceProposal (proposal_id p) (prop_subnet_id p) (kind p) (payload p)
    (created_by p) (prop_created_at p) (votes_for p) (votes_against p) (status p).

Record PlanetCreationRequest := mkPlanetCreationRequest {
  req_subnet_id : string;
  req_name : string;
  req_creator : string;
  req_created_at : Z;
  req_tax_rate : f64;
  req_constitution_template : PlanetConstitutionTemplate;
  req_min_bond : Z;
  req_min_approvals : nat;
}.

Record GovernanceEngine := mkGovernanceEngine {
  licenses : gmap string CivicLicense;
  bonds : gmap string SovereigntyBond;
  planets : gmap string SubnetPlanet;
  proposals : gmap string GovernanceProposal;
  validator_heartbeats : gmap string (gmap string Z);
}.
#[global] Instance eta_GovernanceEngine : Eta GovernanceEngine := λ e,
  mkGovernanceEngine (licenses e) (bonds e) (planets e) (proposals e)
    (validator_heartbeats e).

Definition default_engine : GovernanceEngine := mkGovernanceEngine ∅ ∅ ∅ ∅ ∅.

(** ** Operations *)

Definition get_planet (id err : string) : stm GovernanceEngine SubnetPlanet :=
  ps ← gets planets; lift (ok_or err (ps !! id)).
Definition put_planet (id : string) (p : SubnetPlanet) : stm GovernanceEngine unit :=
  modify (λ st, st <| planets ::= <[id := p]> |>).
Definition get_proposal (id : string) : stm GovernanceEngine GovernanceProposal :=
  ps ← gets proposals; lift (ok_or "proposal not found" (ps !! id)).
Definition put_proposal (id : string) (p : GovernanceProposal) : stm GovernanceEngine unit :=
  modify (λ st, st <| proposals ::= <[id := p]> |>).

Definition issue_license (clk : clock) (agent_did issuer proof_event_hash : string)
    (ttl_days : Z) : stm GovernanceEngine CivicLicense :=
  let now := clk 0%nat in
  let license :=
    {| lic_agent_did := agent_did;
       lic_issued_at := now;
       lic_expires_at := i64_add now (i64_mul (i64_mul ttl_days 24) 3600);
       lic_issued_by := issuer;
       lic_proof_event_hash := proof_event_hash |} in
  modify (λ st, st <| licenses ::= <[agent_did := license]> |>);;
  mret license.

Definition lock_bond (clk : clock) (agent_did : string) (amount_watt lock_days : Z)
    : stm GovernanceEngine SovereigntyBond :=
  let now := clk 0%nat in
  let bond :=
    {| bond_agent_did := agent_did;
       bond_amount_watt := amount_watt;
       bond_locked_until := i64_add now (i64_mul (i64_mul lock_days 24) 3600);
       bond_active := true |} in
  modify (λ st, st <| bonds ::= <[agent_did := bond]> |>);;
  mret bond.

Definition has_valid_license (now : Z) (st : GovernanceEngine) (agent_did : string) : bool :=
  match licenses st !! agent_did with
  | Some license => now <=? lic_expires_at license
  | None => false
  end.

Definition has_active_bond (now : Z) (st : GovernanceEngine) (agent_did : string)
    (min_amount : Z) : bool :=
  match bonds st !! agent_did with
  | Some bond =>
      bond_active bond && (min_amount <=? bond_amount_watt bond)
        && (now <=? bond_locked_until bond)
  | None => false
  end.

Definition planet (st : GovernanceEngine) (id : string) : option SubnetPlanet :=
  planets st !! id.
Definition list_planets (st : GovernanceEngine) : list SubnetPlanet :=
  btree_values (planets st).

Definition proposal_leb (a b : GovernanceProposal) : bool :=
  (prop_created_at a <? prop_created_at b)
  || ((prop_created_at a =? prop_created_at b) && str_leb (proposal_id a) (proposal_id b)).

Definition list_proposals (st : GovernanceEngine) (subnet_filter : option string)
    : list GovernanceProposal :=
  sort_by proposal_leb
    (List.filter (λ p, is_none_or (String.eqb (prop_subnet_id p)) subnet_filter)
       (btree_values (proposals st))).

Section crypto.
Context `{Crypto}.

Definition genesis_payload (subnet_id name creator : string) (created_at : Z) : json :=
  JObject [("subnet_id", JString subnet_id); ("name", JString name);
           ("creator", JString creator); ("created_at", json_of_Z created_at)].

Definition sign_genesis_with_signer (subnet_id name creator : string) (created_at : Z)
    (agent_did : string) (signer : PayloadSigner) : result GenesisApproval :=
  sig ← sign_payload_with (genesis_payload subnet_id name creator created_at) signer;
  Ok {| signer_agent_did := agent_did; signature := sig |}.

(** Every approval must sign the same genesis payload. *)
Fixpoint verify_approvals (payload : json) (approvals : list GenesisApproval)
    : result unit :=
  match approvals with
  | [] => Ok tt
  | a :: rest =>
      ok ← with_context "verify genesis approval"
             (verify_payload payload (signature a) (signer_agent_did a));
      if negb ok then Err "invalid genesis signature" else verify_approvals payload rest
  end.

Definition unique_signers (approvals : list GenesisApproval) : gset string :=
  list_to_set (signer_agent_did <$> approvals).

Definition new_planet (r : PlanetCreationRequest) (signers : gset string) : SubnetPlanet :=
  {| subnet_id := req_subnet_id r;
     name := req_name r;
     creator := req_creator r;
     tax_rate := req_tax_rate r;
     created_at := req_created_at r;
     constitution := from_template (req_constitution_template r);
     treasury_watt := 0;
     stability := 75;
     government_status := Active;
     active_recall := None;
     custody := None;
     last_takeover_by := None;
     validators := signers;
     relays := {[ req_creator r ]};
     archivists := signers |}.

Definition create_planet (clk : clock) (r : PlanetCreationRequest)
    (approvals : list GenesisApproval) : stm GovernanceEngine SubnetPlanet :=
  st ← gets id;
  ensure (bool_decide (planets st !! req_subnet_id r = None)) "subnet already exists";;
  ensure (has_valid_license (clk 0%nat) st (req_creator r))
    "creator missing valid civic license";;
  ensure (has_active_bond (clk 1%nat) st (req_creator r) (req_min_bond r))
    "creator missing active sovereignty bond";;
  let signers := unique_signers approvals in
  ensure (req_min_approvals r <=? size signers)%nat "not enough unique genesis approvals";;
  lift (verify_approvals
          (genesis_payload (req_subnet_id r) (req_name r) (req_creator r) (req_created_at r))
          approvals);;
  let planet := new_planet r signers in
  put_planet (req_subnet_id r) planet;;
  mret planet.
End crypto.

Definition create_proposal (clk : clock) (uuid subnet_id kind : string) (payload : json)
    (created_by : string) : stm GovernanceEngine GovernanceProposal :=
  planet ← get_planet subnet_id "subnet not found for proposal";
  ensure (bool_decide (created_by ∈ validators planet) || String.eqb (creator planet) created_by)
    "creator is not allowed to open proposal";;
  let proposal :=
    {| proposal_id := uuid; prop_subnet_id := subnet_id; kind := kind; payload := payload;
       created_by := created_by; prop_created_at := clk 0%nat;
       votes_for := ∅; votes_against := ∅; status := Open |} in
  put_proposal uuid proposal;;
  mret proposal.

Definition vote_proposal (proposal_id voter : string) (approve : bool)
    : stm GovernanceEngine unit :=
  proposal ← get_proposal proposal_id;
  ensure (bool_decide (status proposal = Open)) "proposal is already finalized";;
  planet ← get_planet (prop_subnet_id proposal) "proposal subnet missing";
  ensure (bool_decide (voter ∈ validators planet)) "voter is not a validator";;
  let proposal := proposal <| votes_for ::= (.∖ {[ voter ]}) |>
                           <| votes_against ::= (.∖ {[ voter ]}) |> in
  put_proposal proposal_id
    (if approve then proposal <| votes_for ::= ({[ voter ]} ∪.) |>
     else proposal <| votes_against ::= ({[ voter ]} ∪.) |>).

Definition apply_proposal_effects (subnet_id kind : string) (payload : json)
    : stm GovernanceEngine unit :=
  if String.eqb kind "update_tax_rate" then
    rate ← lift (ok_or "proposal tax_rate must be f64"
                   (as_f64 (json_index payload "tax_rate")));
    planet ← get_planet subnet_id "proposal target subnet missing";
    put_planet subnet_id (planet <| tax_rate := rate |>)
  else mret tt.

(** The acceptance rule. *)
Definition passes (min_votes_for : nat) (p : GovernanceProposal) : bool :=
  ((min_votes_for <=? size (votes_for p)) && (size (votes_against p) <? size (votes_for p)))%nat.

Definition finalize_proposal (proposal_id : string) (min_votes_for : nat)
    : stm GovernanceEngine GovernanceProposal :=
  proposal ← get_proposal proposal_id;
  if bool_decide (status proposal = Open) then
    if passes min_votes_for proposal then
      let snapshot := proposal <| status := Accepted |> in
      put_proposal proposal_id snapshot;;
      apply_proposal_effects (prop_subnet_id snapshot) (kind snapshot) (payload snapshot);;
      mret snapshot
    else
      let snapshot := proposal <| status := Rejected |> in
      put_proposal proposal_id snapshot;;
      mret snapshot
  else mret proposal.

Definition record_validator_heartbeat (subnet_id validator : string) (ts : Z)
    : stm GovernanceEngine unit :=
  modify (λ st, st <| validator_heartbeats ::=
    <[subnet_id := <[validator := ts]> (default ∅ (validator_heartbeats st !! subnet_id))]> |>).

Fixpoint fill_validators (pool : list string) (vs : gset string) : gset string :=
  match pool with
  | [] => vs
  | candidate :: rest =>
      let vs := if bool_decide (vs = ∅) || bool_decide (candidate ∉ vs)
                then {[ candidate ]} ∪ vs else vs in
      if (3 <=? size vs)%nat then vs else fill_validators rest vs
  end.

Definition heartbeat_fresh (now stale_after_sec : Z) (hb : gmap string Z) (v : string) : bool :=
  match hb !! v with
  | Some ts => i64_sub now ts <=? stale_after_sec
  | None => false
  end.

Definition rotate_validators (clk : clock) (subnet_id : string) (stale_after_sec : Z)
    (candidate_pool : list string) : stm GovernanceEngine (list string) :=
  let now := clk 0%nat in
  hbs ← gets validator_heartbeats;
  let heartbeat_map := default ∅ (hbs !! subnet_id) in
  modify (λ st, st <| validator_heartbeats ::= <[subnet_id := heartbeat_map]> |>);;
  planet ← get_planet subnet_id "subnet not found for rotation";
  let kept := base.filter (λ v, heartbeat_fresh now stale_after_sec heartbeat_map v = true)
                (validators planet) in
  let planet := planet <| validators := fill_validators candidate_pool kept |> in
  put_planet subnet_id planet;;
  mret (btree_set_list (validators planet)).

Definition fund_treasury (subnet_id : string) (amount_watt : Z)
    : stm GovernanceEngine SubnetPlanet :=
  ensure (0 <? amount_watt) "treasury funding amount must be positive";;
  planet ← get_planet subnet_id "subnet not found for treasury funding";
  let planet := planet <| treasury_watt := i64_add (treasury_watt planet) amount_watt |>
                       <| stability := Z.min (i64_add (stability planet) 2) 100 |> in
  put_planet subnet_id planet;;
  mret planet.

Definition spend_treasury (subnet_id : string) (amount_watt : Z)
    : stm GovernanceEngine SubnetPlanet :=
  ensure (0 <? amount_watt) "treasury spend amount must be positive";;
  planet ← get_planet subnet_id "subnet not found for treasury spend";
  ensure (amount_watt <=? treasury_watt planet) "treasury balance too low";;
  let planet := planet <| treasury_watt := i64_sub (treasury_watt planet) amount_watt |> in
  put_planet subnet_id planet;;
  mret planet.

Definition adjust_stability (subnet_id : string) (delta : Z)
    : stm GovernanceEngine SubnetPlanet :=
  planet ← get_planet subnet_id "subnet not found for stability adjustment";
  let planet := planet <| stability := clamp 0 100 (i64_add (stability planet) delta) |> in
  put_planet subnet_id planet;;
  mret planet.

Definition recall_eligible (st : GovernanceEngine) (subnet_id : string) (threshold : Z) : bool :=
  match planets st !! subnet_id with
  | Some planet => stability planet <=? threshold
  | None => false
  end.

Definition start_recall (clk : clock) (subnet_id initiated_by reason : string) (threshold : Z)
    : stm GovernanceEngine SubnetPlanet :=
  planet ← get_planet subnet_id "subnet not found for recall";
  ensure (stability planet <=? threshold) "planet stability is above recall threshold";;
  ensure (String.eqb initiated_by (creator planet)
          || bool_decide (initiated_by ∈ validators planet)) "initiator cannot open recall";;
  let planet := planet <| government_status := Recall |>
                       <| active_recall := Some {| initiated_by := initiated_by;
                            recall_reason := reason; started_at := clk 0%nat;
                            threshold := threshold |} |> in
  put_planet subnet_id planet;;
  mret planet.

(** The license and bond gates of a new sovereign. *)
Definition sovereign_gate (clk : clock) (who did : string) (min_bond : Z)
    : stm GovernanceEngine unit :=
  st ← gets id;
  ensure (has_valid_license (clk 0%nat) st did) (who +:+ " missing valid civic license");;
  ensure (has_active_bond (clk 1%nat) st did min_bond)
    (who +:+ " missing active sovereignty bond").

Definition resolve_recall (clk : clock) (subnet_id successor : string) (min_bond : Z)
    : stm GovernanceEngine SubnetPlanet :=
  sovereign_gate clk "successor" successor min_bond;;
  planet ← get_planet subnet_id "subnet not found for recall resolution";
  ensure (bool_decide (government_status planet = Recall)) "planet is not in recall";;
  let planet := planet <| creator := successor |>
                       <| validators ::= ({[ successor ]} ∪.) |>
                       <| relays ::= ({[ successor ]} ∪.) |>
                       <| government_status := Active |>
                       <| active_recall := None |>
                       <| stability := clamp 0 100 (i64_add (stability planet) 25) |> in
  put_planet subnet_id planet;;
  mret planet.

Definition enter_custody (clk : clock) (subnet_id reason : string) (managed_by : option string)
    : stm GovernanceEngine SubnetPlanet :=
  planet ← get_planet subnet_id "subnet not found for custody";
  let planet := planet <| government_status := Custody |>
                       <| custody := Some {| managed_by := managed_by; custody_reason := reason;
                                             entered_at := clk 0%nat |} |>
                       <| active_recall := None |>
                       <| stability := Z.min (stability planet) 25 |> in
  put_planet subnet_id planet;;
  mret planet.

Definition release_custody (clk : clock) (subnet_id : string) (successor : option string)
    (min_bond : Z) : stm GovernanceEngine SubnetPlanet :=
  match successor with
  | Some did => sovereign_gate clk "successor" did min_bond
  | None => mret tt
  end;;
  planet ← get_planet subnet_id "subnet not found for custody release";
  ensure (bool_decide (government_status planet = Custody)) "planet is not in custody";;
  let planet := match successor with
                | Some did => planet <| creator := did |>
                                     <| validators ::= ({[ did ]} ∪.) |>
                                     <| relays ::= ({[ did ]} ∪.) |>
                | None => planet
                end in
  let planet := planet <| government_status := Active |>
                       <| custody := None |>
                       <| stability := Z.max (stability planet) 50 |> in
  put_planet subnet_id planet;;
  mret planet.

Definition hostile_takeover (clk : clock) (subnet_id challenger : string) (min_bond : Z)
    (reason : string) : stm GovernanceEngine SubnetPlanet :=
  sovereign_gate clk "challenger" challenger min_bond;;
  planet ← get_planet subnet_id "subnet not found for hostile takeover";
  ensure (bool_decide (government_status planet = Custody) || (stability planet <=? 20))
    "planet is not vulnerable to hostile takeover";;
  let planet := planet <| creator := challenger |>
                       <| validators ::= ({[ challenger ]} ∪.) |>
                       <| relays ::= ({[ challenger ]} ∪.) |>
                       <| government_status := Active |>
                       <| active_recall := None |>
                       <| custody := None |>
                       <| last_takeover_by := Some (challenger +:+ ":" +:+ reason) |>
                       <| stability := 40 |> in
  put_planet subnet_id planet;;
  mret planet.

(** ** Transitions

    One step of the engine runs any operation, whatever its outcome: an
    operation that fails still leaves the state it reached. A proposal id is a
    fresh version-4 UUID. *)

Section steps.
Context `{Crypto}.

Inductive gov_step (st : GovernanceEngine) : GovernanceEngine → Prop :=
  | step_issue_license clk did issuer hash days :
      gov_step st (exec (issue_license clk did issuer hash days) st)
  | step_lock_bond clk did amount days :
      gov_step st (exec (lock_bond clk did amount days) st)
  | step_create_planet clk r approvals :
      gov_step st (exec (create_planet clk r approvals) st)
  | step_create_proposal clk uuid sid k pl by_ :
      proposals st !! uuid = None →
      gov_step st (exec (create_proposal clk uuid sid k pl by_) st)
  | step_vote pid voter approve :
      gov_step st (exec (vote_proposal pid voter approve) st)
  | step_finalize pid min_votes :
      gov_step st (exec (finalize_proposal pid min_votes) st)
  | step_heartbeat sid v ts :
      gov_step st (exec (record_validator_heartbeat sid v ts) st)
  | step_rotate clk sid stale pool :
      gov_step st (exec (rotate_validators clk sid stale pool) st)
  | step_fund sid amount : gov_step st (exec (fund_treasury sid amount) st)
  | step_spend sid amount : gov_step st (exec (spend_treasury sid amount) st)
  | step_adjust sid delta : gov_step st (exec (adjust_stability sid delta) st)
  | step_start_recall clk sid by_ why t :
      gov_step st (exec (start_recall clk sid by_ why t) st)
  | step_resolve_recall clk sid succ bond :
      gov_step st (exec (resolve_recall clk sid succ bond) st)
  | step_enter_custody clk sid why who :
      gov_step st (exec (enter_custody clk sid why who) st)
  | step_release_custody clk sid succ bond :
      gov_step st (exec (release_custody clk sid succ bond) st)
  | step_hostile_takeover clk sid who bond why :
      gov_step st (exec (hostile_takeover clk sid who bond why) st).

Definition gov_reachable : GovernanceEngine → Prop := rtc gov_step default_engine.
End steps.

(** ** The invariant *)

Definition planet_ok (id : string) (p : SubnetPlanet) : Prop :=
  subnet_id p = id
  ∧ 0 ≤ stability p ≤ 100
  ∧ (is_Some (active_recall p) ↔ government_status p = Recall)
  ∧ (government_status p = Custody → is_Some (custody p))
  ∧ creator p ∈ relays p.

Definition proposal_ok (id : string) (p : GovernanceProposal) : Prop :=
  proposal_id p = id ∧ votes_for p ## votes_against p.

Definition gov_inv (st : GovernanceEngine) : Prop :=
  map_Forall planet_ok (planets st) ∧ map_Forall proposal_ok (proposals st).

(** Runs an operation of the engine: one goal per control-flow path. *)
Ltac gov_run :=
  rewrite /exec /outcome /get_planet /put_planet /get_proposal /put_proposal /sovereign_gate;
  stm_cases.

Lemma gov_inv_put_planet st id p p' :
  gov_inv st → planets st !! id = Some p → (planet_ok id p → planet_ok id p') →
  gov_inv (st <| planets ::= <[id := p']> |>).
Proof.
  intros [Hp Hr] Hid Hok. split; [|done]. apply map_Forall_insert_2; [|done].
  apply Hok. by apply Hp.
Qed.

Lemma gov_inv_put_proposal st id p' :
  gov_inv st → proposal_ok id p' → gov_inv (st <| proposals ::= <[id := p']> |>).
Proof. intros [Hp Hr] Hok. split; [done|]. by apply map_Forall_insert_2. Qed.

Lemma gov_inv_proposal st id p : gov_inv st → proposals st !! id = Some p → proposal_ok id p.
Proof. intros [_ Hr] Hid. by apply Hr. Qed.

#[local] Hint Resolve gov_inv_put_planet gov_inv_put_proposal gov_inv_proposal : watt.

(** Closes a [planet_ok] goal after an update of the planet. *)
Ltac solve_planet_ok :=
  bool_to_prop; rewrite /planet_ok /clamp /i64_add /i64_sub /=;
  intros (? & ? & ? & ? & ?);
  repeat match goal with |- context [wrap_i64 (?s + Zpos ?n)] =>
    rewrite (wrap_i64_id (s + Zpos n)); [|rewrite /is_i64 /i64_min /i64_max; lia] end;
  repeat split; first [lia | set_solver | naive_solver | intuition congruence].

(** An operation that only rewrites one planet. *)
Ltac planet_update :=
  gov_run; try done; (eapply gov_inv_put_planet; [done|done|]); solve_planet_ok.

Section invariant.
Context `{Crypto}.
Implicit Types st : GovernanceEngine.

Lemma create_planet_inv clk r approvals st :
  gov_inv st → gov_inv (exec (create_planet clk r approvals) st).
Proof.
  intros Hinv. rewrite /create_planet. gov_run; try done.
  destruct Hinv as [Hp Hr]. split; [|done]. apply map_Forall_insert_2; [|done].
  repeat split; simpl; try (lia || set_solver || naive_solver).
Qed.

Lemma vote_proposal_inv pid voter approve st :
  gov_inv st → gov_inv (exec (vote_proposal pid voter approve) st).
Proof.
  intros Hinv. rewrite /vote_proposal. gov_run; try done;
    (apply gov_inv_put_proposal; [done|]);
    edestruct gov_inv_proposal as [? ?]; try done; split; simpl; set_solver.
Qed.

Lemma finalize_proposal_inv pid n st :
  gov_inv st → gov_inv (exec (finalize_proposal pid n) st).
Proof.
  intros Hinv. rewrite /finalize_proposal /apply_proposal_effects. gov_run; try done;
    try (eapply gov_inv_put_planet; [|done|by intros ?]);
    (apply gov_inv_put_proposal; [done|]);
    match goal with Hp : proposals _ !! _ = Some ?a |- _ =>
      exact (gov_inv_proposal _ _ a Hinv Hp)
    end.
Qed.

Lemma gov_step_inv st st' : gov_inv st → gov_step st st' → gov_inv st'.
Proof.
  intros Hinv Hstep. destruct Hstep;
    [done|done|by apply create_planet_inv| |by apply vote_proposal_inv
    |by apply finalize_proposal_inv|done|..].
  - rewrite /create_proposal. gov_run; try done. apply gov_inv_put_proposal; [done|].
    split; simpl; set_solver.
  - rewrite /rotate_validators. planet_update.
  - rewrite /fund_treasury. planet_update.
  - rewrite /spend_treasury. planet_update.
  - rewrite /adjust_stability. planet_update.
  - rewrite /start_recall. planet_update.
  - rewrite /resolve_recall. planet_update.
  - rewrite /enter_custody. planet_update.
  - rewrite /release_custody. planet_update.
  - rewrite /hostile_takeover. planet_update.
Qed.
End invariant.

(** ** The government of a planet as an abstract state machine

    What may happen to the sovereign and the government of one planet. A new
    sovereign always comes with a valid license and an active bond. *)

Definition sovereign_entitled (st : GovernanceEngine) (did : string) : Prop :=
  ∃ t0 t1 min_bond, has_valid_license t0 st did = true ∧ has_active_bond t1 st did min_bond = true.

Inductive government_move (st : GovernanceEngine) (p p' : SubnetPlanet) : Prop :=
  | move_keep :
      creator p' = creator p → government_status p' = government_status p →
      government_move st p p'
  | move_open_recall :
      creator p' = creator p → government_status p' = Recall →
      (∃ r, active_recall p' = Some r ∧ stability p ≤ threshold r
            ∧ (initiated_by r = creator p ∨ initiated_by r ∈ validators p)) →
      government_move st p p'
  | move_resolve_recall :
      government_status p = Recall → government_status p' = Active →
      sovereign_entitled st (creator p') → government_move st p p'
  | move_enter_custody :
      creator p' = creator p → government_status p' = Custody → stability p' ≤ 25 →
      government_move st p p'
  | move_release_custody :
      government_status p = Custody → government_status p' = Active → 50 ≤ stability p' →
      (creator p' = creator p ∨ sovereign_entitled st (creator p')) →
      government_move st p p'
  | move_takeover :
      (government_status p = Custody ∨ stability p ≤ 20) → government_status p' = Active →
      sovereign_entitled st (creator p') → government_move st p p'.

Lemma government_move_refl st p : government_move st p p.
Proof. by apply move_keep. Qed.

Lemma put_planet_move (st st0 : GovernanceEngine) id sid p q q' :
  planets st = planets st0 →
  planets st0 !! id = Some p → planets st0 !! sid = Some q →
  government_move st0 q q' →
  ∃ p', planets (st <| planets ::= <[sid := q']> |>) !! id = Some p' ∧ government_move st0 p p'.
Proof.
  intros Heq Hp Hq Hm. simpl. rewrite Heq. destruct (decide (sid = id)) as [->|Hne].
  - exists q'. rewrite lookup_insert_eq. simplify_eq. eauto.
  - exists p. rewrite lookup_insert_ne //. eauto using government_move_refl.
Qed.

(** An operation that rewrites one planet, as a move of that planet. *)
Ltac planet_move tac :=
  gov_run; bool_to_prop; eauto using government_move_refl;
  (eapply put_planet_move; [done|done|done|]); tac.

Section refinement.
Context `{Crypto}.

End refinement.

(** ** Creation of planets *)

Section creation.
Context `{Crypto}.

Lemma verify_approvals_ok payload approvals :
  verify_approvals payload approvals = Ok tt ↔
  ∀ a, a ∈ approvals →
    verify_payload payload (signature a) (signer_agent_did a) = Ok true.
Proof.
  induction approvals as [|a l IH]; simpl; [set_solver|].
  destruct (verify_payload payload (signature a) (signer_agent_did a)) as [[]|] eqn:E; simpl.
  - rewrite IH. set_solver.
  - split; [done|]. intros Ha. rewrite Ha in E; [done|set_solver].
  - split; [done|]. intros Ha. rewrite Ha in E; [done|set_solver].
Qed.

(** [create_planet] succeeds exactly when the subnet id is new, the creator
    holds a valid license and a sufficient active bond, the approvals come
    from at least [min_approvals] distinct signers and every one of them
    verifies against the genesis payload of the request; it then stores the
    planet whose validators are those signers. *)
Theorem create_planet_spec clk r approvals st p st' :
  create_planet clk r approvals st = (Ok p, st') ↔
  planets st !! req_subnet_id r = None
  ∧ has_valid_license (clk 0%nat) st (req_creator r) = true
  ∧ has_active_bond (clk 1%nat) st (req_creator r) (req_min_bond r) = true
  ∧ (req_min_approvals r ≤ size (unique_signers approvals))%nat
  ∧ (∀ a, a ∈ approvals →
       verify_payload (genesis_payload (req_subnet_id r) (req_name r) (req_creator r)
                         (req_created_at r)) (signature a) (signer_agent_did a) = Ok true)
  ∧ p = new_planet r (unique_signers approvals)
  ∧ st' = st <| planets ::= <[req_subnet_id r := p]> |>.
Proof.
  rewrite -verify_approvals_ok. split.
  - intros Hrun. rewrite /create_planet /put_planet in Hrun. run_inv. bool_to_prop.
    repeat match goal with u : unit |- _ => destruct u end. by split_and!.
  - intros (H1 & H2 & H3 & H4 & H5 & -> & ->). rewrite /create_planet.
    apply Nat.leb_le in H4. cbv [mbind stm_bind gets ensure lift id].
    by rewrite bool_decide_eq_true_2 // H2 H3 H4 H5.
Qed.
End creation.

(** ** Votes and proposals *)

(** A successful vote needs an open proposal of a known subnet and a
    voter among that subnet's validators; it moves the voter to exactly the
    chosen side, whatever it voted before, leaves every other vote as it was
    and changes nothing else. *)
Theorem vote_proposal_spec pid voter approve st st' u :
  vote_proposal pid voter approve st = (Ok u, st') →
  ∃ pr pr' p,
    proposals st !! pid = Some pr ∧ status pr = Open
    ∧ planets st !! prop_subnet_id pr = Some p ∧ voter ∈ validators p
    ∧ st' = st <| proposals ::= <[pid := pr']> |>
    ∧ (voter ∈ votes_for pr' ↔ approve = true)
    ∧ (voter ∈ votes_against pr' ↔ approve = false)
    ∧ (∀ v, v ≠ voter → (v ∈ votes_for pr' ↔ v ∈ votes_for pr)
                        ∧ (v ∈ votes_against pr' ↔ v ∈ votes_against pr))
    ∧ status pr' = Open ∧ payload pr' = payload pr ∧ kind pr' = kind pr.
Proof.
  intros Hrun. rewrite /vote_proposal /get_proposal /get_planet /put_proposal in Hrun.
  run_inv. bool_to_prop. do 3 eexists. do 4 (split; [done|]). split; [done|].
  destruct approve; simpl; set_solver.
Qed.

Section stability.
Context `{Crypto}.

(** A finalized proposal never changes again: no operation alters a
    proposal that is accepted or rejected. *)
Theorem finalized_proposal_stable st st' id pr :
  gov_step st st' → proposals st !! id = Some pr → status pr ≠ Open →
  proposals st' !! id = Some pr.
Proof.
  intros Hstep Hpr Hst. destruct Hstep; try done.
  - rewrite /create_planet. gov_run; done.
  - rewrite /create_proposal. gov_run; try done. rewrite lookup_insert_ne //. congruence.
  - rewrite /vote_proposal. gov_run; try done; bool_to_prop;
      (rewrite lookup_insert_ne; [done|congruence]).
  - rewrite /finalize_proposal /apply_proposal_effects. gov_run; try done; bool_to_prop;
      (rewrite lookup_insert_ne; [done|congruence]).
  - rewrite /rotate_validators. gov_run; done.
  - rewrite /fund_treasury. gov_run; done.
  - rewrite /spend_treasury. gov_run; done.
  - rewrite /adjust_stability. gov_run; done.
  - rewrite /start_recall. gov_run; done.
  - rewrite /resolve_recall. gov_run; done.
  - rewrite /enter_custody. gov_run; done.
  - rewrite /release_custody. gov_run; done.
  - rewrite /hostile_takeover. gov_run; done.
Qed.
End stability.

(** An open proposal that passes is marked accepted even when its effect
    cannot be applied: an [update_tax_rate] proposal without a numeric
    [tax_rate] makes [finalize_proposal] fail, leaves every planet unchanged
    and the proposal accepted, and finalizing it again reports success. *)
Theorem finalize_accepts_before_effects st pid n pr :
  proposals st !! pid = Some pr → status pr = Open → passes n pr = true →
  kind pr = "update_tax_rate" → as_f64 (json_index (payload pr) "tax_rate") = None →
  let pr' := pr <| status := Accepted |> in
  let st' := exec (finalize_proposal pid n) st in
  outcome (finalize_proposal pid n) st = Err "proposal tax_rate must be f64"
  ∧ planets st' = planets st
  ∧ proposals st' !! pid = Some pr'
  ∧ ∀ m, finalize_proposal pid m st' = (Ok pr', st').
Proof.
  intros Hpr Hst Hpass Hk Hrate. simpl.
  assert (finalize_proposal pid n st =
    (Err "proposal tax_rate must be f64",
     st <| proposals ::= <[pid := pr <| status := Accepted |>]> |>)) as Hrun.
  { rewrite /finalize_proposal /apply_proposal_effects /get_proposal /put_proposal.
    cbv [mbind stm_bind gets lift ok_or modify]. rewrite Hpr bool_decide_eq_true_2 //= Hpass.
    by rewrite Hk /= Hrate. }
  rewrite /outcome /exec Hrun /=. split_and!; [done|done|by rewrite lookup_insert_eq|].
  intros m. rewrite /finalize_proposal /get_proposal.
  cbv [mbind stm_bind gets lift ok_or]. by rewrite /= lookup_insert_eq.
Qed.

(** ** Treasury *)

Inductive treasury_op := Fund (amount : Z) | Spend (amount : Z).

Definition run_treasury_op (id : string) (o : treasury_op) : stm GovernanceEngine SubnetPlanet :=
  match o with Fund a => fund_treasury id a | Spend a => spend_treasury id a end.

Fixpoint run_treasury (id : string) (ops : list treasury_op) (st : GovernanceEngine)
    : list bool * GovernanceEngine :=
  match ops with
  | [] => ([], st)
  | o :: ops =>
      let (r, st1) := run_treasury_op id o st in
      let (rs, st2) := run_treasury id ops st1 in
      (is_ok r :: rs, st2)
  end.

(** The abstract ledger: a non-negative balance, credits and covered debits. *)
Definition ledger_op (o : treasury_op) (balance : Z) : bool * Z :=
  match o with
  | Fund a => if 0 <? a then (true, balance + a) else (false, balance)
  | Spend a => if (0 <? a) && (a <=? balance) then (true, balance - a) else (false, balance)
  end.

Fixpoint run_ledger (ops : list treasury_op) (balance : Z) : list bool * Z :=
  match ops with
  | [] => ([], balance)
  | o :: ops =>
      let (r, b1) := ledger_op o balance in
      let (rs, b2) := run_ledger ops b1 in (r :: rs, b2)
  end.

Definition credits (ops : list treasury_op) : Z :=
  zsum ((λ o, match o with Fund a => Z.max 0 a | Spend _ => 0 end) <$> ops).

Lemma credits_nonneg ops : 0 ≤ credits ops.
Proof.
  rewrite /credits. induction ops as [|o ops IH]; [done|].
  rewrite fmap_cons. cbn. destruct o; unfold zsum in *; lia.
Qed.

Lemma run_treasury_op_spec id o st p :
  planets st !! id = Some p →
  0 ≤ treasury_watt p → treasury_watt p + credits [o] ≤ i64_max →
  ∃ r st' p',
    run_treasury_op id o st = (r, st') ∧ planets st' !! id = Some p'
    ∧ (is_ok r, treasury_watt p') = ledger_op o (treasury_watt p).
Proof.
  rewrite /credits /zsum /=. intros Hp H0 Hmax. destruct o as [a|a]; simpl;
    rewrite /fund_treasury /spend_treasury /get_planet /put_planet.
  - destruct (0 <? a) eqn:Ha; cbv [mbind stm_bind ensure gets lift modify mret stm_ret ok_or].
    + rewrite Hp /=. do 3 eexists. split; [done|]. rewrite lookup_insert_eq. split; [done|].
      bool_to_prop. rewrite /= /i64_add wrap_i64_id //. rewrite /is_i64 /i64_min. lia.
    + eauto 10.
  - destruct (0 <? a) eqn:Ha; cbv [mbind stm_bind ensure gets lift modify mret stm_ret ok_or];
      [|eauto 10].
    rewrite Hp /=. destruct (a <=? treasury_watt p) eqn:Hle; [|eauto 10].
    do 3 eexists. split; [done|]. rewrite lookup_insert_eq. split; [done|].
    bool_to_prop. rewrite /= /i64_sub wrap_i64_id //. rewrite /is_i64 /i64_min. lia.
Qed.

Lemma ledger_op_bounds o b : 0 ≤ b → 0 ≤ (ledger_op o b).2 ≤ b + credits [o].
Proof.
  rewrite /credits /zsum. destruct o as [a|a]; simpl;
    (destruct (0 <? a) eqn:Ha; simpl; bool_to_prop; [|lia]).
  - lia.
  - destruct (a <=? b) eqn:?; simpl; bool_to_prop; lia.
Qed.

(** For any sequence of fundings and spendings of a planet, as long as the
    total of the credits fits a 64-bit integer, which of them succeed and the
    resulting treasury are those of an abstract ledger with exact arithmetic;
    in particular the treasury never becomes negative. *)
Theorem treasury_refines_ledger id ops st p :
  planets st !! id = Some p →
  0 ≤ treasury_watt p → treasury_watt p + credits ops ≤ i64_max →
  ∃ p', planets (run_treasury id ops st).2 !! id = Some p'
    ∧ ((run_treasury id ops st).1, treasury_watt p') = run_ledger ops (treasury_watt p)
    ∧ 0 ≤ treasury_watt p'.
Proof.
  revert st p. induction ops as [|o ops IH]; intros st p Hp H0 Hmax; simpl; [eauto|].
  assert (credits (o :: ops) = credits [o] + credits ops) as Hc
    by rewrite /credits -zsum_app -fmap_app //.
  pose proof (credits_nonneg ops).
  destruct (run_treasury_op_spec id o st p Hp H0) as (r & st1 & p1 & Hrun & Hp1 & Hop); [lia|].
  pose proof (ledger_op_bounds o _ H0) as Hb. rewrite -Hop /= in Hb.
  rewrite Hrun -Hop. destruct (IH st1 p1 Hp1) as (p2 & Hp2 & Hled & Hnn); [lia|lia|].
  destruct (run_treasury id ops st1) as [rs st2]. rewrite -Hled /=. eauto.
Qed.

(** ** Validator rotation *)

Lemma fill_validators_cons c pool vs :
  fill_validators (c :: pool) vs =
  if (3 <=? size ({[ c ]} ∪ vs))%nat then {[ c ]} ∪ vs else fill_validators pool ({[ c ]} ∪ vs).
Proof.
  cbn [fill_validators].
  replace (if bool_decide (vs = ∅) || bool_decide (c ∉ vs) then {[c]} ∪ vs else vs)
    with ({[ c ]} ∪ vs); [done|].
  destruct (decide (c ∈ vs)).
  - rewrite (bool_decide_eq_false_2 (vs = ∅)); [|set_solver].
    rewrite bool_decide_eq_false_2 /=; [set_solver|tauto].
  - rewrite (bool_decide_eq_true_2 (c ∉ vs)) // orb_true_r //.
Qed.

Lemma fill_validators_spec pool vs :
  vs ⊆ fill_validators pool vs
  ∧ fill_validators pool vs ⊆ vs ∪ list_to_set pool
  ∧ (3 ≤ size (fill_validators pool vs) ∨ fill_validators pool vs = vs ∪ list_to_set pool)%nat
  ∧ (size (fill_validators pool vs) ≤ Nat.max 3 (S (size vs)))%nat.
Proof.
  revert vs. induction pool as [|c pool IH]; intros vs.
  { split_and!; [done|set_solver|right; set_solver|simpl; lia]. }
  rewrite fill_validators_cons list_to_set_cons.
  assert (size ({[ c ]} ∪ vs) ≤ S (size vs))%nat.
  { rewrite size_union_alt size_singleton.
    assert (size (vs ∖ {[c]}) ≤ size vs)%nat by (apply subseteq_size; set_solver). lia. }
  destruct (Nat.leb_spec 3 (size ({[ c ]} ∪ vs))).
  - split_and!; [set_solver|set_solver|by left|lia].
  - destruct (IH ({[ c ]} ∪ vs)) as (H1 & H2 & H3 & H4).
    split_and!; [set_solver|set_solver| |lia].
    destruct H3 as [|H3]; [by left|right]. rewrite H3. set_solver.
Qed.

(** After a rotation the validators are the ones whose heartbeat is recent,
    all of which are kept, and candidates of the pool; at least three of them
    unless the pool is exhausted, and the pool adds at most one validator
    beyond three. *)
Theorem rotate_validators_spec clk sid stale pool st l st' :
  rotate_validators clk sid stale pool st = (Ok l, st') →
  ∃ p p',
    planets st !! sid = Some p ∧ planets st' !! sid = Some p'
    ∧ let hb := default ∅ (validator_heartbeats st !! sid) in
      let fresh := base.filter (λ v, heartbeat_fresh (clk 0%nat) stale hb v = true) (validators p) in
      fresh ⊆ validators p'
      ∧ validators p' ⊆ fresh ∪ list_to_set pool
      ∧ (3 ≤ size (validators p') ∨ validators p' = fresh ∪ list_to_set pool)%nat
      ∧ (size (validators p') ≤ Nat.max 3 (S (size fresh)))%nat
      ∧ (∀ v, v ∈ l ↔ v ∈ validators p').
Proof.
  intros Hrun. rewrite /rotate_validators /get_planet /put_planet in Hrun. run_inv.
  rewrite lookup_insert_eq /=. do 2 eexists. split; [done|]. split; [done|]. simpl.
  match goal with |- context [fill_validators ?a ?b] =>
    destruct (fill_validators_spec a b) as (? & ? & ? & ?) end.
  split_and!; try done. intros v. apply elem_of_btree_set_list.
Qed.

Section reachable.
Context `{Crypto}.

(** C19: in every reachable state, whatever operations ran and whatever their
    outcomes, each planet is stored under its own subnet id, its stability is
    between 0 and 100, a recall process is recorded exactly while the
    government is in recall, a custody period is recorded while it is in
    custody, and its sovereign is one of its relays; each proposal is stored
    under its own id and nobody counts on both sides of it. *)
Theorem governance_invariant st : gov_reachable st → gov_inv st.
Proof.
  intros Hr. assert (gov_inv default_engine) as H0 by (split; apply map_Forall_empty).
  revert H0. induction Hr; eauto using gov_step_inv.
Qed.
End reachable.

(** Opening a recall while the planet is in custody does not close the custody
    period: after the recall is resolved the government is active and the
    custody record is still there. *)
Theorem recall_leaves_custody_record clk clk' id p c by_ why t succ bond st p1 st1 p2 st2 :
  planets st !! id = Some p → custody p = Some c →
  start_recall clk id by_ why t st = (Ok p1, st1) →
  resolve_recall clk' id succ bond st1 = (Ok p2, st2) →
  government_status p2 = Active ∧ custody p2 = Some c.
Proof.
  intros Hp Hc H1 H2.
  rewrite /start_recall /get_planet /put_planet in H1. run_inv.
  rewrite /resolve_recall /sovereign_gate /get_planet /put_planet in H2. run_inv.
  rewrite lookup_insert_eq in Hget0. by simplify_eq/=.
Qed.

(** ** A concrete history

    Alice is licensed and bonded, founds a planet with two approvals, funds
    it, and its validators vote on a tax proposal. *)

Module Scenario.
Import Signing.Demo.

Definition clk : clock := λ _, 1000.
Definition alice := "did:key:alice".
Definition bob := "did:key:bob".

Definition approval (who : string) : GenesisApproval :=
  match sign_genesis_with_signer "p1" "Prime" alice 7 (DID_KEY_PREFIX +:+ who) (signer who) with
  | Ok a => a
  | Err _ => mkGenesisApproval "" ""
  end.

Definition request : PlanetCreationRequest :=
  {| req_subnet_id := "p1"; req_name := "Prime"; req_creator := alice; req_created_at := 7;
     req_tax_rate := 0; req_constitution_template := MigrantCouncil; req_min_bond := 100;
     req_min_approvals := 2 |}.

Definition st1 := exec (issue_license clk alice "root" "h" 30) default_engine.
Definition st2 := exec (lock_bond clk alice 500 30) st1.
Definition st3 := exec (create_planet clk request [approval "alice"; approval "bob"]) st2.
Definition tax_payload : json := JObject [("tax_rate", JString "high")].
Definition st4 := exec (create_proposal clk "v1" "p1" "update_tax_rate" tax_payload alice) st3.
Definition st5 := exec (vote_proposal "v1" alice true) st4.

Lemma reachable_st3 : gov_reachable st3.
Proof.
  eapply rtc_l; [apply (step_issue_license _ clk alice "root" "h" 30)|].
  eapply rtc_l; [apply (step_lock_bond _ clk alice 500 30)|].
  eapply rtc_l; [apply (step_create_planet _ clk request [approval "alice"; approval "bob"])|].
  apply rtc_refl.
Qed.

Definition planet_of (st : GovernanceEngine) : SubnetPlanet :=
  default (new_planet request ∅) (planets st !! "p1").
Definition proposal_of (st : GovernanceEngine) : GovernanceProposal :=
  default (mkGovernanceProposal "" "" "" JNull "" 0 ∅ ∅ Rejected) (proposals st !! "v1").

Lemma planet_st3 : planets st3 !! "p1" = Some (planet_of st3).
Proof. vm_compute. reflexivity. Qed.

#[local] Opaque st3 st5.

Lemma governance_invariant_witness : gov_inv st3 ∧ is_Some (planets st3 !! "p1").
Proof.
  split; [apply governance_invariant, reachable_st3|]. rewrite planet_st3. eauto.
Defined.


Lemma vote_proposal_spec_witness :
  ∃ pr', proposals (exec (vote_proposal "v1" bob false) st5) !! "v1" = Some pr'
    ∧ bob ∈ votes_against pr'.
Proof.
  destruct (vote_proposal_spec "v1" bob false st5
              (exec (vote_proposal "v1" bob false) st5) tt)
    as (pr & pr' & p & Hpr & _ & _ & _ & Hst & _ & Hbob & Hrest & _);
    [vm_compute; reflexivity|].
  exists pr'. split; [|by apply Hbob].
  rewrite Hst. exact (lookup_insert_eq (proposals st5) "v1" pr').
Defined.

Definition st6 := exec (finalize_proposal "v1" 5) st5.

Lemma finalized_proposal_stable_witness :
  proposals (exec (vote_proposal "v1" alice false) st6) !! "v1" = Some (proposal_of st6).
Proof.
  apply (finalized_proposal_stable st6 _ "v1" (proposal_of st6)).
  - apply step_vote.
  - vm_compute. reflexivity.
  - vm_compute. discriminate.
Defined.

Lemma finalize_accepts_before_effects_witness :
  outcome (finalize_proposal "v1" 1) st5 = Err "proposal tax_rate must be f64"
  ∧ status (proposal_of (exec (finalize_proposal "v1" 1) st5)) = Accepted.
Proof.
  destruct (finalize_accepts_before_effects st5 "v1" 1 (proposal_of st5)) as (H1 & _ & H2 & _);
    [vm_compute; reflexivity..|].
  split; [exact H1|]. by rewrite /proposal_of H2.
Defined.

Lemma treasury_refines_ledger_witness :
  ∃ p', planets (run_treasury "p1" [Fund 50; Spend 80; Spend 20; Fund (-1)] st3).2 !! "p1" = Some p'
    ∧ treasury_watt p' = 30.
Proof.
  destruct (treasury_refines_ledger "p1" [Fund 50; Spend 80; Spend 20; Fund (-1)] st3
              (planet_of st3)) as (p' & Hp' & Hl & _).
  - apply planet_st3.
  - vm_compute. discriminate.
  - vm_compute. discriminate.
  - exists p'. split; [exact Hp'|].
    assert (run_ledger [Fund 50; Spend 80; Spend 20; Fund (-1)] (treasury_watt (planet_of st3))
            = ([true; false; true; false], 30)) as E by (vm_compute; reflexivity).
    rewrite E in Hl. exact (f_equal snd Hl).
Defined.

Definition st7 := exec (record_validator_heartbeat "p1" bob 990) st3.

Lemma rotate_validators_spec_witness :
  ∃ p', planets (exec (rotate_validators clk "p1" 60 ["did:key:carol"]) st7) !! "p1" = Some p'
    ∧ bob ∈ validators p' ∧ "did:key:carol" ∈ validators p'.
Proof.
  destruct (rotate_validators_spec clk "p1" 60 ["did:key:carol"] st7 [bob; "did:key:carol"]
              (exec (rotate_validators clk "p1" 60 ["did:key:carol"]) st7))
    as (p & p' & Hp & Hp' & _ & _ & _ & _ & Hl); [vm_compute; reflexivity|].
  exists p'. split; [exact Hp'|]. split; apply Hl; repeat constructor.
Defined.

End Scenario.
