(* ===== verification/Profiles.v ===== *)
(** * Citizen profiles

    [civilization/profiles.rs]: factions, roles, strategies and the registry of
    citizen profiles, with the strategy directives derived from them. *)

From S2P Require Import Prelude Collections Text.
#[local] Open Scope Z_scope.

Inductive Faction := Order | Freeport | Raider.
Inductive RolePath := Operator | Broker | Enforcer | Artificer.
Inductive StrategyProfile := Conservative | Balanced | Aggressive.

#[global] Instance Faction_eq_dec : EqDecision Faction.
Proof. solve_decision. Defined.
#[global] Instance RolePath_eq_dec : EqDecision RolePath.
Proof. solve_decision. Defined.

Record CitizenProfile := mkCitizenProfile {
  cp_agent_did : string;
  faction : Faction;
  role : RolePath;
  strategy : StrategyProfile;
  home_subnet_id : option string;
  home_zone_id : option string;
  cp_updated_at : Z;
}.

(** [u8] fields are integers between 0 and 255. *)
Record StrategyDirective := mkStrategyDirective {
  max_auto_actions : Z;
  allow_high_risk : bool;
  emergency_recall_threshold : Z;
}.

Record CitizenRegistry := mkCitizenRegistry { profiles : gmap string CitizenProfile }.
#[global] Instance eta_CitizenRegistry : Eta CitizenRegistry := λ r,
  mkCitizenRegistry (profiles r).

Definition set_profile (clk : clock) (agent_did : string) (faction : Faction) (role : RolePath)
    (strategy : StrategyProfile) (home_subnet_id home_zone_id : option string)
    : stm CitizenRegistry CitizenProfile :=
  let profile :=
    {| cp_agent_did := agent_did; faction := faction; role := role; strategy := strategy;
       home_subnet_id := home_subnet_id; home_zone_id := home_zone_id;
       cp_updated_at := clk 0%nat |} in
  modify (λ st, st <| profiles ::= <[agent_did := profile]> |>);;
  mret profile.

Definition profile (st : CitizenRegistry) (agent_did : string) : option CitizenProfile :=
  profiles st !! agent_did.
Definition list_profiles (st : CitizenRegistry) : list CitizenProfile :=
  btree_values (profiles st).

Definition strategy_directive (s : StrategyProfile) : StrategyDirective :=
  match s with
  | Conservative => {| max_auto_actions := 1; allow_high_risk := false;
                       emergency_recall_threshold := 3 |}
  | Balanced => {| max_auto_actions := 2; allow_high_risk := false;
                   emergency_recall_threshold := 4 |}
  | Aggressive => {| max_auto_actions := 3; allow_high_risk := true;
                     emergency_recall_threshold := 5 |}
  end.
