(* ===== verification/Missions.v ===== *)
(** * Missions

    [civilization/missions.rs]: the mission board, with the life cycle of a
    mission (publish, claim, complete, settle, cancel, expire), its bounty
    escrow and the updates relayed from the network; and the registry of
    network mission claims. *)

From S2P Require Import Prelude Collections Text Json Profiles.
#[local] Open Scope Z_scope.

(** ** Data *)

Inductive MissionDomain := Wealth | Power | Security | Trade | Culture.
Inductive MissionScope := RealWorld | InWorld.
Inductive MissionPublisherKind :=
  Player | Organization | PlanetaryGovernment | NeutralHub | System.
Inductive MissionStatus := Open | Claimed | Completed | Settled | Cancelled.

#[global] Instance MissionDomain_eq_dec : EqDecision MissionDomain.
Proof. solve_decision. Defined.
#[global] Instance MissionStatus_eq_dec : EqDecision MissionStatus.
Proof. solve_decision. Defined.

Record MissionReward := mkMissionReward {
  agent_watt : Z;
  reputation : Z;
  capacity : Z;
}.

(** [types.rs] *)
Record PublicGeoPayload := mkPublicGeoPayload {
  geo_lat : f64;
  geo_lng : f64;
  geo_coordinate_source : string;
}.

Record CivilMission := mkCivilMission {
  mission_id : string;
  title : string;
  description : string;
  publisher : string;
  publisher_kind : MissionPublisherKind;
  domain : MissionDomain;
  scope : MissionScope;
  subnet_id : option string;
  zone_id : option string;
  required_role : option RolePath;
  required_faction : option Faction;
  reward : option MissionReward;
  payload : json;
  lat : option f64;
  lng : option f64;
  coordinate_source : option string;
  created_at : Z;
  updated_at : Z;
  claimed_by : option string;
  claimed_by_display_name : option string;
  completed_by : option string;
  completion_result : option json;
  settled_at : option Z;
  status : MissionStatus;
  escrow_id : option string;
  escrow_confirmed : bool;
  expires_at : option Z;
}.
#[global] Instance eta_CivilMission : Eta CivilMission := λ m,
  mkCivilMission (mission_id m) (title m) (description m) (publisher m) (publisher_kind m)
    (domain m) (scope m) (subnet_id m) (zone_id m) (required_role m) (required_faction m)
    (reward m) (payload m) (lat m) (lng m) (coordinate_source m) (created_at m)
    (updated_at m) (claimed_by m) (claimed_by_display_name m) (completed_by m)
    (completion_result m) (settled_at m) (status m) (escrow_id m) (escrow_confirmed m)
    (expires_at m).

Definition is_expired (m : CivilMission) (now : Z) : bool :=
  is_some_and (λ e, e <=? now) (expires_at m).

Definition has_unconfirmed_escrow (m : CivilMission) : bool :=
  match escrow_id m with Some _ => negb (escrow_confirmed m) | None => false end.

Record MissionBoard := mkMissionBoard { missions : gmap string CivilMission }.
#[global] Instance eta_MissionBoard : Eta MissionBoard := λ b, mkMissionBoard (missions b).
Definition default_board : MissionBoard := mkMissionBoard ∅.

(** ** The board *)

Definition get_mission (id : string) : stm MissionBoard CivilMission :=
  ms ← gets missions; lift (ok_or "mission not found" (ms !! id)).
(** Writing back through the reference obtained from [get_mut]. *)
Definition put_mission (id : string) (m : CivilMission) : stm MissionBoard CivilMission :=
  modify (λ st, st <| missions ::= <[id := m]> |>);; mret m.

(** What [publish_with_scope_and_geo] is called with. *)
Record MissionSpec := mkMissionSpec {
  spec_title : string;
  spec_description : string;
  spec_publisher : string;
  spec_publisher_kind : MissionPublisherKind;
  spec_domain : MissionDomain;
  spec_scope : MissionScope;
  spec_subnet_id : option string;
  spec_zone_id : option string;
  spec_required_role : option RolePath;
  spec_required_faction : option Faction;
  spec_reward : option MissionReward;
  spec_payload : json;
}.
#[global] Instance eta_MissionSpec : Eta MissionSpec := λ s,
  mkMissionSpec (spec_title s) (spec_description s) (spec_publisher s) (spec_publisher_kind s)
    (spec_domain s) (spec_scope s) (spec_subnet_id s) (spec_zone_id s) (spec_required_role s)
    (spec_required_faction s) (spec_reward s) (spec_payload s).

Definition publish_with_scope_and_geo (clk : clock) (uuid : string) (s : MissionSpec)
    (public_geo : option PublicGeoPayload) : stm MissionBoard CivilMission :=
  let now := clk 0%nat in
  let mission :=
    {| mission_id := uuid;
       title := spec_title s; description := spec_description s;
       publisher := spec_publisher s; publisher_kind := spec_publisher_kind s;
       domain := spec_domain s; scope := spec_scope s;
       subnet_id := spec_subnet_id s; zone_id := spec_zone_id s;
       required_role := spec_required_role s; required_faction := spec_required_faction s;
       reward := spec_reward s; payload := spec_payload s;
       lat := geo_lat <$> public_geo; lng := geo_lng <$> public_geo;
       coordinate_source := geo_coordinate_source <$> public_geo;
       created_at := now; updated_at := now;
       claimed_by := None; claimed_by_display_name := None;
       completed_by := None; completion_result := None; settled_at := None;
       status := Open; escrow_id := None; escrow_confirmed := false; expires_at := None |} in
  put_mission uuid mission.

Definition publish_with_scope (clk : clock) (uuid : string) (s : MissionSpec)
    (reward : MissionReward) : stm MissionBoard CivilMission :=
  publish_with_scope_and_geo clk uuid (s <| spec_reward := Some reward |>) None.

Definition publish (clk : clock) (uuid : string) (s : MissionSpec) (reward : MissionReward)
    : stm MissionBoard CivilMission :=
  publish_with_scope clk uuid (s <| spec_scope := RealWorld |>) reward.

Definition set_expiry (clk : clock) (id : string) (expires : option Z)
    : stm MissionBoard CivilMission :=
  m ← get_mission id;
  put_mission id (m <| expires_at := expires |> <| updated_at := clk 0%nat |>).

Definition open_or_claimed (m : CivilMission) : bool :=
  match status m with Open | Claimed => true | _ => false end.

Definition expired_missions (st : MissionBoard) (now : Z) : list CivilMission :=
  List.filter (λ m, open_or_claimed m && is_expired m now) (btree_values (missions st)).

Definition unconfirmed_escrows (st : MissionBoard) : list CivilMission :=
  List.filter (λ m, negb (bool_decide (status m = Cancelled)) && has_unconfirmed_escrow m)
    (btree_values (missions st)).

Definition clear_bounty_escrow (clk : clock) (id : string) : stm MissionBoard CivilMission :=
  m ← get_mission id;
  put_mission id (m <| escrow_id := None |> <| escrow_confirmed := false |>
                    <| updated_at := clk 0%nat |>).

Definition record_bounty_escrow_intent (clk : clock) (id escrow : string)
    : stm MissionBoard CivilMission :=
  m ← get_mission id;
  put_mission id (m <| escrow_id := Some escrow |> <| escrow_confirmed := false |>
                    <| updated_at := clk 0%nat |>).

Definition mark_bounty_escrowed (clk : clock) (id escrow : string)
    : stm MissionBoard CivilMission :=
  m ← get_mission id;
  put_mission id (m <| escrow_id := Some escrow |> <| escrow_confirmed := true |>
                    <| updated_at := clk 0%nat |>).

Definition claim_as (clk : clock) (id agent_did : string) (display_name : option string)
    : stm MissionBoard CivilMission :=
  m ← get_mission id;
  ensure (bool_decide (status m = Open)) "mission is not open";;
  ensure (negb (is_expired m (clk 0%nat))) "mission has expired";;
  ensure (negb (has_unconfirmed_escrow m)) "mission bounty escrow is not confirmed";;
  put_mission id (m <| claimed_by := Some agent_did |>
                    <| claimed_by_display_name := trimmed_nonempty display_name |>
                    <| status := Claimed |> <| updated_at := clk 1%nat |>).

Definition claim (clk : clock) (id agent_did : string) : stm MissionBoard CivilMission :=
  claim_as clk id agent_did None.

Definition complete (clk : clock) (id agent_did : string) (result : option json)
    : stm MissionBoard CivilMission :=
  m ← get_mission id;
  ensure (bool_decide (status m = Claimed)) "mission is not claimed";;
  ensure (bool_decide (claimed_by m = Some agent_did)) "mission claimed by different agent";;
  ensure (negb (is_expired m (clk 0%nat))) "mission has expired";;
  ensure (negb (has_unconfirmed_escrow m)) "mission bounty escrow is not confirmed";;
  put_mission id (m <| completed_by := Some agent_did |> <| completion_result := result |>
                    <| status := Completed |> <| updated_at := clk 1%nat |>).

Definition cancel (clk : clock) (id : string) : stm MissionBoard CivilMission :=
  m ← get_mission id;
  ensure (negb (bool_decide (status m = Completed) || bool_decide (status m = Settled)))
    "mission can no longer be cancelled";;
  put_mission id (m <| status := Cancelled |> <| updated_at := clk 0%nat |>).

Definition cancel_unfunded (clk : clock) (id : string) : stm MissionBoard CivilMission :=
  m ← get_mission id;
  ensure (has_unconfirmed_escrow m) "mission escrow is confirmed or absent";;
  ensure (negb (bool_decide (status m = Settled))) "mission is already settled";;
  put_mission id (m <| status := Cancelled |> <| updated_at := clk 0%nat |>).

Definition settle (clk : clock) (id : string) : stm MissionBoard CivilMission :=
  m ← get_mission id;
  ensure (bool_decide (status m = Completed)) "mission is not completed";;
  put_mission id (m <| status := Settled |> <| settled_at := Some (clk 0%nat) |>
                    <| updated_at := clk 0%nat |>).

(** ** Updates relayed from the network *)

Definition cancel_if_expired (clk : clock) (m : CivilMission) : option CivilMission :=
  let now := clk 0%nat in
  if open_or_claimed m && is_expired m now
  then Some (m <| status := Cancelled |> <| updated_at := now |>) else None.

Definition ensure_same_claimer (m : CivilMission) (agent_did : string) : result unit :=
  match claimed_by m with
  | Some claimer =>
      if negb (String.eqb agent_did "") && negb (String.eqb claimer agent_did) then
        Err ("mission " +:+ mission_id m +:+ " is claimed by " +:+ claimer
             +:+ ", not by " +:+ agent_did)
      else Ok tt
  | None => Ok tt
  end.

Definition ensure_same_executor (m : CivilMission) (agent_did : string) : result unit :=
  match completed_by m with
  | Some executor =>
      if negb (String.eqb agent_did "") && negb (String.eqb executor agent_did) then
        Err ("mission " +:+ mission_id m +:+ " was completed by " +:+ executor
             +:+ ", not by " +:+ agent_did)
      else Ok tt
  | None => Ok tt
  end.

Definition apply_remote_claim_approved (clk : clock) (id agent_did : string)
    : stm MissionBoard (option CivilMission) :=
  ms ← gets missions;
  match ms !! id with
  | None => mret None
  | Some m =>
      match cancel_if_expired clk m with
      | Some cancelled => c ← put_mission id cancelled; mret (Some c)
      | None =>
          let agent_did := trim agent_did in
          match status m with
          | Open =>
              let m := if String.eqb agent_did "" then m else m <| claimed_by := Some agent_did |> in
              m ← put_mission id (m <| status := Claimed |> <| updated_at := clk 1%nat |>);
              mret (Some m)
          | Claimed => lift (ensure_same_claimer m agent_did);; mret (Some m)
          | Completed | Settled | Cancelled => mret (Some m)
          end
      end
  end.

(** The completion written by [apply_remote_completed]. *)
Definition remote_completion (now : Z) (agent_did : string) (result : option json)
    (m : CivilMission) : CivilMission :=
  let m := if String.eqb agent_did "" then m
           else m <| claimed_by := Some (default agent_did (claimed_by m)) |>
                  <| completed_by := Some agent_did |> in
  let m := match result, completion_result m with
           | Some _, _ | None, None => m <| completion_result := result |>
           | None, Some _ => m
           end in
  m <| status := Completed |> <| updated_at := now |>.

Definition apply_remote_completed (clk : clock) (id agent_did : string) (result : option json)
    : stm MissionBoard (option CivilMission) :=
  ms ← gets missions;
  match ms !! id with
  | None => mret None
  | Some m =>
      match cancel_if_expired clk m with
      | Some cancelled => c ← put_mission id cancelled; mret (Some c)
      | None =>
          let agent_did := trim agent_did in
          match status m with
          | Cancelled => mret (Some m)
          | Completed | Settled => lift (ensure_same_executor m agent_did);; mret (Some m)
          | Open | Claimed =>
              lift (ensure_same_claimer m agent_did);;
              m ← put_mission id (remote_completion (clk 1%nat) agent_did result m);
              mret (Some m)
          end
      end
  end.

Definition list_missions (st : MissionBoard) (s : option MissionStatus) : list CivilMission :=
  List.filter (λ m, is_none_or (λ e, bool_decide (status m = e)) s) (btree_values (missions st)).

Definition get (st : MissionBoard) (id : string) : option CivilMission := missions st !! id.

(** ** Transitions of the board

    A mission id is a fresh version-4 UUID. *)

Inductive board_step (st : MissionBoard) : MissionBoard → Prop :=
  | step_publish clk uuid s geo :
      missions st !! uuid = None →
      board_step st (exec (publish_with_scope_and_geo clk uuid s geo) st)
  | step_set_expiry clk id e : board_step st (exec (set_expiry clk id e) st)
  | step_clear_escrow clk id : board_step st (exec (clear_bounty_escrow clk id) st)
  | step_escrow_intent clk id e : board_step st (exec (record_bounty_escrow_intent clk id e) st)
  | step_mark_escrowed clk id e : board_step st (exec (mark_bounty_escrowed clk id e) st)
  | step_claim clk id a dn : board_step st (exec (claim_as clk id a dn) st)
  | step_complete clk id a r : board_step st (exec (complete clk id a r) st)
  | step_cancel clk id : board_step st (exec (cancel clk id) st)
  | step_cancel_unfunded clk id : board_step st (exec (cancel_unfunded clk id) st)
  | step_settle clk id : board_step st (exec (settle clk id) st)
  | step_remote_claim clk id a : board_step st (exec (apply_remote_claim_approved clk id a) st)
  | step_remote_completed clk id a r :
      board_step st (exec (apply_remote_completed clk id a r) st).

Definition board_reachable : MissionBoard → Prop := rtc board_step default_board.

(** *** The abstract life cycle *)

Inductive lifecycle : MissionStatus → MissionStatus → Prop :=
  | lc_stay s : lifecycle s s
  | lc_claim : lifecycle Open Claimed
  | lc_complete : lifecycle Claimed Completed
  | lc_complete_unclaimed : lifecycle Open Completed
  | lc_settle : lifecycle Completed Settled
  | lc_cancel s : s ≠ Settled → lifecycle s Cancelled.

(** What a published mission promises and never changes. *)
Definition same_contract (m m' : CivilMission) : Prop :=
  mission_id m' = mission_id m ∧ publisher m' = publisher m ∧ reward m' = reward m
  ∧ domain m' = domain m ∧ required_role m' = required_role m
  ∧ required_faction m' = required_faction m ∧ payload m' = payload m
  ∧ created_at m' = created_at m.

(** The effect of one step on one stored mission. *)
Definition mission_move (m m' : CivilMission) : Prop :=
  lifecycle (status m) (status m') ∧ same_contract m m'
  ∧ (status m = Completed → status m' = Cancelled → has_unconfirmed_escrow m = true).

(** Whoever claimed or completed the mission stays recorded. *)
Definition payee_kept (m m' : CivilMission) : Prop :=
  (∀ a, claimed_by m = Some a → claimed_by m' = Some a)
  ∧ (∀ a, completed_by m = Some a → completed_by m' = Some a
          ∧ completion_result m' = completion_result m).

Definition mission_ok (id : string) (m : CivilMission) : Prop :=
  mission_id m = id
  ∧ (status m = Open → claimed_by m = None)
  ∧ (open_or_claimed m = true → completed_by m = None)
  ∧ (∀ a, completed_by m = Some a → claimed_by m = Some a)
  ∧ (is_Some (settled_at m) ↔ status m = Settled).

Definition board_inv (st : MissionBoard) : Prop := map_Forall mission_ok (missions st).

(** Runs an operation of the board: one goal per control-flow path. *)
Ltac board_run :=
  rewrite /exec /outcome /get_mission /put_mission; stm_cases.

Definition step_ok (id : string) (m m' : CivilMission) : Prop :=
  mission_move m m' ∧ (mission_ok id m → mission_ok id m' ∧ payee_kept m m').

Lemma step_ok_refl id m : step_ok id m m.
Proof. split; [|done]. split; [constructor|]. split; [done|congruence]. Qed.

Lemma put_mission_step st id sid m q q' :
  missions st !! id = Some m → missions st !! sid = Some q → step_ok sid q q' →
  ∃ m', missions (st <| missions ::= <[sid := q']> |>) !! id = Some m' ∧ step_ok id m m'.
Proof.
  intros Hm Hq Hok. simpl. destruct (decide (sid = id)) as [->|Hne].
  - exists q'. rewrite lookup_insert_eq. simplify_eq. eauto.
  - exists m. rewrite lookup_insert_ne //. eauto using step_ok_refl.
Qed.

(** A completion reported by the network, on a mission it may complete. *)
Lemma remote_completion_step id now a result m :
  open_or_claimed m = true → ensure_same_claimer m a = Ok tt →
  step_ok id m (remote_completion now a result m).
Proof.
  rewrite /ensure_same_claimer /remote_completion /open_or_claimed => Ho Hc.
  split.
  - split; [|split].
    + destruct (status m) eqn:E; try done;
        repeat case_match; simplify_eq/=; constructor.
    + repeat case_match; done.
    + by intros E; rewrite E in Ho.
  - intros (H1 & H2 & H3 & H4 & H5). rewrite /open_or_claimed in H3.
    specialize (H3 Ho). rewrite /mission_ok /payee_kept.
    destruct (String.eqb_spec a "") as [->|Ha]; destruct (claimed_by m) as [c|] eqn:Ec;
      destruct (status m) eqn:Es; try done; repeat case_match; simplify_eq/=; bool_to_prop;
      naive_solver.
Qed.

(** The field-by-field obligations of an update of a mission. *)
Ltac solve_step :=
  bool_to_prop;
  rewrite /step_ok /mission_move /same_contract /mission_ok /payee_kept /open_or_claimed /=;
  split; [repeat split; try done; try congruence; intros; simplify_eq/=;
          repeat match goal with H : status _ = _ |- _ => rewrite H end; by constructor || congruence
         |intros (? & ? & Hoc & ? & ?);
          try match goal with E : status ?m = _ |- _ => rewrite E in Hoc |- * end;
          repeat split; try done; intros; naive_solver (congruence || eauto)].

(** An operation that rewrites one mission. *)
Ltac mission_update :=
  board_run; eauto using step_ok_refl;
  (eapply put_mission_step; [done|done|]); solve_step.

(** The expiry check of a relayed update. *)
Lemma cancel_if_expired_step clk id m m' :
  cancel_if_expired clk m = Some m' → step_ok id m m'.
Proof.
  rewrite /cancel_if_expired. case_match; [|done]. intros [= <-]. bool_to_prop.
  destruct (status m) eqn:E; rewrite /open_or_claimed E in H; try done; solve_step.
Qed.

Lemma remote_claim_step clk id a st sid m :
  missions st !! sid = Some m →
  ∃ m', missions (exec (apply_remote_claim_approved clk id a) st) !! sid = Some m'
        ∧ step_ok sid m m'.
Proof.
  intros Hm. rewrite /apply_remote_claim_approved. board_run; eauto using step_ok_refl;
    (eapply put_mission_step; [done|done|]); eauto using cancel_if_expired_step; solve_step.
Qed.

Lemma remote_completed_step clk id a r st sid m :
  missions st !! sid = Some m →
  ∃ m', missions (exec (apply_remote_completed clk id a r) st) !! sid = Some m'
        ∧ step_ok sid m m'.
Proof.
  intros Hm. rewrite /apply_remote_completed. board_run; eauto using step_ok_refl;
    (eapply put_mission_step; [done|done|]); eauto using cancel_if_expired_step;
    apply remote_completion_step; rewrite /open_or_claimed; by case_match || by destruct a0.
Qed.

Lemma board_step_mission st st' id m :
  board_step st st' → missions st !! id = Some m →
  ∃ m', missions st' !! id = Some m' ∧ step_ok id m m'.
Proof.
  intros Hstep Hm. destruct Hstep.
  - rewrite /publish_with_scope_and_geo. board_run.
    rewrite lookup_insert_ne; [eauto using step_ok_refl|congruence].
  - rewrite /set_expiry. mission_update.
  - rewrite /clear_bounty_escrow. mission_update.
  - rewrite /record_bounty_escrow_intent. mission_update.
  - rewrite /mark_bounty_escrowed. mission_update.
  - rewrite /claim_as. mission_update.
  - rewrite /complete. mission_update.
  - rewrite /cancel. mission_update.
  - rewrite /cancel_unfunded. mission_update.
  - rewrite /settle. mission_update.
  - by apply remote_claim_step.
  - by apply remote_completed_step.
Qed.

Lemma board_step_new st st' id m' :
  board_step st st' → missions st !! id = None → missions st' !! id = Some m' →
  mission_ok id m' ∧ status m' = Open.
Proof.
  intros Hstep Hnone. destruct Hstep.
  { rewrite /publish_with_scope_and_geo. board_run.
    destruct (decide (uuid = id)) as [->|]; [rewrite lookup_insert_eq|rewrite lookup_insert_ne; congruence].
    intros [= <-]. split; [|done]. repeat split; try done; by intros []. }
  all: rewrite ?/set_expiry ?/clear_bounty_escrow ?/record_bounty_escrow_intent
    ?/mark_bounty_escrowed ?/claim_as ?/complete ?/cancel ?/cancel_unfunded ?/settle
    ?/apply_remote_claim_approved ?/apply_remote_completed; board_run; try congruence;
    intros Hs; simplify_map_eq.
Qed.

Lemma board_step_inv st st' : board_inv st → board_step st st' → board_inv st'.
Proof.
  intros Hinv Hstep id m' Hm'. destruct (missions st !! id) as [m|] eqn:Hm.
  - destruct (board_step_mission _ _ _ _ Hstep Hm) as (m2 & Hm2 & _ & Hok).
    simplify_eq. apply Hok. by apply Hinv.
  - eapply board_step_new; eauto.
Qed.

Lemma reachable_board_inv st : board_reachable st → board_inv st.
Proof.
  intros Hr. assert (board_inv default_board) as H0 by apply map_Forall_empty.
  revert H0. induction Hr; eauto using board_step_inv.
Qed.

(** In every reachable board each mission is stored under its own id, an
    open mission has no claimer, a mission that is open or claimed has no
    executor, an executor is always the claimer, and a settlement time is
    recorded exactly for settled missions. *)
Theorem board_invariant st id m :
  board_reachable st → missions st !! id = Some m →
  mission_id m = id
  ∧ (status m = Open → claimed_by m = None)
  ∧ (open_or_claimed m = true → completed_by m = None)
  ∧ (∀ a, completed_by m = Some a → claimed_by m = Some a)
  ∧ (is_Some (settled_at m) ↔ status m = Settled).
Proof. intros Hr Hm. exact (reachable_board_inv st Hr id m Hm). Qed.

(** C32: every operation of the board keeps every mission, never changes the
    contract it was published with, and moves its status only along the life
    cycle open, claimed, completed, settled, or to cancelled; a completed
    mission is cancelled only while its bounty escrow is unconfirmed, and
    settled and cancelled are final. *)
Theorem board_refines_lifecycle st st' id m :
  board_step st st' → missions st !! id = Some m →
  ∃ m', missions st' !! id = Some m'
    ∧ lifecycle (status m) (status m') ∧ same_contract m m'
    ∧ (status m = Completed → status m' = Cancelled → has_unconfirmed_escrow m = true)
    ∧ (status m = Settled ∨ status m = Cancelled → status m' = status m).
Proof.
  intros Hstep Hm.
  destruct (board_step_mission _ _ _ _ Hstep Hm) as (m' & Hm' & (Hlc & Hc & Hu) & _).
  exists m'. split_and!; try done. intros [?|?]; inversion Hlc; congruence.
Qed.

(** C9: the payee of a mission is written once. From any reachable board and
    through any sequence of operations, local or relayed from the network, a
    recorded claimer stays the claimer and a recorded executor stays the
    executor with the same result: no envelope can reassign a bounty. *)
Theorem payee_write_once st st' id m :
  board_reachable st → rtc board_step st st' → missions st !! id = Some m →
  ∃ m', missions st' !! id = Some m' ∧ payee_kept m m'.
Proof.
  intros Hr%reachable_board_inv Hsteps. revert m Hr.
  induction Hsteps as [st|st st1 st' Hstep _ IH]; intros m Hinv Hm; [by exists m|].
  destruct (board_step_mission _ _ _ _ Hstep Hm) as (m1 & Hm1 & _ & Hok).
  destruct (Hok (Hinv _ _ Hm)) as [_ [Hk1 Hk2]].
  destruct (IH m1 (board_step_inv _ _ Hinv Hstep) Hm1) as (m' & Hm' & [Hk3 Hk4]).
  exists m'. split; [done|]. split; [eauto|]. intros a [Ha Hres]%Hk2.
  destruct (Hk4 _ Ha) as [? Hres']. split; [done|congruence].
Qed.

(** [claim_as] succeeds exactly on an open mission that has not expired
    and whose bounty escrow, if any, is confirmed; it records the claimer and
    its trimmed display name. *)
Theorem claim_as_spec clk id a dn st m' st' :
  claim_as clk id a dn st = (Ok m', st') ↔
  ∃ m, missions st !! id = Some m ∧ status m = Open
    ∧ is_expired m (clk 0%nat) = false ∧ has_unconfirmed_escrow m = false
    ∧ m' = m <| claimed_by := Some a |> <| claimed_by_display_name := trimmed_nonempty dn |>
             <| status := Claimed |> <| updated_at := clk 1%nat |>
    ∧ st' = st <| missions ::= <[id := m']> |>.
Proof.
  split.
  - intros Hrun. rewrite /claim_as /get_mission /put_mission in Hrun. run_inv.
    bool_to_prop. eexists. by split_and!.
  - intros (m & Hm & Hs & He & Hu & -> & ->).
    rewrite /claim_as /get_mission /put_mission.
    cbv [mbind stm_bind gets lift ok_or ensure]. rewrite Hm.
    by rewrite bool_decide_eq_true_2 // He Hu.
Qed.

(** A claim or completion relayed for a mission that has expired while
    open or claimed cancels the mission instead: claimer, executor and escrow
    stay as they were, so the escrow remains to be refunded. *)
Theorem remote_update_expired clk id a r st m :
  missions st !! id = Some m → open_or_claimed m = true → is_expired m (clk 0%nat) = true →
  let m' := m <| status := Cancelled |> <| updated_at := clk 0%nat |> in
  apply_remote_claim_approved clk id a st = (Ok (Some m'), st <| missions ::= <[id := m']> |>)
  ∧ apply_remote_completed clk id a r st = (Ok (Some m'), st <| missions ::= <[id := m']> |>)
  ∧ claimed_by m' = claimed_by m ∧ completed_by m' = completed_by m ∧ escrow_id m' = escrow_id m.
Proof.
  intros Hm Ho He. simpl.
  assert (cancel_if_expired clk m = Some (m <| status := Cancelled |> <| updated_at := clk 0%nat |>))
    as Hc by by rewrite /cancel_if_expired Ho He.
  rewrite /apply_remote_claim_approved /apply_remote_completed /put_mission.
  cbv [mbind stm_bind gets modify mret stm_ret]. by rewrite Hm Hc.
Qed.

(** The sweep lists exactly the open or claimed missions whose expiry passed. *)
Lemma elem_of_expired_missions st now m :
  m ∈ expired_missions st now ↔
  (∃ id, missions st !! id = Some m) ∧ open_or_claimed m = true ∧ is_expired m now = true.
Proof.
  by rewrite /expired_missions elem_of_filterb elem_of_btree_values andb_true_iff.
Qed.

(** ** A concrete board *)

Module BoardScenario.
Definition clk : clock := λ _, 100.
Definition spec : MissionSpec :=
  mkMissionSpec "survey" "" "did:p" Player Trade RealWorld None None None None
    (Some (mkMissionReward 50 1 0)) JNull.
Definition b1 : MissionBoard := exec (publish_with_scope_and_geo clk "m1" spec None) default_board.
Definition b2 : MissionBoard := exec (claim_as clk "m1" "did:a" (Some " Ada ")) b1.
Definition b3 : MissionBoard := exec (set_expiry clk "m1" (Some 60)) b2.

Definition m2 : CivilMission := default (mkCivilMission "" "" "" "" System Wealth InWorld None None
    None None None JNull None None None 0 0 None None None None None Open None false None)
  (missions b2 !! "m1").

Lemma b2_steps : rtc board_step default_board b2.
Proof.
  eapply rtc_l; [apply (step_publish _ clk "m1" spec None); reflexivity|].
  eapply rtc_l; [apply (step_claim _ clk "m1" "did:a" (Some " Ada "))|]. apply rtc_refl.
Qed.

Lemma board_invariant_witness :
  mission_id m2 = "m1" ∧ (∀ a, completed_by m2 = Some a → claimed_by m2 = Some a).
Proof.
  assert (Hm : missions b2 !! "m1" = Some m2) by reflexivity.
  destruct (board_invariant b2 "m1" m2 b2_steps Hm) as (H1 & _ & _ & H4 & _).
  exact (conj H1 H4).
Defined.

Lemma board_refines_lifecycle_witness :
  ∃ m', missions (exec (complete clk "m1" "did:a" None) b2) !! "m1" = Some m'
    ∧ lifecycle (status m2) (status m').
Proof.
  assert (Hm : missions b2 !! "m1" = Some m2) by reflexivity.
  destruct (board_refines_lifecycle b2 _ "m1" m2 (step_complete b2 clk "m1" "did:a" None) Hm)
    as (m' & H1 & H2 & _).
  exact (ex_intro _ m' (conj H1 H2)).
Defined.

(** Another agent's relayed completion does not take over the mission. *)
Lemma payee_write_once_witness :
  ∃ m', missions (exec (apply_remote_completed clk "m1" "did:b" None) b2) !! "m1" = Some m'
    ∧ payee_kept m2 m'.
Proof.
  assert (Hm : missions b2 !! "m1" = Some m2) by reflexivity.
  exact (payee_write_once b2 _ "m1" m2 b2_steps
    (rtc_once _ _ (step_remote_completed b2 clk "m1" "did:b" None)) Hm).
Defined.

Lemma remote_update_expired_witness :
  match missions b3 !! "m1" with
  | Some m => (apply_remote_completed clk "m1" "did:a" None b3).1
              = Ok (Some (m <| status := Cancelled |> <| updated_at := 100 |>))
  | None => False
  end.
Proof.
  destruct (missions b3 !! "m1") as [m|] eqn:Hm; [|discriminate Hm].
  assert (Ho : open_or_claimed m = true) by (injection Hm as <-; reflexivity).
  assert (He : is_expired m (clk 0%nat) = true) by (injection Hm as <-; reflexivity).
  destruct (remote_update_expired clk "m1" "did:a" None b3 m Hm Ho He) as (_ & H & _).
  exact (f_equal fst H).
Defined.
End BoardScenario.


(** ** The registry of network mission claims *)

Module Claims.
Record NetworkMissionClaimMetadata := mkNetworkMissionClaimMetadata {
  title : option string;
  publisher_id : option string;
  publisher_agent_did : option string;
  publisher_display_name : option string;
  publisher_wattswarm_node_id : option string;
  domain : option string;
  scope : option string;
  task_status : option string;
  mission_feed_key : option string;
  mission_scope_hint : option string;
  reward : option json;
  reward_watt : option Z;
  executor_bounty_watt : option Z;
  publisher_network_reward_watt : option Z;
}.
#[global] Instance eta_NetworkMissionClaimMetadata : Eta NetworkMissionClaimMetadata := λ m,
  mkNetworkMissionClaimMetadata (title m) (publisher_id m) (publisher_agent_did m)
    (publisher_display_name m) (publisher_wattswarm_node_id m) (domain m) (scope m)
    (task_status m) (mission_feed_key m) (mission_scope_hint m) (reward m) (reward_watt m)
    (executor_bounty_watt m) (publisher_network_reward_watt m).

Record NetworkMissionClaimRecord := mkNetworkMissionClaimRecord {
  mission_id : string;
  task_id : string;
  agent_did : string;
  execution_id : string;
  claimed_at : Z;
  status : option string;
  metadata : NetworkMissionClaimMetadata;
}.
#[global] Instance eta_NetworkMissionClaimRecord : Eta NetworkMissionClaimRecord := λ r,
  mkNetworkMissionClaimRecord (mission_id r) (task_id r) (agent_did r) (execution_id r)
    (claimed_at r) (status r) (metadata r).

(** [NetworkMissionClaimRegistry], its [claims] map. *)
Definition NetworkMissionClaimRegistry : Type := gmap string NetworkMissionClaimRecord.

Definition network_claim_key (mission task agent : string) : string :=
  trim mission +:+ ":" +:+ trim task +:+ ":" +:+ trim agent.

Definition records (reg : NetworkMissionClaimRegistry) : list NetworkMissionClaimRecord :=
  btree_values reg.

Definition get (reg : NetworkMissionClaimRegistry) (mission task agent : string)
    : option NetworkMissionClaimRecord :=
  reg !! network_claim_key mission task agent.

Definition contains (reg : NetworkMissionClaimRegistry) (mission task agent : string) : bool :=
  bool_decide (is_Some (reg !! network_claim_key mission task agent)).

Definition record (clk : clock) (mission task agent execution : string)
    (st : option string) (md : NetworkMissionClaimMetadata) (reg : NetworkMissionClaimRegistry)
    : NetworkMissionClaimRecord * NetworkMissionClaimRegistry :=
  let r := {| mission_id := mission; task_id := task; agent_did := agent;
              execution_id := execution; claimed_at := clk 0%nat;
              status := st; metadata := md |} in
  (r, <[network_claim_key mission task agent := r]> reg).

Definition contains_mission (reg : NetworkMissionClaimRegistry) (mission : string) : bool :=
  let mission := trim mission in
  existsb (λ r, String.eqb (mission_id r) mission) (btree_values reg).

(** The two writes through the reference of [update_status]. *)
Definition set_status (st : string) (r : NetworkMissionClaimRecord) : NetworkMissionClaimRecord :=
  r <| status := Some st |> <| metadata := metadata r <| task_status := Some st |> |>.

Definition update_status_by_mission (mission st : string) (reg : NetworkMissionClaimRegistry)
    : option NetworkMissionClaimRecord * NetworkMissionClaimRegistry :=
  let mission := trim mission in
  let st := trim st in
  if String.eqb mission "" || String.eqb st "" then (None, reg)
  else match find_first (λ p, String.eqb (mission_id p.2) mission) (btree_entries reg) with
       | None => (None, reg)
       | Some (key, _) =>
           match reg !! key with
           | None => (None, reg)
           | Some r => (Some (set_status st r), <[key := set_status st r]> reg)
           end
       end.

Definition update_status (mission task agent st : string) (reg : NetworkMissionClaimRegistry)
    : option NetworkMissionClaimRecord * NetworkMissionClaimRegistry :=
  let st := trim st in
  if String.eqb st "" then (None, reg)
  else match reg !! network_claim_key mission task agent with
       | None => (None, reg)
       | Some r => (Some (set_status st r),
                    <[network_claim_key mission task agent := set_status st r]> reg)
       end.

(** *** Keys *)

Lemma network_claim_key_inj m1 t1 a1 m2 t2 a2 :
  colon_free m1 → colon_free t1 → colon_free m2 → colon_free t2 →
  trim m1 = m1 → trim t1 = t1 → trim m2 = m2 → trim t2 = t2 →
  network_claim_key m1 t1 a1 = network_claim_key m2 t2 a2 →
  m1 = m2 ∧ t1 = t2 ∧ trim a1 = trim a2.
Proof.
  rewrite /network_claim_key => ???? -> -> -> -> Hk.
  apply colon_join_inj in Hk as [-> Hk]; [|done|done].
  by apply colon_join_inj in Hk as [-> ->].
Qed.

(** A claim recorded for a mission, a task and an agent is read back
    under the same ids whatever white space surrounds them, and claims under
    other ids (mission and task ids without a colon, as UUIDs are) keep what
    they were: agents may contain colons, as DIDs do, without colliding. *)
Theorem record_get_spec clk m t a x st md reg m2 t2 a2 :
  colon_free m → colon_free t → colon_free m2 → colon_free t2 →
  trim m = m → trim t = t → trim m2 = m2 → trim t2 = t2 →
  let '(r, reg') := record clk m t a x st md reg in
  get reg' m2 t2 a2 =
  if bool_decide (m = m2 ∧ t = t2 ∧ trim a = trim a2) then Some r else get reg m2 t2 a2.
Proof.
  intros. rewrite /get /=. case_bool_decide as Hk.
  - destruct Hk as (-> & -> & Ha). by rewrite /network_claim_key Ha lookup_insert_eq.
  - rewrite lookup_insert_ne //. intros ?%network_claim_key_inj; tauto.
Qed.

Lemma record_get_spec_witness :
  get (record (λ _, 7) "m1" "t1" "did:key:a" "x" None
         (mkNetworkMissionClaimMetadata None None None None None None None None None None None
            None None None) ∅).2 "m1" "t1" "did:key:b" = None.
Proof.
  refine (eq_trans (record_get_spec (λ _, 7) "m1" "t1" "did:key:a" "x" None _ ∅
    "m1" "t1" "did:key:b" _ _ _ _ _ _ _ _) _); try reflexivity;
    apply (bool_decide_eq_true_1 _); reflexivity.
Defined.
End Claims.
