(* ===== verification/Organizations.v ===== *)
(** * Organizations

    [civilization/organizations.rs]: the registry of organizations with their
    members and permissions, treasury, proposals and subnet charter
    applications, and the readiness track an application snapshots. *)

From S2P Require Import Prelude Collections Text Profiles.
#[local] Open Scope Z_scope.

(** ** Data *)

Inductive OrganizationKind := Guild | Consortium | Fleet | CivicUnion.
Inductive OrganizationRole := Founder | Officer | Member.
Inductive OrganizationPermission :=
  ManageMembers | ManageTreasury | PublishMissions | ManageGovernance.
Inductive OrganizationProposalKind := SubnetCharter.
Inductive OrganizationProposalStatus := Open | Accepted | Rejected.
Inductive OrganizationSubnetCharterStatus := PendingGovernance.

#[global] Instance OrganizationPermission_eq_dec : EqDecision OrganizationPermission.
Proof. solve_decision. Defined.
#[global] Instance OrganizationProposalKind_eq_dec : EqDecision OrganizationProposalKind.
Proof. solve_decision. Defined.
#[global] Instance OrganizationProposalStatus_eq_dec : EqDecision OrganizationProposalStatus.
Proof. solve_decision. Defined.

Record OrganizationProposal := mkOrganizationProposal {
  proposal_id : string;
  prop_organization_id : string;
  prop_kind : OrganizationProposalKind;
  prop_title : string;
  prop_summary : string;
  proposed_subnet_id : option string;
  proposed_subnet_name : option string;
  prop_created_by : string;
  prop_created_at : Z;
  votes_for : gset string;
  votes_against : gset string;
  prop_status : OrganizationProposalStatus;
}.
#[global] Instance eta_OrganizationProposal : Eta OrganizationProposal := λ p,
  mkOrganizationProposal (proposal_id p) (prop_organization_id p) (prop_kind p) (prop_title p)
    (prop_summary p) (proposed_subnet_id p) (proposed_subnet_name p) (prop_created_by p)
    (prop_created_at p) (votes_for p) (votes_against p) (prop_status p).

Record OrganizationReadinessGate := mkOrganizationReadinessGate {
  gate_key : string;
  gate_title : string;
  gate_complete : bool;
  gate_current : Z;
  gate_target : Z;
  gate_unit : string;
  gate_hint : string;
}.

Record OrganizationAutonomyTrack := mkOrganizationAutonomyTrack {
  current_status : string;
  next_action : string;
  eligible_for_subnet_charter : bool;
  gates : list OrganizationReadinessGate;
}.

Record OrganizationSubnetCharterApplication := mkOrganizationSubnetCharterApplication {
  application_id : string;
  app_organization_id : string;
  app_proposal_id : string;
  requested_by_public_id : string;
  sponsor_controller_id : string;
  app_subnet_id : string;
  app_subnet_name : string;
  app_summary : string;
  app_created_at : Z;
  app_status : OrganizationSubnetCharterStatus;
  readiness_snapshot : OrganizationAutonomyTrack;
}.

Record OrganizationProfile := mkOrganizationProfile {
  organization_id : string;
  name : string;
  kind : OrganizationKind;
  summary : string;
  faction_alignment : option Faction;
  home_subnet_id : option string;
  home_zone_id : option string;
  treasury_watt : Z;
  created_by_public_id : string;
  active : bool;
  created_at : Z;
  updated_at : Z;
}.
#[global] Instance eta_OrganizationProfile : Eta OrganizationProfile := λ o,
  mkOrganizationProfile (organization_id o) (name o) (kind o) (summary o) (faction_alignment o)
    (home_subnet_id o) (home_zone_id o) (treasury_watt o) (created_by_public_id o) (active o)
    (created_at o) (updated_at o).

Record OrganizationCreateSpec := mkOrganizationCreateSpec {
  spec_organization_id : string;
  spec_name : string;
  spec_kind : OrganizationKind;
  spec_summary : string;
  spec_faction_alignment : option Faction;
  spec_home_subnet_id : option string;
  spec_home_zone_id : option string;
  founder_public_id : string;
}.

Record OrganizationProposalCreateSpec := mkOrganizationProposalCreateSpec {
  pspec_organization_id : string;
  pspec_kind : OrganizationProposalKind;
  pspec_title : string;
  pspec_summary : string;
  pspec_subnet_id : option string;
  pspec_subnet_name : option string;
  pspec_created_by : string;
}.

Record OrganizationMembership := mkOrganizationMembership {
  mem_organization_id : string;
  public_id : string;
  role : OrganizationRole;
  mem_title : option string;
  mem_active : bool;
  joined_at : Z;
  mem_updated_at : Z;
}.

Record OrganizationRegistry := mkOrganizationRegistry {
  organizations : gmap string OrganizationProfile;
  memberships : gmap string (list OrganizationMembership);
  proposals : gmap string OrganizationProposal;
  charter_applications : gmap string OrganizationSubnetCharterApplication;
}.
#[global] Instance eta_OrganizationRegistry : Eta OrganizationRegistry := λ r,
  mkOrganizationRegistry (organizations r) (memberships r) (proposals r) (charter_applications r).
Definition default_registry : OrganizationRegistry := mkOrganizationRegistry ∅ ∅ ∅ ∅.

(** ** Queries *)

Definition organization (st : OrganizationRegistry) (id : string) : option OrganizationProfile :=
  organizations st !! id.

Definition memberships_of (st : OrganizationRegistry) (org : string)
    : list OrganizationMembership := default [] (memberships st !! org).

(** A membership that is active and belongs to [who]. *)
Definition active_for (who : string) (m : OrganizationMembership) : bool :=
  mem_active m && String.eqb (public_id m) who.

Definition memberships_for_public (st : OrganizationRegistry) (who : string)
    : list OrganizationMembership :=
  List.filter (active_for who) (concat (btree_values (memberships st))).

Definition organizations_for_public (st : OrganizationRegistry) (who : string)
    : list (OrganizationProfile * OrganizationMembership) :=
  omap (λ m, (λ o, (o, m)) <$> organization st (mem_organization_id m))
    (memberships_for_public st who).

Definition list_organizations (st : OrganizationRegistry) : list OrganizationProfile :=
  btree_values (organizations st).

Definition membership_for_public (st : OrganizationRegistry) (org who : string)
    : option OrganizationMembership :=
  find_first (active_for who) (memberships_of st org).

Definition permissions_for_role (r : OrganizationRole) : list OrganizationPermission :=
  match r with
  | Founder => [ManageMembers; ManageTreasury; PublishMissions; ManageGovernance]
  | Officer => [ManageTreasury; PublishMissions; ManageGovernance]
  | Member => []
  end.

Definition permissions_for_public (st : OrganizationRegistry) (org who : string)
    : list OrganizationPermission :=
  match membership_for_public st org who with
  | None => []
  | Some m => permissions_for_role (role m)
  end.

Definition has_permission (st : OrganizationRegistry) (org who : string)
    (p : OrganizationPermission) : bool :=
  bool_decide (p ∈ permissions_for_public st org who).

Definition list_proposals (st : OrganizationRegistry) (org : option string)
    : list OrganizationProposal :=
  List.filter (λ p, is_none_or (λ o, String.eqb (prop_organization_id p) o) org)
    (btree_values (proposals st)).

Definition list_subnet_charter_applications (st : OrganizationRegistry) (org : option string)
    : list OrganizationSubnetCharterApplication :=
  List.filter (λ a, is_none_or (λ o, String.eqb (app_organization_id a) o) org)
    (btree_values (charter_applications st)).

(** ** Members *)

(** [iter_mut().find(..)] and replacement, or [push]. *)
Fixpoint upsert_entry (m : OrganizationMembership) (l : list OrganizationMembership)
    : list OrganizationMembership :=
  match l with
  | [] => [m]
  | e :: l' => if String.eqb (public_id e) (public_id m) then m :: l' else e :: upsert_entry m l'
  end.

(** [if let Some(organization) = self.organizations.get_mut(..)]. *)
Definition touch (org : string) (now : Z) (st : OrganizationRegistry) : OrganizationRegistry :=
  match organizations st !! org with
  | Some o => st <| organizations ::= <[org := o <| updated_at := now |>]> |>
  | None => st
  end.

Definition upsert_membership (clk : clock) (org who : string) (r : OrganizationRole)
    (title : option string) (act : bool) : stm OrganizationRegistry OrganizationMembership :=
  orgs ← gets organizations;
  ensure (bool_decide (is_Some (orgs !! org))) "organization does not exist";;
  let now := clk 0%nat in
  entries ← gets (λ st, memberships_of st org);
  let joined := match find_first (λ m, String.eqb (public_id m) who) entries with
                | Some m => joined_at m | None => now end in
  let m := {| mem_organization_id := org; public_id := who; role := r; mem_title := title;
              mem_active := act; joined_at := joined; mem_updated_at := now |} in
  modify (λ st, st <| memberships ::= <[org := upsert_entry m entries]> |>);;
  modify (touch org now);;
  mret m.

Definition create_organization (clk : clock) (spec : OrganizationCreateSpec)
    : stm OrganizationRegistry OrganizationProfile :=
  orgs ← gets organizations;
  ensure (negb (bool_decide (is_Some (orgs !! spec_organization_id spec))))
    "organization already exists";;
  let now := clk 0%nat in
  let o := {| organization_id := spec_organization_id spec; name := spec_name spec;
              kind := spec_kind spec; summary := spec_summary spec;
              faction_alignment := spec_faction_alignment spec;
              home_subnet_id := spec_home_subnet_id spec;
              home_zone_id := spec_home_zone_id spec; treasury_watt := 0;
              created_by_public_id := founder_public_id spec; active := true;
              created_at := now; updated_at := now |} in
  modify (λ st, st <| organizations ::= <[spec_organization_id spec := o]> |>);;
  upsert_membership (λ n, clk (S n)) (spec_organization_id spec) (founder_public_id spec)
    Founder (Some "Founder") true;;
  mret o.

(** ** Treasury *)

Definition fund_treasury (clk : clock) (org : string) (amount : Z)
    : stm OrganizationRegistry OrganizationProfile :=
  ensure (negb (amount <=? 0)) "funding amount must be positive";;
  orgs ← gets organizations;
  o ← lift (ok_or "organization does not exist" (orgs !! org));
  let o := o <| treasury_watt := i64_add (treasury_watt o) amount |>
             <| updated_at := clk 0%nat |> in
  modify (λ st, st <| organizations ::= <[org := o]> |>);; mret o.

Definition spend_treasury (clk : clock) (org : string) (amount : Z)
    : stm OrganizationRegistry OrganizationProfile :=
  ensure (negb (amount <=? 0)) "spend amount must be positive";;
  orgs ← gets organizations;
  o ← lift (ok_or "organization does not exist" (orgs !! org));
  ensure (negb (treasury_watt o <? amount)) "insufficient organization treasury";;
  let o := o <| treasury_watt := i64_sub (treasury_watt o) amount |>
             <| updated_at := clk 0%nat |> in
  modify (λ st, st <| organizations ::= <[org := o]> |>);; mret o.

(** ** Proposals *)

Definition create_proposal (clk : clock) (spec : OrganizationProposalCreateSpec)
    : stm OrganizationRegistry OrganizationProposal :=
  o ← gets (λ st, organization st (pspec_organization_id spec));
  ensure (bool_decide (is_Some o)) "organization does not exist";;
  m ← gets (λ st, membership_for_public st (pspec_organization_id spec) (pspec_created_by spec));
  ensure (bool_decide (is_Some m)) "organization membership required";;
  let now := clk 0%nat in
  let p := {| proposal_id := pspec_organization_id spec +:+ "-proposal-" +:+ show_Z now;
              prop_organization_id := pspec_organization_id spec; prop_kind := pspec_kind spec;
              prop_title := pspec_title spec; prop_summary := pspec_summary spec;
              proposed_subnet_id := pspec_subnet_id spec;
              proposed_subnet_name := pspec_subnet_name spec;
              prop_created_by := pspec_created_by spec; prop_created_at := now;
              votes_for := ∅; votes_against := ∅; prop_status := Open |} in
  modify (λ st, st <| proposals ::= <[proposal_id p := p]> |>);;
  modify (touch (pspec_organization_id spec) now);;
  mret p.

Definition vote_proposal (id voter : string) (approve : bool)
    : stm OrganizationRegistry OrganizationProposal :=
  p ← gets (λ st, proposals st !! id);
  org ← lift (ok_or "organization proposal not found" (prop_organization_id <$> p));
  m ← gets (λ st, membership_for_public st org voter);
  ensure (bool_decide (is_Some m)) "organization membership required";;
  ps ← gets proposals;
  p ← lift (ok_or "organization proposal not found" (ps !! id));
  ensure (bool_decide (prop_status p = Open)) "organization proposal is not open";;
  let p := p <| votes_for := votes_for p ∖ {[voter]} |>
             <| votes_against := votes_against p ∖ {[voter]} |> in
  let p := if approve then p <| votes_for := {[voter]} ∪ votes_for p |>
           else p <| votes_against := {[voter]} ∪ votes_against p |> in
  modify (λ st, st <| proposals ::= <[id := p]> |>);; mret p.

Definition finalize_proposal (id : string) (min_votes_for : nat)
    : stm OrganizationRegistry OrganizationProposal :=
  ps ← gets proposals;
  p ← lift (ok_or "organization proposal not found" (ps !! id));
  ensure (bool_decide (prop_status p = Open)) "organization proposal is not open";;
  let p := p <| prop_status :=
    if (min_votes_for <=? size (votes_for p))%nat
       && (size (votes_against p) <? size (votes_for p))%nat
    then Accepted else Rejected |> in
  modify (λ st, st <| proposals ::= <[id := p]> |>);; mret p.

(** ** Charter applications *)

Definition create_subnet_charter_application (clk : clock) (id requested_by sponsor : string)
    (snapshot : OrganizationAutonomyTrack)
    : stm OrganizationRegistry OrganizationSubnetCharterApplication :=
  ensure (eligible_for_subnet_charter snapshot) "organization is not ready for a subnet charter";;
  ps ← gets proposals;
  p ← lift (ok_or "organization proposal not found" (ps !! id));
  ensure (bool_decide (prop_kind p = SubnetCharter))
    "organization proposal is not a subnet charter proposal";;
  ensure (bool_decide (prop_status p = Accepted))
    "organization proposal must be accepted before charter submission";;
  m ← gets (λ st, membership_for_public st (prop_organization_id p) requested_by);
  ensure (bool_decide (is_Some m)) "organization membership required";;
  apps ← gets charter_applications;
  ensure (negb (existsb (λ a, String.eqb (app_proposal_id a) id) (btree_values apps)))
    "charter application already exists for proposal";;
  sid ← lift (ok_or "subnet charter proposal missing proposed_subnet_id" (proposed_subnet_id p));
  sname ← lift (ok_or "subnet charter proposal missing proposed_subnet_name"
                  (proposed_subnet_name p));
  let now := clk 0%nat in
  let a := {| application_id := prop_organization_id p +:+ "-charter-" +:+ show_Z now;
              app_organization_id := prop_organization_id p; app_proposal_id := proposal_id p;
              requested_by_public_id := requested_by; sponsor_controller_id := sponsor;
              app_subnet_id := sid; app_subnet_name := sname; app_summary := prop_summary p;
              app_created_at := now; app_status := PendingGovernance;
              readiness_snapshot := snapshot |} in
  modify (λ st, st <| charter_applications ::= <[application_id a := a]> |>);; mret a.

(** ** Readiness *)

Definition readiness_gate (key title : string) (current target : Z) (unit_ hint : string)
    : OrganizationReadinessGate :=
  {| gate_key := key; gate_title := title; gate_complete := target <=? current;
     gate_current := current; gate_target := target; gate_unit := unit_; gate_hint := hint |}.

(** [i64::try_from(n).unwrap_or(i64::MAX)] of a [usize]. *)
Definition i64_of_usize (n : Z) : Z := Z.min n i64_max.

Definition compute_autonomy_track (o : OrganizationProfile)
    (active_member_count open_mission_count settled_mission_count : Z)
    (home_subnet_governed : bool) : OrganizationAutonomyTrack :=
  let member_gate := readiness_gate "member_core" "Build a three-member operating core"
    (i64_of_usize active_member_count) 3 "members"
    "Recruit enough active members to distribute civic, trade, and security work." in
  let treasury_gate := readiness_gate "treasury_buffer" "Maintain a forty-watt treasury buffer"
    (treasury_watt o) 40 "watt"
    "A stable treasury is required before an organization can underwrite subnet autonomy." in
  let mission_gate := readiness_gate "settled_ops" "Settle at least two organization missions"
    (i64_of_usize settled_mission_count) 2 "missions"
    "Use published missions to prove the organization can coordinate repeatable work." in
  let anchor_gate := readiness_gate "home_anchor" "Bind the organization to a home subnet"
    (if home_subnet_id o then 1 else 0) 1 "anchor"
    "A subnet or zone anchor gives the organization a concrete civic base." in
  let governance_gate := readiness_gate "governed_home" "Operate around a governed home subnet"
    (if home_subnet_governed then 1 else 0) 1 "governed"
    "Subnet creation should emerge from proven home coordination, not from a cold start." in
  let gs := [member_gate; treasury_gate; mission_gate; anchor_gate; governance_gate] in
  let eligible := forallb gate_complete gs in
  {| current_status :=
       if eligible then "subnet-ready"
       else if (2 <=? active_member_count) && (0 <? open_mission_count) && (10 <=? treasury_watt o)
       then "mission-operational"
       else if 3 <=? active_member_count then "forming-civic-core"
       else if 2 <=? active_member_count then "operational-cell"
       else "founder-led";
     next_action :=
       if negb (gate_complete member_gate)
       then "Recruit one more active member into the organization core."
       else if negb (gate_complete treasury_gate)
       then "Increase the organization treasury until it can underwrite subnet operations."
       else if negb (gate_complete mission_gate)
       then "Publish and settle organization missions to prove repeatable coordination."
       else if negb (gate_complete anchor_gate)
       then "Assign the organization to a concrete home subnet or civic anchor."
       else if negb (gate_complete governance_gate)
       then "Operate against a governed home subnet before petitioning for expansion autonomy."
       else "Prepare a subnet charter and governance coalition from the organization's home anchor.";
     eligible_for_subnet_charter := eligible;
     gates := gs |}.

(** ** Transitions of the registry *)

Inductive org_step (st : OrganizationRegistry) : OrganizationRegistry → Prop :=
  | step_create clk spec : org_step st (exec (create_organization clk spec) st)
  | step_upsert clk org who r t a : org_step st (exec (upsert_membership clk org who r t a) st)
  | step_fund clk org n : org_step st (exec (fund_treasury clk org n) st)
  | step_spend clk org n : org_step st (exec (spend_treasury clk org n) st)
  | step_propose clk spec : org_step st (exec (create_proposal clk spec) st)
  | step_vote id who b : org_step st (exec (vote_proposal id who b) st)
  | step_finalize id n : org_step st (exec (finalize_proposal id n) st)
  | step_charter clk id r s t :
      org_step st (exec (create_subnet_charter_application clk id r s t) st).

Definition org_reachable : OrganizationRegistry → Prop := rtc org_step default_registry.

(** *** The invariant *)

Definition org_ok (st : OrganizationRegistry) (id : string) (o : OrganizationProfile) : Prop :=
  organization_id o = id
  ∧ created_by_public_id o ∈ public_id <$> memberships_of st id.

Definition members_ok (org : string) (l : list OrganizationMembership) : Prop :=
  NoDup (public_id <$> l) ∧ Forall (λ m, mem_organization_id m = org) l.

Definition proposal_ok (id : string) (p : OrganizationProposal) : Prop :=
  proposal_id p = id ∧ votes_for p ## votes_against p.

Definition application_ok (id : string) (a : OrganizationSubnetCharterApplication) : Prop :=
  application_id a = id ∧ eligible_for_subnet_charter (readiness_snapshot a) = true.

(** No two applications are for the same proposal. *)
Definition one_application (apps : gmap string OrganizationSubnetCharterApplication) : Prop :=
  ∀ i j a b, apps !! i = Some a → apps !! j = Some b →
    app_proposal_id a = app_proposal_id b → i = j.

Record registry_inv (st : OrganizationRegistry) : Prop := {
  inv_orgs : map_Forall (org_ok st) (organizations st);
  inv_members : map_Forall members_ok (memberships st);
  inv_proposals : map_Forall proposal_ok (proposals st);
  inv_applications : map_Forall application_ok (charter_applications st);
  inv_one_application : one_application (charter_applications st);
}.

Lemma upsert_entry_ids m l :
  public_id <$> upsert_entry m l =
  if bool_decide (public_id m ∈ public_id <$> l) then public_id <$> l
  else (public_id <$> l) ++ [public_id m].
Proof.
  induction l as [|e l IH]; [done|csimpl].
  destruct (String.eqb_spec (public_id e) (public_id m)) as [Heq|Hne]; csimpl.
  - rewrite bool_decide_eq_true_2 Heq //. apply elem_of_cons. by left.
  - rewrite IH. repeat case_bool_decide; set_solver.
Qed.

Lemma upsert_entry_ok m org l :
  mem_organization_id m = org → members_ok org l → members_ok org (upsert_entry m l).
Proof.
  intros Hm [Hnd Hall]. split.
  - rewrite upsert_entry_ids. case_bool_decide; [done|].
    apply NoDup_app. split_and!; [done| |apply NoDup_singleton]. set_solver.
  - clear Hnd. induction Hall; simpl; [by constructor|]. case_match; by constructor.
Qed.

Lemma elem_of_upsert_entry_ids x m l :
  x ∈ public_id <$> upsert_entry m l ↔ x = public_id m ∨ x ∈ public_id <$> l.
Proof. rewrite upsert_entry_ids. case_bool_decide; set_solver. Qed.

Lemma memberships_of_insert st org l :
  memberships_of (st <| memberships ::= <[org := l]> |>) org = l.
Proof. by rewrite /memberships_of /= lookup_insert_eq. Qed.

Lemma touch_inv org now st : registry_inv st → registry_inv (touch org now st).
Proof.
  intros [H1 H2 H3 H4 H5]. rewrite /touch. destruct (organizations st !! org) as [o|] eqn:E; [|done].
  split; try done. simpl. apply map_Forall_insert_2; [|done]. exact (H1 _ _ E).
Qed.

(** Storing a membership list that keeps the listed ids. *)
Lemma store_members_inv org l st :
  registry_inv st → members_ok org l →
  (∀ x, x ∈ public_id <$> memberships_of st org → x ∈ public_id <$> l) →
  registry_inv (st <| memberships ::= <[org := l]> |>).
Proof.
  intros [H1 H2 H3 H4 H5] Hl Hsub. split; try done; simpl.
  - intros id o Ho. destruct (H1 _ _ Ho) as [Hid Hf]. split; [done|].
    destruct (decide (org = id)) as [->|].
    + rewrite memberships_of_insert. auto.
    + by rewrite /memberships_of /= lookup_insert_ne.
  - by apply map_Forall_insert_2.
Qed.

Lemma members_of_ok st org : registry_inv st → members_ok org (memberships_of st org).
Proof.
  intros Hinv. rewrite /memberships_of. destruct (memberships st !! org) eqn:E; simpl.
  - exact (inv_members _ Hinv _ _ E).
  - split; constructor.
Qed.

Lemma upsert_membership_inv clk org who r t a st :
  registry_inv st → registry_inv (exec (upsert_membership clk org who r t a) st).
Proof.
  intros Hinv. rewrite /exec /upsert_membership.
  cbv [mbind stm_bind ensure gets modify mret stm_ret]. case_bool_decide; [|done].
  apply touch_inv, store_members_inv; [done| |].
  - apply upsert_entry_ok; [done|]. by apply members_of_ok.
  - intros x Hx. apply elem_of_upsert_entry_ids. by right.
Qed.

Lemma update_org_inv org o o' st :
  registry_inv st → organizations st !! org = Some o →
  organization_id o' = organization_id o → created_by_public_id o' = created_by_public_id o →
  registry_inv (st <| organizations ::= <[org := o']> |>).
Proof.
  intros [H1 H2 H3 H4 H5] Ho Hid Hby. split; try done. simpl.
  apply map_Forall_insert_2; [|done]. destruct (H1 _ _ Ho) as [??].
  split; [congruence|]. by rewrite Hby.
Qed.

Lemma update_proposal_inv id p st :
  registry_inv st → proposal_ok id p → registry_inv (st <| proposals ::= <[id := p]> |>).
Proof. intros [H1 H2 H3 H4 H5] Hp. split; try done. by apply map_Forall_insert_2. Qed.

Lemma create_organization_inv clk spec st :
  registry_inv st → registry_inv (exec (create_organization clk spec) st).
Proof.
  intros Hinv. rewrite /exec /create_organization /upsert_membership.
  cbv [mbind stm_bind ensure gets modify mret stm_ret]. case_bool_decide as Hn; [done|]. simpl.
  rewrite bool_decide_eq_true_2; [|by rewrite lookup_insert_eq]. apply touch_inv.
  set (l := upsert_entry _ _).
  assert (members_ok (spec_organization_id spec) l) as Hl.
  { apply upsert_entry_ok; [done|]. by apply (members_of_ok st). }
  destruct Hinv as [H1 H2 H3 H4 H5]. split; try done; simpl.
  - apply map_Forall_insert_2.
    + split; [done|]. rewrite memberships_of_insert. apply elem_of_upsert_entry_ids. by left.
    + intros id o Ho. destruct (H1 _ _ Ho) as [??]. split; [done|].
      rewrite /memberships_of /= lookup_insert_ne //. intros <-. apply Hn. eauto.
  - by apply map_Forall_insert_2.
Qed.

Lemma no_application apps id :
  existsb (λ a, String.eqb (app_proposal_id a) id) (btree_values apps) = false →
  ∀ j b, apps !! j = Some b → app_proposal_id b ≠ id.
Proof.
  intros Hex%not_true_iff_false j b Hj Hb. apply Hex, existsb_elem_of.
  exists b. split; [apply elem_of_btree_values; eauto|]. by apply String.eqb_eq.
Qed.

Lemma create_charter_inv clk id r s t st :
  registry_inv st → registry_inv (exec (create_subnet_charter_application clk id r s t) st).
Proof.
  intros Hinv. rewrite /exec /create_subnet_charter_application. stm_cases; try done.
  destruct Hinv as [I1 I2 I3 I4 I5]. bool_to_prop. split; try done; simpl.
  - by apply map_Forall_insert_2.
  - match goal with H : proposals _ !! id = Some ?p |- _ =>
      assert (proposal_id p = id) as Hpid by (by apply (I3 _ _ H)) end.
    match goal with H : existsb _ _ = false |- _ => rename H into Hex end.
    pose proof (no_application _ _ Hex) as Hfresh.
    intros i j x y [[<- <-]|[Hne Hi]]%lookup_insert_Some
      [[<- <-]|[Hne' Hj]]%lookup_insert_Some Hab; simpl in *; [done| | |eauto].
    + edestruct (Hfresh j y); [done|congruence].
    + edestruct (Hfresh i x); [done|congruence].
Qed.

Lemma org_step_inv st st' : registry_inv st → org_step st st' → registry_inv st'.
Proof.
  intros Hinv [].
  - by apply create_organization_inv.
  - by apply upsert_membership_inv.
  - rewrite /exec /fund_treasury. stm_cases; try done. by eapply update_org_inv.
  - rewrite /exec /spend_treasury. stm_cases; try done. by eapply update_org_inv.
  - rewrite /exec /create_proposal. stm_cases; try done.
    apply touch_inv, update_proposal_inv; [done|]. split; [done|]. set_solver.
  - rewrite /exec /vote_proposal. stm_cases; try done;
      (apply update_proposal_inv; [done|]);
      match goal with H : proposals _ !! id = Some ?p |- _ =>
        destruct (inv_proposals _ Hinv _ _ H) as [? ?] end; split; simpl; set_solver.
  - rewrite /exec /finalize_proposal. stm_cases; try done;
      (apply update_proposal_inv; [done|]);
      match goal with H : proposals _ !! id = Some ?p |- _ =>
        exact (inv_proposals _ Hinv _ _ H) end.
  - by apply create_charter_inv.
Qed.

Lemma reachable_registry_inv st : org_reachable st → registry_inv st.
Proof.
  intros Hr. assert (registry_inv default_registry) as H0 by (split; done).
  revert H0. induction Hr; eauto using org_step_inv.
Qed.

(** In every reachable registry each organization is stored under its id
    and its founder is listed; nobody is listed twice in an organization; a
    proposal is stored under its id and nobody has voted on both sides; every
    charter application carries a snapshot that was eligible, and no two are
    for the same proposal. *)
Theorem registry_invariant st :
  org_reachable st →
  (∀ id o, organization st id = Some o →
     organization_id o = id ∧ created_by_public_id o ∈ public_id <$> memberships_of st id)
  ∧ (∀ id, NoDup (public_id <$> memberships_of st id))
  ∧ (∀ id p, proposals st !! id = Some p → proposal_id p = id ∧ votes_for p ## votes_against p)
  ∧ (∀ i j a b, charter_applications st !! i = Some a → charter_applications st !! j = Some b →
     eligible_for_subnet_charter (readiness_snapshot a) = true
     ∧ (app_proposal_id a = app_proposal_id b → i = j)).
Proof.
  intros Hinv%reachable_registry_inv. split_and!.
  - intros id o. apply (inv_orgs _ Hinv).
  - intros id. apply (members_of_ok _ _ Hinv).
  - apply (inv_proposals _ Hinv).
  - intros i j a b Ha Hb. split; [apply (inv_applications _ Hinv _ _ Ha)|].
    by apply (inv_one_application _ Hinv).
Qed.

(** ** Membership and permissions *)

Lemma find_upsert_entry m l who :
  NoDup (public_id <$> l) →
  find_first (active_for who) (upsert_entry m l) =
  if String.eqb (public_id m) who then (if mem_active m then Some m else None)
  else find_first (active_for who) l.
Proof.
  rewrite /active_for.
  induction l as [|e l IH]; csimpl; intros Hnd.
  { destruct (mem_active m), (String.eqb _ _); done. }
  apply NoDup_cons in Hnd as [Hni Hnd].
  destruct (String.eqb_spec (public_id e) (public_id m)) as [Heq|Hne]; simpl.
  - rewrite Heq. destruct (String.eqb_spec (public_id m) who) as [Hw|]; simpl;
      [|by rewrite !andb_false_r].
    rewrite andb_true_r. case_match; [done|]. apply find_first_None. intros x Hx.
    apply andb_false_intro2, String.eqb_neq. intros Hxe. apply Hni.
    rewrite Heq Hw -Hxe. by apply list_elem_of_fmap_2.
  - rewrite IH //. destruct (String.eqb_spec (public_id m) who) as [Hm|]; [|done].
    rewrite (proj2 (String.eqb_neq (public_id e) who)) ?andb_false_r //. congruence.
Qed.

Lemma touch_memberships org now st : memberships (touch org now st) = memberships st.
Proof. rewrite /touch. by case_match. Qed.

(** After [upsert_membership] on a reachable registry, a person's active
    membership of the organization is the new one exactly when it was stored
    active for that person, and everyone else's, in every organization, is what
    it was; an existing member keeps its joining time. *)
Theorem upsert_membership_spec clk org who r t act st m st' :
  org_reachable st → upsert_membership clk org who r t act st = (Ok m, st') →
  (∀ org2 who2, membership_for_public st' org2 who2 =
     if bool_decide (org2 = org ∧ who2 = who)
     then (if act then Some m else None) else membership_for_public st org2 who2)
  ∧ (∀ old, membership_for_public st org who = Some old → joined_at m = joined_at old).
Proof.
  intros Hinv%reachable_registry_inv Hrun. rewrite /upsert_membership in Hrun. run_inv.
  set (e := memberships_of st org) in *.
  pose proof (members_of_ok st org Hinv) as [Hnd _]. split.
  - intros org2 who2. rewrite /membership_for_public /memberships_of touch_memberships /=.
    destruct (decide (org2 = org)) as [->|Hne].
    + rewrite lookup_insert_eq /= find_upsert_entry //=.
      destruct (String.eqb_spec who who2) as [->|]; [by rewrite bool_decide_eq_true_2|].
      rewrite bool_decide_eq_false_2 //. intros [_ ?]; congruence.
    + rewrite lookup_insert_ne // bool_decide_eq_false_2 //. tauto.
  - intros old Hold. assert (find_first (λ m, String.eqb (public_id m) who) e = Some old) as ->; [|done].
    rewrite /membership_for_public -/e in Hold. fold e in Hnd. clearbody e. clear -Hold Hnd.
    induction e as [|x e IH]; [done|]. csimpl in *. apply NoDup_cons in Hnd as [Hni Hnd].
    rewrite /active_for in Hold. destruct (String.eqb_spec (public_id x) who) as [Hx|].
    + rewrite andb_true_r in Hold. destruct (mem_active x); [done|].
      apply find_first_Some in Hold as [[_ Hp]%andb_true_iff Hin]. apply String.eqb_eq in Hp.
      destruct Hni. rewrite Hx -Hp. by apply list_elem_of_fmap_2.
    + rewrite andb_false_r in Hold. auto.
Qed.

(** An application is accepted exactly when the snapshot is eligible, the
    proposal exists and was accepted, the requester is an active member of its
    organization, no application for it exists and it names a subnet; it is
    then stored under its id and nothing else changes. *)
Theorem create_charter_spec clk id req sp snap st a st' :
  create_subnet_charter_application clk id req sp snap st = (Ok a, st') ↔
  eligible_for_subnet_charter snap = true
  ∧ ∃ p sid sname, proposals st !! id = Some p ∧ prop_status p = Accepted
    ∧ is_Some (membership_for_public st (prop_organization_id p) req)
    ∧ (∀ i b, charter_applications st !! i = Some b → app_proposal_id b ≠ id)
    ∧ proposed_subnet_id p = Some sid ∧ proposed_subnet_name p = Some sname
    ∧ a = mkOrganizationSubnetCharterApplication
            (prop_organization_id p +:+ "-charter-" +:+ show_Z (clk 0%nat))
            (prop_organization_id p) (proposal_id p) req sp sid sname (prop_summary p)
            (clk 0%nat) PendingGovernance snap
    ∧ st' = st <| charter_applications ::= <[application_id a := a]> |>.
Proof.
  split.
  - intros Hrun. rewrite /create_subnet_charter_application in Hrun. run_inv. bool_to_prop.
    split; [done|]. do 3 eexists. split_and!; try done. by apply no_application.
  - intros (He & p & sid & sname & Hp & Hs & Hm & Hfresh & Hsid & Hsn & -> & ->).
    rewrite /create_subnet_charter_application. cbv [mbind stm_bind gets lift ok_or ensure].
    rewrite He Hp. rewrite !bool_decide_eq_true_2 //; [|by destruct (prop_kind p)].
    destruct (existsb _ _) eqn:Hex; [|by rewrite /= Hsid Hsn].
    apply existsb_elem_of in Hex as (b & [i Hb]%elem_of_btree_values & Heq%String.eqb_eq).
    by edestruct Hfresh.
Qed.

(** An organization is ready for a subnet charter exactly when it has
    three active members, forty watt, two settled missions and a governed home
    subnet, and exactly then its status is subnet-ready. *)
Lemma autonomy_track_eligible o members opened settled governed :
  let t := compute_autonomy_track o members opened settled governed in
  (eligible_for_subnet_charter t = true ↔
     3 ≤ members ∧ 40 ≤ treasury_watt o ∧ 2 ≤ settled ∧ is_Some (home_subnet_id o)
     ∧ governed = true)
  ∧ (current_status t = "subnet-ready" ↔ eligible_for_subnet_charter t = true).
Proof.
  rewrite /compute_autonomy_track /=. split.
  - rewrite !andb_true_iff !Z.leb_le /i64_of_usize /i64_max. rewrite is_Some_alt.
    destruct (home_subnet_id o), governed; simpl; split; intros; destruct_and?; split_and?; try done; lia.
  - set (b := _ && _). destruct b; [done|]. repeat case_match; done.
Qed.

(** A proposal's id is its organization and the second it is created in,
    so a second proposal of the same organization within that second takes the
    place of the first one: its text and its votes are lost, whatever its
    status was. *)
Theorem create_proposal_same_second clk spec st p st' id old :
  create_proposal clk spec st = (Ok p, st') →
  proposals st !! id = Some old →
  id = pspec_organization_id spec +:+ "-proposal-" +:+ show_Z (clk 0%nat) →
  proposals st' !! id = Some p ∧ prop_status p = Open ∧ votes_for p = ∅ ∧ votes_against p = ∅.
Proof.
  intros Hrun Hold ->. rewrite /create_proposal in Hrun. run_inv. split_and!; try done.
  rewrite /touch. case_match; by rewrite /= lookup_insert_eq.
Qed.

(** ** A concrete registry *)

Module OrgScenario.
Definition clk : clock := λ _, 100.
Definition spec : OrganizationCreateSpec :=
  mkOrganizationCreateSpec "guild" "Guild" Guild "" None (Some "subnet") None "ada".
Definition pspec (title : string) : OrganizationProposalCreateSpec :=
  mkOrganizationProposalCreateSpec "guild" SubnetCharter title "" (Some "s") (Some "S") "ada".
Definition o1 : OrganizationRegistry := exec (create_organization clk spec) default_registry.
Definition o2 : OrganizationRegistry := exec (create_proposal clk (pspec "first")) o1.
Definition o3 : OrganizationRegistry := exec (vote_proposal "guild-proposal-100" "ada" true) o2.

Lemma o3_reachable : org_reachable o3.
Proof.
  eapply rtc_l; [apply (step_create _ clk spec)|].
  eapply rtc_l; [apply (step_propose _ clk (pspec "first"))|].
  eapply rtc_l; [apply (step_vote _ "guild-proposal-100" "ada" true)|]. apply rtc_refl.
Qed.

Lemma registry_invariant_witness : NoDup (public_id <$> memberships_of o3 "guild").
Proof. exact (proj1 (proj2 (registry_invariant o3 o3_reachable)) "guild"). Defined.

Lemma upsert_membership_spec_witness :
  ∃ m st', upsert_membership clk "guild" "bob" Officer None true o3 = (Ok m, st')
    ∧ membership_for_public st' "guild" "bob" = Some m.
Proof.
  destruct (upsert_membership clk "guild" "bob" Officer None true o3) as [[m|e] st'] eqn:E.
  - exists m, st'. split; [reflexivity|].
    exact (proj1 (upsert_membership_spec _ _ _ _ _ _ _ _ _ o3_reachable E) "guild" "bob").
  - apply (f_equal fst) in E. vm_compute in E. discriminate E.
Defined.

Lemma create_proposal_same_second_witness :
  ∃ p, proposals (exec (create_proposal clk (pspec "second")) o3) !! "guild-proposal-100" = Some p
    ∧ votes_for p = ∅.
Proof.
  destruct (create_proposal clk (pspec "second") o3) as [[p|e] st'] eqn:E.
  - destruct (proposals o3 !! "guild-proposal-100") as [old|] eqn:Hold.
    + exists p. rewrite /exec E.
      destruct (create_proposal_same_second clk (pspec "second") o3 p st' _ old E Hold)
        as (H1 & _ & H2 & _); [reflexivity|]. exact (conj H1 H2).
    + vm_compute in Hold. discriminate Hold.
  - apply (f_equal fst) in E. vm_compute in E. discriminate E.
Defined.
End OrgScenario.
