(* ===== verification/PaymentModel.v ===== *)
(** * Payments: transactions and agent messages

    The data of [payments/mod.rs], the authorization signature of a payment
    and the validation of payment messages received from other agents. The
    secp256k1 wallet is third-party code: its operations are the class
    [Wallet]. *)

From S2P Require Import Prelude Text Json Signing.
#[local] Open Scope Z_scope.

Inductive SettlementLayer := Web2 | Web3.

Inductive PaymentStatus :=
  Proposed | Authorized | Submitted | Settled | Rejected | Expired | Cancelled.

Inductive PaymentMessageKind :=
  MsgRequest | MsgAuthorized | MsgSubmitted | MsgSettled | MsgRejected | MsgCancelled.

#[global] Instance SettlementLayer_eq_dec : EqDecision SettlementLayer.
Proof. solve_decision. Defined.
#[global] Instance PaymentStatus_eq_dec : EqDecision PaymentStatus.
Proof. solve_decision. Defined.

Definition rank (s : PaymentStatus) : Z :=
  match s with
  | Proposed => 0 | Authorized => 1 | Submitted => 2 | Settled => 3
  | Rejected => 4 | Expired => 5 | Cancelled => 6
  end.

(** [{:?}] of a status. *)
Definition debug_status (s : PaymentStatus) : string :=
  match s with
  | Proposed => "Proposed" | Authorized => "Authorized" | Submitted => "Submitted"
  | Settled => "Settled" | Rejected => "Rejected" | Expired => "Expired"
  | Cancelled => "Cancelled"
  end.

Record PaymentTransaction := mkPaymentTransaction {
  payment_id : string;
  sender_did : string;
  recipient_did : string;
  sender_public_id : string;
  recipient_public_id : string;
  remote_node_id : string;
  amount : string;
  currency : string;
  rail : string;
  layer : SettlementLayer;
  network : option string;
  sender_address : option string;
  recipient_address : option string;
  mission_id : option string;
  task_id : option string;
  description : option string;
  metadata : option json;
  status : PaymentStatus;
  authorization_signature : option string;
  authorization_public_key : option string;
  settlement_receipt : option json;
  reject_reason : option string;
  proposed_at : Z;
  authorized_at : option Z;
  settled_at : option Z;
  expires_at : option Z;
}.
#[global] Instance eta_PaymentTransaction : Eta PaymentTransaction := λ p,
  mkPaymentTransaction (payment_id p) (sender_did p) (recipient_did p) (sender_public_id p)
    (recipient_public_id p) (remote_node_id p) (amount p) (currency p) (rail p) (layer p)
    (network p) (sender_address p) (recipient_address p) (mission_id p) (task_id p)
    (description p) (metadata p) (status p) (authorization_signature p)
    (authorization_public_key p) (settlement_receipt p) (reject_reason p) (proposed_at p)
    (authorized_at p) (settled_at p) (expires_at p).
#[global] Instance PaymentTransaction_eq_dec : EqDecision PaymentTransaction.
Proof. solve_decision. Defined.

Record PaymentAgentMessage := mkPaymentAgentMessage {
  msg_kind : PaymentMessageKind;
  msg_payment : PaymentTransaction;
  emitted_at : Z;
}.

Definition agent_message (p : PaymentTransaction) (k : PaymentMessageKind) (at_ : Z)
    : PaymentAgentMessage := mkPaymentAgentMessage k p at_.

(** ** Message kinds *)

Definition kind_as_str (k : PaymentMessageKind) : string :=
  match k with
  | MsgRequest => "payment_request" | MsgAuthorized => "payment_authorized"
  | MsgSubmitted => "payment_submitted" | MsgSettled => "payment_settled"
  | MsgRejected => "payment_rejected" | MsgCancelled => "payment_cancelled"
  end.

Definition expected_status (k : PaymentMessageKind) : PaymentStatus :=
  match k with
  | MsgRequest => Proposed | MsgAuthorized => Authorized | MsgSubmitted => Submitted
  | MsgSettled => Settled | MsgRejected => Rejected | MsgCancelled => Cancelled
  end.

Definition expected_actor_did (k : PaymentMessageKind) (p : PaymentTransaction) : option string :=
  match k with
  | MsgRequest | MsgAuthorized | MsgSubmitted | MsgCancelled => Some (sender_did p)
  | MsgRejected => Some (recipient_did p)
  | MsgSettled => None
  end.

(** The kinds that carry a signed authorization. *)
Definition carries_authorization (k : PaymentMessageKind) : bool :=
  match k with MsgAuthorized | MsgSubmitted | MsgSettled => true | _ => false end.

Definition source_payment_account_binding_required (k : PaymentMessageKind)
    (p : PaymentTransaction) (source : string) : bool :=
  if negb (String.eqb source (sender_did p)) then false
  else carries_authorization k
    || match k with
       | MsgRequest => match sender_address p with Some a => negb (is_blank a) | None => false end
       | _ => false
       end.

(** ** Authorization *)

Class Wallet := {
  (** [serde_json::to_vec] *)
  json_to_vec : json → result string;
  (** [verify_secp256k1_with_multibase_public_key(key, message, signature)] *)
  verify_secp256k1 : string → string → string → result unit;
  (** [evm_address_from_secp256k1_multibase_public_key] *)
  evm_address : string → result string;
}.

Definition json_of_layer (l : SettlementLayer) : json :=
  JString (match l with Web2 => "web2" | Web3 => "web3" end).

(** The struct [PaymentAuthorizationPayload]. *)
Definition authorization_payload (t : PaymentTransaction) : json :=
  JObject
    [("payment_id", JString (payment_id t)); ("sender_did", JString (sender_did t));
     ("recipient_did", JString (recipient_did t));
     ("sender_public_id", JString (sender_public_id t));
     ("recipient_public_id", JString (recipient_public_id t));
     ("remote_node_id", JString (remote_node_id t)); ("amount", JString (amount t));
     ("currency", JString (currency t)); ("rail", JString (rail t));
     ("layer", json_of_layer (layer t)); ("network", json_of_option JString (network t));
     ("sender_address", json_of_option JString (sender_address t));
     ("recipient_address", json_of_option JString (recipient_address t));
     ("mission_id", json_of_option JString (mission_id t));
     ("task_id", json_of_option JString (task_id t));
     ("description", json_of_option JString (description t));
     ("expires_at", json_of_option json_of_Z (expires_at t))].

Section authorization.
Context `{Crypto, Wallet}.

Definition authorization_payload_bytes (t : PaymentTransaction) : result string :=
  with_context "serialize payment authorization payload" (json_to_vec (authorization_payload t)).

Definition verify_payment_authorization_signature (t : PaymentTransaction) : result unit :=
  signature ← ok_or "payment authorization signature is required" (authorization_signature t);
  public_key ← ok_or "payment authorization public key is required" (authorization_public_key t);
  signature ← ok_or "decode payment authorization signature" (base64_decode signature);
  payload ← authorization_payload_bytes t;
  with_context "verify payment authorization signature"
    (verify_secp256k1 public_key payload signature);;
  sender ← ok_or "payment authorization sender address is required" (sender_address t);
  derived ← evm_address public_key;
  if negb (eq_ignore_ascii_case derived sender)
  then Err "payment authorization public key does not match sender address"
  else Ok tt.

Definition validate_agent_payment_message (m : PaymentAgentMessage) (source : string)
    : result unit :=
  let p := msg_payment m in
  let k := msg_kind m in
  (if negb (bool_decide (status p = expected_status k))
   then Err ("payment message kind " +:+ kind_as_str k +:+ " does not match payment status "
             +:+ debug_status (status p))
   else Ok tt);;
  match expected_actor_did k p with
  | Some expected =>
      if negb (String.eqb expected source)
      then Err ("payment message kind " +:+ kind_as_str k +:+ " must be sent by " +:+ expected)
      else Ok tt
  | None =>
      if negb (String.eqb source (sender_did p)) && negb (String.eqb source (recipient_did p))
      then Err "payment settlement message must be sent by a payment participant"
      else Ok tt
  end;;
  if carries_authorization k then verify_payment_authorization_signature p else Ok tt.

(** *** What an accepted message proves *)

(** The payment carries a valid signature, under a key whose address is the
    sender's, of exactly its own authorization payload. *)
Definition authorized_by_sender (t : PaymentTransaction) : Prop :=
  ∃ sig64 key sig payload addr derived,
    authorization_signature t = Some sig64 ∧ base64_decode sig64 = Some sig
    ∧ authorization_public_key t = Some key
    ∧ json_to_vec (authorization_payload t) = Ok payload
    ∧ verify_secp256k1 key payload sig = Ok tt
    ∧ sender_address t = Some addr ∧ evm_address key = Ok derived
    ∧ eq_ignore_ascii_case derived addr = true.

Lemma verify_authorization_iff t :
  verify_payment_authorization_signature t = Ok tt ↔ authorized_by_sender t.
Proof.
  rewrite /verify_payment_authorization_signature /authorization_payload_bytes.
  repeat setoid_rewrite result_bind_ok. repeat setoid_rewrite ok_or_ok.
  repeat setoid_rewrite with_context_ok. split.
  - intros (s64 & Hs & key & Hk & sig & Hd & pl & Hp & [] & Hv & ad & Ha & dr & He & Hc).
    exists s64, key, sig, pl, ad, dr. by destruct (eq_ignore_ascii_case dr ad).
  - intros (s64 & key & sig & pl & ad & dr & Hs & Hd & Hk & Hp & Hv & Ha & He & Hc).
    do 7 (eexists; split; [eassumption|]). by rewrite Hc.
Qed.

Lemma validated_message_signed m source :
  validate_agent_payment_message m source = Ok tt →
  status (msg_payment m) = expected_status (msg_kind m)
  ∧ (carries_authorization (msg_kind m) = true → authorized_by_sender (msg_payment m)).
Proof.
  rewrite /validate_agent_payment_message result_bind_ok.
  intros (u & Hs & Hr). apply result_bind_ok in Hr as (u' & _ & Hv). split.
  - by case_bool_decide.
  - intros Hc. rewrite Hc in Hv. by apply verify_authorization_iff.
Qed.

(** A payment message is accepted exactly when its kind matches the status
    it reports, it is sent by the party that may report it (sender for a
    request, an authorization, a submission or a cancellation, recipient for a
    rejection, either for a settlement), and, from authorization on, it carries
    a wallet signature of its own terms under the sender's address. *)
Theorem validate_message_spec m source :
  validate_agent_payment_message m source = Ok tt ↔
  status (msg_payment m) = expected_status (msg_kind m)
  ∧ match msg_kind m with
    | MsgRequest | MsgCancelled => source = sender_did (msg_payment m)
    | MsgRejected => source = recipient_did (msg_payment m)
    | MsgAuthorized | MsgSubmitted =>
        source = sender_did (msg_payment m) ∧ authorized_by_sender (msg_payment m)
    | MsgSettled =>
        (source = sender_did (msg_payment m) ∨ source = recipient_did (msg_payment m))
        ∧ authorized_by_sender (msg_payment m)
    end.
Proof.
  rewrite /validate_agent_payment_message.
  pose proof (verify_authorization_iff (msg_payment m)) as Hiff.
  case_bool_decide as Hs; simpl; [|naive_solver].
  destruct (msg_kind m); simpl; rewrite /mbind /=;
    repeat match goal with
    | |- context [String.eqb ?a ?b] => destruct (String.eqb_spec a b); simpl
    end; naive_solver.
Qed.
End authorization.
