(* ===== verification/X402.v ===== *)
(** * Payments: the x402 rail

    [payments/x402.rs]: amounts of stablecoins in decimal and in base units,
    payment requirements offered by a server, and the validation of a
    settlement receipt against the payment it settles. Base64, JSON text and
    the derived decoders are third-party: the class [X402Codec]. *)

From S2P Require Import Prelude Collections Text Json Signing PaymentModel.
#[local] Open Scope Z_scope.

Definition PAYMENT_REQUIRED_HEADER : string := "PAYMENT-REQUIRED".
Definition PAYMENT_RESPONSE_HEADER : string := "PAYMENT-RESPONSE".
Definition X402_VERSION : Z := 2.

Record X402PaymentRequirement := mkX402PaymentRequirement {
  scheme : string;
  req_network : string;
  asset : option string;
  req_amount : string;
  pay_to : string;
  max_timeout_seconds : option Z;
  extra : option json;
  req_raw : json;
}.
#[global] Instance eta_X402PaymentRequirement : Eta X402PaymentRequirement := λ r,
  mkX402PaymentRequirement (scheme r) (req_network r) (asset r) (req_amount r) (pay_to r)
    (max_timeout_seconds r) (extra r) (req_raw r).

Record X402PaymentRequired := mkX402PaymentRequired {
  x402_version : option Z;
  accepts : list X402PaymentRequirement;
  required_raw : json;
}.

Record X402SettlementResponse := mkX402SettlementResponse {
  success : bool;
  payer : string;
  transaction : string;
  resp_network : string;
  resp_amount : string;
  error_reason : option string;
  error_message : option string;
  resp_raw : json;
}.
#[global] Instance eta_X402SettlementResponse : Eta X402SettlementResponse := λ r,
  mkX402SettlementResponse (success r) (payer r) (transaction r) (resp_network r) (resp_amount r)
    (error_reason r) (error_message r) (resp_raw r).

Definition receipt_value (r : X402SettlementResponse) : json := resp_raw r.

(** ** Amounts *)

Definition stablecoin_decimals (currency : string) : option nat :=
  let c := to_ascii_uppercase (trim currency) in
  if String.eqb c "USDC" || String.eqb c "USDT" then Some 6%nat else None.

(** [str::split('.')] on the bytes. *)
Fixpoint split_on (sep : ascii) (l : bytes) : list bytes :=
  match l with
  | [] => [[]]
  | c :: l' =>
      if Ascii.eqb c sep then [] :: split_on sep l'
      else match split_on sep l' with
           | p :: ps => (c :: p) :: ps
           | [] => [[c]]
           end
  end.

(** [str::trim_end_matches('0')]. *)
Fixpoint drop_zeros (l : bytes) : bytes :=
  match l with
  | c :: l' => if Ascii.eqb c "0"%char then drop_zeros l' else l
  | [] => []
  end.
Definition trim_end_zeros (l : bytes) : bytes := reverse (drop_zeros (reverse l)).

(** [{:0<n}] and [{:0n}] padding with zeros. *)
Definition pad_right (n : nat) (l : bytes) : bytes := l ++ replicate (n - length l) "0"%char.
Definition pad_left (n : nat) (l : bytes) : bytes := replicate (n - length l) "0"%char ++ l.

(** [10_u128.checked_pow]. *)
Definition u128_pow10 (decimals : nat) : option Z := u128_checked (10 ^ Z.of_nat decimals).

Definition fractional_units (fractional : bytes) (decimals : nat) (cur : string) : result Z :=
  let fractional := trim_end_zeros fractional in
  if negb (all_digits fractional) then Err (cur +:+ " payment amount is not a decimal value")
  else if (decimals <? length fractional)%nat
  then Err (cur +:+ " payment amount has more than " +:+ show_Z (Z.of_nat decimals)
            +:+ " decimal places")
  else ok_or (cur +:+ " payment amount is too large")
         (parse_u128 (of_bytes (pad_right decimals fractional))).

Definition decimal_amount_to_base_units (amount : string) (decimals : nat) (currency : string)
    : result string :=
  let cur := to_ascii_uppercase (trim currency) in
  let amount := trim amount in
  if String.eqb amount "" || String.prefix "-" amount
  then Err (cur +:+ " payment amount must be greater than zero") else
  let parts := split_on "."%char (to_bytes amount) in
  if (2 <? length parts)%nat then Err (cur +:+ " payment amount is not a decimal value") else
  let whole := match hd [] parts with [] => ["0"%char] | w => w end in
  if negb (all_digits whole) then Err (cur +:+ " payment amount is not a decimal value") else
  whole_units ← ok_or (cur +:+ " payment amount is too large") (parse_u128 (of_bytes whole));
  scale ← ok_or (cur +:+ " payment decimals are too large") (u128_pow10 decimals);
  frac ← match parts !! 1%nat with
         | Some f => fractional_units f decimals cur
         | None => Ok 0
         end;
  base_units ← ok_or (cur +:+ " payment amount is too large")
    (v ← u128_checked (whole_units * scale); u128_checked (v + frac));
  if base_units =? 0 then Err (cur +:+ " payment amount must be greater than zero")
  else Ok (show_Z base_units).

Definition format_base_units_as_decimal (base_units : Z) (decimals : nat) : string :=
  let scale := default 1 (u128_pow10 decimals) in
  let whole := base_units / scale in
  let fractional := base_units mod scale in
  if fractional =? 0 then show_Z whole
  else show_Z whole +:+ "."
       +:+ of_bytes (trim_end_zeros (pad_left decimals (to_bytes (show_Z fractional)))).

Definition stablecoin_amount_to_base_units (amount currency : string) : result (option string) :=
  match stablecoin_decimals currency with
  | None => Ok None
  | Some decimals => Some <$> decimal_amount_to_base_units amount decimals currency
  end.

Definition stablecoin_amount_from_base_units (amount currency : string) : option string :=
  decimals ← stablecoin_decimals currency;
  base_units ← parse_u128 (trim amount);
  Some (format_base_units_as_decimal base_units decimals).

Definition amounts_match (receipt_amount expected_amount : string) : bool :=
  match parse_u128 receipt_amount, parse_u128 expected_amount with
  | Some r, Some e => r =? e
  | _, _ => String.eqb receipt_amount expected_amount
  end.

(** ** Networks *)

Definition one_of (l : list string) (s : string) : bool := existsb (String.eqb s) l.

Definition canonical_x402_network (network : string) : string :=
  let n := to_ascii_lowercase (trim network) in
  if one_of ["base"; "base-mainnet"; "eip155:8453"; "8453"] n then "eip155:8453"
  else if one_of ["base-sepolia"; "base_sepolia"; "eip155:84532"; "84532"] n then "eip155:84532"
  else if one_of ["ethereum"; "ethereum-mainnet"; "mainnet"; "eip155:1"; "1"] n then "eip155:1"
  else if one_of ["polygon"; "polygon-mainnet"; "eip155:137"; "137"] n then "eip155:137"
  else if one_of ["optimism"; "optimism-mainnet"; "eip155:10"; "10"] n then "eip155:10"
  else if one_of ["arbitrum"; "arbitrum-one"; "eip155:42161"; "42161"] n then "eip155:42161"
  else n.

(** ** Requirements *)

Definition requirement_currency_matches (r : X402PaymentRequirement) (currency : string) : bool :=
  if is_some_and (λ a, eq_ignore_ascii_case a currency) (asset r) then true
  else is_some_and (λ n, eq_ignore_ascii_case n currency)
         (e ← extra r; n ← json_get "name" e; as_str n).

Definition select_payment_requirement (required : X402PaymentRequired)
    (network amount currency : option string) : option X402PaymentRequirement :=
  find_first (λ r,
    is_none_or (λ n, String.eqb (canonical_x402_network (req_network r))
                       (canonical_x402_network n)) network
    && is_none_or (λ a, amounts_match (req_amount r) a) amount
    && is_none_or (λ c, requirement_currency_matches r c) currency) (accepts required).

(** [payload["resource"] = ..] on an object without that key. *)
Definition build_payment_signature_payload (accepted : X402PaymentRequirement)
    (scheme_payload : json) (resource : option json) : json :=
  JObject ([("x402Version", json_of_Z X402_VERSION); ("accepted", req_raw accepted);
            ("payload", scheme_payload)]
           ++ match resource with Some r => [("resource", r)] | None => [] end).

Class X402Codec := {
  base64_encode : string → string;
  (** [serde_json::from_slice] and [to_vec] of a [Value] *)
  json_from_slice : string → option json;
  json_to_text : json → result string;
  (** [serde_json::from_value] into the two structs *)
  requirement_from_value : json → option X402PaymentRequirement;
  settlement_from_value : json → option X402SettlementResponse;
}.

Section codec.
Context `{Crypto, X402Codec}.

Definition decode_header_json (header header_name : string) : result json :=
  decoded ← ok_or ("decode " +:+ header_name +:+ " header") (base64_decode (trim header));
  ok_or ("parse " +:+ header_name +:+ " JSON") (json_from_slice decoded).

Definition encode_header_json (v : json) : result string :=
  b ← with_context "serialize x402 header JSON" (json_to_text v); Ok (base64_encode b).

Definition parse_payment_requirement (v : json) : result X402PaymentRequirement :=
  r ← ok_or "parse x402 payment requirement" (requirement_from_value v);
  if is_blank (scheme r) then Err "x402 payment requirement missing scheme"
  else if is_blank (req_network r) then Err "x402 payment requirement missing network"
  else if is_blank (req_amount r) then Err "x402 payment requirement missing amount"
  else if is_blank (pay_to r) then Err "x402 payment requirement missing payTo"
  else Ok (r <| req_raw := v |>).

Definition parse_payment_required (v : json) : result X402PaymentRequired :=
  let version := json_get "x402Version" v ≫= as_u64 in
  if is_some_and (λ n, negb (n =? X402_VERSION)) version
  then Err ("unsupported x402 version " +:+ show_Z (default 0 version)) else
  requirements ← ok_or "x402 payment required missing accepted requirements"
    (or_else (json_get "accepts" v)
       (or_else (json_get "paymentRequirements" v) (json_get "paymentRequirementsList" v)));
  accs ← match requirements with
         | JArray values => collect parse_payment_requirement values
         | JObject _ => r ← parse_payment_requirement requirements; Ok [r]
         | _ => Err "x402 payment requirements must be an object or array"
         end;
  match accs with
  | [] => Err "x402 payment required contains no accepted requirements"
  | _ => Ok {| x402_version := version; accepts := accs; required_raw := v |}
  end.

Definition parse_settlement_response (v : json) : result X402SettlementResponse :=
  r ← ok_or "parse x402 settlement response" (settlement_from_value v);
  Ok (r <| resp_raw := v |>).

Definition decode_payment_required_header (header : string) : result X402PaymentRequired :=
  v ← decode_header_json header PAYMENT_REQUIRED_HEADER; parse_payment_required v.

Definition decode_settlement_response_header (header : string) : result X402SettlementResponse :=
  v ← decode_header_json header PAYMENT_RESPONSE_HEADER; parse_settlement_response v.

Definition encode_payment_signature_header (payload : json) : result string :=
  encode_header_json payload.
End codec.

(** ** Settlement receipts *)

Definition receipt_bool (receipt : json) (keys : list string) : option bool :=
  find_map (λ k, json_get k receipt ≫= as_bool) keys.

Definition receipt_string (receipt : json) (keys : list string) : option string :=
  trimmed_nonempty (find_map (λ k, get_str k receipt) keys).

Definition required_receipt_string (receipt : json) (keys : list string) : result string :=
  ok_or ("x402 settlement receipt missing " +:+ String.concat "/" keys)
    (receipt_string receipt keys).

Definition is_evm_transaction_hash (v : string) : bool :=
  (String.length v =? 66)%nat && String.prefix "0x" v
  && forallb is_ascii_hexdigit (drop 2 (to_bytes v)).

Definition reject_if (b : bool) (e : string) : result unit := if b then Err e else Ok tt.

Definition validate_x402_settlement_receipt (t : PaymentTransaction) (receipt : json)
    : result unit :=
  if negb (eq_ignore_ascii_case (rail t) "x402") then Ok tt else
  reject_if (is_some_and (λ r, negb (eq_ignore_ascii_case r "x402"))
               (receipt_string receipt ["rail"]))
    "x402 settlement receipt rail must be x402";;
  reject_if (negb (bool_decide (receipt_bool receipt ["success"] = Some true)))
    "x402 settlement receipt must report success=true";;
  payer ← required_receipt_string receipt ["payer"];
  sender ← ok_or "x402 settlement requires sender_address" (sender_address t);
  reject_if (negb (eq_ignore_ascii_case payer sender))
    "x402 settlement payer does not match sender_address";;
  hash ← required_receipt_string receipt ["transaction"; "tx_hash"; "txHash"];
  reject_if (negb (is_evm_transaction_hash hash))
    "x402 settlement transaction must be an EVM transaction hash";;
  receipt_amount ← required_receipt_string receipt ["amount"];
  reject_if (negb (amounts_match receipt_amount (amount t)))
    "x402 settlement amount does not match payment amount";;
  receipt_network ← required_receipt_string receipt ["network"];
  reject_if (is_some_and (λ n, negb (String.eqb (canonical_x402_network receipt_network)
                                       (canonical_x402_network n))) (network t))
    "x402 settlement network does not match payment network";;
  reject_if match receipt_string receipt ["payTo"; "pay_to"; "recipient"; "to"],
                  recipient_address t with
            | Some to_, Some expected => negb (eq_ignore_ascii_case to_ expected)
            | _, _ => false
            end
    "x402 settlement payTo does not match recipient_address".

(** ** Amounts are exact *)

Lemma drop_zeros_split l : ∃ k, l = replicate k "0"%char ++ drop_zeros l.
Proof.
  induction l as [|c l [k IH]]; [by exists O|]. simpl.
  destruct (Ascii.eqb_spec c "0"%char) as [->|]; [|by exists O].
  exists (S k). by rewrite {1}IH.
Qed.

Lemma drop_zeros_idem l : drop_zeros (drop_zeros l) = drop_zeros l.
Proof.
  induction l as [|c l IH]; [done|]. simpl.
  destruct (Ascii.eqb c "0"%char) eqn:E; [done|]. by rewrite /= E.
Qed.

Lemma trim_end_zeros_split l : ∃ k, l = trim_end_zeros l ++ replicate k "0"%char.
Proof.
  destruct (drop_zeros_split (reverse l)) as [k Hk]. exists k.
  apply (f_equal reverse) in Hk. by rewrite reverse_involutive reverse_app reverse_replicate in Hk.
Qed.

Lemma trim_end_zeros_idem l : trim_end_zeros (trim_end_zeros l) = trim_end_zeros l.
Proof. by rewrite /trim_end_zeros reverse_involutive drop_zeros_idem. Qed.

Lemma trim_end_zeros_digits l : all_digits (trim_end_zeros l) = all_digits l.
Proof.
  destruct (trim_end_zeros_split l) as [k Hk]. rewrite {2}Hk all_digits_app.
  by rewrite all_digits_replicate_0 andb_true_r.
Qed.

Lemma pad_right_trim_end l : pad_right (length l) (trim_end_zeros l) = l.
Proof.
  destruct (trim_end_zeros_split l) as [k Hk]. rewrite /pad_right.
  set (t := trim_end_zeros l) in *. clearbody t. subst l. f_equal. f_equal.
  rewrite length_app length_replicate. lia.
Qed.

Lemma split_on_none sep l : sep ∉ l → split_on sep l = [l].
Proof.
  induction l as [|c l IH]; simpl; [done|]. intros [Hne Hl]%not_elem_of_cons.
  destruct (Ascii.eqb_spec c sep) as [->|]; [done|]. by rewrite IH.
Qed.

Lemma split_on_cons sep l r : sep ∉ l → split_on sep (l ++ sep :: r) = l :: split_on sep r.
Proof.
  induction l as [|c l IH]; simpl; [by rewrite Ascii.eqb_refl|].
  intros [Hne Hl]%not_elem_of_cons.
  destruct (Ascii.eqb_spec c sep) as [->|]; [done|]. by rewrite IH.
Qed.

Lemma digits_no_dot l : all_digits l = true → "."%char ∉ l.
Proof. by apply digits_no_char. Qed.

(** What is written before and after the decimal point. *)
Definition amount_parts (amount : string) : bytes * bytes :=
  let parts := split_on "."%char (to_bytes (trim amount)) in
  (hd [] parts, default [] (parts !! 1%nat)).

Lemma u128_checked_Some z v : u128_checked z = Some v → v = z ∧ 0 ≤ z ≤ u128_max.
Proof. rewrite /u128_checked /uint_checked. case_match; [|done]. bool_to_prop. naive_solver. Qed.

Lemma u128_checked_ok z : 0 ≤ z ≤ u128_max → u128_checked z = Some z.
Proof.
  intros ?. rewrite /u128_checked /uint_checked.
  by rewrite (proj2 (Z.leb_le 0 z)) ?(proj2 (Z.leb_le z u128_max)); try lia.
Qed.

(** The fraction, scaled: its digits are kept, its trailing zeros are free. *)
Lemma fractional_units_value f d cur v :
  fractional_units f d cur = Ok v →
  v * 10 ^ Z.of_nat (length f) = dec 0 f * 10 ^ Z.of_nat d.
Proof.
  rewrite /fractional_units. destruct (trim_end_zeros_split f) as [k Hk].
  set (t := trim_end_zeros f) in *. destruct (all_digits t) eqn:Hd; [|done]. simpl.
  destruct (d <? length t)%nat eqn:Hlen; [done|]. bool_to_prop. rewrite ok_or_ok => Hp.
  assert (v = dec 0 t * 10 ^ Z.of_nat (d - length t)) as ->.
  { destruct (pad_right d t) as [|c r] eqn:Hpad; [done|].
    rewrite parse_u128_digits -?Hpad in Hp.
    - apply u128_checked_Some in Hp as [-> _]. by rewrite /pad_right dec_app dec_replicate_0.
    - by rewrite /pad_right all_digits_app Hd all_digits_replicate_0.
    - by rewrite Hpad. }
  rewrite {1 2}Hk dec_app dec_replicate_0 length_app length_replicate Nat2Z.inj_add.
  rewrite Z.pow_add_r; [|lia..].
  assert (10 ^ Z.of_nat d = 10 ^ Z.of_nat (length t) * 10 ^ Z.of_nat (d - length t)) as ->.
  { rewrite -Z.pow_add_r; [|lia..]. f_equal. lia. }
  ring.
Qed.

(** The conversion of a decimal stablecoin amount is exact. An accepted
    amount [W.F] becomes the positive base-unit count [n] with
    [n * 10^|F| = WF * 10^decimals] and never overflows; nothing is rounded. *)
Theorem base_units_exact amount d currency b :
  decimal_amount_to_base_units amount d currency = Ok b →
  let '(w, f) := amount_parts amount in
  ∃ n, b = show_Z n ∧ 0 < n ≤ u128_max
    ∧ n * 10 ^ Z.of_nat (length f) = dec 0 (w ++ f) * 10 ^ Z.of_nat d.
Proof.
  rewrite /decimal_amount_to_base_units /amount_parts.
  case_match; [done|]. set (parts := split_on _ _). case_match; [done|].
  set (whole := match hd [] parts with [] => _ | _ => _ end).
  assert (dec 0 whole = dec 0 (hd [] parts)) as Hw by (by subst whole; destruct (hd [] parts)).
  assert (whole ≠ []) as Hne by (by subst whole; destruct (hd [] parts)).
  destruct (all_digits whole) eqn:Hd; [|done]. simpl.
  rewrite result_bind_ok. intros (wu & Hwu%ok_or_ok & Hrest).
  rewrite parse_u128_digits // in Hwu. apply u128_checked_Some in Hwu as [-> _].
  apply result_bind_ok in Hrest as (sc & [-> _]%ok_or_ok%u128_checked_Some & Hrest).
  apply result_bind_ok in Hrest as (fr & Hfr & Hrest).
  apply result_bind_ok in Hrest as (n & Hn%ok_or_ok & Hrest).
  apply bind_Some in Hn as (? & [-> ?]%u128_checked_Some & [-> ?]%u128_checked_Some).
  case_match; [done|]. bool_to_prop. simplify_eq.
  eexists. split; [done|]. split; [lia|].
  rewrite dec_app (dec_linear (dec 0 (hd [] parts))) Hw.
  assert (fr * 10 ^ Z.of_nat (length (default [] (parts !! 1%nat)))
          = dec 0 (default [] (parts !! 1%nat)) * 10 ^ Z.of_nat d) as Hf.
  { destruct (parts !! 1%nat); [by eapply fractional_units_value|]. simplify_eq/=. lia. }
  rewrite Z.mul_add_distr_r Hf. ring.
Qed.

(** ** Printing base units and reading them back *)

Lemma pad_left_digits n l : all_digits l = true → all_digits (pad_left n l) = true.
Proof. intros H. by rewrite /pad_left all_digits_app all_digits_replicate_0. Qed.

Lemma pad_left_dec n l : dec 0 (pad_left n l) = dec 0 l.
Proof. by rewrite /pad_left dec_app dec_replicate_0. Qed.

Lemma pad_left_length n l : (length l ≤ n)%nat → length (pad_left n l) = n.
Proof. rewrite /pad_left length_app length_replicate. lia. Qed.

(** The fraction [format_base_units_as_decimal] prints. *)
Definition printed_fraction (d : nat) (frac : Z) : bytes :=
  trim_end_zeros (pad_left d (to_bytes (show_Z frac))).

Lemma printed_fraction_ok d frac cur :
  0 < frac < 10 ^ Z.of_nat d → 10 ^ Z.of_nat d ≤ u128_max → (0 < d)%nat →
  all_digits (printed_fraction d frac) = true ∧ printed_fraction d frac ≠ []
  ∧ fractional_units (printed_fraction d frac) d cur = Ok frac.
Proof.
  intros Hf Hd Hd0. destruct (show_Z_decimal frac) as (Hdig & Hdec & _); [lia|].
  set (l := pad_left d (to_bytes (show_Z frac))).
  assert (length l = d) as Hlen.
  { apply pad_left_length. apply show_Z_length; [lia|done]. }
  assert (all_digits l = true) as Hl by by apply pad_left_digits.
  assert (dec 0 l = frac) as Hv by by rewrite pad_left_dec.
  rewrite /printed_fraction -/l. split_and!.
  - by rewrite trim_end_zeros_digits.
  - intros Hnil. destruct (trim_end_zeros_split l) as [k Hk]. rewrite Hnil /= in Hk.
    rewrite Hk dec_replicate_0 in Hv. lia.
  - rewrite /fractional_units trim_end_zeros_idem trim_end_zeros_digits Hl /=.
    assert (length (trim_end_zeros l) ≤ d)%nat as Hle.
    { destruct (trim_end_zeros_split l) as [k Hk]. rewrite -Hlen {2}Hk length_app. lia. }
    rewrite (proj2 (Nat.ltb_ge _ _)) // -Hlen pad_right_trim_end.
    rewrite parse_u128_digits //; [|by intros Hl0; rewrite Hl0 /= in Hlen; lia].
    by rewrite Hv u128_checked_ok; [|lia].
Qed.

Lemma trim_digits s : all_digits (to_bytes s) = true → to_bytes s ≠ [] → trim s = s.
Proof.
  intros Hd Hne. destruct (all_digits_snoc_inv _ Hd Hne) as (r & e & Hr & He).
  destruct (to_bytes s) as [|c l] eqn:Hs; [done|].
  eapply trim_digit_ends; [done|by rewrite Hs| |done]. by eapply all_digits_head.
Qed.

Lemma trim_amount w f :
  all_digits w = true → w ≠ [] → all_digits f = true → f ≠ [] →
  trim (of_bytes (w ++ "."%char :: f)) = of_bytes (w ++ "."%char :: f).
Proof.
  intros Hw Hwn Hf Hfn. destruct (all_digits_snoc_inv _ Hf Hfn) as (r & e & -> & He).
  destruct w as [|c w]; [done|].
  eapply (trim_digit_ends _ c e _ (c :: w ++ "."%char :: r));
    rewrite ?String.list_ascii_of_string_of_list_ascii; [done| |by apply (all_digits_head _ c w Hw)|done].
  by rewrite /= -app_assoc.
Qed.

(** An amount that starts with a digit passes the first guard. *)
Lemma digit_start_guard s c l :
  to_bytes s = c :: l → is_ascii_digit c = true →
  String.eqb s "" || String.prefix "-" s = false.
Proof.
  intros Hs Hc. destruct s as [|c' s]; [done|]. injection Hs as -> _.
  by destruct c as [[] [] [] [] [] [] [] []].
Qed.

(** Reading back a whole part and what [fractional_units] accepted. *)
Lemma decimal_amount_ok s w parts d cur frac :
  trim s = s → split_on "."%char (to_bytes s) = w :: parts → (length parts ≤ 1)%nat →
  all_digits w = true → w ≠ [] → 10 ^ Z.of_nat d ≤ u128_max →
  match parts !! 0%nat with
  | Some f => fractional_units f d (to_ascii_uppercase (trim cur)) = Ok frac
  | None => frac = 0
  end →
  0 ≤ dec 0 w → 0 ≤ frac → 0 < dec 0 w * 10 ^ Z.of_nat d + frac ≤ u128_max →
  String.eqb s "" || String.prefix "-" s = false →
  decimal_amount_to_base_units s d cur = Ok (show_Z (dec 0 w * 10 ^ Z.of_nat d + frac)).
Proof.
  intros Htrim Hsplit Hlen Hd Hne Hsc Hf Hw0 Hf0 Hn Hg.
  rewrite /decimal_amount_to_base_units Htrim Hg Hsplit.
  rewrite (proj2 (Nat.ltb_ge _ _)); [|simpl; lia].
  destruct w as [|c w']; [done|]. cbv beta match delta [hd]. cbv zeta.
  set (w := c :: w') in *. change ((w :: parts) !! 1%nat) with (parts !! 0%nat).
  rewrite Hd [negb true]/=.
  assert (1 ≤ 10 ^ Z.of_nat d) as Hpow by lia.
  remember (10 ^ Z.of_nat d) as sc eqn:Hsceq.
  assert (0 ≤ dec 0 w * sc) as Hmul by (apply Z.mul_nonneg_nonneg; lia).
  assert (dec 0 w ≤ u128_max) as Hwmax by nia.
  rewrite parse_u128_digits // u128_checked_ok; [|lia].
  remember (dec 0 w) as wv eqn:Hwv.
  rewrite /u128_pow10 -Hsceq u128_checked_ok; [|lia]. rewrite /mbind /=.
  assert (match parts !! 0%nat with
          | Some f => fractional_units f d (to_ascii_uppercase (trim cur)) | None => Ok 0
          end = Ok frac) as -> by (destruct (parts !! 0%nat); by rewrite ?Hf).
  rewrite /= u128_checked_ok; [|lia]. rewrite /= u128_checked_ok; [|lia]. simpl.
  by rewrite (proj2 (Z.eqb_neq _ _)); [|lia].
Qed.

(** C20: printing a positive base-unit count as a decimal stablecoin amount and
    converting it back gives the same count, for every count that fits the
    128-bit amounts. *)
Theorem stablecoin_amount_roundtrip n cur d :
  stablecoin_decimals cur = Some d → 0 < n ≤ u128_max →
  ∃ s, stablecoin_amount_from_base_units (show_Z n) cur = Some s
    ∧ stablecoin_amount_to_base_units s cur = Ok (Some (show_Z n)).
Proof.
  intros Hcur Hn. assert (d = 6%nat) as ->.
  { revert Hcur. rewrite /stablecoin_decimals. case_match; naive_solver. }
  destruct (show_Z_decimal n) as (Hnd & _ & Hnn); [lia|].
  eexists. rewrite /stablecoin_amount_from_base_units /stablecoin_amount_to_base_units Hcur.
  rewrite trim_digits // parse_u128_show; [|lia]. split; [reflexivity|].
  change (Some <$> decimal_amount_to_base_units (format_base_units_as_decimal n 6) 6 cur
          = Ok (Some (show_Z n))).
  rewrite /format_base_units_as_decimal.
  change (default 1 (u128_pow10 6)) with (10 ^ Z.of_nat 6).
  set (sc := 10 ^ Z.of_nat 6). assert (0 < sc) as Hsc by done. assert (sc ≤ u128_max) by done.
  pose proof (Z.div_mod n sc ltac:(lia)) as Hdm. pose proof (Z.mod_pos_bound n sc Hsc) as Hm.
  assert (0 ≤ n / sc) as Hq by (apply Z.div_pos; lia).
  destruct (show_Z_decimal (n / sc)) as (Hwd & Hwv & Hwn); [done|].
  assert (∃ c l, to_bytes (show_Z (n / sc)) = c :: l ∧ is_ascii_digit c = true) as (c & l & Hc & Hcd).
  { destruct (to_bytes (show_Z (n / sc))) as [|c l] eqn:E; [done|].
    exists c, l. split; [done|]. by eapply all_digits_head. }
  case_match eqn:Hz; bool_to_prop.
  - rewrite (decimal_amount_ok _ (to_bytes (show_Z (n / sc))) [] 6 cur 0); try done; rewrite ?Hwv -/sc; try lia; try (simpl; lia).
    + apply (f_equal (λ z, Ok (Some (show_Z z)))). lia.
    + by apply trim_digits.
    + by apply split_on_none, digits_no_dot.
    + by eapply digit_start_guard.
  - destruct (printed_fraction_ok 6 (n mod sc) (to_ascii_uppercase (trim cur)))
      as (Hfd & Hfn & Hfu); [lia|done|lia|].
    rewrite -/(printed_fraction 6 (n mod sc)). set (f := printed_fraction 6 (n mod sc)) in *.
    assert (show_Z (n / sc) +:+ "." +:+ of_bytes f
            = of_bytes (to_bytes (show_Z (n / sc)) ++ "."%char :: f)) as ->.
    { apply to_bytes_inj. rewrite !to_bytes_app.
      by rewrite !String.list_ascii_of_string_of_list_ascii. }
    rewrite (decimal_amount_ok _ (to_bytes (show_Z (n / sc))) [f] 6 cur (n mod sc)); try done; rewrite ?Hwv -/sc; try lia; try (simpl; lia).
    + apply (f_equal (λ z, Ok (Some (show_Z z)))). lia.
    + by apply trim_amount.
    + rewrite String.list_ascii_of_string_of_list_ascii split_on_cons; [|by apply digits_no_dot].
      by rewrite split_on_none; [|by apply digits_no_dot].
    + eapply (digit_start_guard _ c (l ++ "."%char :: f)); [|done].
      by rewrite String.list_ascii_of_string_of_list_ascii Hc.
Qed.

(** ** Receipts *)

Lemma reject_if_ok b e u : reject_if b e = Ok u ↔ b = false.
Proof. destruct b, u; rewrite /reject_if; naive_solver. Qed.

(** On the x402 rail a settlement receipt is accepted exactly when it
    reports success, was paid by the payment's sender address, names an EVM
    transaction, settles the payment's amount on the payment's network and, if
    it names one, to the payment's recipient. *)
Theorem validate_receipt_spec t r :
  eq_ignore_ascii_case (rail t) "x402" = true →
  validate_x402_settlement_receipt t r = Ok tt ↔
  (∀ x, receipt_string r ["rail"] = Some x → eq_ignore_ascii_case x "x402" = true)
  ∧ receipt_bool r ["success"] = Some true
  ∧ (∃ payer sender, receipt_string r ["payer"] = Some payer ∧ sender_address t = Some sender
       ∧ eq_ignore_ascii_case payer sender = true)
  ∧ (∃ h, receipt_string r ["transaction"; "tx_hash"; "txHash"] = Some h
       ∧ is_evm_transaction_hash h = true)
  ∧ (∃ a, receipt_string r ["amount"] = Some a ∧ amounts_match a (amount t) = true)
  ∧ (∃ n, receipt_string r ["network"] = Some n
       ∧ ∀ e, network t = Some e → canonical_x402_network n = canonical_x402_network e)
  ∧ (∀ p e, receipt_string r ["payTo"; "pay_to"; "recipient"; "to"] = Some p →
       recipient_address t = Some e → eq_ignore_ascii_case p e = true).
Proof.
  intros Hrail. rewrite /validate_x402_settlement_receipt Hrail [negb true]/=.
  rewrite /required_receipt_string. repeat setoid_rewrite result_bind_ok.
  repeat setoid_rewrite reject_if_ok. repeat setoid_rewrite ok_or_ok. split.
  - intros ([] & Hr & [] & Hs & p & Hp & s & Hsa & [] & Hps & h & Hh & [] & Hhx & a & Ha & []
      & Ham & n & Hn & [] & Hnet & Hto).
    bool_to_prop. split_and!; eauto.
    + intros x Hx. rewrite Hx /= in Hr. by bool_to_prop.
    + exists n. split; [done|]. intros e He. rewrite He /= in Hnet. by bool_to_prop.
    + intros q e Hq He. rewrite Hq He in Hto. by bool_to_prop.
  - intros (Hr & Hs & (p & s & Hp & Hsa & Hps) & (h & Hh & Hhx) & (a & Ha & Ham)
      & (n & Hn & Hnet) & Hto).
    exists tt. split; [destruct (receipt_string r ["rail"]) as [x|]; simpl; [|done]; by rewrite (Hr x)|].
    exists tt. split; [by rewrite bool_decide_eq_true_2|].
    exists p. split; [done|]. exists s. split; [done|]. exists tt. split; [by rewrite Hps|].
    exists h. split; [done|]. exists tt. split; [by rewrite Hhx|].
    exists a. split; [done|]. exists tt. split; [by rewrite Ham|].
    exists n. split; [done|]. exists tt. split.
    + destruct (network t) as [e|]; simpl; [|done]. by rewrite (Hnet e) // String.eqb_refl.
    + destruct (receipt_string r ["payTo"; _; _; _]) as [q|]; [|done].
      destruct (recipient_address t) as [e|]; [|done]. by rewrite (Hto q e).
Qed.

(** ** Concrete amounts and receipts *)

Module X402Scenario.
Definition pay : PaymentTransaction :=
  mkPaymentTransaction "p1" "did:a" "did:b" "a" "b" "node" "1500000" "USDC" "X402" Web3
    (Some "base") (Some "0xAB") (Some "0xCD") None None None None Authorized None None None None
    0 None None None.
Definition hash : string :=
  "0x0123456789abcdef0123456789ABCDEF0123456789abcdef0123456789abcdef".
Definition receipt : json :=
  JObject [("success", JBool true); ("payer", JString "0xab"); ("transaction", JString hash);
           ("amount", JString "1500000"); ("network", JString "eip155:8453");
           ("payTo", JString "0xcd")].

Lemma base_units_exact_witness :
  ∃ n, show_Z 1500000 = show_Z n ∧ 0 < n ≤ u128_max
    ∧ n * 10 ^ 2 = dec 0 (to_bytes "150") * 10 ^ 6.
Proof.
  exact (base_units_exact " 1.50 " 6 "usdc" (show_Z 1500000) ltac:(vm_compute; reflexivity)).
Defined.

Lemma stablecoin_amount_roundtrip_witness :
  ∃ s, stablecoin_amount_from_base_units (show_Z 1500000) "usdt" = Some s
    ∧ stablecoin_amount_to_base_units s "usdt" = Ok (Some (show_Z 1500000)).
Proof.
  apply (stablecoin_amount_roundtrip 1500000 "usdt" 6); [reflexivity|].
  split; [reflexivity|discriminate].
Defined.

Lemma validate_receipt_spec_witness :
  validate_x402_settlement_receipt pay receipt = Ok tt
  ∧ ∃ a, receipt_string receipt ["amount"] = Some a ∧ amounts_match a "1500000" = true.
Proof.
  assert (Hok : validate_x402_settlement_receipt pay receipt = Ok tt) by (vm_compute; reflexivity).
  split; [exact Hok|].
  destruct (proj1 (validate_receipt_spec pay receipt eq_refl) Hok) as (_ & _ & _ & _ & Ha & _).
  exact Ha.
Defined.
End X402Scenario.
