(* ===== verification/PaymentLedger.v ===== *)
(** * Payments: the ledger

    [PaymentLedger] of [payments/mod.rs]: the life cycle of a payment
    (propose, authorize, submit, settle, reject, cancel), queries, the summary,
    and merging what other agents report. *)

From S2P Require Import Prelude Collections Text Json Signing PaymentModel X402.
#[local] Open Scope Z_scope.

(** ** Requests *)

Record ProposePaymentRequest := mkProposePaymentRequest {
  pr_sender_public_id : string;
  pr_remote_node_id : string;
  pr_recipient_public_id : string;
  pr_recipient_did : string;
  pr_amount : string;
  pr_currency : string;
  pr_rail : string;
  pr_layer : SettlementLayer;
  pr_network : option string;
  pr_recipient_address : option string;
  pr_mission_id : option string;
  pr_task_id : option string;
  pr_description : option string;
  pr_metadata : option json;
  pr_expires_at : option Z;
}.

Record AuthorizePaymentRequest := mkAuthorizePaymentRequest {
  ar_payment_id : string;
  ar_signature : string;
  ar_public_key : option string;
  ar_sender_address : option string;
}.

Record SettlePaymentRequest := mkSettlePaymentRequest {
  sr_payment_id : string;
  sr_receipt : json;
}.

Record RejectPaymentRequest := mkRejectPaymentRequest {
  rr_payment_id : string;
  rr_reason : string;
}.

Record PaymentQuery := mkPaymentQuery {
  q_status : option PaymentStatus;
  q_sender_did : option string;
  q_recipient_did : option string;
  q_sender_public_id : option string;
  q_recipient_public_id : option string;
  q_remote_node_id : option string;
  q_mission_id : option string;
  q_task_id : option string;
  q_rail : option string;
  q_since : option Z;
  q_limit : option nat;
}.

Record PaymentSummary := mkPaymentSummary {
  total_proposed : Z;
  total_authorized : Z;
  total_settled : Z;
  total_rejected : Z;
  total_cancelled : Z;
  total_expired : Z;
  total_amount_settled : gmap string string;
}.
#[global] Instance eta_PaymentSummary : Eta PaymentSummary := λ s,
  mkPaymentSummary (total_proposed s) (total_authorized s) (total_settled s) (total_rejected s)
    (total_cancelled s) (total_expired s) (total_amount_settled s).

(** [PaymentLedger], its [payments] map. *)
Definition PaymentLedger : Type := gmap string PaymentTransaction.

(** ** Operations *)

Definition get_payment (id : string) : stm PaymentLedger PaymentTransaction :=
  t ← gets (λ ps : PaymentLedger, ps !! id); lift (ok_or ("payment not found: " +:+ id) t).

(** Writing back through the reference obtained from [get_mut]. *)
Definition put_payment (id : string) (t : PaymentTransaction)
    : stm PaymentLedger PaymentTransaction := modify <[id := t]>;; mret t.

Definition propose (clk : clock) (uuid sender : string) (r : ProposePaymentRequest)
    : stm PaymentLedger PaymentTransaction :=
  let id := "payment-" +:+ uuid in
  let now := clk 0%nat in
  put_payment id
    {| payment_id := id; sender_did := sender; recipient_did := pr_recipient_did r;
       sender_public_id := pr_sender_public_id r;
       recipient_public_id := pr_recipient_public_id r;
       remote_node_id := pr_remote_node_id r; amount := pr_amount r;
       currency := pr_currency r; rail := pr_rail r; layer := pr_layer r;
       network := pr_network r; sender_address := None;
       recipient_address := pr_recipient_address r; mission_id := pr_mission_id r;
       task_id := pr_task_id r; description := pr_description r; metadata := pr_metadata r;
       status := Proposed; authorization_signature := None; authorization_public_key := None;
       settlement_receipt := None; reject_reason := None; proposed_at := now;
       authorized_at := None; settled_at := None; expires_at := pr_expires_at r |}.

(** An expired proposal is marked as such although the call fails; the clock is
    read once more when there is an expiry to compare with. *)
Definition authorize (clk : clock) (r : AuthorizePaymentRequest)
    : stm PaymentLedger PaymentTransaction :=
  let id := ar_payment_id r in
  t ← get_payment id;
  ensure (bool_decide (status t = Proposed))
    ("payment " +:+ id +:+ " is not in proposed state (current: " +:+ debug_status (status t)
     +:+ ")");;
  let expired := match expires_at t with Some e => e <? clk 0%nat | None => false end in
  if expired then
    put_payment id (t <| status := Expired |>);;
    bail ("payment " +:+ id +:+ " has expired")
  else
    let at_ := clk (if expires_at t then 1 else 0)%nat in
    put_payment id
      (t <| status := Authorized |> <| authorization_signature := Some (ar_signature r) |>
         <| authorization_public_key := ar_public_key r |>
         <| sender_address := ar_sender_address r |> <| authorized_at := Some at_ |>).

Definition submit (id : string) (receipt : option json)
    : stm PaymentLedger PaymentTransaction :=
  t ← get_payment id;
  ensure (bool_decide (status t = Authorized))
    ("payment " +:+ id +:+ " is not in authorized state (current: " +:+ debug_status (status t)
     +:+ ")");;
  put_payment id (t <| status := Submitted |> <| settlement_receipt := receipt |>).

Definition settle (clk : clock) (r : SettlePaymentRequest)
    : stm PaymentLedger PaymentTransaction :=
  let id := sr_payment_id r in
  t ← get_payment id;
  ensure (match status t with Submitted | Authorized => true | _ => false end)
    ("payment " +:+ id +:+ " is not in a settleable state (current: " +:+ debug_status (status t)
     +:+ ")");;
  lift (if eq_ignore_ascii_case (rail t) "x402"
        then validate_x402_settlement_receipt t (sr_receipt r) else Ok tt);;
  put_payment id (t <| status := Settled |> <| settlement_receipt := Some (sr_receipt r) |>
                    <| settled_at := Some (clk 0%nat) |>).

Definition reject (r : RejectPaymentRequest) : stm PaymentLedger PaymentTransaction :=
  let id := rr_payment_id r in
  t ← get_payment id;
  ensure (match status t with Settled | Cancelled | Rejected => false | _ => true end)
    ("payment " +:+ id +:+ " cannot be rejected in state " +:+ debug_status (status t));;
  put_payment id (t <| status := Rejected |> <| reject_reason := Some (rr_reason r) |>).

Definition cancel (id : string) : stm PaymentLedger PaymentTransaction :=
  t ← get_payment id;
  ensure (match status t with Proposed | Authorized => true | _ => false end)
    ("payment " +:+ id +:+ " cannot be cancelled in state " +:+ debug_status (status t));;
  put_payment id (t <| status := Cancelled |>).

Definition get (st : PaymentLedger) (id : string) : option PaymentTransaction := st !! id.

(** ** Queries *)

(** [query.field.is_some() && payment.field != query.field] is no match. *)
Definition field_matches (q : option string) (v : string) : bool :=
  is_none_or (String.eqb v) q.
Definition opt_field_matches (q v : option string) : bool :=
  is_none_or (λ s, bool_decide (v = Some s)) q.

Definition matches (q : PaymentQuery) (p : PaymentTransaction) : bool :=
  is_none_or (λ s, bool_decide (status p = s)) (q_status q)
  && field_matches (q_sender_did q) (sender_did p)
  && field_matches (q_recipient_did q) (recipient_did p)
  && field_matches (q_sender_public_id q) (sender_public_id p)
  && field_matches (q_recipient_public_id q) (recipient_public_id p)
  && field_matches (q_remote_node_id q) (remote_node_id p)
  && opt_field_matches (q_mission_id q) (mission_id p)
  && opt_field_matches (q_task_id q) (task_id p)
  && field_matches (q_rail q) (rail p)
  && is_none_or (λ s, s <=? proposed_at p) (q_since q).

Definition query (st : PaymentLedger) (q : PaymentQuery) : list PaymentTransaction :=
  let results := sort_by_key_rev proposed_at (List.filter (matches q) (btree_values st)) in
  match q_limit q with Some n => take n results | None => results end.

(** The settled amount of one payment added to its currency's total; the
    128-bit addition wraps around. *)
Definition add_settled (p : PaymentTransaction) (totals : gmap string string)
    : gmap string string :=
  let entry := default "0" (totals !! currency p) in
  let entry' := match parse_u128 entry, parse_u128 (amount p) with
                | Some cur, Some add => show_Z ((cur + add) mod 2 ^ 128)
                | _, _ => entry
                end in
  <[currency p := entry']> totals.

Definition count_payment (s : PaymentSummary) (p : PaymentTransaction) : PaymentSummary :=
  match status p with
  | Proposed => s <| total_proposed ::= Z.add 1 |>
  | Authorized => s <| total_authorized ::= Z.add 1 |>
  | Submitted => s
  | Settled => s <| total_settled ::= Z.add 1 |> <| total_amount_settled ::= add_settled p |>
  | Rejected => s <| total_rejected ::= Z.add 1 |>
  | Expired => s <| total_expired ::= Z.add 1 |>
  | Cancelled => s <| total_cancelled ::= Z.add 1 |>
  end.

Definition summary (st : PaymentLedger) : PaymentSummary :=
  foldl count_payment (mkPaymentSummary 0 0 0 0 0 0 ∅) (btree_values st).

Definition all (st : PaymentLedger) : list PaymentTransaction := btree_values st.
Definition len (st : PaymentLedger) : nat := size st.
Definition is_empty (st : PaymentLedger) : bool := (size st =? 0)%nat.

(** ** Merging reports of other agents *)

Definition merge_transaction (current incoming : PaymentTransaction)
    : PaymentTransaction * bool :=
  let merged :=
    {| payment_id := payment_id current;
       sender_did := sender_did current;
       recipient_did := recipient_did current;
       sender_public_id := sender_public_id current;
       recipient_public_id := recipient_public_id current;
       remote_node_id := remote_node_id current;
       amount := amount current;
       currency := currency current;
       rail := rail current;
       layer := layer current;
       network := network current;
       sender_address := or_else (sender_address current) (sender_address incoming);
       recipient_address := or_else (recipient_address current) (recipient_address incoming);
       mission_id := mission_id current;
       task_id := task_id current;
       description := description current;
       metadata := metadata current;
       status := if rank (status current) <=? rank (status incoming)
                 then status incoming else status current;
       authorization_signature := or_else (authorization_signature current) (authorization_signature incoming);
       authorization_public_key := or_else (authorization_public_key current) (authorization_public_key incoming);
       settlement_receipt := or_else (settlement_receipt current) (settlement_receipt incoming);
       reject_reason := or_else (reject_reason current) (reject_reason incoming);
       proposed_at := proposed_at current;
       authorized_at := or_else (authorized_at current) (authorized_at incoming);
       settled_at := or_else (settled_at current) (settled_at incoming);
       expires_at := or_else (expires_at current) (expires_at incoming) |} in
  (merged, negb (bool_decide (merged = current))).

Definition merge_remote_transaction (t : PaymentTransaction)
    : stm PaymentLedger (PaymentTransaction * bool) :=
  existing ← gets (λ ps : PaymentLedger, ps !! payment_id t);
  match existing with
  | Some e =>
      let '(merged, changed) := merge_transaction e t in
      put_payment (payment_id t) merged;; mret (merged, changed)
  | None => put_payment (payment_id t) t;; mret (t, true)
  end.

Definition merge_remote_agent_message `{Crypto, Wallet} (m : PaymentAgentMessage)
    (source : string) : stm PaymentLedger (PaymentTransaction * bool) :=
  lift (validate_agent_payment_message m source);;
  merge_remote_transaction (msg_payment m).

(** ** Transitions of the ledger *)

Section steps.
Context `{Crypto, Wallet}.

Inductive local_step (st : PaymentLedger) : PaymentLedger → Prop :=
  | step_propose clk uuid s r :
      st !! ("payment-" +:+ uuid) = None → local_step st (exec (propose clk uuid s r) st)
  | step_authorize clk r : local_step st (exec (authorize clk r) st)
  | step_submit id r : local_step st (exec (submit id r) st)
  | step_settle clk r : local_step st (exec (settle clk r) st)
  | step_reject r : local_step st (exec (reject r) st)
  | step_cancel id : local_step st (exec (cancel id) st).

Inductive pay_step (st : PaymentLedger) : PaymentLedger → Prop :=
  | step_local st' : local_step st st' → pay_step st st'
  | step_remote m source : pay_step st (exec (merge_remote_agent_message m source) st).

Definition pay_reachable : PaymentLedger → Prop := rtc pay_step ∅.
End steps.

(** *** The abstract life cycle *)

Inductive pay_move : PaymentStatus → PaymentStatus → Prop :=
  | pm_stay s : pay_move s s
  | pm_authorize : pay_move Proposed Authorized
  | pm_expire : pay_move Proposed Expired
  | pm_submit : pay_move Authorized Submitted
  | pm_settle_authorized : pay_move Authorized Settled
  | pm_settle_submitted : pay_move Submitted Settled
  | pm_reject s : s ≠ Settled → s ≠ Cancelled → pay_move s Rejected
  | pm_cancel_proposed : pay_move Proposed Cancelled
  | pm_cancel_authorized : pay_move Authorized Cancelled.

(** What the parties agreed on when the payment was proposed. *)
Definition same_terms (t t' : PaymentTransaction) : Prop :=
  payment_id t' = payment_id t ∧ sender_did t' = sender_did t
  ∧ recipient_did t' = recipient_did t ∧ amount t' = amount t ∧ currency t' = currency t
  ∧ rail t' = rail t ∧ layer t' = layer t ∧ network t' = network t
  ∧ mission_id t' = mission_id t ∧ task_id t' = task_id t
  ∧ metadata t' = metadata t ∧ proposed_at t' = proposed_at t.

Definition signed_status (s : PaymentStatus) : bool :=
  match s with Authorized | Submitted | Settled => true | _ => false end.

Definition payment_ok (id : string) (t : PaymentTransaction) : Prop :=
  payment_id t = id
  ∧ (signed_status (status t) = true → is_Some (authorization_signature t)).

Definition ledger_inv (st : PaymentLedger) : Prop := map_Forall payment_ok st.

(** One local update of one payment. *)
Definition pay_step_ok (id : string) (t t' : PaymentTransaction) : Prop :=
  pay_move (status t) (status t') ∧ same_terms t t' ∧ (payment_ok id t → payment_ok id t').

Lemma pay_step_ok_refl id t : pay_step_ok id t t.
Proof. by split; [constructor|]. Qed.

Lemma put_payment_step (st : PaymentLedger) id sid t q q' :
  st !! id = Some t → st !! sid = Some q → pay_step_ok sid q q' →
  ∃ t', <[sid := q']> st !! id = Some t' ∧ pay_step_ok id t t'.
Proof.
  intros Ht Hq Hok. destruct (decide (sid = id)) as [->|Hne].
  - exists q'. rewrite lookup_insert_eq. simplify_eq. eauto.
  - exists t. rewrite lookup_insert_ne //. eauto using pay_step_ok_refl.
Qed.

Ltac pay_run := rewrite /exec /get_payment /put_payment; stm_cases; eauto using pay_step_ok_refl.

(** The obligations of an update whose guard fixed the status. *)
Ltac solve_pay_step :=
  bool_to_prop; (eapply put_payment_step; [done|done|]);
  rewrite /pay_step_ok /same_terms /payment_ok /=;
  repeat match goal with E : status _ = _ |- _ => rewrite E end;
  split_and!; try done;
  first [once (constructor; done)
        |intros [? Hs]; split; [done|]; intros; simpl in *; eauto].

Lemma local_step_payment st st' id t :
  local_step st st' → st !! id = Some t →
  ∃ t', st' !! id = Some t' ∧ pay_step_ok id t t'.
Proof.
  intros Hstep Ht. destruct Hstep.
  - rewrite /propose. pay_run. rewrite lookup_insert_ne; [eauto using pay_step_ok_refl|congruence].
  - rewrite /authorize. pay_run; solve_pay_step.
  - rewrite /submit. pay_run; solve_pay_step.
  - rewrite /settle. pay_run; solve_pay_step.
  - rewrite /reject. pay_run; solve_pay_step.
  - rewrite /cancel. pay_run; solve_pay_step.
Qed.

(** ** Merging *)

Lemma or_else_Some {A} (o o' : option A) a : o = Some a → or_else o o' = Some a.
Proof. by intros ->. Qed.

(** What merging a report into a stored payment does. *)
Definition merged_from (t incoming t' : PaymentTransaction) : Prop :=
  same_terms t t'
  ∧ rank (status t') = Z.max (rank (status t)) (rank (status incoming))
  ∧ (∀ s, authorization_signature t = Some s → authorization_signature t' = Some s)
  ∧ (∀ a, sender_address t = Some a → sender_address t' = Some a)
  ∧ (∀ a, recipient_address t = Some a → recipient_address t' = Some a)
  ∧ (∀ r, settlement_receipt t = Some r → settlement_receipt t' = Some r).

Lemma merge_transaction_merged t u : merged_from t u (merge_transaction t u).1.
Proof.
  rewrite /merged_from /=. split_and!; eauto using or_else_Some; [done|].
  case_match; bool_to_prop; lia.
Qed.

Lemma rank_inj s s' : rank s = rank s' → s = s'.
Proof. by destruct s, s'. Qed.

Lemma or_else_idem {A} (o o' : option A) : or_else (or_else o o') o' = or_else o o'.
Proof. by destruct o, o'. Qed.

Lemma or_else_self {A} (o : option A) : or_else o o = o.
Proof. by destruct o. Qed.

Lemma merge_status_idem s u :
  let m := if rank s <=? rank u then u else s in (if rank m <=? rank u then u else m) = m.
Proof. simpl. destruct (rank s <=? rank u) eqn:E; [by rewrite Z.leb_refl|by rewrite E]. Qed.

Lemma merge_transaction_changed t u :
  (merge_transaction t u).2 = false ↔ (merge_transaction t u).1 = t.
Proof. rewrite /merge_transaction. cbv zeta. simpl. by case_bool_decide. Qed.

Lemma merge_transaction_idem t u :
  merge_transaction (merge_transaction t u).1 u = ((merge_transaction t u).1, false).
Proof.
  assert ((merge_transaction (merge_transaction t u).1 u).1 = (merge_transaction t u).1) as H1.
  { rewrite /merge_transaction /=. f_equal; try apply or_else_idem. apply merge_status_idem. }
  rewrite (surjective_pairing (merge_transaction _ u)) H1. f_equal.
  by apply merge_transaction_changed.
Qed.

Lemma merge_transaction_self t : merge_transaction t t = (t, false).
Proof.
  assert ((merge_transaction t t).1 = t) as H1.
  { destruct t. rewrite /merge_transaction /=. f_equal; try apply or_else_self. by case_match. }
  rewrite (surjective_pairing (merge_transaction t t)) H1. f_equal.
  by apply merge_transaction_changed.
Qed.

Lemma merge_payment_ok id t u :
  payment_ok id t → (signed_status (status u) = true → is_Some (authorization_signature u)) →
  payment_ok id (merge_transaction t u).1.
Proof.
  intros [Hid Ht] Hu. split; [done|]. simpl.
  case_match; intros Hs; destruct (authorization_signature t) eqn:E; simpl; eauto.
  destruct (Ht Hs). done.
Qed.

Section remote.
Context `{Crypto, Wallet}.

Lemma signed_of_validated m source :
  validate_agent_payment_message m source = Ok tt →
  signed_status (status (msg_payment m)) = true →
  is_Some (authorization_signature (msg_payment m)).
Proof.
  intros [Hs Hc]%validated_message_signed. rewrite Hs => Hsig.
  destruct Hc as (sig & Hrest); [by destruct (msg_kind m)|]. destruct Hrest as (?&?&?&?&?&?&?).
  eauto.
Qed.

(** A key that is both present and absent. *)
Ltac lookup_clash :=
  match goal with
  | Hs : _ = Some _, Hn : _ = None |- _ => discriminate (eq_trans (eq_sym Hn) Hs)
  end.

Lemma pay_step_inv st st' : ledger_inv st → pay_step st st' → ledger_inv st'.
Proof.
  intros Hinv [st1 Hstep|m source].
  - intros id t' Ht'. destruct (st !! id) as [t|] eqn:Ht.
    { destruct (local_step_payment _ _ _ _ Hstep Ht) as (t2 & Ht2 & _ & _ & Hok).
      simplify_eq. apply Hok. by apply Hinv. }
    revert Ht'. destruct Hstep;
      rewrite ?/propose ?/authorize ?/submit ?/settle ?/reject ?/cancel /exec /get_payment
        /put_payment; stm_cases; intros Ht'; simpl in Ht';
      try (apply lookup_insert_Some in Ht' as [[<- <-]|[_ ?]]); first [lookup_clash|done].
  - rewrite /exec /merge_remote_agent_message /merge_remote_transaction.
    cbv [mbind stm_bind lift]. destruct (validate_agent_payment_message m source) as [[]|] eqn:Hv;
      [|done]. pose proof (signed_of_validated _ _ Hv) as Hsig.
    cbv [gets]. destruct (st !! payment_id (msg_payment m)) as [e|] eqn:He; simpl.
    + apply map_Forall_insert_2; [|done]. apply merge_payment_ok; [|done]. by apply Hinv.
    + by apply map_Forall_insert_2.
Qed.

Lemma reachable_ledger_inv st : pay_reachable st → ledger_inv st.
Proof.
  intros Hr. assert (ledger_inv ∅) as H1 by apply map_Forall_empty.
  revert H1. induction Hr; eauto using pay_step_inv.
Qed.

(** In every ledger reachable by local operations and accepted messages of
    other agents, each payment is stored under its id and a payment that is
    authorized, submitted or settled carries an authorization signature. *)
Theorem ledger_invariant st id t :
  pay_reachable st → get st id = Some t →
  payment_id t = id
  ∧ (status t = Authorized ∨ status t = Submitted ∨ status t = Settled →
     is_Some (authorization_signature t)).
Proof.
  intros Hr Ht. destruct (reachable_ledger_inv _ Hr _ _ Ht) as [Hid Hs].
  split; [done|]. intros Hst. apply Hs. by destruct Hst as [->|[->| ->]].
Qed.

(** C31: every local operation keeps every payment and the terms it was
    proposed with, and moves its status only along the payment life cycle: a
    settled or cancelled payment never moves again. *)
Theorem local_refines_lifecycle st st' id t :
  local_step st st' → get st id = Some t →
  ∃ t', get st' id = Some t' ∧ pay_move (status t) (status t') ∧ same_terms t t'
    ∧ (status t = Settled ∨ status t = Cancelled → status t' = status t).
Proof.
  intros Hstep Ht. destruct (local_step_payment _ _ _ _ Hstep Ht) as (t' & Ht' & Hm & Hterms & _).
  exists t'. split_and!; try done. intros [?|?]; inversion Hm; congruence.
Qed.

(** C16: merging a report of another agent keeps the stored terms, only ever
    raises the status in the order of [rank], never replaces evidence already
    recorded, leaves every other payment alone and is idempotent: merging the
    same report again changes nothing and says so. *)
Theorem merge_remote_spec t st r changed st' :
  merge_remote_transaction t st = (Ok (r, changed), st') →
  st' = <[payment_id t := r]> st
  ∧ match get st (payment_id t) with
    | None => r = t ∧ changed = true
    | Some e => merged_from e t r ∧ (changed = false ↔ r = e)
    end
  ∧ merge_remote_transaction t st' = (Ok (r, false), st').
Proof.
  rewrite /merge_remote_transaction /get /put_payment.
  cbv [mbind stm_bind gets modify mret stm_ret].
  destruct (st !! payment_id t) as [e|] eqn:He.
  - pose proof (merge_transaction_merged e t) as Hm.
    pose proof (merge_transaction_idem e t) as Hi.
    pose proof (merge_transaction_changed e t) as Hc.
    destruct (merge_transaction e t) as [mg ch]. cbn [fst snd] in Hm, Hi, Hc.
    intros [= <- <- <-].
    split_and!; try done. by rewrite lookup_insert_eq Hi insert_insert_eq.
  - intros [= <- <- <-]. split_and!; try done.
    by rewrite lookup_insert_eq merge_transaction_self insert_insert_eq.
Qed.
End remote.

(** ** Who may change a stored payment *)

(** A report is checked against the parties it names itself, not against
    those of the stored payment. Anyone who knows a payment's id can cancel it,
    even after it was settled, with a cancellation that names them as sender;
    the stored parties stay as they were. *)
Theorem merge_foreign_cancellation `{Crypto, Wallet} st t p attacker at_ :
  get st (payment_id p) = Some t → status t ≠ Cancelled →
  sender_did p = attacker → attacker ≠ sender_did t → attacker ≠ recipient_did t →
  status p = Cancelled →
  ∃ r, merge_remote_agent_message (agent_message p MsgCancelled at_) attacker st
         = (Ok (r, true), <[payment_id p := r]> st)
    ∧ status r = Cancelled ∧ sender_did r = sender_did t ∧ recipient_did r = recipient_did t.
Proof.
  intros Ht Hst Hs _ _ Hp. exists (merge_transaction t p).1.
  rewrite /merge_remote_agent_message /merge_remote_transaction /put_payment.
  assert (validate_agent_payment_message (agent_message p MsgCancelled at_) attacker = Ok tt)
    as ->.
  { rewrite /validate_agent_payment_message /= Hp bool_decide_eq_true_2 //=.
    by rewrite Hs String.eqb_refl. }
  cbv [mbind stm_bind lift gets modify mret stm_ret]. cbn [msg_payment agent_message].
  rewrite /get in Ht. rewrite Ht. pose proof (merge_transaction_changed t p) as Hc.
  assert (status (merge_transaction t p).1 = Cancelled) as Hr.
  { simpl. rewrite Hp. by destruct (status t). }
  destruct (merge_transaction t p) as [r []] eqn:E; cbn [fst snd] in *.
  - split; [done|]. split; [done|]. by injection E as <- _.
  - destruct Hst. by rewrite -(proj1 Hc eq_refl).
Qed.

(** ** Settling *)

(** [settle] succeeds exactly on an authorized or submitted payment whose
    receipt, on the x402 rail, validates against it; it then records the receipt
    and the time, and a failing call changes nothing. *)
Theorem settle_spec clk r st :
  (∀ t' st', settle clk r st = (Ok t', st') ↔
    ∃ t, get st (sr_payment_id r) = Some t
      ∧ (status t = Authorized ∨ status t = Submitted)
      ∧ (eq_ignore_ascii_case (rail t) "x402" = true →
         validate_x402_settlement_receipt t (sr_receipt r) = Ok tt)
      ∧ t' = t <| status := Settled |> <| settlement_receipt := Some (sr_receipt r) |>
               <| settled_at := Some (clk 0%nat) |>
      ∧ st' = <[sr_payment_id r := t']> st)
  ∧ (∀ e st', settle clk r st = (Err e, st') → st' = st).
Proof.
  rewrite /settle /get /get_payment /put_payment. split.
  - intros t' st'. split.
    + intros Hrun. run_inv. eexists. split_and!; try done.
      * by destruct (status _); auto.
      * intros Hx. rewrite Hx in Hres. by destruct x3.
    + intros (t & Ht & Hs & Hx & -> & ->).
      cbv [mbind stm_bind gets lift ok_or ensure]. rewrite Ht.
      replace (match status t with Submitted | Authorized => true | _ => false end) with true
        by (by destruct Hs as [->| ->]).
      destruct (eq_ignore_ascii_case (rail t) "x402"); [|done]. by rewrite Hx.
  - intros e st'. stm_cases; by intros; simplify_eq.
Qed.

(** ** Queries *)

(** A query returns matching payments of the ledger only, newest first, and
    leaves out matching ones only when a limit is set and reached, and then
    only payments that are not newer than any it returns. *)
Theorem query_spec st q :
  ∃ rest,
    query st q ++ rest ≡ₚ List.filter (matches q) (all st)
    ∧ StronglySorted (λ a b, proposed_at b ≤ proposed_at a) (query st q)
    ∧ (∀ x y, x ∈ query st q → y ∈ rest → proposed_at y ≤ proposed_at x)
    ∧ match q_limit q with
      | None => rest = []
      | Some n => (length (query st q) ≤ n ∧ (rest ≠ [] → length (query st q) = n))%nat
      end.
Proof.
  rewrite /query /all. set (l := List.filter _ _). pose proof (sort_by_key_rev_sorted proposed_at l) as Hss'.
  pose proof (sort_by_perm (λ x y, proposed_at y <=? proposed_at x) l) as Hperm.
  fold (sort_by_key_rev proposed_at l) in Hperm.
  set (s := sort_by_key_rev proposed_at l) in *. clearbody s.
  destruct (q_limit q) as [n|]; [exists (drop n s)|exists []; rewrite app_nil_r]; split_and!; try done.
  - by rewrite take_drop.
  - rewrite -(take_drop n s) in Hss'. by apply StronglySorted_app in Hss' as (_ & ? & _).
  - intros x y Hx Hy. rewrite -(take_drop n s) in Hss'.
    exact (StronglySorted_app_rel _ _ _ x y Hss' Hx Hy).
  - rewrite length_take. lia.
  - rewrite length_take. intros Hne.
    assert (n < length s ∨ length s ≤ n)%nat as [|] by lia; [lia|]. by rewrite drop_ge in Hne.
  - by intros x y _ ?%elem_of_nil.
Qed.

(** ** A concrete ledger *)

Module LedgerScenario.
Import Signing.Demo.
#[local] Instance wallet : Wallet := {
  json_to_vec := λ _, Ok "payload";
  verify_secp256k1 := λ key msg sig,
    if String.eqb sig (key +:+ msg) then Ok tt else Err "bad signature";
  evm_address := λ key, Ok ("0x" +:+ key);
}.
Definition clk : clock := λ _, 100.
Definition req : ProposePaymentRequest :=
  mkProposePaymentRequest "a" "node" "b" "did:b" "5" "WATT" "manual" Web3 None None None None None
    None (Some 200).
Definition l1 : PaymentLedger := exec (propose clk "u" "did:a" req) ∅.
Definition l2 : PaymentLedger :=
  exec (authorize clk (mkAuthorizePaymentRequest "payment-u" "c2ln" None None)) l1.
Definition t2 : PaymentTransaction := default X402Scenario.pay (l2 !! "payment-u").
(** A cancellation of the same payment by somebody else. *)
Definition forged : PaymentTransaction :=
  t2 <| sender_did := "did:x" |> <| status := Cancelled |>.

Lemma l2_reachable : pay_reachable l2.
Proof.
  eapply rtc_l; [apply step_local, (step_propose ∅ clk "u" "did:a" req); reflexivity|].
  eapply rtc_l; [apply step_local,
    (step_authorize l1 clk (mkAuthorizePaymentRequest "payment-u" "c2ln" None None))|].
  apply rtc_refl.
Qed.

Lemma l2_get : get l2 "payment-u" = Some t2.
Proof. reflexivity. Qed.

Lemma ledger_invariant_witness : is_Some (authorization_signature t2).
Proof.
  refine (proj2 (ledger_invariant l2 "payment-u" t2 l2_reachable l2_get) _).
  left. reflexivity.
Defined.

Lemma local_refines_lifecycle_witness :
  ∃ t', get (exec (cancel "payment-u") l2) "payment-u" = Some t' ∧ same_terms t2 t'.
Proof.
  destruct (local_refines_lifecycle l2 _ "payment-u" t2 (step_cancel l2 "payment-u") l2_get)
    as (t' & H1 & _ & H2 & _).
  exact (ex_intro _ t' (conj H1 H2)).
Defined.

Lemma merge_remote_spec_witness :
  ∃ r st', merge_remote_transaction t2 l1 = (Ok (r, true), st')
    ∧ merge_remote_transaction t2 st' = (Ok (r, false), st').
Proof.
  destruct (merge_remote_transaction t2 l1) as [[[r c]|e] st'] eqn:E.
  - assert (c = true) as ->.
    { apply (f_equal (λ p, match p.1 with Ok x => x.2 | Err _ => false end)) in E.
      vm_compute in E. exact (eq_sym E). }
    exists r, st'. exact (conj eq_refl (proj2 (proj2 (merge_remote_spec t2 l1 r true st' E)))).
  - apply (f_equal (λ p, is_ok p.1)) in E. vm_compute in E. discriminate E.
Defined.

Lemma merge_foreign_cancellation_witness :
  ∃ r, merge_remote_agent_message (agent_message forged MsgCancelled 100) "did:x" l2
         = (Ok (r, true), <["payment-u" := r]> l2) ∧ status r = Cancelled.
Proof.
  destruct (merge_foreign_cancellation l2 t2 forged "did:x" 100) as (r & H1 & H2 & _);
    [exact l2_get|discriminate|reflexivity|discriminate|discriminate|reflexivity|].
  exact (ex_intro _ r (conj H1 H2)).
Defined.

End LedgerScenario.
