(* ===== verification/PaymentChain.v ===== *)
(** * Payments on chain

    [P/routes/payment_chain.rs]: how an authorized x402 payment becomes a signed
    ERC-20 transfer, and how a settlement receipt is verified against the chain.
    Bytes are integers from 0 to 255. Keccak-256 and secp256k1 signing, the
    wallet's keys and the answers of the RPC node are arguments. A call that
    would slice a string inside a character is a panic, [None]. *)

From S2P Require Import Prelude Collections Text Json Sql LocalDatabase Signing PaymentModel X402.
#[local] Open Scope Z_scope.

Definition ERC20_TRANSFER_SELECTOR : list Z := [0xa9; 0x05; 0x9c; 0xbb].
Definition BASE_RPC_URL : string := "https://mainnet.base.org".
Definition BASE_SEPOLIA_RPC_URL : string := "https://sepolia.base.org".
Definition BASE_USDC : string := "0x833589fCD6eDb6E08f4c7C32D4f71b54bdA02913".
Definition BASE_USDT : string := "0xfde4C96c8593536E31F229EA8f37b2ADa2699bb2".
Definition BASE_SEPOLIA_USDC : string := "0x036CbD53842c5426634e7929541eC2318f3dCF7e".
Definition ERC20_TRANSFER_TOPIC : string :=
  "0xddf252ad1be2c89b69c2b068fc378daa952ba7f163c4a11628f55a4df523b3ef".

(** ** Big-endian integers *)

(** [to_be_bytes] of an integer of [n] bytes. *)
Fixpoint be_bytes (n : nat) (z : Z) : list Z :=
  match n with
  | O => []
  | S n' => be_bytes n' (z / 256) ++ [z mod 256]
  end.

(** What a decoder reads. *)
Definition be_value (l : list Z) : Z := foldl (λ v b, v * 256 + b) 0 l.

Fixpoint strip_zeros (l : list Z) : list Z :=
  match l with
  | b :: l' => if b =? 0 then strip_zeros l' else l
  | [] => []
  end.

(** ** RLP *)

Definition length_bytes (length : Z) : list Z :=
  match strip_zeros (be_bytes 8 length) with [] => [0] | l => l end.

Definition rlp_wrap (short long : Z) (payload : list Z) : list Z :=
  let n := Z.of_nat (length payload) in
  if n <? 56 then (short + n) :: payload
  else let len := length_bytes n in (long + Z.of_nat (length len)) :: len ++ payload.

Definition rlp_bytes (l : list Z) : list Z :=
  match l with
  | [b] => if b <? 128 then [b] else rlp_wrap 128 183 l
  | _ => rlp_wrap 128 183 l
  end.

Definition rlp_uint_be (l : list Z) : list Z := rlp_bytes (strip_zeros l).

Definition rlp_u128 (value : Z) : list Z :=
  if value =? 0 then rlp_bytes [] else rlp_uint_be (be_bytes 16 value).
Definition rlp_u64 (value : Z) : list Z := rlp_u128 value.

Definition rlp_list (items : list (list Z)) : list Z := rlp_wrap 192 247 (concat items).

(** ** Addresses and calls *)

Definition is_evm_address (address : string) : bool :=
  (String.length address =? 42)%nat && String.prefix "0x" address
  && forallb is_ascii_hexdigit (drop 2 (to_bytes address)).

Definition required_payment_address (address : option string) (name : string) : result string :=
  a ← ok_or ("x402 chain payment requires " +:+ name +:+ " address") address;
  _ ← ensure_ok (is_evm_address a) ("invalid " +:+ name +:+ " EVM address");
  Ok a.

Definition byte_of (a : ascii) : Z := Z.of_nat (nat_of_ascii a).

(** [hex::decode]. *)
Definition hex_bytes (s : bytes) : option (list Z) := option_map (map byte_of) (hex_decode s).

(** [hex::encode]. *)
Definition hex_string (l : list Z) : string :=
  of_bytes (hex_encode ((λ b, ascii_of_nat (Z.to_nat b)) <$> l)).

Definition decode_evm_address (address : string) : result (list Z) :=
  a ← required_payment_address (Some address) "address";
  l ← ok_or "decode EVM address" (hex_bytes (drop 2 (to_bytes a)));
  if (length l =? 20)%nat then Ok l else Err "invalid EVM address length".

Definition erc20_transfer_calldata (to : string) (amount : Z) : result (list Z) :=
  address ← decode_evm_address to;
  Ok (ERC20_TRANSFER_SELECTOR ++ replicate 12 0 ++ address ++ replicate 16 0 ++ be_bytes 16 amount).

(** ** Numbers in hexadecimal *)

(** [trim_start_matches("0x")]: as often as it occurs. *)
Fixpoint strip_0x_from (fuel : nat) (l : bytes) : bytes :=
  match fuel with
  | O => l
  | S fuel' =>
      match strip_prefix (to_bytes "0x") l with Some l' => strip_0x_from fuel' l' | None => l end
  end.
Definition strip_0x (s : string) : bytes := strip_0x_from (String.length s) (to_bytes s).

(** [from_str_radix(.., 16)]: an optional plus sign and at least one digit. *)
Fixpoint hex_number (acc : Z) (l : bytes) : option Z :=
  match l with
  | [] => Some acc
  | c :: l' => v ← hex_value c; hex_number (acc * 16 + Z.of_nat v) l'
  end.
Definition from_str_radix16 (max : Z) (l : bytes) : option Z :=
  let ds := match l with c :: r => if Ascii.eqb c "+"%char then r else l | [] => l end in
  match ds with
  | [] => None
  | _ => v ← hex_number 0 ds; uint_checked max v
  end.
Definition parse_hex_u64 (value : string) : result Z :=
  ok_or "parse hex u64" (from_str_radix16 u64_max (strip_0x value)).
Definition parse_hex_u128 (value : string) : result Z :=
  ok_or "parse hex u128" (from_str_radix16 u128_max (strip_0x value)).

(** ** The chain of a payment *)

Record ChainConfig := mkChainConfig {
  cc_chain_id : Z;
  cc_network : string;
  cc_rpc_url : string;
  cc_asset : string;
}.

Definition canonical_network (network : string) : string :=
  let n := to_ascii_lowercase (trim network) in
  if existsb (String.eqb n) ["base"; "base-mainnet"; "eip155:8453"; "8453"] then "base"
  else if existsb (String.eqb n) ["base-sepolia"; "base_sepolia"; "eip155:84532"; "84532"]
  then "base-sepolia" else n.

Definition metadata_asset (p : PaymentTransaction) : option string :=
  trimmed_nonempty
    (m ← metadata p; accept ← json_get "x402_accept" m; asset ← json_get "asset" accept; as_str asset).

Definition default_asset (network currency : string) : option string :=
  let c := to_ascii_uppercase (trim currency) in
  if String.eqb network "base" && String.eqb c "USDC" then Some BASE_USDC
  else if String.eqb network "base" && String.eqb c "USDT" then Some BASE_USDT
  else if String.eqb network "base-sepolia" && String.eqb c "USDC" then Some BASE_SEPOLIA_USDC
  else None.

Definition resolve_chain_config (p : PaymentTransaction) : result ChainConfig :=
  network ← ok_or "x402 chain payment requires network" (option_map canonical_network (network p));
  '(chain_id, rpc_url, name) ←
    (if String.eqb network "base" then Ok (8453, BASE_RPC_URL, "eip155:8453")
     else if String.eqb network "base-sepolia" then Ok (84532, BASE_SEPOLIA_RPC_URL, "eip155:84532")
     else Err ("x402 chain payment does not support network " +:+ network));
  asset ← ok_or ("x402 chain payment has no ERC20 asset configured for " +:+ currency p
                 +:+ " on " +:+ network)
            (or_else (metadata_asset p) (default_asset network (currency p)));
  _ ← required_payment_address (Some asset) "asset";
  Ok (mkChainConfig chain_id name rpc_url asset).

(** Whether a payment is settled by a transfer on chain. *)
Definition on_chain (p : PaymentTransaction) : bool :=
  eq_ignore_ascii_case (rail p) "x402" && match layer p with Web3 => true | Web2 => false end.

(** ** Receipts *)

(** An address padded to 32 bytes. [topic[..24]] panics inside a character. *)
Definition indexed_address_topic_matches (topic : json) (expected : list Z) : option bool :=
  match as_str topic with
  | None => Some false
  | Some t =>
      let t := strip_0x t in
      if negb (length t =? 64)%nat then Some false
      else match t !! 24%nat with
      | Some c =>
          if between 128 191 c then None
          else Some (forallb (Ascii.eqb "0"%char) (take 24 t)
                     && bool_decide (hex_bytes (drop 24 t) = Some expected))
      | None => Some false
      end
  end.

Record EvmReceiptExpectations := mkExpectations {
  ex_tx_hash : string;
  ex_token : string;
  ex_from : string;
  ex_to : string;
  ex_amount : Z;
}.

Definition topic_is (topic : string) (v : json) : bool :=
  is_some_and (λ t, eq_ignore_ascii_case t topic) (as_str v).

(** Whether a log is the transfer: a panic, an error, or the answer. *)
Definition log_matches (token : string) (from to : list Z) (amount : Z) (log : json)
    : option (result bool) :=
  if negb (is_some_and (λ a, eq_ignore_ascii_case a token) (get_str "address" log)) then Some (Ok false)
  else match json_get "topics" log with
  | Some (JArray (t0 :: t1 :: t2 :: _)) =>
      if negb (topic_is ERC20_TRANSFER_TOPIC t0) then Some (Ok false)
      else
        m1 ← indexed_address_topic_matches t1 from;
        if negb m1 then Some (Ok false)
        else
          m2 ← indexed_address_topic_matches t2 to;
          if negb m2 then Some (Ok false)
          else match get_str "data" log with
          | None => Some (Ok false)
          | Some data => Some (v ← parse_hex_u128 data; Ok (v =? amount))
          end
  | _ => Some (Ok false)
  end.

Fixpoint any_log (f : json → option (result bool)) (logs : list json) : option (result bool) :=
  match logs with
  | [] => Some (Ok false)
  | log :: logs' =>
      r ← f log;
      match r with
      | Err e => Some (Err e)
      | Ok true => Some (Ok true)
      | Ok false => any_log f logs'
      end
  end.

Definition receipt_has_matching_erc20_transfer (receipt : json) (e : EvmReceiptExpectations)
    : option (result bool) :=
  match json_get "logs" receipt with
  | Some (JArray logs) =>
      match (from ← decode_evm_address (ex_from e); to ← decode_evm_address (ex_to e); Ok (from, to)) with
      | Err err => Some (Err err)
      | Ok (from, to) => any_log (log_matches (ex_token e) from to (ex_amount e)) logs
      end
  | _ => Some (Ok false)
  end.

(** A JSON-RPC node: the status of its answer to a method and the decoded body,
    or the error of sending the request or decoding the answer. *)
Definition rpc_node : Type := string → json → result (Z * json).

Definition rpc_value (rpc : rpc_node) (method : string) (params : json) : result json :=
  '(status, payload) ← rpc method params;
  _ ← ensure_ok ((200 <=? status) && (status <? 300)) (method +:+ " RPC request failed");
  match json_get "error" payload with
  | Some _ => Err (method +:+ " RPC returned error")
  | None => ok_or (method +:+ " RPC response missing result") (json_get "result" payload)
  end.

Definition rpc_string (rpc : rpc_node) (method : string) (params : json) : result string :=
  v ← rpc_value rpc method params;
  ok_or (method +:+ " RPC response missing string result") (as_str v).
Definition rpc_hex_u64 (rpc : rpc_node) (method : string) (params : json) : result Z :=
  s ← rpc_string rpc method params; with_context ("parse " +:+ method +:+ " response") (parse_hex_u64 s).
Definition rpc_hex_u128 (rpc : rpc_node) (method : string) (params : json) : result Z :=
  s ← rpc_string rpc method params; with_context ("parse " +:+ method +:+ " response") (parse_hex_u128 s).

Definition check_chain (rpc : rpc_node) (chain_id : Z) : result unit :=
  id ← rpc_hex_u64 rpc "eth_chainId" (JArray []);
  ensure_ok (id =? chain_id) "RPC chain id does not match payment network chain id".

Definition verify_erc20_transfer_receipt (rpc : rpc_node) (config : ChainConfig)
    (e : EvmReceiptExpectations) : option (result unit) :=
  let checked :=
    _ ← check_chain rpc (cc_chain_id config);
    receipt ← rpc_value rpc "eth_getTransactionReceipt" (JArray [JString (ex_tx_hash e)]);
    _ ← ensure_ok (negb (is_null receipt)) "x402 settlement transaction was not found on chain";
    _ ← ensure_ok (bool_decide (get_str "status" receipt = Some "0x1"))
          "x402 settlement transaction did not succeed on chain";
    _ ← ensure_ok (is_none_or (λ h, eq_ignore_ascii_case h (ex_tx_hash e))
                     (get_str "transactionHash" receipt))
          "x402 settlement receipt transactionHash does not match receipt transaction";
    _ ← ensure_ok (is_none_or (λ t, eq_ignore_ascii_case t (ex_token e)) (get_str "to" receipt))
          "x402 settlement transaction target does not match payment asset";
    Ok receipt in
  match checked with
  | Err err => Some (Err err)
  | Ok receipt =>
      found ← receipt_has_matching_erc20_transfer receipt e;
      Some (b ← found;
            ensure_ok b "x402 settlement receipt missing matching ERC20 Transfer event")
  end.

(** The module's own reading of a receipt field; its error names the first key. *)
Definition required_chain_string (receipt : json) (keys : list string) : result string :=
  ok_or ("x402 settlement receipt missing " +:+ default "" (head keys)) (receipt_string receipt keys).

Definition verify_x402_erc20_settlement_receipt (rpc : rpc_node) (p : PaymentTransaction)
    (receipt : json) : option (result unit) :=
  if negb (on_chain p) then Some (Ok tt)
  else
    let ready :=
      _ ← validate_x402_settlement_receipt p receipt;
      config ← resolve_chain_config p;
      hash ← with_context "read x402 settlement transaction hash"
               (required_chain_string receipt ["transaction"; "tx_hash"; "txHash"]);
      _ ← ensure_ok (is_evm_transaction_hash hash)
            "x402 settlement transaction must be an EVM transaction hash";
      sender ← required_payment_address (sender_address p) "sender";
      recipient ← required_payment_address (recipient_address p) "recipient";
      amount ← ok_or "parse payment amount as token base units" (parse_u128 (amount p));
      Ok (config, mkExpectations hash (cc_asset config) sender recipient amount) in
    match ready with
    | Err e => Some (Err e)
    | Ok (config, expected) => verify_erc20_transfer_receipt rpc config expected
    end.

(** ** Signing and sending *)

(** Bytes. *)
Definition byte_range (b : Z) : Prop := 0 ≤ b < 256.

Class Evm := {
  keccak256 : list Z → list Z;
  (** [SigningKey::from_bytes] and [sign_prehash_recoverable]: r, s and the recovery byte *)
  sign_recoverable : list Z → list Z → result (list Z * list Z * Z);
  (** r and s are 32 bytes each *)
  sign_recoverable_size : ∀ secret digest r s v,
    sign_recoverable secret digest = Ok (r, s, v) →
    length r = 32%nat ∧ length s = 32%nat ∧ Forall byte_range r ∧ Forall byte_range s;
}.

(** What the wallet records of a payment account. *)
Record PaymentAccount := mkPaymentAccount {
  pa_web3_evm : bool;
  pa_key_handle : option string;
  pa_address : option string;
  pa_rail : string;
  pa_network : option string;
}.

(** [open_local_wallet]: the accounts of the local wallet and the export of a key. *)
Definition wallet_keys : Type := result (list PaymentAccount * (string → result (list Z))).

Definition export_payment_secret (wallet : wallet_keys) (p : PaymentTransaction) (sender : string)
    : result (list Z) :=
  '(accounts, export) ← with_context "open local wallet" wallet;
  let network := option_map canonical_network (network p) in
  account ← ok_or "local signing payment account not found for sender"
    (find_first (λ a, pa_web3_evm a
                      && bool_decide (is_Some (pa_key_handle a))
                      && is_some_and (λ x, eq_ignore_ascii_case x sender) (pa_address a)
                      && eq_ignore_ascii_case (pa_rail a) (rail p)
                      && bool_decide (option_map canonical_network (pa_network a) = network))
       accounts);
  handle ← ok_or "payment account is watch-only" (pa_key_handle account);
  with_context "export payment account secret" (export handle).

Section sending.
Context `{Evm}.

Definition transaction_fields (nonce gas_price gas_limit : Z) (to data : list Z) : list (list Z) :=
  [rlp_u64 nonce; rlp_u128 gas_price; rlp_u64 gas_limit; rlp_bytes to; rlp_u64 0; rlp_bytes data].

Definition sign_legacy_erc20_transaction (chain_id nonce gas_price gas_limit : Z) (token : string)
    (data secret : list Z) : result string :=
  to ← decode_evm_address token;
  let fields := transaction_fields nonce gas_price gas_limit to data in
  let unsigned := rlp_list (fields ++ [rlp_u64 chain_id; rlp_bytes []; rlp_bytes []]) in
  '(r, s, recovery) ← with_context "sign ethereum transaction"
                        (sign_recoverable secret (keccak256 unsigned));
  v ← ok_or "ethereum signature v overflow"
        (doubled ← uint_checked u64_max (chain_id * 2);
         uint_checked u64_max (doubled + (35 + Z.land recovery 1)));
  Ok ("0x" +:+ hex_string (rlp_list (fields ++ [rlp_u64 v; rlp_uint_be r; rlp_uint_be s]))).

Definition u64_saturating_add (a b : Z) : Z := Z.min u64_max (a + b).

Definition submit_erc20_transfer (rpc : rpc_node) (config : ChainConfig) (secret : list Z)
    (from to : string) (amount : Z) : result json :=
  _ ← check_chain rpc (cc_chain_id config);
  nonce ← rpc_hex_u64 rpc "eth_getTransactionCount" (JArray [JString from; JString "pending"]);
  gas_price ← rpc_hex_u128 rpc "eth_gasPrice" (JArray []);
  data ← erc20_transfer_calldata to amount;
  gas ← rpc_hex_u64 rpc "eth_estimateGas"
          (JArray [JObject [("from", JString from); ("to", JString (cc_asset config));
                            ("value", JString "0x0"); ("data", JString ("0x" +:+ hex_string data))]]);
  raw ← sign_legacy_erc20_transaction (cc_chain_id config) nonce gas_price
          (u64_saturating_add gas 20000) (cc_asset config) data secret;
  hash ← rpc_string rpc "eth_sendRawTransaction" (JArray [JString raw]);
  Ok (JObject [("success", JBool true); ("payer", JString from); ("transaction", JString hash);
               ("network", JString (cc_network config)); ("amount", JString (show_Z amount));
               ("payTo", JString to); ("asset", JString (cc_asset config)); ("rail", JString "x402")]).

Definition submit_x402_erc20_payment (rpc : rpc_node) (wallet : wallet_keys) (p : PaymentTransaction)
    : result (option json) :=
  if negb (on_chain p) then Ok None
  else
    config ← resolve_chain_config p;
    sender ← required_payment_address (sender_address p) "sender";
    recipient ← required_payment_address (recipient_address p) "recipient";
    amount ← ok_or "parse payment amount as token base units" (parse_u128 (amount p));
    _ ← ensure_ok (negb (amount =? 0)) "payment amount must be greater than zero";
    secret ← export_payment_secret wallet p sender;
    Some <$> submit_erc20_transfer rpc config secret sender recipient amount.
End sending.

(** ** What a reader of the encoding sees *)

(** The RLP of a list of strings, as a reader of the chain decodes it. *)
Definition split_exact (n : Z) (l : list Z) : option (list Z * list Z) :=
  if n <=? Z.of_nat (length l) then Some (take (Z.to_nat n) l, drop (Z.to_nat n) l) else None.

Definition unwrap (short long b : Z) (l : list Z) : option (list Z * list Z) :=
  if b - short <? 56 then split_exact (b - short) l
  else '(len, rest) ← split_exact (b - long) l; split_exact (be_value len) rest.

Definition rlp_read (l : list Z) : option (list Z * list Z) :=
  match l with
  | [] => None
  | b :: l' => if b <? 128 then Some ([b], l') else if b <? 192 then unwrap 128 183 b l' else None
  end.

Fixpoint rlp_items (fuel : nat) (l : list Z) : option (list (list Z)) :=
  match fuel, l with
  | _, [] => Some []
  | O, _ => None
  | S fuel', _ =>
      '(item, rest) ← rlp_read l;
      items ← rlp_items fuel' rest;
      Some (item :: items)
  end.

Definition rlp_decode_list (l : list Z) : option (list (list Z)) :=
  match l with
  | b :: l' =>
      if b <? 192 then None
      else '(payload, rest) ← unwrap 192 247 b l';
           match rest with [] => rlp_items (length payload) payload | _ => None end
  | [] => None
  end.

Lemma be_bytes_length n z : length (be_bytes n z) = n.
Proof. revert z. induction n as [|n IH]; intros z; [done|]. rewrite /= length_app IH /=. lia. Qed.

Lemma be_bytes_range n z : Forall byte_range (be_bytes n z).
Proof.
  revert z. induction n as [|n IH]; intros z; [constructor|]. simpl. apply Forall_app. split; [done|].
  constructor; [|constructor]. rewrite /byte_range. apply Z.mod_pos_bound. lia.
Qed.

Lemma be_value_snoc l b : be_value (l ++ [b]) = be_value l * 256 + b.
Proof. by rewrite /be_value foldl_app. Qed.

Lemma be_bytes_value n z : 0 ≤ z < 256 ^ Z.of_nat n → be_value (be_bytes n z) = z.
Proof.
  revert z. induction n as [|n IH]; intros z Hz.
  - change (256 ^ Z.of_nat 0) with 1 in Hz. assert (z = 0) as -> by lia. reflexivity.
  - rewrite Nat2Z.inj_succ Z.pow_succ_r in Hz; [|lia].
    rewrite /= be_value_snoc IH; [|split; [apply Z.div_pos; lia|apply Z.div_lt_upper_bound; lia]].
    pose proof (Z.div_mod z 256). lia.
Qed.

Lemma be_value_strip l : be_value (strip_zeros l) = be_value l.
Proof.
  induction l as [|b l IH]; [done|]. simpl. destruct (Z.eqb_spec b 0) as [->|]; [|done].
  rewrite IH. reflexivity.
Qed.

Lemma strip_zeros_length l : (length (strip_zeros l) ≤ length l)%nat.
Proof. induction l as [|b l IH]; [done|]. simpl. case_match; simpl; lia. Qed.

Lemma strip_zeros_range l : Forall byte_range l → Forall byte_range (strip_zeros l).
Proof. induction 1 as [|b l Hb Hl IH]; [constructor|]. simpl. case_match; [done|]. by constructor. Qed.

Lemma length_bytes_value n : 0 ≤ n < 2 ^ 64 → be_value (length_bytes n) = n.
Proof.
  intros Hn. rewrite /length_bytes.
  assert (be_value (strip_zeros (be_bytes 8 n)) = n) as Hv.
  { rewrite be_value_strip. by apply be_bytes_value. }
  destruct (strip_zeros (be_bytes 8 n)); [|done]. exact Hv.
Qed.

Lemma length_bytes_bound n : (1 ≤ length (length_bytes n) ≤ 8)%nat.
Proof.
  rewrite /length_bytes. pose proof (strip_zeros_length (be_bytes 8 n)) as Hl.
  rewrite be_bytes_length in Hl. destruct (strip_zeros (be_bytes 8 n)); simpl in *; lia.
Qed.

Lemma split_exact_app l rest : split_exact (Z.of_nat (length l)) (l ++ rest) = Some (l, rest).
Proof.
  rewrite /split_exact length_app Nat2Z.id take_app_length drop_app_length.
  by destruct (Z.leb_spec (Z.of_nat (length l)) (Z.of_nat (length l + length rest))); [|lia].
Qed.

(** A wrapped payload starts with a byte of its range and reads back. *)
Lemma unwrap_wrap short payload rest :
  Z.of_nat (length payload) < 2 ^ 64 →
  ∃ b l, rlp_wrap short (short + 55) payload = b :: l ∧ short ≤ b < short + 64 ∧
    unwrap short (short + 55) b (l ++ rest) = Some (payload, rest).
Proof.
  intros Hp. rewrite /rlp_wrap. destruct (Z.ltb_spec (Z.of_nat (length payload)) 56) as [Hs|Hs].
  - eexists _, _. split; [reflexivity|]. split; [lia|]. rewrite /unwrap.
    replace (short + Z.of_nat (length payload) - short) with (Z.of_nat (length payload)) by lia.
    destruct (Z.ltb_spec (Z.of_nat (length payload)) 56); [|lia]. apply split_exact_app.
  - pose proof (length_bytes_bound (Z.of_nat (length payload))) as Hlen.
    pose proof (length_bytes_value (Z.of_nat (length payload))) as Hval.
    set (len := length_bytes _) in *. eexists _, _. split; [reflexivity|]. split; [lia|].
    rewrite /unwrap. destruct (Z.ltb_spec (short + 55 + Z.of_nat (length len) - short) 56); [lia|].
    replace (short + 55 + Z.of_nat (length len) - (short + 55)) with (Z.of_nat (length len)) by lia.
    rewrite -app_assoc split_exact_app /= Hval; [|lia]. apply split_exact_app.
Qed.

(** What a byte string must be for the encoder: bytes, fewer than 2^64. *)
Definition encodable (l : list Z) : Prop :=
  Forall byte_range l ∧ Z.of_nat (length l) < 2 ^ 64.

Lemma rlp_bytes_ne l : rlp_bytes l ≠ [].
Proof. destruct l as [|b [|]]; rewrite /rlp_bytes /rlp_wrap; repeat case_match; done. Qed.

Lemma rlp_read_bytes l rest : encodable l → rlp_read (rlp_bytes l ++ rest) = Some (l, rest).
Proof.
  intros [Hl Hn].
  assert (rlp_read (rlp_wrap 128 (128 + 55) l ++ rest) = Some (l, rest)) as Hw.
  { destruct (unwrap_wrap 128 l rest Hn) as (b & w & -> & Hb & Hu). rewrite /= Hu.
    destruct (Z.ltb_spec b 128); [lia|]. by destruct (Z.ltb_spec b 192); [|lia]. }
  destruct l as [|b [|b' l]]; try exact Hw. rewrite /rlp_bytes.
  destruct (Z.ltb_spec b 128) as [Hb|]; [|exact Hw]. rewrite /=.
  by destruct (Z.ltb_spec b 128); [|lia].
Qed.

Lemma rlp_items_bytes items fuel :
  Forall encodable items → (length (concat (rlp_bytes <$> items)) ≤ fuel)%nat →
  rlp_items fuel (concat (rlp_bytes <$> items)) = Some items.
Proof.
  intros Hi. revert fuel. induction Hi as [|l items Hl Hi IH]; intros fuel Hf; [by destruct fuel|].
  rewrite fmap_cons /= in Hf |- *. rewrite length_app in Hf.
  pose proof (rlp_bytes_ne l) as Hne. destruct (rlp_bytes l) as [|b w] eqn:Hw; [done|].
  simpl in Hf. destruct fuel as [|fuel]; [lia|].
  assert (∀ x y, rlp_items (S fuel) (x :: y) =
    ('(item, rest) ← rlp_read (x :: y); items ← rlp_items fuel rest; Some (item :: items))) as Hstep by done.
  rewrite -app_comm_cons Hstep app_comm_cons -Hw rlp_read_bytes; [|done]. simpl. rewrite IH; [done|lia].
Qed.

Lemma rlp_list_decodes items :
  Forall encodable items → Z.of_nat (length (concat (rlp_bytes <$> items))) < 2 ^ 64 →
  rlp_decode_list (rlp_list (rlp_bytes <$> items)) = Some items.
Proof.
  intros Hi Hn. rewrite /rlp_list.
  destruct (unwrap_wrap 192 _ [] Hn) as (b & w & Hw & Hb & Hu). rewrite app_nil_r in Hu.
  replace (192 + 55) with 247 in * by lia. rewrite Hw /= Hu.
  destruct (Z.ltb_spec b 192); [lia|]. simpl. by apply rlp_items_bytes.
Qed.

(** Numbers are encoded as their shortest big-endian bytes. *)
Definition number_bytes (value : Z) : list Z :=
  if value =? 0 then [] else strip_zeros (be_bytes 16 value).

Lemma rlp_u128_bytes value : rlp_u128 value = rlp_bytes (number_bytes value).
Proof. rewrite /rlp_u128 /number_bytes. by case_match. Qed.

Lemma number_bytes_value value : 0 ≤ value ≤ u128_max → be_value (number_bytes value) = value.
Proof.
  intros Hv. rewrite /number_bytes. destruct (Z.eqb_spec value 0) as [->|]; [done|].
  rewrite be_value_strip. apply be_bytes_value. change (256 ^ Z.of_nat 16) with (u128_max + 1). lia.
Qed.

Lemma number_bytes_size value : Forall byte_range (number_bytes value) ∧ (length (number_bytes value) ≤ 16)%nat.
Proof.
  rewrite /number_bytes. case_match; [by split; [constructor|simpl; lia]|].
  split; [apply strip_zeros_range, be_bytes_range|].
  pose proof (strip_zeros_length (be_bytes 16 value)) as Hl. by rewrite be_bytes_length in Hl.
Qed.

(** ** Hexadecimal text *)

Lemma byte_ascii b : byte_range b → byte_of (ascii_of_nat (Z.to_nat b)) = b.
Proof. rewrite /byte_range /byte_of => Hb. rewrite nat_ascii_embedding; lia. Qed.

Lemma byte_of_range a : byte_range (byte_of a).
Proof. rewrite /byte_range /byte_of. pose proof (nat_ascii_bounded a). lia. Qed.

Lemma hex_string_bytes l : Forall byte_range l → hex_bytes (to_bytes (hex_string l)) = Some l.
Proof.
  intros Hl. rewrite /hex_bytes /hex_string String.list_ascii_of_string_of_list_ascii hex_decode_encode /=.
  f_equal. induction Hl as [|b l Hb Hl IH]; [done|]. by rewrite /= IH byte_ascii.
Qed.

Lemma decode_evm_address_range a l :
  decode_evm_address a = Ok l → length l = 20%nat ∧ Forall byte_range l.
Proof.
  rewrite /decode_evm_address => Hd. apply result_bind_ok in Hd as (x & _ & Hd).
  apply result_bind_ok in Hd as (l' & Hl & Hd). apply ok_or_ok in Hl.
  destruct (Nat.eqb_spec (length l') 20); [|done]. injection Hd as <-. split; [done|].
  rewrite /hex_bytes in Hl. destruct (hex_decode _) as [w|]; [|done]. injection Hl as <-.
  apply Forall_fmap, Forall_forall. intros c _. apply byte_of_range.
Qed.

Lemma parse_hex_range v z :
  (parse_hex_u64 v = Ok z → 0 ≤ z ≤ u64_max) ∧ (parse_hex_u128 v = Ok z → 0 ≤ z ≤ u128_max).
Proof.
  assert (∀ max l, from_str_radix16 max l = Some z → 0 ≤ z ≤ max) as Hr.
  { intros max l. rewrite /from_str_radix16. case_match; [done|].
    intros (w & _ & Hw)%bind_Some. rewrite /uint_checked in Hw.
    destruct ((0 <=? w) && (w <=? max)) eqn:E; [|done]. injection Hw as ->. lia. }
  split; intros Hp%ok_or_ok; by eapply Hr.
Qed.

Lemma rpc_u64_range rpc m ps z : rpc_hex_u64 rpc m ps = Ok z → 0 ≤ z ≤ u64_max.
Proof.
  intros (s & _ & Hp)%result_bind_ok. apply with_context_ok in Hp. by apply (parse_hex_range s z).
Qed.

Lemma rpc_u128_range rpc m ps z : rpc_hex_u128 rpc m ps = Ok z → 0 ≤ z ≤ u128_max.
Proof.
  intros (s & _ & Hp)%result_bind_ok. apply with_context_ok in Hp. by apply (parse_hex_range s z).
Qed.

(** ** Signed transactions as the chain reads them *)

Record Transaction := mkTransaction {
  tx_nonce : Z;
  tx_gas_price : Z;
  tx_gas_limit : Z;
  tx_to : list Z;
  tx_value : Z;
  tx_data : list Z;
  tx_v : Z;
  tx_r : Z;
  tx_s : Z;
}.

Definition transaction_of (fields : list (list Z)) : option Transaction :=
  match fields with
  | [nonce; price; gas; to; value; data; v; r; s] =>
      Some (mkTransaction (be_value nonce) (be_value price) (be_value gas) to (be_value value) data
              (be_value v) (be_value r) (be_value s))
  | _ => None
  end.

Definition read_transaction (raw : string) : option Transaction :=
  body ← strip_prefix (to_bytes "0x") (to_bytes raw);
  l ← hex_bytes body;
  fields ← rlp_decode_list l;
  transaction_of fields.

(** [transfer(address,uint256)]: the recipient and the amount. *)
Definition read_transfer (data : list Z) : option (list Z * Z) :=
  if (length data =? 68)%nat && bool_decide (take 4 data = ERC20_TRANSFER_SELECTOR)
     && bool_decide (take 12 (drop 4 data) = replicate 12 0)
  then Some (take 20 (drop 16 data), be_value (drop 36 data)) else None.

Lemma Ok_inj {A} (a b : A) : Ok a = Ok b → a = b.
Proof. by intros [=]. Qed.

Lemma be_value_zeros n l : be_value (replicate n 0 ++ l) = be_value l.
Proof. rewrite /be_value foldl_app. f_equal. by induction n. Qed.

Lemma calldata_spec to amount data :
  0 ≤ amount ≤ u128_max → erc20_transfer_calldata to amount = Ok data →
  ∃ address, decode_evm_address to = Ok address ∧ read_transfer data = Some (address, amount)
    ∧ Forall byte_range data ∧ length data = 68%nat.
Proof.
  intros Ha Hd. rewrite /erc20_transfer_calldata in Hd.
  apply result_bind_ok in Hd as (address & Hd & He). apply Ok_inj in He. subst data.
  exists address. split; [done|].
  destruct (decode_evm_address_range _ _ Hd) as [Hlen Hbytes].
  pose proof (be_bytes_length 16 amount) as Hb.
  assert (be_value (replicate 16 0 ++ be_bytes 16 amount) = amount) as Hv.
  { rewrite be_value_zeros. apply be_bytes_value. change (256 ^ Z.of_nat 16) with (u128_max + 1). lia. }
  set (value := replicate 16 0 ++ be_bytes 16 amount) in *.
  assert (length value = 32%nat) as Hvl by (by rewrite /value length_app length_replicate Hb).
  assert (Forall byte_range value) as Hvb.
  { apply Forall_app. split; [apply Forall_replicate; rewrite /byte_range; lia|apply be_bytes_range]. }
  clearbody value.
  assert (length (ERC20_TRANSFER_SELECTOR ++ replicate 12 0 ++ address ++ value) = 68%nat) as Hall.
  { rewrite !length_app length_replicate Hlen Hvl. reflexivity. }
  split; [|split; [|done]].
  - rewrite /read_transfer Hall.
    rewrite !bool_decide_eq_true_2; [|done|done].
    assert (drop 16 (ERC20_TRANSFER_SELECTOR ++ replicate 12 0 ++ address ++ value)
            = address ++ value) as -> by reflexivity.
    assert (drop 36 (ERC20_TRANSFER_SELECTOR ++ replicate 12 0 ++ address ++ value) = value) as ->.
    { rewrite (app_assoc (replicate 12 0)) (app_assoc ERC20_TRANSFER_SELECTOR).
      apply drop_app_length'. rewrite !length_app length_replicate Hlen. reflexivity. }
    simpl. f_equal. f_equal; [|done].
    by apply take_app_length'.
  - repeat (apply Forall_app; split); [| |done|done].
    + rewrite /ERC20_TRANSFER_SELECTOR /byte_range. repeat constructor; lia.
    + apply Forall_replicate. rewrite /byte_range. lia.
Qed.

Lemma rlp_bytes_length l : (length (rlp_bytes l) ≤ length l + 9)%nat.
Proof.
  assert (length (rlp_wrap 128 183 l) ≤ length l + 9)%nat as Hw.
  { rewrite /rlp_wrap. case_match; simpl; [lia|]. rewrite length_app.
    pose proof (length_bytes_bound (Z.of_nat (length l))). lia. }
  destruct l as [|b [|b' l]]; try exact Hw. rewrite /rlp_bytes. case_match; simpl in *; lia.
Qed.

(** Nine fields of at most 100 bytes are encoded and read back. *)
Lemma small_fields_decode (fields : list (list Z)) :
  (length fields ≤ 9)%nat → Forall (λ l, Forall byte_range l ∧ (length l ≤ 100)%nat) fields →
  rlp_decode_list (rlp_list (rlp_bytes <$> fields)) = Some fields.
Proof.
  intros Hn Hf.
  assert (length (concat (rlp_bytes <$> fields)) ≤ 109 * length fields)%nat as Hl.
  { clear Hn. induction Hf as [|l fields [_ Hl] Hf IH]; [simpl; lia|].
    rewrite fmap_cons /= length_app. pose proof (rlp_bytes_length l). lia. }
  apply rlp_list_decodes; [|lia]. eapply Forall_impl; [exact Hf|].
  intros l [Hb Hl']. split; [done|lia].
Qed.

(** The encoding is bytes again. *)
Lemma rlp_wrap_range short payload :
  0 ≤ short ≤ 192 → Forall byte_range payload → Forall byte_range (rlp_wrap short (short + 55) payload).
Proof.
  intros Hs Hl. rewrite /rlp_wrap. case_match; [constructor; [rewrite /byte_range; lia|done]|].
  pose proof (length_bytes_bound (Z.of_nat (length payload))). constructor; [rewrite /byte_range; lia|].
  apply Forall_app. split; [|done]. rewrite /length_bytes.
  pose proof (strip_zeros_range _ (be_bytes_range 8 (Z.of_nat (length payload)))) as Hr.
  destruct (strip_zeros _); [|done]. by constructor; [rewrite /byte_range; lia|].
Qed.

Lemma rlp_bytes_range l : Forall byte_range l → Forall byte_range (rlp_bytes l).
Proof.
  intros Hl. pose proof (rlp_wrap_range 128 l ltac:(lia) Hl) as Hw.
  destruct l as [|b [|b' l]]; try exact Hw. rewrite /rlp_bytes. by case_match.
Qed.

Lemma rlp_list_range (fields : list (list Z)) :
  Forall (λ l, Forall byte_range l) fields → Forall byte_range (rlp_list (rlp_bytes <$> fields)).
Proof.
  intros Hf. apply (rlp_wrap_range 192); [lia|].
  induction Hf as [|l fields Hb Hf IH]; [constructor|]. rewrite fmap_cons /=.
  apply Forall_app. split; [by apply rlp_bytes_range|done].
Qed.

Lemma read_transaction_hex l :
  Forall byte_range l →
  read_transaction ("0x" +:+ hex_string l) = (fields ← rlp_decode_list l; transaction_of fields).
Proof.
  intros Hl. rewrite /read_transaction to_bytes_app.
  assert (strip_prefix (to_bytes "0x") (to_bytes "0x" ++ to_bytes (hex_string l))
          = Some (to_bytes (hex_string l))) as -> by by apply strip_prefix_Some.
  simpl. by rewrite hex_string_bytes.
Qed.

(** Splits a list of short byte strings. *)
Ltac short_strings :=
  repeat match goal with
    | |- Forall _ (_ :: _) => apply Forall_cons_2
    | |- Forall _ [] => apply Forall_nil_2
    end;
  (split; [auto using strip_zeros_range, Forall_nil_2|simpl; lia]).

Section transactions.
Context `{Evm}.

(** The fields of a transaction before they are encoded. *)
Definition transaction_strings (nonce gas_price gas_limit : Z) (to data : list Z) : list (list Z) :=
  [number_bytes nonce; number_bytes gas_price; number_bytes gas_limit; to; []; data].

Lemma transaction_fields_strings nonce price gas to data :
  transaction_fields nonce price gas to data = rlp_bytes <$> transaction_strings nonce price gas to data.
Proof. by rewrite /transaction_fields /rlp_u64 !rlp_u128_bytes. Qed.

(** What is signed: the fields with the chain's id (EIP-155). *)
Definition signing_payload (chain_id nonce gas_price gas_limit : Z) (to data : list Z) : list Z :=
  rlp_list (rlp_bytes <$> (transaction_strings nonce gas_price gas_limit to data
                           ++ [number_bytes chain_id; []; []])).

Lemma transaction_strings_small nonce price gas to data :
  length to = 20%nat → Forall byte_range to → length data = 68%nat → Forall byte_range data →
  Forall (λ l, Forall byte_range l ∧ (length l ≤ 100)%nat) (transaction_strings nonce price gas to data).
Proof.
  intros Ht Htb Hd Hdb. rewrite /transaction_strings.
  pose proof (number_bytes_size nonce) as [? ?]. pose proof (number_bytes_size price) as [? ?].
  pose proof (number_bytes_size gas) as [? ?].
  short_strings.
Qed.

Lemma sign_legacy_reads chain_id nonce price gas token data secret raw :
  0 ≤ chain_id ≤ u64_max → 0 ≤ nonce ≤ u64_max → 0 ≤ price ≤ u128_max → 0 ≤ gas ≤ u64_max →
  Forall byte_range data → length data = 68%nat →
  sign_legacy_erc20_transaction chain_id nonce price gas token data secret = Ok raw →
  ∃ to r s recovery,
    decode_evm_address token = Ok to ∧
    sign_recoverable secret (keccak256 (signing_payload chain_id nonce price gas to data))
      = Ok (r, s, recovery) ∧
    rlp_decode_list (signing_payload chain_id nonce price gas to data)
      = Some (transaction_strings nonce price gas to data ++ [number_bytes chain_id; []; []]) ∧
    read_transaction raw = Some (mkTransaction nonce price gas to 0 data
      (chain_id * 2 + (35 + Z.land recovery 1)) (be_value r) (be_value s)).
Proof.
  intros Hc Hn Hp Hg Hdb Hdl Hs. rewrite /sign_legacy_erc20_transaction in Hs.
  apply result_bind_ok in Hs as (to & Hto & Hs).
  destruct (decode_evm_address_range _ _ Hto) as [Htl Htb].
  pose proof (transaction_strings_small nonce price gas to data Htl Htb Hdl Hdb) as Hsmall.
  rewrite transaction_fields_strings in Hs.
  apply result_bind_ok in Hs as ([[r s] recovery] & Hsig & Hs). apply with_context_ok in Hsig.
  apply result_bind_ok in Hs as (v & Hv & Hraw). apply ok_or_ok in Hv.
  apply bind_Some in Hv as (d & Hd & Hv). rewrite /uint_checked in Hd Hv.
  destruct ((0 <=? chain_id * 2) && _) eqn:E1; [|done]. injection Hd as <-.
  destruct ((0 <=? chain_id * 2 + _) && _) eqn:E2; [|done]. injection Hv as Hv. bool_to_prop.
  apply Ok_inj in Hraw. exists to, r, s, recovery.
  assert (signing_payload chain_id nonce price gas to data
    = rlp_list ((rlp_bytes <$> transaction_strings nonce price gas to data)
                ++ [rlp_u64 chain_id; rlp_bytes []; rlp_bytes []])) as Hpay.
  { rewrite /signing_payload fmap_app /rlp_u64 rlp_u128_bytes. reflexivity. }
  destruct (sign_recoverable_size _ _ _ _ _ Hsig) as (Hrl & Hsl & Hrb & Hsb).
  pose proof (number_bytes_size chain_id) as [? ?]. pose proof (number_bytes_size v) as [? ?].
  split; [done|]. split; [by rewrite Hpay|]. split.
  { apply small_fields_decode; [simpl; lia|]. apply Forall_app. split; [done|].
    short_strings. }
  set (tail := [number_bytes v; strip_zeros r; strip_zeros s]).
  assert (raw = "0x" +:+ hex_string (rlp_list (rlp_bytes <$>
    (transaction_strings nonce price gas to data ++ tail)))) as ->.
  { rewrite -Hraw fmap_app /rlp_u64 rlp_u128_bytes. reflexivity. }
  assert (Forall (λ l, Forall byte_range l ∧ (length l ≤ 100)%nat)
            (transaction_strings nonce price gas to data ++ tail)) as Hall.
  { apply Forall_app. split; [done|]. pose proof (strip_zeros_length r). pose proof (strip_zeros_length s).
    rewrite /tail. short_strings. }
  rewrite read_transaction_hex; [|apply rlp_list_range; eapply Forall_impl; [exact Hall|tauto]].
  rewrite small_fields_decode /=; [|simpl; lia|exact Hall]. rewrite !be_value_strip.
  assert (u64_max ≤ u128_max) by done.
  rewrite !number_bytes_value /=; [by rewrite Hv|lia..].
Qed.
End transactions.

(** ** Transfers in a receipt *)

Definition padded (address : list Z) : list Z := replicate 12 0 ++ address.

Lemma hex_decode_zeros n l :
  hex_decode (replicate (2 * n) "0"%char ++ l)
  = option_map (app (replicate n (ascii_of_nat 0))) (hex_decode l).
Proof.
  induction n as [|n IH]; [change (hex_decode l = option_map (app []) (hex_decode l)); by destruct (hex_decode l)|].
  replace (2 * S n)%nat with (S (S (2 * n))) by lia.
  change (hex_decode (replicate (S (S (2 * n))) "0"%char ++ l))
    with (rest ← hex_decode (replicate (2 * n) "0"%char ++ l); Some (ascii_of_nat 0 :: rest)).
  rewrite IH. by destruct (hex_decode l).
Qed.

Lemma hex_bytes_zeros l : hex_bytes (replicate 24 "0"%char ++ l) = option_map padded (hex_bytes l).
Proof. rewrite /hex_bytes (hex_decode_zeros 12 l). by destruct (hex_decode l). Qed.

Lemma forallb_replicate (c : ascii) l : forallb (Ascii.eqb c) l = true → l = replicate (length l) c.
Proof.
  induction l as [|x l IH]; [done|]. simpl. rewrite andb_true_iff. intros [Hx Hl].
  apply Ascii.eqb_eq in Hx as ->. by rewrite {1}(IH Hl).
Qed.

(** A matching topic is the address padded to a word. *)
Lemma indexed_topic_reads topic address :
  indexed_address_topic_matches topic address = Some true →
  ∃ t, as_str topic = Some t ∧ hex_bytes (strip_0x t) = Some (padded address).
Proof.
  rewrite /indexed_address_topic_matches. destruct (as_str topic) as [t|]; [|done].
  destruct (Nat.eqb_spec (length (strip_0x t)) 64) as [Hl|]; [|done]. simpl.
  destruct (strip_0x t !! 24%nat) as [c|]; [|done]. destruct (between 128 191 c); [done|].
  intros [= [Hz Hd]%andb_true_iff]. exists t. split; [done|].
  apply forallb_replicate in Hz. rewrite length_take Hl in Hz.
  rewrite -(take_drop 24 (strip_0x t)) Hz hex_bytes_zeros.
  by rewrite (bool_decide_eq_true_1 _ Hd).
Qed.

(** A log that is the token's [Transfer(from, to, value)] event. *)
Definition is_transfer (token : string) (from to : list Z) (amount : Z) (log : json) : Prop :=
  ∃ address t0 t1 t2 more topic from_text to_text data,
    get_str "address" log = Some address ∧ eq_ignore_ascii_case address token = true ∧
    json_get "topics" log = Some (JArray (t0 :: t1 :: t2 :: more)) ∧
    as_str t0 = Some topic ∧ eq_ignore_ascii_case topic ERC20_TRANSFER_TOPIC = true ∧
    as_str t1 = Some from_text ∧ hex_bytes (strip_0x from_text) = Some (padded from) ∧
    as_str t2 = Some to_text ∧ hex_bytes (strip_0x to_text) = Some (padded to) ∧
    get_str "data" log = Some data ∧ parse_hex_u128 data = Ok amount.

Lemma is_some_and_Some {A} (P : A → bool) o : is_some_and P o = true → ∃ a, o = Some a ∧ P a = true.
Proof. destruct o; [eauto|done]. Qed.

Lemma log_matches_transfer token from to amount log :
  log_matches token from to amount log = Some (Ok true) → is_transfer token from to amount log.
Proof.
  rewrite /log_matches. destruct (is_some_and _ (get_str "address" log)) eqn:Ha; [|done]. simpl.
  apply is_some_and_Some in Ha as (address & Ha & Ht).
  destruct (json_get "topics" log) as [[| | | |[|t0 [|t1 [|t2 more]]]|]|] eqn:Htop; try done.
  destruct (topic_is ERC20_TRANSFER_TOPIC t0) eqn:H0; [|done]. simpl.
  apply is_some_and_Some in H0 as (topic & H0 & H0').
  intros ([|] & H1 & Hr)%bind_Some; [|done]. simpl in Hr.
  apply bind_Some in Hr as ([|] & H2 & Hr); [|done]. simpl in Hr.
  apply indexed_topic_reads in H1 as (ft & Hf1 & Hf2).
  apply indexed_topic_reads in H2 as (tt & Ht1 & Ht2).
  destruct (get_str "data" log) as [data|] eqn:Hd; [|done]. injection Hr as Hr.
  apply result_bind_ok in Hr as (v & Hv & Heq). apply Ok_inj, Z.eqb_eq in Heq as ->.
  by exists address, t0, t1, t2, more, topic, ft, tt, data.
Qed.

Lemma any_log_true f logs : any_log f logs = Some (Ok true) → ∃ log, log ∈ logs ∧ f log = Some (Ok true).
Proof.
  induction logs as [|log logs IH]; [done|]. simpl. intros ([[|]|e] & Hf & Hr)%bind_Some; [| |done].
  - exists log. split; [by left|done].
  - destruct (IH Hr) as (log' & Hin & Hf'). exists log'. split; [by right|done].
Qed.

(** What a verified settlement shows: the transaction that the receipt names
    succeeded on the payment's chain, and one of its logs is the transfer of
    the payment's amount of the payment's asset from sender to recipient. *)
Definition paid_on_chain (rpc : rpc_node) (p : PaymentTransaction) (receipt : json) : Prop :=
  ∃ config hash sender recipient amt from to chain_receipt logs log,
    resolve_chain_config p = Ok config ∧
    receipt_string receipt ["transaction"; "tx_hash"; "txHash"] = Some hash ∧
    is_evm_transaction_hash hash = true ∧
    sender_address p = Some sender ∧ decode_evm_address sender = Ok from ∧
    recipient_address p = Some recipient ∧ decode_evm_address recipient = Ok to ∧
    parse_u128 (amount p) = Some amt ∧
    rpc_hex_u64 rpc "eth_chainId" (JArray []) = Ok (cc_chain_id config) ∧
    rpc_value rpc "eth_getTransactionReceipt" (JArray [JString hash]) = Ok chain_receipt ∧
    get_str "status" chain_receipt = Some "0x1" ∧
    json_get "logs" chain_receipt = Some (JArray logs) ∧ log ∈ logs ∧
    is_transfer (cc_asset config) from to amt log.

Lemma required_address_Some o name a : required_payment_address o name = Ok a → o = Some a.
Proof.
  intros (x & Hx & Hr)%result_bind_ok. apply ok_or_ok in Hx as ->.
  apply result_bind_ok in Hr as (u & _ & Hr). by apply Ok_inj in Hr as ->.
Qed.

Lemma required_address_evm o name a : required_payment_address o name = Ok a → is_evm_address a = true.
Proof.
  intros (x & Hx & Hr)%result_bind_ok. apply result_bind_ok in Hr as (u & He%ensure_ok_ok & Hr).
  by apply Ok_inj in Hr as <-.
Qed.

Lemma check_chain_ok rpc id u : check_chain rpc id = Ok u → rpc_hex_u64 rpc "eth_chainId" (JArray []) = Ok id.
Proof. intros (x & Hx & He)%result_bind_ok. apply ensure_ok_ok, Z.eqb_eq in He as ->. done. Qed.

Lemma verified_paid_on_chain rpc p receipt :
  on_chain p = true → verify_x402_erc20_settlement_receipt rpc p receipt = Some (Ok tt) →
  paid_on_chain rpc p receipt.
Proof.
  rewrite /verify_x402_erc20_settlement_receipt => ->. simpl.
  set (ready := validate_x402_settlement_receipt p receipt ≫= _).
  destruct ready as [[config e]|] eqn:Hready; [|done]. subst ready. intros Hver.
  apply result_bind_ok in Hready as ([] & _ & Hready).
  apply result_bind_ok in Hready as (c & Hc & Hready).
  apply result_bind_ok in Hready as (hash & Hh & Hready). apply with_context_ok, ok_or_ok in Hh.
  apply result_bind_ok in Hready as (u & Hevm & Hready). apply ensure_ok_ok in Hevm.
  apply result_bind_ok in Hready as (sender & Hs & Hready). apply required_address_Some in Hs.
  apply result_bind_ok in Hready as (recipient & Hr & Hready). apply required_address_Some in Hr.
  apply result_bind_ok in Hready as (amt & Ha & Hready). apply ok_or_ok in Ha.
  apply Ok_inj in Hready. injection Hready as <- <-.
  rewrite /verify_erc20_transfer_receipt in Hver. simpl in Hver.
  set (checked := check_chain rpc (cc_chain_id c) ≫= _) in Hver.
  destruct checked as [chain_receipt|] eqn:Hch; [|done]. subst checked.
  apply result_bind_ok in Hch as (u1 & H1%check_chain_ok & Hch).
  apply result_bind_ok in Hch as (cr & H2 & Hch).
  apply result_bind_ok in Hch as (u2 & _ & Hch).
  apply result_bind_ok in Hch as (u3 & H3 & Hch). apply ensure_ok_ok in H3.
  apply result_bind_ok in Hch as (u4 & _ & Hch). apply result_bind_ok in Hch as (u5 & _ & Hch).
  apply Ok_inj in Hch. subst cr.
  apply bind_Some in Hver as (found & Hf & Hver). injection Hver as Hver.
  apply result_bind_ok in Hver as (b & -> & Hb). apply ensure_ok_ok in Hb. subst b.
  rewrite /receipt_has_matching_erc20_transfer in Hf.
  destruct (json_get "logs" chain_receipt) as [[| | | |logs|]|] eqn:Hlogs; try done. simpl in Hf.
  destruct (decode_evm_address sender) as [from|] eqn:Hfrom; [|done]. simpl in Hf.
  destruct (decode_evm_address recipient) as [to|] eqn:Hto; [|done]. simpl in Hf.
  apply any_log_true in Hf as (log & Hin & Hlog). apply log_matches_transfer in Hlog.
  exists c, hash, sender, recipient, amt, from, to, chain_receipt, logs, log.
  by rewrite (bool_decide_eq_true_1 _ H3).
Qed.

(** C12: A settlement receipt is accepted only for a payment made on chain.
    Whenever the verification of an x402 payment on the web3 layer passes, the
    RPC node is on the payment's chain, the transaction the receipt names
    succeeded there, and among its logs is a Transfer event of the payment's
    asset, from the sender's to the recipient's address, of exactly the
    payment's amount; and the receipt agrees with the payment. *)
Theorem settlement_paid_on_chain rpc p receipt :
  on_chain p = true → verify_x402_erc20_settlement_receipt rpc p receipt = Some (Ok tt) →
  validate_x402_settlement_receipt p receipt = Ok tt ∧ paid_on_chain rpc p receipt.
Proof.
  intros Hon Hver. split; [|by apply verified_paid_on_chain].
  rewrite /verify_x402_erc20_settlement_receipt Hon in Hver.
  by destruct (validate_x402_settlement_receipt p receipt) as [[]|].
Qed.

(** ** Sent transfers *)

Section sent.
Context `{Evm}.

(** What is on the wire when a transfer has been sent. *)
Definition transfer_sent (rpc : rpc_node) (config : ChainConfig) (secret : list Z)
    (recipient : string) (amt : Z) (hash : string) : Prop :=
  ∃ raw nonce price gas token to data r s recovery,
    decode_evm_address (cc_asset config) = Ok token ∧ decode_evm_address recipient = Ok to ∧
    rpc_hex_u64 rpc "eth_chainId" (JArray []) = Ok (cc_chain_id config) ∧
    sign_recoverable secret (keccak256 (signing_payload (cc_chain_id config) nonce price gas token data))
      = Ok (r, s, recovery) ∧
    rlp_decode_list (signing_payload (cc_chain_id config) nonce price gas token data)
      = Some (transaction_strings nonce price gas token data
              ++ [number_bytes (cc_chain_id config); []; []]) ∧
    read_transaction raw = Some (mkTransaction nonce price gas token 0 data
      (cc_chain_id config * 2 + (35 + Z.land recovery 1)) (be_value r) (be_value s)) ∧
    read_transfer data = Some (to, amt) ∧
    rpc_string rpc "eth_sendRawTransaction" (JArray [JString raw]) = Ok hash.

(** The receipt that a sent transfer leaves. *)
Definition sent_receipt (config : ChainConfig) (sender recipient : string) (amt : Z) (hash : string) : json :=
  JObject [("success", JBool true); ("payer", JString sender); ("transaction", JString hash);
           ("network", JString (cc_network config)); ("amount", JString (show_Z amt));
           ("payTo", JString recipient); ("asset", JString (cc_asset config)); ("rail", JString "x402")].

Lemma submit_transfer_inv rpc config secret from to amt receipt :
  0 ≤ amt ≤ u128_max →
  submit_erc20_transfer rpc config secret from to amt = Ok receipt →
  ∃ hash, receipt = sent_receipt config from to amt hash ∧ transfer_sent rpc config secret to amt hash.
Proof.
  intros Ha Hs. rewrite /submit_erc20_transfer in Hs.
  apply result_bind_ok in Hs as (u & Hid%check_chain_ok & Hs).
  apply result_bind_ok in Hs as (nonce & Hnonce%rpc_u64_range & Hs).
  apply result_bind_ok in Hs as (price & Hprice%rpc_u128_range & Hs).
  apply result_bind_ok in Hs as (data & Hdata & Hs).
  apply result_bind_ok in Hs as (gas & Hgas%rpc_u64_range & Hs).
  apply result_bind_ok in Hs as (raw & Hraw & Hs).
  apply result_bind_ok in Hs as (hash & Hhash & Hs). apply Ok_inj in Hs. subst receipt.
  destruct (calldata_spec _ _ _ Ha Hdata) as (address & Hto & Hread & Hdb & Hdl).
  pose proof (rpc_u64_range _ _ _ _ Hid) as Hidr.
  assert (0 ≤ u64_saturating_add gas 20000 ≤ u64_max) as Hg
    by (assert (0 ≤ u64_max) by done; rewrite /u64_saturating_add; lia).
  destruct (sign_legacy_reads _ _ _ _ _ _ _ _ Hidr Hnonce Hprice Hg Hdb Hdl Hraw)
    as (token & r & s & recovery & Htok & Hsig & Hpay & Htx).
  exists hash. split; [done|].
  by exists raw, nonce, price, (u64_saturating_add gas 20000), token, address, data, r, s, recovery.
Qed.

Lemma submit_payment_inv rpc wallet p receipt :
  submit_x402_erc20_payment rpc wallet p = Ok (Some receipt) →
  on_chain p = true ∧ ∃ config sender recipient amt secret hash,
    resolve_chain_config p = Ok config ∧
    sender_address p = Some sender ∧ is_evm_address sender = true ∧
    recipient_address p = Some recipient ∧ is_evm_address recipient = true ∧
    parse_u128 (amount p) = Some amt ∧ 0 < amt ≤ u128_max ∧
    export_payment_secret wallet p sender = Ok secret ∧
    receipt = sent_receipt config sender recipient amt hash ∧
    transfer_sent rpc config secret recipient amt hash.
Proof.
  rewrite /submit_x402_erc20_payment. destruct (on_chain p); [|done]. intros Hs. split; [done|].
  simpl in Hs. apply result_bind_ok in Hs as (config & Hc & Hs).
  apply result_bind_ok in Hs as (sender & Hsd & Hs).
  apply result_bind_ok in Hs as (recipient & Hr & Hs).
  apply result_bind_ok in Hs as (amt & Ha & Hs). apply ok_or_ok in Ha.
  apply result_bind_ok in Hs as (u & Hz & Hs). apply ensure_ok_ok in Hz.
  apply result_bind_ok in Hs as (secret & Hsec & Hs).
  destruct (submit_erc20_transfer rpc config secret sender recipient amt) as [j|] eqn:Hsub; [|done].
  apply Ok_inj in Hs. injection Hs as <-.
  pose proof (parse_uint_range _ _ _ Ha) as Hrange.
  destruct (submit_transfer_inv _ _ _ _ _ _ _ Hrange Hsub) as (hash & -> & Hsent).
  exists config, sender, recipient, amt, secret, hash.
  pose proof (required_address_Some _ _ _ Hsd). pose proof (required_address_Some _ _ _ Hr).
  repeat split; try done; [by eapply required_address_evm|by eapply required_address_evm|lia|lia].
Qed.

(** C14: What is sent is the payment. When submitting a payment returns a
    receipt, the transaction handed to the RPC node is the encoding, as the chain
    decodes it, of a call of the payment's token that transfers exactly the
    payment's amount to the recipient's address and carries no ether. Its
    signature, by the key of the sender's account, is over the same fields with the
    id of the payment's chain, which is also the node's, and the receipt names the
    hash the node returned. *)
Theorem submitted_payment_is_sent rpc wallet p receipt :
  submit_x402_erc20_payment rpc wallet p = Ok (Some receipt) →
  ∃ config sender recipient amt secret hash,
    resolve_chain_config p = Ok config ∧ sender_address p = Some sender ∧
    recipient_address p = Some recipient ∧ parse_u128 (amount p) = Some amt ∧ 0 < amt ∧
    export_payment_secret wallet p sender = Ok secret ∧
    receipt_string receipt ["transaction"] = trimmed_nonempty (Some hash) ∧
    transfer_sent rpc config secret recipient amt hash.
Proof.
  intros (_ & config & sender & recipient & amt & secret & hash & Hc & Hs & _ & Hr & _ & Ha & Hz & Hsec
    & -> & Hsent)%submit_payment_inv.
  exists config, sender, recipient, amt, secret, hash. repeat split; try done. lia.
Qed.
End sent.

(** ** A mined transfer settles its payment *)

(** The word of an address and of an amount, as a node writes them. *)
Definition word_text (l : list Z) : string := "0x" +:+ hex_string l.

Definition transfer_event (token : string) (from to : list Z) (amt : Z) : json :=
  JObject [("address", JString token);
           ("topics", JArray [JString ERC20_TRANSFER_TOPIC; JString (word_text (padded from));
                              JString (word_text (padded to))]);
           ("data", JString (word_text (be_bytes 32 amt)))].

(** The node's receipt of a successful call of the token: events of other
    contracts, the transfer, anything. *)
Definition mined_receipt (token hash : string) (from to : list Z) (amt : Z)
    (before after : list json) : json :=
  JObject [("transactionHash", JString hash); ("status", JString "0x1"); ("to", JString token);
           ("logs", JArray (before ++ transfer_event token from to amt :: after))].

Definition foreign (token : string) (log : json) : Prop :=
  is_some_and (λ a, eq_ignore_ascii_case a token) (get_str "address" log) = false.

Lemma to_bytes_hex_string l :
  to_bytes (hex_string l) = hex_encode ((λ b, ascii_of_nat (Z.to_nat b)) <$> l).
Proof. apply String.list_ascii_of_string_of_list_ascii. Qed.

Lemma hex_encode_cons b l :
  hex_encode (b :: l)
  = hex_digit (nat_of_ascii b / 16)%nat :: hex_digit (nat_of_ascii b `mod` 16)%nat :: hex_encode l.
Proof. done. Qed.

Lemma hex_encode_length l : length (hex_encode l) = (2 * length l)%nat.
Proof. induction l as [|b l IH]; [done|]. rewrite hex_encode_cons /= IH. lia. Qed.

Lemma hex_digit_ascii n : between 128 191 (hex_digit n) = false.
Proof.
  rewrite /hex_digit. destruct (HEX !! n) as [c|] eqn:E; [|done]. simpl.
  assert (forallb (λ c, negb (between 128 191 c)) HEX = true) as Hall by reflexivity.
  rewrite forallb_elem_of in Hall. apply negb_true_iff, Hall. by eapply list_elem_of_lookup_2.
Qed.

Lemma hex_encode_ascii l : Forall (λ c, between 128 191 c = false) (hex_encode l).
Proof.
  induction l as [|b l IH]; [constructor|]. rewrite hex_encode_cons.
  repeat constructor; [apply hex_digit_ascii..|done].
Qed.

(** A word starting with a zero byte has nothing more to strip. *)
Lemma strip_word l : strip_0x (word_text (0 :: l)) = to_bytes (hex_string (0 :: l)).
Proof.
  assert (to_bytes (hex_string (0 :: l)) = "0"%char :: "0"%char :: to_bytes (hex_string l)) as He.
  { by rewrite !to_bytes_hex_string. }
  rewrite /strip_0x /word_text to_bytes_app He /=.
  destruct (String.length (hex_string (0 :: l))) eqn:E; reflexivity.
Qed.

Lemma strip_padded address :
  strip_0x (word_text (padded address)) = to_bytes (hex_string (padded address)).
Proof. exact (strip_word (replicate 11 0 ++ address)). Qed.

Lemma topic_of_address address :
  length address = 20%nat → Forall byte_range address →
  indexed_address_topic_matches (JString (word_text (padded address))) address = Some true.
Proof.
  intros Hl Hb. rewrite /indexed_address_topic_matches. cbn [as_str].
  rewrite (strip_padded address).
  pose proof (hex_string_bytes address Hb) as Hhex.
  assert (to_bytes (hex_string (padded address)) = replicate 24 "0"%char ++ to_bytes (hex_string address)) as ->.
  { by rewrite !to_bytes_hex_string. }
  assert (length (to_bytes (hex_string address)) = 40%nat) as Hlen.
  { by rewrite to_bytes_hex_string hex_encode_length length_fmap Hl. }
  pose proof (hex_encode_ascii ((λ b, ascii_of_nat (Z.to_nat b)) <$> address)) as Hasc.
  rewrite -to_bytes_hex_string in Hasc. set (t := to_bytes (hex_string address)) in *. clearbody t.
  rewrite length_app length_replicate Hlen /=. destruct t as [|c t]; [done|]. simpl.
  rewrite (Forall_inv Hasc) Hhex bool_decide_eq_true_2; done.
Qed.

Lemma hex_value_byte b acc l :
  hex_number acc (hex_digit (nat_of_ascii b / 16)%nat :: hex_digit (nat_of_ascii b `mod` 16)%nat :: l)
  = hex_number (acc * 256 + byte_of b) l.
Proof.
  assert (hex_value (hex_digit (nat_of_ascii b / 16)%nat) = Some (nat_of_ascii b / 16)%nat
    ∧ hex_value (hex_digit (nat_of_ascii b `mod` 16)%nat) = Some (nat_of_ascii b `mod` 16)%nat) as [H1 H2]
    by (by destruct b as [[] [] [] [] [] [] [] []]).
  pose proof (Nat.div_mod_eq (nat_of_ascii b) 16) as Hn. rewrite /byte_of.
  set (h := (nat_of_ascii b / 16)%nat) in *. set (m := (nat_of_ascii b `mod` 16)%nat) in *.
  clearbody h m. rewrite /= H1 /= H2 /=. f_equal. lia.
Qed.

Lemma hex_number_bytes l acc :
  Forall byte_range l →
  hex_number acc (to_bytes (hex_string l)) = Some (foldl (λ v b, v * 256 + b) acc l).
Proof.
  rewrite to_bytes_hex_string. intros Hl. revert acc.
  induction Hl as [|b l Hb Hl IH]; intros acc; [done|].
  rewrite fmap_cons hex_encode_cons hex_value_byte IH byte_ascii; done.
Qed.

Lemma be_bytes_pad n z : 0 ≤ z < 256 ^ Z.of_nat n → be_bytes (S n) z = 0 :: be_bytes n z.
Proof.
  revert z. induction n as [|n IH]; intros z Hz.
  - change (256 ^ Z.of_nat 0) with 1 in Hz. by assert (z = 0) as -> by lia.
  - rewrite Nat2Z.inj_succ Z.pow_succ_r in Hz; [|lia].
    change (be_bytes (S (S n)) z) with (be_bytes (S n) (z / 256) ++ [z mod 256]).
    rewrite IH; [done|]. split; [apply Z.div_pos; lia|apply Z.div_lt_upper_bound; lia].
Qed.

Lemma parse_hex_word l amt :
  Forall byte_range (0 :: l) → be_value (0 :: l) = amt → 0 ≤ amt ≤ u128_max →
  parse_hex_u128 (word_text (0 :: l)) = Ok amt.
Proof.
  intros Hr Hv Ha. rewrite /parse_hex_u128 strip_word. apply ok_or_ok.
  pose proof (hex_number_bytes _ 0 Hr) as Hn. rewrite /be_value in Hv. rewrite Hv in Hn.
  assert (to_bytes (hex_string (0 :: l)) = "0"%char :: "0"%char :: to_bytes (hex_string l)) as He
    by by rewrite !to_bytes_hex_string.
  rewrite He in Hn |- *. rewrite /from_str_radix16. cbn [Ascii.eqb Bool.eqb].
  rewrite Hn /= /uint_checked. by destruct (Z.leb_spec 0 amt), (Z.leb_spec amt u128_max); try lia.
Qed.

Lemma parse_amount_word amt : 0 ≤ amt ≤ u128_max → parse_hex_u128 (word_text (be_bytes 32 amt)) = Ok amt.
Proof.
  intros Ha. assert (u128_max < 256 ^ Z.of_nat 31) by reflexivity.
  assert (256 ^ Z.of_nat 31 < 256 ^ Z.of_nat 32) by reflexivity.
  assert (be_bytes 32 amt = 0 :: be_bytes 31 amt) as He by (apply be_bytes_pad; lia).
  rewrite He. apply parse_hex_word; [rewrite -He; apply be_bytes_range| |done].
  rewrite -He. apply be_bytes_value. lia.
Qed.

Lemma hexdigit_graphic c : is_ascii_hexdigit c = true → is_graphic c = true.
Proof.
  rewrite /is_ascii_hexdigit /is_ascii_digit /is_graphic !orb_true_iff !andb_true_iff !Nat.leb_le. lia.
Qed.

(** Addresses and hashes are visible text. *)
Lemma evm_text_graphic s :
  String.prefix "0x" s = true → forallb is_ascii_hexdigit (drop 2 (to_bytes s)) = true →
  trimmed_nonempty (Some s) = Some s.
Proof.
  intros Hp Hd. apply trimmed_graphic; [|by intros ->].
  apply String.prefix_correct in Hp. destruct s as [|a [|b s]]; [done..|].
  assert (String a (String b "") = "0x") as [= -> ->] by (rewrite -Hp; by destruct s).
  rewrite /graphic /=. simpl in Hd. rewrite forallb_forall in Hd. apply forallb_forall.
  intros c Hc. by apply hexdigit_graphic, Hd.
Qed.

Lemma address_trimmed a : is_evm_address a = true → trimmed_nonempty (Some a) = Some a.
Proof. intros [[_ Hp]%andb_true_iff Hd]%andb_true_iff. by apply evm_text_graphic. Qed.

Lemma hash_trimmed h : is_evm_transaction_hash h = true → trimmed_nonempty (Some h) = Some h.
Proof. intros [[_ Hp]%andb_true_iff Hd]%andb_true_iff. by apply evm_text_graphic. Qed.

Lemma eq_ignore_case_refl s : eq_ignore_ascii_case s s = true.
Proof. apply String.eqb_refl. Qed.

Lemma amount_trimmed amt : 0 ≤ amt → trimmed_nonempty (Some (show_Z amt)) = Some (show_Z amt).
Proof.
  intros Ha. destruct (show_Z_decimal amt Ha) as (Hd & _ & Hne). apply trimmed_graphic.
  - rewrite /all_digits forallb_forall in Hd. apply forallb_forall. intros c Hc. by apply digit_graphic, Hd.
  - intros He. by rewrite He in Hne.
Qed.

Lemma chain_network_canonical p config n :
  resolve_chain_config p = Ok config → network p = Some n →
  String.eqb (canonical_x402_network (cc_network config)) (canonical_x402_network n) = true
  ∧ trimmed_nonempty (Some (cc_network config)) = Some (cc_network config).
Proof.
  intros Hc Hn. rewrite /resolve_chain_config Hn /= /canonical_network in Hc.
  rewrite {2}/canonical_x402_network /one_of. set (m := to_ascii_lowercase (trim n)) in *. clearbody m.
  destruct (existsb (String.eqb m) ["base"; "base-mainnet"; "eip155:8453"; "8453"]) eqn:E1.
  { apply result_bind_ok in Hc as (x & Hx & Hc). apply Ok_inj in Hx as <-.
    apply result_bind_ok in Hc as (asset & _ & Hc). apply result_bind_ok in Hc as (u & _ & Hc).
    by apply Ok_inj in Hc as <-. }
  destruct (existsb (String.eqb m) ["base-sepolia"; "base_sepolia"; "eip155:84532"; "84532"]) eqn:E2.
  { apply result_bind_ok in Hc as (x & Hx & Hc). apply Ok_inj in Hx as <-.
    apply result_bind_ok in Hc as (asset & _ & Hc). apply result_bind_ok in Hc as (u & _ & Hc).
    by apply Ok_inj in Hc as <-. }
  exfalso. destruct (String.eqb m "base") eqn:E3.
  { apply String.eqb_eq in E3 as ->. done. }
  destruct (String.eqb m "base-sepolia") eqn:E4; [|done]. by apply String.eqb_eq in E4 as ->.
Qed.

#[local] Arguments trimmed_nonempty : simpl never.
#[local] Arguments show_Z : simpl never.

(** The receipt of a sent transfer agrees with its payment. *)
Lemma sent_receipt_valid p config sender recipient amt hash :
  eq_ignore_ascii_case (rail p) "x402" = true → resolve_chain_config p = Ok config →
  sender_address p = Some sender → is_evm_address sender = true →
  recipient_address p = Some recipient → is_evm_address recipient = true →
  parse_u128 (amount p) = Some amt → is_evm_transaction_hash hash = true →
  validate_x402_settlement_receipt p (sent_receipt config sender recipient amt hash) = Ok tt.
Proof.
  intros Hrail Hc Hs Hse Hr Hre Ha Hh. pose proof (parse_uint_range _ _ _ Ha) as Hrange.
  assert (∃ n, network p = Some n) as [n Hn].
  { apply result_bind_ok in Hc as (w & Hw%ok_or_ok & _). destruct (network p); [eauto|done]. }
  destruct (chain_network_canonical p config n Hc Hn) as [Hnet Hnt].
  rewrite /validate_x402_settlement_receipt Hrail Hs Hr Hn.
  rewrite /required_receipt_string /receipt_string /sent_receipt. simpl.
  rewrite (address_trimmed sender Hse) /= eq_ignore_case_refl /=.
  rewrite (hash_trimmed hash Hh) /= Hh /=. rewrite amount_trimmed /=; [|lia].
  rewrite /amounts_match (parse_u128_show amt Hrange) Ha Z.eqb_refl /= Hnt /= Hnet /=.
  by rewrite (address_trimmed recipient Hre) /= eq_ignore_case_refl.
Qed.

Lemma any_log_foreign token from to amt before log after :
  Forall (foreign token) before → log_matches token from to amt log = Some (Ok true) →
  any_log (log_matches token from to amt) (before ++ log :: after) = Some (Ok true).
Proof.
  intros Hb Hl. induction Hb as [|l before Hf Hb IH]; [by rewrite /= Hl|].
  assert (log_matches token from to amt l = Some (Ok false)) as Hno by by rewrite /log_matches Hf.
  by rewrite /= Hno.
Qed.

Lemma transfer_event_matches token from to amt :
  length from = 20%nat → Forall byte_range from → length to = 20%nat → Forall byte_range to →
  0 ≤ amt ≤ u128_max → log_matches token from to amt (transfer_event token from to amt) = Some (Ok true).
Proof.
  intros Hf Hfb Ht Htb Ha. pose proof (topic_of_address from Hf Hfb) as Hfrom.
  pose proof (topic_of_address to Ht Htb) as Hto. pose proof (parse_amount_word amt Ha) as Hamt.
  rewrite /transfer_event. set (w1 := word_text (padded from)) in *.
  set (w2 := word_text (padded to)) in *. set (w3 := word_text (be_bytes 32 amt)) in *.
  clearbody w1 w2 w3. rewrite /log_matches /get_str.
  change (json_get "address" _) with (Some (JString token)).
  change (json_get "topics" _) with (Some (JArray [JString ERC20_TRANSFER_TOPIC; JString w1; JString w2])).
  change (json_get "data" _) with (Some (JString w3)). simpl is_some_and.
  rewrite eq_ignore_case_refl /topic_is. simpl is_some_and. rewrite eq_ignore_case_refl.
  rewrite Hfrom Hto /= Hamt /= Z.eqb_refl. done.
Qed.

(** The transaction named by a hash has been mined as the payment's transfer. *)
Definition mined (rpc : rpc_node) (p : PaymentTransaction) (hash : string) : Prop :=
  ∃ config sender recipient amt from to before after,
    resolve_chain_config p = Ok config ∧
    sender_address p = Some sender ∧ decode_evm_address sender = Ok from ∧
    recipient_address p = Some recipient ∧ decode_evm_address recipient = Ok to ∧
    parse_u128 (amount p) = Some amt ∧ Forall (foreign (cc_asset config)) before ∧
    rpc_value rpc "eth_getTransactionReceipt" (JArray [JString hash])
      = Ok (mined_receipt (cc_asset config) hash from to amt before after).

Lemma mined_verifies rpc config e from to before after :
  rpc_hex_u64 rpc "eth_chainId" (JArray []) = Ok (cc_chain_id config) →
  decode_evm_address (ex_from e) = Ok from → decode_evm_address (ex_to e) = Ok to →
  0 ≤ ex_amount e ≤ u128_max → Forall (foreign (ex_token e)) before →
  rpc_value rpc "eth_getTransactionReceipt" (JArray [JString (ex_tx_hash e)])
    = Ok (mined_receipt (ex_token e) (ex_tx_hash e) from to (ex_amount e) before after) →
  verify_erc20_transfer_receipt rpc config e = Some (Ok tt).
Proof.
  intros Hid Hf Ht Ha Hb Hrec. rewrite /verify_erc20_transfer_receipt /check_chain Hid Hrec.
  destruct (decode_evm_address_range _ _ Hf) as [Hfl Hfb].
  destruct (decode_evm_address_range _ _ Ht) as [Htl Htb].
  pose proof (any_log_foreign _ _ _ _ _ _ after Hb
    (transfer_event_matches (ex_token e) from to (ex_amount e) Hfl Hfb Htl Htb Ha)) as Hany.
  rewrite /mined_receipt. set (logs := before ++ _) in *. clearbody logs.
  cbn -[eq_ignore_ascii_case receipt_has_matching_erc20_transfer]. rewrite Z.eqb_refl /=.
  rewrite !eq_ignore_case_refl /= /receipt_has_matching_erc20_transfer. simpl.
  by rewrite Hf /= Ht /= Hany.
Qed.


(** ** A payment on Base Sepolia *)

Module ChainScenario.
#[global] Instance evm : Evm.
Proof.
  refine {| keccak256 := take 32; sign_recoverable := λ _ _, Ok (replicate 32 7, replicate 32 9, 1) |}.
  intros _ _ r s v [= <- <- _]. repeat split; apply (Forall_replicate byte_range 32); rewrite /byte_range; lia.
Defined.

Definition alice : string := "0x1111111111111111111111111111111111111111".
Definition bob : string := "0x22222222222222222222222222222222222222aB".
Definition hash : string := "0x89c91c789e57059b17285e7ba1716a1f5ff4c5dace0ea5a5135f26158d0421b9".

Definition payment (id : string) : PaymentTransaction :=
  mkPaymentTransaction id "did:a" "did:b" "a" "b" "node" "+2500000" "usdc" "X402" Web3
    (Some " Base_Sepolia ") (Some alice) (Some bob) None None None None Authorized None None None None
    0 None None None.

Definition alice_bytes : list Z := replicate 20 0x11.
Definition bob_bytes : list Z := replicate 19 0x22 ++ [0xab].
Definition chain_receipt : json :=
  mined_receipt BASE_SEPOLIA_USDC hash alice_bytes bob_bytes 2500000 [JNull] [].

Definition rpc : rpc_node := λ method _,
  let answer v := Ok (200, JObject [("result", v)]) in
  if String.eqb method "eth_chainId" then answer (JString "0x14a34")
  else if String.eqb method "eth_getTransactionCount" then answer (JString "0x0")
  else if String.eqb method "eth_gasPrice" then answer (JString "0x3b9aca00")
  else if String.eqb method "eth_estimateGas" then answer (JString "0x186a0")
  else if String.eqb method "eth_sendRawTransaction" then answer (JString hash)
  else answer chain_receipt.

Definition accounts : list PaymentAccount :=
  [mkPaymentAccount true None (Some alice) "x402" (Some "base-sepolia");
   mkPaymentAccount true (Some "key-1") (Some alice) "x402" (Some "eip155:84532")].
Definition export (handle : string) : result (list Z) :=
  if String.eqb handle "key-1" then Ok (replicate 32 5) else Err "unknown key".
Definition wallet : wallet_keys := Ok (accounts, export).

Definition config : ChainConfig :=
  mkChainConfig 84532 "eip155:84532" BASE_SEPOLIA_RPC_URL BASE_SEPOLIA_USDC.
Definition receipt : json := sent_receipt config alice bob 2500000 hash.

Lemma submitted : submit_x402_erc20_payment rpc wallet (payment "p1") = Ok (Some receipt).
Proof. vm_compute. reflexivity. Qed.

(** The transaction on the wire, decoded. *)
Example wire_transaction :
  option_map (λ t, (tx_nonce t, tx_gas_price t, tx_gas_limit t, tx_value t, read_transfer (tx_data t), tx_v t))
    match sign_legacy_erc20_transaction 84532 0 1000000000 120000 BASE_SEPOLIA_USDC
            match erc20_transfer_calldata bob 2500000 with Ok d => d | Err _ => [] end (replicate 32 5) with
    | Ok raw => read_transaction raw
    | Err _ => None
    end
  = Some (0, 1000000000, 120000, 0, Some (bob_bytes, 2500000), 169100).
Proof. vm_compute. reflexivity. Qed.

Lemma submitted_payment_is_sent_witness :
  ∃ config sender recipient amt secret hash,
    resolve_chain_config (payment "p1") = Ok config ∧ sender_address (payment "p1") = Some sender ∧
    recipient_address (payment "p1") = Some recipient ∧ parse_u128 (amount (payment "p1")) = Some amt ∧ 0 < amt ∧
    export_payment_secret wallet (payment "p1") sender = Ok secret ∧
    receipt_string receipt ["transaction"] = trimmed_nonempty (Some hash) ∧
    transfer_sent rpc config secret recipient amt hash.
Proof. exact (submitted_payment_is_sent rpc wallet (payment "p1") receipt submitted). Defined.

Lemma is_mined : mined rpc (payment "p1") hash.
Proof.
  exists config, alice, bob, 2500000, alice_bytes, bob_bytes, [JNull], [].
  repeat split; try (vm_compute; reflexivity). repeat constructor.
Qed.


Lemma settlement_paid_on_chain_witness :
  validate_x402_settlement_receipt (payment "p1") receipt = Ok tt ∧ paid_on_chain rpc (payment "p1") receipt.
Proof.
  exact (settlement_paid_on_chain rpc (payment "p1") receipt ltac:(vm_compute; reflexivity)
           ltac:(vm_compute; reflexivity)).
Defined.

(** The transaction is not bound to the payment: the one transfer also settles a
    second payment with the same terms. *)
Example transfer_settles_twice :
  verify_x402_erc20_settlement_receipt rpc (payment "p2") receipt = Some (Ok tt).
Proof. vm_compute. reflexivity. Qed.

(** The payment's metadata chooses the token that counts. *)
Example metadata_chooses_token (token : string) :
  is_evm_address token = true → trimmed_nonempty (Some token) = Some token →
  let p := mkPaymentTransaction "p3" "did:a" "did:b" "a" "b" "node" "2500000" "USDC" "x402" Web3
    (Some "base") (Some alice) (Some bob) None None None
    (Some (JObject [("x402_accept", JObject [("asset", JString token)])])) Authorized None None None None
    0 None None None in
  resolve_chain_config p = Ok (mkChainConfig 8453 "eip155:8453" BASE_RPC_URL token).
Proof. intros He Ht p. rewrite /resolve_chain_config /metadata_asset /=. by rewrite Ht /= /required_payment_address /= He. Qed.

(** A topic of 64 bytes with a character across the 24th makes the verification panic. *)
Example odd_topic_panics :
  indexed_address_topic_matches
    (JString (of_bytes (replicate 23 "0"%char ++ [ascii_of_nat 195; ascii_of_nat 169] ++ replicate 39 "0"%char)))
    bob_bytes = None.
Proof. vm_compute. reflexivity. Qed.
End ChainScenario.
