(* ===== verification/Jsonl.v ===== *)
(** * Files of one JSON record per line

    The event log and the audit trail are text files to which a record is
    appended as one line of compact JSON, and which are read by decoding every
    line that is not blank. The encoder and decoder of a record type are
    parameters of the section. *)

From S2P Require Import Prelude Collections Text.
#[local] Open Scope Z_scope.

Section jsonl.
Context {R : Type} (row_to_string : R → string) (row_from_str : string → option R).

(** [serde_json::from_str(line).context(err)]. *)
Definition parse_line (err line : string) : result R := ok_or err (row_from_str line).

(** The rows of a file, each line that is not blank decoded. *)
Definition read_rows (err raw : string) : result (list R) :=
  if is_blank raw then Ok []
  else collect (parse_line err) (List.filter (λ l, negb (is_blank l)) (lines raw)).

(** The text after a record is appended. *)
Definition append_row (r : R) (raw : string) : string :=
  raw +:+ row_to_string r +:+ String newline "".

(** The text holds the rows, oldest first. *)
Definition rows_repr (raw : string) (rows : list R) : Prop :=
  to_bytes raw = concat ((λ r, to_bytes (row_to_string r) ++ [newline]) <$> rows).

Lemma rows_repr_snoc raw rows r :
  rows_repr raw rows → rows_repr (append_row r raw) (rows ++ [r]).
Proof using Type.
  rewrite /rows_repr /append_row => Hr.
  by rewrite !to_bytes_app Hr fmap_app concat_app /= app_nil_r.
Qed.

(** Compact JSON of an object is one line of text with an opening brace, and
    decoding inverts encoding. *)
Hypothesis row_roundtrip : ∀ r, row_from_str (row_to_string r) = Some r.
Hypothesis row_one_line : ∀ r,
  newline ∉ to_bytes (row_to_string r) ∧ carriage_return ∉ to_bytes (row_to_string r).
Hypothesis row_brace : ∀ r, "{"%char ∈ to_bytes (row_to_string r).

Lemma brace_not_ws p : p ∈ ws_encodings → "{"%char ∉ p.
Proof using Type.
  intros Hp Hin.
  assert (forallb (forallb (λ a, negb (Ascii.eqb a "{"%char))) ws_encodings = true) as Hall
    by reflexivity.
  rewrite forallb_forall in Hall. specialize (Hall p ltac:(by apply list_elem_of_In)).
  rewrite forallb_forall in Hall. specialize (Hall "{"%char ltac:(by apply list_elem_of_In)).
  done.
Qed.

Lemma brace_not_blank s : "{"%char ∈ to_bytes s → is_blank s = false.
Proof using Type. apply trim_keeps, brace_not_ws. Qed.

Lemma rows_lines raw rows : rows_repr raw rows → lines raw = row_to_string <$> rows.
Proof using row_one_line.
  rewrite /rows_repr /lines => ->. induction rows as [|r rows IH]; [done|]. csimpl.
  destruct (row_one_line r) as [Hn Hc].
  rewrite -app_assoc lines_go_app fmap_app IH lines_go_line // app_nil_l strip_cr_id //=.
  by rewrite String.string_of_list_ascii_of_string.
Qed.

Lemma rows_blank raw rows : rows_repr raw rows → is_blank raw = bool_decide (rows = []).
Proof using row_brace.
  rewrite /rows_repr => Hr. destruct rows as [|r rows].
  - rewrite bool_decide_eq_true_2 //. by destruct raw.
  - rewrite bool_decide_eq_false_2 //. apply brace_not_blank. rewrite Hr /=.
    apply elem_of_app. left. apply elem_of_app. left. apply row_brace.
Qed.

Lemma rows_nonblank rows :
  List.filter (λ l, negb (is_blank l)) (row_to_string <$> rows) = row_to_string <$> rows.
Proof using row_brace.
  induction rows as [|r rows IH]; [done|]. csimpl.
  by rewrite (brace_not_blank _ (row_brace r)) /= IH.
Qed.

(** Reading gives back the rows. *)
Lemma rows_read err raw rows : rows_repr raw rows → read_rows err raw = Ok rows.
Proof using row_roundtrip row_one_line row_brace.
  intros Hr. rewrite /read_rows (rows_blank _ _ Hr). case_bool_decide as Hn; [by subst|].
  rewrite (rows_lines _ _ Hr) rows_nonblank. clear Hr Hn.
  induction rows as [|r rows IH]; [done|]. csimpl.
  assert (parse_line err (row_to_string r) = Ok r) as -> by by rewrite /parse_line row_roundtrip.
  by rewrite /= IH.
Qed.
End jsonl.
