(* ===== verification/Storage.v ===== *)
(** * Presence leases, the audit trail and the plugin registry

    [storage/online_proof.rs]: leases, heartbeats and spot checks;
    [storage/audit.rs]: the trail of control operations, which never names the
    control token; [brain/plugin_registry.rs]: the plugins by name and
    version. *)

From S2P Require Import Prelude Collections Text Jsonl Json Signing Trust.
#[local] Open Scope Z_scope.

(** ** Presence *)

Module OnlineProof.

Record Lease := mkLease {
  lease_id : string;
  agent_did : string;
  lease_expiry : Z;
  heartbeat_interval_sec : Z;
  last_heartbeat : Z;
  missed_heartbeats : Z;
}.
#[export] Instance Lease_eta : Eta Lease := λ l,
  mkLease (lease_id l) (agent_did l) (lease_expiry l) (heartbeat_interval_sec l)
    (last_heartbeat l) (missed_heartbeats l).

Inductive SpotCheckStatus : Type := SpotOk | MissingLease | LeaseExpired | HeartbeatTimeout.

#[export] Instance SpotCheckStatus_eq_dec : EqDecision SpotCheckStatus.
Proof. solve_decision. Defined.

Record OnlineProofManager := mkOnlineProofManager { leases : gmap string Lease }.
#[export] Instance OnlineProofManager_eta : Eta OnlineProofManager := λ m,
  mkOnlineProofManager (leases m).
Definition OnlineProofManager_default : OnlineProofManager := mkOnlineProofManager ∅.

Definition create_lease (now : Z) (uuid did : string) (ttl_sec interval : Z)
    (m : OnlineProofManager) : Lease * OnlineProofManager :=
  let lease := mkLease uuid did (i64_add now ttl_sec) interval now 0 in
  (lease, m <| leases ::= <[did := lease]> |>).

Definition heartbeat (now : Z) (did : string) (m : OnlineProofManager)
    : option Lease * OnlineProofManager :=
  match leases m !! did with
  | None => (None, m)
  | Some lease =>
      let lease := lease <| last_heartbeat := now |> <| missed_heartbeats := 0 |> in
      (Some lease, m <| leases ::= <[did := lease]> |>)
  end.

Definition spot_check (now : Z) (did : string) (skew : Z) (m : OnlineProofManager)
    : SpotCheckStatus * OnlineProofManager :=
  match leases m !! did with
  | None => (MissingLease, m)
  | Some lease =>
      if lease_expiry lease <? now then (LeaseExpired, m)
      else
        let expected :=
          i64_add (i64_add (last_heartbeat lease) (heartbeat_interval_sec lease)) skew in
        if expected <? now
        then (HeartbeatTimeout,
              m <| leases ::= <[did := lease <| missed_heartbeats ::= λ n, u32_saturating_add n 1 |>]> |>)
        else (SpotOk, m)
  end.

Definition get_proof (did : string) (m : OnlineProofManager) : option json :=
  lease ← leases m !! did;
  Some (JObject [("lease_id", JString (lease_id lease));
                 ("lease_expiry", json_of_Z (lease_expiry lease));
                 ("heartbeat_interval_sec", json_of_Z (heartbeat_interval_sec lease));
                 ("last_heartbeat", json_of_Z (last_heartbeat lease))]).

(** *** Histories *)

Inductive presence_op : Type :=
  | Create (now : Z) (uuid did : string) (ttl interval : Z)
  | Beat (now : Z) (did : string)
  | Spot (now : Z) (did : string) (skew : Z).

Definition op_did (op : presence_op) : string :=
  match op with Create _ _ d _ _ | Beat _ d | Spot _ d _ => d end.

Definition presence_step (m : OnlineProofManager) (op : presence_op) : OnlineProofManager :=
  match op with
  | Create now uuid did ttl interval => (create_lease now uuid did ttl interval m).2
  | Beat now did => (heartbeat now did m).2
  | Spot now did skew => (spot_check now did skew m).2
  end.
Definition presence_run : list presence_op → OnlineProofManager :=
  foldl presence_step OnlineProofManager_default.

(** The promise of a lease, independent of the manager: since when the agent was
    last heard of, how long it may stay silent, until when, and how often it was
    found silent since. *)
Record presence := mkPresence {
  p_until : Z;
  p_interval : Z;
  p_heard : Z;
  p_timeouts : nat;
}.

(** What one step says about an agent. *)
Definition presence_spec (did : string) (o : option presence) (op : presence_op)
    : option presence :=
  if negb (String.eqb (op_did op) did) then o else
  match op, o with
  | Create now _ _ ttl interval, _ => Some (mkPresence (now + ttl) interval now 0)
  | Beat now _, Some p => Some (mkPresence (p_until p) (p_interval p) now 0)
  | Spot now _ skew, Some p =>
      if (now <=? p_until p) && (p_heard p + p_interval p + skew <? now)
      then Some (mkPresence (p_until p) (p_interval p) (p_heard p) (S (p_timeouts p)))
      else Some p
  | _, None => None
  end.

Definition lease_repr (o : option Lease) (p : option presence) : Prop :=
  match o, p with
  | None, None => True
  | Some l, Some p =>
      lease_expiry l = p_until p ∧ heartbeat_interval_sec l = p_interval p
      ∧ last_heartbeat l = p_heard p ∧ missed_heartbeats l = Z.min u32_max (Z.of_nat (p_timeouts p))
  | _, _ => False
  end.

(** Times and intervals are seconds far from the ends of the 64-bit range. *)
Definition small (z : Z) : Prop := - 2 ^ 60 ≤ z ≤ 2 ^ 60.
Definition op_small (op : presence_op) : Prop :=
  match op with
  | Create now _ _ ttl interval => small now ∧ small ttl ∧ small interval
  | Beat now _ => small now
  | Spot now _ skew => small now ∧ small skew
  end.
Definition presence_small (p : presence) : Prop := small (p_heard p) ∧ small (p_interval p).

Lemma small_sum a b c : small a → small b → small c →
  i64_add a b = a + b ∧ i64_add (i64_add a b) c = a + b + c.
Proof.
  rewrite /small => Ha Hb Hc. assert (i64_add a b = a + b) as ->.
  { apply wrap_i64_id. rewrite /is_i64 /i64_min /i64_max. lia. }
  split; [done|]. apply wrap_i64_id. rewrite /is_i64 /i64_min /i64_max. lia.
Qed.

Lemma presence_spec_small did o op :
  op_small op → (∀ p, o = Some p → presence_small p) →
  ∀ p, presence_spec did o op = Some p → presence_small p.
Proof.
  rewrite /presence_spec. case_match; [by eauto|]. intros Hop Ho p.
  destruct op as [now uuid d ttl iv|now d|now d skew]; simpl in Hop.
  - intros [= <-]. split; simpl; tauto.
  - destruct o as [q|]; [|done]. destruct (Ho q eq_refl). intros [= <-]. by split.
  - destruct o as [q|]; [|done]. destruct (Ho q eq_refl). case_match; intros [= <-]; by split.
Qed.

Lemma presence_step_other did m op :
  op_did op ≠ did → leases (presence_step m op) !! did = leases m !! did.
Proof.
  intros Hne. destruct op as [now uuid d ttl iv|now d|now d skew]; simpl in *.
  - by rewrite lookup_insert_ne.
  - rewrite /heartbeat. case_match; [|done]. by rewrite /set_field /= lookup_insert_ne.
  - rewrite /spot_check. repeat case_match; try done. by rewrite /set_field /= lookup_insert_ne.
Qed.

Lemma presence_step_refines did m op p :
  op_small op → (∀ q, p = Some q → presence_small q) → lease_repr (leases m !! did) p →
  lease_repr (leases (presence_step m op) !! did) (presence_spec did p op).
Proof.
  intros Hop Hp Hr. rewrite /presence_spec.
  destruct (String.eqb_spec (op_did op) did) as [Heq|Hne]; simpl;
    [|by rewrite presence_step_other].
  destruct op as [now uuid d ttl iv|now d|now d skew]; simpl in *; subst d.
  - rewrite lookup_insert_eq /=. destruct Hop as (H1 & H2 & H3).
    split_and!; try done. by apply (small_sum now ttl iv).
  - rewrite /heartbeat. destruct (leases m !! did) as [l|] eqn:E, p as [q|]; try done.
    + rewrite /set_field /= lookup_insert_eq. destruct Hr as (? & ? & ? & ?). by split_and!.
    + by rewrite E.
  - rewrite /spot_check. destruct (leases m !! did) as [l|] eqn:E, p as [q|]; try done;
      [|by rewrite E].
    destruct Hr as (He & Hi & Hh & Hm). destruct (Hp q eq_refl) as [Hs1 Hs2].
    rewrite He Hi Hh (proj2 (small_sum _ _ _ Hs1 Hs2 (proj2 Hop))).
    destruct (Z.ltb_spec (p_until q) now); [rewrite (proj2 (Z.leb_gt _ _)) //= E /=; tauto|].
    rewrite (proj2 (Z.leb_le _ _)) //=. case_match; [|rewrite E /=; tauto].
    rewrite /set_field /= lookup_insert_eq /=. split_and!; try done.
    rewrite Hm /u32_saturating_add /u32_max. lia.
Qed.

Lemma presence_run_snoc ops op : presence_run (ops ++ [op]) = presence_step (presence_run ops) op.
Proof. by rewrite /presence_run foldl_app. Qed.

Lemma presence_run_repr did ops :
  Forall op_small ops →
  lease_repr (leases (presence_run ops) !! did) (foldl (presence_spec did) None ops)
  ∧ ∀ p, foldl (presence_spec did) None ops = Some p → presence_small p.
Proof.
  induction ops as [|op ops IH] using rev_ind; intros Hs.
  { rewrite /presence_run /= lookup_empty. done. }
  apply Forall_app in Hs as [Hs [Hop _]%Forall_cons]. destruct (IH Hs) as [IHr IHs].
  rewrite presence_run_snoc foldl_app /=.
  split; [by apply presence_step_refines|]. by apply presence_spec_small.
Qed.

(** Over any history of leases, heartbeats and checks of any agents, with
    times far from the ends of the 64-bit range, what the manager knows of an
    agent is what the history says of it: until when it may be checked, when it
    was last heard of, and how often it was found silent since. A check answers
    accordingly: no lease, lease over, silent too long, or present. *)
Theorem presence_refines did ops now skew :
  Forall op_small ops → small now → small skew →
  lease_repr (leases (presence_run ops) !! did) (foldl (presence_spec did) None ops)
  ∧ (spot_check now did skew (presence_run ops)).1 =
    match foldl (presence_spec did) None ops with
    | None => MissingLease
    | Some p =>
        if p_until p <? now then LeaseExpired
        else if p_heard p + p_interval p + skew <? now then HeartbeatTimeout else SpotOk
    end.
Proof.
  intros Hops Hnow Hskew. destruct (presence_run_repr did ops Hops) as [Hr Hs].
  split; [done|]. rewrite /spot_check.
  destruct (leases (presence_run ops) !! did) as [l|], (foldl _ _ _) as [p|]; try done.
  destruct Hr as (-> & -> & -> & _). destruct (Hs p eq_refl) as [Hs1 Hs2].
  rewrite (proj2 (small_sum _ _ _ Hs1 Hs2 Hskew)). by repeat case_match.
Qed.

Lemma presence_refines_witness :
  (spot_check 120 "agent" 5 (presence_run [Create 100 "l" "agent" 60 5; Beat 102 "agent"])).1
  = HeartbeatTimeout.
Proof.
  rewrite (proj2 (presence_refines "agent" [Create 100 "l" "agent" 60 5; Beat 102 "agent"] 120 5
    ltac:(repeat constructor; rewrite /small /=; lia) ltac:(rewrite /small; lia)
    ltac:(rewrite /small; lia))).
  reflexivity.
Defined.

(** A heartbeat is accepted after the lease is over, and does not renew it. *)
Example late_heartbeat :
  let m := presence_run [Create 100 "l" "agent" 60 5] in
  is_Some (heartbeat 200 "agent" m).1
  ∧ (spot_check 200 "agent" 0 (heartbeat 200 "agent" m).2).1 = LeaseExpired.
Proof. vm_compute. by split; [eexists|]. Qed.

End OnlineProof.

(** ** The audit trail *)

Module Audit.

Record AuditEntry := mkAuditEntry {
  id : string;
  timestamp : Z;
  category : string;
  action : string;
  status : string;
  actor : option string;
  subject : option string;
  capability : option string;
  reason : option string;
  duration_ms : option Z;
  details : option json;
}.
#[export] Instance AuditEntry_eta : Eta AuditEntry := λ e,
  mkAuditEntry (id e) (timestamp e) (category e) (action e) (status e) (actor e) (subject e)
    (capability e) (reason e) (duration_ms e) (details e).

(** The log keeps the digest of the control token; comparing digests is
    comparing their hex forms. *)
Record AuditLog := mkAuditLog {
  control_token_digest : string;
  log_control_actor : string;
}.

(** The encoder and decoder serde derives for an entry: one JSON object per
    line, which decodes to what was encoded. *)
Class AuditCodec := {
  entry_to_string : AuditEntry → string;
  entry_from_str : string → option AuditEntry;
}.
Class AuditCodecLaws `{AuditCodec} : Prop := {
  entry_roundtrip e : entry_from_str (entry_to_string e) = Some e;
  entry_one_line e :
    newline ∉ to_bytes (entry_to_string e) ∧ carriage_return ∉ to_bytes (entry_to_string e);
  entry_brace e : "{"%char ∈ to_bytes (entry_to_string e);
}.

Section audit.
Context `{Crypto, AuditCodec}.

Definition control_actor (control_token : string) : string :=
  "control:" +:+ of_bytes (take 16 (to_bytes (sha256_hex control_token))).

Definition new_log (control_token : string) : AuditLog :=
  mkAuditLog (sha256_hex control_token) (control_actor control_token).

(** The entry [append] writes. *)
Definition completed_entry (log : AuditLog) (now : Z) (uuid : string) (entry : AuditEntry)
    : AuditEntry :=
  let entry := entry <| id ::= λ i, if String.eqb i "" then uuid else i |> in
  let entry := entry <| timestamp ::= λ t, if t =? 0 then now else t |> in
  if is_some_and (λ a, String.eqb (sha256_hex a) (control_token_digest log)) (actor entry)
  then entry <| actor := Some (log_control_actor log) |> else entry.

Definition append (log : AuditLog) (now : Z) (uuid : string) (entry : AuditEntry)
    : stm string unit :=
  modify (append_row entry_to_string (completed_entry log now uuid entry)).

Definition list_recent (limit : nat) (raw : string) : result (list AuditEntry) :=
  entries ← read_rows entry_from_str "parse audit row" raw;
  Ok (take limit (sort_by_key_rev timestamp entries)).

(** The file after a sequence of appends, and the entries they write. *)
Definition audit_run (log : AuditLog) (ops : list (Z * string * AuditEntry)) : string :=
  foldl (λ raw '(now, uuid, e), exec (append log now uuid e) raw) "" ops.
Definition written (log : AuditLog) (ops : list (Z * string * AuditEntry)) : list AuditEntry :=
  (λ '(now, uuid, e), completed_entry log now uuid e) <$> ops.

Lemma audit_run_repr log ops : rows_repr entry_to_string (audit_run log ops) (written log ops).
Proof.
  rewrite /audit_run /written. induction ops as [|[[now uuid] e] ops IH] using rev_ind; [done|].
  rewrite foldl_app fmap_app. by apply rows_repr_snoc.
Qed.

Lemma completed_actor token now uuid e :
  let e' := completed_entry (new_log token) now uuid e in
  (actor e' = actor e ∧ (∀ a, actor e = Some a → sha256_hex a ≠ sha256_hex token)
   ∨ actor e' = Some (control_actor token)
     ∧ ∃ a, actor e = Some a ∧ sha256_hex a = sha256_hex token).
Proof.
  rewrite /completed_entry /new_log /set_field /=. destruct (actor e) as [a|] eqn:Ea; simpl.
  - destruct (String.eqb_spec (sha256_hex a) (sha256_hex token)); simpl; [right; eauto|left].
    split; [done|]. by intros ? [= <-].
  - left. done.
Qed.

(** The trail names the control token only by its fingerprint: every entry
    read back was written by an append, with the fingerprint in place of an
    actor that has the token's digest and any other actor kept, and the token
    itself is the actor of no entry unless it is its own fingerprint. Reading
    returns as many entries as asked for, newest first, and leaves out only
    older ones. *)
Theorem audit_trail_spec `{!AuditCodecLaws} token ops limit :
  ∃ entries rest, list_recent limit (audit_run (new_log token) ops) = Ok entries
  ∧ entries ++ rest ≡ₚ written (new_log token) ops
  ∧ StronglySorted (λ a b, timestamp b ≤ timestamp a) (entries ++ rest)
  ∧ length entries = Nat.min limit (length ops)
  ∧ ∀ e, e ∈ entries →
      (∃ now uuid e0, (now, uuid, e0) ∈ ops ∧ e = completed_entry (new_log token) now uuid e0
       ∧ (actor e = actor e0 ∨ actor e = Some (control_actor token)))
      ∧ (token = control_actor token ∨ actor e ≠ Some token).
Proof.
  set (sorted := sort_by_key_rev timestamp (written (new_log token) ops)).
  exists (take limit sorted), (drop limit sorted). rewrite take_drop. split_and!.
  - rewrite /list_recent (rows_read _ _ entry_roundtrip entry_one_line entry_brace _ _ _
      (audit_run_repr _ _)) //.
  - apply sort_by_perm.
  - apply sort_by_key_rev_sorted.
  - rewrite length_take /sorted /sort_by_key_rev length_sort_by /written length_fmap. lia.
  - intros e He%elem_of_take. destruct He as (i & He & _). apply list_elem_of_lookup_2 in He.
    apply elem_of_sort_by in He. apply list_elem_of_fmap in He as ([[now uuid] e0] & -> & Hin).
    pose proof (completed_actor token now uuid e0) as Ha. simpl in Ha. split.
    + exists now, uuid, e0. split_and!; [done..|]. tauto.
    + destruct Ha as [[Ha Hne]|[Ha _]]; rewrite Ha; [right|].
      * intros Heq. by apply (Hne token).
      * destruct (decide (token = control_actor token)); [by left|right; congruence].
Qed.
End audit.

(** *** A trail *)

Module AuditScenario.

Definition entry_tuple (e : AuditEntry) :=
  (id e, timestamp e, category e, action e, status e,
   (actor e, subject e, capability e, reason e, duration_ms e, details e)).

#[export] Instance audit_codec : AuditCodec := {|
  entry_to_string e := "{" +:+ show_Z (Z.pos (encode (entry_tuple e)));
  entry_from_str s :=
    match to_bytes s with
    | _ :: ds =>
        t ← decode (Z.to_pos (dec 0 ds));
        let '(i, ts, c, a, st, (ac, su, ca, re, du, de)) := t in
        Some (mkAuditEntry i ts c a st ac su ca re du de)
    | [] => None
    end;
|}.

#[export] Instance audit_codec_laws : AuditCodecLaws.
Proof.
  split.
  - intros e. cbn [entry_to_string entry_from_str audit_codec].
    rewrite to_bytes_app. cbn [String.list_ascii_of_string app].
    destruct (show_Z_decimal (Z.pos (encode (entry_tuple e)))) as (_ & -> & _); [done|].
    cbn [Z.to_pos]. rewrite decode_encode. by destruct e.
  - intros e. destruct (show_Z_decimal (Z.pos (encode (entry_tuple e)))) as (Hd & _ & _); [done|].
    cbn [entry_to_string audit_codec]. rewrite to_bytes_app.
    split; intros [Hin|Hin]%elem_of_app;
      try (apply list_elem_of_singleton in Hin; discriminate Hin);
      (eapply forallb_forall in Hd; [|by apply list_elem_of_In]; discriminate Hd).
  - intros e. cbn [entry_to_string audit_codec]. rewrite to_bytes_app.
    apply elem_of_app. left. apply elem_of_cons. by left.
Qed.

#[local] Existing Instance Signing.Demo.crypto.
Definition entry (a : string) : AuditEntry :=
  mkAuditEntry "" 0 "control" "state.query" "ok" (Some a) None None None None None.

Example token_fingerprinted :
  actor (completed_entry (new_log "t0k3n") 5 "u" (entry "t0k3n")) ≠ Some "t0k3n"
  ∧ actor (completed_entry (new_log "t0k3n") 5 "u" (entry "did:x")) = Some "did:x".
Proof. vm_compute. done. Qed.

Lemma audit_trail_spec_witness :
  ∃ (entries rest : list AuditEntry), list_recent 1 (audit_run (new_log "t0k3n")
      [(5, "u1", entry "t0k3n"); (7, "u2", entry "did:x")]) = Ok entries
  ∧ length entries = 1%nat ∧ length rest = 1%nat.
Proof.
  destruct (audit_trail_spec "t0k3n" [(5, "u1", entry "t0k3n"); (7, "u2", entry "did:x")] 1)
    as (es & rest & Hok & Hperm & _ & Hlen & _).
  exists es, rest. split; [exact Hok|]. split; [exact Hlen|].
  apply Permutation_length in Hperm. rewrite length_app Hlen in Hperm. simpl in Hperm. lia.
Defined.
End AuditScenario.

End Audit.

(** ** The plugin registry *)

Module Plugins.
Import Trust.Capabilities.

Record PluginDescriptor := mkPluginDescriptor {
  name : string;
  version : string;
  entry : string;
  trust_level : string;
  digest : string;
}.

(** The map of the registry. *)
Definition PluginRegistry : Type := gmap string PluginDescriptor.

Section plugins.
Context `{Crypto}.

Definition trust_level_str (t : TrustLevel) : string :=
  match t with Trusted => "trusted" | Verified => "verified" | Untrusted => "untrusted" end.

Definition plugin_key (n v : string) : string := n +:+ "@" +:+ v.

Definition register (n v ent : string) (t : TrustLevel) (r : PluginRegistry)
    : PluginDescriptor * PluginRegistry :=
  let d := mkPluginDescriptor n v ent (trust_level_str t)
    (sha256_hex (n +:+ ":" +:+ v +:+ ":" +:+ ent)) in
  (d, <[plugin_key n v := d]> r).

Definition get (n v : string) (r : PluginRegistry) : option PluginDescriptor :=
  r !! plugin_key n v.

(** Names hold no at sign. *)
Definition plain_name (n : string) : Prop := "@"%char ∉ to_bytes n.

Lemma plugin_key_inj n v n' v' :
  plain_name n → plain_name n' → plugin_key n v = plugin_key n' v' → n = n' ∧ v = v'.
Proof.
  intros Hn Hn' Heq. apply (f_equal to_bytes) in Heq. rewrite /plugin_key !to_bytes_app /= in Heq.
  destruct (split_at_inj _ _ _ _ _ Hn Hn' Heq) as [H1 H2]. by apply to_bytes_inj in H1, H2.
Qed.

(** A registered plugin is found under its name and version, described as it
    was registered, and leaves every other plugin as it was, when names hold no
    at sign. *)
Theorem register_get_spec n v ent t r n' v' :
  plain_name n → plain_name n' →
  get n' v' (register n v ent t r).2 =
  if decide ((n', v') = (n, v)) then Some (register n v ent t r).1 else get n' v' r.
Proof.
  intros Hn Hn'. rewrite /get /register /=. case_decide as Hd.
  - injection Hd as -> ->. by rewrite lookup_insert_eq.
  - rewrite lookup_insert_ne //. intros Heq. apply Hd.
    destruct (plugin_key_inj _ _ _ _ Hn Hn' Heq) as [-> ->]. done.
Qed.
End plugins.

#[local] Existing Instance Signing.Demo.crypto.

Lemma register_get_spec_witness :
  get "market" "0.1.0" (register "market" "0.1.0" "m.wasm" Verified ∅).2
  = Some (register "market" "0.1.0" "m.wasm" Verified ∅).1.
Proof.
  rewrite (register_get_spec "market" "0.1.0" "m.wasm" Verified ∅ "market" "0.1.0").
  - vm_compute. reflexivity.
  - by apply (bool_decide_unpack _).
  - by apply (bool_decide_unpack _).
Defined.

(** With an at sign in a name two plugins share a slot, and the second one
    registered replaces the first. *)
Lemma plugin_keys_collide `{Crypto} :
  get "a" "1@2" (register "a@1" "2" "evil.wasm" Untrusted
    (register "a" "1@2" "good.wasm" Trusted ∅).2).2
  = Some (register "a@1" "2" "evil.wasm" Untrusted ∅).1.
Proof. rewrite /get /register /=. by rewrite lookup_insert_eq. Qed.

End Plugins.
