(* ===== verification/EventLog.v ===== *)
(** * The event log

    [storage/event_log.rs]: a hash-chained, signed, append-only log kept as one
    JSON record per line. The state is the text of the file; the exclusive file
    lock makes each append one atomic step, and the file operations themselves
    are taken to succeed. The record encoder and decoder of serde_json are the
    class [EventCodec]. *)

From S2P Require Import Prelude Collections Text Jsonl Json Signing.
#[local] Open Scope Z_scope.
#[local] Set Default Proof Using "Type*".

Record EventRecord := mkEventRecord {
  id : string;
  event_type : string;
  payload : json;
  timestamp : Z;
  agent_did : string;
  prev_hash : option string;
  signature : string;
  hash : string;
}.

Record UnsignedEventRecord := mkUnsignedEventRecord {
  u_id : string;
  u_event_type : string;
  u_payload : json;
  u_timestamp : Z;
  u_agent_did : string;
  u_prev_hash : option string;
}.

Definition to_unsigned (e : EventRecord) : UnsignedEventRecord :=
  mkUnsignedEventRecord (id e) (event_type e) (payload e) (timestamp e) (agent_did e)
    (prev_hash e).

(** The derived serialisation of the unsigned record. *)
Definition json_of_unsigned (u : UnsignedEventRecord) : json :=
  JObject [("id", JString (u_id u)); ("type", JString (u_event_type u));
           ("payload", u_payload u); ("timestamp", json_of_Z (u_timestamp u));
           ("agent_did", JString (u_agent_did u));
           ("prev_hash", json_of_option JString (u_prev_hash u))].

Class EventCodec := {
  (** [serde_json::to_string] and [from_str] of a record *)
  event_to_string : EventRecord → string;
  event_from_str : string → option EventRecord;
}.

(** What the log relies on: compact JSON of an object is one line of text with
    an opening brace, and decoding inverts encoding. *)
Class EventCodecLaws `{EventCodec} : Prop := {
  event_roundtrip e : event_from_str (event_to_string e) = Some e;
  event_one_line e :
    newline ∉ to_bytes (event_to_string e) ∧ carriage_return ∉ to_bytes (event_to_string e);
  event_brace e : "{"%char ∈ to_bytes (event_to_string e);
}.

Section log.
Context `{Crypto, EventCodec}.

(** ** Reading *)

Definition get_all (raw : string) : result (list EventRecord) :=
  read_rows event_from_str "parse event log row" raw.

Definition last_event (raw : string) : result (option EventRecord) :=
  evs ← get_all raw; Ok (last evs).

(** [lines().rfind(..)]. *)
Definition last_unlocked (raw : string) : result (option EventRecord) :=
  if is_blank raw then Ok None
  else match find_first (λ l, negb (is_blank l)) (reverse (lines raw)) with
       | Some line =>
           e ← ok_or "parse last event log row" (event_from_str line); Ok (Some e)
       | None => Ok None
       end.

Definition since (raw : string) (since_ts : Z) : result (list EventRecord) :=
  evs ← get_all raw; Ok (List.filter (λ e, since_ts <=? timestamp e) evs).

Definition replay {T} (raw : string) (init : T) (reducer : T → EventRecord → T) : result T :=
  evs ← get_all raw; Ok (foldl reducer init evs).

(** ** Hashes and signatures *)

Definition hash_record (u : UnsignedEventRecord) (sig : string) : result string :=
  b ← canonical_bytes (json_of_unsigned u); Ok (sha256_hex (b +:+ sig)).

Definition verify_event_signature (e : EventRecord) : result bool :=
  verify_payload (json_of_unsigned (to_unsigned e)) (signature e) (agent_did e).

(** The loop of [verify_chain]. *)
Fixpoint verify_from (prev : option string) (evs : list EventRecord)
    : result (bool * option string) :=
  match evs with
  | [] => Ok (true, None)
  | e :: evs' =>
      if negb (bool_decide (prev_hash e = prev)) then Ok (false, Some "prev_hash mismatch")
      else
        ok ← verify_event_signature e;
        if negb ok then Ok (false, Some "signature mismatch")
        else
          expected ← hash_record (to_unsigned e) (signature e);
          if negb (String.eqb expected (hash e)) then Ok (false, Some "hash mismatch")
          else verify_from (Some (hash e)) evs'
  end.

Definition verify_chain (raw : string) : result (bool * option string) :=
  evs ← get_all raw; verify_from None evs.

(** ** Appending *)

Definition append_raw (e : EventRecord) : stm string unit :=
  modify (append_row event_to_string e).

Definition append_signed_with_signer (clk : clock) (uuid event_ty : string) (pl : json)
    (signer : PayloadSigner) : stm string EventRecord :=
  last ← gets last_unlocked;
  last ← lift last;
  let u := {| u_id := uuid; u_event_type := event_ty; u_payload := pl;
              u_timestamp := clk 0%nat; u_agent_did := ps_agent_did signer;
              u_prev_hash := hash <$> last |} in
  sig ← lift (sign_payload_with (json_of_unsigned u) signer);
  h ← lift (hash_record u sig);
  let e := {| id := u_id u; event_type := u_event_type u; payload := u_payload u;
              timestamp := u_timestamp u; agent_did := u_agent_did u;
              prev_hash := u_prev_hash u; signature := sig; hash := h |} in
  append_raw e;; mret e.

Definition append_external (e : EventRecord) : stm string unit :=
  last ← gets last_unlocked;
  last ← lift last;
  ensure (bool_decide (hash <$> last = prev_hash e)) "event prev_hash mismatch";;
  ok ← lift (verify_event_signature e);
  ensure ok "invalid event signature";;
  expected ← lift (hash_record (to_unsigned e) (signature e));
  ensure (String.eqb expected (hash e)) "invalid event hash";;
  append_raw e.

(** ** The text represents the list of records *)

(** The abstract log: the records, oldest first. *)
Definition log_repr : string → list EventRecord → Prop := rows_repr event_to_string.

Context `{!EventCodecLaws}.

Lemma log_repr_snoc raw evs e : log_repr raw evs → log_repr (append_row event_to_string e raw) (evs ++ [e]).
Proof. apply rows_repr_snoc. Qed.

Lemma log_get_all raw evs : log_repr raw evs → get_all raw = Ok evs.
Proof. apply rows_read; [apply event_roundtrip|apply event_one_line|apply event_brace]. Qed.

Lemma log_last_unlocked raw evs : log_repr raw evs → last_unlocked raw = Ok (last evs).
Proof.
  intros Hr. rewrite /last_unlocked (rows_blank _ event_brace _ _ Hr).
  case_bool_decide as Hn; [by subst|].
  rewrite (rows_lines _ event_one_line _ _ Hr). destruct evs as [|e evs _] using rev_ind; [done|].
  rewrite fmap_app [event_to_string <$> [e]]/= reverse_snoc /= (brace_not_blank _ (event_brace e)) /=.
  by rewrite event_roundtrip last_snoc.
Qed.

(** ** The chain *)

(** One record that verifies after [prev]. *)
Definition link_ok (prev : option string) (e : EventRecord) : Prop :=
  prev_hash e = prev ∧ verify_event_signature e = Ok true
  ∧ hash_record (to_unsigned e) (signature e) = Ok (hash e).

Fixpoint chain_ok (prev : option string) (evs : list EventRecord) : Prop :=
  match evs with
  | [] => True
  | e :: evs' => link_ok prev e ∧ chain_ok (Some (hash e)) evs'
  end.

Definition last_hash (prev : option string) (evs : list EventRecord) : option string :=
  match last evs with Some e => Some (hash e) | None => prev end.

Lemma verify_from_iff prev evs : verify_from prev evs = Ok (true, None) ↔ chain_ok prev evs.
Proof.
  revert prev. induction evs as [|e evs IH]; intros prev; simpl; [done|].
  rewrite /link_ok -IH. case_bool_decide; simpl; [|naive_solver].
  destruct (verify_event_signature e) as [[]|]; simpl; [|naive_solver..].
  destruct (hash_record _ _) as [h|]; simpl; [|naive_solver].
  destruct (String.eqb_spec h (hash e)); simpl; naive_solver.
Qed.

Lemma chain_ok_snoc prev evs e :
  chain_ok prev (evs ++ [e]) ↔ chain_ok prev evs ∧ link_ok (last_hash prev evs) e.
Proof.
  revert prev. induction evs as [|x evs IH]; intros prev; simpl; [tauto|].
  rewrite IH. rewrite /last_hash. destruct evs as [|y evs]; [simpl; tauto|].
  change (last (x :: y :: evs)) with (last (y :: evs)).
  destruct (last (y :: evs)) eqn:E; [tauto|]. by apply last_None in E.
Qed.

Lemma last_hash_fmap (evs : list EventRecord) : hash <$> last evs = last_hash None evs.
Proof. rewrite /last_hash. by destruct (last evs). Qed.

(** The record a signed append writes verifies after the last one. *)
Lemma append_signed_link clk uuid ty pl signer raw evs e raw' :
  log_repr raw evs → append_signed_with_signer clk uuid ty pl signer raw = (Ok e, raw') →
  log_repr raw' (evs ++ [e]) ∧ event_type e = ty ∧ payload e = pl
  ∧ agent_did e = ps_agent_did signer
  ∧ (SignerSound signer → link_ok (last_hash None evs) e).
Proof.
  intros Hr Hrun. rewrite /append_signed_with_signer /append_raw in Hrun. run_inv.
  match goal with Hl : last_unlocked _ = Ok _ |- _ =>
    rewrite (log_last_unlocked _ _ Hr) in Hl; injection Hl as <- end.
  split_and!; try done.
  - by apply log_repr_snoc.
  - intros Hsound. split; [apply last_hash_fmap|]. split; [|done].
    by eapply sign_then_verify.
Qed.

Lemma append_external_link e raw evs raw' :
  log_repr raw evs →
  append_external e raw = (Ok tt, raw') ↔
  link_ok (last_hash None evs) e ∧ raw' = append_row event_to_string e raw.
Proof.
  intros Hr. rewrite /append_external /append_raw. split.
  - intros Hrun. run_inv.
    match goal with Hl : last_unlocked _ = Ok _ |- _ =>
      rewrite (log_last_unlocked _ _ Hr) in Hl; injection Hl as <- end.
    match goal with Hm : modify _ _ = _ |- _ => injection Hm as <- end.
    bool_to_prop. subst. rewrite -last_hash_fmap. by split.
  - intros [(Hp & Hs & Hh) ->]. cbv [mbind stm_bind gets lift ensure modify].
    rewrite (log_last_unlocked _ _ Hr) Hs Hh.
    rewrite bool_decide_eq_true_2; [by rewrite String.eqb_refl|].
    by rewrite last_hash_fmap.
Qed.

(** A failing append leaves the file as it was. *)
Lemma append_error_keeps clk uuid ty pl signer e raw :
  (is_ok (outcome (append_signed_with_signer clk uuid ty pl signer) raw) = false →
   exec (append_signed_with_signer clk uuid ty pl signer) raw = raw)
  ∧ (is_ok (outcome (append_external e) raw) = false → exec (append_external e) raw = raw).
Proof.
  rewrite /exec /outcome /append_signed_with_signer /append_external /append_raw.
  split; stm_cases; done.
Qed.

(** ** The log as an interface *)

Inductive log_step (raw : string) : string → Prop :=
  | step_append clk uuid ty pl signer :
      SignerSound signer →
      log_step raw (exec (append_signed_with_signer clk uuid ty pl signer) raw)
  | step_external e : log_step raw (exec (append_external e) raw).

Definition log_reachable : string → Prop := rtc log_step "".

(** The text is a verified chain of records. *)
Definition log_valid (raw : string) : Prop := ∃ evs, log_repr raw evs ∧ chain_ok None evs.

Lemma log_step_valid raw raw' : log_valid raw → log_step raw raw' → log_valid raw'.
Proof.
  intros (evs & Hr & Hc) [clk uuid ty pl signer Hs|e].
  - destruct (append_error_keeps clk uuid ty pl signer (mkEventRecord "" "" JNull 0 "" None "" "")
      raw) as [Hk _].
    destruct (append_signed_with_signer clk uuid ty pl signer raw) as [[e|msg] raw2] eqn:E.
    + rewrite /exec E. destruct (append_signed_link _ _ _ _ _ _ _ _ _ Hr E) as (Hr' & _ & _ & _ & Hl).
      exists (evs ++ [e]). split; [done|]. apply chain_ok_snoc. auto.
    + rewrite /outcome E in Hk. rewrite Hk //. by exists evs.
  - destruct (append_error_keeps (λ _, 0) "" "" JNull (mkPayloadSigner "" "" (λ _, Err "")) e raw)
      as [_ Hk].
    destruct (append_external e raw) as [[[]|msg] raw2] eqn:E.
    + rewrite /exec E. apply (append_external_link _ _ _ _ Hr) in E as [Hl ->].
      exists (evs ++ [e]). split; [by apply log_repr_snoc|]. by apply chain_ok_snoc.
    + rewrite /outcome E in Hk. rewrite Hk //. by exists evs.
Qed.

Lemma reachable_log_valid raw : log_reachable raw → log_valid raw.
Proof.
  intros Hreach. assert (log_valid "") as H2 by (by exists []).
  revert H2. induction Hreach; eauto using log_step_valid.
Qed.

(** C18: every log written by this node through any sequence of signed appends
    and accepted external events, failing ones included, parses back and its
    chain verifies. *)
Theorem reachable_log_verifies raw :
  log_reachable raw →
  ∃ evs, get_all raw = Ok evs ∧ verify_chain raw = Ok (true, None).
Proof.
  intros (evs & Hr & Hc)%reachable_log_valid. exists evs.
  rewrite /verify_chain (log_get_all _ _ Hr). split; [done|]. by apply verify_from_iff.
Qed.

(** On a log that holds the records [evs], both ways of reading the last
    record agree with reading everything; a signed append adds exactly one
    record, by the signer and with the given type and payload, and an external
    event is accepted exactly when it links to the last record, is signed by
    its author and carries its own hash. An append that fails changes nothing. *)
Theorem event_log_refines raw evs :
  log_repr raw evs →
  get_all raw = Ok evs ∧ last_event raw = Ok (last evs) ∧ last_unlocked raw = Ok (last evs)
  ∧ (∀ clk uuid ty pl signer r raw',
      append_signed_with_signer clk uuid ty pl signer raw = (r, raw') →
      match r with
      | Ok e => log_repr raw' (evs ++ [e]) ∧ event_type e = ty ∧ payload e = pl
                ∧ agent_did e = ps_agent_did signer
      | Err _ => raw' = raw
      end)
  ∧ (∀ e r raw', append_external e raw = (r, raw') →
      (r = Ok tt ↔ prev_hash e = hash <$> last evs ∧ verify_event_signature e = Ok true
                   ∧ hash_record (to_unsigned e) (signature e) = Ok (hash e))
      ∧ match r with Ok _ => log_repr raw' (evs ++ [e]) | Err _ => raw' = raw end).
Proof.
  intros Hr. split; [by apply log_get_all|].
  split; [by rewrite /last_event (log_get_all _ _ Hr)|]. split; [by apply log_last_unlocked|].
  split.
  - intros clk uuid ty pl signer r raw' E.
    destruct (append_error_keeps clk uuid ty pl signer (mkEventRecord "" "" JNull 0 "" None "" "")
      raw) as [Hk _]. rewrite /outcome /exec E in Hk. destruct r; [|auto].
    destruct (append_signed_link _ _ _ _ _ _ _ _ _ Hr E) as (? & ? & ? & ? & _). done.
  - intros e r raw' E. pose proof (append_external_link e raw evs raw' Hr) as Hl.
    rewrite E /link_ok -last_hash_fmap in Hl.
    destruct (append_error_keeps (λ _, 0) "" "" JNull (mkPayloadSigner "" "" (λ _, Err "")) e raw)
      as [_ Hk]. rewrite /outcome /exec E in Hk.
    destruct r as [[]|msg].
    + destruct (proj1 Hl eq_refl) as [? ->]. split; [done|]. by apply log_repr_snoc.
    + split; [|auto]. split; [done|]. intros Hlink. exfalso.
      destruct (append_external_link e raw evs
        (append_row event_to_string e raw) Hr) as [_ Hok]. rewrite E in Hok.
      rewrite /link_ok -last_hash_fmap in Hok. discriminate (Hok (conj Hlink eq_refl)).
Qed.
End log.

(** ** Tamper evidence *)

(** What canonical JSON text is relied on for: the text of a value ends where
    its syntax ends, and the text of a record determines its [prev_hash]. *)
Class CanonicalLaws `{Crypto} : Prop := {
  canonical_delimited v w x y s t :
    canonical_bytes v = Ok x → canonical_bytes w = Ok y → x +:+ s = y +:+ t → x = y ∧ s = t;
  canonical_prev_hash u w x :
    canonical_bytes (json_of_unsigned u) = Ok x → canonical_bytes (json_of_unsigned w) = Ok x →
    u_prev_hash u = u_prev_hash w;
}.

Section tamper.
Context `{Crypto, !CanonicalLaws}.

(** The two records have the same canonical content, signature and hash. *)
Definition same_content (e e' : EventRecord) : Prop :=
  canonical_bytes (json_of_unsigned (to_unsigned e))
  = canonical_bytes (json_of_unsigned (to_unsigned e'))
  ∧ signature e = signature e' ∧ hash e = hash e'.

Definition hash_collision : Prop := ∃ x y, x ≠ y ∧ sha256_hex x = sha256_hex y.

Lemma last_hash_snoc prev evs e : last_hash prev (evs ++ [e]) = Some (hash e).
Proof. by rewrite /last_hash last_snoc. Qed.

Lemma chains_agree evs evs' :
  chain_ok None evs → chain_ok None evs' → last_hash None evs = last_hash None evs' →
  Forall2 same_content evs evs' ∨ hash_collision.
Proof.
  revert evs'. induction evs as [|e evs IH] using rev_ind; intros evs' Hc Hc' Hlast.
  { destruct evs' as [|e' evs' _] using rev_ind; [left; constructor|].
    by rewrite last_hash_snoc in Hlast. }
  destruct evs' as [|e' evs' _] using rev_ind; [by rewrite last_hash_snoc in Hlast|].
  rewrite !last_hash_snoc in Hlast. injection Hlast as Hh.
  apply chain_ok_snoc in Hc as [Hc (Hp & _ & Hr)].
  apply chain_ok_snoc in Hc' as [Hc' (Hp' & _ & Hr')].
  rewrite /hash_record in Hr Hr'.
  apply result_bind_ok in Hr as (x & Hx & [= Hr]).
  apply result_bind_ok in Hr' as (y & Hy & [= Hr']).
  destruct (decide (x +:+ signature e = y +:+ signature e')) as [Heq|Hne].
  2: { right. exists (x +:+ signature e), (y +:+ signature e'). split; [done|congruence]. }
  destruct (canonical_delimited _ _ _ _ _ _ Hx Hy Heq) as [<- Hsig].
  pose proof (canonical_prev_hash _ _ _ Hx Hy) as Hprev. simpl in Hprev.
  destruct (IH evs' Hc Hc' ltac:(congruence)) as [Hall|]; [left|by right].
  apply Forall2_app; [done|]. constructor; [|constructor]. split; [congruence|done].
Qed.

(** C2: two logs that both verify and end in the same hash hold the same
    records: the same number of them, with the same canonical content and
    signatures, position by position, unless SHA-256 has a collision. So a
    verified log cannot be edited, reordered, shortened or extended without
    changing the hash of its last record. *)
Theorem log_tamper_evident `{EventCodec} raw raw' evs evs' :
  get_all raw = Ok evs → get_all raw' = Ok evs' →
  verify_chain raw = Ok (true, None) → verify_chain raw' = Ok (true, None) →
  hash <$> last evs = hash <$> last evs' →
  Forall2 same_content evs evs' ∨ hash_collision.
Proof.
  rewrite /verify_chain => Hg Hg'. rewrite Hg Hg' /=.
  intros Hv%verify_from_iff Hv'%verify_from_iff Hh. apply chains_agree; [done..|].
  by rewrite -!last_hash_fmap.
Qed.
End tamper.

(** ** The interface other components use *)

(** What a component that records signed events needs from a log. *)
Class SignedLog `{Crypto} (L : Type) := {
  log_append : clock → string → string → json → PayloadSigner → stm L EventRecord;
  log_ok : L → Prop;
  log_append_ok clk uuid ty pl signer l :
    SignerSound signer → log_ok l → log_ok (exec (log_append clk uuid ty pl signer) l);
}.

#[global] Instance file_log `{Crypto, EventCodec, !EventCodecLaws} : SignedLog string := {
  log_append := append_signed_with_signer;
  log_ok := log_valid;
  log_append_ok clk uuid ty pl signer l Hs Hl :=
    log_step_valid _ _ Hl (step_append l clk uuid ty pl signer Hs);
}.

(** ** A concrete log

    Values are written as the digits of their code, terminated by a brace: an
    encoding that is injective and delimited, as canonical JSON is. *)

Module LogScenario.
Import Signing.Demo.

(** A number followed by a brace. *)
Definition delimited (p : positive) : string := show_Z (Z.pos p) +:+ "}".

Lemma delimited_inj p q s t : delimited p +:+ s = delimited q +:+ t → p = q ∧ s = t.
Proof.
  assert (∀ r, "}"%char ∉ to_bytes (show_Z (Z.pos r))) as Hno.
  { intros r Hin. destruct (show_Z_decimal (Z.pos r)) as (Hd & _ & _); [done|].
    apply forallb_forall with (x := "}"%char) in Hd; [done|]. by apply list_elem_of_In. }
  rewrite /delimited => Heq. apply (f_equal to_bytes) in Heq.
  rewrite !to_bytes_app -!app_assoc in Heq.
  destruct (split_at_inj _ _ _ _ _ (Hno p) (Hno q) Heq) as [Hpq Hst].
  apply to_bytes_inj in Hpq, Hst. split; [|done].
  apply (inj pretty) in Hpq. by injection Hpq.
Qed.

#[export] Instance log_crypto : Crypto := {|
  jcs_to_string v := Ok (delimited (encode v));
  sha256_hex s := "h" +:+ fit 8 s;
  base64_decode s := Some s;
  did_key_public_key_b64 s := Ok (fit 32 s);
  verifying_key_from_bytes _ := Ok tt;
  ed25519_verify key m sig := String.eqb sig (fit 64 (key +:+ m));
|}.

#[export] Instance log_signer_sound did : SignerSound (signer did).
Proof. exact (Demo.signer_is_sound did). Qed.

#[export] Instance log_canonical : CanonicalLaws.
Proof.
  split.
  - intros v w x y s t [= <-] [= <-] Heq. destruct (delimited_inj _ _ _ _ Heq) as [-> ->]. done.
  - intros u w x [= <-] [= Heq].
    assert (delimited (encode (json_of_unsigned w)) +:+ ""
            = delimited (encode (json_of_unsigned u)) +:+ "") as Heq' by by rewrite Heq.
    apply delimited_inj in Heq' as [Heq'%(inj encode) _]. revert Heq'.
    destruct u as [???? ? [?|]], w as [???? ? [?|]]; simpl; naive_solver.
Qed.

Definition event_tuple (e : EventRecord) :=
  (id e, event_type e, payload e, timestamp e, agent_did e, prev_hash e, signature e, hash e).

#[export] Instance log_codec : EventCodec := {|
  event_to_string e := "{" +:+ show_Z (Z.pos (encode (event_tuple e)));
  event_from_str s :=
    match to_bytes s with
    | _ :: ds =>
        t ← decode (Z.to_pos (dec 0 ds));
        let '(i, ty, pl, ts, ag, ph, sg, h) := t in Some (mkEventRecord i ty pl ts ag ph sg h)
    | [] => None
    end;
|}.

#[export] Instance log_codec_laws : EventCodecLaws.
Proof.
  split.
  - intros e. cbn [event_to_string event_from_str log_codec].
    rewrite to_bytes_app. cbn [String.list_ascii_of_string app].
    destruct (show_Z_decimal (Z.pos (encode (event_tuple e)))) as (_ & -> & _); [done|].
    cbn [Z.to_pos]. rewrite decode_encode. by destruct e.
  - intros e. destruct (show_Z_decimal (Z.pos (encode (event_tuple e)))) as (Hd & _ & _); [done|].
    cbn [event_to_string log_codec]. rewrite to_bytes_app.
    split; intros [Hin|Hin]%elem_of_app;
      try (apply list_elem_of_singleton in Hin; discriminate Hin);
      (eapply forallb_forall in Hd; [|by apply list_elem_of_In]; discriminate Hd).
  - intros e. cbn [event_to_string log_codec]. rewrite to_bytes_app.
    apply elem_of_app. left. apply elem_of_cons. by left.
Qed.

Definition clk : clock := λ _, 100.
Definition raw1 : string :=
  exec (append_signed_with_signer clk "u1" "BOOT" (JBool true) (signer "a")) "".

Example append_runs :
  is_ok (outcome (append_signed_with_signer clk "u1" "BOOT" (JBool true) (signer "a")) "") = true.
Proof. vm_compute. reflexivity. Qed.

Lemma raw1_reachable : log_reachable raw1.
Proof.
  exact (rtc_once _ _ (step_append "" clk "u1" "BOOT" (JBool true) (signer "a")
    (log_signer_sound "a"))).
Qed.

Lemma reachable_log_verifies_witness :
  ∃ evs, get_all raw1 = Ok evs ∧ verify_chain raw1 = Ok (true, None).
Proof. exact (reachable_log_verifies raw1 raw1_reachable). Defined.

Lemma event_log_refines_witness : get_all "" = Ok [] ∧ last_unlocked "" = Ok None.
Proof.
  destruct (event_log_refines "" [] eq_refl) as (H1 & _ & H2 & _). exact (conj H1 H2).
Defined.

Lemma log_tamper_evident_witness :
  ∃ evs, get_all raw1 = Ok evs ∧ (Forall2 same_content evs evs ∨ hash_collision).
Proof.
  destruct (reachable_log_valid raw1 raw1_reachable) as (evs & Hr & Hc).
  assert (Hg : get_all raw1 = Ok evs) by exact (log_get_all _ _ Hr).
  assert (Hv : verify_chain raw1 = Ok (true, None)).
  { rewrite /verify_chain Hg. exact (proj2 (verify_from_iff None evs) Hc). }
  exists evs. split; [exact Hg|].
  exact (log_tamper_evident raw1 raw1 evs evs Hg Hg Hv Hv eq_refl).
Defined.
End LogScenario.
