(* ===== verification/Snapshots.v ===== *)
(** * Snapshots and recovery of the event log

    [storage/data_ops.rs]: snapshots of the event log, its recovery when it is
    corrupt and the migration of a data directory; [recovery.rs] of the node:
    the recovery at start-up. The state is the event-log file, the files of the
    snapshot directory by their path below it, and the readable files outside.
    Creating directories and writing files are taken to succeed; backup archives
    (tar and gzip) are not modelled. *)

From S2P Require Import Prelude Collections Text Jsonl Json Signing EventLog.
#[local] Open Scope Z_scope.

Record SnapshotMeta := mkSnapshotMeta {
  sm_id : string;
  sm_created_at : Z;
  event_count : Z;
  sm_last_hash : option string;
  event_file : string;
  segment_files : list string;
}.

(** [serde_json] on snapshot metadata, and the order in which the file system
    lists the files directly in a directory. *)
Class SnapshotFiles := {
  meta_to_string : SnapshotMeta → string;
  meta_from_str : string → option SnapshotMeta;
  read_dir : gmap string string → list string;
}.

(** A path with a slash is a file in a subdirectory. *)
Definition top_level (path : string) : bool := bool_decide ("/"%char ∉ to_bytes path).

Class SnapshotFilesLaws `{SnapshotFiles} : Prop := {
  meta_roundtrip m : meta_from_str (meta_to_string m) = Some m;
  read_dir_perm d : read_dir d ≡ₚ List.filter top_level (btree_entries d).*1;
}.

Record Store := mkStore {
  event_log : option string;
  snapshots : gmap string string;
  outside : gmap string string;
}.
#[global] Instance Store_eta : Eta Store := λ s,
  mkStore (event_log s) (snapshots s) (outside s).

Definition SEGMENT_EVENT_LINES : nat := 500.

(** [{index:05}]. *)
Definition pad5 (n : nat) : string :=
  let s := show_Z (Z.of_nat n) in
  of_bytes (replicate (5 - String.length s) "0"%char) +:+ s.

Definition ends_with (suffix s : string) : bool :=
  match strip_prefix (reverse (to_bytes suffix)) (reverse (to_bytes s)) with
  | Some _ => true
  | None => false
  end.

Section snapshots.
Context `{Crypto, EventCodec, SnapshotFiles}.

(** ** Files *)

(** [EventLog::new] creates a missing file. *)
Definition open_log : stm Store string :=
  raw ← gets (λ s, default "" (event_log s));
  modify (λ s, s <| event_log := Some raw |>);;
  mret raw.

Definition event_log_is_valid : stm Store bool :=
  raw ← open_log;
  mret match verify_chain raw with Ok (valid, _) => valid | Err _ => false end.

Definition write_snapshot_file (path content : string) : stm Store unit :=
  modify (λ s, s <| snapshots ::= <[path := content]> |>).

(** ** Segments *)

Definition segment_name (snapshot_id : string) (index : nat) : string :=
  "segments/" +:+ snapshot_id +:+ ".seg-" +:+ pad5 index +:+ ".jsonl".

(** The text of a chunk: each line followed by a line feed. *)
Definition chunk_text (ls : list string) : string :=
  foldr (λ l acc, l +:+ String newline "" +:+ acc) "" ls.

Definition write_segment_chunk (snapshot_id : string) (index : nat) (ls : list string)
    : stm Store string :=
  write_snapshot_file (segment_name snapshot_id index) (chunk_text ls);;
  mret (segment_name snapshot_id index).

Fixpoint segment_loop (snapshot_id : string) (ls current : list string) (index : nat)
    : stm Store (list string) :=
  match ls with
  | [] =>
      match current with
      | [] => mret []
      | _ => n ← write_segment_chunk snapshot_id index current; mret [n]
      end
  | l :: ls =>
      let current := current ++ [l] in
      if (SEGMENT_EVENT_LINES <=? length current)%nat then
        n ← write_segment_chunk snapshot_id index current;
        ns ← segment_loop snapshot_id ls [] (S index);
        mret (n :: ns)
      else segment_loop snapshot_id ls current index
  end.

Definition write_snapshot_segments (raw snapshot_id : string) : stm Store (list string) :=
  segment_loop snapshot_id (lines raw) [] 0.

(** ** Snapshots *)

Definition create_snapshot (clk : clock) : stm Store SnapshotMeta :=
  raw ← open_log;
  events ← lift (get_all raw);
  let id := "snapshot-" +:+ show_Z (clk 0%nat) in
  let event_file_name := id +:+ ".events.jsonl" in
  write_snapshot_file event_file_name raw;;
  segs ← write_snapshot_segments raw id;
  let meta := mkSnapshotMeta id (clk 1%nat) (Z.of_nat (length events)) (hash <$> last events)
    event_file_name segs in
  write_snapshot_file (id +:+ ".meta.json") (meta_to_string meta);;
  mret meta.

Definition read_meta (d : gmap string string) (path : string) : result SnapshotMeta :=
  raw ← ok_or "read snapshot metadata" (d !! path);
  ok_or "parse snapshot metadata" (meta_from_str raw).

Definition list_snapshots : stm Store (list SnapshotMeta) :=
  d ← gets snapshots;
  metas ← lift (collect (read_meta d) (List.filter (ends_with ".meta.json") (read_dir d)));
  mret (sort_by_key_rev sm_created_at metas).

(** Appending the segments to the log that was just truncated. *)
Fixpoint append_segments (d : gmap string string) (segs : list string) : stm Store unit :=
  match segs with
  | [] => mret tt
  | rel :: segs =>
      bytes ← lift (ok_or ("read segment " +:+ rel) (d !! rel));
      modify (λ s, s <| event_log ::= λ o, Some (default "" o +:+ bytes) |>);;
      append_segments d segs
  end.

Definition restore_snapshot (meta : SnapshotMeta) : stm Store unit :=
  d ← gets snapshots;
  match d !! event_file meta with
  | Some content => modify (λ s, s <| event_log := Some content |>)
  | None =>
      match segment_files meta with
      | [] => bail "snapshot event file missing and no segment files available"
      | segs => modify (λ s, s <| event_log := Some "" |>);; append_segments d segs
      end
  end.

(** ** Recovery *)

Fixpoint try_snapshots (metas : list SnapshotMeta) : stm Store (option SnapshotMeta) :=
  match metas with
  | [] => mret None
  | meta :: metas => λ s,
      let '(r, s) := restore_snapshot meta s in
      if is_ok r then
        (valid ← event_log_is_valid; if (valid : bool) then mret (Some meta) else try_snapshots metas) s
      else try_snapshots metas s
  end.

(** The metadata reported for a recovery from an outside file. *)
Definition external_meta (clk : clock) (source : string) (events : list EventRecord)
    : SnapshotMeta :=
  mkSnapshotMeta ("external-recovery-" +:+ show_Z (clk 0%nat)) (clk 1%nat)
    (Z.of_nat (length events)) (hash <$> last events) source [].

Fixpoint try_sources (clk : clock) (sources : list string) : stm Store (option SnapshotMeta) :=
  match sources with
  | [] => mret None
  | source :: sources =>
      content ← gets (λ s, outside s !! source);
      match content with
      | None => try_sources clk sources
      | Some content =>
          modify (λ s, s <| event_log := Some content |>);;
          valid ← event_log_is_valid;
          if (valid : bool) then
            raw ← open_log;
            events ← lift (get_all raw);
            mret (Some (external_meta clk source events))
          else try_sources clk sources
      end
  end.

Definition recover_if_corrupt_with_sources (clk : clock) (sources : list string)
    : stm Store (option SnapshotMeta) :=
  valid ← event_log_is_valid;
  if (valid : bool) then mret None
  else
    metas ← list_snapshots;
    restored ← try_snapshots metas;
    match restored with
    | Some meta => mret (Some meta)
    | None =>
        found ← try_sources clk sources;
        match found with
        | Some meta => mret (Some meta)
        | None => bail "no valid snapshot or external source available for recovery"
        end
    end.

Definition recover_if_corrupt (clk : clock) : stm Store (option SnapshotMeta) :=
  recover_if_corrupt_with_sources clk [].

(** ** Recovery at start-up *)

(** The bodies of successful responses, and [serde_json] on them. *)
Class Recovery := {
  fetch : string → option string;
  rows_from_array : string → option (list EventRecord);
  value_from_str : string → option json;
  rows_from_value : json → option (list EventRecord);
}.
Context `{Recovery}.

Definition parse_recovery_rows (raw : string) : result (list EventRecord) :=
  match rows_from_array raw with
  | Some rows => Ok rows
  | None =>
      match value_from_str raw ≫= json_get "events" with
      | Some events => ok_or "parse events array from recovery payload" (rows_from_value events)
      | None =>
          collect (parse_line event_from_str "parse recovery jsonl row")
            (List.filter (λ l, negb (is_blank l)) (lines raw))
      end
  end.

Definition write_candidate_events (rows : list EventRecord) : stm Store unit :=
  modify (λ s, s <| event_log := Some (foldl (λ acc r, append_row event_to_string r acc) "" rows) |>).

Fixpoint recover_events_from_http_sources (sources : list string) : stm Store (option string) :=
  match sources with
  | [] => mret None
  | source :: sources =>
      match fetch source with
      | None => recover_events_from_http_sources sources
      | Some body =>
          match parse_recovery_rows body with
          | Err _ | Ok [] => recover_events_from_http_sources sources
          | Ok rows =>
              write_candidate_events rows;;
              valid ← event_log_is_valid;
              if (valid : bool) then mret (Some source)
              else recover_events_from_http_sources sources
          end
      end
  end.

Definition is_http (source : string) : bool :=
  bool_decide (is_Some (strip_prefix (to_bytes "http://") (to_bytes source)))
  || bool_decide (is_Some (strip_prefix (to_bytes "https://") (to_bytes source))).

Definition startup_recover_events (clk : clock) (recovery_sources : list string)
    : stm Store unit :=
  let local_sources := List.filter (λ s, negb (is_http s)) recovery_sources in
  let http_sources := List.filter is_http recovery_sources in
  (λ s, match recover_if_corrupt_with_sources clk local_sources s with
        | (Ok _, s) => (Ok tt, s)
        | (Err e, s) =>
            match http_sources with
            | [] => (Err "startup event-log recovery check", s)
            | _ => (Ok tt, s)
            end
        end);;
  valid ← event_log_is_valid;
  (if negb valid && negb (bool_decide (http_sources = []))
   then recover_events_from_http_sources http_sources;; mret tt else mret tt);;
  valid ← event_log_is_valid;
  ensure valid "event log remains invalid after startup recovery attempts".
End snapshots.

(** ** What recovery reads *)

Section texts.
Context `{Crypto, EventCodec, SnapshotFiles}.

(** The log text verifies; a missing file counts as empty. *)
Definition text_valid (raw : string) : bool :=
  match verify_chain raw with Ok (valid, _) => valid | Err _ => false end.
Definition log_text (s : Store) : string := default "" (event_log s).
Definition log_good (s : Store) : bool := text_valid (log_text s).

(** The store with its log file in place. *)
Definition touched (s : Store) : Store := s <| event_log := Some (log_text s) |>.

(** The text of segments, when all are there. *)
Definition segments_text (d : gmap string string) (segs : list string) : option string :=
  foldr (λ n acc, t ← d !! n; r ← acc; Some (t +:+ r)) (Some "") segs.

(** The text a snapshot restores, when it can. *)
Definition snapshot_text (d : gmap string string) (meta : SnapshotMeta) : option string :=
  match d !! event_file meta with
  | Some content => Some content
  | None => match segment_files meta with [] => None | segs => segments_text d segs end
  end.

Lemma valid_run s : event_log_is_valid s = (Ok (log_good s), touched s).
Proof. done. Qed.

Lemma str_app_assoc (a b c : string) : (a +:+ b) +:+ c = a +:+ b +:+ c.
Proof. apply to_bytes_inj. by rewrite !to_bytes_app app_assoc. Qed.

Lemma str_app_nil_r (a : string) : a +:+ "" = a.
Proof. apply to_bytes_inj. by rewrite to_bytes_app app_nil_r. Qed.

Lemma append_segments_run d segs s base :
  event_log s = Some base →
  match segments_text d segs with
  | Some text => append_segments d segs s = (Ok tt, s <| event_log := Some (base +:+ text) |>)
  | None => ∃ e t, append_segments d segs s = (Err e, s <| event_log := Some t |>)
  end.
Proof.
  revert s base. induction segs as [|n segs IH]; intros s base Hs.
  { rewrite /= str_app_nil_r. destruct s; simpl in *; by subst. }
  assert (segments_text d (n :: segs) = t ← d !! n; r ← segments_text d segs; Some (t +:+ r)) as ->
    by done.
  cbn [append_segments]. destruct (d !! n) as [b|]; simpl.
  2: { eexists _, base. destruct s; simpl in *; by subst. }
  cbv [mbind stm_bind lift ok_or modify]. rewrite /set_field /= Hs /=.
  specialize (IH (mkStore (Some (base +:+ b)) (snapshots s) (outside s)) _ eq_refl).
  destruct (segments_text d segs) as [text|]; [|exact IH].
  by rewrite IH /set_field /= str_app_assoc.
Qed.

Lemma restore_snapshot_run meta s :
  match snapshot_text (snapshots s) meta with
  | Some text => restore_snapshot meta s = (Ok tt, s <| event_log := Some text |>)
  | None => ∃ e t, restore_snapshot meta s = (Err e, s <| event_log := t |>)
  end.
Proof.
  rewrite /snapshot_text /restore_snapshot. cbv [mbind stm_bind gets].
  destruct (snapshots s !! event_file meta) as [c|]; [done|].
  destruct (segment_files meta) as [|n segs]; [eexists _, (event_log s); by destruct s|].
  cbv [modify bail]. pose proof (append_segments_run (snapshots s) (n :: segs)
    (mkStore (Some "") (snapshots s) (outside s)) "" eq_refl) as Hrun.
  destruct (segments_text (snapshots s) (n :: segs)) as [text|]; [done|].
  destruct Hrun as (e & t & Hrun). by exists e, (Some t).
Qed.

(** ** Recovery *)

(** The snapshot restores a log that verifies. *)
Definition usable (d : gmap string string) (meta : SnapshotMeta) : option string :=
  text ← snapshot_text d meta; if text_valid text then Some text else None.
Definition usable_source (out : gmap string string) (source : string) : option string :=
  text ← out !! source; if text_valid text then Some text else None.

Lemma try_snapshots_run metas s :
  match find_first (λ m, bool_decide (is_Some (usable (snapshots s) m))) metas with
  | Some m => ∃ text, usable (snapshots s) m = Some text
      ∧ try_snapshots metas s = (Ok (Some m), s <| event_log := Some text |>)
  | None => ∃ t, try_snapshots metas s = (Ok None, s <| event_log := t |>)
  end.
Proof.
  revert s. induction metas as [|m metas IH]; intros s; cbn [find_first try_snapshots].
  { exists (event_log s). by destruct s. }
  pose proof (restore_snapshot_run m s) as Hres. rewrite {1 2}/usable.
  destruct (snapshot_text (snapshots s) m) as [text|] eqn:Ht; simpl.
  - rewrite Hres. cbn [is_ok]. cbv [mbind stm_bind]. rewrite valid_run /log_good /log_text /=.
    destruct (text_valid text) eqn:Hv; simpl.
    + exists text. by rewrite /usable Ht /= Hv.
    + exact (IH (mkStore (Some text) (snapshots s) (outside s))).
  - destruct Hres as (e & t & ->). cbn [is_ok]. exact (IH (mkStore t (snapshots s) (outside s))).
Qed.

Lemma try_sources_run clk sources s :
  match find_first (λ x, bool_decide (is_Some (usable_source (outside s) x))) sources with
  | Some x => ∃ text m, usable_source (outside s) x = Some text ∧ event_file m = x
      ∧ try_sources clk sources s = (Ok (Some m), s <| event_log := Some text |>)
  | None => ∃ t, try_sources clk sources s = (Ok None, s <| event_log := t |>)
  end.
Proof.
  revert s. induction sources as [|x sources IH]; intros s; cbn [find_first try_sources].
  { exists (event_log s). by destruct s. }
  rewrite {1 2}/usable_source. cbv [mbind stm_bind gets modify option_bind].
  destruct (outside s !! x) as [text|] eqn:Ht; [|apply (IH s)].
  rewrite valid_run /log_good /log_text /=. destruct (text_valid text) eqn:Hv; simpl.
  - cbv [lift]. pose proof Hv as Hg. rewrite /log_text /=.
    rewrite /text_valid /verify_chain in Hg. destruct (get_all text) as [evs|]; [|done].
    eexists text, _. split; [by rewrite /usable_source Ht /= Hv|]. by split; [|reflexivity].
  - exact (IH (mkStore (Some text) (snapshots s) (outside s))).
Qed.

Lemma recover_run clk sources s r s' :
  recover_if_corrupt_with_sources clk sources s = (r, s') →
  snapshots s' = snapshots s ∧ outside s' = outside s
  ∧ if log_good s then r = Ok None ∧ s' = touched s
    else match outcome list_snapshots s with
         | Err e => r = Err e ∧ s' = touched s
         | Ok metas =>
             match find_first (λ m, bool_decide (is_Some (usable (snapshots s) m))) metas with
             | Some m => r = Ok (Some m) ∧ event_log s' = usable (snapshots s) m
             | None =>
                 match find_first (λ x, bool_decide (is_Some (usable_source (outside s) x))) sources with
                 | Some x => event_log s' = usable_source (outside s) x
                     ∧ ∃ m, r = Ok (Some m) ∧ event_file m = x
                 | None => is_ok r = false
                 end
             end
         end.
Proof.
  rewrite /recover_if_corrupt_with_sources. cbv [mbind stm_bind]. rewrite valid_run.
  destruct (log_good s); [by intros [= <- <-]|].
  assert (list_snapshots (touched s) = (outcome list_snapshots s, touched s)) as ->.
  { rewrite /outcome /list_snapshots. cbv [mbind stm_bind gets lift]. simpl. by case_match. }
  destruct (outcome list_snapshots s) as [metas|e]; [|by intros [= <- <-]].
  pose proof (try_snapshots_run metas (touched s)) as Hsn. rewrite {1 2 5}/touched /= in Hsn.
  destruct (find_first _ metas) as [m|].
  { destruct Hsn as (text & Hu & ->). intros [= <- <-]. by rewrite Hu. }
  destruct Hsn as (t & ->).
  change (touched s <| event_log := t |>) with (mkStore t (snapshots s) (outside s)). pose proof (try_sources_run clk sources
    (mkStore t (snapshots s) (outside s))) as Hso. rewrite /set_field /= in Hso.
  destruct (find_first _ sources) as [x|].
  - destruct Hso as (text & m & Hu & Hm & ->). intros [= <- <-]. rewrite Hu.
    do 3 (split; [done|]). by exists m.
  - destruct Hso as (t' & ->). by intros [= <- <-].
Qed.

(** Recovery leaves a log that verifies alone. Otherwise, when the snapshot
    metadata can be read, it takes the newest snapshot that restores a verifying
    log, else the first outside file that is one, and then the log is that text;
    it fails exactly when there is none. The snapshots and the outside files are
    never changed. *)
Theorem recover_spec clk sources s r s' :
  recover_if_corrupt_with_sources clk sources s = (r, s') →
  snapshots s' = snapshots s ∧ outside s' = outside s
  ∧ if log_good s then r = Ok None ∧ s' = touched s
    else match outcome list_snapshots s with
         | Err e => r = Err e ∧ s' = touched s
         | Ok metas =>
             match find_first (λ m, bool_decide (is_Some (usable (snapshots s) m))) metas with
             | Some m => r = Ok (Some m) ∧ event_log s' = usable (snapshots s) m
             | None =>
                 match find_first (λ x, bool_decide (is_Some (usable_source (outside s) x))) sources with
                 | Some x => event_log s' = usable_source (outside s) x
                     ∧ ∃ m, r = Ok (Some m) ∧ event_file m = x
                 | None => is_ok r = false
                 end
             end
         end.
Proof. apply recover_run. Qed.

(** A recovered log verifies. *)
Lemma usable_valid d m text : usable d m = Some text → text_valid text = true.
Proof. rewrite /usable. destruct (snapshot_text d m); simpl; [|done]. case_match; naive_solver. Qed.
End texts.

(** ** Segments hold the log *)

Lemma pad5_dec n : dec 0 (to_bytes (pad5 n)) = Z.of_nat n.
Proof.
  rewrite /pad5 to_bytes_app String.list_ascii_of_string_of_list_ascii dec_app dec_replicate_0.
  rewrite Z.mul_0_l. by destruct (show_Z_decimal (Z.of_nat n)) as (_ & -> & _); [lia|].
Qed.

Lemma segment_name_inj id i j : segment_name id i = segment_name id j → i = j.
Proof.
  rewrite /segment_name => Heq. apply (f_equal to_bytes) in Heq. rewrite 8!to_bytes_app in Heq.
  do 3 apply app_inv_head in Heq. apply app_inv_tail in Heq.
  apply (f_equal (dec 0)) in Heq. rewrite !pad5_dec in Heq. lia.
Qed.

Lemma segment_not_top id i : top_level (segment_name id i) = false.
Proof.
  rewrite /top_level bool_decide_eq_false. intros Hn. apply Hn. rewrite /segment_name to_bytes_app.
  apply elem_of_app. left. by apply (bool_decide_unpack _).
Qed.

Lemma segments_text_cons d n segs :
  segments_text d (n :: segs) = t ← d !! n; r ← segments_text d segs; Some (t +:+ r).
Proof. done. Qed.

Lemma segments_text_ext d d' segs :
  (∀ n, n ∈ segs → d !! n = d' !! n) → segments_text d segs = segments_text d' segs.
Proof.
  intros Hd. induction segs as [|n segs IH]; [done|]. rewrite !segments_text_cons Hd; [|by left].
  rewrite IH //. intros m Hm. apply Hd. by right.
Qed.

Lemma chunk_text_app l1 l2 : chunk_text (l1 ++ l2) = chunk_text l1 +:+ chunk_text l2.
Proof.
  induction l1 as [|l l1 IH]; [done|]. cbn [chunk_text foldr app]. fold (chunk_text (l1 ++ l2)).
  fold (chunk_text l1). by rewrite IH !str_app_assoc.
Qed.

(** The loop writes segments, numbered upwards, that together hold its lines. *)
Lemma segment_loop_run id ls current index s :
  ∃ names d, segment_loop id ls current index s = (Ok names, s <| snapshots := d |>)
  ∧ segments_text d names = Some (chunk_text (current ++ ls))
  ∧ (∀ p, (∀ k, (index ≤ k)%nat → p ≠ segment_name id k) → d !! p = snapshots s !! p)
  ∧ (names = [] ↔ current ++ ls = [])
  ∧ ∀ n, n ∈ names → ∃ k, (index ≤ k)%nat ∧ n = segment_name id k.
Proof.
  revert current index s. induction ls as [|l ls IH]; intros current index s; cbn [segment_loop].
  - rewrite app_nil_r. destruct current as [|c current].
    { exists [], (snapshots s). destruct s. split_and!; try done. by intros n ?%elem_of_nil. }
    exists [segment_name id index], (<[segment_name id index := chunk_text (c :: current)]> (snapshots s)).
    split; [done|]. split_and!.
    + rewrite segments_text_cons lookup_insert_eq /=. by rewrite str_app_nil_r.
    + intros p Hp. rewrite lookup_insert_ne //. symmetry. by apply Hp.
    + done.
    + intros n ->%list_elem_of_singleton. by exists index.
  - case_match.
    + cbv [mbind stm_bind]. set (d1 := <[segment_name id index := chunk_text (current ++ [l])]> (snapshots s)).
      change (write_segment_chunk id index (current ++ [l]) s)
        with (Ok (segment_name id index), mkStore (event_log s) d1 (outside s)). cbn beta iota.
      destruct (IH [] (S index) (mkStore (event_log s) d1 (outside s)))
        as (names & d & -> & Ht & Hd & Hnil & Hn).
      exists (segment_name id index :: names), d. split; [done|]. split_and!.
      * rewrite segments_text_cons Hd; [|intros k Hk Heq%segment_name_inj; lia].
        rewrite /= /d1 lookup_insert_eq /= Ht /= -chunk_text_app. by rewrite -app_assoc.
      * intros p Hp. rewrite Hd; [|intros k Hk; apply Hp; lia].
        rewrite /= /d1 lookup_insert_ne //. symmetry. by apply Hp.
      * split; [done|]. by destruct current.
      * intros n [->|Hin]%elem_of_cons; [by exists index|].
        destruct (Hn n Hin) as (k & ? & ->). exists k. split; [lia|done].
    + destruct (IH (current ++ [l]) index s) as (names & d & -> & Ht & Hd & Hnil & Hn).
      rewrite -app_assoc in Ht Hnil. by exists names, d.
Qed.

(** Different files of one snapshot have different names. *)
Lemma events_not_meta id : id +:+ ".events.jsonl" ≠ id +:+ ".meta.json".
Proof.
  intros Heq%(f_equal to_bytes). rewrite !to_bytes_app in Heq. by apply app_inv_head in Heq.
Qed.

Lemma top_level_app a b :
  top_level (a +:+ b) = top_level a && top_level b.
Proof.
  rewrite /top_level to_bytes_app. repeat case_bool_decide; set_solver.
Qed.

(** A top-level name is not a segment. *)
Lemma top_not_segment p id k : top_level p = true → p ≠ segment_name id k.
Proof. intros Hp ->. by rewrite segment_not_top in Hp. Qed.

Lemma snapshot_id_top n suffix :
  top_level suffix = true → 0 ≤ n → top_level (("snapshot-" +:+ show_Z n) +:+ suffix) = true.
Proof.
  intros Hs Hn. rewrite !top_level_app Hs andb_true_r /=. apply bool_decide_eq_true.
  destruct (show_Z_decimal n Hn) as (Hd & _ & _). by apply digits_no_char.
Qed.

Definition snapshot_id (clk : clock) : string := "snapshot-" +:+ show_Z (clk 0%nat).
Definition meta_path (clk : clock) : string := snapshot_id clk +:+ ".meta.json".
Definition events_path (clk : clock) : string := snapshot_id clk +:+ ".events.jsonl".

(** ** Listing *)

Section listing.
Context `{SnapshotFiles}.

Definition meta_paths (d : gmap string string) : list string :=
  List.filter (ends_with ".meta.json") (read_dir d).

Lemma meta_path_ends clk : ends_with ".meta.json" (meta_path clk) = true.
Proof.
  rewrite /ends_with /meta_path to_bytes_app reverse_app.
  by rewrite (proj2 (strip_prefix_Some _ _ (reverse (to_bytes (snapshot_id clk))))).
Qed.

Lemma events_path_ends clk : ends_with ".meta.json" (events_path clk) = false.
Proof. by rewrite /ends_with /events_path to_bytes_app reverse_app. Qed.

Lemma filterb_NoDup {A} (P : A → bool) l : NoDup l → NoDup (List.filter P l).
Proof.
  induction 1 as [|x l Hx _ IH]; simpl; [constructor|]. case_match; [|done]. constructor; [|done].
  rewrite elem_of_filterb. tauto.
Qed.

Lemma elem_of_meta_paths `{!SnapshotFilesLaws} d p :
  p ∈ meta_paths d ↔
  ends_with ".meta.json" p = true ∧ top_level p = true ∧ is_Some (d !! p).
Proof.
  rewrite /meta_paths elem_of_filterb (read_dir_perm d) elem_of_filterb list_elem_of_fmap.
  split.
  - intros [[([q v] & -> & Hin) Ht] He]. apply elem_of_btree_entries in Hin. eauto.
  - intros (He & Ht & v & Hv). split; [|done]. split; [|done]. exists (p, v).
    by rewrite elem_of_btree_entries.
Qed.

Lemma NoDup_meta_paths `{!SnapshotFilesLaws} d : NoDup (meta_paths d).
Proof.
  apply filterb_NoDup. rewrite (read_dir_perm d). apply filterb_NoDup, btree_entries_NoDup.
Qed.

Lemma collect_perm {A B} (f : A → result B) l1 l2 r1 :
  l1 ≡ₚ l2 → collect f l1 = Ok r1 → ∃ r2, collect f l2 = Ok r2 ∧ r1 ≡ₚ r2.
Proof.
  intros Hp. revert r1. induction Hp as [|x l1 l2 _ IH|x y l|l1 l2 l3 _ IH1 _ IH2]; simpl; intros r1.
  - intros [= <-]. by exists [].
  - destruct (f x) as [b|]; simpl; [|done]. destruct (collect f l1) as [r|]; simpl; [|done].
    intros [= <-]. destruct (IH r eq_refl) as (r2 & -> & Hr). exists (b :: r2). simpl. auto.
  - destruct (f y) as [b|]; simpl; [|done]. destruct (f x) as [a|]; simpl; [|done].
    destruct (collect f l) as [r|]; simpl; [|done]. intros [= <-]. eexists. split; [done|constructor].
  - intros Hr. destruct (IH1 _ Hr) as (r2 & Hr2 & Hp1). destruct (IH2 _ Hr2) as (r3 & Hr3 & Hp2).
    exists r3. split; [done|]. by transitivity r2.
Qed.

Lemma collect_ext {A B} (f g : A → result B) l :
  (∀ x, x ∈ l → f x = g x) → collect f l = collect g l.
Proof.
  induction l as [|x l IH]; intros Hfg; simpl; [done|]. rewrite Hfg; [|by left].
  rewrite IH //. intros y Hy. apply Hfg. by right.
Qed.

(** A snapshot whose metadata is new is listed besides the others. *)
Lemma listing_grows `{!SnapshotFilesLaws} d d' p meta metas :
  collect (read_meta d) (meta_paths d) = Ok metas →
  ends_with ".meta.json" p = true → top_level p = true →
  d !! p = None → d' !! p = Some (meta_to_string meta) →
  (∀ q, q ≠ p → ends_with ".meta.json" q = true → top_level q = true → d' !! q = d !! q) →
  ∃ metas', collect (read_meta d') (meta_paths d') = Ok metas' ∧ metas' ≡ₚ meta :: metas.
Proof.
  intros Hc He Ht Hnew Hp Hother.
  assert (p :: meta_paths d ≡ₚ meta_paths d') as Hperm.
  { apply NoDup_Permutation.
    - constructor; [|apply NoDup_meta_paths]. rewrite elem_of_meta_paths Hnew.
      intros (_ & _ & [? ?]). done.
    - apply NoDup_meta_paths.
    - intros q. rewrite elem_of_cons !elem_of_meta_paths. destruct (decide (q = p)) as [->|Hne].
      + split; [|by left]. intros _. rewrite Hp. eauto.
      + split; [intros [?|(H1 & H2 & H3)]; [done|]|intros (H1 & H2 & H3); right].
        * by rewrite Hother.
        * by rewrite Hother in H3. }
  assert (collect (read_meta d') (p :: meta_paths d) = Ok (meta :: metas)) as Hc'.
  { assert (read_meta d' p = Ok meta) as Hrm by by rewrite /read_meta Hp /= meta_roundtrip.
    cbn [collect]. rewrite Hrm /=. rewrite (collect_ext _ (read_meta d)) ?Hc //.
    intros q (H1 & H2 & H3)%elem_of_meta_paths. rewrite /read_meta Hother //.
    intros ->. rewrite Hnew in H3. by destruct H3. }
  destruct (collect_perm _ _ _ _ Hperm Hc') as (metas' & ? & ?). exists metas'. by split.
Qed.

Lemma list_snapshots_outcome s :
  outcome list_snapshots s =
  match collect (read_meta (snapshots s)) (meta_paths (snapshots s)) with
  | Ok metas => Ok (sort_by_key_rev sm_created_at metas)
  | Err e => Err e
  end.
Proof.
  rewrite /outcome /list_snapshots. cbv [mbind stm_bind gets lift mret stm_ret].
  fold (meta_paths (snapshots s)). by case_match.
Qed.

(** The one snapshot that is newer than all others comes first. *)
Lemma newest_first meta metas metas' :
  metas' ≡ₚ meta :: metas → Forall (λ m, sm_created_at m < sm_created_at meta) metas →
  ∃ rest, sort_by_key_rev sm_created_at metas' = meta :: rest.
Proof.
  intros Hp Hall. pose proof (sort_by_key_rev_sorted sm_created_at metas') as Hs.
  pose proof (sort_by_perm (λ x y, sm_created_at y <=? sm_created_at x) metas') as Hp'.
  fold (sort_by_key_rev sm_created_at metas') in Hp'.
  destruct (sort_by_key_rev sm_created_at metas') as [|m rest].
  { apply Permutation_length in Hp, Hp'. simpl in *. lia. }
  exists rest. f_equal. apply StronglySorted_inv in Hs as [_ Hle].
  rewrite Hp in Hp'. assert (m ∈ meta :: metas) as Hm by (rewrite -Hp'; by left).
  apply elem_of_cons in Hm as [->|Hm]; [done|].
  assert (meta ∈ m :: rest) as Hin by (rewrite Hp'; by left).
  apply elem_of_cons in Hin as [->|Hin]; [done|].
  rewrite Forall_forall in Hle. rewrite Forall_forall in Hall.
  specialize (Hle _ Hin). specialize (Hall _ Hm). simpl in *. lia.
Qed.
End listing.

#[local] Set Default Proof Using "Type*".

Section roundtrip.
Context `{Crypto, EventCodec, SnapshotFiles, !EventCodecLaws}.

(** Writing out the lines of a log gives the log. *)
Lemma chunk_text_lines raw evs : log_repr raw evs → chunk_text (lines raw) = raw.
Proof.
  intros Hr. rewrite (rows_lines _ event_one_line _ _ Hr). apply to_bytes_inj.
  rewrite /log_repr /rows_repr in Hr. rewrite Hr. clear Hr. induction evs as [|e evs IH]; [done|].
  cbn [fmap list_fmap chunk_text foldr concat]. fold (chunk_text (event_to_string <$> evs)).
  rewrite !to_bytes_app IH -app_assoc. done.
Qed.

(** What [create_snapshot] leaves: the copy, the segments and the metadata. *)
Lemma create_snapshot_run clk raw evs s :
  0 ≤ clk 0%nat → log_repr raw evs → event_log s = Some raw →
  ∃ segs d, let meta := mkSnapshotMeta (snapshot_id clk) (clk 1%nat) (Z.of_nat (length evs))
    (hash <$> last evs) (events_path clk) segs in
  create_snapshot clk s = (Ok meta, s <| snapshots := d |>)
  ∧ d !! events_path clk = Some raw ∧ d !! meta_path clk = Some (meta_to_string meta)
  ∧ segments_text d segs = Some raw ∧ (segs = [] ↔ lines raw = [])
  ∧ (∀ n, n ∈ segs → top_level n = false)
  ∧ ∀ p, p ≠ events_path clk → p ≠ meta_path clk → top_level p = true →
      d !! p = snapshots s !! p.
Proof.
  intros Hclk Hr Hs. destruct s as [lg d0 out]; simpl in Hs; subst lg.
  assert (top_level (events_path clk) = true) as Hte by by apply snapshot_id_top.
  assert (top_level (meta_path clk) = true) as Htm by by apply snapshot_id_top.
  set (d1 := <[events_path clk := raw]> d0).
  destruct (segment_loop_run (snapshot_id clk) (lines raw) [] 0 (mkStore (Some raw) d1 out))
    as (segs & d2 & Hrun & Ht & Hd & Hnil & Hn). rewrite app_nil_l in Ht Hnil.
  set (meta := mkSnapshotMeta (snapshot_id clk) (clk 1%nat) (Z.of_nat (length evs))
    (hash <$> last evs) (events_path clk) segs).
  exists segs, (<[meta_path clk := meta_to_string meta]> d2). split_and!.
  - rewrite /create_snapshot /open_log /write_snapshot_segments /write_snapshot_file.
    cbv [mbind stm_bind gets modify lift mret stm_ret]. rewrite /set_field /=.
    rewrite (log_get_all _ _ Hr) /=. fold (snapshot_id clk). fold (events_path clk). fold d1.
    rewrite Hrun. done.
  - rewrite lookup_insert_ne; [|intros Heq; by eapply events_not_meta].
    rewrite Hd; [|intros k _; by apply top_not_segment]. by rewrite /= /d1 lookup_insert_eq.
  - by rewrite lookup_insert_eq.
  - rewrite -(chunk_text_lines raw evs Hr) -Ht. apply segments_text_ext. intros n Hin.
    rewrite lookup_insert_ne //. destruct (Hn n Hin) as (k & _ & ->). by apply top_not_segment.
  - done.
  - intros n Hin. destruct (Hn n Hin) as (k & _ & ->). apply segment_not_top.
  - intros p Hpe Hpm Hp. rewrite lookup_insert_ne // Hd; [|intros k _; by apply top_not_segment].
    by rewrite /= /d1 lookup_insert_ne.
Qed.

Lemma valid_text raw : log_valid raw → text_valid raw = true.
Proof.
  intros (evs & Hr & Hc). rewrite /text_valid /verify_chain (log_get_all _ _ Hr) /=.
  by rewrite (proj2 (verify_from_iff None evs) Hc).
Qed.

Lemma create_then_recover `{!SnapshotFilesLaws} clk clk' raw s metas r s1 s2 :
  log_valid raw → event_log s = Some raw → 0 ≤ clk 0%nat → snapshots s !! meta_path clk = None →
  outcome list_snapshots s = Ok metas → Forall (λ m, sm_created_at m < clk 1%nat) metas →
  create_snapshot clk s = (r, s1) →
  log_good s2 = false →
  snapshots s2 = snapshots s1 ∨ raw ≠ "" ∧ snapshots s2 = delete (events_path clk) (snapshots s1) →
  ∃ meta, r = Ok meta
  ∧ recover_if_corrupt clk' s2 = (Ok (Some meta), s2 <| event_log := Some raw |>).
Proof.
  intros Hv Hs Hclk Hnew Hl Hold Hcr Hbad Hd2. pose proof Hv as (evs & Hr & _).
  destruct (create_snapshot_run clk raw evs s Hclk Hr Hs)
    as (segs & d & Hrun & Hev & Hme & Hseg & Hnil & Htop & Hoth).
  set (meta := mkSnapshotMeta _ _ _ _ _ _) in Hrun, Hme. rewrite Hrun in Hcr.
  injection Hcr as <- <-. exists meta. split; [done|]. rewrite /set_field /= in Hd2.
  rewrite list_snapshots_outcome in Hl. destruct (collect _ _) as [ms|] eqn:Hc; [|done].
  injection Hl as <-.
  assert (∀ q, q ≠ events_path clk → snapshots s2 !! q = d !! q) as Hsame.
  { intros q Hq. destruct Hd2 as [->|[_ ->]]; [done|]. by rewrite lookup_delete_ne. }
  destruct (listing_grows (snapshots s) (snapshots s2) (meta_path clk) meta ms)
    as (ms' & Hc' & Hp); try done.
  - apply meta_path_ends.
  - by apply snapshot_id_top.
  - rewrite Hsame //. intros Heq. by apply (events_not_meta (snapshot_id clk)).
  - intros q Hq He Ht. assert (q ≠ events_path clk) by (intros ->; by rewrite events_path_ends in He).
    rewrite Hsame // Hoth //.
  - destruct (newest_first meta ms ms' Hp) as [rest Hfirst].
    { apply Forall_forall. intros m Hm. rewrite Forall_forall in Hold. apply (Hold m).
      by apply elem_of_sort_by. }
    assert (usable (snapshots s2) meta = Some raw) as Hu.
    { rewrite /usable /snapshot_text. cbn [event_file segment_files meta].
      destruct Hd2 as [->|[Hne ->]]; [by rewrite Hev /= (valid_text raw Hv)|].
      rewrite lookup_delete_eq. destruct segs as [|n segs'] eqn:Es.
      { destruct Hne. rewrite -(chunk_text_lines raw evs Hr). by rewrite (proj1 Hnil). }
      rewrite (segments_text_ext _ d) ?Hseg /= ?(valid_text raw Hv) //.
      intros m Hm. rewrite lookup_delete_ne //. intros <-.
      specialize (Htop _ Hm). by rewrite snapshot_id_top in Htop. }
    destruct (recover_if_corrupt clk' s2) as [r' s'] eqn:E.
    destruct (recover_run _ _ _ _ _ E) as (Hsn & Hou & Hrec).
    rewrite Hbad list_snapshots_outcome Hc' Hfirst in Hrec. cbn [find_first] in Hrec.
    rewrite (bool_decide_eq_true_2 (is_Some (usable (snapshots s2) meta))) in Hrec; [|by rewrite Hu].
    destruct Hrec as [-> Hlog]. rewrite Hu in Hlog.
    destruct s2, s'; simpl in *. by subst.
Qed.

(** A snapshot taken of a verified log brings the log back. However the log
    is damaged afterwards, as long as it does not verify, recovery restores the
    very text the snapshot was taken of and reports that snapshot; this holds
    even when the copied log file of the snapshot is lost, since its segments
    hold the same text. *)
Theorem snapshot_recovers `{!SnapshotFilesLaws} clk clk' raw s metas r s1 s2 :
  log_valid raw → event_log s = Some raw → 0 ≤ clk 0%nat → snapshots s !! meta_path clk = None →
  outcome list_snapshots s = Ok metas → Forall (λ m, sm_created_at m < clk 1%nat) metas →
  create_snapshot clk s = (r, s1) →
  log_good s2 = false →
  snapshots s2 = snapshots s1 ∨ raw ≠ "" ∧ snapshots s2 = delete (events_path clk) (snapshots s1) →
  ∃ meta, r = Ok meta
  ∧ recover_if_corrupt clk' s2 = (Ok (Some meta), s2 <| event_log := Some raw |>).
Proof. apply create_then_recover. Qed.
End roundtrip.

Section startup.
Context `{Crypto, EventCodec, SnapshotFiles, Recovery}.

(** A node that starts has a verified log: when start-up recovery succeeds,
    the log file is there and its chain verifies, whatever the snapshots, the
    outside files and the remote sources hold. *)
Theorem startup_log_verifies clk sources s s' :
  startup_recover_events clk sources s = (Ok tt, s') →
  ∃ raw, event_log s' = Some raw ∧ ∃ note, verify_chain raw = Ok (true, note).
Proof.
  rewrite /startup_recover_events. intros (? & s1 & _ & Hrun)%bind_ok_inv.
  apply bind_ok_inv in Hrun as (v1 & s2 & _ & Hrun).
  apply bind_ok_inv in Hrun as (? & s3 & _ & Hrun).
  apply bind_ok_inv in Hrun as (v & s4 & Hv & Hrun). apply ensure_ok_inv in Hrun as [-> ->].
  rewrite valid_run in Hv. injection Hv as Hg <-. exists (log_text s3). split; [done|].
  rewrite /log_good /text_valid in Hg.
  destruct (verify_chain (log_text s3)) as [[valid note]|]; [|done]. subst valid. by exists note.
Qed.

(** A log file that is gone counts as an empty log, which verifies: recovery
    leaves it empty, whatever snapshots there are. *)
Theorem missing_log_not_recovered clk sources s :
  event_log s = None →
  recover_if_corrupt_with_sources clk sources s = (Ok None, s <| event_log := Some "" |>).
Proof.
  intros Hs. destruct (recover_if_corrupt_with_sources clk sources s) as [r s'] eqn:E.
  destruct (recover_run _ _ _ _ _ E) as (_ & _ & Hr).
  assert (log_good s = true) as Hg by by rewrite /log_good /log_text Hs.
  rewrite Hg in Hr. destruct Hr as [-> ->]. by rewrite /touched /log_text Hs.
Qed.

(** One metadata file that does not parse blocks recovery from every snapshot
    and from every outside file. *)
Theorem broken_metadata_blocks `{!SnapshotFilesLaws} clk sources s p text :
  log_good s = false → snapshots s !! p = Some text → meta_from_str text = None →
  ends_with ".meta.json" p = true → top_level p = true →
  is_ok (outcome (recover_if_corrupt_with_sources clk sources) s) = false.
Proof.
  intros Hbad Hp Hm He Ht.
  destruct (recover_if_corrupt_with_sources clk sources s) as [r s'] eqn:E.
  rewrite /outcome E. destruct (recover_run _ _ _ _ _ E) as (_ & _ & Hr).
  rewrite Hbad list_snapshots_outcome in Hr.
  assert (p ∈ meta_paths (snapshots s)) as Hin by (apply elem_of_meta_paths; eauto).
  assert (∃ e, collect (read_meta (snapshots s)) (meta_paths (snapshots s)) = Err e) as [e He'].
  { clear Hr E. induction (meta_paths (snapshots s)) as [|q ps IH]; [by apply elem_of_nil in Hin|].
    cbn [collect]. apply elem_of_cons in Hin as [<-|Hin].
    - assert (read_meta (snapshots s) p = Err "parse snapshot metadata") as ->
        by by rewrite /read_meta Hp /= Hm.
      by eexists.
    - destruct (read_meta _ q); simpl; [|by eexists].
      destruct (IH Hin) as [e ->]. by eexists. }
  rewrite He' in Hr. by destruct Hr as [-> _].
Qed.
End startup.

(** ** Migration of a data directory *)

Module Migration.

(** What the migration uses of [semver::Version]. *)
Class SemVer := {
  version : Type;
  version_parse : string → option version;
  version_to_string : version → string;
  version_ltb : version → version → bool;
  major : version → Z;
  minor : version → Z;
}.
Class SemVerLaws `{SemVer} : Prop := {
  version_roundtrip v : version_parse (trim (version_to_string v)) = Some v;
  version_ltb_irrefl v : version_ltb v v = false;
}.

(** The directory: its version file and the two directories a migration makes. *)
Record DataDir := mkDataDir {
  schema_version : option string;
  has_policy : bool;
  has_mcp : bool;
}.
#[export] Instance DataDir_eta : Eta DataDir := λ d,
  mkDataDir (schema_version d) (has_policy d) (has_mcp d).

Record MigrationReport := mkMigrationReport {
  from_version : string;
  to_version : string;
  steps : list string;
}.

Section migration.
Context `{SemVer}.

Definition migrate_data_dir (target : string) : stm DataDir MigrationReport :=
  target_version ← lift (ok_or "parse target migration version" (version_parse target));
  current_raw ← gets (λ d, default "0.1.0" (schema_version d));
  current_version ← lift (ok_or "parse current schema.version" (version_parse (trim current_raw)));
  ensure (negb (version_ltb target_version current_version)) "downgrade migration is not supported";;
  let step := (major current_version =? 0) && (minor current_version <=? 1)
              && (2 <=? minor target_version) in
  (if step then modify (λ d, d <| has_policy := true |> <| has_mcp := true |>) else mret tt);;
  modify (λ d, d <| schema_version := Some (version_to_string target_version) |>);;
  mret (mkMigrationReport (version_to_string current_version) (version_to_string target_version)
    ((if step then ["created policy/ and mcp/ directories"] else [])
     ++ ["set schema.version from " +:+ version_to_string current_version +:+ " to "
         +:+ version_to_string target_version])).

(** At the target already, a migration changes nothing. *)
Lemma migrate_again `{!SemVerLaws} target v d :
  version_parse target = Some v → schema_version d = Some (version_to_string v) →
  ∃ rep, migrate_data_dir target d = (Ok rep, d).
Proof.
  intros Hv Hd. rewrite /migrate_data_dir. cbv [mbind stm_bind lift gets ensure modify].
  rewrite Hv /= Hd /= version_roundtrip /= version_ltb_irrefl /=.
  assert ((major v =? 0) && (minor v <=? 1) && (2 <=? minor v) = false) as ->.
  { destruct (Z.leb_spec (minor v) 1), (Z.leb_spec 2 (minor v)), (major v =? 0); done || lia. }
  eexists. destruct d; simpl in *. by subst.
Qed.

(** A migration that succeeds leaves the target version in the directory,
    never removes a directory, and repeating it succeeds and changes nothing; one
    that fails changes nothing at all. *)
Theorem migrate_spec `{!SemVerLaws} target v d r d' :
  version_parse target = Some v → migrate_data_dir target d = (r, d') →
  match r with
  | Err _ => d' = d
  | Ok rep =>
      schema_version d' = Some (version_to_string v) ∧ to_version rep = version_to_string v
      ∧ (has_policy d = true → has_policy d' = true) ∧ (has_mcp d = true → has_mcp d' = true)
      ∧ ∃ rep', migrate_data_dir target d' = (Ok rep', d')
  end.
Proof.
  intros Hv Hrun. destruct r as [rep|e].
  - rewrite /migrate_data_dir in Hrun. run_inv;
      (match goal with Ht : version_parse target = Some ?x |- _ =>
         rewrite Hv in Ht; injection Ht as <- end);
      (split_and!; [done..|]); by apply (migrate_again target v).
  - revert Hrun. rewrite /migrate_data_dir. stm_cases; congruence.
Qed.
End migration.

(** Three versions and their texts. *)
Module MigrationScenario.

Inductive demo_version : Type := V010 | V020 | V100.

#[export] Instance demo_semver : SemVer := {|
  version := demo_version;
  version_parse s :=
    if String.eqb s "0.1.0" then Some V010 else if String.eqb s "0.2.0" then Some V020
    else if String.eqb s "1.0.0" then Some V100 else None;
  version_to_string v := match v with V010 => "0.1.0" | V020 => "0.2.0" | V100 => "1.0.0" end;
  version_ltb v w :=
    match v, w with V010, V020 | V010, V100 | V020, V100 => true | _, _ => false end;
  major v := match v with V100 => 1 | _ => 0 end;
  minor v := match v with V010 => 1 | V020 => 2 | V100 => 0 end;
|}.

#[export] Instance demo_semver_laws : SemVerLaws.
Proof. split; by intros []. Qed.

Definition fresh : DataDir := mkDataDir None false false.

(** Migrating from 0.1 to 1.0 sets the version without making the directories
    that the step to 0.2 makes: the step looks at the target's minor number
    alone. *)
Theorem major_target_skips_step :
  exec (migrate_data_dir "0.2.0") fresh = mkDataDir (Some "0.2.0") true true
  ∧ exec (migrate_data_dir "1.0.0") fresh = mkDataDir (Some "1.0.0") false false
  ∧ exec (migrate_data_dir "1.0.0") (exec (migrate_data_dir "0.2.0") fresh)
    = mkDataDir (Some "1.0.0") true true.
Proof. done. Qed.

Lemma migrate_spec_witness :
  schema_version (exec (migrate_data_dir "0.2.0") fresh) = Some "0.2.0".
Proof.
  exact (proj1 (migrate_spec "0.2.0" V020 fresh (outcome (migrate_data_dir "0.2.0") fresh)
    (exec (migrate_data_dir "0.2.0") fresh) eq_refl eq_refl)).
Defined.
End MigrationScenario.
End Migration.

(** ** A recovered log *)

Module SnapshotScenario.
Import EventLog.LogScenario.

Definition meta_tuple (m : SnapshotMeta) :=
  (sm_id m, sm_created_at m, event_count m, sm_last_hash m, event_file m, segment_files m).

#[export] Instance demo_files : SnapshotFiles := {|
  meta_to_string m := show_Z (Z.pos (encode (meta_tuple m)));
  meta_from_str s :=
    t ← decode (Z.to_pos (dec 0 (to_bytes s)));
    let '(i, c, n, h, f, segs) := t in Some (mkSnapshotMeta i c n h f segs);
  read_dir d := List.filter top_level (btree_entries d).*1;
|}.

#[export] Instance demo_files_laws : SnapshotFilesLaws.
Proof.
  split; [|done]. intros m. cbn [meta_to_string meta_from_str demo_files].
  destruct (show_Z_decimal (Z.pos (encode (meta_tuple m)))) as (_ & -> & _); [done|].
  cbn [Z.to_pos]. rewrite decode_encode. by destruct m.
Qed.

Definition store : Store := mkStore (Some raw1) ∅ ∅.
Definition taken : result SnapshotMeta * Store := create_snapshot clk store.
Definition damaged : Store :=
  mkStore (Some "{bad") (delete (events_path clk) (snapshots taken.2)) ∅.

Lemma snapshot_recovers_witness :
  ∃ meta, taken.1 = Ok meta
  ∧ recover_if_corrupt clk damaged = (Ok (Some meta), damaged <| event_log := Some raw1 |>).
Proof.
  apply (snapshot_recovers clk clk raw1 store [] taken.1 taken.2 damaged).
  - exact (reachable_log_valid raw1 raw1_reachable).
  - reflexivity.
  - vm_compute. discriminate.
  - apply lookup_empty.
  - vm_compute. reflexivity.
  - constructor.
  - exact (surjective_pairing taken).
  - change (text_valid "{bad" = false). vm_compute. reflexivity.
  - right. split; [|reflexivity]. vm_compute. discriminate.
Defined.

Lemma recover_spec_witness :
  (exec (recover_if_corrupt_with_sources clk []) (mkStore None ∅ ∅)) = mkStore (Some "") ∅ ∅.
Proof.
  destruct (recover_spec clk [] (mkStore None ∅ ∅)
    (outcome (recover_if_corrupt_with_sources clk []) (mkStore None ∅ ∅))
    (exec (recover_if_corrupt_with_sources clk []) (mkStore None ∅ ∅)) eq_refl) as (_ & _ & Hr).
  exact (proj2 Hr).
Defined.

(** A recovery that fails has already replaced the log. *)
Example failed_recovery_overwrites :
  let s := mkStore (Some "{bad") ∅ {["peer" := "worse"]} in
  is_ok (outcome (recover_if_corrupt_with_sources clk ["peer"]) s) = false
  ∧ event_log (exec (recover_if_corrupt_with_sources clk ["peer"]) s) = Some "worse".
Proof. vm_compute. done. Qed.

#[export] Instance demo_recovery : Recovery := {|
  fetch _ := None;
  rows_from_array _ := None;
  value_from_str _ := None;
  rows_from_value _ := None;
|}.

Lemma startup_log_verifies_witness :
  ∃ raw, event_log (exec (startup_recover_events clk []) store) = Some raw
  ∧ ∃ note, verify_chain raw = Ok (true, note).
Proof.
  apply (startup_log_verifies clk [] store). vm_compute. reflexivity.
Defined.

Lemma missing_log_not_recovered_witness :
  recover_if_corrupt_with_sources clk [] (mkStore None {["a.events.jsonl" := raw1]} ∅)
  = (Ok None, mkStore None {["a.events.jsonl" := raw1]} ∅ <| event_log := Some "" |>).
Proof. by apply missing_log_not_recovered.
Defined.

Lemma broken_metadata_blocks_witness :
  is_ok (outcome (recover_if_corrupt_with_sources clk [])
    (mkStore (Some "{bad") {["x.meta.json" := "1"]} ∅)) = false.
Proof.
  apply (broken_metadata_blocks clk [] _ "x.meta.json" "1").
  - change (text_valid "{bad" = false). vm_compute. reflexivity.
  - apply lookup_singleton_eq.
  - vm_compute. reflexivity.
  - reflexivity.
  - by apply bool_decide_eq_true, (bool_decide_unpack _).
Defined.
End SnapshotScenario.
