(* ===== verification/Oracle.v ===== *)
(** * Oracle feeds

    [governance/oracle.rs]: signed feeds with a price, subscriptions, watt
    balances and the settled pull that charges a subscriber and pays the
    publishers. Operations also append to an event log when one is given; the
    log is used through the interface [SignedLog]. *)

From S2P Require Import Prelude Collections Text Json Signing EventLog.
#[local] Open Scope Z_scope.
#[local] Set Default Proof Using "Type*".

Record OracleFeed := mkOracleFeed {
  feed_id : string;
  publisher : string;
  feed_timestamp : Z;
  feed_payload : json;
  price_watt : Z;
  feed_signature : string;
}.

Record OracleSubscription := mkOracleSubscription {
  sub_agent_did : string;
  sub_feed_id : string;
  max_price_watt : Z;
  subscribed_at : Z;
}.

Record OracleSettlement := mkOracleSettlement {
  set_agent_did : string;
  set_feed_id : string;
  delivered_count : nat;
  charged_watt : Z;
  balance_after : Z;
}.

Record OracleRegistry := mkOracleRegistry {
  feeds : gmap string (list OracleFeed);
  subscriptions : list OracleSubscription;
  balances : gmap string Z;
  delivered : gmap string (gset string);
}.
#[global] Instance eta_OracleRegistry : Eta OracleRegistry := λ r,
  mkOracleRegistry (feeds r) (subscriptions r) (balances r) (delivered r).
Definition default_oracle : OracleRegistry := mkOracleRegistry ∅ [] ∅ ∅.

(** The struct [SignableFeed]. *)
Definition signable_feed (fid pub : string) (ts : Z) (pl : json) (price : Z) : json :=
  JObject [("feed_id", JString fid); ("publisher", JString pub); ("timestamp", json_of_Z ts);
           ("payload", pl); ("price_watt", json_of_Z price)].

(** The derived serialisations, as logged. *)
Definition json_of_feed (f : OracleFeed) : json :=
  JObject [("feed_id", JString (feed_id f)); ("publisher", JString (publisher f));
           ("timestamp", json_of_Z (feed_timestamp f)); ("payload", feed_payload f);
           ("price_watt", json_of_Z (price_watt f)); ("signature", JString (feed_signature f))].
Definition json_of_subscription (s : OracleSubscription) : json :=
  JObject [("agent_did", JString (sub_agent_did s)); ("feed_id", JString (sub_feed_id s));
           ("max_price_watt", json_of_Z (max_price_watt s));
           ("subscribed_at", json_of_Z (subscribed_at s))].
Definition json_of_settlement (s : OracleSettlement) : json :=
  JObject [("agent_did", JString (set_agent_did s)); ("feed_id", JString (set_feed_id s));
           ("delivered", json_of_Z (Z.of_nat (delivered_count s)));
           ("charged_watt", json_of_Z (charged_watt s));
           ("balance_after", json_of_Z (balance_after s))].

(** ** Queries *)

Definition balance_of (st : OracleRegistry) (who : string) : Z := default 0 (balances st !! who).

Definition eligible_feeds (st : OracleRegistry) (fid : string) (max_price : Z)
    : list OracleFeed :=
  List.filter (λ f, price_watt f <=? max_price) (default [] (feeds st !! fid)).

Definition list_subscriptions (st : OracleRegistry) (who : string) : list OracleSubscription :=
  List.filter (λ s, String.eqb (sub_agent_did s) who) (subscriptions st).

Definition all_feeds (st : OracleRegistry) : list OracleFeed :=
  sort_by_key_rev feed_timestamp (concat (btree_values (feeds st))).

Definition find_subscription (st : OracleRegistry) (who fid : string)
    : option OracleSubscription :=
  find_first (λ s, String.eqb (sub_agent_did s) who && String.eqb (sub_feed_id s) fid)
    (subscriptions st).

Section oracle.
Context `{Crypto} {L : Type} `{!SignedLog L}.

Definition verify_feed_signature (f : OracleFeed) : result bool :=
  verify_payload (signable_feed (feed_id f) (publisher f) (feed_timestamp f) (feed_payload f)
                    (price_watt f)) (feed_signature f) (publisher f).

Definition pull_for_subscriber (st : OracleRegistry) (who fid : string)
    : result (list OracleFeed) :=
  s ← ok_or "subscription not found" (find_subscription st who fid);
  let fs := eligible_feeds st fid (max_price_watt s) in
  collect (λ f, ok ← verify_feed_signature f;
                if negb ok then Err "oracle feed signature verification failed" else Ok f) fs;;
  Ok (sort_by_key_rev feed_timestamp fs).

(** ** Operations

    The state is the registry together with the optional event log. *)

Definition oracle_state : Type := OracleRegistry * option L.

Definition on_registry (f : OracleRegistry → OracleRegistry) : stm oracle_state unit :=
  modify (λ s, (f s.1, s.2)).

(** [if let Some(log) = event_log { log.append_signed_with_signer(..)?; }] *)
Definition log_event (clk : clock) (uuid ty : string) (pl : json) (signer : PayloadSigner)
    : stm oracle_state unit :=
  λ s, match s.2 with
       | None => (Ok tt, s)
       | Some l =>
           let '(r, l') := log_append clk uuid ty pl signer l in
           (match r with Ok _ => Ok tt | Err e => Err e end, (s.1, Some l'))
       end.

(** [entry(..).or_default().push(..)]. *)
Definition push_feed (f : OracleFeed) (st : OracleRegistry) : OracleRegistry :=
  st <| feeds ::= λ m, <[feed_id f := default [] (m !! feed_id f) ++ [f]]> m |>.

Definition publish_with_signer (clk : clock) (uuid fid : string) (pl : json) (price : Z)
    (identity_did : string) (signer : PayloadSigner) : stm oracle_state OracleFeed :=
  let ts := clk 0%nat in
  sig ← lift (sign_payload_with (signable_feed fid identity_did ts pl price) signer);
  let f := {| feed_id := fid; publisher := identity_did; feed_timestamp := ts;
              feed_payload := pl; price_watt := price; feed_signature := sig |} in
  on_registry (push_feed f);;
  log_event (λ n, clk (S n)) uuid "ORACLE_FEED_PUBLISHED" (json_of_feed f) signer;;
  mret f.

Definition ingest_feed_with_signer (clk : clock) (uuid : string) (f : OracleFeed)
    (local_identity : option string) (signer : option PayloadSigner) : stm oracle_state bool :=
  ok ← lift (verify_feed_signature f);
  ensure ok "oracle feed signature verification failed";;
  existing ← gets (λ s : oracle_state, existsb
    (λ row, String.eqb (feed_signature row) (feed_signature f))
    (default [] (feeds s.1 !! feed_id f)));
  if (existing : bool) then mret false
  else
    on_registry (push_feed f);;
    match local_identity, signer with
    | Some _, Some sg => log_event clk uuid "ORACLE_FEED_INGESTED" (json_of_feed f) sg
    | _, _ => mret tt
    end;;
    mret true.

Definition credit (who : string) (amount : Z) : stm oracle_state Z :=
  ensure (negb (amount <=? 0)) "credit amount must be positive";;
  on_registry (λ st, st <| balances ::= <[who := i64_add (balance_of st who) amount]> |>);;
  gets (λ s : oracle_state, balance_of s.1 who).

Definition subscribe_with_signer (clk : clock) (uuid who fid : string) (max_price : Z)
    (signer : PayloadSigner) : stm oracle_state OracleSubscription :=
  let s := {| sub_agent_did := who; sub_feed_id := fid; max_price_watt := max_price;
              subscribed_at := clk 0%nat |} in
  on_registry (λ st, st <| subscriptions ::= λ l, l ++ [s] |>);;
  log_event (λ n, clk (S n)) uuid "ORACLE_SUBSCRIBE" (json_of_subscription s) signer;;
  mret s.

(** *** The settled pull *)

(** The loop that verifies, skips what was delivered and adds up the cost. *)
Fixpoint select_new (seen : gset string) (fs : list OracleFeed) (cost : Z)
    (acc : list OracleFeed) : result (Z * list OracleFeed) :=
  match fs with
  | [] => Ok (cost, acc)
  | f :: fs' =>
      ok ← verify_feed_signature f;
      if negb ok then Err "oracle feed signature verification failed"
      else if bool_decide (feed_signature f ∈ seen) then select_new seen fs' cost acc
      else select_new seen fs' (i64_add cost (price_watt f)) (acc ++ [f])
  end.

(** The loop that marks one item delivered and pays its publisher. *)
Definition pay_item (key : string) (st : OracleRegistry) (f : OracleFeed) : OracleRegistry :=
  st <| delivered ::= λ d, <[key := {[feed_signature f]} ∪ default ∅ (d !! key)]> d |>
     <| balances ::= λ b,
          <[publisher f := i64_add (default 0 (b !! publisher f)) (price_watt f)]> b |>.

Definition charge (who : string) (cost : Z) (st : OracleRegistry) : OracleRegistry :=
  if 0 <? cost
  then st <| balances ::= λ b, <[who := i64_sub (default 0 (b !! who)) cost]> b |> else st.

(** [self.delivered.entry(delivery_key).or_default()]. *)
Definition touch_delivered (key : string) (st : OracleRegistry) : OracleRegistry :=
  st <| delivered ::= λ d, <[key := default ∅ (d !! key)]> d |>.

Definition settle_items (who key : string) (cost : Z) (items : list OracleFeed)
    (st : OracleRegistry) : OracleRegistry :=
  foldl (pay_item key) (touch_delivered key (charge who cost st)) items.

Definition pull_for_subscriber_settled_with_signer (clk : clock) (uuid who fid : string)
    (signer : PayloadSigner) : stm oracle_state (list OracleFeed * OracleSettlement) :=
  s ← gets (λ s : oracle_state, find_subscription s.1 who fid);
  s ← lift (ok_or "subscription not found" s);
  fs ← gets (λ st : oracle_state,
    sort_by_key feed_timestamp (eligible_feeds st.1 fid (max_price_watt s)));
  let key := who +:+ ":" +:+ fid in
  seen ← gets (λ st : oracle_state, default ∅ (delivered st.1 !! key));
  '(cost, items) ← lift (select_new seen fs 0 []);
  bal ← gets (λ st : oracle_state, balance_of st.1 who);
  ensure (negb (bal <? cost))
    ("insufficient watt balance for oracle pull: required=" +:+ show_Z cost +:+ ", available="
     +:+ show_Z bal);;
  on_registry (settle_items who key cost items);;
  after ← gets (λ st : oracle_state, balance_of st.1 who);
  let settlement := {| set_agent_did := who; set_feed_id := fid;
                       delivered_count := length items; charged_watt := cost;
                       balance_after := after |} in
  log_event clk uuid "ORACLE_SETTLEMENT" (json_of_settlement settlement) signer;;
  mret (sort_by_key_rev feed_timestamp fs, settlement).
End oracle.

(** ** Watt is conserved *)

Definition total (b : gmap string Z) : Z := map_fold (λ _ v acc, v + acc) 0 b.

Lemma total_insert b k v : total (<[k := v]> b) = total b - default 0 (b !! k) + v.
Proof.
  rewrite /total. destruct (b !! k) as [x|] eqn:E; simpl.
  - rewrite -(insert_delete_id b k x E) insert_insert_eq.
    rewrite !map_fold_insert_L; try (intros; lia); apply lookup_delete_eq.
  - rewrite map_fold_insert_L; [lia|intros; lia|done].
Qed.

Lemma total_empty : total ∅ = 0.
Proof. apply map_fold_empty. Qed.

Definition nonneg (b : gmap string Z) : Prop := map_Forall (λ _ v, 0 ≤ v) b.

Lemma default_nonneg b k : nonneg b → 0 ≤ default 0 (b !! k).
Proof. intros Hb. destruct (b !! k) eqn:E; simpl; [exact (Hb _ _ E)|lia]. Qed.

Lemma default_le_total b k : nonneg b → default 0 (b !! k) ≤ total b.
Proof.
  revert k. induction b as [|i x b Hi IH] using map_ind; intros k Hb.
  { rewrite lookup_empty total_empty. done. }
  apply map_Forall_insert in Hb as [Hx Hb]; [|done].
  rewrite total_insert Hi /=. destruct (decide (i = k)) as [->|].
  - rewrite lookup_insert_eq /=. specialize (IH k Hb). rewrite Hi /= in IH. lia.
  - rewrite lookup_insert_ne //. specialize (IH k Hb). lia.
Qed.

Definition prices (fs : list OracleFeed) : Z := zsum (price_watt <$> fs).

Lemma prices_cons f fs : prices (f :: fs) = price_watt f + prices fs.
Proof. done. Qed.

Lemma prices_nonneg fs : Forall (λ f, 0 ≤ price_watt f) fs → 0 ≤ prices fs.
Proof. intros Hp. apply zsum_nonneg, Forall_fmap. exact Hp. Qed.

Section settle.
Implicit Types (st : OracleRegistry) (fs items : list OracleFeed).

Lemma pay_item_total key st f :
  nonneg (balances st) → 0 ≤ price_watt f → total (balances st) + price_watt f ≤ i64_max →
  nonneg (balances (pay_item key st f))
  ∧ total (balances (pay_item key st f)) = total (balances st) + price_watt f.
Proof.
  intros Hb Hp Hmax. pose proof (default_nonneg _ (publisher f) Hb).
  pose proof (default_le_total _ (publisher f) Hb). simpl.
  rewrite total_insert /i64_add wrap_i64_id; [|rewrite /is_i64 /i64_min; lia].
  split; [|lia]. apply map_Forall_insert_2; [lia|done].
Qed.

Lemma pay_items_total key st items :
  nonneg (balances st) → Forall (λ f, 0 ≤ price_watt f) items →
  total (balances st) + prices items ≤ i64_max →
  nonneg (balances (foldl (pay_item key) st items))
  ∧ total (balances (foldl (pay_item key) st items)) = total (balances st) + prices items.
Proof.
  intros Hb Hp. revert st Hb.
  induction Hp as [|f items Hf Hp IH]; intros st Hb Hmax; [split; [done|simpl; rewrite /prices /=; lia]|].
  rewrite prices_cons in Hmax |- *. pose proof (prices_nonneg _ Hp). cbn [foldl].
  destruct (pay_item_total key st f) as [Hb' Ht']; [done|done|lia|].
  destruct (IH _ Hb') as [Hb'' Ht'']; [lia|]. split; [done|lia].
Qed.

Lemma charge_total who cost st :
  nonneg (balances st) → 0 ≤ cost ≤ balance_of st who → total (balances st) ≤ i64_max →
  nonneg (balances (charge who cost st))
  ∧ total (balances (charge who cost st)) = total (balances st) - cost.
Proof.
  rewrite /charge /balance_of => Hb Hc Hmax. destruct (Z.ltb_spec 0 cost); [|split; [done|lia]].
  pose proof (default_le_total _ who Hb). simpl.
  rewrite total_insert /i64_sub wrap_i64_id; [|rewrite /is_i64 /i64_min; lia].
  split; [|lia]. apply map_Forall_insert_2; [lia|done].
Qed.

Lemma settle_items_total who key cost items st :
  nonneg (balances st) → Forall (λ f, 0 ≤ price_watt f) items →
  cost = prices items → cost ≤ balance_of st who → total (balances st) ≤ i64_max →
  nonneg (balances (settle_items who key cost items st))
  ∧ total (balances (settle_items who key cost items st)) = total (balances st).
Proof.
  intros Hb Hp Hc Hbal Hmax.
  pose proof (prices_nonneg _ Hp).
  destruct (charge_total who cost st) as [Hb' Ht']; [done|lia|done|].
  rewrite /settle_items.
  destruct (pay_items_total key (touch_delivered key (charge who cost st)) items)
    as [Hb'' Ht'']; [done|done|simpl; lia|]. split; [done|]. simpl in Ht''. lia.
Qed.

(** What is marked as delivered. *)
Lemma pay_items_delivered key st items :
  default ∅ (delivered (foldl (pay_item key) st items) !! key)
  = list_to_set (feed_signature <$> items) ∪ default ∅ (delivered st !! key).
Proof.
  revert st. induction items as [|f items IH]; intros st; simpl; [set_solver|].
  rewrite IH /= lookup_insert_eq /=. set_solver.
Qed.

Lemma pay_items_feeds key st items :
  feeds (foldl (pay_item key) st items) = feeds st
  ∧ subscriptions (foldl (pay_item key) st items) = subscriptions st.
Proof.
  revert st. induction items as [|f items IH]; intros st; [done|]. simpl.
  by destruct (IH (pay_item key st f)) as [-> ->].
Qed.
End settle.

Section select.
Context `{Crypto}.

(** With non-negative prices that fit, the accumulated cost is the exact sum of
    the prices of the items selected, all of them new and verified. *)
Lemma select_new_spec seen fs cost acc c items :
  select_new seen fs cost acc = Ok (c, items) →
  0 ≤ cost → Forall (λ f, 0 ≤ price_watt f) fs → cost + prices fs ≤ i64_max →
  ∃ new, items = acc ++ new ∧ c = cost + prices new
    ∧ new = List.filter (λ f, negb (bool_decide (feed_signature f ∈ seen))) fs
    ∧ Forall (λ f, verify_feed_signature f = Ok true) fs.
Proof.
  intros Hsel Hcost Hp. revert cost acc Hsel Hcost.
  induction Hp as [|f fs Hf Hp IH]; intros cost acc; simpl.
  { intros [= <- <-] _ _. exists []. rewrite app_nil_r /prices /=. split_and!; [done|lia|done|done]. }
  destruct (verify_feed_signature f) as [[]|] eqn:Hv; simpl; [|done..].
  pose proof (prices_nonneg _ Hp).
  case_bool_decide as Hin; simpl; intros Hsel Hcost; rewrite prices_cons => Hmax.
  - destruct (IH _ _ Hsel Hcost) as (new & -> & -> & Hnew & Hall); [lia|].
    exists new. split_and!; try done. by constructor.
  - rewrite /i64_add wrap_i64_id in Hsel; [|rewrite /is_i64 /i64_min; lia].
    destruct (IH _ _ Hsel) as (new & -> & -> & Hnew & Hall); [lia..|].
    exists (f :: new). rewrite -app_assoc prices_cons /= -Hnew. split_and!; [done|lia|done|by constructor].
Qed.

Lemma select_new_none seen fs cost acc :
  Forall (λ f, verify_feed_signature f = Ok true ∧ feed_signature f ∈ seen) fs →
  select_new seen fs cost acc = Ok (cost, acc).
Proof.
  intros Hall. revert acc. induction Hall as [|f fs [Hv Hin] _ IH]; intros acc; simpl; [done|].
  by rewrite Hv /= bool_decide_eq_true_2.
Qed.
End select.

Lemma settle_items_feeds who key cost items st :
  feeds (settle_items who key cost items st) = feeds st
  ∧ subscriptions (settle_items who key cost items st) = subscriptions st.
Proof.
  rewrite /settle_items.
  destruct (pay_items_feeds key (touch_delivered key (charge who cost st)) items) as [-> ->].
  rewrite /= /charge. by case_match.
Qed.

(** After settling the new items of [fs], nothing in [fs] is new. *)
Lemma select_after_settle `{Crypto} who key cost items fs st :
  items = List.filter
    (λ f, negb (bool_decide (feed_signature f ∈ default ∅ (delivered st !! key)))) fs →
  Forall (λ f, verify_feed_signature f = Ok true) fs →
  select_new (default ∅ (delivered (settle_items who key cost items st) !! key)) fs 0 []
  = Ok (0, []).
Proof.
  intros Hfil Hall. apply select_new_none. rewrite Forall_forall in Hall.
  apply Forall_forall. intros f Hin. split; [by apply Hall|].
  rewrite /settle_items pay_items_delivered.
  destruct (decide (feed_signature f ∈ default ∅ (delivered st !! key))) as [Hd|Hd].
  - apply elem_of_union_r. simpl. rewrite lookup_insert_eq /= /charge. by case_match.
  - apply elem_of_union_l, elem_of_list_to_set, list_elem_of_fmap. exists f. split; [done|].
    rewrite Hfil. apply elem_of_filterb. split; [done|]. by rewrite bool_decide_eq_false_2.
Qed.

Lemma Forall_sort {A} (P : A → Prop) key (l : list A) : Forall P (sort_by_key key l) ↔ Forall P l.
Proof. by rewrite /sort_by_key sort_by_perm. Qed.

Lemma prices_perm fs fs' : fs ≡ₚ fs' → prices fs = prices fs'.
Proof. intros Hp. rewrite /prices. apply zsum_perm. by rewrite Hp. Qed.

Lemma prices_filter_le (P : OracleFeed → bool) fs :
  Forall (λ f, 0 ≤ price_watt f) fs → prices (List.filter P fs) ≤ prices fs.
Proof.
  induction 1 as [|f fs Hf _ IH]; [done|]. rewrite prices_cons. simpl.
  destruct (P f); rewrite ?prices_cons; lia.
Qed.

Lemma Forall_filterb {A} (Q : A → Prop) (P : A → bool) l : Forall Q l → Forall Q (List.filter P l).
Proof. induction 1; simpl; [constructor|]. case_match; [by constructor|done]. Qed.

(** The prices of a feed are not negative and their sum fits 64 bits. *)
Definition sound_prices (st : OracleRegistry) (fid : string) : Prop :=
  Forall (λ f, 0 ≤ price_watt f) (default [] (feeds st !! fid))
  ∧ prices (default [] (feeds st !! fid)) ≤ i64_max.

Lemma eligible_sound st fid mx :
  sound_prices st fid →
  let fs := sort_by_key feed_timestamp (eligible_feeds st fid mx) in
  Forall (λ f, 0 ≤ price_watt f) fs ∧ prices fs ≤ i64_max.
Proof.
  intros [Hp Hmax]. simpl. rewrite Forall_sort. split; [by apply Forall_filterb|].
  rewrite (prices_perm _ (eligible_feeds st fid mx)); [|apply sort_by_perm].
  etrans; [by apply prices_filter_le|done].
Qed.

Section pull.
Context `{Crypto} {L : Type} `{!SignedLog L}.

(** A run of the settled pull either fails before it touches the registry or
    settles the new items of the subscription, whatever the log does. *)
Lemma pull_cases clk uuid who fid signer st (log : option L) :
  let out := pull_for_subscriber_settled_with_signer clk uuid who fid signer (st, log) in
  (is_ok out.1 = false ∧ out.2 = (st, log))
  ∨ ∃ s cost items,
      find_subscription st who fid = Some s
      ∧ select_new (default ∅ (delivered st !! (who +:+ ":" +:+ fid)))
          (sort_by_key feed_timestamp (eligible_feeds st fid (max_price_watt s))) 0 []
        = Ok (cost, items)
      ∧ cost ≤ balance_of st who
      ∧ out.2.1 = settle_items who (who +:+ ":" +:+ fid) cost items st
      ∧ (log = None → out = (Ok (sort_by_key_rev feed_timestamp
            (sort_by_key feed_timestamp (eligible_feeds st fid (max_price_watt s))),
            mkOracleSettlement who fid (length items) cost (balance_of out.2.1 who)),
          (out.2.1, None)))
      ∧ (∀ rows sm, out.1 = Ok (rows, sm) →
           charged_watt sm = cost ∧ delivered_count sm = length items).
Proof.
  rewrite /pull_for_subscriber_settled_with_signer.
  cbv [mbind stm_bind gets lift ok_or ensure]. cbn [fst snd].
  destruct (find_subscription st who fid) as [s|] eqn:Hs; [|by left].
  destruct (select_new _ _ 0 []) as [[cost items]|] eqn:Hsel; [|by left]. cbn [fst snd].
  destruct (balance_of st who <? cost) eqn:Hbal; [by left|]. right. bool_to_prop.
  exists s, cost, items. cbv [on_registry modify log_event mret stm_ret]. cbn [fst snd negb].
  split; [done|]. split; [done|]. split; [done|]. destruct log as [l|]; cbn [fst snd].
  - destruct (log_append _ _ _ _ _ l) as [[e|msg] l']; cbn [fst snd];
      (split; [done|]; split; [done|]); intros ?? [= <- <-]; done.
  - split; [done|]. split; [done|]. intros ?? [= <- <-]; done.
Qed.


(** Nothing is charged twice. After a successful settled pull, pulling
    again returns the same rows, delivers nothing new, charges nothing and
    leaves all balances as they are. *)
Theorem settled_pull_once clk uuid who fid signer st rows sm st' clk2 uuid2 signer2 :
  sound_prices st fid → nonneg (balances st) → total (balances st) ≤ i64_max →
  pull_for_subscriber_settled_with_signer clk uuid who fid signer (st, None : option L)
    = (Ok (rows, sm), (st', None)) →
  ∃ st'', pull_for_subscriber_settled_with_signer clk2 uuid2 who fid signer2 (st', None : option L)
      = (Ok (rows, mkOracleSettlement who fid 0 0 (balance_after sm)), (st'', None))
    ∧ balances st'' = balances st'.
Proof.
  intros Hsound Hb Hmax Hrun.
  pose proof (pull_cases clk uuid who fid signer st (None : option L)) as Hc.
  cbv zeta in Hc. rewrite Hrun in Hc. cbn [fst snd] in Hc.
  destruct Hc as [[Hno _]|(s & cost & items & Hs & Hsel & Hbal & Hst & Hout & _)]; [done|].
  specialize (Hout eq_refl).
  injection Hout as Hrows Hsm. subst rows sm.
  destruct (eligible_sound st fid (max_price_watt s) Hsound) as [Hp Hpm].
  destruct (select_new_spec _ _ _ _ _ _ Hsel) as (new & Hnew & -> & Hfil & Hall); [lia|done|lia|].
  simpl in Hnew. subst items. change (0 + prices new) with (prices new) in *.
  assert (Forall (λ f, 0 ≤ price_watt f) new) as Hpn by (rewrite Hfil; by apply Forall_filterb).
  destruct (settle_items_total who (who +:+ ":" +:+ fid) (prices new) new st) as [Hb' _];
    [done..|]. rewrite -Hst in Hb'.
  set (key := who +:+ ":" +:+ fid) in *.
  destruct (settle_items_feeds who key (prices new) new st) as [Hf Hsub]. rewrite -Hst in Hf Hsub.
  set (fs := sort_by_key feed_timestamp (eligible_feeds st fid (max_price_watt s))) in *.
  pose proof (select_after_settle who key (prices new) new fs st Hfil Hall) as Hsel2.
  rewrite -Hst in Hsel2.
  pose proof (default_nonneg _ who Hb') as Hbal'.
  exists (settle_items who key 0 [] st').
  rewrite /pull_for_subscriber_settled_with_signer.
  cbv [mbind stm_bind gets lift ok_or ensure]. cbn [fst snd].
  assert (find_subscription st' who fid = Some s) as -> by by rewrite /find_subscription Hsub.
  assert (eligible_feeds st' fid (max_price_watt s) = eligible_feeds st fid (max_price_watt s))
    as -> by by rewrite /eligible_feeds Hf.
  rewrite -/key -/fs Hsel2. cbn [fst snd].
  rewrite (proj2 (Z.ltb_ge (balance_of st' who) 0)); [|done]. done.
Qed.
End pull.

(** ** Ingestion and the log *)

Section ingest.
Context `{Crypto} {L : Type} `{!SignedLog L}.

Lemma log_event_cases clk uuid ty pl signer (st : OracleRegistry) (log : option L) :
  (log_event clk uuid ty pl signer (st, log)).2.1 = st
  ∧ (SignerSound signer → (∀ l, log = Some l → log_ok l) →
     ∀ l, (log_event clk uuid ty pl signer (st, log)).2.2 = Some l → log_ok l).
Proof.
  rewrite /log_event. destruct log as [l0|]; cbn [fst snd].
  - destruct (log_append _ _ _ _ _ l0) as [r l'] eqn:E. cbn [fst snd]. split; [done|].
    intros Hs Hok l [= <-]. specialize (Hok _ eq_refl).
    pose proof (log_append_ok clk uuid ty pl signer l0 Hs Hok) as Hok'. by rewrite /exec E in Hok'.
  - split; [done|]. auto.
Qed.

(** A feed is accepted only with a valid signature of its publisher and at
    most once: after an accepted feed the same feed is recognised, answered
    with [false] and changes nothing, log included. *)
Theorem ingest_idempotent clk uuid f ident signer st (log log' : option L) st' clk2 uuid2 ident2 sg2 :
  ingest_feed_with_signer clk uuid f ident signer (st, log) = (Ok true, (st', log')) →
  verify_feed_signature f = Ok true
  ∧ feeds st' = <[feed_id f := default [] (feeds st !! feed_id f) ++ [f]]> (feeds st)
  ∧ balances st' = balances st
  ∧ ingest_feed_with_signer clk2 uuid2 f ident2 sg2 (st', log') = (Ok false, (st', log')).
Proof.
  rewrite /ingest_feed_with_signer. cbv [mbind stm_bind gets lift ensure mret stm_ret].
  destruct (verify_feed_signature f) as [[]|] eqn:Hv; [|done..]. cbn [fst snd].
  destruct (existsb _ _) eqn:Hex; [done|]. cbv [on_registry modify]. cbn [fst snd].
  intros Hrun.
  assert (st' = push_feed f st) as ->.
  { revert Hrun. destruct ident as [i|], signer as [sg|]; cbn [fst snd]; try (intros [= <- _]; done).
    destruct (log_event_cases clk uuid "ORACLE_FEED_INGESTED" (json_of_feed f) sg
      (push_feed f st) log) as [Hst _].
    destruct (log_event _ _ _ _ sg _) as [[[]|] s']; [|done]. simpl in Hst.
    intros [= ->]. done. }
  split_and!; try done.
  assert (existsb (λ row, String.eqb (feed_signature row) (feed_signature f))
    (default [] (feeds (push_feed f st) !! feed_id f)) = true) as ->; [|done].
  apply existsb_elem_of. exists f. simpl. rewrite lookup_insert_eq /= String.eqb_refl.
  split; [|done]. apply elem_of_app. right. by apply list_elem_of_singleton.
Qed.

(** The steps of the oracle, with sound local signers. *)
Inductive oracle_step (s : oracle_state (L := L)) : oracle_state (L := L) → Prop :=
  | step_publish clk uuid fid pl price did signer :
      SignerSound signer →
      oracle_step s (exec (publish_with_signer clk uuid fid pl price did signer) s)
  | step_ingest clk uuid f ident signer :
      (∀ sg, signer = Some sg → SignerSound sg) →
      oracle_step s (exec (ingest_feed_with_signer clk uuid f ident signer) s)
  | step_credit who n : oracle_step s (exec (credit who n) s)
  | step_subscribe clk uuid who fid mx signer :
      SignerSound signer →
      oracle_step s (exec (subscribe_with_signer clk uuid who fid mx signer) s)
  | step_pull clk uuid who fid signer :
      SignerSound signer →
      oracle_step s (exec (pull_for_subscriber_settled_with_signer clk uuid who fid signer) s).

Definition log_state_ok (s : oracle_state (L := L)) : Prop := ∀ l, s.2 = Some l → log_ok l.

Lemma log_event_ok clk uuid ty pl signer st log :
  SignerSound signer → log_state_ok (st, log) →
  log_state_ok (log_event clk uuid ty pl signer (st, log)).2.
Proof. intros Hs Hok. exact (proj2 (log_event_cases clk uuid ty pl signer st log) Hs Hok). Qed.

(** Uses [log_event_ok] on the append in the goal. *)
Ltac log_event_step Hok :=
  match goal with
  | Hs : SignerSound ?g |- context [log_event ?c ?u ?t ?p ?g (?a, ?log)] =>
      pose proof (log_event_ok c u t p g a log Hs Hok);
      destruct (log_event c u t p g (a, log)) as [[] ?]
  end.

(** Whatever the oracle does, and however its operations end, the event log
    it writes to stays valid. Proved against the interface of the log only. *)
Theorem oracle_keeps_log s s' : log_state_ok s → oracle_step s s' → log_state_ok s'.
Proof.
  destruct s as [st log]. intros Hok [].
  - rewrite /exec /publish_with_signer. cbv [mbind stm_bind lift on_registry modify mret stm_ret].
    destruct (sign_payload_with _ _); [|exact Hok]. cbn [fst snd].
    log_event_step Hok; assumption.
  - rewrite /exec /ingest_feed_with_signer.
    cbv [mbind stm_bind gets lift ensure on_registry modify mret stm_ret].
    destruct (verify_feed_signature f) as [[]|]; [|exact Hok..]. cbn [fst snd].
    destruct (existsb _ _); [exact Hok|]. destruct ident, signer as [sg|]; try exact Hok. cbn [fst snd].
    specialize (H0 _ eq_refl). log_event_step Hok; assumption.
  - rewrite /exec /credit. cbv [mbind stm_bind ensure on_registry modify gets].
    destruct (negb (n <=? 0)); exact Hok.
  - rewrite /exec /subscribe_with_signer. cbv [mbind stm_bind on_registry modify mret stm_ret].
    cbn [fst snd].
    log_event_step Hok; assumption.
  - rewrite /exec /pull_for_subscriber_settled_with_signer.
    cbv [mbind stm_bind gets lift ok_or ensure on_registry modify mret stm_ret]. cbn [fst snd].
    destruct (find_subscription st who fid); [|exact Hok].
    destruct (select_new _ _ _ _) as [[cost items]|]; [|exact Hok]. cbn [fst snd].
    destruct (negb _); [|exact Hok].
    log_event_step Hok; assumption.
Qed.
End ingest.

(** ** A concrete oracle *)

Module OracleScenario.
Import Signing.Demo.
#[local] Existing Instances EventLog.LogScenario.log_codec EventLog.LogScenario.log_codec_laws.

Definition clk : clock := λ _, 100.
(** A feed item signed by [who]. *)
Definition item (who : string) (price : Z) : OracleFeed :=
  let did := ps_agent_did (signer who) in
  let sig := match sign_payload_with (signable_feed "f" did 7 JNull price) (signer who) with
             | Ok s => s | Err _ => "" end in
  mkOracleFeed "f" did 7 JNull price sig.
Definition run {A} (m : stm (oracle_state (L := string)) A) (s : oracle_state (L := string)) :=
  exec m s.
(** [bob] subscribes to items of two publishers. *)
Definition market (p1 p2 mx : Z) : OracleRegistry :=
  (run (subscribe_with_signer clk "u" "bob" "f" mx (signer "b"))
    (run (ingest_feed_with_signer clk "u" (item "c" p2) None None)
      (run (ingest_feed_with_signer clk "u" (item "a" p1) None None) (default_oracle, None)))).1.
Definition funded : OracleRegistry :=
  (run (credit "bob" 20) (market 5 6 10, None)).1.

Lemma funded_ok : sound_prices funded "f" ∧ nonneg (balances funded)
  ∧ total (balances funded) ≤ i64_max.
Proof.
  assert (Hf : default [] (feeds funded !! "f") = [item "a" 5; item "c" 6])
    by (vm_compute; reflexivity).
  assert (Hb : balances funded = {["bob" := 20]}) by (vm_compute; reflexivity).
  rewrite /sound_prices Hf Hb. split_and!.
  - apply Forall_cons_2; [vm_compute; discriminate|].
    apply Forall_cons_2; [vm_compute; discriminate|constructor].
  - vm_compute. discriminate.
  - apply map_Forall_singleton. lia.
  - vm_compute. discriminate.
Qed.


Lemma settled_pull_once_witness :
  ∃ rows sm st' st'',
    pull_for_subscriber_settled_with_signer clk "u" "bob" "f" (signer "b")
      (funded, None : option string) = (Ok (rows, sm), (st', None))
    ∧ charged_watt sm = 11
    ∧ pull_for_subscriber_settled_with_signer clk "v" "bob" "f" (signer "b")
      (st', None : option string)
      = (Ok (rows, mkOracleSettlement "bob" "f" 0 0 (balance_after sm)), (st'', None)).
Proof.
  destruct funded_ok as (H1 & H2 & H3).
  destruct (pull_for_subscriber_settled_with_signer clk "u" "bob" "f" (signer "b")
    (funded, None : option string)) as [[[rows sm]|e] [st' [l|]]] eqn:E.
  1: { apply (f_equal (λ p, p.2.2)) in E. vm_compute in E. discriminate E. }
  2,3: apply (f_equal (λ p, is_ok p.1)) in E; vm_compute in E; discriminate E.
  assert (Hc : charged_watt sm = 11).
  { apply (f_equal (λ p, match p.1 with Ok x => charged_watt x.2 | Err _ => 0 end)) in E.
    vm_compute in E. exact (eq_sym E). }
  destruct (settled_pull_once clk "u" "bob" "f" (signer "b") funded rows sm st' clk "v"
    (signer "b") H1 H2 H3 E) as (st'' & H4 & _).
  exists rows, sm, st', st''. exact (conj eq_refl (conj Hc H4)).
Defined.

Lemma ingest_idempotent_witness :
  ∃ st', ingest_feed_with_signer clk "v" (item "a" 5) None None (st', None : option string)
      = (Ok false, (st', None)).
Proof.
  destruct (ingest_feed_with_signer clk "u" (item "a" 5) None None
    (default_oracle, None : option string)) as [[[]|e] [st' [l|]]] eqn:E.
  1,3,4: apply (f_equal (λ p, (p.1, p.2.2))) in E; vm_compute in E; discriminate E.
  2,3: apply (f_equal (λ p, is_ok p.1)) in E; vm_compute in E; discriminate E.
  exists st'.
  exact (proj2 (proj2 (proj2 (ingest_idempotent clk "u" (item "a" 5) None None default_oracle
    None None st' clk "v" None None E)))).
Defined.

Lemma oracle_keeps_log_witness :
  log_state_ok (run (subscribe_with_signer clk "u" "bob" "f" 10 (signer "b"))
    (default_oracle, Some "")).
Proof.
  refine (oracle_keeps_log (default_oracle, Some "") _ _
    (step_subscribe _ clk "u" "bob" "f" 10 (signer "b") (signer_is_sound "b"))).
  intros l [= <-]. exact (ex_intro _ [] (conj eq_refl I)).
Defined.

(** The cost of a pull is added up in 64 bits, which wrap around: a
    subscriber without a single watt can pull two items of [2^62] watt each,
    is charged nothing, and both publishers are paid. *)
Theorem pull_overflow_mints :
  ∃ st rows sm st',
    pull_for_subscriber_settled_with_signer clk "u" "bob" "f" (signer "b")
      (st, None : option string) = (Ok (rows, sm), (st', None))
    ∧ balances st = ∅ ∧ balance_of st' "bob" = 0
    ∧ balance_of st' (ps_agent_did (signer "a")) = 2 ^ 62
    ∧ balance_of st' (ps_agent_did (signer "c")) = 2 ^ 62.
Proof.
  exists (market (2 ^ 62) (2 ^ 62) i64_max).
  destruct (pull_for_subscriber_settled_with_signer clk "u" "bob" "f" (signer "b")
    (market (2 ^ 62) (2 ^ 62) i64_max, None : option string)) as [r s] eqn:E.
  assert (Hr : is_ok r = true ∧ s.2 = None ∧ balance_of s.1 "bob" = 0
    ∧ balance_of s.1 (ps_agent_did (signer "a")) = 2 ^ 62
    ∧ balance_of s.1 (ps_agent_did (signer "c")) = 2 ^ 62).
  { replace r with ((r, s).1) by done. replace s with ((r, s).2) by done. rewrite -E.
    vm_compute. by split_and!. }
  destruct r as [[rows sm]|], s as [st' log]; [|by destruct Hr].
  destruct Hr as (_ & Hl & H1 & H2 & H3). simpl in Hl. subst log.
  exists rows, sm, st'. split_and!; [done| |done..]. vm_compute. reflexivity.
Qed.

(** A negative price takes watt from its publisher's account instead, which may
    go below zero: two colluding publishers move watt to one of them for free. *)
Example negative_price_overdraws :
  let st' := (run (pull_for_subscriber_settled_with_signer clk "u" "bob" "f" (signer "b"))
    (market 10 (-10) 10, None)).1 in
  balance_of st' "bob" = 0 ∧ balance_of st' (ps_agent_did (signer "a")) = 10
  ∧ balance_of st' (ps_agent_did (signer "c")) = -10.
Proof. vm_compute. by split_and!. Qed.
End OracleScenario.
