(* ===== verification/Galaxy.v ===== *)
(** * Galaxy zones and events

    [civilization/galaxy.rs]: the zones of the galaxy and the dynamic events
    published in them. *)

From S2P Require Import Prelude Collections Text Json.
#[local] Open Scope Z_scope.

Inductive ZoneKind := Genesis | Frontier | DeepSpace.
Inductive ZoneSecurityMode := Peace | LimitedPvp | OpenPvp.
Inductive DynamicEventCategory := Economic | Spatial | Political.

Record GalaxyZone := mkGalaxyZone {
  zone_id : string;
  zone_name : string;
  zone_kind : ZoneKind;
  security_mode : ZoneSecurityMode;
  zone_resource_multiplier : f64;
  zone_description : string;
}.

Record DynamicEvent := mkDynamicEvent {
  event_id : string;
  category : DynamicEventCategory;
  event_zone_id : string;
  event_title : string;
  event_description : string;
  event_severity : Z;
  event_created_at : Z;
  event_expires_at : option Z;
  event_tags : list string;
}.

Record GalaxyState := mkGalaxyState {
  zones : list GalaxyZone;
  all_events : list DynamicEvent;
}.
#[global] Instance eta_GalaxyState : Eta GalaxyState := λ g, mkGalaxyState (zones g) (all_events g).

(** The double [1.4]. *)
Definition f64_1_4 : f64 := 0x3FF6666666666666.

Definition default_with_core_zones : GalaxyState :=
  {| zones :=
       [mkGalaxyZone "genesis-core" "Genesis Core" Genesis Peace (f64_of_Z 1)
          "Stable starter core with strong institutional guardrails.";
        mkGalaxyZone "frontier-belt" "Frontier Belt" Frontier LimitedPvp f64_1_4
          "Half-governed expansion belt with sovereignty pressure.";
        mkGalaxyZone "deep-space" "Deep Space" DeepSpace OpenPvp (f64_of_Z 2)
          "High-risk void where logistics, war, and salvage dominate."];
     all_events := [] |}.

Definition events (g : GalaxyState) (zone : option string) : list DynamicEvent :=
  List.filter (λ e, is_none_or (String.eqb (event_zone_id e)) zone) (all_events g).

Definition publish_event (clk : clock) (uuid : string) (cat : DynamicEventCategory)
    (zone title description : string) (severity : Z) (expires : option Z) (tags : list string)
    : stm GalaxyState DynamicEvent :=
  zs ← gets zones;
  ensure (existsb (λ z, String.eqb (zone_id z) zone) zs) "unknown galaxy zone";;
  let e := {| event_id := uuid; category := cat; event_zone_id := zone; event_title := title;
              event_description := description; event_severity := Z.min severity 10;
              event_created_at := clk 0%nat; event_expires_at := expires;
              event_tags := tags |} in
  modify (λ g, g <| all_events ::= λ l, l ++ [e] |>);; mret e.

(** ** Published events are bounded *)

Definition galaxy_inv (g : GalaxyState) : Prop :=
  Forall (λ e, 0 ≤ event_severity e ≤ 10 ∧ ∃ z, z ∈ zones g ∧ zone_id z = event_zone_id e)
    (all_events g).

Lemma default_galaxy_inv : galaxy_inv default_with_core_zones.
Proof. constructor. Qed.

Lemma publish_event_inv clk uuid cat zone title d sev ex tags g :
  0 ≤ sev → galaxy_inv g →
  galaxy_inv (exec (publish_event clk uuid cat zone title d sev ex tags) g).
Proof.
  intros Hs Hinv. rewrite /exec /publish_event. stm_cases; [|done].
  apply Forall_app. split; [done|]. constructor; [|constructor]. simpl. split; [lia|].
  apply existsb_elem_of in H0 as (z & Hz & Heq%String.eqb_eq). eauto.
Qed.

Lemma events_severity g zone e : galaxy_inv g → e ∈ events g zone → 0 ≤ event_severity e ≤ 10.
Proof.
  rewrite /galaxy_inv Forall_forall => Hinv He. apply elem_of_filterb in He as [He _].
  by apply Hinv.
Qed.
