(* ===== verification/GalaxyMap.v ===== *)
(** * Galaxy maps

    [map/model.rs], [map/validator.rs] and [map/registry.rs]: star systems with
    their planets and the routes between them, the validation of a map and the
    registry of maps. *)

From S2P Require Import Prelude Collections Text Json Galaxy.
#[local] Open Scope Z_scope.

Inductive PlanetKind := Hub | Industrial | Research | Relay | Fortress | FrontierPlanet.

Record MapCoordinate := mkMapCoordinate { coord_x : Z; coord_y : Z }.

Record PlanetNode := mkPlanetNode {
  planet_id : string;
  planet_name : string;
  planet_kind : PlanetKind;
  planet_zone_id : string;
  planet_subnet_id : option string;
  resource_multiplier : f64;
  governance_template : option string;
}.

Record StarSystem := mkStarSystem {
  system_id : string;
  system_name : string;
  position : MapCoordinate;
  system_description : string;
  planets : list PlanetNode;
}.

Record RouteEdge := mkRouteEdge {
  route_id : string;
  from_system_id : string;
  to_system_id : string;
  travel_cost : Z;
  risk : Z;
  capacity : Z;
}.

#[global] Instance RouteEdge_eq_dec : EqDecision RouteEdge.
Proof. solve_decision. Defined.

Record GalaxyMap := mkGalaxyMap {
  map_id : string;
  map_name : string;
  map_description : string;
  official : bool;
  systems : list StarSystem;
  routes : list RouteEdge;
  tags : list string;
  created_at : Z;
  updated_at : Z;
}.

Record GalaxyMapSummary := mkGalaxyMapSummary {
  sum_map_id : string;
  sum_name : string;
  sum_official : bool;
  system_count : nat;
  route_count : nat;
  sum_tags : list string;
}.

Definition map_summary (m : GalaxyMap) : GalaxyMapSummary :=
  mkGalaxyMapSummary (map_id m) (map_name m) (official m) (length (systems m))
    (length (routes m)) (tags m).

(** The doubles [0.1], [0.8] and [10.0]. *)
Definition f64_0_1 : f64 := 0x3FB999999999999A.
Definition f64_0_8 : f64 := 0x3FE999999999999A.
Definition f64_10 : f64 := 0x4024000000000000.

Definition default_genesis_map (clk : clock) : GalaxyMap :=
  let now := clk 0%nat in
  {| map_id := "genesis-base";
     map_name := "Genesis Base Map";
     map_description := "Official bootstrap star chart for the initial Wattetheria galaxy network.";
     official := true;
     systems :=
       [mkStarSystem "genesis-prime" "Genesis Prime" (mkMapCoordinate 0 0)
          "Starter system anchored to the protected genesis core."
          [mkPlanetNode "planet-main" "Planet Main" Hub "genesis-core" (Some "planet-main")
             (f64_of_Z 1) (Some "migrant_council");
           mkPlanetNode "relay-one" "Relay One" Relay "genesis-core" None f64_0_8 None];
        mkStarSystem "frontier-gate" "Frontier Gate" (mkMapCoordinate 140 40)
          "Trade and sovereignty corridor leading into the frontier belt."
          [mkPlanetNode "planet-test" "Planet Test" FrontierPlanet "frontier-belt"
             (Some "planet-test") f64_1_4 (Some "freeport_exchange")];
        mkStarSystem "abyss-watch" "Abyss Watch" (mkMapCoordinate 260 (-20))
          "Deep-space observation and defense station."
          [mkPlanetNode "deep-watch" "Deep Watch" Fortress "deep-space" None (f64_of_Z 2)
             (Some "fortress_command")]];
     routes :=
       [mkRouteEdge "route-genesis-frontier" "genesis-prime" "frontier-gate" 3 2 10;
        mkRouteEdge "route-frontier-abyss" "frontier-gate" "abyss-watch" 5 7 6];
     tags := ["official"; "genesis"];
     created_at := now;
     updated_at := now |}.

(** ** Validation *)

Section validate.
Context (allowed_zone_ids : gset string).

(** The inner loop, over the planets of a system. *)
Fixpoint validate_planets (planet_ids : gset string) (ps : list PlanetNode)
    : result (gset string) :=
  match ps with
  | [] => Ok planet_ids
  | p :: ps' =>
      if is_blank (planet_id p) then Err "planet id cannot be empty"
      else if bool_decide (planet_id p ∈ planet_ids)
      then Err ("duplicate planet id " +:+ planet_id p)
      else if negb (bool_decide (planet_zone_id p ∈ allowed_zone_ids))
      then Err ("planet " +:+ planet_id p +:+ " references unknown galaxy zone "
                +:+ planet_zone_id p)
      else if negb (f64_between f64_0_1 f64_10 (resource_multiplier p))
      then Err ("planet " +:+ planet_id p +:+ " resource multiplier out of bounds")
      else validate_planets ({[planet_id p]} ∪ planet_ids) ps'
  end.

Fixpoint validate_systems (system_ids planet_ids : gset string) (ss : list StarSystem)
    : result (gset string) :=
  match ss with
  | [] => Ok system_ids
  | s :: ss' =>
      if is_blank (system_id s) then Err "star system id cannot be empty"
      else if bool_decide (system_id s ∈ system_ids)
      then Err ("duplicate star system id " +:+ system_id s)
      else if (length (planets s) =? 0)%nat
      then Err ("star system " +:+ system_id s +:+ " must contain at least one planet")
      else
        planet_ids' ← validate_planets planet_ids (planets s);
        validate_systems ({[system_id s]} ∪ system_ids) planet_ids' ss'
  end.
End validate.

Fixpoint validate_routes (system_ids route_ids : gset string) (rs : list RouteEdge)
    : result unit :=
  match rs with
  | [] => Ok tt
  | r :: rs' =>
      if bool_decide (route_id r ∈ route_ids) then Err ("duplicate route id " +:+ route_id r)
      else if negb (bool_decide (from_system_id r ∈ system_ids))
              || negb (bool_decide (to_system_id r ∈ system_ids))
      then Err ("route " +:+ route_id r +:+ " references unknown star system")
      else if String.eqb (from_system_id r) (to_system_id r)
      then Err ("route " +:+ route_id r +:+ " cannot loop to the same star system")
      else if travel_cost r =? 0
      then Err ("route " +:+ route_id r +:+ " travel_cost must be greater than zero")
      else if capacity r =? 0
      then Err ("route " +:+ route_id r +:+ " capacity must be greater than zero")
      else validate_routes system_ids ({[route_id r]} ∪ route_ids) rs'
  end.

Definition validate_map (m : GalaxyMap) (allowed_zones : list GalaxyZone) : result unit :=
  if (length (systems m) =? 0)%nat
  then Err "galaxy map must contain at least one star system"
  else
    let allowed := list_to_set (zone_id <$> allowed_zones) in
    system_ids ← validate_systems allowed ∅ ∅ (systems m);
    validate_routes system_ids ∅ (routes m).

(** ** The registry *)

(** [GalaxyMapRegistry], its [maps]. *)
Definition GalaxyMapRegistry : Type := gmap string GalaxyMap.

Definition ensure_default_genesis_map (clk : clock) (allowed_zones : list GalaxyZone)
    : stm GalaxyMapRegistry GalaxyMap :=
  existing ← gets (λ ms : GalaxyMapRegistry, ms !! "genesis-base");
  match existing with
  | Some m => lift (validate_map m allowed_zones);; mret m
  | None =>
      let m := default_genesis_map clk in
      lift (validate_map m allowed_zones);;
      modify (λ ms : GalaxyMapRegistry, <[map_id m := m]> ms);;
      mret m
  end.

Definition get_map (ms : GalaxyMapRegistry) (id : string) : option GalaxyMap := ms !! id.
Definition list_maps (ms : GalaxyMapRegistry) : list GalaxyMap := btree_values ms.

(** ** What a validated map promises *)

Record valid_map (m : GalaxyMap) (allowed_zones : list GalaxyZone) : Prop := {
  vm_systems : systems m ≠ [];
  vm_system_ids : NoDup (system_id <$> systems m);
  vm_system_names : Forall (λ s, is_blank (system_id s) = false ∧ planets s ≠ []) (systems m);
  vm_planet_ids : NoDup (planet_id <$> (systems m ≫= planets));
  vm_planets : Forall (λ p, is_blank (planet_id p) = false
    ∧ planet_zone_id p ∈ zone_id <$> allowed_zones
    ∧ f64_between f64_0_1 f64_10 (resource_multiplier p) = true) (systems m ≫= planets);
  vm_route_ids : NoDup (route_id <$> routes m);
  vm_routes : Forall (λ r, from_system_id r ∈ system_id <$> systems m
    ∧ to_system_id r ∈ system_id <$> systems m ∧ from_system_id r ≠ to_system_id r
    ∧ travel_cost r ≠ 0 ∧ capacity r ≠ 0) (routes m);
}.

(** The ids are new and distinct; a set grows by them. *)
Definition fresh_ids (seen : gset string) (ids : list string) : Prop :=
  NoDup ids ∧ ∀ x, x ∈ ids → x ∉ seen.

Lemma fresh_ids_cons seen x ids :
  fresh_ids seen (x :: ids) ↔ x ∉ seen ∧ fresh_ids ({[x]} ∪ seen) ids.
Proof. rewrite /fresh_ids NoDup_cons. set_solver. Qed.

Lemma fresh_ids_app seen l1 l2 :
  fresh_ids seen (l1 ++ l2) ↔ fresh_ids seen l1 ∧ fresh_ids (list_to_set l1 ∪ seen) l2.
Proof. rewrite /fresh_ids NoDup_app. set_solver. Qed.

Lemma fresh_ids_nil ids : fresh_ids ∅ ids ↔ NoDup ids.
Proof. rewrite /fresh_ids. set_solver. Qed.

Definition planet_ok (zones : gset string) (p : PlanetNode) : Prop :=
  is_blank (planet_id p) = false ∧ planet_zone_id p ∈ zones
  ∧ f64_between f64_0_1 f64_10 (resource_multiplier p) = true.

Lemma validate_planets_spec zones seen ps ids :
  validate_planets zones seen ps = Ok ids ↔
  fresh_ids seen (planet_id <$> ps) ∧ Forall (planet_ok zones) ps
  ∧ ids = list_to_set (planet_id <$> ps) ∪ seen.
Proof.
  revert seen. induction ps as [|p ps IH]; intros seen; csimpl.
  { rewrite /fresh_ids. split; [intros [= <-]|intros (_ & _ & ->)].
    - split_and!; [constructor|set_solver|constructor|set_solver].
    - f_equal. set_solver. }
  rewrite fresh_ids_cons Forall_cons /planet_ok.
  destruct (is_blank (planet_id p)); [naive_solver|].
  case_bool_decide as Hseen; [naive_solver|].
  case_bool_decide as Hz; simpl; [|naive_solver].
  destruct (f64_between _ _ _); simpl; [|naive_solver].
  rewrite IH. split.
  - intros (? & ? & ->). split_and!; try done. set_solver.
  - intros ((_ & ?) & (_ & ?) & ->). split_and!; try done. set_solver.
Qed.

Lemma validate_systems_spec zones sids pids ss ids :
  validate_systems zones sids pids ss = Ok ids ↔
  fresh_ids sids (system_id <$> ss)
  ∧ Forall (λ s, is_blank (system_id s) = false ∧ planets s ≠ []) ss
  ∧ fresh_ids pids (planet_id <$> (ss ≫= planets)) ∧ Forall (planet_ok zones) (ss ≫= planets)
  ∧ ids = list_to_set (system_id <$> ss) ∪ sids.
Proof.
  revert sids pids. induction ss as [|s ss IH]; intros sids pids; csimpl.
  { rewrite /fresh_ids. split; [intros [= <-]|intros (_ & _ & _ & _ & ->)].
    - split_and!; try constructor; set_solver.
    - f_equal. set_solver. }
  rewrite fresh_ids_cons Forall_cons fmap_app fresh_ids_app Forall_app.
  destruct (is_blank (system_id s)); [naive_solver|].
  case_bool_decide as Hseen; [naive_solver|].
  destruct (Nat.eqb_spec (length (planets s)) 0) as [Hl|Hl].
  { apply length_zero_iff_nil in Hl. rewrite Hl. naive_solver. }
  assert (planets s ≠ []) as Hne by (intros Hn; by rewrite Hn in Hl).
  rewrite result_bind_ok. split.
  - intros (? & (? & ? & ->)%validate_planets_spec & (? & ? & ? & ? & ->)%IH).
    split_and!; try done. set_solver.
  - intros ((_ & ?) & (_ & ?) & (? & ?) & (? & ?) & ->).
    eexists. rewrite validate_planets_spec IH. split_and!; try done. set_solver.
Qed.

Lemma validate_routes_spec sids seen rs :
  validate_routes sids seen rs = Ok tt ↔
  fresh_ids seen (route_id <$> rs)
  ∧ Forall (λ r, from_system_id r ∈ sids ∧ to_system_id r ∈ sids
       ∧ from_system_id r ≠ to_system_id r ∧ travel_cost r ≠ 0 ∧ capacity r ≠ 0) rs.
Proof.
  revert seen. induction rs as [|r rs IH]; intros seen; csimpl.
  { rewrite /fresh_ids. split; [|done]. intros _. split_and!; [constructor|set_solver|constructor]. }
  rewrite fresh_ids_cons Forall_cons.
  case_bool_decide; [naive_solver|]. case_bool_decide; simpl; [|naive_solver].
  case_bool_decide; simpl; [|naive_solver].
  destruct (String.eqb_spec (from_system_id r) (to_system_id r)); [naive_solver|].
  destruct (Z.eqb_spec (travel_cost r) 0); [naive_solver|].
  destruct (Z.eqb_spec (capacity r) 0); [naive_solver|]. rewrite IH. naive_solver.
Qed.

(** [validate_map] accepts exactly the well-formed maps: at least one system,
    distinct non-blank system and planet ids, every system with a planet, every
    planet in an allowed zone with a multiplier in bounds, distinct route ids,
    and every route between two different systems of the map with a cost and a
    capacity. *)
Theorem validate_map_spec m zs : validate_map m zs = Ok tt ↔ valid_map m zs.
Proof.
  rewrite /validate_map. destruct (Nat.eqb_spec (length (systems m)) 0) as [Hl|Hl].
  { split; [done|]. intros [Hne _ _ _ _ _ _]. by apply length_zero_iff_nil in Hl. }
  assert (systems m ≠ []) as Hne by (intros Hn; by rewrite Hn in Hl).
  assert (∀ r, r ∈ list_to_set (C := gset string) (system_id <$> systems m) ∪ ∅
    ↔ r ∈ system_id <$> systems m) as Hids by set_solver.
  rewrite result_bind_ok. split.
  - intros (ids & (Hi & ? & Hpi & Hp & ->)%validate_systems_spec & Hr).
    apply validate_routes_spec in Hr as [Hri Hr]. rewrite fresh_ids_nil in Hi.
    rewrite fresh_ids_nil in Hpi. rewrite fresh_ids_nil in Hri. split; try done.
    + eapply Forall_impl; [exact Hp|]. intros p. rewrite /planet_ok elem_of_list_to_set. done.
    + eapply Forall_impl; [exact Hr|]. intros r. cbv beta. by rewrite !Hids.
  - intros [_ Hi Hs Hpi Hp Hri Hr].
    exists (list_to_set (system_id <$> systems m) ∪ ∅). split.
    + apply validate_systems_spec. rewrite !fresh_ids_nil. split_and!; try done.
      eapply Forall_impl; [exact Hp|]. intros p. rewrite /planet_ok elem_of_list_to_set. done.
    + apply validate_routes_spec. rewrite fresh_ids_nil. split; [done|].
      eapply Forall_impl; [exact Hr|]. intros r. cbv beta. by rewrite !Hids.
Qed.

Example genesis_map_valid :
  validate_map (default_genesis_map (λ _, 0)) (zones default_with_core_zones) = Ok tt.
Proof. vm_compute. reflexivity. Qed.
