(* ===== verification/Travel.v ===== *)
(** * Travel planning

    [map/travel.rs]: the options to leave a system, and plans along a cheapest
    path found by Dijkstra's algorithm over an ordered frontier. The search
    loop and the path reconstruction are run with fuel; both are shown to end
    within it. *)

From S2P Require Import Prelude Collections Text Json Galaxy GalaxyMap.
#[local] Open Scope Z_scope.

Inductive TravelRiskLevel := Stable | Guarded | Contested | Volatile.

Record TravelWarning := mkTravelWarning {
  warn_code : string;
  warn_title : string;
  warn_severity : Z;
}.

Record TravelOption := mkTravelOption {
  opt_from : string;
  opt_to : string;
  opt_route_id : string;
  opt_travel_cost : Z;
  opt_risk : Z;
  opt_risk_level : TravelRiskLevel;
  opt_capacity : Z;
  destination_zone_id : option string;
  opt_warnings : list TravelWarning;
}.

Record TravelLeg := mkTravelLeg {
  leg_route_id : string;
  leg_from : string;
  leg_to : string;
  leg_travel_cost : Z;
  leg_risk : Z;
  leg_capacity : Z;
  leg_warnings : list TravelWarning;
}.

Record TravelPlan := mkTravelPlan {
  plan_map_id : string;
  plan_from : string;
  plan_to : string;
  total_travel_cost : Z;
  total_risk : Z;
  max_leg_risk : Z;
  plan_risk_level : TravelRiskLevel;
  traversed_system_ids : list string;
  legs : list TravelLeg;
  plan_warnings : list TravelWarning;
}.

(** ** Risk and warnings *)

Definition primary_zone_id (s : StarSystem) : option string :=
  planet_zone_id <$> head (planets s).

Definition system_zone_id (m : GalaxyMap) (sys : string) : option string :=
  find_first (λ s, String.eqb (system_id s) sys) (systems m) ≫= primary_zone_id.

Definition risk_level (r : Z) : TravelRiskLevel :=
  if r <=? 2 then Stable else if r <=? 5 then Guarded else if r <=? 7 then Contested else Volatile.

Definition event_warning (e : DynamicEvent) : TravelWarning :=
  mkTravelWarning
    match category e with
    | Economic => "economic_pressure"
    | Spatial => "spatial_hazard"
    | Political => "political_instability"
    end (event_title e) (event_severity e).

(** The worst warning per code, in the order of the codes. *)
Definition keep_worst (acc : gmap string TravelWarning) (w : TravelWarning)
    : gmap string TravelWarning :=
  match acc !! warn_code w with
  | Some e => if warn_severity e <? warn_severity w then <[warn_code w := w]> acc else acc
  | None => <[warn_code w := w]> acc
  end.
Definition dedupe_warnings (ws : list TravelWarning) : list TravelWarning :=
  btree_values (foldl keep_worst ∅ ws).

Definition route_warnings (m : GalaxyMap) (g : GalaxyState) (r : RouteEdge) (dest : string)
    : list TravelWarning :=
  let ws :=
    (if 7 <=? risk r then [mkTravelWarning "route_risk_high" "High base route risk" (risk r)]
     else [])
    ++ (if capacity r <=? 6
        then [mkTravelWarning "route_capacity_tight" "Tight route capacity" 4] else []) in
  match system_zone_id m dest with
  | None => ws
  | Some z => dedupe_warnings
      (ws ++ (event_warning <$> List.filter (λ e, 6 <=? event_severity e) (events g (Some z))))
  end.

(** The sum of the bonuses is an 8-bit sum, which wraps around. *)
Definition route_risk (r : RouteEdge) (ws : list TravelWarning) : Z :=
  let bonus := foldl (λ acc w, u8_wrap (acc + u8_saturating_sub (warn_severity w) 5)) 0
    (List.filter (λ w, negb (String.eqb (warn_code w) "route_capacity_tight")) ws) in
  Z.min (u8_saturating_add (risk r) bonus) 10.

(** ** Options *)

Definition other_end (r : RouteEdge) (sys : string) : option string :=
  if String.eqb (from_system_id r) sys then Some (to_system_id r)
  else if String.eqb (to_system_id r) sys then Some (from_system_id r)
  else None.

Definition adjacent_routes (m : GalaxyMap) (sys : string) : list RouteEdge :=
  List.filter (λ r, String.eqb (from_system_id r) sys || String.eqb (to_system_id r) sys)
    (routes m).

Definition travel_options (m : GalaxyMap) (g : GalaxyState) (from : string)
    : list TravelOption :=
  omap (λ r,
    to_ ← other_end r from;
    let ws := route_warnings m g r to_ in
    Some {| opt_from := from; opt_to := to_; opt_route_id := route_id r;
            opt_travel_cost := travel_cost r; opt_risk := route_risk r ws;
            opt_risk_level := risk_level (route_risk r ws); opt_capacity := capacity r;
            destination_zone_id := system_zone_id m to_; opt_warnings := ws |})
    (routes m).

Definition ensure_system_exists (m : GalaxyMap) (sys : string) : result unit :=
  if existsb (λ s, String.eqb (system_id s) sys) (systems m) then Ok tt
  else Err "unknown system id".

(** ** The search *)

Record search := mkSearch {
  best : gmap string Z;
  previous : gmap string (string * string);
  frontier : gset (Z * string);
}.
#[global] Instance eta_search : Eta search := λ s,
  mkSearch (best s) (previous s) (frontier s).

(** The order of [(u32, String)] in the [BTreeSet]. *)
Definition entry_leb (a b : Z * string) : bool :=
  (a.1 <? b.1) || ((a.1 =? b.1) && str_leb a.2 b.2).

Definition pop_first (f : gset (Z * string)) : option ((Z * string) * gset (Z * string)) :=
  match sort_by entry_leb (elements f) with
  | [] => None
  | x :: _ => Some (x, f ∖ {[x]})
  end.

(** The body of the loop over the adjacent routes. *)
Definition relax (cost : Z) (sys : string) (s : search) (r : RouteEdge) : result search :=
  next ← ok_or "adjacent route end" (other_end r sys);
  let next_cost := u32_saturating_add cost (travel_cost r) in
  if is_none_or (λ known, next_cost <? known) (best s !! next) then
    let f := match best s !! next with
             | Some old => frontier s ∖ {[(old, next)]}
             | None => frontier s
             end in
    Ok {| best := <[next := next_cost]> (best s);
          previous := <[next := (sys, route_id r)]> (previous s);
          frontier := {[(next_cost, next)]} ∪ f |}
  else Ok s.

Fixpoint relax_all (cost : Z) (sys : string) (s : search) (rs : list RouteEdge)
    : result search :=
  match rs with
  | [] => Ok s
  | r :: rs' => s' ← relax cost sys s r; relax_all cost sys s' rs'
  end.

(** The [while let] loop; [None] is running out of fuel. *)
Fixpoint search_loop (m : GalaxyMap) (to_ : string) (fuel : nat) (s : search)
    : option (result search) :=
  match fuel with
  | O => None
  | S n =>
      match pop_first (frontier s) with
      | None => Some (Ok s)
      | Some ((cost, sys), f) =>
          let s := s <| frontier := f |> in
          if String.eqb sys to_ then Some (Ok s)
          else if is_some_and (λ b, b <? cost) (best s !! sys) then search_loop m to_ n s
          else match relax_all cost sys s (adjacent_routes m sys) with
               | Ok s' => search_loop m to_ n s'
               | Err e => Some (Err e)
               end
      end
  end.

Definition search_init (from : string) : search :=
  {| best := {[from := 0]}; previous := ∅; frontier := {[(0, from)]} |}.

(** Every pass settles another end of a route, or the start. *)
Definition search_fuel (m : GalaxyMap) : nat := 2 * length (routes m) + 2.

Definition shortest_paths (m : GalaxyMap) (from to_ : string)
    : option (result (gmap string (string * string))) :=
  r ← search_loop m to_ (search_fuel m) (search_init from);
  Some (s ← r;
        if negb (bool_decide (is_Some (previous s !! to_)))
        then Err "no travel path found between systems"
        else Ok (previous s)).

(** ** Reconstruction and legs *)

Fixpoint reconstruct_go (prev : gmap string (string * string)) (from : string) (fuel : nat)
    (traversed : list string) (cursor : string) : option (result (list string)) :=
  match fuel with
  | O => None
  | S n =>
      match prev !! cursor with
      | None => Some (Err "travel path reconstruction failed")
      | Some (prev_system, _) =>
          if String.eqb prev_system from then Some (Ok (prev_system :: traversed))
          else reconstruct_go prev from n (prev_system :: traversed) prev_system
      end
  end.

(** The reversed [Vec] of the code, kept in front-first order. *)
Definition reconstruct_traversed_systems (prev : gmap string (string * string))
    (from to_ : string) : option (result (list string)) :=
  reconstruct_go prev from (S (size prev)) [to_] to_.

Definition connects (a b : string) (r : RouteEdge) : bool :=
  (String.eqb (from_system_id r) a && String.eqb (to_system_id r) b)
  || (String.eqb (from_system_id r) b && String.eqb (to_system_id r) a).

(** One leg per window of two systems. *)
Fixpoint build_travel_legs (m : GalaxyMap) (g : GalaxyState) (path : list string)
    : result (list TravelLeg) :=
  match path with
  | from :: ((to_ :: _) as rest) =>
      r ← ok_or "route for travel plan" (find_first (connects from to_) (routes m));
      let ws := route_warnings m g r to_ in
      ls ← build_travel_legs m g rest;
      Ok ({| leg_route_id := route_id r; leg_from := from; leg_to := to_;
             leg_travel_cost := travel_cost r; leg_risk := route_risk r ws;
             leg_capacity := capacity r; leg_warnings := ws |} :: ls)
  | _ => Ok []
  end.

(** [None] is running out of fuel in one of the loops. *)
Definition travel_plan (m : GalaxyMap) (g : GalaxyState) (from to_ : string)
    : option (result TravelPlan) :=
  if String.eqb from to_ then
    Some (Ok {| plan_map_id := map_id m; plan_from := from; plan_to := to_;
                total_travel_cost := 0; total_risk := 0; max_leg_risk := 0;
                plan_risk_level := Stable; traversed_system_ids := [from]; legs := [];
                plan_warnings := [] |})
  else
    match ensure_system_exists m from, ensure_system_exists m to_ with
    | Err e, _ | Ok _, Err e => Some (Err e)
    | Ok _, Ok _ =>
        prev ← shortest_paths m from to_;
        match prev with
        | Err e => Some (Err e)
        | Ok prev =>
            path ← reconstruct_traversed_systems prev from to_;
            Some (
              path ← path;
              ls ← build_travel_legs m g path;
              let mx := foldl Z.max 0 (leg_risk <$> ls) in
              Ok {| plan_map_id := map_id m; plan_from := from; plan_to := to_;
                    total_travel_cost := foldl (λ a l, u32_wrap (a + leg_travel_cost l)) 0 ls;
                    total_risk := foldl (λ a l, u32_wrap (a + leg_risk l)) 0 ls;
                    max_leg_risk := mx; plan_risk_level := risk_level mx;
                    traversed_system_ids := path; legs := ls;
                    plan_warnings := dedupe_warnings (ls ≫= leg_warnings) |})
        end
    end.

(** ** Walks *)

Definition sat (z : Z) : Z := Z.min u32_max z.

Section dijkstra.
Context (m : GalaxyMap) (from : string).

(** [walk v k]: the routes of the map lead from the start to [v] at cost [k]. *)
Inductive walk : string → Z → Prop :=
  | walk_start : walk from 0
  | walk_step v k r w :
      walk v k → r ∈ routes m → other_end r v = Some w → walk w (k + travel_cost r).

(** Costs are 32-bit unsigned integers. *)
Context (costs_u32 : Forall (λ r, 0 ≤ travel_cost r ≤ u32_max) (routes m)).

Lemma cost_nonneg r : r ∈ routes m → 0 ≤ travel_cost r.
Proof using costs_u32.
  intros Hr. exact (proj1 (proj1 (Forall_forall _ _) costs_u32 r Hr)).
Qed.

Lemma walk_nonneg v k : walk v k → 0 ≤ k.
Proof using costs_u32.
  induction 1 as [|v k r w _ IH Hr _]; [lia|]. pose proof (cost_nonneg r Hr). lia.
Qed.

Lemma sat_mono a b : a ≤ b → sat a ≤ sat b.
Proof. rewrite /sat. lia. Qed.

Lemma sat_sat_add a b : 0 ≤ b → sat (sat a + b) = sat (a + b).
Proof. rewrite /sat. lia. Qed.

Lemma adjacent_routes_spec sys r :
  r ∈ adjacent_routes m sys ↔ r ∈ routes m ∧ is_Some (other_end r sys).
Proof.
  rewrite /adjacent_routes elem_of_filterb /other_end.
  destruct (String.eqb (from_system_id r) sys), (String.eqb (to_system_id r) sys); simpl;
    rewrite is_Some_alt; naive_solver.
Qed.

(** ** The invariant of the search

    [D] lists the settled systems, the last one first; [ex v r] exempts a route
    of a settled system that is still to be relaxed. *)
Record inv (D : list string) (ex : string → RouteEdge → Prop) (s : search) : Prop := {
  i_from : best s !! from = Some 0;
  i_walk v c : best s !! v = Some c → ∃ k, walk v k ∧ c = sat k;
  i_front c v : (c, v) ∈ frontier s ↔ best s !! v = Some c ∧ v ∉ D;
  i_done v : v ∈ D → is_Some (best s !! v);
  i_nodup : NoDup D;
  i_relaxed v cv r w :
    v ∈ D → best s !! v = Some cv → r ∈ routes m → other_end r v = Some w → ¬ ex v r →
    ∃ cw, best s !! w = Some cw ∧ cw ≤ sat (cv + travel_cost r);
  i_order v w cv cw :
    v ∈ D → w ∉ D → best s !! v = Some cv → best s !! w = Some cw → cv ≤ cw;
  i_prev w u rid :
    previous s !! w = Some (u, rid) →
    w ≠ from ∧ u ∈ D ∧ ∃ r cu, r ∈ routes m ∧ route_id r = rid ∧ other_end r u = Some w
      ∧ best s !! u = Some cu ∧ best s !! w = Some (sat (cu + travel_cost r));
  i_prev_dom w c : best s !! w = Some c → w ≠ from → is_Some (previous s !! w);
  i_prev_order w u rid l1 l2 :
    D = l1 ++ w :: l2 → previous s !! w = Some (u, rid) → u ∈ l2;
}.

Lemma inv_init : inv [] (λ _ _, False) (search_init from).
Proof using costs_u32.
  split; cbn [best previous frontier search_init].
  - by rewrite lookup_singleton_eq.
  - intros v c [<- <-]%lookup_singleton_Some. exists 0. split; [constructor|done].
  - intros c v. rewrite elem_of_singleton lookup_singleton_Some. set_solver.
  - by intros v ?%elem_of_nil.
  - constructor.
  - by intros v cv r w ?%elem_of_nil.
  - by intros v w cv cw ?%elem_of_nil.
  - by intros w u rid.
  - by intros w c [<- _]%lookup_singleton_Some.
  - intros w u rid l1 l2 Hd. by destruct l1.
Qed.

(** Relaxing a route to a system that is not yet settled. *)
Definition update_best (next : string) (c : Z) (sys rid : string) (s : search) : search :=
  {| best := <[next := c]> (best s);
     previous := <[next := (sys, rid)]> (previous s);
     frontier := {[(c, next)]} ∪
       match best s !! next with
       | Some old => frontier s ∖ {[(old, next)]}
       | None => frontier s
       end |}.

Lemma update_front D ex s next c sys rid :
  inv D ex s → next ∉ D →
  ∀ c' v, (c', v) ∈ frontier (update_best next c sys rid s)
    ↔ best (update_best next c sys rid s) !! v = Some c' ∧ v ∉ D.
Proof using costs_u32.
  intros Hinv Hn c' v. simpl. rewrite elem_of_union elem_of_singleton.
  pose proof (i_front _ _ _ Hinv c' v) as Hf.
  destruct (decide (v = next)) as [->|Hne].
  - rewrite lookup_insert_eq. destruct (best s !! next) as [old|] eqn:E.
    + rewrite elem_of_difference elem_of_singleton Hf. naive_solver.
    + rewrite Hf. naive_solver.
  - rewrite lookup_insert_ne //. destruct (best s !! next) as [old|] eqn:E.
    + rewrite elem_of_difference elem_of_singleton Hf. naive_solver.
    + rewrite Hf. naive_solver.
Qed.

Lemma update_inv D ex s next c cc sys r :
  inv D ex s → next ∉ D → sys ∈ D → best s !! sys = Some cc →
  (∀ v cv, v ∈ D → best s !! v = Some cv → cv ≤ cc) →
  r ∈ routes m → other_end r sys = Some next → c = sat (cc + travel_cost r) →
  (∀ old, best s !! next = Some old → c < old) →
  inv D (λ v r', ex v r' ∧ ¬ (v = sys ∧ r' = r)) (update_best next c sys (route_id r) s).
Proof using costs_u32.
  intros Hinv Hn Hsys Hcc Hmax Hr Hend Hc Hlt.
  assert (next ≠ from) as Hnf.
  { intros ->. specialize (Hlt 0 (i_from _ _ _ Hinv)). pose proof (cost_nonneg r Hr).
    destruct (i_walk _ _ _ Hinv _ _ Hcc) as (k & Hk%walk_nonneg & ->).
    rewrite /sat /u32_max in Hc. lia. }
  assert (∀ v, v ∈ D → best (update_best next c sys (route_id r) s) !! v = best s !! v) as Hkeep.
  { intros v Hv. simpl. rewrite lookup_insert_ne //. set_solver. }
  assert (cc ≤ c) as Hccc.
  { pose proof (cost_nonneg r Hr). destruct (i_walk _ _ _ Hinv _ _ Hcc) as (k & _ & ->).
    rewrite Hc /sat. lia. }
  split.
  - simpl. rewrite lookup_insert_ne //. apply (i_from _ _ _ Hinv).
  - simpl. intros v c' [[<- <-]|[Hne Hv]]%lookup_insert_Some; [|by apply (i_walk _ _ _ Hinv)].
    destruct (i_walk _ _ _ Hinv _ _ Hcc) as (k & Hk & ->). exists (k + travel_cost r).
    split; [by eapply walk_step|]. rewrite Hc. apply sat_sat_add. by apply cost_nonneg.
  - intros c' v. by eapply update_front.
  - intros v Hv. rewrite Hkeep //. by apply (i_done _ _ _ Hinv).
  - apply (i_nodup _ _ _ Hinv).
  - intros v cv r' w Hv Hcv Hr' Hw Hex. rewrite Hkeep // in Hcv. simpl.
    destruct (decide (v = sys ∧ r' = r)) as [[-> ->]|Hvr].
    + simplify_eq. eexists. by rewrite lookup_insert_eq.
    + destruct (i_relaxed _ _ _ Hinv v cv r' w) as (cw & Hcw & Hle); try done; [tauto|].
      destruct (decide (w = next)) as [->|].
      * exists c. rewrite lookup_insert_eq. split; [done|]. specialize (Hlt _ Hcw). lia.
      * exists cw. by rewrite lookup_insert_ne.
  - intros v w cv cw Hv Hw Hcv. rewrite Hkeep // in Hcv. simpl.
    intros [[<- <-]|[Hne Hcw]]%lookup_insert_Some; [specialize (Hmax v cv Hv Hcv); lia|].
    by apply (i_order _ _ _ Hinv v w).
  - simpl. intros w u rid [[<- [= <- <-]]|[Hne Hp]]%lookup_insert_Some.
    + split_and!; try done. exists r, cc. rewrite lookup_insert_eq -Hc.
      rewrite lookup_insert_ne; [done|set_solver].
    + destruct (i_prev _ _ _ Hinv _ _ _ Hp) as (Hwf & Hu & r' & cu & ? & ? & ? & Hcu & Hcw).
      split_and!; try done. exists r', cu. rewrite !lookup_insert_ne //. set_solver.
  - simpl. intros w c' [[<- <-]|[Hne Hw]]%lookup_insert_Some Hwf.
    + by rewrite lookup_insert_eq.
    + rewrite lookup_insert_ne //. by eapply (i_prev_dom _ _ _ Hinv).
  - simpl. intros w u rid l1 l2 Hd. rewrite lookup_insert_ne; [by apply (i_prev_order _ _ _ Hinv _ _ _ l1)|].
    intros <-. rewrite Hd in Hn. set_solver.
Qed.

Lemma inv_weaken D (ex ex' : string → RouteEdge → Prop) s :
  (∀ v r, ex v r → ex' v r) → inv D ex s → inv D ex' s.
Proof using costs_u32.
  intros Hex [H1 H2 H3 H4 H5 H6 H7 H8 H9 H10]. split; try done.
  intros v cv r w Hv Hcv Hr Hw Hn. apply (H6 v cv r w); auto.
Qed.

Lemma relax_inv D ex s cc sys r next :
  inv D ex s → sys ∈ D → best s !! sys = Some cc →
  (∀ v cv, v ∈ D → best s !! v = Some cv → cv ≤ cc) →
  r ∈ routes m → other_end r sys = Some next →
  ∃ s', relax cc sys s r = Ok s' ∧ inv D (λ v r', ex v r' ∧ ¬ (v = sys ∧ r' = r)) s'
    ∧ ∀ v, v ∈ D → best s' !! v = best s !! v.
Proof using costs_u32.
  intros Hinv Hsys Hcc Hmax Hr Hend. rewrite /relax Hend /=.
  change (u32_saturating_add cc (travel_cost r)) with (sat (cc + travel_cost r)).
  destruct (is_none_or _ _) eqn:Hup.
  - assert (∀ old, best s !! next = Some old → sat (cc + travel_cost r) < old) as Hlt.
    { intros old Hold. rewrite Hold /= in Hup. by bool_to_prop. }
    assert (next ∉ D) as Hn.
    { intros Hin. destruct (i_done _ _ _ Hinv _ Hin) as [cn Hcn].
      specialize (Hlt _ Hcn). specialize (Hmax _ _ Hin Hcn). pose proof (cost_nonneg r Hr).
      destruct (i_walk _ _ _ Hinv _ _ Hcc) as (k & _ & ->).
      destruct (i_walk _ _ _ Hinv _ _ Hcn) as (k' & _ & ->). rewrite /sat in Hlt, Hmax. lia. }
    eexists. split; [reflexivity|]. split; [by eapply update_inv|].
    intros v Hv. simpl. rewrite lookup_insert_ne //. set_solver.
  - exists s. split; [done|]. split; [|done]. destruct (best s !! next) as [cn|] eqn:Hcn; [|done].
    simpl in Hup. bool_to_prop. destruct Hinv as [H1 H2 H3 H4 H5 H6 H7 H8 H9 H10].
    split; try done. intros v cv r' w Hv Hcv Hr' Hw Hex.
    destruct (decide (v = sys ∧ r' = r)) as [[-> ->]|Hvr]; [|apply (H6 v cv r' w); tauto].
    simplify_eq. eauto.
Qed.

(** The routes of [sys] still to be relaxed. *)
Definition pending (sys : string) (rs : list RouteEdge) (v : string) (r : RouteEdge) : Prop :=
  v = sys ∧ r ∈ rs.

Lemma relax_all_inv D s cc sys rs :
  inv D (pending sys rs) s → sys ∈ D → best s !! sys = Some cc →
  (∀ v cv, v ∈ D → best s !! v = Some cv → cv ≤ cc) →
  (∀ r, r ∈ rs → r ∈ routes m ∧ is_Some (other_end r sys)) →
  ∃ s', relax_all cc sys s rs = Ok s' ∧ inv D (λ _ _, False) s'.
Proof using costs_u32.
  revert s. induction rs as [|r rs IH]; intros s Hinv Hsys Hcc Hmax Hrs; simpl.
  { exists s. split; [done|]. eapply inv_weaken; [|done]. by intros v r [_ ?%elem_of_nil]. }
  destruct (Hrs r) as [Hr [next Hend]]; [by constructor|].
  destruct (relax_inv D _ s cc sys r next Hinv) as (s1 & -> & Hinv1 & Hkeep); try done. simpl.
  apply IH.
  - eapply inv_weaken; [|done]. rewrite /pending. intros v r' [[-> Hr'] Hne].
    apply elem_of_cons in Hr'. split; [done|]. destruct Hr' as [->|]; [|done]. by destruct Hne.
  - done.
  - by rewrite Hkeep.
  - intros v cv Hv. rewrite Hkeep //. by apply Hmax.
  - intros r' Hr'. apply Hrs. by constructor.
Qed.

(** ** Popping the frontier *)

Lemma entry_leb_fst a b : entry_leb a b = true → a.1 ≤ b.1.
Proof using Type.
  rewrite /entry_leb. intros [?%Z.ltb_lt|[?%Z.eqb_eq _]%andb_true_iff]%orb_true_iff; lia.
Qed.

Lemma entry_leb_total a b : entry_leb a b = true ∨ entry_leb b a = true.
Proof using Type.
  rewrite /entry_leb. destruct (Z.ltb_spec a.1 b.1), (Z.ltb_spec b.1 a.1); simpl; auto.
  assert (a.1 = b.1) as -> by lia. rewrite !Z.eqb_refl. apply str_leb_total.
Qed.

Lemma pop_first_spec f :
  match pop_first f with
  | None => f = ∅
  | Some (x, f') => x ∈ f ∧ f' = f ∖ {[x]} ∧ ∀ y, y ∈ f → x.1 ≤ y.1
  end.
Proof using Type.
  rewrite /pop_first.
  pose proof (elem_of_sort_by entry_leb) as Hel.
  pose proof (sort_by_sorted entry_leb entry_leb_total (elements f)) as Hs.
  destruct (sort_by entry_leb (elements f)) as [|x l] eqn:E.
  - apply leibniz_equiv, elements_empty_iff, Permutation_nil_r. by rewrite -E sort_by_perm.
  - assert (∀ y, y ∈ f ↔ y ∈ x :: l) as Hf.
    { intros y. rewrite -E Hel elem_of_elements. done. }
    split; [apply Hf; by constructor|]. split; [done|].
    assert (Sorted (λ a b : Z * string, a.1 ≤ b.1) (x :: l)) as Hs'
      by (eapply Sorted_weaken; [apply entry_leb_fst|done]).
    apply Sorted_StronglySorted in Hs'; [|intros ???; lia].
    apply StronglySorted_inv in Hs' as [_ Hall]. rewrite Forall_forall in Hall.
    intros y [->|Hy]%Hf%elem_of_cons; [lia|]. by apply Hall.
Qed.

Lemma pop_inv D s c v f :
  inv D (λ _ _, False) s → pop_first (frontier s) = Some ((c, v), f) →
  best s !! v = Some c ∧ v ∉ D
  ∧ (∀ x cx, x ∈ v :: D → best s !! x = Some cx → cx ≤ c)
  ∧ (∀ x cx, x ∉ D → best s !! x = Some cx → c ≤ cx)
  ∧ inv (v :: D) (pending v (adjacent_routes m v)) (s <| frontier := f |>).
Proof using costs_u32.
  intros Hinv Hpop. pose proof (pop_first_spec (frontier s)) as Hp. rewrite Hpop in Hp.
  destruct Hp as (Hin & -> & Hmin). apply (i_front _ _ _ Hinv) in Hin as [Hc Hv].
  assert (∀ x cx, x ∉ D → best s !! x = Some cx → c ≤ cx) as Hlow.
  { intros x cx Hx Hcx. apply (Hmin (cx, x)). by apply (i_front _ _ _ Hinv). }
  assert (∀ x cx, x ∈ v :: D → best s !! x = Some cx → cx ≤ c) as Hhigh.
  { intros x cx [->|Hx]%elem_of_cons Hcx; [simplify_eq; lia|].
    by apply (i_order _ _ _ Hinv x v). }
  split_and!; try done.
  destruct Hinv as [H1 H2 H3 H4 H5 H6 H7 H8 H9 H10]. split; simpl; try done.
  - intros c' w. rewrite elem_of_difference elem_of_singleton H3 not_elem_of_cons.
    split; [|naive_solver]. intros ((Hw & HD) & Hne). split_and!; try done. naive_solver.
  - intros w [->|?]%elem_of_cons; [eauto|by apply H4].
  - by constructor.
  - intros w cw r x [->|Hw]%elem_of_cons Hcw Hr Hx Hn; [|by apply (H6 w cw r x); auto].
    destruct Hn. split; [done|]. apply adjacent_routes_spec. eauto.
  - intros x w cx cw Hx [Hwv Hw]%not_elem_of_cons Hcx Hcw.
    transitivity c; [by apply (Hhigh x)|by apply (Hlow w)].
  - intros w u rid Hp. destruct (H8 w u rid Hp) as (? & ? & ?). split_and!; try done.
    apply elem_of_cons. by right.
  - intros w u rid l1 l2 Hd Hp. destruct l1 as [|y l1]; simplify_eq/=.
    + by destruct (H8 _ _ _ Hp) as (_ & ? & _).
    + by apply (H10 w u rid l1 l2).
Qed.

(** ** The search ends and is optimal *)

Definition node_list : list string :=
  from :: (routes m ≫= λ r, [from_system_id r; to_system_id r]).

Lemma walk_node v k : walk v k → v ∈ node_list.
Proof using costs_u32.
  intros [|u k' r w _ Hr Hw]; [by constructor|]. apply elem_of_cons. right.
  apply list_elem_of_bind. exists r. split; [|done]. revert Hw. rewrite /other_end.
  repeat case_match; intros; simplify_eq; set_solver.
Qed.

Lemma length_node_list : length node_list = (2 * length (routes m) + 1)%nat.
Proof using Type.
  rewrite /node_list length_cons.
  assert (∀ l, length (l ≫= λ r, [from_system_id r; to_system_id r]) = 2 * length l)%nat as ->;
    [|lia].
  induction l as [|r l IH]; [done|]. rewrite bind_cons length_app IH /=. lia.
Qed.

Lemma done_length D ex s : inv D ex s → (length D ≤ length node_list)%nat.
Proof using costs_u32.
  intros Hinv. apply submseteq_length, NoDup_submseteq; [apply (i_nodup _ _ _ Hinv)|].
  intros v Hv. destruct (i_done _ _ _ Hinv _ Hv) as [c Hc].
  destruct (i_walk _ _ _ Hinv _ _ Hc) as (k & Hk & _). by eapply walk_node.
Qed.

(** How the search ends: with nothing left to settle, or about to settle [to_]
    which is then the cheapest unsettled system. *)
Definition ended (to_ : string) (D : list string) (s : search) : Prop :=
  inv D (λ _ _, False) s
  ∧ (frontier s = ∅
     ∨ ∃ c, best s !! to_ = Some c ∧ to_ ∉ D
         ∧ (∀ x cx, x ∈ D → best s !! x = Some cx → cx ≤ c)
         ∧ (∀ x cx, x ∉ D → best s !! x = Some cx → c ≤ cx)).

Lemma search_loop_ends to_ fuel D s :
  inv D (λ _ _, False) s → (length node_list < fuel + length D)%nat →
  ∃ D' s0 s', search_loop m to_ fuel s = Some (Ok s') ∧ ended to_ D' s0
    ∧ best s' = best s0 ∧ previous s' = previous s0.
Proof using costs_u32.
  revert D s. induction fuel as [|fuel IH]; intros D s Hinv Hfuel; simpl.
  { pose proof (done_length _ _ _ Hinv). lia. }
  destruct (pop_first (frontier s)) as [[[c v] f]|] eqn:Hpop.
  - destruct (pop_inv _ _ _ _ _ Hinv Hpop) as (Hc & Hv & Hhigh & Hlow & Hinv').
    destruct (String.eqb_spec v to_) as [->|Hne].
    { exists D, s, (s <| frontier := f |>). split_and!; try done. split; [done|]. right.
      exists c. split_and!; try done. intros x cx Hx. apply Hhigh. by right. }
    cbn [best set_field]. rewrite Hc /= Z.ltb_irrefl.
    destruct (relax_all_inv (v :: D) (s <| frontier := f |>) c v (adjacent_routes m v))
      as (s' & -> & Hs'); try done; [by left|by intros r ?%adjacent_routes_spec|].
    apply (IH (v :: D)); [done|]. rewrite length_cons. lia.
  - exists D, s, s. split_and!; try done. split; [done|]. left.
    pose proof (pop_first_spec (frontier s)) as Hp. by rewrite Hpop in Hp.
Qed.

(** Everything settled is at its cheapest, and nothing unsettled is cheaper. *)
Lemma ended_optimal to_ D s v k :
  ended to_ D s → walk v k →
  (v ∈ D → ∃ c, best s !! v = Some c ∧ c ≤ sat k)
  ∧ (v ∉ D → ∃ c, best s !! to_ = Some c ∧ to_ ∉ D ∧ c ≤ sat k).
Proof using costs_u32.
  intros [Hinv Hend]. induction 1 as [|v k r w Hwalk [IHin IHout] Hr Hw].
  - split; [intros _; exists 0; split; [apply (i_from _ _ _ Hinv)|done]|]. intros Hn.
    destruct Hend as [Hf|(c & Hc & Hto & _ & Hlow)].
    + assert ((0, from) ∈ frontier s) as Hin.
      { apply (i_front _ _ _ Hinv). split; [apply (i_from _ _ _ Hinv)|done]. }
      rewrite Hf in Hin. set_solver.
    + exists c. split_and!; try done. apply (Hlow from); [done|apply (i_from _ _ _ Hinv)].
  - pose proof (cost_nonneg r Hr) as Hcost.
    assert (sat k ≤ sat (k + travel_cost r)) as Hmono by (apply sat_mono; lia).
    destruct (decide (v ∈ D)) as [Hv|Hv].
    + destruct (IHin Hv) as (cv & Hcv & Hle).
      destruct (i_relaxed _ _ _ Hinv v cv r w) as (cw & Hcw & Hcle); try done; [tauto|].
      assert (cw ≤ sat (k + travel_cost r)) as Hcw'.
      { etrans; [exact Hcle|]. rewrite -(sat_sat_add k) //. apply sat_mono. lia. }
      split; [eauto|]. intros Hn. destruct Hend as [Hf|(c & Hc & Hto & _ & Hlow)].
      * assert ((cw, w) ∈ frontier s) as Hin by (by apply (i_front _ _ _ Hinv)).
        rewrite Hf in Hin. set_solver.
      * exists c. split_and!; try done. specialize (Hlow w cw Hn Hcw). lia.
    + destruct (IHout Hv) as (c & Hc & Hto & Hle). split; [|intros _; exists c; split_and!; try done; lia].
      intros Hwd. destruct (i_done _ _ _ Hinv _ Hwd) as [cw Hcw]. exists cw. split; [done|].
      pose proof (i_order _ _ _ Hinv w to_ cw c Hwd Hto Hcw Hc). lia.
Qed.

Lemma ended_target to_ D s k :
  ended to_ D s → walk to_ k → ∃ c, best s !! to_ = Some c ∧ c ≤ sat k.
Proof using costs_u32.
  intros He Hw. destruct (ended_optimal to_ D s to_ k He Hw) as [Hin Hout].
  destruct (decide (to_ ∈ D)); [auto|]. destruct Hout as (c & ? & _ & ?); eauto.
Qed.

(** What [shortest_paths] returns. *)
Lemma shortest_paths_ends to_ :
  from ≠ to_ →
  ∃ D s, ended to_ D s
    ∧ shortest_paths m from to_ =
      Some (if decide (is_Some (best s !! to_)) then Ok (previous s)
            else Err "no travel path found between systems").
Proof using costs_u32.
  intros Hne.
  destruct (search_loop_ends to_ (search_fuel m) [] (search_init from)) as
    (D & s0 & s' & Hrun & He & Hb & Hp); [apply inv_init| |].
  { rewrite length_node_list /search_fuel /=. lia. }
  exists D, s0. split; [done|]. rewrite /shortest_paths Hrun /= Hp.
  destruct He as [Hinv _]. destruct (previous s0 !! to_) as [[u rid]|] eqn:E; simpl.
  - destruct (i_prev _ _ _ Hinv _ _ _ E) as (_ & _ & r & cu & _ & _ & _ & _ & Hbest).
    by rewrite decide_True.
  - rewrite decide_False //. intros [c Hc]. destruct (i_prev_dom _ _ _ Hinv _ _ Hc); [done|].
    congruence.
Qed.

(** ** Reconstruction *)

(** [hops p k]: consecutive systems of [p] are joined by routes of total cost
    [k]. *)
Inductive hops : list string → Z → Prop :=
  | hops_one v : hops [v] 0
  | hops_cons u v l r k :
      r ∈ routes m → other_end r u = Some v → hops (v :: l) k →
      hops (u :: v :: l) (travel_cost r + k).

Lemma hops_nonneg l k : hops l k → 0 ≤ k.
Proof using costs_u32.
  induction 1 as [|u v l r k Hr _ _ IH]; [lia|]. pose proof (cost_nonneg r Hr). lia.
Qed.

(** A system whose predecessor was settled before those of [l2] is left. *)
Lemma reconstruct_ok D s to_ ct : inv D (λ _ _, False) s →
  ∀ n l1 l2 w l k cw, D = l1 ++ l2 → (length l2 ≤ n)%nat →
    (∀ u rid, previous s !! w = Some (u, rid) → u ∈ l2) → w ≠ from →
    best s !! w = Some cw → ct = sat (cw + k) → hops (w :: l) k → last (w :: l) = Some to_ →
    ∃ p k', reconstruct_go (previous s) from n (w :: l) w = Some (Ok p)
      ∧ head p = Some from ∧ last p = Some to_ ∧ hops p k' ∧ ct = sat k'.
Proof using costs_u32.
  intros Hinv. induction n as [|n IH]; intros l1 l2 w l k cw HD Hn Hpred Hwf Hcw Hct Hh Hlast.
  { destruct (i_prev_dom _ _ _ Hinv _ _ Hcw Hwf) as [[u rid] Hp].
    apply Hpred in Hp. destruct l2; [by apply elem_of_nil in Hp|simpl in Hn; lia]. }
  destruct (i_prev_dom _ _ _ Hinv _ _ Hcw Hwf) as [[u rid] Hp]. simpl. rewrite Hp.
  destruct (i_prev _ _ _ Hinv _ _ _ Hp) as (_ & Hu & r & cu & Hr & _ & Hend & Hcu & Hcw').
  assert (hops (u :: w :: l) (travel_cost r + k)) as Hh' by by constructor.
  assert (ct = sat (cu + (travel_cost r + k))) as Hct'.
  { rewrite Hct. simplify_eq. rewrite sat_sat_add; [f_equal; lia|by eapply hops_nonneg]. }
  destruct (String.eqb_spec u from) as [->|Huf].
  - exists (from :: w :: l), (travel_cost r + k). split_and!; try done.
    rewrite (i_from _ _ _ Hinv) in Hcu. simplify_eq. done.
  - pose proof (Hpred _ _ Hp) as Hu2. apply list_elem_of_split in Hu2 as (a & b & ->).
    apply (IH (l1 ++ a ++ [u]) b u (w :: l) (travel_cost r + k) cu); try done.
    + by rewrite HD -!app_assoc.
    + rewrite length_app /= in Hn. lia.
    + intros x rid' Hx. apply (i_prev_order _ _ _ Hinv u x rid' (l1 ++ a)); [|done].
      by rewrite HD -app_assoc.
Qed.

Lemma done_prev_length D s :
  inv D (λ _ _, False) s → (length D ≤ S (size (previous s)))%nat.
Proof using costs_u32.
  intros Hinv. pose proof (i_nodup _ _ _ Hinv) as Hnd.
  rewrite -(size_list_to_set (C := gset string) D) //.
  assert (list_to_set D ⊆ {[from]} ∪ dom (previous s)) as Hsub.
  { intros v Hv%elem_of_list_to_set. destruct (decide (v = from)) as [->|Hne]; [set_solver|].
    destruct (i_done _ _ _ Hinv _ Hv) as [c Hc]. apply elem_of_union_r, elem_of_dom.
    by eapply (i_prev_dom _ _ _ Hinv). }
  apply subseteq_size in Hsub. rewrite size_union in Hsub.
  - rewrite size_singleton size_dom in Hsub. lia.
  - intros x ->%elem_of_singleton [[u rid] Hp]%elem_of_dom.
    by destruct (i_prev _ _ _ Hinv _ _ _ Hp) as [? _].
Qed.

(** The path found: it exists when there is a walk, and costs the least. *)
Lemma path_found to_ :
  from ≠ to_ →
  (∀ k, ¬ walk to_ k) ∧ shortest_paths m from to_ = Some (Err "no travel path found between systems")
  ∨ ∃ prev p k, shortest_paths m from to_ = Some (Ok prev)
      ∧ reconstruct_traversed_systems prev from to_ = Some (Ok p)
      ∧ head p = Some from ∧ last p = Some to_ ∧ hops p k
      ∧ ∀ k', walk to_ k' → sat k ≤ sat k'.
Proof using costs_u32.
  intros Hne. destruct (shortest_paths_ends to_ Hne) as (D & s & He & Hsp).
  rewrite Hsp. pose proof (proj1 He) as Hinv.
  pose proof (λ k, ended_target to_ D s k He) as Hopt. clear He Hsp.
  destruct (best s !! to_) as [c|] eqn:Hc; simpl.
  - right.
    destruct (reconstruct_ok D s to_ c Hinv (S (size (previous s))) [] D to_ [] 0 c)
      as (p & k & Hp & Hh & Hl & Hk & ->); try done.
    + by apply done_prev_length.
    + intros u rid Hu. by destruct (i_prev _ _ _ Hinv _ _ _ Hu) as (_ & ? & _).
    + destruct (i_walk _ _ _ Hinv _ _ Hc) as (k & _ & ->). rewrite Z.add_0_r /sat. lia.
    + constructor.
    + exists (previous s), p, k. split_and!; try done. intros k' Hk'.
      destruct (Hopt k' Hk') as (c' & Hc' & Hle). congruence.
  - left. split; [|done]. intros k Hk.
    destruct (Hopt k Hk) as (c' & Hc' & _). congruence.
Qed.

(** ** Legs *)

Lemma other_end_connects r u v : other_end r u = Some v → connects u v r = true.
Proof using Type.
  rewrite /other_end /connects.
  destruct (String.eqb_spec (from_system_id r) u) as [->|]; [intros [= <-]; by rewrite String.eqb_refl|].
  destruct (String.eqb_spec (to_system_id r) u) as [->|]; [|done].
  intros [= <-]. by rewrite !String.eqb_refl orb_true_r.
Qed.

(** Parallel routes, if any, cost the same. *)
Definition parallel_equal : Prop :=
  ∀ a b r r', r ∈ routes m → r' ∈ routes m → connects a b r = true → connects a b r' = true →
  travel_cost r = travel_cost r'.

Lemma build_legs_ok g p k :
  hops p k →
  ∃ ls, build_travel_legs m g p = Ok ls
    ∧ p = match p with [] => [] | u :: _ => u :: (leg_to <$> ls) end
    ∧ Forall (λ l, ∃ r, r ∈ routes m ∧ route_id r = leg_route_id l
         ∧ travel_cost r = leg_travel_cost l ∧ connects (leg_from l) (leg_to l) r = true) ls
    ∧ (parallel_equal → zsum (leg_travel_cost <$> ls) = k).
Proof using Type.
  induction 1 as [v|u v l r k Hr Hend _ (ls & Hls & Hp & Hall & Hsum)].
  { exists []. split_and!; try done. }
  pose proof (other_end_connects _ _ _ Hend) as Hc.
  destruct (find_first (connects u v) (routes m)) as [r'|] eqn:Hf.
  2: { rewrite find_first_None in Hf. by rewrite (Hf r Hr) in Hc. }
  apply find_first_Some in Hf as Hf'. destruct Hf' as [Hc' Hr'].
  cbn [build_travel_legs] in *. rewrite Hf /=. rewrite Hls /=.
  eexists. split; [reflexivity|]. split; [csimpl; by rewrite {1}Hp|]. split.
  - constructor; [|done]. exists r'. split_and!; done.
  - intros Hpar. rewrite fmap_cons zsum_cons Hsum //. f_equal. by apply (Hpar u v).
Qed.
End dijkstra.

(** ** Plans *)

Lemma hops_walk m from u l k k0 v :
  hops m (u :: l) k → walk m from u k0 → last (u :: l) = Some v → walk m from v (k0 + k).
Proof.
  remember (u :: l) as p eqn:Hp. intros Hh. revert u l k0 Hp.
  induction Hh as [w|a b l' r k Hr Hend _ IH]; intros u l k0 Hp Hw Hl; simplify_eq.
  - simpl in Hl. simplify_eq. by rewrite Z.add_0_r.
  - rewrite Z.add_assoc. apply (IH b l'); [done| |done]. by eapply walk_step.
Qed.

Lemma foldl_u32_sum (f : TravelLeg → Z) ls a :
  foldl (λ acc l, u32_wrap (acc + f l)) a ls mod 2 ^ 32 = (a + zsum (f <$> ls)) mod 2 ^ 32.
Proof.
  revert a. induction ls as [|l ls IH]; intros a; [by rewrite Z.add_0_r|].
  rewrite fmap_cons zsum_cons /= IH /u32_wrap Z.add_assoc.
  by rewrite Zplus_mod_idemp_l.
Qed.

Lemma foldl_u32_exact (f : TravelLeg → Z) ls :
  0 ≤ zsum (f <$> ls) < 2 ^ 32 → foldl (λ acc l, u32_wrap (acc + f l)) 0 ls = zsum (f <$> ls).
Proof.
  intros Hs. pose proof (foldl_u32_sum f ls 0) as Hm. rewrite Z.add_0_l in Hm.
  rewrite (Z.mod_small (zsum _)) // in Hm. rewrite -Hm.
  destruct ls as [|l ls _] using rev_ind; [done|]. rewrite foldl_app /= /u32_wrap.
  by rewrite Zmod_mod.
Qed.

Section plan.
Context (m : GalaxyMap) (g : GalaxyState) (from to_ : string).
Context (costs_u32 : Forall (λ r, 0 ≤ travel_cost r ≤ u32_max) (routes m)).
Context (different : from ≠ to_).
Context (from_exists : ensure_system_exists m from = Ok tt).
Context (to_exists : ensure_system_exists m to_ = Ok tt).

(** Either there is no way, or the plan follows a cheapest path. *)
Lemma travel_plan_cases :
  (∀ k, ¬ walk m from to_ k)
    ∧ travel_plan m g from to_ = Some (Err "no travel path found between systems")
  ∨ ∃ plan p k,
      travel_plan m g from to_ = Some (Ok plan)
      ∧ traversed_system_ids plan = p ∧ head p = Some from ∧ last p = Some to_
      ∧ hops m p k ∧ (∀ k', walk m from to_ k' → sat k ≤ sat k')
      ∧ build_travel_legs m g p = Ok (legs plan)
      ∧ total_travel_cost plan = foldl (λ a l, u32_wrap (a + leg_travel_cost l)) 0 (legs plan)
      ∧ plan_risk_level plan = risk_level (max_leg_risk plan)
      ∧ max_leg_risk plan = foldl Z.max 0 (leg_risk <$> legs plan).
Proof using costs_u32 different from_exists to_exists.
  rewrite /travel_plan (proj2 (String.eqb_neq from to_)) // from_exists to_exists.
  destruct (path_found m from costs_u32 to_ different) as
    [[Hno Hsp]|(prev & p & k & Hsp & Hrec & Hh & Hl & Hk & Hopt)]; rewrite Hsp /=.
  { left. done. }
  right. rewrite Hrec /=. destruct (build_legs_ok m g p k Hk) as (ls & Hls & _).
  rewrite Hls /=. eexists _, p, k. split; [reflexivity|]. by split_and!.
Qed.

(** C17: planning always answers: no loop runs out of fuel. It reports that there
    is no path exactly when the routes do not connect the two systems; otherwise
    the plan visits systems from the start to the destination, and each leg is a
    route of the map between consecutive systems. *)
Theorem travel_plan_spec :
  (∀ k, ¬ walk m from to_ k)
    ∧ travel_plan m g from to_ = Some (Err "no travel path found between systems")
  ∨ (∃ k, walk m from to_ k) ∧ ∃ plan,
      travel_plan m g from to_ = Some (Ok plan)
      ∧ head (traversed_system_ids plan) = Some from
      ∧ last (traversed_system_ids plan) = Some to_
      ∧ traversed_system_ids plan = from :: (leg_to <$> legs plan)
      ∧ Forall (λ l, ∃ r, r ∈ routes m ∧ route_id r = leg_route_id l
           ∧ travel_cost r = leg_travel_cost l ∧ connects (leg_from l) (leg_to l) r = true)
         (legs plan).
Proof using costs_u32 different from_exists to_exists.
  destruct travel_plan_cases as
    [Hno|(plan & p & k & Hrun & Hp & Hh & Hl & Hk & _ & Hls & _)]; [by left|right].
  destruct (build_legs_ok m g p k Hk) as (ls & Hls' & Hpath & Hall & _).
  rewrite Hls in Hls'. injection Hls' as <-.
  destruct p as [|u p]; [done|]. simpl in Hh. injection Hh as ->. split.
  - exists (0 + k). eapply hops_walk; [exact Hk|constructor|exact Hl].
  - exists plan. rewrite Hp. split_and!; try done.
Qed.

(** C5: when parallel routes cost the same, the plan is a cheapest one: no way
    through the map whose cost fits below the 32-bit maximum is cheaper. *)
Theorem travel_plan_optimal plan k :
  parallel_equal m → travel_plan m g from to_ = Some (Ok plan) →
  walk m from to_ k → k < u32_max → total_travel_cost plan ≤ k.
Proof using costs_u32 different from_exists to_exists.
  intros Hpar Hplan Hw Hk.
  destruct travel_plan_cases as
    [[Hno _]|(plan' & p & kp & Hrun & _ & _ & _ & Hhops & Hopt & Hls & Htot & _)];
    [by destruct (Hno k)|].
  rewrite Hplan in Hrun. injection Hrun as <-.
  destruct (build_legs_ok m g p kp Hhops) as (ls & Hls' & _ & _ & Hsum).
  rewrite Hls in Hls'. injection Hls' as <-. specialize (Hsum Hpar). specialize (Hopt k Hw).
  pose proof (hops_nonneg m costs_u32 p kp Hhops) as Hkp.
  rewrite /sat in Hopt. assert (kp ≤ k) by lia.
  rewrite Htot foldl_u32_exact; [lia|]. rewrite Hsum. rewrite /u32_max in Hk. lia.
Qed.
End plan.

(** ** Concrete maps *)

Module TravelScenario.
Definition genesis : GalaxyMap := default_genesis_map (λ _, 0).
Definition galaxy : GalaxyState := default_with_core_zones.

Lemma genesis_costs : Forall (λ r, 0 ≤ travel_cost r ≤ u32_max) (routes genesis).
Proof. repeat constructor; simpl; discriminate. Qed.

Lemma genesis_walk : walk genesis "genesis-prime" "abyss-watch" 8.
Proof.
  apply (walk_step _ _ "frontier-gate" 3
    (mkRouteEdge "route-frontier-abyss" "frontier-gate" "abyss-watch" 5 7 6)).
  - apply (walk_step _ _ "genesis-prime" 0
      (mkRouteEdge "route-genesis-frontier" "genesis-prime" "frontier-gate" 3 2 10)).
    + constructor.
    + by left.
    + reflexivity.
  - by right; left.
  - reflexivity.
Qed.

Lemma travel_plan_spec_witness :
  ∃ plan, travel_plan genesis galaxy "genesis-prime" "abyss-watch" = Some (Ok plan)
    ∧ last (traversed_system_ids plan) = Some "abyss-watch".
Proof.
  destruct (travel_plan_spec genesis galaxy "genesis-prime" "abyss-watch" genesis_costs)
    as [[Hno _]|[_ (plan & H1 & _ & H2 & _)]]; [discriminate|reflexivity|reflexivity| |].
  - destruct (Hno 8 genesis_walk).
  - exact (ex_intro _ plan (conj H1 H2)).
Defined.

Lemma genesis_parallel : parallel_equal genesis.
Proof.
  intros a b r r' Hr Hr'.
  apply elem_of_cons in Hr as [->|[->|[]%elem_of_nil]%elem_of_cons];
    apply elem_of_cons in Hr' as [->|[->|[]%elem_of_nil]%elem_of_cons]; try done;
    rewrite /connects; cbn [from_system_id to_system_id]; intros H1 H2; exfalso;
    bool_to_prop; congruence.
Qed.

Lemma travel_plan_optimal_witness :
  ∃ plan, travel_plan genesis galaxy "genesis-prime" "abyss-watch" = Some (Ok plan)
    ∧ total_travel_cost plan ≤ 8.
Proof.
  destruct (travel_plan genesis galaxy "genesis-prime" "abyss-watch") as [[plan|e]|] eqn:E.
  2,3: vm_compute in E; discriminate E.
  exists plan. split; [reflexivity|].
  refine (travel_plan_optimal genesis galaxy "genesis-prime" "abyss-watch" genesis_costs _ _ _
    plan 8 genesis_parallel E genesis_walk _); [discriminate|reflexivity|reflexivity|reflexivity].
Defined.

(** The genesis map with a second, cheaper route to the frontier. *)
Definition slow : RouteEdge := mkRouteEdge "slow" "genesis-prime" "frontier-gate" 9 2 10.
Definition fast : RouteEdge := mkRouteEdge "fast" "genesis-prime" "frontier-gate" 1 2 10.
Definition twin : GalaxyMap :=
  mkGalaxyMap "twin" "" "" false (systems genesis) [slow; fast] [] 0 0.

(** On a valid map with two routes between the same systems the plan may not
    be a cheapest one: the search counts the cheap route, the leg is built from
    the first route of the map that connects the two systems. *)
Theorem parallel_routes_not_optimal :
  validate_map twin (zones galaxy) = Ok tt
  ∧ walk twin "genesis-prime" "frontier-gate" 1
  ∧ ∃ plan, travel_plan twin galaxy "genesis-prime" "frontier-gate" = Some (Ok plan)
      ∧ total_travel_cost plan = 9.
Proof.
  split_and!.
  - vm_compute. reflexivity.
  - apply (walk_step _ _ "genesis-prime" 0 fast); [constructor|by right; left|reflexivity].
  - eexists. split; vm_compute; reflexivity.
Qed.
End TravelScenario.
