(* ===== verification/TravelState.v ===== *)
(** * Travel sessions and arrivals

    [map/state.rs] and [map/consequence.rs]: where each public identity is, its
    departure along a plan and its arrival, the anchor position of a new
    identity, and what it finds on arrival (local missions, the government of
    the subnet it lands on). *)

From S2P Require Import Prelude Collections Text Galaxy GalaxyMap Travel.
From S2P Require Profiles Missions Governance.
#[local] Open Scope Z_scope.

(** ** Arrival consequences *)

Record TravelMissionHighlight := mkTravelMissionHighlight {
  hl_mission_id : string;
  hl_title : string;
  hl_domain : Missions.MissionDomain;
}.

Record TravelMissionImpact := mkTravelMissionImpact {
  open_local_count : nat;
  eligible_local_count : nat;
  highlighted : list TravelMissionHighlight;
}.

Record TravelGovernanceImpact := mkTravelGovernanceImpact {
  gi_subnet_id : string;
  gi_planet_name : string;
  gi_government_status : Governance.GovernmentStatus;
  gi_stability : Z;
  gi_treasury_watt : Z;
}.

Record TravelConsequence := mkTravelConsequence {
  consequence_id : string;
  tc_public_id : string;
  tc_map_id : string;
  tc_system_id : string;
  tc_planet_id : option string;
  tc_zone_id : option string;
  route_risk_level : TravelRiskLevel;
  route_total_risk : Z;
  warning_codes : list string;
  mission_impact : TravelMissionImpact;
  governance_impact : option TravelGovernanceImpact;
  summary : string;
  tc_created_at : Z;
}.

(** ** Positions and sessions *)

Record TravelPosition := mkTravelPosition {
  pos_map_id : string;
  pos_system_id : string;
  pos_planet_id : option string;
  pos_zone_id : option string;
  pos_updated_at : Z;
}.
#[global] Instance eta_TravelPosition : Eta TravelPosition := λ p,
  mkTravelPosition (pos_map_id p) (pos_system_id p) (pos_planet_id p) (pos_zone_id p)
    (pos_updated_at p).

Inductive TravelSessionStatus := InTransit.

Record TravelSession := mkTravelSession {
  session_id : string;
  session_map_id : string;
  from_system_id : string;
  to_system_id : string;
  plan : TravelPlan;
  session_status : TravelSessionStatus;
  departed_at : Z;
  session_updated_at : Z;
}.

Record TravelStateRecord := mkTravelStateRecord {
  public_id : string;
  controller_id : string;
  current_position : TravelPosition;
  active_session : option TravelSession;
  last_consequence : option TravelConsequence;
  recent_consequences : list TravelConsequence;
  ts_updated_at : Z;
}.
#[global] Instance eta_TravelStateRecord : Eta TravelStateRecord := λ r,
  mkTravelStateRecord (public_id r) (controller_id r) (current_position r) (active_session r)
    (last_consequence r) (recent_consequences r) (ts_updated_at r).

Definition TravelStateRegistry : Type := gmap string TravelStateRecord.

Definition get (reg : TravelStateRegistry) (id : string) : option TravelStateRecord := reg !! id.

Definition fresh_record (now : Z) (id controller : string) (position : TravelPosition)
    : TravelStateRecord :=
  {| public_id := id; controller_id := controller; current_position := position;
     active_session := None; last_consequence := None; recent_consequences := [];
     ts_updated_at := now |}.

Definition ensure_position (now : Z) (id controller : string) (position : TravelPosition)
    : stm TravelStateRegistry TravelStateRecord := λ reg,
  match reg !! id with
  | Some existing => (Ok existing, reg)
  | None => let record := fresh_record now id controller position in
            (Ok record, <[id := record]> reg)
  end.

Definition set_position (now : Z) (id controller : string) (position : TravelPosition)
    : stm TravelStateRegistry TravelStateRecord :=
  let record := fresh_record now id controller position in
  modify <[id := record]>;; mret record.

(** The record is changed in place and returned. *)
Definition put_record (id : string) (record : TravelStateRecord)
    : stm TravelStateRegistry TravelStateRecord :=
  modify <[id := record]>;; mret record.

Definition depart (now : Z) (id controller : string) (p : TravelPlan)
    : stm TravelStateRegistry TravelStateRecord :=
  reg ← gets (λ reg, reg);
  record ← lift (ok_or "travel state missing for public identity" (reg !! id));
  ensure (String.eqb (controller_id record) controller) "travel state controller mismatch";;
  ensure (negb (bool_decide (is_Some (active_session record)))) "travel session already active";;
  ensure (String.eqb (pos_map_id (current_position record)) (plan_map_id p))
    "travel origin map mismatch";;
  ensure (String.eqb (pos_system_id (current_position record)) (plan_from p))
    "travel origin does not match current position";;
  let session :=
    {| session_id := "travel-" +:+ id +:+ "-" +:+ show_Z now; session_map_id := plan_map_id p;
       from_system_id := plan_from p; to_system_id := plan_to p; plan := p;
       session_status := InTransit; departed_at := now; session_updated_at := now |} in
  put_record id (record <| active_session := Some session |> <| ts_updated_at := now |>).

(** [push] and [drain(..overflow)] when there are more than 8. *)
Definition push_consequence (c : TravelConsequence) (l : list TravelConsequence)
    : list TravelConsequence :=
  let l := l ++ [c] in
  if (8 <? length l)%nat then drop (length l - 8) l else l.

(** The record of a traveller that lands. *)
Definition landed (now : Z) (position : TravelPosition) (consequence : option TravelConsequence)
    (record : TravelStateRecord) : TravelStateRecord :=
  let record := record <| active_session := None |>
                       <| current_position := position <| pos_updated_at := now |> |> in
  let record :=
    match consequence with
    | Some c => record <| last_consequence := Some c |>
                       <| recent_consequences ::= push_consequence c |>
    | None => record
    end in
  record <| ts_updated_at := now |>.

Definition arrive_with (now : Z) (id controller : string) (position : TravelPosition)
    (consequence : option TravelConsequence) : stm TravelStateRegistry TravelStateRecord :=
  reg ← gets (λ reg, reg);
  record ← lift (ok_or "travel state missing for public identity" (reg !! id));
  ensure (String.eqb (controller_id record) controller) "travel state controller mismatch";;
  session ← lift (ok_or "no active travel session" (active_session record));
  put_record id (landed now position consequence record).

(** Reads the clock for the position, then again inside [arrive_with]. *)
Definition arrive (clk : clock) (id controller : string)
    : stm TravelStateRegistry TravelStateRecord :=
  reg ← gets (λ reg, reg);
  record ← lift (ok_or "travel state missing for public identity" (reg !! id));
  session ← lift (ok_or "no active travel session" (active_session record));
  let position :=
    {| pos_map_id := session_map_id session; pos_system_id := to_system_id session;
       pos_planet_id := None; pos_zone_id := None; pos_updated_at := clk 0%nat |} in
  arrive_with (clk 1%nat) id controller position None.

(** ** Anchors *)

Definition planet_position (now : Z) (m : GalaxyMap) (sp : StarSystem * PlanetNode)
    : TravelPosition :=
  {| pos_map_id := map_id m; pos_system_id := system_id sp.1;
     pos_planet_id := Some (planet_id sp.2); pos_zone_id := Some (planet_zone_id sp.2);
     pos_updated_at := now |}.

Definition system_position (now : Z) (m : GalaxyMap) (s : StarSystem) : TravelPosition :=
  {| pos_map_id := map_id m; pos_system_id := system_id s;
     pos_planet_id := planet_id <$> head (planets s);
     pos_zone_id := planet_zone_id <$> head (planets s); pos_updated_at := now |}.

(** The planets of a map with their system, in the order of the nested loops. *)
Definition all_planets (m : GalaxyMap) : list (StarSystem * PlanetNode) :=
  systems m ≫= (λ s, pair s <$> planets s).

Definition resolve_anchor_position (now : Z) (m : GalaxyMap)
    (home_subnet_id home_zone_id : option string) : option TravelPosition :=
  let by_subnet := home_subnet_id ≫= (λ subnet,
    find_first (λ sp, bool_decide (planet_subnet_id sp.2 = Some subnet)) (all_planets m)) in
  let by_zone := find_first
    (λ sp, is_some_and (String.eqb (planet_zone_id sp.2)) home_zone_id) (all_planets m) in
  match or_else by_subnet by_zone with
  | Some sp => Some (planet_position now m sp)
  | None => system_position now m <$> head (systems m)
  end.

Definition resolve_system_position (now : Z) (m : GalaxyMap) (id : string)
    : option TravelPosition :=
  system_position now m <$> find_first (λ s, String.eqb (system_id s) id) (systems m).

(** ** What an arrival finds *)

Definition mission_matches_destination (mission : Missions.CivilMission) (p : TravelPosition)
    : bool :=
  bool_decide (Missions.subnet_id mission = pos_planet_id p)
  || bool_decide (Missions.zone_id mission = pos_zone_id p).

Definition mission_matches_profile (mission : Missions.CivilMission)
    (profile : option Profiles.CitizenProfile) : bool :=
  is_none_or (λ required, is_some_and (λ p, bool_decide (Profiles.role p = required)) profile)
    (Missions.required_role mission)
  && is_none_or
       (λ required, is_some_and (λ p, bool_decide (Profiles.faction p = required)) profile)
       (Missions.required_faction mission).

Definition find_subnet_for_planet (m : GalaxyMap) (id : string) : option string :=
  find_first (λ p, String.eqb (planet_id p) id) (systems m ≫= planets) ≫= planet_subnet_id.

Definition government_status_label (s : Governance.GovernmentStatus) : string :=
  match s with
  | Governance.Active => "active"
  | Governance.Recall => "under recall"
  | Governance.Custody => "in custody"
  end.

Definition build_summary (m : GalaxyMap) (p : TravelPosition) (risk : TravelRiskLevel)
    (mi : TravelMissionImpact) (gi : option TravelGovernanceImpact) : string :=
  let system_name :=
    match find_first (λ s, String.eqb (system_id s) (pos_system_id p)) (systems m) with
    | Some s => system_name s
    | None => pos_system_id p
    end in
  let risk_label := match risk with
    | Stable => "stable" | Guarded => "guarded" | Contested => "contested" | Volatile => "volatile"
    end in
  let governance_clause := match gi with
    | None => "no governed subnet is anchored to the current landing point"
    | Some i => gi_planet_name i +:+ " is " +:+ government_status_label (gi_government_status i)
                +:+ " with stability " +:+ show_Z (gi_stability i)
    end in
  show_Z (Z.of_nat (eligible_local_count mi)) +:+ " eligible local missions are now reachable in "
    +:+ system_name +:+ "; route conditions were " +:+ risk_label +:+ "; "
    +:+ governance_clause +:+ ".".

Definition evaluate_arrival_consequence (clk : clock) (id : string) (m : GalaxyMap)
    (p : TravelPosition) (session : TravelSession) (profile : option Profiles.CitizenProfile)
    (missions : Missions.MissionBoard) (governance : Governance.GovernanceEngine)
    : TravelConsequence :=
  let local_open := List.filter (λ mission, mission_matches_destination mission p)
    (Missions.list_missions missions (Some Missions.Open)) in
  let eligible_local := List.filter (λ mission, mission_matches_profile mission profile)
    local_open in
  let gi :=
    planet_id ← pos_planet_id p;
    subnet_id ← find_subnet_for_planet m planet_id;
    planet ← Governance.planet governance subnet_id;
    Some {| gi_subnet_id := Governance.subnet_id planet; gi_planet_name := Governance.name planet;
            gi_government_status := Governance.government_status planet;
            gi_stability := Governance.stability planet;
            gi_treasury_watt := Governance.treasury_watt planet |} in
  let mi :=
    {| open_local_count := length local_open; eligible_local_count := length eligible_local;
       highlighted := (λ mission, mkTravelMissionHighlight (Missions.mission_id mission)
         (Missions.title mission) (Missions.domain mission)) <$> take 3 eligible_local |} in
  {| consequence_id := "travel-effect-" +:+ id +:+ "-" +:+ show_Z (clk 0%nat);
     tc_public_id := id; tc_map_id := pos_map_id p; tc_system_id := pos_system_id p;
     tc_planet_id := pos_planet_id p; tc_zone_id := pos_zone_id p;
     route_risk_level := plan_risk_level (plan session);
     route_total_risk := total_risk (plan session);
     warning_codes := warn_code <$> plan_warnings (plan session);
     mission_impact := mi; governance_impact := gi;
     summary := build_summary m p (plan_risk_level (plan session)) mi gi;
     tc_created_at := clk 1%nat |}.

(** ** Whereabouts

    The abstract view of a record: docked in a system, or between two. *)

Inductive whereabouts : Type :=
  | Docked (map_id system_id : string)
  | EnRoute (map_id from to_ : string).

Definition view (r : TravelStateRecord) : whereabouts :=
  match active_session r with
  | None => Docked (pos_map_id (current_position r)) (pos_system_id (current_position r))
  | Some s => EnRoute (session_map_id s) (from_system_id s) (to_system_id s)
  end.

Inductive travel_op : Type :=
  | EnsurePosition (now : Z) (position : TravelPosition)
  | SetPosition (now : Z) (position : TravelPosition)
  | Depart (now : Z) (p : TravelPlan)
  | Arrive (clk : clock)
  | ArriveWith (now : Z) (position : TravelPosition) (c : option TravelConsequence).

Definition run_op (id controller : string) (op : travel_op)
    : stm TravelStateRegistry TravelStateRecord :=
  match op with
  | EnsurePosition now pos => ensure_position now id controller pos
  | SetPosition now pos => set_position now id controller pos
  | Depart now p => depart now id controller p
  | Arrive clk => arrive clk id controller
  | ArriveWith now pos c => arrive_with now id controller pos c
  end.

(** The moves of a traveller. *)
Definition travel_move (op : travel_op) (before : option whereabouts) (after : whereabouts) : Prop :=
  match op with
  | EnsurePosition _ pos =>
      after = default (Docked (pos_map_id pos) (pos_system_id pos)) before
  | SetPosition _ pos => after = Docked (pos_map_id pos) (pos_system_id pos)
  | Depart _ p =>
      before = Some (Docked (plan_map_id p) (plan_from p))
      ∧ after = EnRoute (plan_map_id p) (plan_from p) (plan_to p)
  | Arrive _ => ∃ m f t, before = Some (EnRoute m f t) ∧ after = Docked m t
  | ArriveWith _ pos _ =>
      (∃ m f t, before = Some (EnRoute m f t)) ∧ after = Docked (pos_map_id pos) (pos_system_id pos)
  end.

Lemma arrive_with_run now id controller pos c reg :
  arrive_with now id controller pos c reg =
  match reg !! id with
  | None => (Err "travel state missing for public identity", reg)
  | Some r =>
      if negb (String.eqb (controller_id r) controller)
      then (Err "travel state controller mismatch", reg)
      else match active_session r with
           | None => (Err "no active travel session", reg)
           | Some _ => (Ok (landed now pos c r), <[id := landed now pos c r]> reg)
           end
  end.
Proof.
  rewrite /arrive_with; cbv [mbind stm_bind gets lift ensure ok_or].
  destruct (reg !! id) as [r|]; [|done]. destruct (String.eqb _ _); [|done]. simpl.
  by destruct (active_session r).
Qed.

Lemma landed_view now pos c r :
  view (landed now pos c r) = Docked (pos_map_id pos) (pos_system_id pos)
  ∧ controller_id (landed now pos c r) = controller_id r ∧ public_id (landed now pos c r) = public_id r.
Proof. by destruct c. Qed.

Lemma arrive_run clk id controller reg :
  arrive clk id controller reg =
  match reg !! id with
  | None => (Err "travel state missing for public identity", reg)
  | Some r =>
      match active_session r with
      | None => (Err "no active travel session", reg)
      | Some s => arrive_with (clk 1%nat) id controller
          (mkTravelPosition (session_map_id s) (to_system_id s) None None (clk 0%nat)) None reg
      end
  end.
Proof.
  rewrite /arrive; cbv [mbind stm_bind gets lift ensure ok_or].
  destruct (reg !! id) as [r|]; [|done]. by destruct (active_session r).
Qed.

Lemma run_op_cases id controller op reg :
  match run_op id controller op reg with
  | (Err _, reg') => reg' = reg
  | (Ok r, reg') =>
      reg' = <[id := r]> reg ∧ travel_move op (view <$> reg !! id) (view r)
      ∧ (match op with
         | EnsurePosition _ _ | SetPosition _ _ => True
         | _ => ∃ r0, reg !! id = Some r0 ∧ controller_id r0 = controller
                      ∧ controller_id r = controller
         end)
  end.
Proof.
  destruct op as [now pos|now pos|now p|clk|now pos c]; simpl.
  - rewrite /ensure_position. destruct (reg !! id) as [r|] eqn:E; simpl; [|done].
    by rewrite insert_id.
  - done.
  - rewrite /depart. stm_cases; bool_to_prop; try done.
    match goal with Hp : put_record _ _ _ = _ |- _ => injection Hp as <- <- end.
    split; [done|]. rewrite /view /=. destruct (active_session a); [by destruct H3; eauto|].
    subst. split; [split; congruence|eauto].
  - rewrite arrive_run. destruct (reg !! id) as [r|] eqn:Hr; [|done].
    destruct (active_session r) as [s|] eqn:Hs; [|done]. rewrite arrive_with_run Hr Hs.
    destruct (String.eqb_spec (controller_id r) controller) as [<-|]; [|done]. simpl.
    split; [done|]. rewrite /view Hs. split; [by do 3 eexists|eauto].
  - rewrite arrive_with_run. destruct (reg !! id) as [r|] eqn:Hr; [|done].
    destruct (String.eqb_spec (controller_id r) controller) as [<-|]; [|done]. simpl.
    destruct (active_session r) as [s|] eqn:Hs; [|done].
    destruct (landed_view now pos c r) as (Hv & Hc & _).
    split; [done|]. rewrite Hv Hc {1}/view Hs. split; [|eauto]. split; [by do 3 eexists|done].
Qed.

(** A traveller is docked in one system or between two. Every operation
    on an identity either fails and leaves the registry as it was, or makes the
    corresponding move (a departure needs the plan to start where the traveller
    is docked, an arrival ends at the destination of the session) for the
    identity's controller and leaves every other identity alone. *)
Theorem travel_refines id controller op reg :
  match run_op id controller op reg with
  | (Err _, reg') => reg' = reg
  | (Ok r, reg') =>
      travel_move op (view <$> reg !! id) (view r)
      ∧ reg' !! id = Some r ∧ (∀ id', id' ≠ id → reg' !! id' = reg !! id')
      ∧ (match op with
         | EnsurePosition _ _ | SetPosition _ _ => True
         | _ => ∃ r0, reg !! id = Some r0 ∧ controller_id r0 = controller
         end)
  end.
Proof.
  pose proof (run_op_cases id controller op reg) as Hc.
  destruct (run_op id controller op reg) as [[r|e] reg']; [|done].
  destruct Hc as (-> & Hmove & Hctl). split_and!; [done|apply lookup_insert_eq| |].
  - intros id' Hne. by rewrite lookup_insert_ne.
  - destruct op; [done..| | |]; destruct Hctl as (r0 & ? & ? & _); eauto.
Qed.

(** ** Well-formed registries *)

Lemma push_consequence_spec c l :
  (length l ≤ 8)%nat →
  (length (push_consequence c l) ≤ 8)%nat ∧ last (push_consequence c l) = Some c
  ∧ ∃ k, push_consequence c l = drop k l ++ [c] ∧ (length l - k = Nat.min 7 (length l))%nat.
Proof.
  intros Hl. rewrite /push_consequence length_app; cbn [length].
  destruct (8 <? length l + 1)%nat eqn:E; bool_to_prop.
  - rewrite drop_app_le; [|lia]. rewrite length_app length_drop last_snoc. cbn [length].
    split_and!; [lia|done|]. exists (length l + 1 - 8)%nat. split; [done|lia].
  - rewrite length_app last_snoc. cbn [length]. split_and!; [lia|done|].
    exists 0%nat. split; [done|lia].
Qed.

Record record_ok (id : string) (r : TravelStateRecord) : Prop := {
  ok_key : public_id r = id;
  ok_recent : (length (recent_consequences r) ≤ 8)%nat;
  ok_last : last_consequence r = last (recent_consequences r);
  ok_session : ∀ s, active_session r = Some s →
    session_map_id s = pos_map_id (current_position r)
    ∧ from_system_id s = pos_system_id (current_position r)
    ∧ session_map_id s = plan_map_id (plan s) ∧ from_system_id s = plan_from (plan s)
    ∧ to_system_id s = plan_to (plan s);
}.

Lemma fresh_ok now id controller pos : record_ok id (fresh_record now id controller pos).
Proof. split; simpl; try done. lia. Qed.

Lemma landed_ok now pos c id r : record_ok id r → record_ok id (landed now pos c r).
Proof.
  intros [Hk Hr Hl Hs]. destruct c as [c|]; split; simpl; try done.
  - by apply push_consequence_spec.
  - by destruct (push_consequence_spec c (recent_consequences r)) as (_ & -> & _).
Qed.

Lemma run_op_ok id controller op reg r :
  map_Forall record_ok reg → outcome (run_op id controller op) reg = Ok r → record_ok id r.
Proof.
  intros Hall. rewrite /outcome. destruct op as [now pos|now pos|now p|clk|now pos c]; simpl.
  - rewrite /ensure_position. destruct (reg !! id) as [r'|] eqn:E; intros [= <-]; [by apply Hall|apply fresh_ok].
  - intros [= <-]. apply fresh_ok.
  - destruct (depart _ _ _ _ reg) as [o reg'] eqn:Hd. simpl. intros ->. rewrite /depart in Hd.
    run_inv. bool_to_prop. subst. injection Hrun6 as <- _.
    destruct (Hall _ _ Hget) as [Hk Hr Hl _]. split; simpl; try done. intros s [= <-]. simpl. auto.
  - rewrite arrive_run. destruct (reg !! id) as [r'|] eqn:E; [|done].
    destruct (active_session r'); [|done]. rewrite arrive_with_run E.
    repeat case_match; simpl; intros [= <-]. apply landed_ok. by apply Hall.
  - rewrite arrive_with_run. repeat case_match; simpl; intros [= <-]. apply landed_ok. by apply Hall.
Qed.

Inductive travel_reach : TravelStateRegistry → Prop :=
  | reach_empty : travel_reach ∅
  | reach_op id controller op reg :
      travel_reach reg → travel_reach (exec (run_op id controller op) reg).

(** In every registry reached by these operations, records are stored
    under their identity, a session starts at the current position of its
    traveller and agrees with its plan, at most the 8 most recent consequences
    are kept, and the last one is the newest of them. *)
Theorem travel_state_invariant reg : travel_reach reg → map_Forall record_ok reg.
Proof.
  induction 1 as [|id controller op reg _ IH]; [apply map_Forall_empty|].
  pose proof (run_op_cases id controller op reg) as Hc.
  pose proof (run_op_ok id controller op reg) as Hok. rewrite /exec. rewrite /outcome in Hok.
  destruct (run_op id controller op reg) as [[r|e] reg']; [|by subst].
  destruct Hc as (-> & _). apply map_Forall_insert_2; [by apply Hok|done].
Qed.

(** ** A journey *)

Module JourneyScenario.
Import Travel.TravelScenario.

Definition start : TravelPosition :=
  default (mkTravelPosition "" "" None None 0)
    (resolve_anchor_position 1 genesis (Some "planet-main") (Some "genesis-core")).

Definition journey_plan : TravelPlan :=
  match travel_plan genesis galaxy "genesis-prime" "frontier-gate" with
  | Some (Ok p) => p
  | _ => mkTravelPlan "" "" "" 0 0 0 Stable [] [] []
  end.

Definition after_departure : TravelStateRegistry :=
  exec (run_op "captain" "agent-a" (Depart 2 journey_plan))
    (exec (run_op "captain" "agent-a" (EnsurePosition 1 start)) ∅).

Lemma travel_state_invariant_witness : map_Forall record_ok after_departure.
Proof.
  apply travel_state_invariant. rewrite /after_departure. repeat constructor.
Defined.

Example journey_lands :
  view <$> get (exec (run_op "captain" "agent-a" (Arrive (λ _, 3))) after_departure) "captain"
  = Some (Docked "genesis-base" "frontier-gate").
Proof. vm_compute. reflexivity. Qed.

(** A mission of the subnet [subnet]. *)
Definition local_mission (subnet : string) : Missions.CivilMission :=
  Missions.mkCivilMission "m-1" "" "" "" Missions.PlanetaryGovernment Missions.Trade
    Missions.InWorld (Some subnet) (Some "elsewhere") None None None Json.JNull None None None 0 0
    None None None None None Missions.Open None false None.

(** A valid map whose planet and subnet have different names. *)
Definition renamed_map : GalaxyMap :=
  {| map_id := "m"; map_name := "m"; map_description := ""; official := false;
     systems := [mkStarSystem "s" "S" (mkMapCoordinate 0 0) ""
       [mkPlanetNode "hub-1" "Hub" Hub "genesis-core" (Some "planet-main") (Json.f64_of_Z 1) None]];
     routes := []; tags := []; created_at := 0; updated_at := 0 |}.

(** On arrival a mission is matched by comparing its subnet with the
    planet of the landing point, not with the subnet that planet anchors: on a
    valid map where the two names differ, the missions of the subnet whose
    government the traveller is shown are not found. *)
Theorem landing_misses_subnet_missions :
  validate_map renamed_map (zones galaxy) = Ok tt
  ∧ ∃ p, resolve_system_position 0 renamed_map "s" = Some p
    ∧ (pos_planet_id p ≫= find_subnet_for_planet renamed_map) = Some "planet-main"
    ∧ mission_matches_destination (local_mission "planet-main") p = false.
Proof. split; [by vm_compute|]. eexists. split; [reflexivity|]. by vm_compute. Qed.

End JourneyScenario.
