(* ===== verification/Civic.v ===== *)
(** * Mailbox, hives and relationships

    [K/governance/mailbox.rs]: signed messages between subnets, queued per
    destination; [K/civilization/topics.rs]: the registry of hives (topic rooms);
    [K/civilization/relationships.rs]: follow and friend edges between citizens. The
    files they are kept in are not modelled. *)

From S2P Require Import Prelude Collections Text Json Signing Missions.
#[local] Open Scope Z_scope.

(** ** The mailbox between subnets *)

Module Mailbox.

Record CrossSubnetMessage := mkCrossSubnetMessage {
  message_id : string;
  from_agent : string;
  to_agent : string;
  from_subnet : string;
  to_subnet : string;
  timestamp : Z;
  msg_payload : json;
  signature : string;
}.

Record CrossSubnetMailbox := mkMailbox { inbox : gmap string (list CrossSubnetMessage) }.
#[global] Instance eta_CrossSubnetMailbox : Eta CrossSubnetMailbox := λ b, mkMailbox (inbox b).
Definition default_mailbox : CrossSubnetMailbox := mkMailbox ∅.

(** The signed fields, [MessageSignable]. *)
Definition signable (id from to from_sub to_sub : string) (ts : Z) (payload : json) : json :=
  JObject [("message_id", JString id); ("from_agent", JString from); ("to_agent", JString to);
           ("from_subnet", JString from_sub); ("to_subnet", JString to_sub);
           ("timestamp", json_of_Z ts); ("payload", payload)].

Section mailbox.
Context `{Crypto}.

Definition enqueue_signed_with_signer (clk : clock) (uuid agent_did : string)
    (signer : PayloadSigner) (to from_sub to_sub : string) (payload : json)
    : stm CrossSubnetMailbox CrossSubnetMessage :=
  let ts := clk 0%nat in
  sig ← lift (sign_payload_with (signable uuid agent_did to from_sub to_sub ts payload) signer);
  let m := mkCrossSubnetMessage uuid agent_did to from_sub to_sub ts payload sig in
  modify (λ b, b <| inbox ::= λ i, <[to_sub := default [] (i !! to_sub) ++ [m]]> i |>);;
  mret m.

(** An identity signs for itself. *)
Definition enqueue_signed (clk : clock) (uuid : string) (identity : PayloadSigner)
    (to from_sub to_sub : string) (payload : json)
    : stm CrossSubnetMailbox CrossSubnetMessage :=
  enqueue_signed_with_signer clk uuid (ps_agent_did identity) identity to from_sub to_sub payload.

Definition verify_message (m : CrossSubnetMessage) : result bool :=
  verify_payload
    (signable (message_id m) (from_agent m) (to_agent m) (from_subnet m) (to_subnet m)
       (timestamp m) (msg_payload m))
    (signature m) (from_agent m).

Definition fetch_for_subnet (b : CrossSubnetMailbox) (subnet : string) : list CrossSubnetMessage :=
  default [] (inbox b !! subnet).

Definition ack (subnet id : string) : stm CrossSubnetMailbox unit :=
  i ← gets inbox;
  match i !! subnet with
  | None => bail "subnet inbox not found"
  | Some items =>
      modify (λ b, b <| inbox ::=
        <[subnet := List.filter (λ m, negb (String.eqb (message_id m) id)) items]> |>)
  end.

(** *** Specification: a log of what was sent and acknowledged *)

Inductive operation :=
  | Send (clk : clock) (uuid : string) (identity : PayloadSigner)
      (to from_sub to_sub : string) (payload : json)
  | Ack (subnet id : string).

Definition run_operation (o : operation) (b : CrossSubnetMailbox) : CrossSubnetMailbox :=
  match o with
  | Send clk uuid identity to from_sub to_sub payload =>
      exec (enqueue_signed clk uuid identity to from_sub to_sub payload) b
  | Ack subnet id => exec (ack subnet id) b
  end.
Definition run_operations (l : list operation) : CrossSubnetMailbox :=
  foldl (λ b o, run_operation o b) default_mailbox l.

(** The message an operation sends to a subnet, if its signature could be made. *)
Definition sent (subnet : string) (o : operation) : list CrossSubnetMessage :=
  match o with
  | Send clk uuid identity to from_sub to_sub payload =>
      match outcome (enqueue_signed clk uuid identity to from_sub to_sub payload) default_mailbox with
      | Ok m => if String.eqb to_sub subnet then [m] else []
      | Err _ => []
      end
  | Ack _ _ => []
  end.
Definition acks (subnet id : string) (o : operation) : bool :=
  match o with
  | Ack s i => String.eqb s subnet && String.eqb i id
  | Send _ _ _ _ _ _ _ => false
  end.

(** What is still to be read: each message sent and not acknowledged afterwards, in the
    order of sending. *)
Fixpoint pending (subnet : string) (l : list operation) : list CrossSubnetMessage :=
  match l with
  | [] => []
  | o :: l' =>
      List.filter (λ m, negb (existsb (acks subnet (message_id m)) l')) (sent subnet o)
      ++ pending subnet l'
  end.

Lemma filter_keep {A} (f : A → bool) l : (∀ x, f x = true) → List.filter f l = l.
Proof. intros E. induction l as [|x l IH]; [done|]. cbn. by rewrite E IH. Qed.

Lemma pending_snoc subnet l o :
  pending subnet (l ++ [o])
  = List.filter (λ m, negb (acks subnet (message_id m) o)) (pending subnet l) ++ sent subnet o.
Proof.
  induction l as [|x l IH]; cbn [app pending].
  - cbn. rewrite app_nil_r. induction (sent subnet o) as [|m ms IHm]; cbn; [done|]. by rewrite IHm.
  - rewrite IH List.filter_app filter_filter -app_assoc. f_equal.
    apply List.filter_ext. intros m. rewrite existsb_app /= orb_false_r. by rewrite negb_orb.
Qed.

Lemma run_operation_fetch subnet o b :
  fetch_for_subnet (run_operation o b) subnet
  = List.filter (λ m, negb (acks subnet (message_id m) o)) (fetch_for_subnet b subnet)
    ++ sent subnet o.
Proof.
  destruct o as [clk uuid identity to from_sub to_sub payload|s i]; cbn [sent acks].
  - rewrite filter_keep //.
    cbn [run_operation]. rewrite /exec /outcome /enqueue_signed /enqueue_signed_with_signer.
    cbv [mbind stm_bind lift modify mret stm_ret].
    destruct (sign_payload_with _ _) as [sig|e]; cbn [fst snd]; [|by rewrite app_nil_r].
    rewrite /fetch_for_subnet /set_field /=. destruct (String.eqb_spec to_sub subnet) as [->|Hne].
    + by rewrite lookup_insert_eq.
    + by rewrite lookup_insert_ne // app_nil_r.
  - rewrite app_nil_r. cbn [run_operation]. rewrite /exec /ack /fetch_for_subnet.
    cbv [mbind stm_bind gets modify bail].
    destruct (inbox b !! s) as [items|] eqn:Hs; cbn [snd]; rewrite /set_field /=.
    + destruct (String.eqb_spec s subnet) as [->|Hne].
      * rewrite lookup_insert_eq Hs /=. apply List.filter_ext. intros m. by rewrite String.eqb_sym.
      * rewrite lookup_insert_ne //. by rewrite filter_keep //.
    + destruct (String.eqb_spec s subnet) as [->|Hne]; [by rewrite Hs|].
      by rewrite filter_keep //.
Qed.

(** Whatever was sent and acknowledged, in any order, a subnet reads exactly the
    messages addressed to it that were not acknowledged since, in the order they were
    sent; a refused send and the acknowledgement of an unknown subnet change nothing. *)
Theorem mailbox_refines_log subnet l :
  fetch_for_subnet (run_operations l) subnet = pending subnet l.
Proof.
  induction l as [|o l IH] using rev_ind; [done|].
  rewrite /run_operations foldl_app /= -/(run_operations l).
  by rewrite run_operation_fetch pending_snoc IH.
Qed.

Lemma sent_verifies subnet o m :
  (∀ clk uuid identity to from_sub to_sub payload,
     o = Send clk uuid identity to from_sub to_sub payload → SignerSound identity) →
  m ∈ sent subnet o → to_subnet m = subnet ∧ verify_message m = Ok true.
Proof.
  destruct o as [clk uuid identity to from_sub to_sub payload|]; intros Hs; cbn [sent];
    [|by intros ?%elem_of_nil].
  specialize (Hs _ _ _ _ _ _ _ eq_refl).
  rewrite /outcome /enqueue_signed /enqueue_signed_with_signer.
  cbv [mbind stm_bind lift modify mret stm_ret].
  destruct (sign_payload_with _ _) as [sig|e] eqn:E; cbn [fst]; [|by intros ?%elem_of_nil].
  destruct (String.eqb_spec to_sub subnet) as [->|]; [|by intros ?%elem_of_nil].
  intros ->%list_elem_of_singleton. split; [done|]. rewrite /verify_message /=.
  by apply sign_then_verify.
Qed.

(** When the identities sign soundly, every message a subnet reads names that
    subnet as its destination and verifies under the key of the agent it names as its
    sender. *)
Theorem mailbox_messages_verify l subnet m :
  (∀ clk uuid identity to from_sub to_sub payload,
     Send clk uuid identity to from_sub to_sub payload ∈ l → SignerSound identity) →
  m ∈ fetch_for_subnet (run_operations l) subnet →
  to_subnet m = subnet ∧ verify_message m = Ok true.
Proof.
  induction l as [|o l IH] using rev_ind; intros Hs Hm; [by apply elem_of_nil in Hm|].
  rewrite /run_operations foldl_app /= -/(run_operations l) run_operation_fetch in Hm.
  apply elem_of_app in Hm as [Hm|Hm].
  - apply elem_of_filterb in Hm as [Hm _]. apply IH; [|done].
    intros. eapply Hs. apply elem_of_app. by left.
  - eapply sent_verifies; [|done]. intros ??????? ->. eapply Hs. apply elem_of_app. right. by left.
Qed.
End mailbox.

Module MailboxScenario.
Import Demo.

Definition send (n : string) (to : string) : operation :=
  Send (λ _, 100) n (signer "ada") "did:key:bob" "red" to (JString "hello").
Definition log : list operation :=
  [send "m1" "blue"; send "m2" "green"; send "m3" "blue"; Ack "blue" "m1"; Ack "grey" "m3"].

Example reads : message_id <$> fetch_for_subnet (run_operations log) "blue" = ["m3"%string].
Proof. vm_compute. reflexivity. Qed.

Lemma mailbox_messages_verify_witness :
  Forall (λ m, verify_message m = Ok true) (fetch_for_subnet (run_operations log) "blue").
Proof.
  apply Forall_forall. intros m Hm. eapply (mailbox_messages_verify log "blue" m); [|exact Hm].
  intros ??????? Hin. rewrite /log !elem_of_cons elem_of_nil in Hin.
  destruct Hin as [E|[E|[E|[E|[E|[]]]]]]; try discriminate E; injection E as _ _ -> _ _ _ _; apply _.
Defined.
End MailboxScenario.
End Mailbox.

(** ** Hives *)

Module Hives.

Inductive TopicProjectionKind :=
  ChatRoom | WorkingGroup | Guild | OrganizationRoom | MissionThread | DirectConversation.
#[global] Instance TopicProjectionKind_eq_dec : EqDecision TopicProjectionKind.
Proof. solve_decision. Defined.

Record HiveProfile := mkHiveProfile {
  topic_id : string;
  network_id : option string;
  feed_key : string;
  scope_hint : string;
  display_name : string;
  summary : option string;
  projection_kind : TopicProjectionKind;
  organization_id : option string;
  hive_mission_id : option string;
  participant_public_ids : list string;
  created_by_public_id : string;
  why_this_exists : option string;
  hive_lat : option f64;
  hive_lng : option f64;
  hive_coordinate_source : option string;
  active : bool;
  hive_created_at : Z;
  hive_updated_at : Z;
}.

Record TopicCreateSpec := mkTopicCreateSpec {
  ts_network_id : option string;
  ts_feed_key : string;
  ts_scope_hint : string;
  ts_display_name : string;
  ts_summary : option string;
  ts_projection_kind : TopicProjectionKind;
  ts_organization_id : option string;
  ts_mission_id : option string;
  ts_participant_public_ids : list string;
  ts_created_by_public_id : string;
  ts_why_this_exists : option string;
  ts_public_geo : option PublicGeoPayload;
  ts_active : bool;
}.

Record HiveRegistry := mkHiveRegistry { hives : gmap string HiveProfile }.
#[global] Instance eta_HiveRegistry : Eta HiveRegistry := λ r, mkHiveRegistry (hives r).

Definition normalized_network_id (value : option string) : option string :=
  trimmed_nonempty value.

Definition topic_id_for (network : option string) (feed scope : string) : string :=
  match normalized_network_id network with
  | Some n => n +:+ "@" +:+ trim feed +:+ "@" +:+ trim scope
  | None => trim feed +:+ "@" +:+ trim scope
  end.

Definition hive_of_spec (id : string) (created now : Z) (s : TopicCreateSpec) : HiveProfile := {|
  topic_id := id; network_id := ts_network_id s; feed_key := ts_feed_key s;
  scope_hint := ts_scope_hint s; display_name := ts_display_name s; summary := ts_summary s;
  projection_kind := ts_projection_kind s; organization_id := ts_organization_id s;
  hive_mission_id := ts_mission_id s; participant_public_ids := ts_participant_public_ids s;
  created_by_public_id := ts_created_by_public_id s; why_this_exists := ts_why_this_exists s;
  hive_lat := geo_lat <$> ts_public_geo s; hive_lng := geo_lng <$> ts_public_geo s;
  hive_coordinate_source := geo_coordinate_source <$> ts_public_geo s; active := ts_active s;
  hive_created_at := created; hive_updated_at := now |}.

Definition upsert_hive (clk : clock) (s : TopicCreateSpec) : stm HiveRegistry HiveProfile :=
  let id := topic_id_for (ts_network_id s) (ts_feed_key s) (ts_scope_hint s) in
  let now := clk 0%nat in
  hs ← gets hives;
  let created := from_option hive_created_at now (hs !! id) in
  let h := hive_of_spec id created now s in
  modify (λ r, r <| hives ::= <[id := h]> |>);; mret h.

Definition get (r : HiveRegistry) (id : string) : option HiveProfile := hives r !! id.

Definition remove_hive (id : string) : stm HiveRegistry (option HiveProfile) :=
  hs ← gets hives; modify (λ r, r <| hives ::= delete id |>);; mret (hs !! id).

Definition list_hives (r : HiveRegistry) : list HiveProfile := btree_values (hives r).

Definition list_filtered (r : HiveRegistry) (network : option string)
    (kind : option TopicProjectionKind) (org mission : option string) (include_inactive : bool)
    : list HiveProfile :=
  let network := normalized_network_id network in
  List.filter (λ h,
    is_none_or (λ id, bool_decide (normalized_network_id (network_id h) = Some id)) network
    && is_none_or (λ k, bool_decide (projection_kind h = k)) kind
    && is_none_or (λ id, bool_decide (organization_id h = Some id)) org
    && is_none_or (λ id, bool_decide (hive_mission_id h = Some id)) mission)
    (List.filter (λ h, include_inactive || active h) (btree_values (hives r))).

(** *** Identifiers *)

(** An identifier is read back from its last separators when its parts hold none. *)
Definition at_free (s : string) : Prop := "@"%char ∉ to_bytes s.
#[global] Instance at_free_dec s : Decision (at_free s).
Proof. rewrite /at_free. apply _. Defined.

Lemma at_join_inj s1 t1 s2 t2 :
  at_free s1 → at_free s2 → s1 +:+ "@" +:+ t1 = s2 +:+ "@" +:+ t2 → s1 = s2 ∧ t1 = t2.
Proof.
  intros H1 H2 H%(f_equal to_bytes). rewrite !to_bytes_app in H.
  destruct (split_at_inj _ _ _ _ _ H1 H2 H) as [??]. auto using to_bytes_inj.
Qed.

Lemma not_at_free s t : ¬ at_free (s +:+ "@" +:+ t).
Proof.
  intros H. apply H. rewrite !to_bytes_app. apply elem_of_app. right. by left.
Qed.

(** The parts that identify a hive. *)
Definition identity (network : option string) (feed scope : string)
    : option string * string * string :=
  (normalized_network_id network, trim feed, trim scope).
Definition separable (i : option string * string * string) : Prop :=
  let '(n, f, s) := i in from_option at_free True n ∧ at_free f ∧ at_free s.

Lemma topic_id_inj n1 f1 s1 n2 f2 s2 :
  separable (identity n1 f1 s1) → separable (identity n2 f2 s2) →
  topic_id_for n1 f1 s1 = topic_id_for n2 f2 s2 → identity n1 f1 s1 = identity n2 f2 s2.
Proof.
  rewrite /identity /topic_id_for /separable. intros (Hn1 & Hf1 & Hs1) (Hn2 & Hf2 & Hs2).
  destruct (normalized_network_id n1) as [a|], (normalized_network_id n2) as [b|]; cbn in Hn1, Hn2.
  - intros [-> H]%at_join_inj; [|done..]. apply at_join_inj in H as [-> ->]; done.
  - intros [_ H]%at_join_inj; [|done..]. rewrite -H in Hs2. by destruct (not_at_free _ _ Hs2).
  - intros [_ H]%at_join_inj; [|done..]. rewrite H in Hs1. by destruct (not_at_free _ _ Hs1).
  - intros [-> ->]%at_join_inj; done.
Qed.

(** *** The registry *)

Inductive hive_step (r : HiveRegistry) : HiveRegistry → Prop :=
  | step_upsert clk s : hive_step r (exec (upsert_hive clk s) r)
  | step_remove id : hive_step r (exec (remove_hive id) r).
Definition hive_reachable : HiveRegistry → Prop := rtc hive_step (mkHiveRegistry ∅).

Definition spec_id (s : TopicCreateSpec) : string :=
  topic_id_for (ts_network_id s) (ts_feed_key s) (ts_scope_hint s).
Definition hive_identity (h : HiveProfile) : option string * string * string :=
  identity (network_id h) (feed_key h) (scope_hint h).

Lemma upsert_hive_exec clk s r :
  ∃ h, upsert_hive clk s r = (Ok h, mkHiveRegistry (<[spec_id s := h]> (hives r)))
    ∧ hive_identity h = identity (ts_network_id s) (ts_feed_key s) (ts_scope_hint s)
    ∧ topic_id h = spec_id s ∧ display_name h = ts_display_name s ∧ active h = ts_active s
    ∧ hive_updated_at h = clk 0%nat
    ∧ hive_created_at h = from_option hive_created_at (clk 0%nat) (hives r !! spec_id s).
Proof.
  exists (hive_of_spec (spec_id s) (from_option hive_created_at (clk 0%nat) (hives r !! spec_id s))
            (clk 0%nat) s).
  by split_and!.
Qed.

Definition hive_inv (r : HiveRegistry) : Prop :=
  map_Forall (λ id h, topic_id h = id ∧ topic_id_for (network_id h) (feed_key h) (scope_hint h) = id)
    (hives r).

Lemma hive_step_inv r r' : hive_inv r → hive_step r r' → hive_inv r'.
Proof.
  intros Hinv [clk s|id].
  - rewrite /hive_inv /=. apply map_Forall_insert_2; [|done]. done.
  - rewrite /hive_inv /=. by apply map_Forall_delete.
Qed.

Lemma reachable_hive_inv r : hive_reachable r → hive_inv r.
Proof.
  intros Hr. assert (hive_inv (mkHiveRegistry ∅)) as H0 by apply map_Forall_empty.
  revert H0. induction Hr; eauto using hive_step_inv.
Qed.

(** In every reachable registry whose names hold no separator, a hive is found by
    its network, feed and scope: storing a hive replaces the one with the same three,
    keeping its creation time, and leaves every hive with another identity in place. *)
Theorem upsert_hive_spec clk s r :
  hive_reachable r →
  separable (identity (ts_network_id s) (ts_feed_key s) (ts_scope_hint s)) →
  (∀ h, h ∈ list_hives r → separable (hive_identity h)) →
  ∃ h r', upsert_hive clk s r = (Ok h, r')
    ∧ get r' (spec_id s) = Some h
    ∧ hive_identity h = identity (ts_network_id s) (ts_feed_key s) (ts_scope_hint s)
    ∧ hive_updated_at h = clk 0%nat
    ∧ (∀ old, old ∈ list_hives r → hive_identity old = hive_identity h →
         hive_created_at h = hive_created_at old)
    ∧ ∀ other, hive_identity other ≠ hive_identity h →
         other ∈ list_hives r' ↔ other ∈ list_hives r.
Proof.
  intros Hinv%reachable_hive_inv Hs Hall.
  destruct (upsert_hive_exec clk s r) as (h & -> & Hid & Htid & _ & _ & Hup & Hcr).
  eexists h, _. split; [reflexivity|].
  assert (∀ o k, hives r !! k = Some o → k = spec_id s → hive_identity o = hive_identity h) as Hsame.
  { intros o k Ho ->. destruct (Hinv _ _ Ho) as [_ E]. rewrite Hid. apply topic_id_inj; [|done|done].
    apply Hall, elem_of_btree_values. eauto. }
  assert (∀ o k, hives r !! k = Some o → hive_identity o = hive_identity h → k = spec_id s) as Hkey.
  { intros o k Ho E. destruct (Hinv _ _ Ho) as [_ <-]. rewrite Hid in E.
    rewrite /spec_id /topic_id_for. injection E as -> -> ->. done. }
  split_and!; [by rewrite /get lookup_insert_eq|done|done| |].
  - intros old [k Ho]%elem_of_btree_values E. rewrite Hcr. rewrite -(Hkey old k Ho E) Ho. done.
  - intros o Hne. rewrite /list_hives !elem_of_btree_values /=. split; intros [k Ho]; exists k.
    + apply lookup_insert_Some in Ho as [[_ <-]|[_ Ho]]; done.
    + rewrite lookup_insert_ne; [done|]. intros E. apply Hne. by eapply Hsame.
Qed.

(** *** Identifiers that collide *)

Module HiveScenario.
Definition spec_with (network : option string) (feed scope name : string) : TopicCreateSpec :=
  mkTopicCreateSpec network feed scope name None ChatRoom None None [] "ada" None None true.
Definition clk : clock := λ _, 5.
Definition r0 : HiveRegistry := mkHiveRegistry ∅.
Definition r1 : HiveRegistry := exec (upsert_hive clk (spec_with (Some "net") "chat" "room@1" "first")) r0.
Definition r2 : HiveRegistry := exec (upsert_hive clk (spec_with (Some "net") "chat@room" "1" "second")) r1.

(** Identifiers are joined with a separator that feed keys and scopes may hold:
    two hives of one network with different feeds and scopes get the same identifier, and
    storing the second one drops the first. *)
Theorem hive_ids_collide :
  identity (Some "net") "chat" "room@1" ≠ identity (Some "net") "chat@room" "1"
  ∧ topic_id_for (Some "net") "chat" "room@1" = topic_id_for (Some "net") "chat@room" "1"
  ∧ display_name <$> list_hives r1 = ["first"%string]
  ∧ display_name <$> list_hives r2 = ["second"%string].
Proof. split; [by vm_compute|]. by vm_compute. Qed.

Definition r3 : HiveRegistry :=
  exec (upsert_hive (λ _, 9) (spec_with (Some "net") "chat" "one" "kept")) r0.

Lemma upsert_hive_spec_witness :
  ∃ h r', upsert_hive clk (spec_with (Some " net ") "chat" "two" "new") r3 = (Ok h, r')
    ∧ get r' "net@chat@two" = Some h.
Proof.
  destruct (upsert_hive_spec clk (spec_with (Some " net ") "chat" "two" "new") r3)
    as (h & r' & Hrun & Hget & _).
  - eapply rtc_l; [apply step_upsert|]. apply rtc_refl.
  - split_and!; by apply (bool_decide_unpack _); vm_compute.
  - intros h Hh. assert (list_hives r3 = [h]) as E.
    { assert (∃ x, list_hives r3 = [x]) as [x Hx] by (eexists; vm_compute; reflexivity).
      rewrite Hx in Hh |- *. by apply list_elem_of_singleton in Hh as ->. }
    assert (hive_identity <$> list_hives r3 = [(Some "net", "chat", "one")%string]) as Hi
      by (vm_compute; reflexivity).
    assert (hive_identity h = (Some "net", "chat", "one")%string) as ->
      by (rewrite E in Hi; exact (f_equal (hd (None, "", "")%string) Hi)).
    split_and!; by apply (bool_decide_unpack _); vm_compute.
  - exists h, r'. split; [exact Hrun|exact Hget].
Defined.
End HiveScenario.
End Hives.

(** ** Relationships *)

Module Relationships.

Inductive RelationshipKind := Follow | Friend.

Record RelationshipEdge := mkRelationshipEdge {
  public_id : string;
  counterpart_public_id : string;
  kind : RelationshipKind;
  edge_active : bool;
  edge_created_at : Z;
  edge_updated_at : Z;
}.

Record RelationshipRegistry := mkRelationshipRegistry { edges : gmap string RelationshipEdge }.
#[global] Instance eta_RelationshipRegistry : Eta RelationshipRegistry := λ r,
  mkRelationshipRegistry (edges r).

Definition edge_key (public counterpart : string) : string :=
  trim public +:+ "::" +:+ trim counterpart.

Definition upsert (clk : clock) (public counterpart : string) (k : RelationshipKind) (on : bool)
    : stm RelationshipRegistry RelationshipEdge :=
  let key := edge_key public counterpart in
  let now := clk 0%nat in
  es ← gets edges;
  let created := from_option edge_created_at now (es !! key) in
  let e := mkRelationshipEdge public counterpart k on created now in
  modify (λ r, r <| edges ::= <[key := e]> |>);; mret e.

Definition list_for_public (r : RelationshipRegistry) (public : string) : list RelationshipEdge :=
  List.filter (λ e, String.eqb (public_id e) public && edge_active e) (btree_values (edges r)).

Definition get (r : RelationshipRegistry) (public counterpart : string) : option RelationshipEdge :=
  edges r !! edge_key public counterpart.

(** Keys of ids without a colon determine the two trimmed ids. *)
Lemma edge_key_inj p1 c1 p2 c2 :
  colon_free (trim p1) → colon_free (trim p2) →
  edge_key p1 c1 = edge_key p2 c2 ↔ trim p1 = trim p2 ∧ trim c1 = trim c2.
Proof.
  intros H1 H2. rewrite /edge_key. split; [|by intros [-> ->]].
  intros H%(colon_join_inj _ (":" +:+ trim c1) _ (":" +:+ trim c2)); [|done..].
  destruct H as [-> H]. split; [done|]. by injection H.
Qed.

(** The last edge stored between two citizens is the one found, with the creation time
    of the first; it is listed for its owner exactly while it is active. *)
Lemma relationship_upsert_spec clk public counterpart k on r :
  colon_free (trim public) →
  ∃ e r', upsert clk public counterpart k on r = (Ok e, r')
    ∧ get r' public counterpart = Some e ∧ kind e = k ∧ edge_active e = on
    ∧ edge_created_at e = from_option edge_created_at (clk 0%nat) (get r public counterpart)
    ∧ (e ∈ list_for_public r' public ↔ on = true)
    ∧ ∀ p c, colon_free (trim p) → trim p ≠ trim public ∨ trim c ≠ trim counterpart →
        get r' p c = get r p c.
Proof.
  intros Hp. rewrite /upsert. cbv [mbind stm_bind gets modify mret stm_ret].
  eexists _, _. split; [reflexivity|]. rewrite /get /set_field /=.
  split; [by rewrite lookup_insert_eq|]. do 3 (split; [done|]). split.
  - rewrite /list_for_public elem_of_filterb elem_of_btree_values /= String.eqb_refl /=.
    split; [tauto|]. intros ->. split; [|done]. exists (edge_key public counterpart). by rewrite lookup_insert_eq.
  - intros p c Hfree Hne. rewrite lookup_insert_ne //.
    intros [? ?]%edge_key_inj; [naive_solver|done|done].
Qed.
End Relationships.
