(* ===== verification/Standing.v ===== *)
(** * Standing, scores and emergencies

    [K/economy.rs]: the reputation and capacity an agent earned on the mission board;
    [K/civilization/metrics.rs]: the civilization scores; [K/civilization/emergency.rs]:
    the emergencies of an agent and the galaxy events the system generates. All of them
    read the boards, registries and engines of the other files. *)

From S2P Require Import Prelude Collections Text Json Signing Governance Profiles Missions Galaxy.
#[local] Open Scope Z_scope.

(** ** Mission standing *)

(** [types.rs] *)
Record AgentStats := mkAgentStats {
  st_power : Z;
  st_watt : Z;
  st_reputation : Z;
  st_capacity : Z;
}.

Record MissionStanding := mkMissionStanding {
  ms_reputation : Z;
  ms_capacity : Z;
}.

Definition DEFAULT_AGENT_COMPUTE : Z := 1.

Definition stats_with_watt (s : MissionStanding) (watt : Z) : AgentStats :=
  {| st_power := Z.max (i64_add DEFAULT_AGENT_COMPUTE (Z.quot (ms_capacity s) 10)) DEFAULT_AGENT_COMPUTE;
     st_watt := watt;
     st_reputation := ms_reputation s;
     st_capacity := ms_capacity s |}.

Definition earn (controller : string) (s : MissionStanding) (m : CivilMission) : MissionStanding :=
  if bool_decide (completed_by m ≠ Some controller) then s
  else
    match reward m with
    | Some r => mkMissionStanding (i64_add (ms_reputation s) (reputation r))
                                  (i64_add (ms_capacity s) (capacity r))
    | None => s
    end.

Definition mission_standing (board : MissionBoard) (controller : string) : MissionStanding :=
  foldl (earn controller) (mkMissionStanding 0 0) (list_missions board (Some Missions.Settled)).

(** ** Civilization scores *)

Record CivilizationScores := mkCivilizationScores {
  wealth : Z;
  power : Z;
  security : Z;
  trade : Z;
  culture : Z;
  total_influence : Z;
}.

Definition i64_sum (l : list Z) : Z := foldl i64_add 0 l.

(** [i64::try_from(count).unwrap_or(i64::MAX)]. *)
Definition count_i64 (n : nat) : Z := Z.min (Z.of_nat n) i64_max.

Definition domain_score (by_agent : list CivilMission) (d : MissionDomain) : Z :=
  i64_sum (omap (λ m,
      r ← reward m; Some (i64_add (agent_watt r) (i64_mul (reputation r) 2)))
    (List.filter (λ m, bool_decide (domain m = d)) by_agent)).

Definition role_bonus (r : option RolePath) : Z :=
  match r with
  | Some Operator | Some Broker => 10
  | Some Enforcer => 12
  | Some Artificer => 8
  | None => 0
  end.
Definition faction_bonus (f : option Faction) : Z :=
  match f with Some _ => 8 | None => 0 end.

(** Spatial, economic and political pressure of the severe events. *)
Definition add_pressure (acc : Z * Z * Z) (e : DynamicEvent) : Z * Z * Z :=
  let '(spatial, economic, political) := acc in
  match category e with
  | Economic => (spatial, i64_add economic (event_severity e), political)
  | Spatial => (i64_add spatial (event_severity e), economic, political)
  | Political => (spatial, economic, i64_add political (event_severity e))
  end.
Definition event_pressure (g : GalaxyState) : Z * Z * Z :=
  foldl add_pressure (0, 0, 0) (List.filter (λ e, 6 <=? event_severity e) (events g None)).

Definition compute_scores (agent : string) (stats : AgentStats) (board : MissionBoard)
    (citizens : CitizenRegistry) (governance : GovernanceEngine) (g : GalaxyState)
    : CivilizationScores :=
  let by_agent := List.filter (λ m, bool_decide (completed_by m = Some agent))
                    (list_missions board (Some Missions.Settled)) in
  let planets := list_planets governance in
  let created := count_i64 (length (List.filter (λ p, String.eqb (creator p) agent) planets)) in
  let validated :=
    count_i64 (length (List.filter (λ p, bool_decide (agent ∈ Governance.validators p)) planets)) in
  let citizen := profile citizens agent in
  let role_b := role_bonus (role <$> citizen) in
  let faction_b := faction_bonus (faction <$> citizen) in
  let '(spatial, economic, political) := event_pressure g in
  let wealth :=
    i64_add (i64_add (i64_add (st_watt stats) (i64_mul (st_capacity stats) 4))
                     (i64_mul (st_power stats) 10))
            (domain_score by_agent Wealth) in
  let power :=
    i64_add (i64_add (i64_add (i64_add (i64_add (i64_mul (st_power stats) 20)
                                                (i64_mul (st_reputation stats) 5))
                                       (i64_mul created 40))
                              (i64_mul validated 20))
                     political)
            role_b in
  let security :=
    i64_add (i64_add (i64_add (domain_score by_agent Security) (i64_mul validated 10)) spatial)
            faction_b in
  let trade :=
    i64_add (i64_add (i64_add (domain_score by_agent Trade) (Z.quot (st_watt stats) 4)) role_b)
            economic in
  let culture :=
    i64_add (i64_add (i64_add (domain_score by_agent Culture) (i64_mul (st_reputation stats) 4))
                     (i64_mul created 5))
            faction_b in
  let total := i64_add (i64_add (i64_add (i64_add wealth power) security) trade) culture in
  mkCivilizationScores wealth power security trade culture total.

(** ** Emergencies *)

Inductive EmergencyKind :=
  GalaxyEvent | GovernanceInstability | RecallElection | CustodyEmergency | SecurityMission.
#[global] Instance EmergencyKind_eq_dec : EqDecision EmergencyKind.
Proof. solve_decision. Defined.

Record EmergencySpec := mkEmergencySpec {
  em_agent_did : string;
  em_kind : EmergencyKind;
  em_severity : Z;
  em_title : string;
  em_description : string;
  em_subnet_id : option string;
  em_zone_id : option string;
  em_requires_human : bool;
}.

(** [build_emergency] adds a random identifier and the time. *)
Record EmergencyState := mkEmergencyState {
  emergency_id : string;
  em_spec : EmergencySpec;
  em_created_at : Z;
}.
Definition build_emergency (uuid : string) (now : Z) (s : EmergencySpec) : EmergencyState :=
  mkEmergencyState uuid s now.

Definition home_emergency (agent : string) (citizen : CitizenProfile) (governance : GovernanceEngine)
    : list EmergencySpec :=
  match home_subnet_id citizen with
  | None => []
  | Some home =>
      match Governance.planet governance home with
      | None => []
      | Some planet =>
          if bool_decide (government_status planet = Custody) then
            [mkEmergencySpec agent CustodyEmergency 5 "Planet placed into custody"
               "Local sovereignty failed and neutral administration was activated."
               (Some home) (home_zone_id citizen) true]
          else if bool_decide (government_status planet = Recall) then
            [mkEmergencySpec agent RecallElection 4 "Recall triggered"
               "Planet stability fell below threshold and leadership is under recall."
               (Some home) (home_zone_id citizen) true]
          else if stability planet <=? 30 then
            [mkEmergencySpec agent GovernanceInstability 4 "Planet stability critical"
               "Treasury or public order degraded below safe operating threshold."
               (Some home) (home_zone_id citizen)
               (emergency_recall_threshold (strategy_directive (strategy citizen)) <=? 4)]
          else []
      end
  end.

Definition event_emergencies (agent : string) (citizen : CitizenProfile) (g : GalaxyState)
    : list EmergencySpec :=
  let threshold := emergency_recall_threshold (strategy_directive (strategy citizen)) in
  match home_zone_id citizen with
  | None => []
  | Some home =>
      (λ e, mkEmergencySpec agent GalaxyEvent (event_severity e) (event_title e)
              (event_description e) (home_subnet_id citizen) (Some (event_zone_id e))
              (threshold <=? event_severity e))
      <$> List.filter (λ e, negb (event_severity e <? threshold)) (events g (Some home))
  end.

Definition urgent_domain (m : CivilMission) : bool :=
  bool_decide (domain m = Security) || bool_decide (domain m = Power).

Definition mission_emergencies (agent : string) (citizen : CitizenProfile) (board : MissionBoard)
    : list EmergencySpec :=
  (λ m, mkEmergencySpec agent SecurityMission 3 (title m)
          "An urgent open mission matches the home zone or subnet."
          (Missions.subnet_id m) (Missions.zone_id m)
          (max_auto_actions (strategy_directive (strategy citizen)) <=? 1))
  <$> List.filter (λ m, urgent_domain m
        && (bool_decide (Missions.subnet_id m = home_subnet_id citizen)
            || bool_decide (Missions.zone_id m = home_zone_id citizen)))
      (list_missions board (Some Missions.Open)).

(** [b.severity.cmp(&a.severity).then_with(|| a.title.cmp(&b.title))]. *)
Definition emergency_leb (a b : EmergencyState) : bool :=
  match Z.compare (em_severity (em_spec b)) (em_severity (em_spec a)) with
  | Lt => true
  | Eq => str_leb (em_title (em_spec a)) (em_title (em_spec b))
  | Gt => false
  end.

Definition emergency_specs (agent : string) (citizen : CitizenProfile) (board : MissionBoard)
    (governance : GovernanceEngine) (g : GalaxyState) : list EmergencySpec :=
  home_emergency agent citizen governance ++ event_emergencies agent citizen g
  ++ mission_emergencies agent citizen board.

Definition evaluate_emergencies (clk : clock) (uuids : nat → string) (agent : string)
    (citizens : CitizenRegistry) (board : MissionBoard) (governance : GovernanceEngine)
    (g : GalaxyState) : list EmergencyState :=
  match profile citizens agent with
  | None => []
  | Some citizen =>
      sort_by emergency_leb
        (imap (λ i s, build_emergency (uuids i) (clk i) s)
           (emergency_specs agent citizen board governance g))
  end.

(** ** Events the system generates *)

(** The [i]-th publication of the call reads the clock and a fresh id of its own. *)
Fixpoint governance_events (clk : clock) (uuids : nat → string) (max_events : nat)
    (generated : list DynamicEvent) (planets : list SubnetPlanet)
    : stm GalaxyState (list DynamicEvent) :=
  match planets with
  | [] => mret generated
  | p :: planets' =>
      if (max_events <=? length generated)%nat then mret generated
      else if stability p <=? 30 then
        e ← publish_event (λ _, clk (length generated)) (uuids (length generated)) Political
              "frontier-belt" ("Governance crisis on " +:+ Governance.name p)
              "Sovereignty stability dropped below safe threshold and emergency legitimacy is under review."
              7 None ["governance"; "crisis"]%string;
        governance_events clk uuids max_events (generated ++ [e]) planets'
      else governance_events clk uuids max_events generated planets'
  end.

Definition dispatch_domain (m : CivilMission) : bool :=
  bool_decide (domain m = Security) || bool_decide (domain m = Trade).

Fixpoint mission_events (clk : clock) (uuids : nat → string) (max_events : nat)
    (generated : list DynamicEvent) (open : list CivilMission)
    : stm GalaxyState (list DynamicEvent) :=
  match open with
  | [] => mret generated
  | m :: open' =>
      if (max_events <=? length generated)%nat then mret generated
      else if dispatch_domain m then
        let zone := default "frontier-belt"%string (Missions.zone_id m) in
        zs ← gets zones;
        if existsb (λ z, String.eqb (Galaxy.zone_id z) zone) zs then
          e ← publish_event (λ _, clk (length generated)) (uuids (length generated)) Spatial zone
                ("Mission pressure: " +:+ title m)
                "System generated dispatch created due to unresolved frontier contract pressure."
                6 None ["missions"; "dispatch"]%string;
          mission_events clk uuids max_events (generated ++ [e]) open'
        else mission_events clk uuids max_events generated open'
      else mission_events clk uuids max_events generated open'
  end.

Definition generate_system_galaxy_events (clk : clock) (uuids : nat → string)
    (governance : GovernanceEngine) (board : MissionBoard) (max_events : nat)
    : stm GalaxyState (list DynamicEvent) :=
  generated ← governance_events clk uuids max_events [] (list_planets governance);
  mission_events clk uuids max_events generated (list_missions board (Some Missions.Open)).

(** ** The standing is the sum of the settled rewards *)

Definition counts (c : string) (m : CivilMission) : bool :=
  bool_decide (status m = Missions.Settled) && bool_decide (completed_by m = Some c).
(** What a mission contributes to a component of the standing. *)
Definition contribution (f : MissionReward → Z) (c : string) (m : CivilMission) : Z :=
  if counts c m then from_option f 0 (reward m) else 0.
Definition total (f : CivilMission → Z) (l : list CivilMission) : Z := foldr (λ m acc, f m + acc) 0 l.

Arguments total : simpl never.
Lemma total_cons f m l : total f (m :: l) = f m + total f l.
Proof. done. Qed.

Lemma total_perm f l1 l2 : l1 ≡ₚ l2 → total f l1 = total f l2.
Proof. rewrite /total. induction 1; cbn [foldr]; lia. Qed.

Lemma wrap_add a b : wrap_i64 (wrap_i64 a + b) = wrap_i64 (a + b).
Proof.
  rewrite /wrap_i64. f_equal.
  replace ((a + 2 ^ 63) `mod` 2 ^ 64 - 2 ^ 63 + b + 2 ^ 63) with ((a + 2 ^ 63) `mod` 2 ^ 64 + b) by lia.
  rewrite Zplus_mod_idemp_l. f_equal. lia.
Qed.

Lemma total_filter f (P : CivilMission → bool) l :
  (∀ m, P m = false → f m = 0) → total f (List.filter P l) = total f l.
Proof.
  intros Hf. induction l as [|m l IH]; [done|]. cbn. rewrite total_cons.
  destruct (P m) eqn:E; [by rewrite total_cons IH|]. by rewrite IH Hf.
Qed.

Lemma standing_fold c l s :
  Forall (λ m, status m = Missions.Settled) l →
  ms_reputation s = wrap_i64 (ms_reputation s) → ms_capacity s = wrap_i64 (ms_capacity s) →
  foldl (earn c) s l
  = mkMissionStanding (wrap_i64 (ms_reputation s + total (contribution reputation c) l))
                      (wrap_i64 (ms_capacity s + total (contribution capacity c) l)).
Proof.
  intros Hall. revert s. induction Hall as [|m l Hm _ IH]; intros s Hr Hc; cbn [foldl]; rewrite ?total_cons.
  { rewrite /total /= !Z.add_0_r -Hr -Hc. by destruct s. }
  assert (∀ f, contribution f c m
    = if bool_decide (completed_by m ≠ Some c) then 0 else from_option f 0 (reward m)) as Hcon.
  { intros f. rewrite /contribution /counts bool_decide_true // /= bool_decide_not. by case_bool_decide. }
  rewrite !Hcon /earn. destruct (bool_decide _); [by apply IH|].
  destruct (reward m) as [r|]; [|by apply IH]. cbn [from_option].
  rewrite IH; cbn [ms_reputation ms_capacity]; rewrite /i64_add; [|symmetry; apply wrap_i64_id; apply wrap_i64_range..].
  rewrite !wrap_add. f_equal; f_equal; lia.
Qed.

Lemma mission_standing_total st c :
  mission_standing st c
  = mkMissionStanding (wrap_i64 (total (contribution reputation c) (btree_values (missions st))))
                      (wrap_i64 (total (contribution capacity c) (btree_values (missions st)))).
Proof.
  rewrite /mission_standing standing_fold //.
  - cbn. rewrite /list_missions /is_none_or.
    rewrite !total_filter //; intros m Hm; bool_to_prop; rewrite /contribution /counts;
      by rewrite bool_decide_false.
  - apply Forall_forall. intros m [_ Hm]%elem_of_filterb. cbn in Hm. by bool_to_prop.
Qed.

Lemma btree_values_insert (ms : gmap string CivilMission) id m :
  btree_values (<[id := m]> ms) ≡ₚ m :: btree_values (delete id ms).
Proof.
  rewrite /btree_values /btree_entries !sort_by_perm -insert_delete_eq.
  rewrite map_to_list_insert; [done|]. by rewrite lookup_delete_eq.
Qed.

Lemma total_board_insert f (ms : gmap string CivilMission) id m :
  total f (btree_values (<[id := m]> ms))
  = total f (btree_values ms) + f m - from_option f 0 (ms !! id).
Proof.
  rewrite (total_perm _ _ _ (btree_values_insert ms id m)) total_cons.
  destruct (ms !! id) as [m0|] eqn:E; cbn [from_option].
  - rewrite -{2}(insert_id ms id m0 E) (total_perm _ _ _ (btree_values_insert ms id m0)) total_cons. lia.
  - rewrite delete_id //. lia.
Qed.

(** *** One step of the board *)

Lemma board_step_single st st' :
  board_step st st' → st' = st ∨ ∃ id m', st' = st <| missions ::= <[id := m']> |>.
Proof.
  destruct 1; rewrite ?/publish_with_scope_and_geo ?/set_expiry ?/clear_bounty_escrow
    ?/record_bounty_escrow_intent ?/mark_bounty_escrowed ?/claim_as ?/complete ?/cancel
    ?/cancel_unfunded ?/settle ?/apply_remote_claim_approved ?/apply_remote_completed;
    board_run; eauto.
Qed.

(** The executor of a settled mission is not written again. *)
Lemma board_step_settled st st' id m m' :
  board_step st st' → missions st !! id = Some m → status m = Missions.Settled →
  missions st' !! id = Some m' → completed_by m' = completed_by m.
Proof.
  intros Hstep Hm Hs. destruct Hstep;
    rewrite ?/publish_with_scope_and_geo ?/set_expiry ?/clear_bounty_escrow
    ?/record_bounty_escrow_intent ?/mark_bounty_escrowed ?/claim_as ?/complete ?/cancel
    ?/cancel_unfunded ?/settle ?/apply_remote_claim_approved ?/apply_remote_completed;
    board_run; try congruence;
    intros E; rewrite /set_field /= in E; apply lookup_insert_Some in E as [[? <-]|[_ E]];
    simplify_eq; try done.
  all: bool_to_prop; unfold cancel_if_expired, open_or_claimed in *.
  all: try congruence.
  all: repeat match goal with Hx : context [match status _ with _ => _ end] |- _ =>
         rewrite Hs /= in Hx end; done.
Qed.

Definition credit (s : MissionStanding) (r : option MissionReward) : MissionStanding :=
  mkMissionStanding (i64_add (ms_reputation s) (from_option reputation 0 r))
                    (i64_add (ms_capacity s) (from_option capacity 0 r)).

(** A mission that does not change its contribution leaves the standing. *)
Lemma standing_insert_same st c id m' :
  (∀ f, contribution f c m' = from_option (contribution f c) 0 (missions st !! id)) →
  mission_standing (st <| missions ::= <[id := m']> |>) c = mission_standing st c.
Proof.
  intros Hf. rewrite !mission_standing_total /set_field /= !total_board_insert !Hf.
  f_equal; f_equal; lia.
Qed.

Lemma standing_insert_credit st c id m m' :
  missions st !! id = Some m → (∀ f, contribution f c m = 0) →
  (∀ f, contribution f c m' = from_option f 0 (reward m)) →
  mission_standing (st <| missions ::= <[id := m']> |>) c = credit (mission_standing st c) (reward m).
Proof.
  intros Hm H0 Hf. rewrite !mission_standing_total /set_field /= !total_board_insert Hm /= !H0 !Hf.
  rewrite /credit /i64_add /= !wrap_add. f_equal; f_equal; lia.
Qed.

(** An agent's reputation and capacity move only when a mission it completed is
    settled, and then by exactly the reward the mission was published with. Every other
    step of a reachable board leaves the standing of everyone as it was. *)
Theorem standing_moves_on_settlement st st' c :
  board_reachable st → board_step st st' →
  mission_standing st' c = mission_standing st c
  ∨ ∃ id m m', missions st !! id = Some m ∧ missions st' !! id = Some m'
      ∧ status m = Missions.Completed ∧ status m' = Missions.Settled
      ∧ completed_by m' = Some c
      ∧ mission_standing st' c = credit (mission_standing st c) (reward m).
Proof.
  intros Hinv%reachable_board_inv Hstep.
  destruct (board_step_single _ _ Hstep) as [->|(id & m' & E)]; [by left|].
  assert (missions st' !! id = Some m') as Hm' by (rewrite E; apply lookup_insert_eq).
  destruct (missions st !! id) as [m|] eqn:Hm.
  2:{ left. rewrite E. apply standing_insert_same. intros f. rewrite Hm /=.
      destruct (board_step_new _ _ _ _ Hstep Hm Hm') as [_ Ho].
      by rewrite /contribution /counts Ho. }
  destruct (board_step_mission _ _ _ _ Hstep Hm) as (m2 & Hm2 & (Hlc & Hsame & _) & Hok).
  rewrite Hm' in Hm2. injection Hm2 as <-. destruct Hsame as (_ & _ & Hrew & _).
  destruct (decide (status m = Missions.Completed ∧ status m' = Missions.Settled)) as [[Hc Hs]|Hnot].
  - destruct (decide (completed_by m' = Some c)) as [Hby|Hby].
    + right. exists id, m, m'. split_and!; try done. rewrite E. apply standing_insert_credit; [done| |].
      * intros f. by rewrite /contribution /counts Hc.
      * intros f. by rewrite /contribution /counts Hs Hby Hrew !bool_decide_true.
    + left. rewrite E. apply standing_insert_same. intros f. rewrite Hm /=.
      rewrite /contribution /counts Hs Hc. by rewrite (bool_decide_false _ Hby).
  - left. rewrite E. apply standing_insert_same. intros f. rewrite Hm /=.
    rewrite /contribution /counts Hrew.
    destruct (decide (status m = Missions.Settled)) as [Hs|Hs].
    + rewrite (board_step_settled _ _ _ _ _ Hstep Hm Hs Hm').
      assert (status m' = Missions.Settled) as -> by (rewrite Hs in Hlc; inversion Hlc; congruence).
      by rewrite Hs.
    + assert (status m' ≠ Missions.Settled) as Hs' by (inversion Hlc; naive_solver congruence).
      by rewrite (bool_decide_false _ Hs) (bool_decide_false _ Hs').
Qed.

(** The computing power of an agent never falls under the default. *)
Lemma stats_power_positive s watt : DEFAULT_AGENT_COMPUTE ≤ st_power (stats_with_watt s watt).
Proof. cbn. lia. Qed.

(** ** Emergencies in order *)

Lemma emergency_leb_total a b : emergency_leb a b = true ∨ emergency_leb b a = true.
Proof.
  rewrite /emergency_leb (Z.compare_antisym (em_severity (em_spec a))).
  destruct (Z.compare_spec (em_severity (em_spec a)) (em_severity (em_spec b))); cbn; auto.
  apply str_leb_total.
Qed.

(** Emergencies of the home planet. *)
Definition of_planet (s : EmergencySpec) : bool :=
  bool_decide (em_kind s ≠ GalaxyEvent ∧ em_kind s ≠ SecurityMission).

Lemma filter_none {A} (f : A → bool) l : (∀ x, x ∈ l → f x = false) → List.filter f l = [].
Proof.
  induction l as [|x l IH]; intros Hf; [done|]. cbn. rewrite Hf; [|by left].
  apply IH. intros y Hy. apply Hf. by right.
Qed.

Lemma length_filter_fmap {A B} (f : B → bool) (g : A → B) l :
  length (List.filter (λ x, f (g x)) l) = length (List.filter f (g <$> l)).
Proof. induction l as [|x l IH]; [done|]. cbn. destruct (f (g x)); cbn; by rewrite IH. Qed.

Lemma filter_perm {A} (f : A → bool) l1 l2 : l1 ≡ₚ l2 → List.filter f l1 ≡ₚ List.filter f l2.
Proof.
  induction 1; cbn; repeat case_match; try done; try by constructor. by etrans.
Qed.

Lemma one_of_planet agent citizen board governance g :
  (length (List.filter of_planet (emergency_specs agent citizen board governance g)) ≤ 1)%nat.
Proof.
  rewrite /emergency_specs !List.filter_app.
  rewrite (filter_none _ (event_emergencies _ _ _)); [|intros s].
  2:{ rewrite /event_emergencies. destruct (home_zone_id citizen); [|by intros ?%elem_of_nil].
      by intros (e & -> & _)%list_elem_of_fmap. }
  rewrite (filter_none _ (mission_emergencies _ _ _)); [|by intros s (m & -> & _)%list_elem_of_fmap].
  rewrite !app_nil_r. etrans; [apply List.filter_length_le|].
  rewrite /home_emergency. repeat case_match; cbn; lia.
Qed.

Lemma elem_of_event_emergencies agent citizen g s :
  s ∈ event_emergencies agent citizen g ↔
  ∃ home e, home_zone_id citizen = Some home ∧ e ∈ events g (Some home)
    ∧ emergency_recall_threshold (strategy_directive (strategy citizen)) ≤ event_severity e
    ∧ s = mkEmergencySpec agent GalaxyEvent (event_severity e) (event_title e)
            (event_description e) (home_subnet_id citizen) (Some (event_zone_id e)) true.
Proof.
  rewrite /event_emergencies. destruct (home_zone_id citizen) as [home|].
  2:{ rewrite elem_of_nil. split; [done|]. by intros (? & ? & ? & _). }
  rewrite list_elem_of_fmap. split.
  - intros (e & -> & [He Ht]%elem_of_filterb). bool_to_prop. exists home, e. split_and!; try done.
    f_equal. by apply Z.leb_le.
  - intros (? & e & [= <-] & He & Ht & ->). exists e. split; [f_equal; symmetry; by apply Z.leb_le|].
    apply elem_of_filterb. split; [done|]. apply negb_true_iff. by apply Z.ltb_ge.
Qed.

Lemma galaxy_specs agent citizen board governance g s :
  s ∈ emergency_specs agent citizen board governance g → em_kind s = GalaxyEvent →
  s ∈ event_emergencies agent citizen g.
Proof.
  rewrite /emergency_specs !elem_of_app. intros [Hs|[Hs|Hs]] Hk; [|done|].
  - rewrite /home_emergency in Hs. repeat case_match; rewrite ?elem_of_nil ?list_elem_of_singleton in Hs;
      by simplify_eq.
  - by apply list_elem_of_fmap in Hs as (m & -> & _).
Qed.

(** The emergencies of a citizen are the one of its home planet, one for each event
    of its home zone at or above the threshold of its strategy, all of them for a human,
    and one for each urgent open mission near its home; they come most severe first, and by
    title among equals. An agent without a profile has none. *)
Theorem emergencies_spec clk uuids agent citizens board governance g :
  let l := evaluate_emergencies clk uuids agent citizens board governance g in
  Sorted (λ a b, emergency_leb a b = true) l
  ∧ match profile citizens agent with
    | None => l = []
    | Some citizen =>
        let t := emergency_recall_threshold (strategy_directive (strategy citizen)) in
        (length (List.filter (λ e, bool_decide (em_kind (em_spec e) ≠ GalaxyEvent
                                     ∧ em_kind (em_spec e) ≠ SecurityMission)) l) ≤ 1)%nat
        ∧ (∀ s, s ∈ em_spec <$> l → em_kind s = GalaxyEvent →
             em_requires_human s = true ∧ t ≤ em_severity s)
        ∧ ∀ home e, home_zone_id citizen = Some home → e ∈ events g (Some home) →
             t ≤ event_severity e →
             ∃ s, s ∈ em_spec <$> l ∧ em_kind s = GalaxyEvent ∧ em_title s = event_title e
               ∧ em_severity s = event_severity e
    end.
Proof.
  cbn zeta. rewrite /evaluate_emergencies. destruct (profile citizens agent) as [citizen|]; [|by repeat constructor].
  set (specs := emergency_specs _ _ _ _ _). set (built := imap _ specs).
  assert (em_spec <$> built = specs) as Hb.
  { rewrite /built. apply list_eq. intros i. rewrite list_lookup_fmap list_lookup_imap.
    by destruct (specs !! i). }
  assert (∀ s, s ∈ em_spec <$> sort_by emergency_leb built ↔ s ∈ specs) as Hin.
  { intros s. by rewrite -Hb sort_by_perm. }
  split; [apply sort_by_sorted, emergency_leb_total|]. cbn zeta. split; [|split].
  - rewrite (Permutation_length (filter_perm _ _ _ (sort_by_perm emergency_leb built))).
    change (length (List.filter (λ e, of_planet (em_spec e)) built) ≤ 1)%nat.
    rewrite length_filter_fmap Hb. apply one_of_planet.
  - intros s Hs%Hin Hk. apply galaxy_specs in Hs; [|done].
    apply elem_of_event_emergencies in Hs as (home & e & _ & _ & ? & ->). done.
  - intros home e Hh He Ht.
    exists (mkEmergencySpec agent GalaxyEvent (event_severity e) (event_title e)
      (event_description e) (home_subnet_id citizen) (Some (event_zone_id e)) true).
    split_and!; [|done..].
    apply Hin, elem_of_app. right. apply elem_of_app. left.
    apply elem_of_event_emergencies. exists home, e. by split_and!.
Qed.

(** ** Generated events *)

Section generation.
Context (clk : clock) (uuids : nat → string) (max_events : nat).

Definition has_zone (g : GalaxyState) (zone : string) : bool :=
  existsb (λ z, String.eqb (Galaxy.zone_id z) zone) (zones g).

Lemma publish_event_run c uuid cat zone ti d sev ex tags g :
  has_zone g zone = true →
  ∃ e, publish_event c uuid cat zone ti d sev ex tags g
       = (Ok e, mkGalaxyState (zones g) (all_events g ++ [e]))
    ∧ event_severity e = Z.min sev 10 ∧ event_zone_id e = zone.
Proof.
  intros Hz. rewrite /publish_event. cbv [mbind stm_bind gets ensure modify mret stm_ret].
  rewrite /has_zone in Hz. rewrite Hz. eexists. by split_and!.
Qed.

(** A run appends the events it returns, after those it was given. *)
Definition appends (g : GalaxyState) (before : list DynamicEvent)
    (r : result (list DynamicEvent) * GalaxyState) : Prop :=
  ∃ new, r = (Ok (before ++ new), mkGalaxyState (zones g) (all_events g ++ new))
    ∧ (length (before ++ new) ≤ max max_events (length before))%nat
    ∧ Forall (λ e, 6 ≤ event_severity e ≤ 7 ∧ has_zone g (event_zone_id e) = true) new.

Lemma appends_nil g before : appends g before (Ok before, g).
Proof.
  exists []. rewrite !app_nil_r. split_and!; [by destruct g|lia|constructor].
Qed.

Lemma appends_cons g before e r :
  (length before < max_events)%nat →
  6 ≤ event_severity e ≤ 7 → has_zone g (event_zone_id e) = true →
  appends (mkGalaxyState (zones g) (all_events g ++ [e])) (before ++ [e]) r → appends g before r.
Proof.
  intros Hl Hs Hz (new & -> & Hlen & Hnew). exists (e :: new). cbn in *.
  rewrite -!app_assoc in Hlen |- *. split_and!; [done| |constructor; [by split|done]].
  rewrite !length_app /= in Hlen |- *. lia.
Qed.

Lemma governance_events_run planets g before :
  has_zone g "frontier-belt" = true →
  appends g before (governance_events clk uuids max_events before planets g).
Proof.
  revert g before. induction planets as [|p planets IH]; intros g before Hz; cbn [governance_events].
  { apply appends_nil. }
  destruct (max_events <=? length before)%nat eqn:Hm; [apply appends_nil|]. bool_to_prop.
  destruct (stability p <=? 30); [|by apply IH].
  match goal with |- context [publish_event ?c ?u ?cat ?z ?t ?d ?s ?x ?tags] =>
    destruct (publish_event_run c u cat z t d s x tags g Hz) as (e & Hrun & Hs & He) end.
  rewrite /mbind /stm_bind Hrun. apply (appends_cons _ _ e); [lia|rewrite Hs; lia|by rewrite He|].
  by apply IH.
Qed.

Lemma mission_events_run open g before :
  appends g before (mission_events clk uuids max_events before open g).
Proof.
  revert g before. induction open as [|m open IH]; intros g before; cbn [mission_events].
  { apply appends_nil. }
  destruct (max_events <=? length before)%nat eqn:Hm; [apply appends_nil|]. bool_to_prop.
  destruct (dispatch_domain m); [|by apply IH].
  cbv [mbind stm_bind gets]. set (zone := default _ _).
  destruct (existsb _ (zones g)) eqn:Hz; [|by apply IH].
  match goal with |- context [publish_event ?c ?u ?cat ?z ?t ?d ?s ?x ?tags] =>
    destruct (publish_event_run c u cat z t d s x tags g Hz) as (e & Hrun & Hs & He) end.
  rewrite Hrun. apply (appends_cons _ _ e); [lia|rewrite Hs; lia|by rewrite He|]. apply IH.
Qed.
End generation.

(** In a galaxy with the frontier belt, generating system events always succeeds. It
    appends the events it returns, at most as many as it was asked for, each in a zone of the
    galaxy and of severity 6 or 7, and changes nothing else. *)
Theorem generate_events_spec clk uuids governance board max_events g :
  has_zone g "frontier-belt" = true →
  ∃ new, generate_system_galaxy_events clk uuids governance board max_events g
         = (Ok new, mkGalaxyState (zones g) (all_events g ++ new))
    ∧ (length new ≤ max_events)%nat
    ∧ Forall (λ e, 6 ≤ event_severity e ≤ 7 ∧ has_zone g (event_zone_id e) = true) new.
Proof.
  intros Hz. rewrite /generate_system_galaxy_events /mbind /stm_bind.
  destruct (governance_events_run clk uuids max_events (list_planets governance) g [] Hz)
    as (new1 & -> & Hl1 & Hn1).
  set (g1 := mkGalaxyState _ _).
  destruct (mission_events_run clk uuids max_events (list_missions board (Some Missions.Open)) g1 ([] ++ new1))
    as (new2 & -> & Hl2 & Hn2).
  exists (new1 ++ new2). cbn in *. rewrite app_assoc. split_and!; [done|lia|].
  by apply Forall_app.
Qed.

(** ** A settled mission, a crisis and a citizen without a home *)

Module StandingScenario.
Import BoardScenario.

Definition done_board : MissionBoard := exec (complete clk "m1" "did:a" None) b2.
Definition settled_board : MissionBoard := exec (settle clk "m1") done_board.

Lemma done_board_reachable : board_reachable done_board.
Proof. eapply rtc_r; [apply b2_steps|]. apply (step_complete b2 clk "m1" "did:a" None). Qed.

Lemma standing_moves_on_settlement_witness :
  mission_standing done_board "did:a" = mkMissionStanding 0 0
  ∧ (mission_standing settled_board "did:a" = mission_standing done_board "did:a"
     ∨ mission_standing settled_board "did:a"
       = credit (mission_standing done_board "did:a") (Some (mkMissionReward 50 1 0))).
Proof.
  split; [vm_compute; reflexivity|].
  destruct (standing_moves_on_settlement done_board settled_board "did:a" done_board_reachable
    (step_settle done_board clk "m1")) as [H|(id & m & m' & Hm & _ & _ & _ & _ & H)]; [by left|right].
  rewrite H. f_equal.
  destruct (decide (id = "m1"%string)) as [->|Hne].
  - vm_compute in Hm. injection Hm as <-. vm_compute. reflexivity.
  - exfalso. destruct (missions done_board !! id) eqn:E; [|done].
    assert (id ∈ dom (missions done_board)) as Hd by (apply elem_of_dom; eauto).
    assert (dom (missions done_board) = {["m1"%string]}) as Hdom by (by apply (bool_decide_unpack _); vm_compute).
    rewrite Hdom in Hd. by apply elem_of_singleton in Hd.
Defined.

Lemma generate_events_spec_witness :
  ∃ new, outcome (generate_system_galaxy_events clk (λ _, "e"%string) default_engine b1 1)
           default_with_core_zones = Ok new ∧ (length new ≤ 1)%nat.
Proof.
  destruct (generate_events_spec clk (λ _, "e"%string) default_engine b1 1 default_with_core_zones
    ltac:(vm_compute; reflexivity)) as (new & Hrun & Hlen & _).
  exists new. split; [by rewrite /outcome Hrun|exact Hlen].
Defined.

(** A patrol mission published without a subnet or a zone. *)
Definition patrol : MissionBoard :=
  exec (publish_with_scope_and_geo clk "m9"
    (mkMissionSpec "patrol" "" "did:p" Player Security RealWorld None None None None None JNull) None)
    default_board.
Definition drifters (home : option string) : CitizenRegistry :=
  exec (set_profile clk "did:a" Order Operator Balanced home None) (mkCitizenRegistry ∅).

(** A citizen with no home zone is told that any urgent mission without a zone
    matches its home zone or subnet: two absent zones compare equal. *)
Theorem homeless_citizen_alarmed :
  (em_title ∘ em_spec) <$> evaluate_emergencies clk (λ _, "id"%string) "did:a" (drifters (Some "mars"%string))
    patrol default_engine default_with_core_zones = ["patrol"%string]
  ∧ (em_description ∘ em_spec) <$> evaluate_emergencies clk (λ _, "id"%string) "did:a"
      (drifters None) patrol default_engine default_with_core_zones
    = ["An urgent open mission matches the home zone or subnet."%string].
Proof. split; vm_compute; reflexivity. Qed.
End StandingScenario.
