(* ===== verification/Reports.v ===== *)
(** * Summaries and night-shift reports

    [storage/summary.rs]: the signed public summary of an agent;
    [brain/night_shift.rs]: the report on a window of the event log. Both are
    computed from the records of the event log. *)

From S2P Require Import Prelude Collections Text Json Signing EventLog Standing.
#[local] Open Scope Z_scope.

Definition count {A} (P : A → bool) (l : list A) : Z := Z.of_nat (length (List.filter P l)).

(** A filter for either of two exclusive conditions splits. *)
Lemma filter_split_perm {A} (P Q R : A → bool) l :
  (∀ x, R x = P x || Q x) → (∀ x, P x = true → Q x = false) →
  List.filter R l ≡ₚ List.filter P l ++ List.filter Q l.
Proof.
  intros HR Hex. induction l as [|x l IH]; simpl; [done|].
  rewrite HR. destruct (P x) eqn:E; simpl; [rewrite (Hex x E); by constructor|].
  destruct (Q x); [|done]. rewrite -Permutation_middle. by constructor.
Qed.

(** ** Ratios of doubles *)

(** [f64::from(a) / f64::from(b)] for [u32] values: both are exact, and the
    quotient is rounded to the nearest double, ties to even. *)
Definition f64_one : f64 := 1023 * 2 ^ 52.
Definition f64_ratio (a b : Z) : f64 :=
  if a =? 0 then 0
  else
    let s0 := 52 + Z.log2 b - Z.log2 a in
    let s := if a * 2 ^ s0 <? b * 2 ^ 52 then s0 + 1 else s0 in
    let q := a * 2 ^ s / b in
    let r := (a * 2 ^ s) mod b in
    let q := if (b <? 2 * r) || ((2 * r =? b) && Z.odd q) then q + 1 else q in
    (52 - s + 1023) * 2 ^ 52 + (q - 2 ^ 52).

Example f64_ratio_half : f64_ratio 1 2 = 0x3FE0000000000000. Proof. reflexivity. Qed.
Example f64_ratio_third : f64_ratio 1 3 = 0x3FD5555555555555. Proof. reflexivity. Qed.
Example f64_ratio_two_thirds : f64_ratio 2 3 = 0x3FE5555555555555. Proof. reflexivity. Qed.

(** A ratio of at most one is a double of at most one. *)
Lemma f64_ratio_unit a b :
  0 ≤ a ≤ b → 0 < b ≤ u32_max → 0 ≤ f64_ratio a b ≤ f64_one.
Proof.
  intros Ha Hb. rewrite /f64_ratio. destruct (Z.eqb_spec a 0) as [->|Ha0].
  { rewrite /f64_one. lia. }
  set (s0 := 52 + Z.log2 b - Z.log2 a). cbv zeta.
  assert (0 ≤ Z.log2 a ≤ Z.log2 b ∧ Z.log2 b ≤ 31) as Hlog.
  { split; [split; [apply Z.log2_nonneg|apply Z.log2_le_mono; lia]|].
    apply Z.lt_succ_r. apply Z.log2_lt_pow2; [lia|]. rewrite /u32_max in Hb. lia. }
  set (s := if _ <? _ then s0 + 1 else s0).
  assert (52 ≤ s ≤ 84 ∧ (a < b → 53 ≤ s)) as [Hs Hlt].
  { rewrite /s. destruct (Z.ltb_spec (a * 2 ^ s0) (b * 2 ^ 52)) as [?|Hge]; [lia|].
    split; [lia|]. intros Hab. destruct (decide (s0 = 52)) as [Hs0|]; [|lia].
    rewrite Hs0 in Hge. nia. }
  assert (b * 2 ^ 52 ≤ a * 2 ^ s < b * 2 ^ 53) as Hrange.
  { pose proof (Z.log2_spec a ltac:(lia)) as [Ha1 Ha2].
    pose proof (Z.log2_spec b ltac:(lia)) as [Hb1 Hb2].
    rewrite Z.pow_succ_r in Ha2; [|lia]. rewrite Z.pow_succ_r in Hb2; [|lia].
    assert (2 ^ s0 * 2 ^ Z.log2 a = 2 ^ 52 * 2 ^ Z.log2 b) as Hpow.
    { rewrite -!Z.pow_add_r; [f_equal; lia|lia..]. }
    assert (0 < 2 ^ s0) by (apply Z.pow_pos_nonneg; lia).
    rewrite /s. destruct (Z.ltb_spec (a * 2 ^ s0) (b * 2 ^ 52)) as [Hl|Hge].
    - rewrite Z.pow_add_r; [|lia..]. change (2 ^ 53) with (2 ^ 52 * 2). change (2 ^ 1) with 2.
      split; [nia|lia].
    - split; [done|]. change (2 ^ 53) with (2 ^ 52 * 2). nia. }
  set (q := a * 2 ^ s / b).
  assert (2 ^ 52 ≤ q < 2 ^ 53) as Hq.
  { split; [apply Z.div_le_lower_bound; lia|apply Z.div_lt_upper_bound; lia]. }
  set (q' := if _ || _ then q + 1 else q).
  assert (q ≤ q' ≤ q + 1) as Hq' by (rewrite /q'; case_match; lia).
  rewrite /f64_one. destruct (decide (a < b)) as [Hab|Hab].
  - specialize (Hlt Hab). change (2 ^ 53) with (2 * 2 ^ 52) in Hq.
    set (M := 2 ^ 52) in *. assert (0 < M) by (rewrite /M; lia). nia.
  - assert (a = b) as -> by lia. assert (s = 52) as Hs52.
    { rewrite /s /s0. replace (52 + Z.log2 b - Z.log2 b) with 52 by lia. by rewrite Z.ltb_irrefl. }
    assert (q' = 2 ^ 52) as ->; [|rewrite Hs52; lia].
    rewrite /q' /q Hs52 (Z.mul_comm b) Z.div_mul; [|lia]. rewrite Z.mod_mul; [|lia].
    destruct (Z.ltb_spec b (2 * 0)); [lia|]. destruct (Z.eqb_spec (2 * 0) b); [lia|]. done.
Qed.

(** ** Signed summaries *)

Module Summary.

Record IdentityCompatView := mkIdentityCompatView { agent_did : string; public_key : string }.

Record TaskStats := mkTaskStats { completed : Z; success_rate : f64; contribution : Z }.

Record SignedSummary := mkSignedSummary {
  sum_agent_did : string;
  controller_id : option string;
  public_id : option string;
  timestamp : Z;
  subnet_id : option string;
  power : Z;
  watt : Z;
  reputation : Z;
  capacity : Z;
  task_stats : TaskStats;
  events_digest : string;
  signature : string;
}.

Section summary.
Context `{Crypto}.

Definition digest_events (events : list EventRecord) : string :=
  sha256_hex (foldl (λ acc e, acc +:+ hash e) "" events).

Definition json_of_task_stats (t : TaskStats) : json :=
  JObject [("completed", json_of_Z (completed t)); ("success_rate", JNumber (Float (success_rate t)));
           ("contribution", json_of_Z (contribution t))].

(** The derived serialisation of [SummarySignable]: the summary without its
    signature. *)
Definition json_of_signable (s : SignedSummary) : json :=
  JObject [("agent_did", JString (sum_agent_did s));
           ("controller_id", json_of_option JString (controller_id s));
           ("public_id", json_of_option JString (public_id s));
           ("timestamp", json_of_Z (timestamp s));
           ("subnet_id", json_of_option JString (subnet_id s));
           ("power", json_of_Z (power s)); ("watt", json_of_Z (watt s));
           ("reputation", json_of_Z (reputation s)); ("capacity", json_of_Z (capacity s));
           ("task_stats", json_of_task_stats (task_stats s));
           ("events_digest", JString (events_digest s))].

Definition is_settled (e : EventRecord) : bool := String.eqb (event_type e) "TASK_SETTLED".
Definition is_verified (e : EventRecord) : bool := String.eqb (event_type e) "TASK_VERIFIED".
Definition is_accepted (e : EventRecord) : bool :=
  is_verified e && default false (as_bool (json_index (payload e) "accepted")).

(** [u32::try_from(n).unwrap_or(u32::MAX)] of a count. *)
Definition to_u32 (n : Z) : Z := if n <=? u32_max then n else u32_max.

Definition success (events : list EventRecord) : f64 :=
  let verified_u32 := to_u32 (count is_verified events) in
  let accepted_u32 := to_u32 (count is_accepted events) in
  if verified_u32 =? 0 then f64_one else f64_ratio accepted_u32 verified_u32.

Definition build_signed_summary_for_identity_and_signer (now : Z) (identity : IdentityCompatView)
    (signer : PayloadSigner) (public_id subnet_id : option string) (ledger : AgentStats)
    (recent_events : list EventRecord) : result SignedSummary :=
  let stats := mkTaskStats (count is_settled recent_events) (success recent_events)
    (st_capacity ledger) in
  let summary sig := mkSignedSummary (agent_did identity) (Some (agent_did identity)) public_id now
    subnet_id (st_power ledger) (st_watt ledger) (st_reputation ledger) (st_capacity ledger) stats
    (digest_events recent_events) sig in
  sig ← sign_payload_with (json_of_signable (summary "")) signer;
  Ok (summary sig).

(** The identity signs for itself. *)
Definition build_signed_summary_for_public_identity (now : Z) (identity : IdentityCompatView)
    (signer : PayloadSigner) (public_id subnet_id : option string) (ledger : AgentStats)
    (recent_events : list EventRecord) : result SignedSummary :=
  build_signed_summary_for_identity_and_signer now identity signer public_id subnet_id ledger
    recent_events.

Definition build_signed_summary (now : Z) (identity : IdentityCompatView) (signer : PayloadSigner)
    (subnet_id : option string) (ledger : AgentStats) (recent_events : list EventRecord)
    : result SignedSummary :=
  build_signed_summary_for_public_identity now identity signer (Some (agent_did identity)) subnet_id
    ledger recent_events.

Lemma digest_text events acc :
  to_bytes (foldl (λ acc e, acc +:+ hash e) acc events)
  = to_bytes acc ++ concat ((λ e, to_bytes (hash e)) <$> events).
Proof.
  revert acc. induction events as [|e events IH]; intros acc; simpl; [by rewrite app_nil_r|].
  by rewrite IH to_bytes_app -app_assoc.
Qed.

(** Blocks of one length can be told apart in their concatenation. *)
Lemma concat_blocks_inj (n : nat) (l1 l2 : list string) :
  (0 < n)%nat → Forall (λ s, length (to_bytes s) = n) l1 → Forall (λ s, length (to_bytes s) = n) l2 →
  concat (to_bytes <$> l1) = concat (to_bytes <$> l2) → l1 = l2.
Proof.
  intros Hn Hl1. revert l2. induction Hl1 as [|s l1 Hs _ IH]; intros l2 Hl2 Heq.
  - destruct Hl2 as [|t l2 Ht _]; [done|]. simpl in Heq. exfalso.
    apply (f_equal length) in Heq. rewrite length_app Ht /= in Heq. lia.
  - destruct Hl2 as [|t l2 Ht Hl2].
    { exfalso. apply (f_equal length) in Heq. simpl in Heq. rewrite length_app Hs in Heq. lia. }
    simpl in Heq. apply app_inj_1 in Heq as [Hst Heq]; [|by rewrite Hs Ht].
    apply to_bytes_inj in Hst as ->. f_equal. by apply IH.
Qed.

Lemma digest_events_faithful evs evs' :
  Forall (λ e, length (to_bytes (hash e)) = 64%nat) evs →
  Forall (λ e, length (to_bytes (hash e)) = 64%nat) evs' →
  digest_events evs = digest_events evs' → (hash <$> evs) = (hash <$> evs') ∨ hash_collision.
Proof.
  intros Hl Hl' Heq. rewrite /digest_events in Heq.
  destruct (decide (foldl (λ acc e, acc +:+ hash e) "" evs
                    = foldl (λ acc e, acc +:+ hash e) "" evs')) as [He|Hne]; [left|right; eexists _, _; done].
  apply (f_equal to_bytes) in He. rewrite !digest_text /= in He.
  apply (concat_blocks_inj 64); [lia|by apply Forall_fmap..|].
  by rewrite -!list_fmap_compose.
Qed.

Lemma success_unit events : 0 ≤ success events ≤ f64_one.
Proof.
  rewrite /success /to_u32 /count.
  assert (length (List.filter is_accepted events) ≤ length (List.filter is_verified events))%nat.
  { apply length_filter_le. intros e He. by apply andb_true_iff in He as [? _]. }
  set (a := length (List.filter is_accepted events)) in *.
  set (v := length (List.filter is_verified events)) in *.
  destruct (Z.leb_spec (Z.of_nat v) u32_max), (Z.leb_spec (Z.of_nat a) u32_max);
    (destruct (_ =? 0) eqn:E; [unfold f64_one; lia|]); apply Z.eqb_neq in E;
    apply f64_ratio_unit; unfold u32_max in *; lia.
Qed.

(** A summary that is built carries the ledger's figures and the counts of
    the recent events, its success rate lies between 0 and 1, and its signature
    verifies under the summary's own agent DID when the signer signs for that
    identity. Two summaries with the same digest report the same event hashes in
    the same order, unless SHA-256 has a collision. *)
Theorem signed_summary_spec now identity signer pid sid ledger events s :
  SignerSound signer → ps_agent_did signer = agent_did identity →
  build_signed_summary_for_identity_and_signer now identity signer pid sid ledger events = Ok s →
  verify_payload (json_of_signable s) (signature s) (sum_agent_did s) = Ok true
  ∧ (power s, watt s, reputation s, capacity s)
    = (st_power ledger, st_watt ledger, st_reputation ledger, st_capacity ledger)
  ∧ completed (task_stats s) = count is_settled events
  ∧ 0 ≤ success_rate (task_stats s) ≤ f64_one
  ∧ ∀ now' identity' signer' pid' sid' ledger' events' s',
      build_signed_summary_for_identity_and_signer now' identity' signer' pid' sid' ledger' events'
        = Ok s' →
      Forall (λ e, length (to_bytes (hash e)) = 64%nat) events →
      Forall (λ e, length (to_bytes (hash e)) = 64%nat) events' →
      events_digest s = events_digest s' → (hash <$> events) = (hash <$> events') ∨ hash_collision.
Proof.
  intros Hsound Hdid Hb. rewrite /build_signed_summary_for_identity_and_signer in Hb.
  apply result_bind_ok in Hb as (sig & Hsig & [= <-]). split_and!; simpl.
  - pose proof (sign_then_verify _ _ _ Hsound Hsig) as Hv. rewrite Hdid in Hv. exact Hv.
  - done.
  - done.
  - apply success_unit.
  - apply success_unit.
  - intros now' identity' signer' pid' sid' ledger' events' s' Hb' Hl Hl'.
    apply result_bind_ok in Hb' as (sig' & _ & [= <-]). by apply digest_events_faithful.
Qed.
End summary.

Module SummaryScenario.
Import Signing.Demo.

Definition event (ty : string) (accepted : bool) : EventRecord :=
  mkEventRecord "e" ty (JObject [("accepted", JBool accepted)]) 5 "did" None "sig" "hash".
Definition ledger : AgentStats := mkAgentStats 1 20 3 7.
Definition events : list EventRecord :=
  [event "TASK_SETTLED" true; event "TASK_VERIFIED" true; event "TASK_VERIFIED" false].
Definition identity : IdentityCompatView := mkIdentityCompatView "did:key:agent" "key".

Lemma signed_summary_spec_witness :
  ∃ s, build_signed_summary 9 identity (signer "agent") None ledger events = Ok s
  ∧ verify_payload (json_of_signable s) (signature s) (sum_agent_did s) = Ok true.
Proof.
  destruct (build_signed_summary 9 identity (signer "agent") None ledger events) as [s|] eqn:E;
    [|discriminate (f_equal is_ok E)].
  exists s. split; [reflexivity|].
  exact (proj1 (signed_summary_spec 9 identity (signer "agent") (Some "did:key:agent") None ledger events s
    (signer_is_sound "agent") eq_refl E)).
Defined.
End SummaryScenario.

End Summary.

(** ** Night-shift reports *)

Module NightShift.

Record NightShiftTotals := mkNightShiftTotals {
  events : Z;
  completed_tasks : Z;
  failed_verifications : Z;
}.
Record NightShiftDeltas := mkNightShiftDeltas { watt : Z; reputation : Z }.
Record KeyCard := mkKeyCard { k_event_type : string; k_timestamp : Z; highlight : string }.
Record TimelineItem := mkTimelineItem {
  t_timestamp : Z;
  t_event_type : string;
  summary : string;
}.
Record NightShiftReport := mkNightShiftReport {
  generated_at : Z;
  since : Z;
  totals : NightShiftTotals;
  deltas : NightShiftDeltas;
  key_cards : list KeyCard;
  timeline : list TimelineItem;
}.

Definition in_window (since now : Z) (e : EventRecord) : bool :=
  (since <=? timestamp e) && (timestamp e <=? now).

(** [event.payload["reward"][field].as_i64().unwrap_or(0)]. *)
Definition reward_of (field : string) (e : EventRecord) : Z :=
  default 0 (as_i64 (json_index (json_index (payload e) "reward") field)).

Definition settled (e : EventRecord) : bool := String.eqb (event_type e) "TASK_SETTLED".
Definition failed (e : EventRecord) : bool :=
  String.eqb (event_type e) "TASK_VERIFIED"
  && negb (default true (as_bool (json_index (payload e) "accepted"))).

Definition timeline_item (e : EventRecord) : TimelineItem :=
  mkTimelineItem (timestamp e) (event_type e)
    match as_str (json_index (payload e) "task_id") with
    | Some task_id => event_type e +:+ ":" +:+ task_id
    | None => event_type e
    end.

(** The accumulators the timeline's closure updates. *)
Record accumulators := mkAcc { acc_watt : Z; acc_rep : Z; acc_completed : Z; acc_failed : Z }.
Definition accumulate (a : accumulators) (e : EventRecord) : accumulators :=
  let a :=
    if settled e
    then mkAcc (i64_add (acc_watt a) (reward_of "watt" e))
               (i64_add (acc_rep a) (reward_of "reputation" e)) (acc_completed a + 1) (acc_failed a)
    else a in
  if failed e then mkAcc (acc_watt a) (acc_rep a) (acc_completed a) (acc_failed a + 1) else a.

(** [abs] of the smallest integer wraps to itself. *)
Definition i64_abs (z : Z) : Z := wrap_i64 (Z.abs z).
Definition score (e : EventRecord) : Z :=
  if settled e then i64_add (i64_abs (reward_of "watt" e)) 10 else 1.

Definition key_card (e : EventRecord) : KeyCard :=
  mkKeyCard (event_type e) (timestamp e)
    (if settled e
     then "Watt +" +:+ show_Z (reward_of "watt" e) +:+ ", Rep +"
          +:+ show_Z (reward_of "reputation" e)
     else event_type e).

(** The window's events, best scored first. *)
Definition ranked (window : list EventRecord) : list (Z * EventRecord) :=
  sort_by_key_rev fst ((λ e, (score e, e)) <$> window).

Definition generate_night_shift_report (evs : list EventRecord) (from now : Z)
    : NightShiftReport :=
  let window := List.filter (in_window from now) evs in
  let a := foldl accumulate (mkAcc 0 0 0 0) window in
  let cards := (λ p : Z * EventRecord, key_card p.2) <$> take 5 (ranked window) in
  mkNightShiftReport now from
    (mkNightShiftTotals (Z.of_nat (length window)) (acc_completed a) (acc_failed a))
    (mkNightShiftDeltas (acc_watt a) (acc_rep a)) cards (timeline_item <$> window).

(** What the settled tasks of a list earned, exactly. *)
Definition earned (field : string) (l : list EventRecord) : Z :=
  zsum (reward_of field <$> List.filter settled l).

Lemma accumulate_all l a :
  acc_completed (foldl accumulate a l) = acc_completed a + count settled l
  ∧ acc_failed (foldl accumulate a l) = acc_failed a + count failed l
  ∧ (is_i64 (acc_watt a) → acc_watt (foldl accumulate a l) = wrap_i64 (acc_watt a + earned "watt" l))
  ∧ (is_i64 (acc_rep a) →
     acc_rep (foldl accumulate a l) = wrap_i64 (acc_rep a + earned "reputation" l)).
Proof.
  revert a. induction l as [|e l IH]; intros a; simpl.
  { rewrite /count /earned /zsum /= !Z.add_0_r. split_and!; try done; intros; by rewrite wrap_i64_id. }
  destruct (IH (accumulate a e)) as (-> & -> & Hw & Hr). rewrite /accumulate in Hw Hr |- *.
  rewrite /count /earned in Hw Hr |- *. cbn [List.filter].
  assert (settled e = true → failed e = false) as Hex.
  { rewrite /settled /failed. intros ->%String.eqb_eq. done. }
  destruct (settled e).
  - rewrite Hex // in Hw Hr |- *. cbn [acc_watt acc_rep acc_completed acc_failed length fmap list_fmap] in *.
    rewrite !zsum_cons. split_and!; [lia|lia|intros _..].
    + rewrite Hw; [|apply wrap_i64_range]. rewrite /i64_add wrap_add. f_equal. lia.
    + rewrite Hr; [|apply wrap_i64_range]. rewrite /i64_add wrap_add. f_equal. lia.
  - destruct (failed e); cbn [acc_watt acc_rep acc_completed acc_failed length] in *;
      split_and!; (done || lia).
Qed.

Lemma earned_perm f l l' : l ≡ₚ l' → earned f l = earned f l'.
Proof.
  intros Hp. apply zsum_perm, fmap_Permutation.
  induction Hp; simpl; repeat case_match; eauto using Permutation.
Qed.

Lemma window_split evs from mid now :
  from ≤ mid + 1 → mid ≤ now →
  List.filter (in_window from now) evs ≡ₚ
  List.filter (in_window from mid) evs ++ List.filter (in_window (mid + 1) now) evs.
Proof.
  intros H1 H2. apply filter_split_perm; intros e; rewrite /in_window.
  - destruct (Z.leb_spec from (timestamp e)), (Z.leb_spec (timestamp e) now),
      (Z.leb_spec (timestamp e) mid), (Z.leb_spec (mid + 1) (timestamp e)); simpl; lia.
  - rewrite andb_true_iff. intros [_ ?]. bool_to_prop. by rewrite (proj2 (Z.leb_gt _ _)); [|lia].
Qed.

Lemma ranked_split n window :
  let carded := snd <$> take n (ranked window) in
  let rest := snd <$> drop n (ranked window) in
  carded ++ rest ≡ₚ window ∧ length carded = Nat.min n (length window)
  ∧ ∀ x y, x ∈ carded → y ∈ rest → score y ≤ score x.
Proof.
  intros carded rest. split_and!.
  - rewrite /carded /rest -fmap_app take_drop /ranked (fmap_Permutation _ _ _ (sort_by_perm _ _)).
    rewrite -list_fmap_compose. by rewrite list_fmap_id.
  - by rewrite /carded length_fmap length_take /ranked length_sort_by length_fmap.
  - intros x y ([s x'] & -> & Hx)%list_elem_of_fmap ([s' y'] & -> & Hy)%list_elem_of_fmap.
    assert (∀ p, p ∈ ranked window → score p.2 = p.1) as Hs.
    { intros p. rewrite /ranked elem_of_sort_by. by intros (e & -> & _)%list_elem_of_fmap. }
    pose proof (sort_by_key_rev_sorted fst ((λ e, (score e, e)) <$> window)) as Hsorted.
    fold (ranked window) in Hsorted. rewrite -(take_drop n (ranked window)) in Hsorted.
    pose proof (StronglySorted_app_rel _ _ _ _ _ Hsorted Hx Hy) as Hle. simpl in *.
    rewrite (Hs (s, x')); [|rewrite -(take_drop n (ranked window)); by apply elem_of_app; left].
    rewrite (Hs (s', y')); [|rewrite -(take_drop n (ranked window)); by apply elem_of_app; right].
    done.
Qed.

(** A report counts the events of its window, the settled tasks and the
    refused verifications among them, and what the settled tasks earned, modulo
    the 64-bit range; over two adjoining windows the totals and the earnings add
    up. It shows one line per event in the order of the log and at most five
    cards, none of an event that scores lower than one left out. *)
Theorem night_shift_spec evs from now mid :
  let window := List.filter (in_window from now) evs in
  let r := generate_night_shift_report evs from now in
  let r1 := generate_night_shift_report evs from mid in
  let r2 := generate_night_shift_report evs (mid + 1) now in
  totals r = mkNightShiftTotals (Z.of_nat (length window)) (count settled window) (count failed window)
  ∧ deltas r = mkNightShiftDeltas (wrap_i64 (earned "watt" window))
                 (wrap_i64 (earned "reputation" window))
  ∧ timeline r = timeline_item <$> window
  ∧ (∃ carded rest, key_cards r = key_card <$> carded ∧ carded ++ rest ≡ₚ window
     ∧ length carded = Nat.min 5 (length window)
     ∧ ∀ x y, x ∈ carded → y ∈ rest → score y ≤ score x)
  ∧ (from ≤ mid + 1 → mid ≤ now →
     events (totals r) = events (totals r1) + events (totals r2)
     ∧ watt (deltas r) = i64_add (watt (deltas r1)) (watt (deltas r2))).
Proof.
  intros window r r1 r2.
  assert (∀ from now, watt (deltas (generate_night_shift_report evs from now))
    = wrap_i64 (earned "watt" (List.filter (in_window from now) evs))) as Hwatt.
  { intros f n. by apply (accumulate_all _ (mkAcc 0 0 0 0)). }
  destruct (accumulate_all window (mkAcc 0 0 0 0)) as (Hc & Hf & Hw & Hr).
  split_and!.
  - rewrite /r /generate_night_shift_report -/window /= Hc Hf //.
  - rewrite /r /generate_night_shift_report -/window /= Hw // Hr //.
  - done.
  - exists (snd <$> take 5 (ranked window)), (snd <$> drop 5 (ranked window)).
    split; [by rewrite -list_fmap_compose|]. apply ranked_split.
  - intros H1 H2. pose proof (window_split evs from mid now H1 H2) as Hp. split.
    + rewrite /= (Permutation_length Hp) length_app. lia.
    + rewrite !Hwatt (earned_perm _ _ _ Hp) /i64_add wrap_add (Z.add_comm _ (wrap_i64 _)) wrap_add.
      rewrite /earned List.filter_app fmap_app zsum_app. f_equal. lia.
Qed.

Module NightScenario.

Definition event (ty : string) (ts w rep : Z) : EventRecord :=
  mkEventRecord "e" ty (JObject [("task_id", JString "t"); ("reward",
    JObject [("watt", json_of_Z w); ("reputation", json_of_Z rep)])]) ts "a" None "s" "h".
Definition log : list EventRecord :=
  [event "TASK_SETTLED" 1000 12 3; event "BOOT" 1005 0 0; event "TASK_SETTLED" 1010 (-40) 1].

Example report_runs :
  deltas (generate_night_shift_report log 900 1100) = mkNightShiftDeltas (-28) 4
  ∧ highlight <$> key_cards (generate_night_shift_report log 900 1100)
    = ["Watt +-40, Rep +1"; "Watt +12, Rep +3"; "BOOT"].
Proof. vm_compute. done. Qed.

(** A settled task whose reward is the smallest integer scores below every
    other event. *)
Example min_reward_scores_last : score (event "TASK_SETTLED" 0 i64_min 0) < 1.
Proof. vm_compute. done. Qed.
End NightScenario.

End NightShift.
