(* ===== verification/Tasks.v ===== *)
(** * Tasks

    [tasks/system_puzzle.rs]: the settlement of puzzle-verification missions, a
    solver's proof of work checked by an independent verifier; and
    [tasks/galaxy_task.rs]: the translation of a galaxy task intent into a task
    contract of the swarm. The types of the swarm protocol that the translation
    only passes on are parameters. *)

From S2P Require Import Prelude Collections Text Json Signing Hashcash Profiles Missions.
#[local] Open Scope Z_scope.

(** ** System puzzles *)

Module Puzzle.

Definition SYSTEM_PUZZLE_CHALLENGE_TASK_KIND : string := "system_puzzle_challenge".
Definition SYSTEM_PUZZLE_VERIFICATION_TASK_KIND : string := "system_puzzle_verification".
Definition PROOF_SCHEME_ZK_HASHCASH_V1 : string := "zk_hashcash_v1".
Definition VERIFICATION_VERDICT_VALID : string := "valid".

Record SystemPuzzleRewardPolicy := mkRewardPolicy {
  proposer_watt : Z;
  solver_watt : Z;
  verifier_watt : Z;
}.
Definition SystemPuzzleRewardPolicy_default : SystemPuzzleRewardPolicy := mkRewardPolicy 1 8 2.

Record SystemPuzzleChallenge := mkChallenge {
  c_task_kind : string;
  c_challenge_id : string;
  slot_id : string;
  template_id : string;
  challenge_seed : string;
  difficulty_bits : Z;
  c_proof_scheme : string;
  c_proposer_public_id : string;
  c_proposer_agent_identity : option string;
  issued_at : Z;
  c_reward_policy : SystemPuzzleRewardPolicy;
}.

Record SystemPuzzleProofEnvelope := mkProofEnvelope {
  proof_scheme : string;
  public_inputs : json;
  public_output : json;
  proof : json;
}.

Record SystemPuzzleVerificationMissionPayload := mkMissionPayload {
  p_task_kind : string;
  challenge : SystemPuzzleChallenge;
  p_solver_public_id : string;
  p_solver_agent_identity : option string;
  p_solution_id : string;
  p_proof : SystemPuzzleProofEnvelope;
}.

Record SystemPuzzleVerificationReceipt := mkReceipt {
  r_task_kind : string;
  r_challenge_id : string;
  r_solution_id : string;
  r_solver_public_id : string;
  r_verifier_public_id : string;
  r_verifier_agent_identity : option string;
  verdict : string;
  r_proof_hash : string;
  verified_at : Z;
  verifier_notes : option json;
}.
#[export] Instance Receipt_eta : Eta SystemPuzzleVerificationReceipt := λ r,
  mkReceipt (r_task_kind r) (r_challenge_id r) (r_solution_id r) (r_solver_public_id r)
    (r_verifier_public_id r) (r_verifier_agent_identity r) (verdict r) (r_proof_hash r)
    (verified_at r) (verifier_notes r).

Record SystemPuzzleSettlement := mkSettlement {
  proposer_public_id : string;
  proposer_agent_identity : option string;
  solver_public_id : string;
  solver_agent_identity : option string;
  verifier_public_id : string;
  verifier_agent_identity : option string;
  solution_id : string;
  challenge_id : string;
  reward_policy : SystemPuzzleRewardPolicy;
  receipt : SystemPuzzleVerificationReceipt;
}.

(** The decoders serde derives for the payload and the receipt. *)
Class PuzzleDecoders := {
  payload_from_value : json → option SystemPuzzleVerificationMissionPayload;
  receipt_from_value : json → option SystemPuzzleVerificationReceipt;
}.

(** [hex::encode]. *)
Definition hex_nibble (n : Z) : ascii :=
  ascii_of_nat (Z.to_nat (if n <? 10 then 48 + n else 87 + n)).
Definition hex_encode (bs : list Z) : string :=
  of_bytes (concat ((λ b, [hex_nibble (Z.shiftr b 4); hex_nibble (Z.land b 15)]) <$> bs)).

Definition is_system_puzzle_verification_payload (payload : json) : bool :=
  is_some_and (λ k, String.eqb k SYSTEM_PUZZLE_VERIFICATION_TASK_KIND) (get_str "task_kind" payload).

Fixpoint leading_zero_bits_from (total : Z) (bs : list Z) : Z :=
  match bs with
  | [] => total
  | byte :: bs =>
      if byte =? 0 then leading_zero_bits_from (u32_wrap (total + 8)) bs
      else u32_wrap (total + u8_leading_zeros byte)
  end.
Definition leading_zero_bits (bs : list Z) : Z := leading_zero_bits_from 0 bs.

Section puzzle.
Context `{Crypto, Digest, PuzzleDecoders}.

(** The derived serialisation of the proof. *)
Definition json_of_proof (p : SystemPuzzleProofEnvelope) : json :=
  JObject [("proof_scheme", JString (proof_scheme p)); ("public_inputs", public_inputs p);
           ("public_output", public_output p); ("proof", proof p)].

Definition proof_hash (p : SystemPuzzleProofEnvelope) : result string :=
  canonical ← with_context "canonicalize system puzzle proof" (jcs_to_string (json_of_proof p));
  Ok (hex_encode (sha256_digest canonical)).

Definition check (b : bool) (err : string) : result unit := if b then Ok tt else Err err.

Definition validate_receipt (payload : SystemPuzzleVerificationMissionPayload)
    (r : SystemPuzzleVerificationReceipt) : result unit :=
  _ ← check (String.eqb (r_task_kind r) SYSTEM_PUZZLE_VERIFICATION_TASK_KIND)
        "system puzzle verification receipt has invalid task_kind";
  _ ← check (String.eqb (verdict r) VERIFICATION_VERDICT_VALID)
        "system puzzle verification receipt is not valid";
  _ ← check (String.eqb (r_challenge_id r) (c_challenge_id (challenge payload)))
        "system puzzle receipt challenge_id does not match payload";
  _ ← check (String.eqb (r_solution_id r) (p_solution_id payload))
        "system puzzle receipt solution_id does not match payload";
  _ ← check (String.eqb (r_solver_public_id r) (p_solver_public_id payload))
        "system puzzle receipt solver_public_id does not match payload";
  _ ← check (negb (String.eqb (r_verifier_public_id r) (p_solver_public_id payload)))
        "system puzzle solver cannot verify its own solution";
  h ← proof_hash (p_proof payload);
  check (String.eqb (r_proof_hash r) h) "system puzzle receipt proof_hash does not match proof".

(** A trimmed member of the proof that is not empty. *)
Definition proof_text (key : string) (payload : SystemPuzzleVerificationMissionPayload)
    : option string := trimmed_nonempty (get_str key (proof (p_proof payload))).

Definition digest_input (seed solver nonce : string) : string :=
  seed +:+ ":" +:+ solver +:+ ":" +:+ nonce.

Definition verify_zk_hashcash_v1 (payload : SystemPuzzleVerificationMissionPayload)
    : result unit :=
  nonce ← ok_or "zk_hashcash_v1 proof is missing nonce" (proof_text "nonce" payload);
  expected ← ok_or "zk_hashcash_v1 proof is missing digest" (proof_text "digest" payload);
  let digest := sha256_digest
    (digest_input (challenge_seed (challenge payload)) (p_solver_public_id payload) nonce) in
  _ ← check (String.eqb (hex_encode digest) expected)
        "zk_hashcash_v1 proof digest does not match challenge input";
  check (negb (leading_zero_bits digest <? difficulty_bits (challenge payload)))
    "zk_hashcash_v1 proof does not satisfy difficulty".

Definition verify_proof (payload : SystemPuzzleVerificationMissionPayload) : result unit :=
  let scheme := proof_scheme (p_proof payload) in
  if String.eqb scheme PROOF_SCHEME_ZK_HASHCASH_V1 then verify_zk_hashcash_v1 payload
  else Err ("unsupported system puzzle proof_scheme `" +:+ scheme +:+ "`").

Definition settlement_of (payload : SystemPuzzleVerificationMissionPayload)
    (r : SystemPuzzleVerificationReceipt) : SystemPuzzleSettlement :=
  mkSettlement (c_proposer_public_id (challenge payload))
    (c_proposer_agent_identity (challenge payload)) (p_solver_public_id payload)
    (p_solver_agent_identity payload) (r_verifier_public_id r) (r_verifier_agent_identity r)
    (p_solution_id payload) (c_challenge_id (challenge payload))
    (c_reward_policy (challenge payload)) r.

Definition system_puzzle_settlement_from_mission (mission : CivilMission)
    : result (option SystemPuzzleSettlement) :=
  if negb (is_system_puzzle_verification_payload (payload mission)) then Ok None
  else
    pl ← ok_or "parse system puzzle verification mission payload"
           (payload_from_value (payload mission));
    _ ← check (String.eqb (p_task_kind pl) SYSTEM_PUZZLE_VERIFICATION_TASK_KIND)
          "system puzzle verification payload has invalid task_kind";
    _ ← check (String.eqb (c_task_kind (challenge pl)) SYSTEM_PUZZLE_CHALLENGE_TASK_KIND)
          "system puzzle challenge has invalid task_kind";
    _ ← check (String.eqb (c_proof_scheme (challenge pl)) (proof_scheme (p_proof pl)))
          "system puzzle proof_scheme does not match challenge";
    completed_by ← ok_or "system puzzle verification mission is missing completed_by"
                     (completed_by mission);
    _ ← check (bool_decide (claimed_by mission = Some completed_by))
          "system puzzle verification mission completer must be the claimer";
    res ← ok_or "system puzzle verification mission is missing completion_result"
            (completion_result mission);
    r ← ok_or "parse system puzzle verification receipt" (receipt_from_value res);
    _ ← validate_receipt pl r;
    _ ← verify_proof pl;
    Ok (Some (settlement_of pl r)).

(** *** What a settlement rests on *)

Lemma check_ok b e u : check b e = Ok u ↔ b = true.
Proof. destruct b, u; simpl; split; congruence. Qed.

Lemma leading_zero_bits_eq total bs :
  Forall (λ b, 0 ≤ b < 256) bs → 0 ≤ total → total + 8 * Z.of_nat (length bs) ≤ u32_max →
  leading_zero_bits_from total bs = total + zero_prefix bs.
Proof.
  intros Hall. revert total. induction Hall as [|b bs Hb _ IH]; intros total Ht Hmax; simpl; [lia|].
  simpl length in Hmax. rewrite /u32_wrap.
  assert (0 ≤ u8_leading_zeros b ≤ 8).
  { rewrite /u8_leading_zeros. destruct (Z.eqb_spec b 0); [lia|].
    pose proof (Z.log2_lt_pow2 b 8). change (2 ^ 8) with 256 in *. pose proof (Z.log2_nonneg b). lia. }
  rewrite /u32_max in Hmax. destruct (b =? 0).
  - rewrite Z.mod_small; [|lia]. rewrite IH /u32_max; lia.
  - rewrite Z.mod_small; lia.
Qed.

(** The proof meets the difficulty of the challenge for this solver. *)
Definition work_done (pl : SystemPuzzleVerificationMissionPayload) (nonce : string) : Prop :=
  digest_value (digest_input (challenge_seed (challenge pl)) (p_solver_public_id pl) nonce)
  < 2 ^ (256 - difficulty_bits (challenge pl)).

Lemma verify_zk_iff `{!DigestLaws} pl :
  0 ≤ difficulty_bits (challenge pl) ≤ 256 →
  verify_zk_hashcash_v1 pl = Ok tt ↔
  ∃ nonce, proof_text "nonce" pl = Some nonce ∧ work_done pl nonce
  ∧ proof_text "digest" pl = Some (hex_encode (sha256_digest
      (digest_input (challenge_seed (challenge pl)) (p_solver_public_id pl) nonce))).
Proof.
  intros Hd. rewrite /verify_zk_hashcash_v1 /work_done.
  destruct (proof_text "nonce" pl) as [n|]; simpl; [|split; [done|by intros (? & ? & _)]].
  destruct (proof_text "digest" pl) as [h|]; simpl; [|split; [done|by intros (? & _ & _ & ?)]].
  set (input := digest_input _ _ n).
  rewrite /digest_value.
  pose proof (zero_prefix_spec _ (difficulty_bits (challenge pl)) (digest_bytes input)) as Hz.
  rewrite digest_length in Hz. change (8 * Z.of_nat 32) with 256 in Hz.
  assert (leading_zero_bits (sha256_digest input) = zero_prefix (sha256_digest input)) as Hl.
  { rewrite /leading_zero_bits leading_zero_bits_eq ?digest_length //. apply digest_bytes. }
  split.
  - intros (u & Hc%check_ok & Hw%check_ok)%result_bind_ok. bool_to_prop. exists n.
    rewrite Hc. split_and!; [done| |done]. apply Hz; lia.
  - intros (n' & [= <-] & Hw & [= ->]). fold input in Hw |- *. rewrite String.eqb_refl /=.
    rewrite Hl. apply Hz in Hw; [|lia]. by rewrite (proj2 (Z.ltb_ge _ _)).
Qed.

Lemma validate_receipt_iff pl r :
  validate_receipt pl r = Ok tt ↔
  r_task_kind r = SYSTEM_PUZZLE_VERIFICATION_TASK_KIND ∧ verdict r = VERIFICATION_VERDICT_VALID
  ∧ r_challenge_id r = c_challenge_id (challenge pl) ∧ r_solution_id r = p_solution_id pl
  ∧ r_solver_public_id r = p_solver_public_id pl ∧ r_verifier_public_id r ≠ p_solver_public_id pl
  ∧ proof_hash (p_proof pl) = Ok (r_proof_hash r).
Proof.
  rewrite /validate_receipt. split.
  - intros Hrun. repeat (apply result_bind_ok in Hrun as (? & ?Hc & Hrun)).
    apply check_ok in Hrun. repeat match goal with Hc : check _ _ = Ok _ |- _ => apply check_ok in Hc end.
    bool_to_prop. split_and!; congruence.
  - intros (-> & -> & -> & -> & -> & Hne & ->). rewrite !String.eqb_refl /=.
    by rewrite (proj2 (String.eqb_neq _ _) Hne) /= String.eqb_refl.
Qed.

Lemma settlement_iff mission s :
  system_puzzle_settlement_from_mission mission = Ok (Some s) ↔
  ∃ pl r res who,
    is_system_puzzle_verification_payload (payload mission) = true
    ∧ payload_from_value (payload mission) = Some pl
    ∧ p_task_kind pl = SYSTEM_PUZZLE_VERIFICATION_TASK_KIND
    ∧ c_task_kind (challenge pl) = SYSTEM_PUZZLE_CHALLENGE_TASK_KIND
    ∧ c_proof_scheme (challenge pl) = proof_scheme (p_proof pl)
    ∧ completed_by mission = Some who ∧ claimed_by mission = Some who
    ∧ completion_result mission = Some res ∧ receipt_from_value res = Some r
    ∧ validate_receipt pl r = Ok tt ∧ verify_proof pl = Ok tt ∧ s = settlement_of pl r.
Proof.
  rewrite /system_puzzle_settlement_from_mission. split.
  - destruct (is_system_puzzle_verification_payload _); cbn [negb]; [|done]. intros Hrun.
    apply result_bind_ok in Hrun as (pl & Hpl%ok_or_inv & Hrun).
    apply result_bind_ok in Hrun as (? & Ha%check_ok & Hrun).
    apply result_bind_ok in Hrun as (? & Hb%check_ok & Hrun).
    apply result_bind_ok in Hrun as (? & Hc%check_ok & Hrun).
    apply result_bind_ok in Hrun as (who & Hwho%ok_or_inv & Hrun).
    apply result_bind_ok in Hrun as (? & He%check_ok & Hrun).
    apply result_bind_ok in Hrun as (res & Hres%ok_or_inv & Hrun).
    apply result_bind_ok in Hrun as (r & Hr%ok_or_inv & Hrun).
    apply result_bind_ok in Hrun as ([] & Hv & Hrun).
    apply result_bind_ok in Hrun as ([] & Hp & [= <-]).
    bool_to_prop. exists pl, r, res, who. done.
  - intros (pl & r & res & who & -> & -> & Ha & Hb & Hc & -> & Hcl & -> & Hr & Hv & Hp & ->).
    rewrite /= Ha Hb Hc !String.eqb_refl /= bool_decide_eq_true_2 //= Hr /= Hv /= Hp //.
Qed.

(** A puzzle mission settles exactly when its payload and receipt decode and
    agree, whoever completed it had claimed it, the verifier named in the receipt
    is not the solver, the receipt carries the hash of the very proof, and the
    proof is work of the required difficulty on the challenge's seed and the
    solver's id; the settlement names the parties of the payload and the
    receipt. *)
Theorem settlement_spec `{!DigestLaws} mission pl r res who s :
  is_system_puzzle_verification_payload (payload mission) = true →
  payload_from_value (payload mission) = Some pl → completion_result mission = Some res →
  receipt_from_value res = Some r → completed_by mission = Some who →
  0 ≤ difficulty_bits (challenge pl) ≤ 256 →
  system_puzzle_settlement_from_mission mission = Ok (Some s) ↔
  s = settlement_of pl r
  ∧ p_task_kind pl = SYSTEM_PUZZLE_VERIFICATION_TASK_KIND
  ∧ c_task_kind (challenge pl) = SYSTEM_PUZZLE_CHALLENGE_TASK_KIND
  ∧ c_proof_scheme (challenge pl) = PROOF_SCHEME_ZK_HASHCASH_V1
  ∧ proof_scheme (p_proof pl) = PROOF_SCHEME_ZK_HASHCASH_V1
  ∧ claimed_by mission = Some who
  ∧ (r_task_kind r = SYSTEM_PUZZLE_VERIFICATION_TASK_KIND ∧ verdict r = VERIFICATION_VERDICT_VALID
     ∧ r_challenge_id r = c_challenge_id (challenge pl) ∧ r_solution_id r = p_solution_id pl
     ∧ r_solver_public_id r = p_solver_public_id pl ∧ r_verifier_public_id r ≠ p_solver_public_id pl
     ∧ proof_hash (p_proof pl) = Ok (r_proof_hash r))
  ∧ ∃ nonce, proof_text "nonce" pl = Some nonce ∧ work_done pl nonce
    ∧ proof_text "digest" pl = Some (hex_encode (sha256_digest
        (digest_input (challenge_seed (challenge pl)) (p_solver_public_id pl) nonce))).
Proof.
  intros Hpay Hpl Hres Hr Hwho Hd. rewrite settlement_iff -validate_receipt_iff -verify_zk_iff //.
  assert (verify_proof pl = Ok tt ↔
    proof_scheme (p_proof pl) = PROOF_SCHEME_ZK_HASHCASH_V1 ∧ verify_zk_hashcash_v1 pl = Ok tt) as Hvp.
  { rewrite /verify_proof. destruct (String.eqb_spec (proof_scheme (p_proof pl))
      PROOF_SCHEME_ZK_HASHCASH_V1); split; [done|by intros [_ ?]|done|by intros [? _]]. }
  split.
  - intros (pl' & r' & res' & who' & _ & Hpl' & Ha & Hb & Hc & Hwho' & Hcl & Hres' & Hr' & Hv & Hp & ->).
    simplify_eq. destruct (proj1 Hvp Hp) as [Hs Hz]. rewrite Hc Hs. done.
  - intros (-> & Ha & Hb & Hc & He & Hcl & Hv & Hz). exists pl, r, res, who.
    split_and!; try done; [congruence|]. by apply Hvp.
Qed.

(** The verifier is whoever the receipt names: nothing ties it to the agent that
    claimed and completed the mission. *)
Theorem verifier_not_bound mission mission' pl r res res' v s :
  system_puzzle_settlement_from_mission mission = Ok (Some s) →
  payload_from_value (payload mission) = Some pl → completion_result mission = Some res →
  receipt_from_value res = Some r → v ≠ p_solver_public_id pl →
  receipt_from_value res' = Some (r <| r_verifier_public_id := v |>) →
  mission' = mission <| completion_result := Some res' |> →
  ∃ s', system_puzzle_settlement_from_mission mission' = Ok (Some s')
  ∧ verifier_public_id s' = v ∧ completed_by mission' = completed_by mission.
Proof.
  intros Hs Hpl Hres Hr Hv Hr' ->.
  apply settlement_iff in Hs as (pl' & r0 & res0 & who & Hk & Hpl' & Ha & Hb & Hc & Hwho & Hcl & Hres0
    & Hr0 & Hval & Hp & ->).
  assert (pl' = pl) as -> by congruence. assert (res0 = res) as -> by congruence.
  assert (r0 = r) as -> by congruence.
  exists (settlement_of pl (r <| r_verifier_public_id := v |>)). split; [|done].
  apply settlement_iff. exists pl, (r <| r_verifier_public_id := v |>), res', who.
  split_and!; try done. apply validate_receipt_iff in Hval. apply validate_receipt_iff.
  rewrite /set_field /=. tauto.
Qed.

(** A proof of work can be moved to another solver: the seed, the solver and the
    nonce are joined with colons, so work done for [a:b] with nonce [n] is also
    work done for [a] with nonce [b:n]. *)
Theorem work_transferable seed a b n :
  digest_input seed (a +:+ ":" +:+ b) n = digest_input seed a (b +:+ ":" +:+ n).
Proof. apply to_bytes_inj. by rewrite /digest_input !to_bytes_app -!app_assoc. Qed.
End puzzle.

(** *** A settled puzzle *)

Module PuzzleScenario.
#[local] Existing Instance Signing.Demo.crypto.

(** A digest with no bit set: every proof meets every difficulty. *)
#[export] Instance zero_digest : Digest := λ _, replicate 32 0.
#[export] Instance zero_digest_laws : DigestLaws.
Proof. split; [done|]. intros s. by apply Forall_replicate. Qed.

Definition demo_proof : SystemPuzzleProofEnvelope :=
  mkProofEnvelope PROOF_SCHEME_ZK_HASHCASH_V1 JNull JNull
    (JObject [("nonce", JString " 7 "); ("digest", JString (hex_encode (replicate 32 0)))]).
Definition demo_challenge : SystemPuzzleChallenge :=
  mkChallenge SYSTEM_PUZZLE_CHALLENGE_TASK_KIND "c1" "slot" "tpl" "seed" 12
    PROOF_SCHEME_ZK_HASHCASH_V1 "proposer" None 5 SystemPuzzleRewardPolicy_default.
Definition demo_payload : SystemPuzzleVerificationMissionPayload :=
  mkMissionPayload SYSTEM_PUZZLE_VERIFICATION_TASK_KIND demo_challenge "solver" None "s1" demo_proof.
Definition demo_receipt (verifier : string) : SystemPuzzleVerificationReceipt :=
  mkReceipt SYSTEM_PUZZLE_VERIFICATION_TASK_KIND "c1" "s1" "solver" verifier None
    VERIFICATION_VERDICT_VALID (hex_encode (replicate 32 0)) 9 None.

(** The verifier's id stands for its receipt. *)
#[export] Instance demo_decoders : PuzzleDecoders := {|
  payload_from_value _ := Some demo_payload;
  receipt_from_value v := demo_receipt <$> as_str v;
|}.

Definition demo_mission (verifier : string) : CivilMission :=
  mkCivilMission "m" "t" "d" "p" System Trade RealWorld None None None None None
    (JObject [("task_kind", JString SYSTEM_PUZZLE_VERIFICATION_TASK_KIND)]) None None None 1 2
    (Some "agent") None (Some "agent") (Some (JString verifier)) None Missions.Completed None false
    None.

Lemma settlement_spec_witness :
  system_puzzle_settlement_from_mission (demo_mission "v")
  = Ok (Some (settlement_of demo_payload (demo_receipt "v"))).
Proof.
  apply (settlement_spec (demo_mission "v") demo_payload (demo_receipt "v") (JString "v") "agent");
    [reflexivity..| |].
  - split; discriminate.
  - do 6 (split; [reflexivity|]). split.
    + split_and!; (reflexivity || discriminate).
    + exists "7". split; [reflexivity|]. split; [vm_compute; reflexivity|reflexivity].
Defined.

Lemma verifier_not_bound_witness :
  ∃ s', system_puzzle_settlement_from_mission (demo_mission "stranger") = Ok (Some s')
  ∧ verifier_public_id s' = "stranger"
  ∧ completed_by (demo_mission "stranger") = completed_by (demo_mission "v").
Proof.
  apply (verifier_not_bound (demo_mission "v") (demo_mission "stranger") demo_payload
    (demo_receipt "v") (JString "v") (JString "stranger") "stranger"
    (settlement_of demo_payload (demo_receipt "v"))); reflexivity || discriminate.
Defined.
End PuzzleScenario.
End Puzzle.

(** ** Galaxy tasks *)

Module GalaxyTask.

Inductive GalaxyScopeKind : Type :=
  GenesisMainnet | Planet | Subnet | Market | Route | Guild | Global.
Inductive GalaxyBroadcastMode : Type := FullNetwork | Scoped.

Record GalaxyTaskScope := mkGalaxyTaskScope {
  kind : GalaxyScopeKind;
  scope_id : string;
  broadcast : GalaxyBroadcastMode;
}.
Record GalaxyTaskReward := mkGalaxyTaskReward { watt : Z; reputation : Z; capacity : Z }.

Section galaxy.
(** Types of the swarm protocol that are passed on unread. *)
Context {BudgetMode PolicyBinding EvidencePolicy TaskMode : Type}.

Record GalaxyTaskBudget := mkGalaxyTaskBudget {
  time_ms : Z;
  max_steps : Z;
  cost_units : Z;
  mode : BudgetMode;
  explore_cost_units : Z;
  verify_cost_units : Z;
  finalize_cost_units : Z;
  reuse_verify_time_ms : Z;
  reuse_verify_cost_units : Z;
  reuse_max_attempts : Z;
  expiry_ms : Z;
}.

Record GalaxyTaskConsensus := mkGalaxyTaskConsensus {
  max_proposers : Z;
  topk : Z;
  no_new_evidence_rounds : Z;
  max_verifiers : Z;
  max_finalizers : Z;
  quorum_threshold : Z;
  da_quorum_threshold : Z;
  commit_reveal : bool;
  reveal_deadline_ms : Z;
  settlement_window_ms : Z;
  implicit_weight_w : Z;
  implicit_weight_k : Z;
  implicit_weight : f64;
  bad_penalty : Z;
  feedback_mode : string;
  feedback_authority_pubkey : string;
}.

Record GalaxyTaskIntent := mkGalaxyTaskIntent {
  protocol_version : string;
  task_id : string;
  task_type : string;
  objective : string;
  scope : GalaxyTaskScope;
  galaxy_context : json;
  task_inputs : json;
  output_schema : json;
  verifier_policy : PolicyBinding;
  budget : GalaxyTaskBudget;
  consensus : GalaxyTaskConsensus;
  reward : GalaxyTaskReward;
  evidence_policy : EvidencePolicy;
  task_mode : TaskMode;
}.

(** The contract of the swarm protocol, as the translation builds it. *)
Record Budget := mkBudget {
  b_time_ms : Z;
  b_max_steps : Z;
  b_cost_units : Z;
  b_mode : BudgetMode;
  b_explore_cost_units : Z;
  b_verify_cost_units : Z;
  b_finalize_cost_units : Z;
  b_reuse_verify_time_ms : Z;
  b_reuse_verify_cost_units : Z;
  b_reuse_max_attempts : Z;
}.
Record MaxConcurrency := mkMaxConcurrency { mc_propose : Z; mc_verify : Z }.
Record ClaimPolicy := mkClaimPolicy { lease_ms : Z; max_concurrency : MaxConcurrency }.
Record ExploreStopPolicy := mkExploreStopPolicy { es_no_new_evidence_rounds : Z }.
Record ExploreAssignment := mkExploreAssignment {
  ea_max_proposers : Z;
  ea_topk : Z;
  stop : ExploreStopPolicy;
}.
Record VerifyAssignment := mkVerifyAssignment { va_max_verifiers : Z }.
Record FinalizeAssignment := mkFinalizeAssignment { fa_max_finalizers : Z }.
Record Assignment := mkAssignment {
  a_mode : string;
  claim : ClaimPolicy;
  explore : ExploreAssignment;
  verify : VerifyAssignment;
  finalize : FinalizeAssignment;
}.
Record VotePolicy := mkVotePolicy { v_commit_reveal : bool; v_reveal_deadline_ms : Z }.
Record SettlementDiminishingReturns := mkDiminishing { w : Z; k : Z }.
Record SettlementBadPenalty := mkBadPenalty { p : Z }.
Record FeedbackCapabilityPolicy := mkFeedback { fb_mode : string; authority_pubkey : string }.
Record SettlementPolicy := mkSettlementPolicy {
  window_ms : Z;
  sp_implicit_weight : f64;
  implicit_diminishing_returns : SettlementDiminishingReturns;
  sp_bad_penalty : SettlementBadPenalty;
  feedback : FeedbackCapabilityPolicy;
}.
Record Acceptance := mkAcceptance {
  acc_quorum_threshold : Z;
  acc_verifier_policy : PolicyBinding;
  vote : VotePolicy;
  settlement : SettlementPolicy;
  acc_da_quorum_threshold : Z;
}.
Record TaskContract := mkTaskContract {
  tc_protocol_version : string;
  tc_task_id : string;
  tc_task_type : string;
  inputs : json;
  tc_output_schema : json;
  tc_budget : Budget;
  assignment : Assignment;
  acceptance : Acceptance;
  tc_task_mode : TaskMode;
  tc_expiry_ms : Z;
  tc_evidence_policy : EvidencePolicy;
}.

(** The names serde gives the unit variants in snake case. *)
Definition scope_kind_str (k : GalaxyScopeKind) : string :=
  match k with
  | GenesisMainnet => "genesis_mainnet" | Planet => "planet" | Subnet => "subnet"
  | Market => "market" | Route => "route" | Guild => "guild" | Global => "global"
  end.
Definition broadcast_str (b : GalaxyBroadcastMode) : string :=
  match b with FullNetwork => "full_network" | Scoped => "scoped" end.

Definition json_of_scope (s : GalaxyTaskScope) : json :=
  JObject [("kind", JString (scope_kind_str (kind s))); ("scope_id", JString (scope_id s));
           ("broadcast", JString (broadcast_str (broadcast s)))].
Definition json_of_reward (r : GalaxyTaskReward) : json :=
  JObject [("watt", json_of_Z (watt r)); ("reputation", json_of_Z (reputation r));
           ("capacity", json_of_Z (capacity r))].

Definition GALAXY_KEY : string := "__wattetheria_galaxy".

Definition galaxy_metadata (t : GalaxyTaskIntent) : json :=
  JObject [("objective", JString (objective t)); ("scope", json_of_scope (scope t));
           ("galaxy_context", galaxy_context t); ("reward", json_of_reward (reward t))].

Definition contract_inputs (t : GalaxyTaskIntent) : json :=
  match task_inputs t with
  | JObject map => JObject (obj_insert GALAXY_KEY (galaxy_metadata t) map)
  | payload => JObject [(GALAXY_KEY, galaxy_metadata t); ("payload", payload)]
  end.

Definition to_task_contract (t : GalaxyTaskIntent) : TaskContract :=
  let b := budget t in
  let c := consensus t in
  {| tc_protocol_version := protocol_version t;
     tc_task_id := task_id t;
     tc_task_type := task_type t;
     inputs := contract_inputs t;
     tc_output_schema := output_schema t;
     tc_budget := mkBudget (time_ms b) (max_steps b) (cost_units b) (mode b)
       (explore_cost_units b) (verify_cost_units b) (finalize_cost_units b)
       (reuse_verify_time_ms b) (reuse_verify_cost_units b) (reuse_max_attempts b);
     assignment :=
       {| a_mode := "CLAIM";
          claim := mkClaimPolicy (Z.min (time_ms b) (Z.max (expiry_ms b) 1)) (mkMaxConcurrency 1 1);
          explore := mkExploreAssignment (max_proposers c) (topk c)
            (mkExploreStopPolicy (no_new_evidence_rounds c));
          verify := mkVerifyAssignment (max_verifiers c);
          finalize := mkFinalizeAssignment (max_finalizers c) |};
     acceptance :=
       {| acc_quorum_threshold := quorum_threshold c;
          acc_verifier_policy := verifier_policy t;
          vote := mkVotePolicy (commit_reveal c) (reveal_deadline_ms c);
          settlement := mkSettlementPolicy (settlement_window_ms c) (implicit_weight c)
            (mkDiminishing (implicit_weight_w c) (implicit_weight_k c)) (mkBadPenalty (bad_penalty c))
            (mkFeedback (feedback_mode c) (feedback_authority_pubkey c));
          acc_da_quorum_threshold := da_quorum_threshold c |};
     tc_task_mode := task_mode t;
     tc_expiry_ms := expiry_ms b;
     tc_evidence_policy := evidence_policy t |}.

(** A task contract's inputs always carry the galaxy's own record of
    objective, scope, context and reward under its key, whatever the task's
    inputs put there; every other member of the inputs is passed on unchanged,
    and inputs that are no object are kept whole. A claim's lease never outlasts
    the task's time or its expiry, and is never empty when the task has time. *)
Theorem task_contract_spec (t : GalaxyTaskIntent) :
  let c := to_task_contract t in
  json_index (inputs c) GALAXY_KEY = galaxy_metadata t
  ∧ match task_inputs t with
    | JObject o => ∀ k, k ≠ GALAXY_KEY → json_get k (inputs c) = json_get k (JObject o)
    | v => json_index (inputs c) "payload" = v
    end
  ∧ lease_ms (claim (assignment c)) ≤ time_ms (budget t)
  ∧ lease_ms (claim (assignment c)) ≤ Z.max (tc_expiry_ms c) 1
  ∧ (0 < time_ms (budget t) → 0 < lease_ms (claim (assignment c))).
Proof.
  intros c. split_and!.
  - rewrite /c /to_task_contract /= /contract_inputs /json_index.
    by destruct (task_inputs t); rewrite /= ?assoc_obj_insert.
  - rewrite /c /to_task_contract /= /contract_inputs.
    destruct (task_inputs t); try done. intros k Hk. rewrite /= assoc_obj_insert.
    by rewrite (proj2 (String.eqb_neq k GALAXY_KEY)).
  - rewrite /c /=. lia.
  - rewrite /c /=. lia.
  - rewrite /c /=. lia.
Qed.
End galaxy.
End GalaxyTask.
