(* ===== verification/Game.v ===== *)
(** * The game: anchors, qualifications and progression

    [K/game/anchor.rs]: the place on the map the work of a citizen attaches to;
    [K/game/catalog.rs]: the stages, roles and factions; [K/game/qualification.rs]: the
    qualification tracks; [K/game/progression.rs]: the stage of a citizen, its objectives
    and its way to governance. Percentages are [u8], counts are [usize]. *)

From S2P Require Import Prelude Collections Text Json Signing Governance Profiles Missions Galaxy GalaxyMap Standing.
#[local] Open Scope Z_scope.

(** ** Anchors *)

Record MissionAnchor := mkMissionAnchor {
  an_map_id : string;
  an_map_name : string;
  an_system_id : string;
  an_system_name : string;
  an_planet_id : option string;
  an_planet_name : option string;
  an_route_id : option string;
}.

Fixpoint find_map {A B} (f : A → option B) (l : list A) : option B :=
  match l with
  | [] => None
  | x :: l' => match f x with Some y => Some y | None => find_map f l' end
  end.

(** The planet is in the home subnet or in the home zone of the citizen. *)
Definition is_home_planet (citizen : CitizenProfile) (p : PlanetNode) : bool :=
  is_some_and (λ s, bool_decide (planet_subnet_id p = Some s)) (home_subnet_id citizen)
  || bool_decide (home_zone_id citizen = Some (planet_zone_id p)).

Definition locate_home_system (map : GalaxyMap) (citizen : CitizenProfile)
    : option (StarSystem * PlanetNode) :=
  find_map (λ system,
    p ← find_first (is_home_planet citizen) (GalaxyMap.planets system); Some (system, p))
    (systems map).

Definition preferred_route (map : GalaxyMap) (system : string) (r : RolePath) : option RouteEdge :=
  let routes := List.filter
    (λ e, String.eqb (from_system_id e) system || String.eqb (to_system_id e) system) (routes map) in
  head match r with
       | Broker => sort_by_key travel_cost routes
       | Enforcer => sort_by_key_rev risk routes
       | Operator | Artificer => sort_by_key risk routes
       end.

Definition map_anchor_for_profile (citizen : CitizenProfile) (map : GalaxyMap)
    : option MissionAnchor :=
  '(system, p) ← locate_home_system map citizen;
  let route := preferred_route map (system_id system) (role citizen) in
  Some (mkMissionAnchor (map_id map) (map_name map) (system_id system) (system_name system)
          (Some (planet_id p)) (Some (planet_name p)) (route_id <$> route)).

Definition default_anchor : MissionAnchor :=
  mkMissionAnchor "genesis-base" "Genesis Base Map" "genesis-prime" "Genesis Prime"
    (Some "planet-main"%string) (Some "Planet Main"%string) (Some "route-genesis-frontier"%string).

Definition locate_anchor (citizen : CitizenProfile) (maps : GalaxyMapRegistry) : MissionAnchor :=
  default default_anchor (find_map (map_anchor_for_profile citizen) (list_maps maps)).

(** ** Stages and the catalog *)

Inductive GameStage := Survival | Foothold | Influence | Expansion.
#[global] Instance GameStage_eq_dec : EqDecision GameStage.
Proof. solve_decision. Defined.

Record GameStageDefinition := mkGameStageDefinition {
  gs_stage : GameStage;
  gs_title : string;
  gs_summary : string;
  gs_north_star : string;
}.
Record RolePlaybook := mkRolePlaybook {
  rp_role : RolePath;
  rp_title : string;
  rp_summary : string;
  focus_domains : list MissionDomain;
  starter_objectives : list string;
}.
Record FactionPlaybook := mkFactionPlaybook {
  fp_faction : Faction;
  fp_title : string;
  fp_summary : string;
  political_style : string;
}.
Record GameCatalog := mkGameCatalog {
  gc_stages : list GameStageDefinition;
  gc_roles : list RolePlaybook;
  gc_factions : list FactionPlaybook;
}.

Definition catalog : GameCatalog := {|
  gc_stages :=
    [mkGameStageDefinition Survival "Survival"
       "Establish a working foothold inside the genesis network."
       "Create a stable identity, settle early missions, and anchor yourself to a home zone.";
     mkGameStageDefinition Foothold "Foothold"
       "Turn ad-hoc work into reliable influence and operating capacity."
       "Build repeatable income, finish aligned missions, and strengthen your home position.";
     mkGameStageDefinition Influence "Influence"
       "Shape market, security, and governance outcomes beyond your own node."
       "Earn enough trust and power to participate in sovereignty and major civic decisions.";
     mkGameStageDefinition Expansion "Expansion"
       "Push the galaxy outward through governance, route control, and map growth."
       "Turn local success into lasting control over new systems, routes, and future map deployments."];
  gc_roles :=
    [mkRolePlaybook Operator "Operator"
       "Infrastructure, maintenance, and dependable throughput."
       [Wealth; Power]
       ["Stabilize your home zone"; "Complete logistics and infrastructure contracts"]%string;
     mkRolePlaybook Broker "Broker"
       "Trade, liquidity, information flow, and market leverage."
       [Trade; Wealth]
       ["Connect frontier and genesis markets"; "Build repeatable trade influence"]%string;
     mkRolePlaybook Enforcer "Enforcer"
       "Security, escort, patrol, and sovereignty pressure."
       [Security; Power]
       ["Reduce route risk"; "Protect high-value planetary or convoy missions"]%string;
     mkRolePlaybook Artificer "Artificer"
       "Culture, construction, signaling, and social gravity."
       [Culture; Trade]
       ["Improve local attraction and identity"; "Turn creativity into durable cultural influence"]%string];
  gc_factions :=
    [mkFactionPlaybook Order "Order"
       "Prefers stability, infrastructure, and enforceable legitimacy."
       "Infrastructure-first governance";
     mkFactionPlaybook Freeport "Freeport"
       "Prefers liquidity, open exchange, and neutral corridors."
       "Market-first coordination";
     mkFactionPlaybook Raider "Raider"
       "Prefers risk, pressure, and opportunistic route domination."
       "Pressure-first frontier politics"] |}.

(** ** Qualification tracks *)

Inductive QualificationState := Locked | Starter | Qualified | Advanced.
#[global] Instance QualificationState_eq_dec : EqDecision QualificationState.
Proof. solve_decision. Defined.

Record QualificationUnlock := mkQualificationUnlock {
  un_key : string;
  un_title : string;
  un_description : string;
  unlocked : bool;
}.
Record QualificationTrack := mkQualificationTrack {
  qt_key : string;
  qt_title : string;
  qt_state : QualificationState;
  qt_progress_pct : Z;
  qt_next_requirement : string;
  qt_summary : string;
  qt_unlocks : list QualificationUnlock;
}.

Definition state_from_mission_and_score (count : nat) (score : Z) : QualificationState :=
  if (4 <=? count)%nat || (250 <=? score) then Advanced
  else if (2 <=? count)%nat || (120 <=? score) then Qualified
  else if (1 <=? count)%nat || (40 <=? score) then Starter
  else Locked.

(** [u8::try_from(z).unwrap_or(100)]. *)
Definition pct_or_100 (z : Z) : Z := default 100 (uint_checked u8_max z).

Definition progress_from_mission_and_score (count : nat) (score : Z) : Z :=
  let mission_progress := pct_or_100 (Z.of_nat (Nat.min count 4) * 100 / 4) in
  let score_progress := pct_or_100 (Z.quot (i64_mul (clamp 0 250 score) 100) 250) in
  Z.max mission_progress score_progress.

Definition requirement_from_mission_and_score (count : nat) (score : Z) : string :=
  match state_from_mission_and_score count score with
  | Locked => "Finish 1 aligned mission or reach 40 score."
  | Starter => "Finish 2 aligned missions or reach 120 score."
  | Qualified => "Finish 4 aligned missions or reach 250 score."
  | Advanced => "Track fully unlocked for this phase."
  end.

Definition role_unlocks (key : string) (s : QualificationState) : list QualificationUnlock :=
  let domain_title :=
    (if String.eqb key "operator_logistics" then "Infrastructure authority"
     else if String.eqb key "broker_corridor" then "Corridor leverage"
     else if String.eqb key "enforcer_patrol" then "Route authority"
     else if String.eqb key "artificer_signal" then "Cultural gravity"
     else if String.eqb key "expansion_planning" then "Expansion sponsorship"
     else "Role progression")%string in
  [mkQualificationUnlock "starter_contracts" "Starter contracts"
     "Take the first role-aligned missions for this profession."
     (negb (bool_decide (s = Locked)));
   mkQualificationUnlock "phase_mission_packs" "Stage mission packs"
     "Receive stronger role and civic mission packs tied to your current phase."
     (match s with Qualified | Advanced => true | _ => false end);
   mkQualificationUnlock "advanced_role_authority" domain_title
     "Signal to the client and future systems that this role can carry higher-stakes work."
     (bool_decide (s = Advanced))].

Definition qualification (key title : string) (count : nat) (score : Z) (summary : string)
    : QualificationTrack :=
  let s := state_from_mission_and_score count score in
  mkQualificationTrack key title s (progress_from_mission_and_score count score)
    (requirement_from_mission_and_score count score) summary (role_unlocks key s).

Definition role_track (citizen : option CitizenProfile) (scores : CivilizationScores)
    (settled : list CivilMission) : QualificationTrack :=
  let domain_count d := length (List.filter (λ m, bool_decide (domain m = d)) settled) in
  match role <$> citizen with
  | Some Operator =>
      qualification "operator_logistics" "Operator Logistics" (domain_count Wealth) (wealth scores)
        "Proves infrastructure and throughput reliability."
  | Some Broker =>
      qualification "broker_corridor" "Broker Corridor" (domain_count Trade) (trade scores)
        "Proves market coordination and corridor liquidity."
  | Some Enforcer =>
      qualification "enforcer_patrol" "Enforcer Patrol" (domain_count Security) (security scores)
        "Proves route protection and coercive authority."
  | Some Artificer =>
      qualification "artificer_signal" "Artificer Signal" (domain_count Culture) (culture scores)
        "Proves cultural gravity and place-making impact."
  | None =>
      mkQualificationTrack "role_unset" "Role Alignment" Locked 0 "Choose a role profile."
        "Choose a role profile before qualification tracks can advance." []
  end.

Definition civic_progress (has_license has_bond influence_ready : bool) : Z :=
  let completed := Z.b2z influence_ready + Z.b2z has_license + Z.b2z has_bond in
  pct_or_100 (completed * 100 / 3).

Definition civic_requirement (has_license has_bond influence_ready : bool) : string :=
  if negb influence_ready then "Reach 250 total influence to enter civic readiness."
  else if negb has_license then "Secure a valid civic license."
  else if negb has_bond then "Lock an active sovereignty bond."
  else "Track fully unlocked for this phase.".

(** The clock is read for the license and for the bond. *)
Definition civic_track (clk : clock) (controller : string) (scores : CivilizationScores)
    (governance : GovernanceEngine) : QualificationTrack :=
  let has_license := has_valid_license (clk 0%nat) governance controller in
  let has_bond := has_active_bond (clk 1%nat) governance controller 1 in
  let influence_ready := 250 <=? total_influence scores in
  let s := if has_license && has_bond then Qualified
           else if influence_ready then Starter else Locked in
  let high := match s with Qualified | Advanced => true | _ => false end in
  mkQualificationTrack "civic_governance" "Civic Governance" s
    (civic_progress has_license has_bond influence_ready)
    (civic_requirement has_license has_bond influence_ready)
    "Tracks readiness to move from mission work into formal sovereignty participation."
    [mkQualificationUnlock "proposal_participation" "Proposal participation"
       "Review and vote on local governance proposals with real civic stake."
       (negb (bool_decide (s = Locked)));
     mkQualificationUnlock "treasury_stewardship" "Treasury stewardship"
       "Fund and supervise treasury-backed public work for your home anchor." high;
     mkQualificationUnlock "sovereignty_readiness" "Sovereignty readiness"
       "Take the final step from civic participant toward active sovereignty control." high].

Definition governs (controller : string) (p : SubnetPlanet) : bool :=
  String.eqb (creator p) controller || bool_decide (controller ∈ Governance.validators p).

Definition compute_qualifications (clk : clock) (controller : string)
    (citizen : option CitizenProfile) (scores : CivilizationScores) (board : MissionBoard)
    (governance : GovernanceEngine) : list QualificationTrack :=
  let settled := List.filter (λ m, bool_decide (completed_by m = Some controller))
                   (list_missions board (Some Missions.Settled)) in
  [role_track citizen scores settled;
   civic_track clk controller scores governance;
   qualification "expansion_planning" "Expansion Planning"
     (length (List.filter (governs controller) (list_planets governance)))
     (total_influence scores)
     "Tracks readiness to participate in future map growth and frontier expansion."].

(** ** Progression *)

Record GameObjective := mkGameObjective {
  ob_key : string;
  ob_title : string;
  ob_complete : bool;
  ob_progress_pct : Z;
  ob_hint : string;
}.
Record HomeAnchor := mkHomeAnchor {
  ha_map_id : string;
  ha_map_name : string;
  ha_system_id : string;
  ha_system_name : string;
  ha_planet_id : string;
  ha_planet_name : string;
  ha_zone_id : string;
}.
Record GovernanceGate := mkGovernanceGate {
  gg_key : string;
  gg_title : string;
  gg_complete : bool;
  gg_hint : string;
}.
Record GovernanceJourney := mkGovernanceJourney {
  eligible_now : bool;
  current_status : string;
  next_gate : string;
  gates : list GovernanceGate;
}.
Record GameStatus := mkGameStatus {
  gst_stage : GameStage;
  gst_headline : string;
  gst_summary : string;
  gst_total_influence : Z;
  settled_missions : nat;
  active_missions : nat;
  governed_planets : nat;
  can_enter_governance : bool;
  home_anchor : option HomeAnchor;
  gst_recommended_actions : list string;
  objectives : list GameObjective;
  qualifications : list QualificationTrack;
  governance_journey : GovernanceJourney;
}.

Definition settled_mission_count (controller : string) (board : MissionBoard) : nat :=
  length (List.filter (λ m, bool_decide (completed_by m = Some controller))
            (list_missions board (Some Missions.Settled))).
Definition active_mission_count (controller : string) (board : MissionBoard) : nat :=
  length (List.filter (λ m, bool_decide (claimed_by m = Some controller)
              && match status m with Claimed | Completed => true | _ => false end)
            (list_missions board None)).
Definition governed_planet_count (controller : string) (governance : GovernanceEngine) : nat :=
  length (List.filter (governs controller) (list_planets governance)).
Definition created_planet_count (controller : string) (governance : GovernanceEngine) : nat :=
  length (List.filter (λ p, String.eqb (creator p) controller) (list_planets governance)).

Definition determine_stage (settled active governed created : nat) (can_govern anchored : bool)
    (influence : Z) : GameStage :=
  if (0 <? created)%nat || ((0 <? governed)%nat && (900 <=? influence)) then Expansion
  else if (0 <? governed)%nat || can_govern || (400 <=? influence) then Influence
  else if (2 <=? settled)%nat || (0 <? active)%nat || anchored || (150 <=? influence) then Foothold
  else Survival.

Definition compute_governance_journey (clk : clock) (controller : string) (anchored : bool)
    (influence : Z) (governance : GovernanceEngine) : GovernanceJourney :=
  let has_license := has_valid_license (clk 0%nat) governance controller in
  let has_bond := has_active_bond (clk 1%nat) governance controller 1 in
  let influence_ready := 400 <=? influence in
  let eligible := has_license && has_bond in
  let gates :=
    [mkGovernanceGate "home_anchor" "Hold a home anchor" anchored
       "Governance should emerge from a place in the galaxy, not from nowhere.";
     mkGovernanceGate "influence_floor" "Reach 400 influence" influence_ready
       "You need enough operating weight for governance to be meaningful.";
     mkGovernanceGate "civic_license" "Secure a civic license" has_license
       "Licenses gate who can formally participate in sovereignty structures.";
     mkGovernanceGate "sovereignty_bond" "Lock a sovereignty bond" has_bond
       "Bonds prove the participant can back power with durable commitment."] in
  let next := match find_first (λ g, negb (gg_complete g)) gates with
              | Some g => gg_key g
              | None => "governance_active"%string
              end in
  let current := (if eligible then "eligible"
                  else if has_license || has_bond || influence_ready then "approaching"
                  else "starter")%string in
  mkGovernanceJourney eligible current next gates.

Definition locate_home_anchor (citizen : option CitizenProfile) (maps : GalaxyMapRegistry)
    : option HomeAnchor :=
  c ← citizen;
  find_map (λ map,
    find_map (λ system,
      find_map (λ p,
        if is_home_planet c p then
          Some (mkHomeAnchor (map_id map) (map_name map) (system_id system) (system_name system)
                  (planet_id p) (planet_name p) (planet_zone_id p))
        else None)
        (GalaxyMap.planets system))
      (systems map))
    (list_maps maps).

Definition recommended_actions (r : option RolePath) (stage : GameStage) (active : nat)
    (anchored : bool) : list string :=
  (if anchored then []
   else ["Choose a stable home subnet or home zone inside the genesis map."%string])
  ++ (if (active =? 0)%nat
      then ["Claim one aligned open mission to keep your operating loop moving."%string] else [])
  ++ [match r with
      | Some Operator =>
          "Prioritize infrastructure and throughput missions to strengthen your operating base."
      | Some Broker =>
          "Prioritize trade and liquidity missions between genesis and frontier corridors."
      | Some Enforcer =>
          "Prioritize security and escort missions to reduce route pressure and raise authority."
      | Some Artificer =>
          "Prioritize culture and attraction missions that build public gravity around your node."
      | None => "Set a role profile before scaling your mission strategy."
      end%string;
      match stage with
      | Survival =>
          "Focus on early completion, not scale: settle your first mission and lock in a home anchor."
      | Foothold => "Grow repeatable influence by stacking a few aligned mission settlements."
      | Influence => "Convert accumulated trust into governance eligibility and visible civic control."
      | Expansion => "Use your existing governance and influence base to prepare future map expansion."
      end%string].

Definition influence_objective (key title : string) (influence required : Z) : GameObjective :=
  let clamped := Z.max required 1 in
  let raw := Z.min (Z.quot (i64_mul (Z.max influence 0) 100) clamped) 100 in
  mkGameObjective key title (required <=? influence) (pct_or_100 raw)
    "Influence combines wealth, power, security, trade, and culture into your current strategic weight.".

Definition count_objective (key title : string) (current required : nat) (hint : string)
    : GameObjective :=
  let required := Nat.max required 1 in
  let raw := Z.of_nat (Nat.min current required) * 100 / Z.of_nat required in
  mkGameObjective key title (required <=? current)%nat (pct_or_100 raw) hint.

Definition mission_objective (key title : string) (settled required : nat) : GameObjective :=
  count_objective key title settled required
    "Mission settlements are the first proof that your role can operate in the galaxy.".

Definition bool_objective (key title : string) (complete : bool) (hint : string) : GameObjective :=
  mkGameObjective key title complete (if complete then 100 else 0) hint.

Definition objectives_for_stage (stage : GameStage) (settled active : nat) (anchored can_govern : bool)
    (governed : nat) (influence : Z) : list GameObjective :=
  match stage with
  | Survival =>
      [mission_objective "first_settlement" "Settle your first mission" settled 1;
       bool_objective "home_anchor" "Anchor to a home zone or subnet" anchored
         "Bind this public identity to a home location so the rest of the galaxy can orient around its role.";
       influence_objective "starter_influence" "Reach 150 total influence" influence 150]
  | Foothold =>
      [mission_objective "triple_settlement" "Settle 3 aligned missions" settled 3;
       influence_objective "foothold_influence" "Reach 400 total influence" influence 400;
       bool_objective "active_loop" "Maintain at least one active mission" (0 <? active)%nat
         "Keep a live operating loop so your role turns into durable position instead of one-off activity."]
  | Influence =>
      [bool_objective "governance_gate" "Qualify for governance" can_govern
         "Hold a valid civic license and an active sovereignty bond.";
       influence_objective "influence_gate" "Reach 900 total influence" influence 900;
       count_objective "governed_planets" "Participate in governing 1 planet" governed 1
         "Move from personal success into visible civic power."]
  | Expansion =>
      [count_objective "planetary_control" "Govern at least 1 planet" governed 1
         "Expansion starts from a real power base, not isolated activity.";
       influence_objective "expansion_influence" "Reach 1200 total influence" influence 1200;
       mission_objective "expansion_logistics" "Settle 8 missions before expansion" settled 8]
  end.

Definition headline (stage : GameStage) : string :=
  match stage with
  | Survival => "Establish your first foothold"
  | Foothold => "Convert activity into durable position"
  | Influence => "Shape policy, markets, and route outcomes"
  | Expansion => "Push the galaxy outward from your existing power base"
  end.

(** The journey reads the clock after the gate of governance did, twice at most. *)
Definition compute_status (clk : clock) (controller : string) (citizen : option CitizenProfile)
    (stats : AgentStats) (scores : CivilizationScores) (board : MissionBoard)
    (governance : GovernanceEngine) (maps : GalaxyMapRegistry)
    (tracks : list QualificationTrack) : GameStatus :=
  let settled := settled_mission_count controller board in
  let active := active_mission_count controller board in
  let governed := governed_planet_count controller governance in
  let created := created_planet_count controller governance in
  let can_govern := has_valid_license (clk 0%nat) governance controller
                    && has_active_bond (clk 1%nat) governance controller 1 in
  let anchor := locate_home_anchor citizen maps in
  let anchored := bool_decide (is_Some anchor) in
  let influence := total_influence scores in
  let stage := determine_stage settled active governed created can_govern anchored influence in
  {| gst_stage := stage;
     gst_headline := headline stage;
     gst_summary :=
       "Influence " +:+ show_Z influence +:+ " with watt " +:+ show_Z (st_watt stats)
       +:+ ", power " +:+ show_Z (st_power stats) +:+ ", reputation " +:+ show_Z (st_reputation stats)
       +:+ ", and capacity " +:+ show_Z (st_capacity stats) +:+ ".";
     gst_total_influence := influence;
     settled_missions := settled;
     active_missions := active;
     governed_planets := governed;
     can_enter_governance := can_govern;
     home_anchor := anchor;
     gst_recommended_actions := recommended_actions (role <$> citizen) stage active anchored;
     objectives := objectives_for_stage stage settled active anchored can_govern governed influence;
     qualifications := tracks;
     governance_journey :=
       compute_governance_journey (λ n, clk (2 + n)%nat) controller anchored influence governance |}.

(** ** Percentages *)

Lemma pct_or_100_id z : 0 ≤ z ≤ 100 → pct_or_100 z = z.
Proof.
  intros Hz. rewrite /pct_or_100 /uint_checked /u8_max.
  by rewrite (proj2 (Z.leb_le 0 z)) ?(proj2 (Z.leb_le z 255)); [|lia..].
Qed.

Lemma ratio_bounds a b : 0 ≤ a ≤ b → 0 < b → 0 ≤ a * 100 / b ≤ 100 ∧ (a * 100 / b = 100 ↔ a = b).
Proof.
  intros Ha Hb. split; [split|].
  - apply Z.div_pos; lia.
  - apply Z.div_le_upper_bound; lia.
  - split; [|intros ->; by rewrite Z.mul_comm Z.div_mul; lia].
    intros E. pose proof (Z.mul_div_le (a * 100) b Hb). nia.
Qed.

(** What a progress report promises: a percentage that is full exactly when done. *)
Definition consistent (complete : bool) (pct : Z) : Prop :=
  0 ≤ pct ≤ 100 ∧ (complete = true ↔ pct = 100).

Lemma count_objective_ok key title current required hint :
  let o := count_objective key title current required hint in
  consistent (ob_complete o) (ob_progress_pct o).
Proof.
  cbn. set (r := Nat.max required 1). assert (0 < Z.of_nat r) as Hr by lia.
  destruct (ratio_bounds (Z.of_nat (Nat.min current r)) (Z.of_nat r)) as [Hb Heq]; [lia|done|].
  rewrite /consistent pct_or_100_id // Heq Nat.leb_le. split; [done|]. lia.
Qed.

Lemma bool_objective_ok key title b hint :
  let o := bool_objective key title b hint in consistent (ob_complete o) (ob_progress_pct o).
Proof. cbn. rewrite /consistent. destruct b; lia. Qed.

Lemma influence_objective_ok key title influence required :
  0 < required → influence * 100 ≤ i64_max →
  let o := influence_objective key title influence required in
  consistent (ob_complete o) (ob_progress_pct o).
Proof.
  intros Hr Hi. cbn. rewrite (Z.max_l required 1); [|lia].
  rewrite /i64_mul wrap_i64_id; [|rewrite /is_i64 /i64_min /i64_max in Hi |- *; lia].
  rewrite Z.quot_div_nonneg; [|lia..].
  assert (0 ≤ Z.max influence 0 * 100 / required) as Hpos by (apply Z.div_pos; lia).
  rewrite /consistent pct_or_100_id; [|lia]. split; [lia|]. rewrite Z.leb_le.
  split; intros H.
  - assert (100 ≤ Z.max influence 0 * 100 / required); [|lia]. apply Z.div_le_lower_bound; lia.
  - assert (100 ≤ Z.max influence 0 * 100 / required) as H1 by lia.
    pose proof (Z.mul_div_le (Z.max influence 0 * 100) required Hr). nia.
Qed.

(** Every objective a citizen is shown carries a percentage between 0 and 100 that is
    100 exactly when the objective is met, as long as the influence is below the 64-bit
    limit divided by a hundred. *)
Theorem objectives_consistent clk controller citizen stats scores board governance maps tracks o :
  total_influence scores * 100 ≤ i64_max →
  o ∈ objectives (compute_status clk controller citizen stats scores board governance maps tracks) →
  consistent (ob_complete o) (ob_progress_pct o).
Proof.
  intros Hi. cbn [objectives compute_status]. rewrite /objectives_for_stage.
  destruct (determine_stage _ _ _ _ _ _ _); rewrite !elem_of_cons elem_of_nil;
    intros [->|[->|[->|[]]]];
    first [apply count_objective_ok | apply bool_objective_ok | by apply influence_objective_ok].
Qed.

(** Above it the product wraps: a complete objective reports no progress. *)
Example influence_overflow :
  let o := influence_objective "k" "t" (2 ^ 62) 900 in ob_complete o = true ∧ ob_progress_pct o = 0.
Proof. by vm_compute. Qed.

(** ** Stages *)

Definition stage_rank (s : GameStage) : nat :=
  match s with Survival => 0 | Foothold => 1 | Influence => 2 | Expansion => 3 end.

Lemma stage_ladder_mono (e i f e' i' f' : bool) :
  (e = true → e' = true) → (i = true → i' = true) → (f = true → f' = true) →
  (stage_rank (if e then Expansion else if i then Influence else if f then Foothold else Survival)
   ≤ stage_rank (if e' then Expansion else if i' then Influence else if f' then Foothold else Survival))%nat.
Proof.
  intros He Hi Hf. destruct e, i, f, e', i', f'; cbn; try lia; exfalso;
    first [discriminate (He eq_refl) | discriminate (Hi eq_refl) | discriminate (Hf eq_refl)].
Qed.

(** Progress never sets a citizen back: with at least as many settled and active
    missions, governed and created planets, rights and influence, the stage is at least as
    high. *)
Theorem determine_stage_mono s a g c cg an i s' a' g' c' cg' an' i' :
  (s ≤ s')%nat → (a ≤ a')%nat → (g ≤ g')%nat → (c ≤ c')%nat →
  (cg = true → cg' = true) → (an = true → an' = true) → i ≤ i' →
  (stage_rank (determine_stage s a g c cg an i)
   ≤ stage_rank (determine_stage s' a' g' c' cg' an' i'))%nat.
Proof.
  intros Hs Ha Hg Hc Hcg Han Hi. apply stage_ladder_mono.
  - rewrite !orb_true_iff !andb_true_iff !Nat.ltb_lt !Z.leb_le. lia.
  - rewrite !orb_true_iff !Nat.ltb_lt !Z.leb_le. intros [[?|?]|?]; [left; left; lia|auto|right; lia].
  - rewrite !orb_true_iff !Nat.ltb_lt !Z.leb_le.
    intros [[[?|?]|?]|?]; [do 3 left; lia|do 2 left; right; lia|auto|right; lia].
Qed.

(** ** Qualification *)

Lemma progress_ok count score :
  consistent (bool_decide (state_from_mission_and_score count score = Advanced))
    (progress_from_mission_and_score count score).
Proof.
  rewrite /progress_from_mission_and_score /clamp.
  destruct (ratio_bounds (Z.of_nat (Nat.min count 4)) 4) as [Hb1 He1]; [lia..|].
  set (v := Z.min 250 (Z.max 0 score)).
  destruct (ratio_bounds v 250) as [Hb2 He2]; [lia..|].
  rewrite /i64_mul wrap_i64_id; [|rewrite /is_i64 /i64_min /i64_max; lia].
  rewrite Z.quot_div_nonneg; [|lia..].
  rewrite !pct_or_100_id; [|done..]. split; [lia|].
  rewrite bool_decide_eq_true /state_from_mission_and_score.
  assert (Z.max (Z.of_nat (Nat.min count 4) * 100 / 4) (v * 100 / 250) = 100
          ↔ (4 ≤ count)%nat ∨ 250 ≤ score) as ->.
  { split.
    - intros E. destruct (Z.max_spec (Z.of_nat (Nat.min count 4) * 100 / 4) (v * 100 / 250)) as [[? Hm]|[? Hm]];
        rewrite Hm in E; [right; apply He2 in E; lia|left; apply He1 in E; lia].
    - intros [Hc|Hc].
      + assert (Z.of_nat (Nat.min count 4) * 100 / 4 = 100) by (apply He1; lia). lia.
      + assert (v * 100 / 250 = 100) by (apply He2; lia). lia. }
  destruct (Nat.leb_spec 4 count) as [?|?]; cbn; [by split; [left|]|].
  destruct (Z.leb_spec 250 score) as [?|?]; cbn; [by split; [right|]|].
  repeat case_match; split; try done; intros [?|?]; lia.
Qed.

(** Each qualification track reports a percentage between 0 and 100; on the role and
    expansion tracks it is 100 exactly when the track is advanced, and the last unlock is
    open exactly then. *)
Theorem qualification_spec key title count score summary :
  let t := qualification key title count score summary in
  consistent (bool_decide (qt_state t = Advanced)) (qt_progress_pct t)
  ∧ (qt_state t = Locked ↔ (count = 0)%nat ∧ score < 40)
  ∧ (unlocked <$> qt_unlocks t
     = [bool_decide (qt_state t ≠ Locked);
        bool_decide (qt_state t = Qualified ∨ qt_state t = Advanced);
        bool_decide (qt_progress_pct t = 100)]).
Proof.
  cbn zeta. cbn [qualification qt_state qt_progress_pct qt_unlocks].
  pose proof (progress_ok count score) as [Hb He]. split; [done|]. split.
  - rewrite /state_from_mission_and_score.
    destruct (Nat.leb_spec 4 count); cbn [orb]; [split; [done|lia]|].
    destruct (Z.leb_spec 250 score); cbn [orb]; [split; [done|lia]|].
    destruct (Nat.leb_spec 2 count); cbn [orb]; [split; [done|lia]|].
    destruct (Z.leb_spec 120 score); cbn [orb]; [split; [done|lia]|].
    destruct (Nat.leb_spec 1 count); cbn [orb]; [split; [done|lia]|].
    destruct (Z.leb_spec 40 score); cbn [orb]; [split; [done|lia]|]. split; [lia|done].
  - cbn. rewrite -(bool_decide_ext _ _ He). 
    destruct (state_from_mission_and_score count score); reflexivity.
Qed.

Module GameScenario.
Definition clk : clock := λ _, 100.
Definition citizen : CitizenProfile :=
  mkCitizenProfile "did:a" Order Operator Balanced (Some "planet-main"%string) None 0.
Definition scores (i : Z) : CivilizationScores := mkCivilizationScores 0 0 0 0 0 i.
Definition maps : GalaxyMapRegistry := {[ "genesis-base"%string := default_genesis_map clk ]}.
Definition status_at (i : Z) : GameStatus :=
  compute_status clk "did:a" (Some citizen) (mkAgentStats 1 0 0 0) (scores i) default_board
    default_engine maps [].

Example anchored_at_home : an_route_id (locate_anchor citizen maps) = Some "route-genesis-frontier"%string
  ∧ gst_stage (status_at 0) = Foothold ∧ gst_stage (status_at 500) = Influence.
Proof. by vm_compute. Qed.

Lemma objectives_consistent_witness :
  Forall (λ o, consistent (ob_complete o) (ob_progress_pct o)) (objectives (status_at 500)).
Proof.
  apply Forall_forall. intros o Ho.
  apply (objectives_consistent clk "did:a" (Some citizen) (mkAgentStats 1 0 0 0) (scores 500)
           default_board default_engine maps []); [vm_compute; discriminate|exact Ho].
Defined.

Lemma determine_stage_mono_witness :
  (stage_rank (determine_stage 1 0 0 0 false false 0)
   ≤ stage_rank (determine_stage 2 0 0 0 true false 100))%nat.
Proof. apply (determine_stage_mono 1 0 0 0 false false 0 2 0 0 0 true false 100); (lia || done). Defined.
End GameScenario.
