(* ===== verification/GameMissions.v ===== *)
(** * Missions the game publishes

    [K/game/starter.rs]: the starter chain of a role; [K/game/mission_pack.rs]: the mission
    pack of a stage; [K/game/bootstrap.rs]: the first steps of a citizen. Starter chains and
    packs are read off the board: a mission belongs to a template when its payload names the
    owner and the template. *)

From S2P Require Import Prelude Collections Text Json Signing Governance Profiles Missions Galaxy GalaxyMap Standing Game.
#[local] Open Scope Z_scope.

(** ** JSON forms *)

Definition role_slug (r : RolePath) : string :=
  match r with
  | Operator => "operator" | Broker => "broker" | Enforcer => "enforcer" | Artificer => "artificer"
  end.
Definition faction_slug (f : Faction) : string :=
  match f with Order => "order" | Freeport => "freeport" | Raider => "raider" end.
Definition domain_slug (d : MissionDomain) : string :=
  match d with
  | Wealth => "wealth" | Power => "power" | Security => "security" | Trade => "trade"
  | Culture => "culture"
  end.
Definition anchor_json (a : MissionAnchor) : json :=
  JObject [("map_id", JString (an_map_id a)); ("map_name", JString (an_map_name a));
           ("system_id", JString (an_system_id a)); ("system_name", JString (an_system_name a));
           ("planet_id", json_of_option JString (an_planet_id a));
           ("planet_name", json_of_option JString (an_planet_name a));
           ("route_id", json_of_option JString (an_route_id a))].

(** ** Publishing the missing templates

    Both loops publish, in order, the templates whose id is missing; the [i]-th mission of
    a call reads its own clock and draws its own id. *)

Fixpoint publish_all (clk : clock) (uuids : nat → string) (i : nat)
    (specs : list (MissionSpec * MissionReward)) : stm MissionBoard (list CivilMission) :=
  match specs with
  | [] => mret []
  | (s, r) :: specs' =>
      m ← publish (λ _, clk i) (uuids i) s r;
      created ← publish_all clk uuids (S i) specs';
      mret (m :: created)
  end.

(** ** The starter chain *)

Module Starter.

Inductive StarterObjectiveState := Missing | SOpen | SClaimed | SCompleted | SSettled.
#[global] Instance StarterObjectiveState_eq_dec : EqDecision StarterObjectiveState.
Proof. solve_decision. Defined.

Record StarterObjectiveStep := mkStarterObjectiveStep {
  so_step_key : string;
  so_title : string;
  so_template_id : string;
  so_order : Z;
  so_state : StarterObjectiveState;
  so_progress_pct : Z;
  so_mission_id : option string;
}.
Record StarterObjectiveChain := mkStarterObjectiveChain {
  chain_id : string;
  chain_title : string;
  chain_summary : string;
  chain_role : RolePath;
  chain_progress_pct : Z;
  current_step_key : option string;
  chain_steps : list StarterObjectiveStep;
}.
Record StarterMissionTemplate := mkStarterMissionTemplate {
  template_id : string;
  step_key : string;
  step_title : string;
  step_order : Z;
  st_title : string;
  st_description : string;
  st_publisher : string;
  st_publisher_kind : MissionPublisherKind;
  st_domain : MissionDomain;
  st_subnet_id : option string;
  st_zone_id : option string;
  st_required_role : option RolePath;
  st_required_faction : option Faction;
  st_reward : MissionReward;
  st_anchor : MissionAnchor;
}.
Record StarterMissionSet := mkStarterMissionSet {
  objective_chain : StarterObjectiveChain;
  templates : list StarterMissionTemplate;
  existing : list CivilMission;
  missing_template_ids : list string;
}.

Definition starter_reward (rep : Z) : MissionReward := mkMissionReward 0 rep 1.

Definition template (id key step_t : string) (order : Z) (t d : string) (dom : MissionDomain)
    (citizen : CitizenProfile) (rew : MissionReward) (anchor : MissionAnchor)
    : StarterMissionTemplate :=
  {| template_id := id; step_key := key; step_title := step_t; step_order := order;
     st_title := t; st_description := d;
     st_publisher := default "genesis-prime"%string (home_subnet_id citizen);
     st_publisher_kind := System; st_domain := dom;
     st_subnet_id := home_subnet_id citizen; st_zone_id := home_zone_id citizen;
     st_required_role := Some (role citizen); st_required_faction := Some (faction citizen);
     st_reward := rew; st_anchor := anchor |}.

Definition operator_templates (c : CitizenProfile) (a : MissionAnchor) : list StarterMissionTemplate :=
  [template "operator-grid-check" "stabilize_home_grid" "Stabilize your home grid" 1
     "Stabilize the local relay grid"
     "Inspect and stabilize the relay path that anchors your home zone."
     Wealth c (starter_reward 2) a;
   template "operator-throughput-audit" "audit_infrastructure_flow" "Audit infrastructure flow" 2
     "Audit local throughput"
     "Bring one home-zone infrastructure path back into dependable operating condition."
     Power c (starter_reward 3) a].

Definition broker_templates (c : CitizenProfile) (a : MissionAnchor) : list StarterMissionTemplate :=
  [template "broker-genesis-frontier-liquidity" "seed_trade_corridor" "Seed your first trade corridor" 1
     "Seed the genesis-frontier corridor"
     "Move liquidity across the first safe trade corridor and restore flow between genesis and frontier systems."
     Trade c (starter_reward 3) a;
   template "broker-market-balance" "rebalance_frontier_exchange" "Rebalance the frontier exchange" 2
     "Rebalance the frontier exchange"
     "Resolve a supply imbalance for your home subnet and prove that you can keep a route alive."
     Wealth c (starter_reward 4) a].

Definition enforcer_templates (c : CitizenProfile) (a : MissionAnchor) : list StarterMissionTemplate :=
  [template "enforcer-corridor-patrol" "patrol_home_corridor" "Patrol your home corridor" 1
     "Patrol the frontier corridor"
     "Reduce route risk around your home zone and establish a basic security presence."
     Security c (starter_reward 3) a;
   template "enforcer-convoy-escort" "escort_priority_convoy" "Escort a priority convoy" 2
     "Escort a priority convoy"
     "Protect a convoy moving into the frontier belt and demonstrate local authority."
     Power c (starter_reward 4) a].

Definition artificer_templates (c : CitizenProfile) (a : MissionAnchor) : list StarterMissionTemplate :=
  [template "artificer-home-signal" "signal_home_zone" "Signal your home zone" 1
     "Signal your home zone"
     "Create a visible civic marker that makes your home zone legible to other participants."
     Culture c (starter_reward 3) a;
   template "artificer-frontier-attraction" "increase_frontier_attraction" "Increase frontier attraction" 2
     "Increase frontier attraction"
     "Improve local social gravity so your home subnet becomes easier to notice and harder to ignore."
     Trade c (starter_reward 4) a].

Definition starter_templates (c : CitizenProfile) (maps : GalaxyMapRegistry)
    : list StarterMissionTemplate :=
  let a := locate_anchor c maps in
  match role c with
  | Operator => operator_templates c a
  | Broker => broker_templates c a
  | Enforcer => enforcer_templates c a
  | Artificer => artificer_templates c a
  end.

Definition starter_objective_progress (s : MissionStatus) : Z :=
  match s with
  | Missions.Open => 25 | Claimed => 60 | Completed => 85 | Settled => 100 | Cancelled => 0
  end.
Definition objective_state (s : MissionStatus) : StarterObjectiveState :=
  match s with
  | Missions.Open => SOpen | Claimed => SClaimed | Completed => SCompleted | Settled => SSettled
  | Cancelled => Missing
  end.

Definition role_title (r : RolePath) : string :=
  match r with
  | Operator => "Operator" | Broker => "Broker" | Enforcer => "Enforcer" | Artificer => "Artificer"
  end.
Definition role_chain_summary (r : RolePath) : string :=
  match r with
  | Operator =>
      "Stabilize local infrastructure first, then prove you can turn throughput into durable civic reliability."
  | Broker =>
      "Open your first liquidity corridor, then show you can rebalance a live frontier market."
  | Enforcer =>
      "Reduce route risk first, then establish authority by protecting a higher-value convoy."
  | Artificer =>
      "Make your home zone visible first, then turn that signal into broader frontier attraction."
  end.

(** [mission.payload["starter_template_id"].as_str() == Some(id)]. *)
Definition is_template (key : string) (id : string) (m : CivilMission) : bool :=
  bool_decide (as_str (json_index (payload m) key) = Some id).
Definition is_string (v : json) : bool := bool_decide (is_Some (as_str v)).

Definition objective_step (existing : list CivilMission) (t : StarterMissionTemplate)
    : StarterObjectiveStep :=
  let '(s, pct, id) :=
    match find_first (is_template "starter_template_id" (template_id t)) existing with
    | None => (Missing, 0, None)
    | Some m => (objective_state (status m), starter_objective_progress (status m),
                 Some (mission_id m))
    end in
  mkStarterObjectiveStep (step_key t) (step_title t) (template_id t) (step_order t) s pct id.

(** The sum is [u16]; [u16::try_from(len).unwrap_or(1)]. *)
Definition chain_of (c : CitizenProfile) (templates : list StarterMissionTemplate)
    (existing : list CivilMission) : StarterObjectiveChain :=
  let steps := objective_step existing <$> templates in
  let pct :=
    if (length steps =? 0)%nat then 0
    else
      let total := foldl (λ acc s, (acc + so_progress_pct s) mod 2 ^ 16) 0 steps in
      let n := default 1 (uint_checked (2 ^ 16 - 1) (Z.of_nat (length steps))) in
      pct_or_100 (total / n) in
  {| chain_id := "starter-" +:+ role_slug (role c);
     chain_title := role_title (role c) +:+ " starter chain";
     chain_summary := role_chain_summary (role c);
     chain_role := role c;
     chain_progress_pct := pct;
     current_step_key := so_step_key <$> find_first (λ s, so_progress_pct s <? 100) steps;
     chain_steps := steps |}.

Definition missing_ids (key : string) (existing : list CivilMission) (ids : list string)
    : list string :=
  List.filter (λ id, negb (existsb (is_template key id) existing)) ids.

Definition starter_existing (controller : string) (board : MissionBoard) : list CivilMission :=
  List.filter (λ m, bool_decide (as_str (json_index (payload m) "starter_owner_agent_did")
                                 = Some controller)
                    && is_string (json_index (payload m) "starter_template_id"))
    (list_missions board None).

Definition starter_mission_set (controller : string) (c : CitizenProfile)
    (maps : GalaxyMapRegistry) (board : MissionBoard) : StarterMissionSet :=
  let templates := starter_templates c maps in
  let existing := starter_existing controller board in
  mkStarterMissionSet (chain_of c templates existing) templates existing
    (missing_ids "starter_template_id" existing (template_id <$> templates)).

Definition starter_payload (controller : string) (c : CitizenProfile) (t : StarterMissionTemplate)
    : json :=
  JObject [("starter_template_id", JString (template_id t));
           ("starter_owner_agent_did", JString controller);
           ("starter_step_key", JString (step_key t));
           ("starter_step_title", JString (step_title t));
           ("starter_step_order", json_of_Z (step_order t));
           ("starter_role", JString (role_slug (role c)));
           ("starter_faction", JString (faction_slug (faction c)));
           ("home_zone_id", json_of_option JString (home_zone_id c));
           ("home_subnet_id", json_of_option JString (home_subnet_id c));
           ("map_anchor", anchor_json (st_anchor t))].

(** What [publish] is called with; it sets the scope and the reward itself. *)
Definition starter_spec (controller : string) (c : CitizenProfile) (t : StarterMissionTemplate)
    : MissionSpec * MissionReward :=
  (mkMissionSpec (st_title t) (st_description t) (st_publisher t) (st_publisher_kind t)
     (st_domain t) RealWorld (st_subnet_id t) (st_zone_id t) (st_required_role t)
     (st_required_faction t) None (starter_payload controller c t), st_reward t).

Definition bootstrap_starter_missions (clk : clock) (uuids : nat → string) (controller : string)
    (c : CitizenProfile) (maps : GalaxyMapRegistry) : stm MissionBoard (list CivilMission) :=
  set ← gets (starter_mission_set controller c maps);
  publish_all clk uuids 0
    (starter_spec controller c
     <$> List.filter (λ t, existsb (String.eqb (template_id t)) (missing_template_ids set))
           (templates set)).
End Starter.

(** ** Mission packs *)

Module Pack.
Import Starter.

Inductive MissionPackPhase := RolePhase | CivicPhase | EventPhase.
#[global] Instance MissionPackPhase_eq_dec : EqDecision MissionPackPhase.
Proof. solve_decision. Defined.

Record MissionPayloadField := mkMissionPayloadField {
  pf_key : string;
  pf_title : string;
  field_type : string;
  required : bool;
  pf_description : string;
}.
Record GameMissionPayloadSchema := mkGameMissionPayloadSchema {
  objective_type : string;
  fields : list MissionPayloadField;
}.
Record GameMissionTemplate := mkGameMissionTemplate {
  gt_template_id : string;
  gt_stage : GameStage;
  gt_title : string;
  gt_description : string;
  gt_publisher : string;
  gt_publisher_kind : MissionPublisherKind;
  gt_domain : MissionDomain;
  gt_subnet_id : option string;
  gt_zone_id : option string;
  gt_required_role : option RolePath;
  gt_required_faction : option Faction;
  gt_reward : MissionReward;
  gt_anchor : MissionAnchor;
  gt_tags : list string;
  payload_schema : GameMissionPayloadSchema;
  suggested_payload : json;
  phase : MissionPackPhase;
}.
Record GameMissionPackSummary := mkGameMissionPackSummary {
  current_stage_label : string;
  current_template_count : nat;
  existing_count : nat;
  missing_count : nat;
  role_template_count : nat;
  civic_template_count : nat;
  event_template_count : nat;
  upcoming_stage_label : option string;
  upcoming_template_count : nat;
}.
Record GameMissionPack := mkGameMissionPack {
  pk_stage : GameStage;
  pk_templates : list GameMissionTemplate;
  pk_existing : list CivilMission;
  pk_missing_template_ids : list string;
  upcoming_stage : option GameStage;
  upcoming_templates : list GameMissionTemplate;
  pk_summary : GameMissionPackSummary;
}.

Definition stage_label (s : GameStage) : string :=
  match s with
  | Survival => "survival" | Foothold => "foothold" | Influence => "influence"
  | Expansion => "expansion"
  end.
Definition next_stage (s : GameStage) : option GameStage :=
  match s with
  | Survival => Some Foothold
  | Foothold => Some Influence
  | Influence => Some Expansion
  | Expansion => None
  end.
Definition event_category_slug (c : DynamicEventCategory) : string :=
  match c with Economic => "economic" | Spatial => "spatial" | Political => "political" end.

(** The words are lower-case ASCII. *)
Definition capitalize (s : string) : string :=
  match s with
  | EmptyString => ""
  | String a s' => String (ascii_upper a) s'
  end.

Definition default_payload_schema (ph : MissionPackPhase) : GameMissionPayloadSchema :=
  mkGameMissionPayloadSchema
    match ph with
    | RolePhase => "role_track" | CivicPhase => "civic_support" | EventPhase => "event_response"
    end
    ([mkMissionPayloadField "objective" "Objective" "string" true
        "Short machine-readable objective key for the mission flow.";
      mkMissionPayloadField "map_anchor" "Map Anchor" "object" true
        "Canonical system, planet, and route anchor for this mission."]
     ++ [match ph with
         | RolePhase =>
             mkMissionPayloadField "role_track" "Role Track" "string" true
               "Role-specialized execution track for the mission."
         | CivicPhase =>
             mkMissionPayloadField "civic_goal" "Civic Goal" "string" true
               "Public-order or governance outcome the mission should support."
         | EventPhase =>
             mkMissionPayloadField "event_id" "Event Id" "string" true
               "Source galaxy event that produced this response mission."
         end]).

Definition default_suggested_payload (id : string) (ph : MissionPackPhase) : json :=
  match ph with
  | RolePhase => JObject [("objective", JString id); ("role_track", JString "core-specialization")]
  | CivicPhase => JObject [("objective", JString id); ("civic_goal", JString "stability_support")]
  | EventPhase => JObject [("objective", JString id); ("event_id", JString id)]
  end.

Definition mission_template (id : string) (stage : GameStage) (t d : string) (c : CitizenProfile)
    (dom : MissionDomain) (rew : MissionReward) (anchor : MissionAnchor) (tags : list string)
    (ph : MissionPackPhase) : GameMissionTemplate :=
  {| gt_template_id := id; gt_stage := stage; gt_title := t; gt_description := d;
     gt_publisher := default (an_system_id anchor) (home_subnet_id c);
     gt_publisher_kind := System; gt_domain := dom;
     gt_subnet_id := home_subnet_id c; gt_zone_id := home_zone_id c;
     gt_required_role := Some (role c); gt_required_faction := Some (faction c);
     gt_reward := rew; gt_anchor := anchor; gt_tags := tags;
     payload_schema := default_payload_schema ph;
     suggested_payload := default_suggested_payload id ph;
     phase := ph |}.

Record RoleTemplateSpec := mkRoleTemplateSpec {
  rt_domain : MissionDomain;
  rt_verb : string;
  rt_target : string;
  rt_reputation : Z;
}.
Definition operator_spec (s : GameStage) : RoleTemplateSpec :=
  match s with
  | Survival => mkRoleTemplateSpec Wealth "stabilize" "relay throughput" 2
  | Foothold => mkRoleTemplateSpec Power "scale" "infrastructure reliability" 3
  | Influence => mkRoleTemplateSpec Power "coordinate" "public infrastructure flow" 5
  | Expansion => mkRoleTemplateSpec Wealth "prepare" "expansion logistics" 6
  end.
Definition broker_spec (s : GameStage) : RoleTemplateSpec :=
  match s with
  | Survival => mkRoleTemplateSpec Trade "seed" "route liquidity" 3
  | Foothold => mkRoleTemplateSpec Wealth "rebalance" "frontier demand" 4
  | Influence => mkRoleTemplateSpec Trade "shape" "corridor pricing" 5
  | Expansion => mkRoleTemplateSpec Trade "open" "new market corridors" 7
  end.
Definition enforcer_spec (s : GameStage) : RoleTemplateSpec :=
  match s with
  | Survival => mkRoleTemplateSpec Security "patrol" "home-route risk" 3
  | Foothold => mkRoleTemplateSpec Power "escort" "civic convoys" 4
  | Influence => mkRoleTemplateSpec Security "suppress" "frontier instability" 6
  | Expansion => mkRoleTemplateSpec Power "secure" "new expansion lanes" 7
  end.
Definition artificer_spec (s : GameStage) : RoleTemplateSpec :=
  match s with
  | Survival => mkRoleTemplateSpec Culture "signal" "home-zone identity" 3
  | Foothold => mkRoleTemplateSpec Trade "attract" "corridor attention" 4
  | Influence => mkRoleTemplateSpec Culture "shape" "public gravity" 6
  | Expansion => mkRoleTemplateSpec Culture "design" "expansion landmarks" 7
  end.
Definition role_template_spec (r : RolePath) (s : GameStage) : RoleTemplateSpec :=
  match r with
  | Operator => operator_spec s
  | Broker => broker_spec s
  | Enforcer => enforcer_spec s
  | Artificer => artificer_spec s
  end.

Definition role_template (c : CitizenProfile) (stage : GameStage) (anchor : MissionAnchor)
    : GameMissionTemplate :=
  let s := role_template_spec (role c) stage in
  mission_template (role_slug (role c) +:+ "-" +:+ stage_label stage +:+ "-core") stage
    (capitalize (rt_verb s) +:+ " " +:+ rt_target s +:+ " in " +:+ an_system_name anchor)
    ("Use your " +:+ role_slug (role c) +:+ " role to " +:+ rt_verb s +:+ " around "
     +:+ an_system_name anchor +:+ " and convert local work into durable "
     +:+ domain_slug (rt_domain s) +:+ " influence.")
    c (rt_domain s) (starter_reward (rt_reputation s)) anchor
    [role_slug (role c); stage_label stage; "core"%string] RolePhase.

Definition civic_template (c : CitizenProfile) (stage : GameStage) (anchor : MissionAnchor)
    : GameMissionTemplate :=
  let '(t, d, rep) :=
    match stage with
    | Survival =>
        ("Document local civic conditions",
         "Build the first public record that turns private work into civic legibility.", 2)
    | Foothold =>
        ("Support local treasury and stability",
         "Use your home anchor to prove that repeatable work can support public order.", 3)
    | Influence =>
        ("Prepare governance readiness",
         "Cross the final civic gates between private success and formal sovereignty participation.", 5)
    | Expansion =>
        ("Stage frontier expansion support",
         "Demonstrate that your current base can underwrite the next layer of map growth.", 6)
    end%string in
  mission_template (role_slug (role c) +:+ "-" +:+ stage_label stage +:+ "-civic") stage t d c Power
    (starter_reward rep) anchor [role_slug (role c); stage_label stage; "civic"%string] CivicPhase.

Definition event_template (c : CitizenProfile) (stage : GameStage) (anchor : MissionAnchor)
    (e : DynamicEvent) : GameMissionTemplate :=
  let '(dom, prefix, focus) :=
    match category e with
    | Economic =>
        (Trade, "Stabilize",
         "convert economic pressure into corridor liquidity and local resilience")
    | Spatial =>
        (Security, "Respond to",
         "reduce route pressure and restore safe movement through the affected corridor")
    | Political =>
        (Power, "Resolve",
         "turn political instability into civic legibility and governed order")
    end%string in
  let bonus := u8_saturating_sub (event_severity e) 5 in
  mission_template ("event-" +:+ stage_label stage +:+ "-" +:+ event_id e) stage
    (prefix +:+ " " +:+ event_title e)
    (event_description e +:+ ". Use your " +:+ role_slug (role c) +:+ " role around "
     +:+ an_system_name anchor +:+ " to " +:+ focus +:+ ".")
    c dom (starter_reward (i64_add 2 bonus)) anchor
    [role_slug (role c); stage_label stage; "event"%string; event_zone_id e;
     event_category_slug (category e)] EventPhase.

Definition event_templates (c : CitizenProfile) (stage : GameStage) (anchor : MissionAnchor)
    (g : GalaxyState) : list GameMissionTemplate :=
  match home_zone_id c with
  | None => []
  | Some home =>
      event_template c stage anchor
      <$> take 2 (List.filter (λ e, 6 <=? event_severity e) (events g (Some home)))
  end.

Definition templates_for_stage (c : CitizenProfile) (stage : GameStage) (anchor : MissionAnchor)
    (g : GalaxyState) : list GameMissionTemplate :=
  [role_template c stage anchor; civic_template c stage anchor]
  ++ event_templates c stage anchor g.

Definition build_pack_summary (stage : GameStage) (templates : list GameMissionTemplate)
    (existing : list CivilMission) (missing : list string) (upcoming : option GameStage)
    (upcoming_ts : list GameMissionTemplate) : GameMissionPackSummary :=
  let phase_count ph := length (List.filter (λ t, bool_decide (phase t = ph)) templates) in
  {| current_stage_label := stage_label stage;
     current_template_count := length templates;
     existing_count := length existing;
     missing_count := length missing;
     role_template_count := phase_count RolePhase;
     civic_template_count := phase_count CivicPhase;
     event_template_count := phase_count EventPhase;
     upcoming_stage_label := stage_label <$> upcoming;
     upcoming_template_count := length upcoming_ts |}.

Definition pack_existing (controller : string) (stage : GameStage) (board : MissionBoard)
    : list CivilMission :=
  List.filter (λ m,
      bool_decide (as_str (json_index (payload m) "game_pack_owner_agent_did") = Some controller)
      && bool_decide (as_str (json_index (payload m) "game_pack_stage") = Some (stage_label stage))
      && is_string (json_index (payload m) "game_pack_template_id"))
    (list_missions board None).

Definition mission_pack_set (controller : string) (c : CitizenProfile) (stage : GameStage)
    (maps : GalaxyMapRegistry) (g : GalaxyState) (board : MissionBoard) : GameMissionPack :=
  let anchor := locate_anchor c maps in
  let templates := templates_for_stage c stage anchor g in
  let upcoming := next_stage stage in
  let upcoming_ts := match upcoming with
                     | Some s => templates_for_stage c s anchor g
                     | None => []
                     end in
  let existing := pack_existing controller stage board in
  let missing := missing_ids "game_pack_template_id" existing (gt_template_id <$> templates) in
  mkGameMissionPack stage templates existing missing upcoming upcoming_ts
    (build_pack_summary stage templates existing missing upcoming upcoming_ts).

Definition field_json (f : MissionPayloadField) : json :=
  JObject [("key", JString (pf_key f)); ("title", JString (pf_title f));
           ("field_type", JString (field_type f)); ("required", JBool (required f));
           ("description", JString (pf_description f))].
Definition schema_json (s : GameMissionPayloadSchema) : json :=
  JObject [("objective_type", JString (objective_type s)); ("fields", JArray (field_json <$> fields s))].
Definition phase_slug (ph : MissionPackPhase) : string :=
  match ph with RolePhase => "role" | CivicPhase => "civic" | EventPhase => "event" end.

Definition pack_payload (controller : string) (c : CitizenProfile) (stage : GameStage)
    (t : GameMissionTemplate) : json :=
  JObject [("game_pack_template_id", JString (gt_template_id t));
           ("game_pack_owner_agent_did", JString controller);
           ("game_pack_role", JString (role_slug (role c)));
           ("game_pack_stage", JString (stage_label stage));
           ("game_pack_phase", JString (phase_slug (phase t)));
           ("game_pack_payload_schema", schema_json (payload_schema t));
           ("game_pack_suggested_payload", suggested_payload t);
           ("map_anchor", anchor_json (gt_anchor t));
           ("tags", JArray (JString <$> gt_tags t))].

Definition pack_spec (controller : string) (c : CitizenProfile) (stage : GameStage)
    (t : GameMissionTemplate) : MissionSpec * MissionReward :=
  (mkMissionSpec (gt_title t) (gt_description t) (gt_publisher t) (gt_publisher_kind t)
     (gt_domain t) RealWorld (gt_subnet_id t) (gt_zone_id t) (gt_required_role t)
     (gt_required_faction t) None (pack_payload controller c stage t), gt_reward t).

Definition bootstrap_mission_pack (clk : clock) (uuids : nat → string) (controller : string)
    (c : CitizenProfile) (stage : GameStage) (maps : GalaxyMapRegistry) (g : GalaxyState)
    : stm MissionBoard (list CivilMission) :=
  pack ← gets (mission_pack_set controller c stage maps g);
  publish_all clk uuids 0
    (pack_spec controller c stage
     <$> List.filter (λ t, existsb (String.eqb (gt_template_id t)) (pk_missing_template_ids pack))
           (pk_templates pack)).
End Pack.

(** ** What a bootstrap does to the board *)

(** Ids drawn for the call are new and distinct. *)
Definition fresh (uuids : nat → string) (i : nat) (st : MissionBoard) : Prop :=
  Inj (=) (=) uuids ∧ ∀ j, (i ≤ j)%nat → missions st !! uuids j = None.

Definition publishes (sp : MissionSpec * MissionReward) (m : CivilMission) : Prop :=
  payload m = spec_payload sp.1 ∧ reward m = Some sp.2 ∧ status m = Missions.Open
  ∧ title m = spec_title sp.1 ∧ domain m = spec_domain sp.1 ∧ publisher_kind m = spec_publisher_kind sp.1.

Lemma publish_run clk uuid sp st :
  ∃ m, publish clk uuid sp.1 sp.2 st = (Ok m, st <| missions ::= <[uuid := m]> |>) ∧ publishes sp m.
Proof. eexists. split; [reflexivity|]. by repeat split. Qed.

Lemma publish_all_run clk uuids specs i st :
  fresh uuids i st →
  ∃ created st', publish_all clk uuids i specs st = (Ok created, st')
    ∧ Forall2 publishes specs created
    ∧ (∀ id m, missions st !! id = Some m → missions st' !! id = Some m)
    ∧ (∀ m, m ∈ created → ∃ id, missions st' !! id = Some m).
Proof.
  revert i st. induction specs as [|sp specs IH]; intros i st [Hinj Hnew]; cbn [publish_all].
  { exists [], st. split_and!; [done|constructor|done|by intros ? ?%elem_of_nil]. }
  destruct sp as [s r]. destruct (publish_run (λ _, clk i) (uuids i) (s, r) st) as (m & Hm & Hp).
  cbn [fst snd] in Hm. rewrite /mbind /stm_bind Hm.
  set (st1 := st <| missions ::= <[uuids i := m]> |>).
  destruct (IH (S i) st1) as (created & st' & Hrun & Hf & Hkeep & Hin).
  { split; [done|]. intros j Hj. cbn. rewrite lookup_insert_ne; [|intros E%Hinj; lia].
    apply Hnew. lia. }
  rewrite Hrun. exists (m :: created), st'. split_and!; [done|by constructor| |].
  - intros id m0 H0. apply Hkeep. cbn. rewrite lookup_insert_ne //.
    intros <-. rewrite (Hnew i) // in H0.
  - intros m0 [->|H0]%elem_of_cons; [|by apply Hin]. exists (uuids i). apply Hkeep. cbn.
    apply lookup_insert_eq.
Qed.

Lemma elem_of_all_missions st m : m ∈ list_missions st None ↔ ∃ id, missions st !! id = Some m.
Proof. rewrite /list_missions elem_of_filterb elem_of_btree_values /=. tauto. Qed.

Section bootstrap.
Import Starter.
Context {T : Type} (tid : T → string) (key : string) (own : CivilMission → bool).
Context (mk : T → MissionSpec * MissionReward) (ts : list T).
Context (Hmk : ∀ t m, publishes (mk t) m → own m = true ∧ is_template key (tid t) m = true).

Definition owned (st : MissionBoard) : list CivilMission :=
  List.filter own (list_missions st None).
Definition missing (st : MissionBoard) : list string := missing_ids key (owned st) (tid <$> ts).
Definition wanted (st : MissionBoard) : list T :=
  List.filter (λ t, existsb (String.eqb (tid t)) (missing st)) ts.
Definition boot (clk : clock) (uuids : nat → string) (st : MissionBoard)
    : result (list CivilMission) * MissionBoard :=
  publish_all clk uuids 0 (mk <$> wanted st) st.

Lemma elem_of_missing_templates st id :
  id ∈ missing st ↔ (∃ t, t ∈ ts ∧ tid t = id)
    ∧ ∀ m, m ∈ owned st → is_template key id m = false.
Proof.
  rewrite /missing /missing_ids elem_of_filterb list_elem_of_fmap negb_true_iff.
  assert (existsb (is_template key id) (owned st) = false
    ↔ ∀ m, m ∈ owned st → is_template key id m = false) as ->.
  { rewrite -not_true_iff_false existsb_exists. split.
    - intros Hn m Hm. destruct (is_template key id m) eqn:E; [|done].
      destruct Hn. exists m. split; [by apply list_elem_of_In|done].
    - intros Hn (m & Hm%list_elem_of_In & E). by rewrite Hn in E. }
  split; intros [(t & H1 & H2) Hn]; (split; [by exists t|done]).
Qed.

Lemma elem_of_wanted st t : t ∈ wanted st ↔ t ∈ ts ∧ tid t ∈ missing st.
Proof.
  rewrite /wanted elem_of_filterb. f_equiv. rewrite existsb_exists. split.
  - by intros (x & Hx%list_elem_of_In & ->%String.eqb_eq).
  - intros H. exists (tid t). split; [by apply list_elem_of_In|apply String.eqb_refl].
Qed.

Lemma boot_run clk uuids st :
  fresh uuids 0 st →
  ∃ created st', boot clk uuids st = (Ok created, st')
    ∧ Forall2 publishes (mk <$> wanted st) created
    ∧ (∀ id m, missions st !! id = Some m → missions st' !! id = Some m)
    ∧ missing st' = []
    ∧ ∀ clk' uuids', boot clk' uuids' st' = (Ok [], st').
Proof using Hmk.
  intros Hf. destruct (publish_all_run clk uuids (mk <$> wanted st) 0 st Hf)
    as (created & st' & Hrun & Hall & Hkeep & Hin).
  assert (missing st' = []) as Hnone.
  { destruct (missing st') as [|id l] eqn:E; [done|]. exfalso.
    assert (id ∈ missing st') as Hid by (rewrite E; by left).
    apply elem_of_missing_templates in Hid as [(t & Ht & <-) Hno].
    destruct (decide (tid t ∈ missing st)) as [Hm|Hm].
    - assert (t ∈ wanted st) as Hw by (by apply elem_of_wanted).
      apply (list_elem_of_fmap_2 mk) in Hw. destruct (list_elem_of_lookup_1 _ _ Hw) as [i Hi].
      destruct (Forall2_lookup_l _ _ _ _ _ Hall Hi) as (m & Hmi & Hp).
      destruct (Hmk t m Hp) as [Hown Htpl].
      rewrite Hno in Htpl; [done|]. apply elem_of_filterb. split; [|done].
      apply elem_of_all_missions, Hin. by eapply list_elem_of_lookup_2.
    - apply Hm, elem_of_missing_templates. split; [eauto|]. intros m Hown. apply Hno.
      apply elem_of_filterb in Hown as [Hl Ho]. apply elem_of_filterb. split; [|done].
      apply elem_of_all_missions in Hl as [id Hl]. apply elem_of_all_missions. exists id. by apply Hkeep. }
  exists created, st'. split_and!; try done. intros clk' uuids'.
  assert (wanted st' = []) as Hw.
  { destruct (wanted st') as [|t l] eqn:E; [done|]. exfalso.
    assert (t ∈ wanted st') as [_ Ht]%elem_of_wanted by (rewrite E; by left).
    rewrite Hnone in Ht. by apply elem_of_nil in Ht. }
  by rewrite /boot Hw.
Qed.
End bootstrap.

(** A system mission pays no watt. *)
Definition unpaid (m : CivilMission) : Prop :=
  status m = Missions.Open ∧ publisher_kind m = System
  ∧ ∃ r, reward m = Some r ∧ agent_watt r = 0.

Lemma publishes_unpaid specs created :
  Forall2 publishes specs created →
  Forall (λ sp, agent_watt sp.2 = 0 ∧ spec_publisher_kind sp.1 = System) specs →
  Forall unpaid created ∧ length created = length specs.
Proof.
  induction 1 as [|sp m specs created (_ & Hr & Hs & _ & _ & Hk) _ IH]; intros Hall; [by split|].
  apply Forall_cons in Hall as [[Hw Hp] Hall]. destruct (IH Hall) as [? ?].
  split; [constructor; [|done]|cbn; by f_equal]. split_and!; [done|by rewrite Hk|]. by exists sp.2.
Qed.

Section specs.
Import Starter Pack.

Lemma starter_templates_unpaid c maps t :
  t ∈ starter_templates c maps → agent_watt (st_reward t) = 0 ∧ st_publisher_kind t = System.
Proof.
  rewrite /starter_templates. destruct (role c); rewrite !elem_of_cons elem_of_nil;
    by intros [->|[->|[]]].
Qed.

Lemma pack_templates_unpaid c stage anchor g t :
  t ∈ templates_for_stage c stage anchor g → agent_watt (gt_reward t) = 0 ∧ gt_publisher_kind t = System.
Proof.
  rewrite /templates_for_stage elem_of_app !elem_of_cons elem_of_nil.
  intros [[->|[->|[]]]|Hin]; [done|by destruct stage|].
  rewrite /event_templates in Hin. destruct (home_zone_id c); [|by apply elem_of_nil in Hin].
  apply list_elem_of_fmap in Hin as (e & -> & _). rewrite /event_template. by destruct (category e).
Qed.

(** The starter chain of a role is published the same way. *)
Lemma starter_bootstrap_spec clk uuids controller c maps st :
  fresh uuids 0 st →
  ∃ created st', bootstrap_starter_missions clk uuids controller c maps st = (Ok created, st')
    ∧ Forall unpaid created
    ∧ (∀ id m, missions st !! id = Some m → missions st' !! id = Some m)
    ∧ missing_template_ids (starter_mission_set controller c maps st') = []
    ∧ ∀ clk' uuids', bootstrap_starter_missions clk' uuids' controller c maps st' = (Ok [], st').
Proof.
  intros Hf.
  destruct (boot_run template_id "starter_template_id"
    (λ m, bool_decide (as_str (json_index (payload m) "starter_owner_agent_did") = Some controller)
          && is_string (json_index (payload m) "starter_template_id"))
    (starter_spec controller c) (starter_templates c maps)) with (clk := clk) (uuids := uuids) (st := st)
    as (created & st' & Hrun & Hall & Hkeep & Hmiss & Hagain).
  - intros t m (Hp & _). rewrite /is_template /is_string Hp /=. split; [|by apply bool_decide_true].
    rewrite bool_decide_true // bool_decide_true //.
  - done.
  - exists created, st'. split_and!; try done.
    apply (publishes_unpaid _ _ Hall). apply Forall_fmap, Forall_forall.
    intros t [Ht _]%elem_of_wanted. by apply (starter_templates_unpaid c maps).
Qed.

(** Publishing the mission pack of a stage adds one open mission, paying no watt, for
    each template that had none, and keeps every mission of the board as it was. Afterwards
    no template is missing, and publishing the pack again changes nothing. *)
Theorem pack_bootstrap_spec clk uuids controller c stage maps g st :
  fresh uuids 0 st →
  ∃ created st', bootstrap_mission_pack clk uuids controller c stage maps g st = (Ok created, st')
    ∧ Forall unpaid created
    ∧ length created
      = length (List.filter (λ t, bool_decide (gt_template_id t
                   ∈ pk_missing_template_ids (mission_pack_set controller c stage maps g st)))
                 (pk_templates (mission_pack_set controller c stage maps g st)))
    ∧ (∀ id m, missions st !! id = Some m → missions st' !! id = Some m)
    ∧ pk_missing_template_ids (mission_pack_set controller c stage maps g st') = []
    ∧ ∀ clk' uuids', bootstrap_mission_pack clk' uuids' controller c stage maps g st' = (Ok [], st').
Proof.
  intros Hf. set (ts := templates_for_stage c stage (locate_anchor c maps) g).
  destruct (boot_run gt_template_id "game_pack_template_id"
    (λ m, bool_decide (as_str (json_index (payload m) "game_pack_owner_agent_did") = Some controller)
      && bool_decide (as_str (json_index (payload m) "game_pack_stage") = Some (stage_label stage))
      && is_string (json_index (payload m) "game_pack_template_id"))
    (pack_spec controller c stage) ts) with (clk := clk) (uuids := uuids) (st := st)
    as (created & st' & Hrun & Hall & Hkeep & Hmiss & Hagain).
  - intros t m (Hp & _). rewrite /is_template /is_string Hp /=. split; [|by apply bool_decide_true].
    rewrite !bool_decide_true //.
  - done.
  - destruct (publishes_unpaid _ _ Hall) as [Hun Hlen].
    { apply Forall_fmap, Forall_forall. intros t [Ht _]%elem_of_wanted.
      by apply (pack_templates_unpaid c stage (locate_anchor c maps) g). }
    exists created, st'. split_and!; try done. rewrite Hlen length_fmap. f_equal.
    apply List.filter_ext. intros t. symmetry. apply eq_true_iff_eq. rewrite bool_decide_eq_true existsb_exists. split.
    + intros Hin. eexists. split; [by apply list_elem_of_In|apply String.eqb_refl].
    + by intros (x & Hx%list_elem_of_In & ->%String.eqb_eq).
Qed.
End specs.

(** ** The first steps of a citizen *)

Module Bootstrap.
Import Starter Pack.

Record BootstrapStep := mkBootstrapStep {
  bs_key : string;
  bs_title : string;
  bs_complete : bool;
  bs_progress_pct : Z;
  bs_summary : string;
}.
Record BootstrapState := mkBootstrapState {
  current_phase : string;
  bst_progress_pct : Z;
  current_focus : string;
  bst_steps : list BootstrapStep;
}.
Inductive BootstrapActionKind := ApiCall | OpenScreen.
Record BootstrapActionCard := mkBootstrapActionCard {
  ac_key : string;
  ac_title : string;
  ac_summary : string;
  ac_ready : bool;
  ac_progress_pct : Z;
  ac_kind : BootstrapActionKind;
  ac_target : string;
  ac_method : option string;
  ac_payload : option json;
}.
Record BootstrapFlow := mkBootstrapFlow {
  bf_state : BootstrapState;
  first_hour_focus : string;
  first_hour_plan : list string;
  first_cycle_focus : string;
  first_cycle_plan : list string;
  action_cards : list BootstrapActionCard;
}.

Definition starter_count (board : MissionBoard) (controller : string) (s : option MissionStatus) : nat :=
  length (List.filter (λ m, bool_decide (as_str (json_index (payload m) "starter_owner_agent_did")
                                         = Some controller)) (list_missions board s)).

Definition step (key title : string) (complete : bool) (summary : string) : BootstrapStep :=
  mkBootstrapStep key title complete (if complete then 100 else 0) summary.
Definition count_step (key title : string) (current required : nat) (summary : string)
    : BootstrapStep :=
  let required := Nat.max required 1 in
  mkBootstrapStep key title (required <=? current)%nat
    (pct_or_100 (Z.of_nat (Nat.min current required) * 100 / Z.of_nat required)) summary.

(** The identity is read only for its presence. *)
Definition compute_bootstrap_state (controller : string) (has_identity : bool) (st : GameStatus)
    (board : MissionBoard) : BootstrapState :=
  let open_starters := starter_count board controller (Some Missions.Open) in
  let claimed_starters := starter_count board controller (Some Claimed) in
  let settled_starters := starter_count board controller (Some Settled) in
  let steps :=
    [step "create_identity" "Create a public identity" has_identity
       "This public identity needs to be bound and initialized before it can act meaningfully inside the galaxy network.";
     step "set_home_anchor" "Bind to a home anchor" (bool_decide (is_Some (home_anchor st)))
       "Choose a home subnet or home zone so the rest of your progression can attach to a real place.";
     count_step "bootstrap_starters" "Generate starter missions"
       (open_starters + claimed_starters + settled_starters) 2
       "Starter missions are the first role-specific contracts that teach your operating loop.";
     count_step "claim_starter" "Claim your first starter mission"
       (claimed_starters + settled_starters) 1
       "Claiming a mission starts the real loop: identity, work, and public progress.";
     count_step "settle_starter" "Settle your first starter mission" settled_starters 1
       "Settlement is the first proof that your role can convert work into durable influence.";
     step "reach_foothold" "Reach foothold stage" (negb (bool_decide (gst_stage st = Survival)))
       "Move beyond basic survival and into repeatable operation inside the galaxy."] in
  let completed := Z.of_nat (length (List.filter bs_complete steps)) in
  let pct := pct_or_100 (completed * 100 / Z.of_nat (length steps)) in
  let focus := match find_first (λ s, negb (bs_complete s)) steps with
               | Some s => bs_title s
               | None => "Expand from foothold into broader influence."%string
               end in
  let phase := (if (pct <? 50)%Z then "introduction"
                else if (pct <? 100)%Z then "activation" else "operational")%string in
  mkBootstrapState phase pct focus steps.

Definition completion_progress (b : bool) : Z := if b then 100 else 0.

Definition public_id_payload (public_id : option string) : json :=
  JObject [("public_id", json_of_option JString public_id)].

Definition bootstrap_action_cards (public_id : option string) (st : GameStatus)
    (b : BootstrapState) (starters : option StarterMissionSet) (pack : option GameMissionPack)
    : list BootstrapActionCard :=
  let first_open := set ← starters;
                    mission_id <$> find_first (λ m, bool_decide (status m = Missions.Open)) (existing set) in
  let starter_missing := from_option (λ s, length (missing_template_ids s)) 0%nat starters in
  let pack_missing := from_option (λ p, length (pk_missing_template_ids p)) 0%nat pack in
  let has_settled :=
    is_some_and bs_complete (find_first (λ s, String.eqb (bs_key s) "settle_starter") (bst_steps b)) in
  let anchored := bool_decide (is_Some (home_anchor st)) in
  let identified := bool_decide (is_Some public_id) in
  [mkBootstrapActionCard "open_briefing" "Read your operator briefing"
     "Start every supervision cycle by reading the current briefing and emergency profile for your home anchor."
     true 100 OpenScreen "supervision_home" None None;
   mkBootstrapActionCard "open_galaxy_map" "Inspect your home anchor on the galaxy map"
     "Use the genesis map to understand which system, planet, and route your first work attaches to."
     anchored (if anchored then 100 else 0) OpenScreen "galaxy_map" None None;
   mkBootstrapActionCard "bootstrap_starter_missions" "Bootstrap starter mission chain"
     (from_option (λ s, chain_summary (objective_chain s))
        "Generate the role-specific contracts that teach the first operating loop."%string starters)
     (identified && anchored) (completion_progress (starter_missing =? 0)%nat) ApiCall
     "/v1/game/starter-missions/bootstrap" (Some "POST"%string) (Some (public_id_payload public_id));
   mkBootstrapActionCard "claim_first_starter" "Claim your first starter contract"
     "Move from setup into action by claiming one starter mission tied to your home anchor."
     (bool_decide (is_Some first_open))
     (completion_progress (has_settled || (0 <? active_missions st)%nat)) OpenScreen "missions" None
     ((λ id, JObject [("mission_id", JString id)]) <$> first_open);
   mkBootstrapActionCard "bootstrap_stage_pack" "Bootstrap your current stage mission pack"
     "Once starter work is flowing, generate the next set of role and civic missions for your current stage."
     (identified && has_settled) (completion_progress (pack_missing =? 0)%nat) ApiCall
     "/v1/game/mission-pack/bootstrap" (Some "POST"%string) (Some (public_id_payload public_id));
   mkBootstrapActionCard "review_governance_journey" "Review your governance journey"
     "See which civic gates still separate your current role from formal governance participation."
     true (completion_progress (can_enter_governance st)) OpenScreen "governance" None None].

Definition compute_bootstrap_flow (public_id : option string) (st : GameStatus)
    (b : BootstrapState) (starters : option StarterMissionSet) (pack : option GameMissionPack)
    : BootstrapFlow :=
  let cards := bootstrap_action_cards public_id st b starters pack in
  let from_chain :=
    match starters with
    | Some set =>
        so_title <$> take 2 (List.filter (λ s, so_progress_pct s <? 100) (chain_steps (objective_chain set)))
    | None => []
    end in
  let plan := match from_chain with
              | [] => ac_title <$> take 4 (List.filter ac_ready cards)
              | _ => from_chain
              end in
  mkBootstrapFlow b (current_focus b) plan
    (default "Review the current bootstrap plan."%string (head plan)) plan cards.

Lemma count_step_ok key title current required summary :
  let s := count_step key title current required summary in
  consistent (bs_complete s) (bs_progress_pct s).
Proof. apply (count_objective_ok key title current required summary). Qed.

(** Each of the six first steps carries a percentage that is full exactly when the
    step is done, and the phase is operational exactly when all of them are. *)
Theorem bootstrap_state_spec controller has_identity st board :
  let b := compute_bootstrap_state controller has_identity st board in
  Forall (λ s, consistent (bs_complete s) (bs_progress_pct s)) (bst_steps b)
  ∧ (current_phase b = "operational"%string ↔ forallb bs_complete (bst_steps b) = true)
  ∧ 0 ≤ bst_progress_pct b ≤ 100.
Proof.
  cbn zeta. set (b := compute_bootstrap_state _ _ _ _).
  assert (length (bst_steps b) = 6%nat) as Hlen by done.
  set (done := Z.of_nat (length (List.filter bs_complete (bst_steps b)))).
  assert (0 ≤ done ≤ 6) as Hdone.
  { pose proof (List.filter_length_le bs_complete (bst_steps b)). lia. }
  destruct (ratio_bounds done 6) as [Hb He]; [lia..|].
  assert (bst_progress_pct b = done * 100 / 6) as Hpct by (apply pct_or_100_id; done).
  split; [|split; [|by rewrite Hpct]].
  - repeat constructor; try apply count_step_ok; apply (bool_objective_ok "" "" _ "").
  - assert (forallb bs_complete (bst_steps b) = true ↔ done = 6) as ->.
    { rewrite /done. clearbody b. revert Hlen. clear.
      assert (∀ l : list BootstrapStep, forallb bs_complete l = true
        ↔ length (List.filter bs_complete l) = length l) as Hl.
      { induction l as [|s l IH]; cbn; [done|]. destruct (bs_complete s); cbn; [rewrite IH; lia|].
        pose proof (List.filter_length_le bs_complete l). split; [done|lia]. }
      intros Hlen. rewrite Hl Hlen. lia. }
    rewrite -He -Hpct. change (current_phase b) with
      ((if (bst_progress_pct b <? 50)%Z then "introduction"
        else if (bst_progress_pct b <? 100)%Z then "activation" else "operational")%string).
    destruct (Z.ltb_spec (bst_progress_pct b) 50); [split; [done|lia]|].
    destruct (Z.ltb_spec (bst_progress_pct b) 100); [split; [done|lia]|]. split; [lia|done].
Qed.

(** *** Where the reports and the board disagree *)

Module BootstrapScenario.
Import GameScenario.

Definition ids (n : nat) : string := "m" +:+ show_Z (Z.of_nat n).
Definition started : MissionBoard :=
  exec (bootstrap_starter_missions clk ids "did:a" citizen maps) default_board.
Definition claimed : MissionBoard := exec (claim clk "m0" "did:a") started.
Definition completed : MissionBoard := exec (complete clk "m0" "did:a" None) claimed.
Definition steps_of (board : MissionBoard) : list bool :=
  bs_complete <$> bst_steps (compute_bootstrap_state "did:a" true (status_at 0) board).

(** Completing a starter mission takes first steps back: while a mission is completed
    and not yet settled, no step counts it, so "claim your first starter mission" and
    "generate starter missions" turn from done to not done. *)
Theorem completing_loses_progress :
  steps_of claimed = [true; true; true; true; false; true]
  ∧ steps_of completed = [true; true; false; false; false; true].
Proof. split; vm_compute; reflexivity. Qed.

Definition cancelled : MissionBoard := exec (cancel clk "m0") started.

(** A cancelled starter mission cannot be replaced: the chain shows its step as
    missing, yet its template does not count as missing, so publishing the chain again
    creates nothing. *)
Theorem cancelled_starter_stuck :
  (so_state <$> chain_steps (objective_chain (starter_mission_set "did:a" citizen maps cancelled)))
    = [Missing; SOpen]
  ∧ missing_template_ids (starter_mission_set "did:a" citizen maps cancelled) = []
  ∧ outcome (bootstrap_starter_missions clk (λ n, ids (n + 10)) "did:a" citizen maps) cancelled = Ok [].
Proof. split_and!; vm_compute; reflexivity. Qed.

(** A crisis in the home zone of another citizen. *)
Definition settler : CitizenProfile :=
  mkCitizenProfile "did:b" Order Broker Balanced None (Some "frontier-belt"%string) 0.
Definition crisis : GalaxyState :=
  exec (publish_event clk "ev-7" Political "frontier-belt" "Unrest" "Unrest" 8 None [])
    default_with_core_zones.
Definition crisis_pack : GameMissionPack :=
  mission_pack_set "did:b" settler Survival maps crisis default_board.

(** The mission that answers a galaxy event suggests, as the event it comes from, the
    id of its own template, not the id of the event. *)
Theorem event_payload_names_template :
  (λ t, (gt_template_id t, as_str (json_index (suggested_payload t) "event_id")))
    <$> List.filter (λ t, bool_decide (phase t = EventPhase)) (pk_templates crisis_pack)
  = [("event-survival-ev-7", Some "event-survival-ev-7")]%string
  ∧ event_id <$> events crisis (Some "frontier-belt"%string) = ["ev-7"%string].
Proof. split; vm_compute; reflexivity. Qed.

Lemma ids_fresh : fresh ids 0 default_board.
Proof.
  split; [|done]. intros i j E. rewrite /ids in E. apply (f_equal to_bytes) in E.
  rewrite !to_bytes_app in E. apply app_inv_head in E. apply to_bytes_inj in E.
  rewrite /show_Z in E. apply (inj pretty) in E. lia.
Qed.

Lemma pack_bootstrap_spec_witness :
  ∃ created st', bootstrap_mission_pack clk ids "did:b" settler Survival maps crisis default_board
    = (Ok created, st') ∧ Forall unpaid created.
Proof.
  destruct (pack_bootstrap_spec clk ids "did:b" settler Survival maps crisis default_board ids_fresh)
    as (created & st' & Hrun & Hun & _).
  exists created, st'. split; [exact Hrun|exact Hun].
Defined.
End BootstrapScenario.
End Bootstrap.
