(* ===== verification/Space.v ===== *)
(** * Spaces

    [K/space]: the package of a space with its grid and places, its validation,
    the shortest walks on the grid, and the catalog of spaces. Tiles are pairs of
    [u32] coordinates as natural numbers; SHA-256 and the canonical JSON form are
    the classes of [Signing] and [Hashcash]. *)

From S2P Require Import Prelude Collections Text Json Signing Hashcash.
#[local] Open Scope N_scope.
#[local] Set Default Proof Using "Type*".

(** ** Data *)

Abbreviation tile := (N * N)%type (only parsing).

Inductive PlaceKind := World | Sector | Arena | GameObject.
#[global] Instance PlaceKind_eq_dec : EqDecision PlaceKind.
Proof. solve_decision. Defined.

Record PlaceName := mkPlaceName { pn_en : string; pn_zh : string }.

Record Place := mkPlace {
  place_id : string;
  parent_place_id : option string;
  place_kind : PlaceKind;
  place_name : PlaceName;
  tiles : list tile;
}.

Record Portal := mkPortal {
  portal_id : string;
  source_place_id : string;
  target_space_id : string;
  target_place_id : string;
}.

Record ServiceBinding := mkServiceBinding {
  sb_place_id : string;
  sb_agent_id : string;
}.

Record SpacePackage := mkSpacePackage {
  space_id : string;
  space_version : string;
  width : N;
  height : N;
  tile_size : N;
  walkable_grid : list (list N);
  places : list Place;
  spawn_place_id : string;
  walk_speed : f64;
  movement_search_radius : option N;
  service_bindings : list ServiceBinding;
  portals : list Portal;
}.

(** [crates/gateway-contract/src/space.rs] *)
Record SpacePresenceRecord := mkSpacePresenceRecord {
  sr_agent_did : string;
  sr_avatar_id : option N;
  sr_skin_id : option string;
  sr_network_id : string;
  sr_space_id : string;
  sr_space_version : string;
  sr_entered : bool;
  sr_seq : N;
  sr_from_tile : tile;
  sr_path : string;
  sr_depart_at : Z;
  sr_destination_place_id : string;
  sr_activity : string;
  sr_object_place_id : option string;
  sr_updated_at : Z;
}.

Record WorldEvent := mkWorldEvent {
  we_event_id : string;
  we_space_id : string;
  we_title : string;
  we_description : string;
  we_place_id : string;
  we_starts_at : Z;
  we_ends_at : Z;
}.

(** ** Queries *)

Definition is_walkable (p : SpacePackage) (t : tile) : bool :=
  (t.1 <? width p) && (t.2 <? height p)
  && bool_decide (walkable_grid p !! N.to_nat t.2 ≫= (.!! N.to_nat t.1) = Some 1).

Definition place (p : SpacePackage) (id : string) : option Place :=
  find_first (λ pl, String.eqb (place_id pl) id) (places p).

Definition kind_rank (k : PlaceKind) : Z :=
  match k with World => 0 | Sector => 1 | Arena => 2 | GameObject => 3 end.

Definition places_at_tile (p : SpacePackage) (t : tile) : list Place :=
  sort_by (λ l r,
    match Z.compare (kind_rank (place_kind l)) (kind_rank (place_kind r)) with
    | Lt => true
    | Eq => str_leb (place_id l) (place_id r)
    | Gt => false
    end) (List.filter (λ pl, bool_decide (t ∈ tiles pl)) (places p)).

Definition place_at_tile (p : SpacePackage) (t : tile) : option Place :=
  last (places_at_tile p t).

(** ** Validation *)

(** [f64::is_finite] and [> 0.0], on the bit pattern. *)
Definition positive_finite (x : f64) : bool :=
  ((0 <? x) && (x <? 0x7FF0000000000000))%Z.

Fixpoint validate_places (p : SpacePackage) (ids : gset string) (l : list Place) : result unit :=
  match l with
  | [] => Ok tt
  | pl :: l' =>
      _ ← ensure_ok (negb (is_blank (place_id pl)) && negb (bool_decide (place_id pl ∈ ids)))
            "place IDs must be nonempty and unique";
      _ ← ensure_ok (negb (bool_decide (tiles pl = [])))
            ("place " +:+ place_id pl +:+ " has no tiles");
      _ ← ensure_ok (forallb (is_walkable p) (tiles pl))
            ("place " +:+ place_id pl +:+ " contains blocked or out-of-bounds tiles");
      _ ← ensure_ok (bool_decide (size (list_to_set (C := gset (N * N)) (tiles pl)) = length (tiles pl)))
            ("place " +:+ place_id pl +:+ " contains duplicate tiles");
      validate_places p ({[place_id pl]} ∪ ids) l'
  end.

Definition expected_parent_kind (k : PlaceKind) : option PlaceKind :=
  match k with
  | World => None
  | Sector => Some World
  | Arena => Some Sector
  | GameObject => Some Arena
  end.

Definition validate_parent (p : SpacePackage) (pl : Place) : result unit :=
  match parent_place_id pl with
  | Some id =>
      parent ← ok_or "unknown parent place" (place p id);
      expected ← ok_or "world must not have a parent" (expected_parent_kind (place_kind pl));
      _ ← ensure_ok (bool_decide (place_kind parent = expected)) "invalid place hierarchy";
      ensure_ok (forallb (λ t, bool_decide (t ∈ tiles parent)) (tiles pl))
        ("place " +:+ place_id pl +:+ " contains tiles outside its parent")
  | None =>
      ensure_ok (bool_decide (place_kind pl = World) && String.eqb (place_id pl) (space_id p))
        "root place must be the space world"
  end.

Definition validate_binding (p : SpacePackage) (b : ServiceBinding) : result unit :=
  _ ← ensure_ok (bool_decide (is_Some (place p (sb_place_id b)))) "unknown binding place";
  ensure_ok (negb (is_blank (sb_agent_id b))) "binding agent ID is required".

Fixpoint validate_portals_from (p : SpacePackage) (ids : gset string) (l : list Portal)
    : result unit :=
  match l with
  | [] => Ok tt
  | portal :: l' =>
      _ ← ensure_ok (negb (is_blank (portal_id portal)) && negb (bool_decide (portal_id portal ∈ ids)))
            "portal IDs must be nonempty and unique";
      _ ← ensure_ok (bool_decide (is_Some (place p (source_place_id portal))))
            "unknown portal source place";
      _ ← ensure_ok (negb (is_blank (target_space_id portal))) "portal target space is required";
      _ ← ensure_ok (negb (is_blank (target_place_id portal))) "portal target place is required";
      validate_portals_from p ({[portal_id portal]} ∪ ids) l'
  end.
Definition validate_portals (p : SpacePackage) : result unit :=
  validate_portals_from p ∅ (portals p).

(** The derived serializer, without the member [space_version]. *)
Definition json_of_N (n : N) : json := JNumber (PosInt (Z.of_N n)).
Definition tile_json (t : tile) : json := JArray [json_of_N t.1; json_of_N t.2].
Definition kind_json (k : PlaceKind) : json :=
  JString match k with
    | World => "world" | Sector => "sector" | Arena => "arena" | GameObject => "game_object"
    end.
Definition place_json (pl : Place) : json :=
  JObject [("place_id", JString (place_id pl));
           ("parent_place_id", json_of_option JString (parent_place_id pl));
           ("kind", kind_json (place_kind pl));
           ("name", JObject [("en", JString (pn_en (place_name pl)));
                             ("zh", JString (pn_zh (place_name pl)))]);
           ("tiles", JArray (tile_json <$> tiles pl))].
Definition portal_json (x : Portal) : json :=
  JObject [("portal_id", JString (portal_id x)); ("source_place_id", JString (source_place_id x));
           ("target_space_id", JString (target_space_id x));
           ("target_place_id", JString (target_place_id x))].
Definition binding_json (b : ServiceBinding) : json :=
  JObject [("place_id", JString (sb_place_id b)); ("agent_id", JString (sb_agent_id b))].
Definition package_content (p : SpacePackage) : json :=
  JObject
    ([("space_id", JString (space_id p));
      ("size", JArray [json_of_N (width p); json_of_N (height p)]);
      ("tile_size", json_of_N (tile_size p));
      ("walkable_grid", JArray ((λ row, JArray (json_of_N <$> row)) <$> walkable_grid p));
      ("places", JArray (place_json <$> places p));
      ("spawn_place_id", JString (spawn_place_id p));
      ("walk_speed", JNumber (Float (walk_speed p)))]
     ++ match movement_search_radius p with
        | Some r => [("movement_search_radius", json_of_N r)]
        | None => []
        end
     ++ [("service_bindings", JArray (binding_json <$> service_bindings p))]
     ++ match portals p with
        | [] => []
        | _ => [("portals", JArray (portal_json <$> portals p))]
        end).

Definition grid_ok (p : SpacePackage) : bool :=
  bool_decide (length (walkable_grid p) = N.to_nat (height p))
  && forallb (λ row, bool_decide (length row = N.to_nat (width p)) && forallb (λ c, c <=? 1) row)
       (walkable_grid p).

Section validation.
Context `{Crypto}.

Definition validate (p : SpacePackage) : result unit :=
  _ ← ensure_ok (negb (is_blank (space_id p))) "space ID is required";
  _ ← ensure_ok ((0 <? width p) && (0 <? height p)) "space size is empty";
  _ ← ensure_ok (0 <? tile_size p) "tile size is zero";
  _ ← ensure_ok (positive_finite (walk_speed p)) "walk speed must be positive and finite";
  _ ← ensure_ok (grid_ok p) "walkable grid does not match space size or contains invalid cells";
  _ ← validate_places p ∅ (places p);
  _ ← collect (validate_parent p) (places p);
  _ ← ensure_ok (bool_decide (is_Some (place p (space_id p)))) "space world place is missing";
  _ ← ok_or "spawn place is unknown" (place p (spawn_place_id p));
  _ ← collect (validate_binding p) (service_bindings p);
  _ ← validate_portals p;
  content ← jcs_to_string (package_content p);
  ensure_ok (String.eqb (space_version p) ("sha256:" +:+ sha256_hex content))
    "space version does not match package content".
End validation.

(** ** Moving on the grid *)

Definition DIRECTIONS : list ascii := ["U"; "R"; "D"; "L"]%char.

Definition checked_pred (n : N) : option N := if n =? 0 then None else Some (n - 1).
Definition checked_succ (n : N) : option N :=
  if n + 1 <? 2 ^ 32 then Some (n + 1) else None.

Definition step (p : SpacePackage) (t : tile) (direction : ascii) : option tile :=
  let '(x, y) := t in
  next ← (if Ascii.eqb direction "U" then y' ← checked_pred y; Some (x, y')
          else if Ascii.eqb direction "R" then x' ← checked_succ x; Some (x', y)
          else if Ascii.eqb direction "D" then y' ← checked_succ y; Some (x, y')
          else if Ascii.eqb direction "L" then x' ← checked_pred x; Some (x', y)
          else None);
  if is_walkable p next then Some next else None.

(** The walk along a string of directions. *)
Fixpoint follow (p : SpacePackage) (t : tile) (path : list ascii) : option tile :=
  match path with
  | [] => Some t
  | direction :: path' => next ← step p t direction; follow p next path'
  end.

Definition validate_record_geometry (p : SpacePackage) (r : SpacePresenceRecord) : result unit :=
  _ ← ensure_ok (String.eqb (sr_space_id r) (space_id p)) "space ID mismatch";
  _ ← ensure_ok (negb (is_blank (sr_agent_did r))) "agent DID is required";
  _ ← ensure_ok (0 <? sr_seq r) "presence sequence must be positive";
  _ ← ensure_ok (is_walkable p (sr_from_tile r)) "presence starts on blocked or out-of-bounds tile";
  destination ← ok_or "unknown destination place" (place p (sr_destination_place_id r));
  t ← ok_or "presence path leaves the walkable grid"
        (follow p (sr_from_tile r) (to_bytes (sr_path r)));
  _ ← ensure_ok (bool_decide (t ∈ tiles destination))
        "presence path does not end at destination place";
  match sr_object_place_id r with
  | Some id =>
      object ← ok_or "unknown object place" (place p id);
      _ ← ensure_ok (bool_decide (place_kind object = GameObject))
            "activity object must be a game object";
      ensure_ok (bool_decide (t ∈ tiles object)) "activity object is not at destination tile"
  | None => Ok tt
  end.

Definition validate_record (p : SpacePackage) (r : SpacePresenceRecord) : result unit :=
  _ ← ensure_ok (String.eqb (sr_space_id r) (space_id p)) "space ID mismatch";
  _ ← ensure_ok (String.eqb (sr_space_version r) (space_version p)) "space version mismatch";
  validate_record_geometry p r.

Definition validate_world_event (p : SpacePackage) (e : WorldEvent) : result unit :=
  _ ← ensure_ok (String.eqb (we_space_id e) (space_id p)) "world event space ID mismatch";
  _ ← ensure_ok (negb (is_blank (we_event_id e))) "world event ID is required";
  _ ← ensure_ok (negb (is_blank (we_title e))) "world event title is required";
  _ ← ensure_ok (bool_decide (is_Some (place p (we_place_id e)))) "unknown world event place";
  ensure_ok (we_starts_at e <? we_ends_at e)%Z "world event end must follow start".

(** ** Shortest walks

    [index] and [cell_count] are [usize]: products of two 32-bit numbers fit. *)
Definition index (p : SpacePackage) (t : tile) : nat := N.to_nat (t.2 * width p + t.1).
Definition cell_count (p : SpacePackage) : nat := N.to_nat (width p * height p).

Record search := mkSearch {
  visited : list bool;
  previous : list (option (tile * ascii));
  queue : list tile;
}.

(** The loop over the directions; [inr] when the target is met. *)
Fixpoint expand (p : SpacePackage) (to t : tile) (directions : list ascii) (s : search)
    : search + search :=
  match directions with
  | [] => inl s
  | direction :: ds =>
      match step p t direction with
      | None => expand p to t ds s
      | Some next =>
          if default false (visited s !! index p next) then expand p to t ds s
          else
            let v := <[index p next := true]> (visited s) in
            let pr := <[index p next := Some (t, direction)]> (previous s) in
            if bool_decide (next = to) then inr (mkSearch v pr (queue s))
            else expand p to t ds (mkSearch v pr (queue s ++ [next]))
      end
  end.

(** [while let Some(tile) = queue.pop_front()]; [None] when the fuel is short. *)
Fixpoint search_loop (p : SpacePackage) (to : tile) (fuel : nat) (s : search)
    : option (option search) :=
  match fuel with
  | O => None
  | S fuel' =>
      match queue s with
      | [] => Some None
      | t :: q =>
          match expand p to t DIRECTIONS (mkSearch (visited s) (previous s) q) with
          | inl s' => search_loop p to fuel' s'
          | inr s' => Some (Some s')
          end
      end
  end.

(** The walk back along the predecessors, already reversed. *)
Fixpoint walk_back (p : SpacePackage) (from : tile) (previous : list (option (tile * ascii)))
    (fuel : nat) (cursor : tile) (path : list ascii) : result (list ascii) :=
  if bool_decide (cursor = from) then Ok path
  else
    match fuel with
    | O => Err "out of fuel"
    | S fuel' =>
        match mjoin (previous !! index p cursor) with
        | Some (parent, direction) => walk_back p from previous fuel' parent (direction :: path)
        | None => Err "route predecessor missing"
        end
    end.

Definition path (p : SpacePackage) (from to : tile) : result string :=
  if negb (is_walkable p from && is_walkable p to)
  then Err "route endpoint is blocked or out of bounds"
  else if bool_decide (from = to) then Ok ""
  else
    let n := cell_count p in
    let s := mkSearch (<[index p from := true]> (replicate n false)) (replicate n None) [from] in
    match search_loop p to (S n) s with
    | None => Err "out of fuel"
    | Some None => Err "destination is unreachable from current tile"
    | Some (Some s') => of_bytes <$> walk_back p from (previous s') n to []
    end.

(** ** What can be reached from the spawn place *)

Fixpoint flood_step (p : SpacePackage) (t : tile) (directions : list ascii)
    (reachable : list bool) (q : list tile) : list bool * list tile :=
  match directions with
  | [] => (reachable, q)
  | direction :: ds =>
      match step p t direction with
      | None => flood_step p t ds reachable q
      | Some next =>
          if default false (reachable !! index p next) then flood_step p t ds reachable q
          else flood_step p t ds (<[index p next := true]> reachable) (q ++ [next])
      end
  end.

Fixpoint flood (p : SpacePackage) (fuel : nat) (reachable : list bool) (q : list tile)
    : option (list bool) :=
  match fuel with
  | O => None
  | S fuel' =>
      match q with
      | [] => Some reachable
      | t :: q' =>
          let '(reachable', q'') := flood_step p t DIRECTIONS reachable q' in
          flood p fuel' reachable' q''
      end
  end.

(** [min_by_key(|tile| (tile[1], tile[0]))]: the first minimum. *)
Definition tile_leb (a b : tile) : bool := (a.2 <? b.2) || (a.2 =? b.2) && (a.1 <=? b.1).
Fixpoint min_tile (l : list tile) : option tile :=
  match l with
  | [] => None
  | t :: l' =>
      match min_tile l' with
      | Some m => Some (if tile_leb t m then t else m)
      | None => Some t
      end
  end.

Definition spawn_start (p : SpacePackage) : result tile :=
  spawn ← ok_or "unknown spawn place" (place p (spawn_place_id p));
  ok_or "spawn place has no walkable tile"
    (min_tile (List.filter (is_walkable p) (tiles spawn))).

Definition spawn_reachable (p : SpacePackage) : result (list bool) :=
  start ← spawn_start p;
  let n := cell_count p in
  ok_or "out of fuel" (flood p (S n) (<[index p start := true]> (replicate n false)) [start]).

(** Reading a vector out of its bounds panics; a panic is an error here. *)
Definition read_cell (reachable : list bool) (i : nat) : result bool :=
  ok_or "index out of bounds" (reachable !! i).

(** [u64::from_be_bytes] of the first eight bytes. *)
Definition be_u64 (bytes : list Z) : Z := foldl (λ acc b, acc * 256 + b)%Z 0%Z (take 8 bytes).

Fixpoint keep_reachable (p : SpacePackage) (reachable : list bool) (l : list tile)
    : result (list tile) :=
  match l with
  | [] => Ok []
  | t :: l' =>
      b ← read_cell reachable (index p t);
      rest ← keep_reachable p reachable l';
      Ok (if b : bool then t :: rest else rest)
  end.

Section destination.
Context `{Digest}.

Definition destination_tile (p : SpacePackage) (agent_did id : string) : result tile :=
  pl ← ok_or "unknown destination place" (place p id);
  reachable ← spawn_reachable p;
  kept ← keep_reachable p reachable (tiles pl);
  let candidates := sort_by tile_leb kept in
  _ ← ensure_ok (negb (bool_decide (candidates = []))) "place has no tiles reachable from spawn";
  let selector := be_u64 (sha256_digest (agent_did +:+ String newline id)) in
  let i := Z.to_nat (selector mod Z.of_nat (length candidates)) in
  ok_or "index out of bounds" (candidates !! i).
End destination.

(** ** The grid as a graph *)

Section grid.
Context (p : SpacePackage).
Implicit Types (t : N * N) (v : list bool).

Lemma walkable_bounds t : is_walkable p t = true → t.1 < width p ∧ t.2 < height p.
Proof. rewrite /is_walkable. intros H. bool_to_prop. by split; apply N.ltb_lt. Qed.

Lemma index_lt t : is_walkable p t = true → (index p t < cell_count p)%nat.
Proof. intros [Hx Hy]%walkable_bounds. rewrite /index /cell_count. nia. Qed.

Lemma index_inj t1 t2 :
  is_walkable p t1 = true → is_walkable p t2 = true → index p t1 = index p t2 → t1 = t2.
Proof.
  intros [Hx1 _]%walkable_bounds [Hx2 _]%walkable_bounds. rewrite /index. intros E%N2Nat.inj.
  destruct t1 as [x1 y1], t2 as [x2 y2]. cbn [fst snd] in *.
  assert (y1 = y2) as -> by nia. f_equal. lia.
Qed.

Lemma step_walkable t d t' : step p t d = Some t' → is_walkable p t' = true.
Proof.
  rewrite /step. destruct t as [x y]. intros (next & _ & H)%bind_Some.
  destruct (is_walkable p next) eqn:E; [|done]. by injection H as <-.
Qed.

Lemma step_direction t d t' : step p t d = Some t' → d ∈ DIRECTIONS.
Proof.
  rewrite /step /DIRECTIONS. destruct t as [x y].
  destruct (Ascii.eqb_spec d "U"); [subst; intros _; set_solver|].
  destruct (Ascii.eqb_spec d "R"); [subst; intros _; set_solver|].
  destruct (Ascii.eqb_spec d "D"); [subst; intros _; set_solver|].
  destruct (Ascii.eqb_spec d "L"); [subst; intros _; set_solver|]. done.
Qed.

Lemma follow_snoc t l d :
  follow p t (l ++ [d]) = t' ← follow p t l; step p t' d.
Proof.
  revert t. induction l as [|x l IH]; intros t; simpl.
  - by destruct (step p t d).
  - destruct (step p t x); simpl; [apply IH|done].
Qed.

(** *** Marked cells *)

Definition seen v t : Prop := is_walkable p t = true ∧ v !! index p t = Some true.
Definition marks v : nat := length (List.filter id v).

Lemma marks_le v : (marks v ≤ length v)%nat.
Proof. apply List.filter_length_le. Qed.

Lemma marks_insert v i : v !! i = Some false → marks (<[i:=true]> v) = S (marks v).
Proof.
  rewrite /marks. revert i. induction v as [|b v IH]; intros [|i]; cbn; try done.
  - by intros [= ->].
  - intros Hi. destruct b; cbn; rewrite IH //.
Qed.

Section mark.
Context (v : list bool) (next : N * N).
Context (Hlen : length v = cell_count p) (Hw : is_walkable p next = true).
Context (Hnew : default false (v !! index p next) = false).

Lemma unmarked : v !! index p next = Some false.
Proof.
  destruct (lookup_lt_is_Some_2 v (index p next)) as [b Hb].
  { rewrite Hlen. by apply index_lt. }
  pose proof Hnew as Hn. rewrite Hb /= in Hn. by rewrite Hb Hn.
Qed.

Lemma not_seen_new : ¬ seen v next.
Proof. intros [_ H]. by rewrite unmarked in H. Qed.

Lemma seen_mark t : seen (<[index p next := true]> v) t ↔ seen v t ∨ t = next.
Proof.
  split.
  - intros [Ht H]. destruct (decide (index p t = index p next)) as [E|E].
    + right. by apply index_inj.
    + left. split; [done|]. by rewrite list_lookup_insert_ne in H.
  - intros [[Ht H]| ->].
    + split; [done|]. destruct (decide (index p t = index p next)) as [E|E].
      * rewrite E. apply list_lookup_insert_eq. rewrite Hlen. by apply index_lt.
      * by rewrite list_lookup_insert_ne.
    + split; [done|]. apply list_lookup_insert_eq. rewrite Hlen. by apply index_lt.
Qed.

Lemma marks_mark : marks (<[index p next := true]> v) = S (marks v).
Proof. apply marks_insert, unmarked. Qed.
End mark.

Lemma seen_init n t0 t :
  n = cell_count p → is_walkable p t0 = true →
  seen (<[index p t0 := true]> (replicate n false)) t ↔ t = t0.
Proof.
  intros -> H0. rewrite seen_mark; [|by rewrite length_replicate|done|].
  - split; [|by right]. intros [[_ H]|?]; [|done]. by apply lookup_replicate in H as [].
  - by destruct (replicate _ _ !! _) eqn:E; [apply lookup_replicate in E as [-> _]|].
Qed.

Lemma marks_init t0 :
  is_walkable p t0 = true →
  marks (<[index p t0 := true]> (replicate (cell_count p) false)) = 1%nat.
Proof.
  intros H0. rewrite marks_insert.
  - f_equal. rewrite /marks. induction (cell_count p) as [|n IH]; [done|]. exact IH.
  - apply lookup_replicate. split; [done|]. by apply index_lt.
Qed.
End grid.

(** ** Breadth-first search *)

Lemma sorted_depth_ext (d d' : N * N → nat) (l : list (N * N)) :
  StronglySorted (λ a b, (d a ≤ d b)%nat) l → (∀ t, t ∈ l → d' t = d t) →
  StronglySorted (λ a b, (d' a ≤ d' b)%nat) l.
Proof.
  induction 1 as [|x l _ IH Hall]; intros Hd; [constructor|].
  constructor; [apply IH; intros; apply Hd; by right|].
  apply Forall_forall. intros y Hy. rewrite Forall_forall in Hall.
  rewrite !Hd; [by apply Hall|by right|by left].
Qed.

Section bfs.
Context (p : SpacePackage) (from : N * N).
Context (Hfrom : is_walkable p from = true).
Implicit Types (d : N * N → nat) (s : search).

(** The marked cells form a tree of predecessors rooted at [from]; [d] is the depth
    of a cell in it. *)
Record tree d s : Prop := {
  tr_len : length (visited s) = cell_count p;
  tr_plen : length (previous s) = cell_count p;
  tr_root : seen p (visited s) from;
  tr_zero : d from = 0%nat;
  tr_prev t : seen p (visited s) t → t = from ∨
    ∃ q dir, previous s !! index p t = Some (Some (q, dir)) ∧ step p q dir = Some t
             ∧ seen p (visited s) q ∧ d t = S (d q);
  tr_depth t : seen p (visited s) t → (d t < marks (visited s))%nat;
}.

(** The open cells come in the order of their depth, which spans two levels. *)
Record frontier d (op : list (N * N)) s : Prop := {
  fr_seen t : t ∈ op → seen p (visited s) t;
  fr_sorted : StronglySorted (λ a b, (d a ≤ d b)%nat) op;
  fr_spread h t : head op = Some h → t ∈ op → (d t ≤ S (d h))%nat;
  fr_closed t dir nb : seen p (visited s) t → t ∉ op → step p t dir = Some nb →
    seen p (visited s) nb ∧ (d nb ≤ S (d t))%nat;
  fr_before t q : seen p (visited s) t → t ∉ op → q ∈ op → (d t ≤ d q)%nat;
}.

(** Every walk either stays within the marked cells, at their depth or longer, or is
    longer than the depth of some open cell. *)
Lemma walk_depth d op s l t :
  tree d s → frontier d op s → follow p from l = Some t →
  (seen p (visited s) t ∧ (d t ≤ length l)%nat) ∨ ∃ q, q ∈ op ∧ (d q < length l)%nat.
Proof.
  intros Htree Hfr. revert t. induction l as [|dir l IH] using rev_ind; intros t.
  - intros [= <-]. left. split; [apply Htree|]. by rewrite (tr_zero _ _ Htree).
  - rewrite follow_snoc length_app /=. intros (u & Hu & Ht)%bind_Some.
    destruct (IH u Hu) as [[Hs Hd]|(q & Hq & Hd)]; [|right; exists q; split; [done|lia]].
    destruct (decide (u ∈ op)) as [Hop|Hop]; [right; exists u; split; [done|lia]|].
    destruct (fr_closed _ _ _ Hfr u dir t Hs Hop Ht) as [? ?]. left. split; [done|lia].
Qed.

(** *** Marking one cell *)

Definition deepen d (h next : N * N) (t : N * N) : nat :=
  if decide (t = next) then S (d h) else d t.

Section mark_step.
Context (d : N * N → nat) (s : search) (h next : N * N) (dir : ascii).
Context (Htree : tree d s) (Hh : seen p (visited s) h) (Hstep : step p h dir = Some next).
Context (Hnew : default false (visited s !! index p next) = false).

Definition marked (q : list (N * N)) : search :=
  mkSearch (<[index p next := true]> (visited s))
           (<[index p next := Some (h, dir)]> (previous s)) q.

Lemma next_walkable : is_walkable p next = true.
Proof. by eapply step_walkable. Qed.

Lemma marked_seen q t : seen p (visited (marked q)) t ↔ seen p (visited s) t ∨ t = next.
Proof. apply seen_mark; [apply Htree|apply next_walkable|done]. Qed.

Lemma next_fresh : ¬ seen p (visited s) next.
Proof. apply not_seen_new; [apply Htree|apply next_walkable|done]. Qed.

Lemma deepen_old t : seen p (visited s) t → deepen d h next t = d t.
Proof. intros Ht. rewrite /deepen decide_False //. intros ->. by apply next_fresh. Qed.

Lemma marks_marked q : marks (visited (marked q)) = S (marks (visited s)).
Proof. apply (marks_mark p); [apply Htree|apply next_walkable|done]. Qed.

Lemma marked_tree q : tree (deepen d h next) (marked q).
Proof.
  pose proof Htree as [Hlen Hplen Hroot Hzero Hprev Hdepth]. split.
  - by rewrite length_insert.
  - by rewrite length_insert.
  - apply marked_seen. by left.
  - by rewrite deepen_old.
  - intros t [Ht| ->]%marked_seen.
    + destruct (Hprev t Ht) as [->|(u & dr & Hp & Hst & Hu & Hdt)]; [by left|]. right.
      exists u, dr. split_and!; [|done|apply marked_seen; by left|by rewrite !deepen_old].
      cbn. rewrite list_lookup_insert_ne //. intros E. apply next_fresh.
      by rewrite (index_inj p next t next_walkable (proj1 Ht) E).
    + right. exists h, dir. split_and!; [|done|apply marked_seen; by left|].
      * cbn. apply list_lookup_insert_eq. rewrite Hplen. apply index_lt, next_walkable.
      * rewrite (deepen_old h Hh). by rewrite /deepen decide_True.
  - intros t Ht. rewrite marks_marked. apply marked_seen in Ht as [Ht| ->].
    + rewrite deepen_old //. specialize (Hdepth t Ht). lia.
    + rewrite /deepen decide_True //. specialize (Hdepth h Hh). lia.
Qed.

(** The new cell goes to the end of the queue. *)
Lemma marked_frontier q :
  frontier d (h :: q) s → frontier (deepen d h next) (h :: q ++ [next]) (marked (q ++ [next])).
Proof.
  intros [Hseen Hsort Hspread Hclosed Hbefore].
  assert (∀ t, t ∈ h :: q → deepen d h next t = d t) as Hold by (intros; by apply deepen_old, Hseen).
  assert (deepen d h next next = S (d h)) as Hnext by (by rewrite /deepen decide_True).
  assert (∀ t, t ∈ h :: q ++ [next] ↔ t ∈ h :: q ∨ t = next) as Hin.
  { intros t. rewrite !elem_of_cons elem_of_app list_elem_of_singleton. tauto. }
  pose proof (λ t, proj2 (Hin t)) as Hin'.
  split.
  - intros t [Ht| ->]%Hin; apply marked_seen; [left; by apply Hseen|by right].
  - change (h :: q ++ [next]) with ((h :: q) ++ [next]).
    apply StronglySorted_app_2; [| |by repeat constructor].
    + intros a b Ha ->%list_elem_of_singleton. rewrite Hnext Hold //. by apply Hspread.
    + by eapply sorted_depth_ext.
  - intros h' t [= <-] [Ht| ->]%Hin; rewrite (Hold h); try by left.
    + rewrite Hold //. by apply Hspread.
    + by rewrite Hnext.
  - intros t dr nb [Ht| ->]%marked_seen Hn Hst; [|by destruct Hn; apply Hin'; right].
    destruct (Hclosed t dr nb Ht) as [Hs Hd]; [naive_solver|done|].
    split; [apply marked_seen; by left|]. by rewrite !deepen_old.
  - intros t u [Ht| ->]%marked_seen Hn Hu; [|by destruct Hn; apply Hin'; right].
    assert (t ∉ h :: q) as Hn' by naive_solver. rewrite deepen_old //.
    apply Hin in Hu as [Hu| ->]; [rewrite Hold //; by apply Hbefore|].
    rewrite Hnext. etrans; [apply (Hbefore t h); [done|done|by left]|lia].
Qed.
End mark_step.

(** *** Expanding a cell *)

Context (to : N * N).

Definition expanded d (h : N * N) (ds : list ascii) s : Prop :=
  ∀ dr nb, dr ∈ ds → step p h dr = Some nb → seen p (visited s) nb ∧ (d nb ≤ S (d h))%nat.

(** A marked neighbour is at most one level deeper. *)
Lemma seen_neighbour d s h nb :
  frontier d (h :: queue s) s → seen p (visited s) nb → (d nb ≤ S (d h))%nat.
Proof.
  intros Hfr Hnb. destruct (decide (nb ∈ h :: queue s)) as [Hin|Hin].
  - by apply (fr_spread _ _ _ Hfr h).
  - etrans; [apply (fr_before _ _ _ Hfr nb h); [done|done|by left]|lia].
Qed.

Lemma expand_ok d s h dn ds :
  tree d s → frontier d (h :: queue s) s → ¬ seen p (visited s) to → expanded d h dn s →
  match expand p to h ds s with
  | inl s' => ∃ d', tree d' s' ∧ frontier d' (h :: queue s') s' ∧ ¬ seen p (visited s') to
      ∧ expanded d' h (dn ++ ds) s'
      ∧ (marks (visited s') + length (queue s) = marks (visited s) + length (queue s'))%nat
  | inr s' => ∃ d', tree d' s' ∧ seen p (visited s') to
      ∧ ∀ l, follow p from l = Some to → (d' to ≤ length l)%nat
  end.
Proof.
  revert d s dn. induction ds as [|dr ds IH]; intros d s dn Htree Hfr Hto Hdn; cbn [expand].
  { exists d. rewrite app_nil_r. done. }
  rewrite cons_middle app_assoc. destruct (step p h dr) as [next|] eqn:Hst.
  2:{ apply (IH d); [done..|]. intros dr' nb [Hd| ->%list_elem_of_singleton]%elem_of_app Hnb;
        [by apply (Hdn dr')|congruence]. }
  assert (seen p (visited s) h) as Hh by (apply (fr_seen _ _ _ Hfr); by left).
  destruct (default false _) eqn:Hnew.
  - apply (IH d); [done..|]. intros dr' nb [Hd| ->%list_elem_of_singleton]%elem_of_app Hnb;
      [by apply (Hdn dr')|]. rewrite Hst in Hnb. injection Hnb as <-.
    assert (seen p (visited s) next) as Hseen.
    { split; [by eapply step_walkable|]. by destruct (visited s !! _) as [[]|]. }
    split; [done|]. by eapply seen_neighbour.
  - case_bool_decide as Hgoal.
    + subst next. exists (deepen d h to). split_and!.
      * by apply (marked_tree d s h to dr).
      * apply (marked_seen d s h to dr Htree Hh Hst Hnew). by right.
      * intros l Hl. rewrite /deepen decide_True //.
        destruct (walk_depth d (h :: queue s) s l to Htree Hfr Hl) as [[? _]|(q & Hq & Hd)]; [done|].
        assert (d h ≤ d q)%nat; [|lia]. apply elem_of_cons in Hq as [->|Hq]; [done|].
        pose proof (fr_sorted _ _ _ Hfr) as Hs. apply StronglySorted_inv in Hs as [_ Hs].
        rewrite Forall_forall in Hs. by apply Hs.
    + set (q' := queue s ++ [next]).
      specialize (IH (deepen d h next) (marked s h next dr q') (dn ++ [dr])).
      match type of IH with _ → _ → _ → _ → ?G => assert G as Hg end.
      { apply IH; clear IH.
        - by apply (marked_tree d s h next dr).
        - by apply (marked_frontier d s h next dr).
        - rewrite (marked_seen d s h next dr Htree Hh Hst Hnew). intros [?|?]; [done|congruence].
        - intros dr' nb [Hd| ->%list_elem_of_singleton]%elem_of_app Hnb.
          + destruct (Hdn dr' nb Hd Hnb) as [Hs Hd']. split; [apply (marked_seen d s h next dr Htree Hh Hst Hnew); auto|].
            by rewrite !(deepen_old d s h next dr Htree Hh Hst Hnew).
          + rewrite Hst in Hnb. injection Hnb as <-. split; [apply (marked_seen d s h next dr Htree Hh Hst Hnew); auto|].
            rewrite (deepen_old d s h next dr Htree Hh Hst Hnew h Hh). by rewrite /deepen decide_True. }
      clear IH. rewrite /marked in Hg.
      destruct (expand _ _ _ _ _) as [s'|s']; [|done].
      destruct Hg as (d' & ? & ? & ? & ? & Hm). exists d'. split_and!; try done.
      change (mkSearch _ _ q') with (marked s h next dr q') in Hm.
      rewrite (marks_marked d s h next dr Htree Hh Hst Hnew) in Hm. rewrite /q' length_app /= in Hm.
      lia.
Qed.

(** *** The whole search *)

(** After its four directions a cell is closed. *)
Lemma close_head d s h :
  frontier d (h :: queue s) s → expanded d h DIRECTIONS s → frontier d (queue s) s.
Proof.
  intros [Hseen Hsort Hspread Hclosed Hbefore] Hexp.
  apply StronglySorted_inv in Hsort as [Hsort Hle]. rewrite Forall_forall in Hle.
  assert (∀ t, seen p (visited s) t → t ∉ queue s → t = h ∨ t ∉ h :: queue s) as Hcase.
  { intros t Ht Hn. destruct (decide (t = h)); [by left|right]. by apply not_elem_of_cons. }
  split.
  - intros t Ht. apply Hseen. by right.
  - done.
  - intros h' t Hh' Ht. assert (h' ∈ queue s) as Hin by (by destruct (queue s); simplify_eq/=; left).
    specialize (Hspread h t eq_refl ltac:(by right)). specialize (Hle h' Hin). lia.
  - intros t dir nb Ht Hn Hst. destruct (Hcase t Ht Hn) as [->|Hn']; [|by apply (Hclosed t dir)].
    apply (Hexp dir); [by eapply step_direction|done].
  - intros t q Ht Hn Hq. destruct (Hcase t Ht Hn) as [->|Hn']; [by apply Hle|].
    apply Hbefore; [done..|by right].
Qed.

Lemma search_loop_ok fuel d s :
  tree d s → frontier d (queue s) s → ¬ seen p (visited s) to →
  (cell_count p - marks (visited s) + length (queue s) < fuel)%nat →
  match search_loop p to fuel s with
  | None => False
  | Some None => ∀ l, follow p from l ≠ Some to
  | Some (Some s') => ∃ d', tree d' s' ∧ seen p (visited s') to
      ∧ ∀ l, follow p from l = Some to → (d' to ≤ length l)%nat
  end.
Proof.
  revert d s. induction fuel as [|fuel IH]; intros d s Htree Hfr Hto Hfuel; [lia|].
  cbn [search_loop]. destruct (queue s) as [|h q] eqn:Hq.
  { intros l Hl. destruct (walk_depth d [] s l to Htree Hfr Hl) as [[? _]|(u & Hu & _)]; [done|].
    by apply elem_of_nil in Hu. }
  set (s0 := mkSearch (visited s) (previous s) q).
  assert (tree d s0) as Htree0 by (by destruct Htree; split).
  assert (frontier d (h :: queue s0) s0) as Hfr0 by (by destruct Hfr; split).
  pose proof (expand_ok d s0 h [] DIRECTIONS Htree0 Hfr0 Hto ltac:(by intros dr nb ?%elem_of_nil)) as Hexp.
  destruct (expand p to h DIRECTIONS s0) as [s'|s']; [|done].
  destruct Hexp as (d' & Htree' & Hfr' & Hto' & Hd' & Hm).
  apply (IH d'); [done|by eapply close_head|done|].
  pose proof (marks_le (visited s')) as Hle. rewrite (tr_len _ _ Htree') in Hle.
  cbn [visited queue s0] in Hm. simpl in Hfuel. lia.
Qed.

Lemma walk_back_ok d s fuel t acc :
  tree d s → seen p (visited s) t → (d t ≤ fuel)%nat →
  ∃ l, walk_back p from (previous s) fuel t acc = Ok (l ++ acc) ∧ follow p from l = Some t
       ∧ length l = d t.
Proof.
  intros Htree. revert t acc. induction fuel as [|fuel IH]; intros t acc Ht Hd.
  - assert (t = from) as ->.
    { destruct (tr_prev _ _ Htree t Ht) as [?|(? & ? & _ & _ & _ & ?)]; [done|lia]. }
    exists []. cbn. rewrite bool_decide_true //. by rewrite (tr_zero _ _ Htree).
  - cbn [walk_back]. case_bool_decide as Hf.
    + subst t. exists []. by rewrite (tr_zero _ _ Htree).
    + destruct (tr_prev _ _ Htree t Ht) as [?|(q & dir & Hp & Hst & Hq & Hdt)]; [done|].
      rewrite Hp /=. destruct (IH q (dir :: acc) Hq) as (l & Hl & Hfl & Hlen); [lia|].
      exists (l ++ [dir]). rewrite Hl -app_assoc follow_snoc Hfl length_app /=. split_and!; [done|done|lia].
Qed.
End bfs.

Lemma to_of_bytes l : to_bytes (of_bytes l) = l.
Proof. apply String.list_ascii_of_string_of_list_ascii. Qed.

Lemma length_of_bytes l : String.length (of_bytes l) = length l.
Proof. induction l; cbn; [done|]. by f_equal. Qed.

(** Between two different walkable tiles. *)
Lemma path_run p from to :
  is_walkable p from = true → is_walkable p to = true →
  match path p from to with
  | Ok w =>
      follow p from (to_bytes w) = Some to
      ∧ ∀ l, follow p from l = Some to → (String.length w ≤ length l)%nat
  | Err e =>
      e = "destination is unreachable from current tile"%string
      ∧ ∀ l, follow p from l ≠ Some to
  end.
Proof.
  intros Hf Ht. rewrite /path Hf Ht. cbn [andb negb].
  case_bool_decide as Heq; [subst; split; [done|]; intros; cbn; lia|].
  pose proof (index_lt p from Hf) as Hpos. set (s := mkSearch _ _ [from]).
  assert (tree p from (λ _, 0%nat) s) as Htree.
  { split; cbn [visited previous queue s].
    - by rewrite length_insert length_replicate.
    - by rewrite length_replicate.
    - by apply seen_init.
    - done.
    - intros t Hs. left. by apply (seen_init p (cell_count p) from t).
    - intros t _. rewrite marks_init //. lia. }
  assert (frontier p (λ _, 0%nat) (queue s) s) as Hfr.
  { split; cbn [visited previous queue s].
    - intros t ->%list_elem_of_singleton. by apply seen_init.
    - by repeat constructor.
    - intros. lia.
    - intros t dir nb Hs%(seen_init p (cell_count p) from t) Hn; [|done..]. destruct Hn. subst. by left.
    - intros. lia. }
  assert (¬ seen p (visited s) to) as Hto by (intros H%(seen_init p (cell_count p) from to); done).
  pose proof (search_loop_ok p from Hf to (S (cell_count p)) _ s Htree Hfr Hto) as Hrun.
  destruct (search_loop p to (S (cell_count p)) s) as [[s'|]|].
  - destruct Hrun as (d & Htr & Hs & Hmin).
    { cbn [visited queue s length]. rewrite marks_init //. lia. }
    assert (d to ≤ cell_count p)%nat as Hd.
    { pose proof (tr_depth _ _ _ _ Htr to Hs). pose proof (marks_le (visited s')) as Hle.
      rewrite (tr_len _ _ _ _ Htr) in Hle. lia. }
    destruct (walk_back_ok p from Hf d s' (cell_count p) to [] Htr Hs Hd) as (l & -> & Hl & Hlen).
    cbn. rewrite app_nil_r to_of_bytes. split; [done|]. intros l' Hl'.
    rewrite length_of_bytes Hlen. by apply Hmin.
  - split; [done|]. apply Hrun. cbn [visited queue s length]. rewrite marks_init //. lia.
  - destruct Hrun. cbn [visited queue s length]. rewrite marks_init //. lia.
Qed.

(** C27: routing on the grid is a shortest-path search that always ends. From one
    walkable tile to another [path] returns a walk that stays on walkable tiles, ends at
    the destination and is no longer than any other such walk; it fails exactly when an
    end is blocked or out of bounds, or when no walk exists. *)
Theorem path_spec p from to :
  match path p from to with
  | Ok w =>
      is_walkable p from = true ∧ is_walkable p to = true
      ∧ follow p from (to_bytes w) = Some to
      ∧ ∀ l, follow p from l = Some to → (String.length w ≤ length l)%nat
  | Err e =>
      (is_walkable p from && is_walkable p to = false
       ∧ e = "route endpoint is blocked or out of bounds"%string)
      ∨ (is_walkable p from = true ∧ is_walkable p to = true
         ∧ e = "destination is unreachable from current tile"%string
         ∧ ∀ l, follow p from l ≠ Some to)
  end.
Proof.
  destruct (is_walkable p from) eqn:Hf; [|by rewrite /path Hf; left].
  destruct (is_walkable p to) eqn:Ht; [|by rewrite /path Hf Ht; left].
  pose proof (path_run p from to Hf Ht) as Hrun.
  destruct (path p from to) as [w|e]; [naive_solver|right; naive_solver].
Qed.
