(* ===== verification/SpaceCatalog.v ===== *)
(** * The catalog of spaces, and getting around a space

    [K/space/catalog.rs]: the catalog built from its file and the packages it names,
    and the versions it serves. Then what the routines of [Space] give together on a
    validated package: the tiles reachable from the spawn place, the tile an agent is
    sent to, and the walk that leads there and passes the check of presence records. *)

From S2P Require Import Prelude Collections Text Json Signing Hashcash Space.
#[local] Open Scope N_scope.
#[local] Set Default Proof Using "Type*".

(** ** The catalog *)

(** [std::path::Component] on Unix, where no path has a prefix. *)
Inductive Component := CRootDir | CCurDir | CParentDir | CNormal (name : string).

(** The pieces of a path between its separators. *)
Fixpoint segments (cur : bytes) (l : bytes) : list bytes :=
  match l with
  | [] => [rev cur]
  | c :: l' => if Ascii.eqb c "/" then rev cur :: segments [] l' else segments (c :: cur) l'
  end.

Definition component (seg : bytes) : option Component :=
  if bool_decide (seg = [] ∨ seg = to_bytes ".") then None
  else if bool_decide (seg = to_bytes "..") then Some CParentDir
  else Some (CNormal (of_bytes seg)).

(** [Path::components]: a root for a leading separator; empty pieces are dropped, and
    [.] too unless it starts a relative path. *)
Definition components (path : string) : list Component :=
  match segments [] (to_bytes path) with
  | [] => []
  | seg :: segs =>
      (if String.prefix "/" path then [CRootDir]
       else if bool_decide (seg = to_bytes ".") then [CCurDir]
       else option_list (component seg))
      ++ omap component segs
  end.

Record SpaceCatalogVersion := mkSpaceCatalogVersion {
  scv_space_version : string;
  scv_package_path : string;
  scv_assets_path : string;
}.

Record SpaceCatalogEntry := mkSpaceCatalogEntry {
  sce_space_id : string;
  sce_current_version : string;
  sce_versions : list SpaceCatalogVersion;
}.

Record SpaceCatalog := mkSpaceCatalog {
  sc_default_space_id : string;
  sc_spaces : list SpaceCatalogEntry;
  sc_packages : gmap string (gmap string SpacePackage);
}.

Definition is_relative_catalog_path (path : string) : bool :=
  forallb (λ c, match c with CNormal _ | CCurDir => true | _ => false end) (components path).

Definition find_entry (c : SpaceCatalog) (id : string) : option SpaceCatalogEntry :=
  find_first (λ e, String.eqb (sce_space_id e) id) (sc_spaces c).

Definition current_version (c : SpaceCatalog) (id : string) : option string :=
  sce_current_version <$> find_entry c id.

Definition version (c : SpaceCatalog) (id v : string) : option SpacePackage :=
  versions ← sc_packages c !! id; versions !! v.

Definition current (c : SpaceCatalog) (id : string) : option SpacePackage :=
  e ← find_entry c id; version c id (sce_current_version e).

Section from_sources.
Context `{Crypto}.
(** Reading a package file and decoding its JSON. *)
Context (read_package : string → result SpacePackage).

Fixpoint load_versions (e : SpaceCatalogEntry) (versions : gmap string SpacePackage)
    (l : list SpaceCatalogVersion) : result (gmap string SpacePackage) :=
  match l with
  | [] => Ok versions
  | v :: l' =>
      _ ← ensure_ok (is_relative_catalog_path (scv_package_path v)
                     && is_relative_catalog_path (scv_assets_path v))
            "catalog paths must be relative and cannot contain '..'";
      package ← read_package (scv_package_path v);
      _ ← validate package;
      _ ← ensure_ok (String.eqb (space_id package) (sce_space_id e)
                     && String.eqb (space_version package) (scv_space_version v))
            "catalog package identity mismatch";
      _ ← ensure_ok (bool_decide (versions !! scv_space_version v = None))
            "duplicate catalog space version";
      load_versions e (<[scv_space_version v := package]> versions) l'
  end.

Definition radius_ok (p : SpacePackage) : bool :=
  match movement_search_radius p with
  | Some r => (0 <? r) && (r <=? N.max (width p) (height p))
  | None => false
  end.

Definition load_entry (packages : gmap string (gmap string SpacePackage)) (e : SpaceCatalogEntry)
    : result (gmap string (gmap string SpacePackage)) :=
  _ ← ensure_ok (negb (is_blank (sce_space_id e))) "catalog space ID is required";
  _ ← ensure_ok (bool_decide (packages !! sce_space_id e = None)) "duplicate catalog space ID";
  versions ← load_versions e ∅ (sce_versions e);
  _ ← ensure_ok (bool_decide (is_Some (versions !! sce_current_version e)))
        "catalog current version is not trusted";
  cur ← ok_or "missing current Space package" (versions !! sce_current_version e);
  _ ← ensure_ok (radius_ok cur)
        "catalog current Space package requires a valid movement_search_radius";
  Ok (<[sce_space_id e := versions]> packages).

Fixpoint load_entries (packages : gmap string (gmap string SpacePackage))
    (l : list SpaceCatalogEntry) : result (gmap string (gmap string SpacePackage)) :=
  match l with
  | [] => Ok packages
  | e :: l' => packages' ← load_entry packages e; load_entries packages' l'
  end.

Definition check_portal (c : SpaceCatalog) (portal : Portal) : result unit :=
  target ← ok_or "unknown portal target Space" (current c (target_space_id portal));
  _ ← ok_or "unknown portal target place" (place target (target_place_id portal));
  Ok tt.

Definition check_portals (c : SpaceCatalog) (e : SpaceCatalogEntry) : result unit :=
  package ← ok_or "missing current Space package" (current c (sce_space_id e));
  _ ← collect (check_portal c) (portals package);
  Ok tt.

(** The catalog file is decoded with no packages ([#[serde(skip)]]). *)
Definition from_sources (decoded : result (string * list SpaceCatalogEntry)) : result SpaceCatalog :=
  '(default_id, spaces) ← with_context "decode Space catalog" decoded;
  packages ← load_entries ∅ spaces;
  let c := mkSpaceCatalog default_id spaces packages in
  _ ← ensure_ok (bool_decide (is_Some (current c (sc_default_space_id c))))
        "catalog default Space is unknown";
  _ ← collect (check_portals c) (sc_spaces c);
  Ok c.
End from_sources.

(** ** What validation establishes *)

Ltac result_inv :=
  repeat match goal with
  | H : (_ ≫= _) = Ok _ |- _ => apply result_bind_ok in H as (? & ? & H)
  | H : ensure_ok _ _ = Ok _ |- _ => apply ensure_ok_ok in H
  | H : ok_or _ _ = Ok _ |- _ => apply ok_or_ok in H
  | H : with_context _ _ = Ok _ |- _ => apply with_context_ok in H
  end.

Lemma collect_ok_forall {A B} (f : A → result B) l bs :
  collect f l = Ok bs → ∀ x, x ∈ l → ∃ b, f x = Ok b.
Proof.
  revert bs. induction l as [|a l IH]; cbn; intros bs Hc x Hx; [by apply elem_of_nil in Hx|].
  result_inv. apply elem_of_cons in Hx as [->|Hx]; eauto.
Qed.

Lemma list_to_set_size_NoDup `{Countable A} (l : list A) :
  size (list_to_set (C := gset A) l) = length l → NoDup l.
Proof.
  intros Hs. apply NoDup_ListNoDup.
  apply (@List.NoDup_incl_NoDup _ (elements (list_to_set (C := gset A) l))).
  - apply NoDup_ListNoDup, NoDup_elements.
  - by rewrite -Hs.
  - intros x Hx%list_elem_of_In%elem_of_elements%elem_of_list_to_set. by apply list_elem_of_In.
Qed.

(** What holds of every place of a validated package. *)
Definition place_ok (p : SpacePackage) (pl : Place) : Prop :=
  is_blank (place_id pl) = false ∧ tiles pl ≠ [] ∧ NoDup (tiles pl)
  ∧ Forall (λ t, is_walkable p t = true) (tiles pl).

Lemma validate_places_ok p ids l u :
  validate_places p ids l = Ok u →
  Forall (place_ok p) l ∧ NoDup (place_id <$> l) ∧ ∀ pl, pl ∈ l → place_id pl ∉ ids.
Proof.
  revert ids. induction l as [|pl l IH]; intros ids; cbn [validate_places].
  { intros _. split_and!; [constructor|constructor|]. by intros ? ?%elem_of_nil. }
  intros Hv. result_inv. apply IH in Hv as (Hall & Hnd & Hids). bool_to_prop. split_and!.
  - constructor; [|done]. split_and!; try done.
    + by apply list_to_set_size_NoDup.
    + match goal with H : forallb _ _ = true |- _ => apply Is_true_true, forallb_True in H;
        eapply Forall_impl; [exact H|]; intros ? ?%Is_true_true; done end.
  - cbn. constructor; [|done]. intros (pl' & E & Hin)%list_elem_of_fmap.
    apply (Hids pl' Hin). rewrite -E. apply elem_of_union. left. by apply elem_of_singleton.
  - intros pl' [->|Hin]%elem_of_cons; [done|]. specialize (Hids pl' Hin).
    intros ?. apply Hids. apply elem_of_union. by right.
Qed.

Section validated.
Context `{Crypto}.

Lemma validate_facts p u :
  validate p = Ok u →
  Forall (place_ok p) (places p) ∧ NoDup (place_id <$> places p)
  ∧ (∀ pl, pl ∈ places p → validate_parent p pl = Ok tt)
  ∧ is_Some (place p (space_id p)) ∧ is_Some (place p (spawn_place_id p))
  ∧ (∀ b, b ∈ service_bindings p → is_Some (place p (sb_place_id b)))
  ∧ ∃ content, jcs_to_string (package_content p) = Ok content
      ∧ space_version p = "sha256:" +:+ sha256_hex content.
Proof.
  rewrite /validate. intros Hv. result_inv. bool_to_prop.
  match goal with H : validate_places _ _ _ = Ok _ |- _ => apply validate_places_ok in H as (? & ? & _) end.
  split_and!; try done; [|intros b Hb|by eauto].
  - intros pl Hpl. match goal with Hc : collect _ (places p) = _ |- _ =>
      by destruct (collect_ok_forall _ _ _ Hc pl Hpl) as [[] ?] end.
  - match goal with Hc : collect _ (service_bindings p) = _ |- _ =>
      destruct (collect_ok_forall _ _ _ Hc b Hb) as [v Hv'] end.
    rewrite /validate_binding in Hv'. result_inv. by bool_to_prop.
Qed.
End validated.

(** ** The flood from the spawn place *)

Section flood.
Context (p : SpacePackage) (start : N * N).
Context (Hstart : is_walkable p start = true).

(** Every marked tile is reached from the start; a marked tile that is not queued has
    only marked neighbours. *)
Record flooded (v : list bool) (op : list (N * N)) : Prop := {
  fl_len : length v = cell_count p;
  fl_root : seen p v start;
  fl_open t : t ∈ op → seen p v t;
  fl_walk t : seen p v t → ∃ l, follow p start l = Some t;
  fl_closed t dir nb : seen p v t → t ∉ op → step p t dir = Some nb → seen p v nb;
}.

Lemma flood_step_ok h ds dn v q :
  flooded v (h :: q) →
  (∀ dr nb, dr ∈ dn → step p h dr = Some nb → seen p v nb) →
  let '(v', q') := flood_step p h ds v q in
  flooded v' (h :: q')
  ∧ (∀ dr nb, dr ∈ dn ++ ds → step p h dr = Some nb → seen p v' nb)
  ∧ (marks v' + length q = marks v + length q')%nat.
Proof.
  revert dn v q. induction ds as [|dr ds IH]; intros dn v q Hfl Hdn; cbn [flood_step].
  { by rewrite app_nil_r. }
  rewrite cons_middle app_assoc.
  assert (∀ v', (∀ dr' nb, dr' ∈ dn → step p h dr' = Some nb → seen p v' nb) →
    (∀ nb, step p h dr = Some nb → seen p v' nb) →
    ∀ dr' nb, dr' ∈ dn ++ [dr] → step p h dr' = Some nb → seen p v' nb) as Hext.
  { intros v' Hv Hd dr' nb [?| ->%list_elem_of_singleton]%elem_of_app; eauto. }
  destruct (step p h dr) as [next|] eqn:Hst; [|by apply IH; [|apply Hext]].
  assert (is_walkable p next = true) as Hw by (by eapply step_walkable).
  destruct (default false _) eqn:Hnew.
  - apply IH; [done|]. apply Hext; [done|]. intros nb [= <-]. split; [done|].
    by destruct (v !! index p next) as [[]|].
  - pose proof Hfl as [Hlen Hroot Hop Hwalk Hclosed].
    pose proof (seen_mark p v next Hlen Hw Hnew) as Hs.
    specialize (IH (dn ++ [dr]) (<[index p next:=true]> v) (q ++ [next])).
    destruct (flood_step p h ds _ _) as [v' q'].
    destruct IH as (? & ? & Hm); [| |split_and!; [done..|]].
    + split.
      * by rewrite length_insert.
      * apply Hs. by left.
      * intros t [->|[Ht| ->%list_elem_of_singleton]%elem_of_app]%elem_of_cons; apply Hs;
          [left; apply Hop; by left|left; apply Hop; by right|by right].
      * intros t [Ht| ->]%Hs; [by apply Hwalk|].
        destruct (Hwalk h) as [l Hl]; [apply Hop; by left|].
        exists (l ++ [dr]). by rewrite follow_snoc Hl.
      * intros t dir nb [Ht| ->]%Hs Hn Hnb; [|destruct Hn; apply elem_of_cons; right; apply elem_of_app; right; by left].
        apply Hs. left. apply (Hclosed t dir); [done| |done]. intros [->|?]%elem_of_cons; apply Hn; [by left|].
        right. apply elem_of_app. by left.
    + apply Hext; [intros; apply Hs; left; eauto|]. intros nb [= <-]. apply Hs. by right.
    + rewrite (marks_mark p v next Hlen Hw Hnew) in Hm. rewrite length_app /= in Hm. lia.
Qed.

Lemma flood_ok fuel v q :
  flooded v q → (cell_count p - marks v + length q < fuel)%nat →
  ∃ v', flood p fuel v q = Some v' ∧ flooded v' [].
Proof.
  revert v q. induction fuel as [|fuel IH]; intros v q Hfl Hf; [lia|]. cbn [flood].
  destruct q as [|h q]; [by exists v|].
  pose proof (flood_step_ok h DIRECTIONS [] v q Hfl ltac:(by intros ?? ?%elem_of_nil)) as Hst.
  destruct (flood_step p h DIRECTIONS v q) as [v' q']. destruct Hst as (Hfl' & Hdn & Hm).
  pose proof Hfl' as [Hlen Hroot Hop Hwalk Hclosed].
  apply IH.
  - split; try done.
    + intros t Ht. apply Hop. by right.
    + intros t dir nb Ht Hn Hst. destruct (decide (t = h)) as [->|Hth].
      * apply (Hdn dir); [by eapply step_direction|done].
      * apply (Hclosed t dir); [done| |done]. by apply not_elem_of_cons.
  - pose proof (marks_le v'). cbn [length] in Hf. lia.
Qed.

Lemma flooded_exact v t :
  flooded v [] → seen p v t ↔ ∃ l, follow p start l = Some t.
Proof.
  intros [Hlen Hroot Hop Hwalk Hclosed]. split; [apply Hwalk|].
  intros [l Hl]. revert t Hl. induction l as [|d l IH] using rev_ind; intros t.
  - intros [= <-]. done.
  - rewrite follow_snoc. intros (u & Hu & Ht)%bind_Some. by apply (Hclosed u d); [apply IH|intros ?%elem_of_nil|].
Qed.
End flood.

(** ** Sending an agent to a place *)

Lemma min_tile_elem l m : min_tile l = Some m → m ∈ l.
Proof.
  revert m. induction l as [|t l IH]; intros m; cbn; [done|].
  destruct (min_tile l) as [m'|]; intros [= <-]; [|by left].
  destruct (tile_leb t m'); [by left|right; by apply IH].
Qed.

Lemma min_tile_some l : l ≠ [] → is_Some (min_tile l).
Proof. destruct l as [|t l]; [done|]. cbn. destruct (min_tile l); eauto. Qed.

Lemma place_elem p id pl : place p id = Some pl → pl ∈ places p ∧ place_id pl = id.
Proof. intros [E Hin]%find_first_Some. by apply String.eqb_eq in E. Qed.

Lemma filter_all {A} (f : A → bool) l : Forall (λ x, f x = true) l → List.filter f l = l.
Proof. induction 1 as [|x l Hx _ IH]; cbn; [done|]. by rewrite Hx IH. Qed.

Section reachable.
Context `{Crypto} (p : SpacePackage).
Context (Hvalid : validate p = Ok tt).

Lemma place_tiles_walkable id pl t :
  place p id = Some pl → t ∈ tiles pl → is_walkable p t = true.
Proof.
  intros [Hin _]%place_elem Ht. destruct (validate_facts p tt Hvalid) as [Hall _].
  rewrite Forall_forall in Hall. destruct (Hall pl Hin) as (_ & _ & _ & Hw).
  rewrite Forall_forall in Hw. by apply Hw.
Qed.

Lemma spawn_start_ok : ∃ start, spawn_start p = Ok start ∧ is_walkable p start = true.
Proof.
  destruct (validate_facts p tt Hvalid) as (Hall & _ & _ & _ & [spawn Hspawn] & _).
  destruct (place_elem p _ spawn Hspawn) as [Hin _].
  rewrite Forall_forall in Hall. destruct (Hall spawn Hin) as (_ & Hne & _ & Hw).
  rewrite /spawn_start Hspawn /=. rewrite filter_all //.
  destruct (min_tile_some _ Hne) as [m Hm]. rewrite Hm. exists m. split; [done|].
  eapply place_tiles_walkable; [done|]. by apply min_tile_elem.
Qed.

Lemma spawn_reachable_ok start :
  spawn_start p = Ok start → is_walkable p start = true →
  ∃ v, spawn_reachable p = Ok v ∧ flooded p start v [].
Proof using Type.
  intros Hs Hw. rewrite /spawn_reachable Hs. cbn -[flood cell_count index].
  pose proof (index_lt p start Hw) as Hpos.
  destruct (flood_ok p start Hw (S (cell_count p))
    (<[index p start:=true]> (replicate (cell_count p) false)) [start]) as (v & -> & Hv).
  - split.
    + by rewrite length_insert length_replicate.
    + by apply seen_init.
    + intros t ->%list_elem_of_singleton. by apply seen_init.
    + intros t ->%(seen_init p (cell_count p) start t); [|done..]. by exists [].
    + intros t dir nb ->%(seen_init p (cell_count p) start t) Hn; [|done..]. destruct Hn. by left.
  - rewrite marks_init //. cbn [length]. lia.
  - by exists v.
Qed.

Lemma keep_reachable_ok v l :
  length v = cell_count p → Forall (λ t, is_walkable p t = true) l →
  ∃ kept, keep_reachable p v l = Ok kept ∧ ∀ t, t ∈ kept ↔ t ∈ l ∧ seen p v t.
Proof using Type.
  intros Hlen. induction 1 as [|t l Hw _ (kept & Hk & IH)]; cbn [keep_reachable].
  { exists []. split; [done|]. intros t. rewrite elem_of_nil. tauto. }
  destruct (lookup_lt_is_Some_2 v (index p t)) as [b Hb]; [rewrite Hlen; by apply index_lt|].
  rewrite /read_cell Hb Hk /=. eexists. split; [done|]. intros u.
  assert (seen p v t ↔ b = true) as Hs by (rewrite /seen Hb; naive_solver).
  destruct b; rewrite ?elem_of_cons IH; naive_solver.
Qed.

Lemma destination_ok `{Digest} did id start :
  spawn_start p = Ok start → is_walkable p start = true →
  match destination_tile p did id with
  | Ok t => ∃ pl, place p id = Some pl ∧ t ∈ tiles pl ∧ is_walkable p t = true
              ∧ ∃ l, follow p start l = Some t
  | Err e =>
      (place p id = None ∧ e = "unknown destination place"%string)
      ∨ (e = "place has no tiles reachable from spawn"%string
         ∧ ∃ pl, place p id = Some pl ∧ ∀ t l, t ∈ tiles pl → follow p start l ≠ Some t)
  end.
Proof.
  intros Hs Hw. rewrite /destination_tile. destruct (place p id) as [pl|] eqn:Hpl; [|by left].
  cbn -[keep_reachable spawn_reachable]. destruct (spawn_reachable_ok start Hs Hw) as (v & Hv & Hfl). rewrite Hv.
  cbn -[keep_reachable].
  assert (Forall (λ t, is_walkable p t = true) (tiles pl)) as Htiles.
  { apply Forall_forall. intros t. by apply (place_tiles_walkable id). }
  destruct (keep_reachable_ok v (tiles pl) (fl_len _ _ _ _ Hfl) Htiles) as (kept & Hk & Hin).
  rewrite Hk. cbn. pose proof (λ t, flooded_exact p start Hw v t Hfl) as Hex.
  pose proof (λ t, elem_of_sort_by tile_leb t kept) as Hsort.
  destruct (decide (sort_by tile_leb kept = [])) as [Hnil|Hnil].
  - rewrite (bool_decide_true _ Hnil). cbn. right. split; [done|]. exists pl. split; [done|].
    intros t l Ht Hl. apply (not_elem_of_nil t). rewrite -Hnil. apply Hsort, Hin. split; [done|].
    apply Hex. by exists l.
  - rewrite (bool_decide_false _ Hnil). cbn.
    set (i := Z.to_nat _). destruct (lookup_lt_is_Some_2 (sort_by tile_leb kept) i) as [t Ht].
    { assert (0 < Z.of_nat (length (sort_by tile_leb kept)))%Z as Hpos
        by (destruct (sort_by _ _); [done|cbn; lia]).
      rewrite /i. pose proof (Z.mod_pos_bound (be_u64 (sha256_digest (did +:+ String newline id))) _ Hpos). lia. }
    rewrite Ht. cbn. exists pl. split; [done|].
    apply list_elem_of_lookup_2, Hsort, Hin in Ht as [Ht [Hwt ?]]. split_and!; [done..|]. by apply Hex.
Qed.
End reachable.

(** On a validated package an agent is sent to a tile of the place it names that
    is walkable and reachable from the spawn place; the choice fails only when there is
    no such place or when none of its tiles can be reached, and never reads out of
    bounds. *)
Theorem destination_tile_spec `{Crypto} `{Digest} p did id :
  validate p = Ok tt →
  ∃ start, spawn_start p = Ok start ∧ is_walkable p start = true ∧
  match destination_tile p did id with
  | Ok t => ∃ pl, place p id = Some pl ∧ t ∈ tiles pl ∧ is_walkable p t = true
              ∧ ∃ l, follow p start l = Some t
  | Err e =>
      (place p id = None ∧ e = "unknown destination place"%string)
      ∨ (e = "place has no tiles reachable from spawn"%string
         ∧ ∃ pl, place p id = Some pl ∧ ∀ t l, t ∈ tiles pl → follow p start l ≠ Some t)
  end.
Proof.
  intros Hv. destruct (spawn_start_ok p Hv) as (start & Hs & Hw).
  exists start. split_and!; [done..|]. by apply destination_ok.
Qed.

(** ** Walking there *)

Section walking.
Context (p : SpacePackage).
Context (Hsize : width p < 2 ^ 32 ∧ height p < 2 ^ 32).

Definition opposite (d : ascii) : ascii :=
  (if Ascii.eqb d "U" then "D" else if Ascii.eqb d "R" then "L"
   else if Ascii.eqb d "D" then "U" else "R")%char.

(** Steps can be taken back: the coordinates of a walkable tile are below 2^32. *)
Lemma step_back t d t' :
  is_walkable p t = true → step p t d = Some t' → step p t' (opposite d) = Some t.
Proof.
  intros Hw Hst. pose proof (step_walkable _ _ _ _ Hst) as Hw'.
  destruct (walkable_bounds _ _ Hw) as [Hx Hy], (walkable_bounds _ _ Hw') as [Hx' Hy'].
  pose proof (step_direction _ _ _ _ Hst) as Hd.
  destruct t as [x y]; cbn [fst snd] in *.
  rewrite /DIRECTIONS !elem_of_cons elem_of_nil in Hd.
  rewrite /step in Hst.
  destruct Hd as [->|[->|[->|[->|[]]]]]; cbn [Ascii.eqb Bool.eqb opposite] in Hst |- *.
  all: apply bind_Some in Hst as (next & Hn & E); destruct (is_walkable p next); [|done]; simplify_eq.
  all: apply bind_Some in Hn as (z & Hz & [= <-]); rewrite /checked_pred /checked_succ in Hz.
  all: match type of Hz with context [if ?b then _ else _] => destruct b eqn:Hb end; simplify_eq.
  all: rewrite /step /checked_pred /checked_succ; cbn [Ascii.eqb Bool.eqb opposite fst snd] in *.
  all: match goal with
       | |- context [?a + 1 =? 0] => rewrite (proj2 (N.eqb_neq (a + 1) 0)) ?N.add_sub; [|lia]
       | |- context [?a - 1 + 1] =>
           apply N.eqb_neq in Hb; rewrite N.sub_add; [|lia];
           rewrite (proj2 (N.ltb_lt a (2 ^ 32))); [|lia]
       end; cbn [mbind option_bind]; by rewrite Hw.
Qed.

Lemma follow_app t l1 l2 : follow p t (l1 ++ l2) = u ← follow p t l1; follow p u l2.
Proof using Type.
  revert t. induction l1 as [|d l1 IH]; intros t; cbn; [done|].
  destruct (step p t d); cbn; [apply IH|done].
Qed.

Lemma follow_walkable t l u :
  is_walkable p t = true → follow p t l = Some u → is_walkable p u = true.
Proof using Type.
  revert t. induction l as [|d l IH]; intros t Hw; cbn; [by intros [= <-]|].
  intros (next & Hst & Hf)%bind_Some. eapply IH; [|done]. by eapply step_walkable.
Qed.

Lemma follow_back t l u :
  is_walkable p t = true → follow p t l = Some u →
  follow p u (rev (opposite <$> l)) = Some t.
Proof.
  revert t. induction l as [|d l IH]; intros t Hw; cbn; [by intros [= <-]|].
  intros (next & Hst & Hf)%bind_Some. rewrite follow_app.
  rewrite (IH next); [|by eapply step_walkable|done]. cbn. by rewrite (step_back t d next).
Qed.
End walking.

(** An agent that stands where the spawn place leads can be routed to any place it
    can be sent to: the path search finds a walk from its tile to the tile chosen for it,
    and the presence record that reports this walk passes the check of records. *)
Theorem walk_to_destination `{Crypto} `{Digest} p did id start l from t r :
  validate p = Ok tt → width p < 2 ^ 32 ∧ height p < 2 ^ 32 →
  spawn_start p = Ok start → follow p start l = Some from →
  destination_tile p did id = Ok t →
  sr_space_id r = space_id p → sr_agent_did r = did → is_blank did = false → 0 < sr_seq r →
  sr_from_tile r = from → sr_destination_place_id r = id → sr_object_place_id r = None →
  ∃ w, path p from t = Ok w
    ∧ (sr_path r = w → validate_record_geometry p r = Ok tt).
Proof.
  intros Hv Hsz Hs Hl Ht Hsid Hdid Hblank Hseq Hfrom Hdst Hobj.
  destruct (spawn_start_ok p Hv) as (start' & Hs' & Hw).
  rewrite Hs in Hs'. injection Hs' as <-.
  pose proof (destination_ok p Hv did id start Hs Hw) as Hd. rewrite Ht in Hd.
  destruct Hd as (pl & Hpl & Hin & Hwt & l2 & Hl2).
  pose proof (follow_walkable p start l from Hw Hl) as Hwf.
  pose proof (path_run p from t Hwf Hwt) as Hp. destruct (path p from t) as [w|e].
  - exists w. split; [done|]. destruct Hp as [Hf _]. intros Hw0.
    rewrite /validate_record_geometry Hw0 Hsid Hdid Hfrom Hdst Hobj.
    rewrite String.eqb_refl Hblank (proj2 (N.ltb_lt _ _) Hseq) Hwf Hpl Hf /=.
    by rewrite bool_decide_true.
  - destruct Hp as [_ Hno]. exfalso. apply (Hno (rev (opposite <$> l) ++ l2)).
    rewrite follow_app (follow_back p Hsz start l from) //.
Qed.

(** ** What a built catalog serves *)

Section catalog.
Context `{Crypto} (read_package : string → result SpacePackage).

(** A version map holds validated packages under their own identity. *)
Definition trusted (id : string) (versions : gmap string SpacePackage) : Prop :=
  ∀ v p, versions !! v = Some p → validate p = Ok tt ∧ space_id p = id ∧ space_version p = v.

Lemma load_versions_trusted e versions l versions' :
  trusted (sce_space_id e) versions →
  load_versions read_package e versions l = Ok versions' → trusted (sce_space_id e) versions'.
Proof.
  revert versions. induction l as [|v l IH]; intros versions Ht; cbn [load_versions].
  { by intros [= <-]. }
  intros Hl. result_inv. bool_to_prop. eapply IH; [|done].
  intros v' p [[<- <-]|[_ Hp]]%lookup_insert_Some; [|by apply Ht].
  match goal with x : () |- _ => by destruct x end.
Qed.

(** What [load_entry] records of an entry. *)
Definition served (packages : gmap string (gmap string SpacePackage)) (e : SpaceCatalogEntry) : Prop :=
  ∃ versions p, packages !! sce_space_id e = Some versions
    ∧ trusted (sce_space_id e) versions
    ∧ versions !! sce_current_version e = Some p ∧ radius_ok p = true.

Lemma load_entry_served packages e packages' :
  load_entry read_package packages e = Ok packages' →
  served packages' e ∧ packages !! sce_space_id e = None
  ∧ ∀ id, id ≠ sce_space_id e → packages' !! id = packages !! id.
Proof.
  rewrite /load_entry. intros Hl. result_inv. simplify_eq. bool_to_prop. split_and!; [|done|].
  - eexists _, _. rewrite lookup_insert_eq. split_and!; [done| |done|done].
    eapply load_versions_trusted; [|done]. by intros v p; rewrite lookup_empty.
  - intros id Hid. by rewrite lookup_insert_ne.
Qed.

Lemma load_entries_served packages l packages' :
  load_entries read_package packages l = Ok packages' →
  (∀ e, e ∈ l → served packages' e ∧ packages !! sce_space_id e = None)
  ∧ NoDup (sce_space_id <$> l)
  ∧ ∀ id, is_Some (packages !! id) → packages' !! id = packages !! id.
Proof.
  revert packages. induction l as [|e l IH]; intros packages; cbn [load_entries].
  { intros [= <-]. split_and!; [by intros ? ?%elem_of_nil|constructor|done]. }
  intros Hl. result_inv. rename x into mid.
  match goal with H : load_entry _ _ _ = _ |- _ => apply load_entry_served in H as (Hs & Hnone & Hother) end.
  apply IH in Hl as (Hall & Hnd & Hkeep).
  pose proof Hs as (vs & p0 & Hmid & _).
  split_and!.
  - intros e' [->|Hin]%elem_of_cons.
    + split; [|done]. destruct Hs as (vs' & p & Hvs & ?). exists vs', p. by rewrite Hkeep // Hvs.
    + destruct (Hall e' Hin) as [? Hn]. split; [done|].
      rewrite -Hother //. intros E. by rewrite E Hmid in Hn.
  - cbn. constructor; [|done]. intros (e' & E & Hin)%list_elem_of_fmap.
    destruct (Hall e' Hin) as [_ Hn]. by rewrite -E Hmid in Hn.
  - intros id Hid. assert (id ≠ sce_space_id e) by (intros ->; rewrite Hnone in Hid; by destruct Hid).
    rewrite Hkeep Hother //.
Qed.

Lemma find_entry_in c e :
  NoDup (sce_space_id <$> sc_spaces c) → e ∈ sc_spaces c →
  find_entry c (sce_space_id e) = Some e.
Proof using Type.
  rewrite /find_entry. generalize (sc_spaces c) as l. clear c.
  induction l as [|e' l IH]; cbn; intros Hnd He; [by apply elem_of_nil in He|].
  apply NoDup_cons in Hnd as [Hn Hnd]. apply elem_of_cons in He as [->|He].
  - by rewrite String.eqb_refl.
  - destruct (String.eqb_spec (sce_space_id e') (sce_space_id e)) as [E|]; [|by apply IH].
    destruct Hn. apply list_elem_of_fmap. by exists e.
Qed.

(** A catalog that loads serves, for every space it lists, one current package:
    validated, of that space and that version, with a usable search radius; each of its
    portals leads to an existing place of the current package of another listed space, and
    the default space is one of them. *)
Theorem from_sources_spec decoded c :
  from_sources read_package decoded = Ok c →
  NoDup (sce_space_id <$> sc_spaces c)
  ∧ is_Some (current c (sc_default_space_id c))
  ∧ ∀ e, e ∈ sc_spaces c →
    ∃ p, current c (sce_space_id e) = Some p ∧ validate p = Ok tt
      ∧ space_id p = sce_space_id e ∧ current_version c (sce_space_id e) = Some (space_version p)
      ∧ radius_ok p = true
      ∧ ∀ portal, portal ∈ portals p →
          ∃ target pl, current c (target_space_id portal) = Some target
            ∧ place target (target_place_id portal) = Some pl.
Proof.
  rewrite /from_sources. intros Hf. result_inv. destruct x as [d spaces]. result_inv.
  injection Hf as <-. bool_to_prop. cbn [sc_spaces sc_default_space_id].
  set (c := mkSpaceCatalog _ _ _) in *.
  match goal with H : load_entries _ _ _ = _ |- _ => apply load_entries_served in H as (Hall & Hnd & _) end.
  split_and!; [done..|]. intros e He.
  destruct (Hall e He) as [(versions & p & Hvs & Htr & Hp & Hr) _].
  pose proof (find_entry_in c e Hnd He) as Hfind.
  assert (current c (sce_space_id e) = Some p) as Hcur.
  { rewrite /current Hfind /= /version. cbn [sc_packages c]. by rewrite Hvs /=. }
  destruct (Htr _ _ Hp) as (Hval & Hid & Hver).
  exists p. split_and!; try done.
  - by rewrite /current_version Hfind /= Hver.
  - match goal with Hc : collect (check_portals _) _ = _ |- _ =>
      destruct (collect_ok_forall _ _ _ Hc e He) as [u Hu] end.
    rewrite /check_portals Hcur /= in Hu. result_inv. intros portal Hin.
    match goal with Hc : collect _ (portals p) = _ |- _ =>
      destruct (collect_ok_forall _ _ _ Hc portal Hin) as [u' Hu'] end.
    rewrite /check_portal in Hu'. result_inv. eauto.
Qed.
End catalog.

(** ** A town and its annex *)

Module SpaceScenario.
Import Demo.

#[local] Instance demo_digest : Digest := λ s,
  replicate 32 (Z.of_nat (String.length s) mod 256)%Z.

Definition town_places : list Place :=
  [mkPlace "town" None World (mkPlaceName "Town" "Town")
     [(0,0); (1,0); (3,0); (0,1); (3,1); (0,2); (1,2); (2,2); (3,2)];
   mkPlace "home" (Some "town") Sector (mkPlaceName "Home" "Home") [(1,0); (0,0)];
   mkPlace "shop" (Some "town") Sector (mkPlaceName "Shop" "Shop") [(3,0)]].

Definition town_with (portals : list Portal) (ver : string) : SpacePackage :=
  mkSpacePackage "town" ver 4 3 16 [[1; 1; 0; 1]; [1; 0; 0; 1]; [1; 1; 1; 1]]
    town_places "home" 0x3FF0000000000000%Z (Some 3)
    [mkServiceBinding "shop" "agent-1"] portals.

(** The version is the hash of the rest of the package. *)
Definition stamp (p : string → SpacePackage) : SpacePackage :=
  match jcs_to_string (package_content (p "")) with
  | Ok content => p ("sha256:" +:+ sha256_hex content)
  | Err _ => p ""
  end.

Definition town : SpacePackage := stamp (town_with [mkPortal "gate" "shop" "annex" "annex"]).
Definition annex : SpacePackage := stamp (λ ver,
  mkSpacePackage "annex" ver 1 1 16 [[1]]
    [mkPlace "annex" None World (mkPlaceName "Annex" "Annex") [(0,0)]]
    "annex" 0x3FF0000000000000%Z (Some 1) [] []).

Definition entry (p : SpacePackage) (path : string) : SpaceCatalogEntry :=
  mkSpaceCatalogEntry (space_id p) (space_version p)
    [mkSpaceCatalogVersion (space_version p) path "assets/./town"].

Definition read (path : string) : result SpacePackage :=
  if String.eqb path "town/package.json" then Ok town
  else if String.eqb path "annex/package.json" then Ok annex else Err "no such file".

Definition listing : list SpaceCatalogEntry :=
  [entry town "town/package.json"; entry annex "annex/package.json"].

Example town_valid : validate town = Ok tt.
Proof. vm_compute. reflexivity. Qed.

Example around_the_wall : path town (1,0) (3,0) = Ok "LDDRRRUU"%string.
Proof. vm_compute. reflexivity. Qed.

Example catalog_paths :
  is_relative_catalog_path "./a/b//c" = true ∧ is_relative_catalog_path "a/../b" = false
  ∧ is_relative_catalog_path "/a" = false ∧ is_relative_catalog_path ".." = false.
Proof. by vm_compute. Qed.

Lemma destination_tile_spec_witness : ∃ start, spawn_start town = Ok start.
Proof.
  destruct (destination_tile_spec (H := crypto) town "did:key:z6Mk" "shop" town_valid)
    as (start & Hs & _). by exists start.
Defined.

Definition presence (w : string) : SpacePresenceRecord :=
  mkSpacePresenceRecord "did:key:z6Mk" None None "" "town" "v" true 1 (1,0) w 0%Z "shop" "" None 0%Z.

Lemma walk_to_destination_witness :
  ∃ w, path town (1,0) (3,0) = Ok w
    ∧ validate_record_geometry town
        (presence w) = Ok tt.
Proof.
  destruct (walk_to_destination (H := crypto) (H0 := demo_digest) town "did:key:z6Mk" "shop" (0,0)
    ["R"%char] (1,0) (3,0) (presence "LDDRRRUU")) as (w & Hw & Hrec); [by vm_compute..|].
  exists w. split; [exact Hw|]. assert (w = "LDDRRRUU"%string) as -> by (rewrite around_the_wall in Hw; by injection Hw).
  apply Hrec. reflexivity.
Defined.

Definition catalog : result SpaceCatalog := from_sources read (Ok ("town"%string, listing)).

Example catalog_lists : sc_spaces <$> catalog = Ok listing.
Proof. vm_compute. reflexivity. Qed.

Lemma from_sources_spec_witness :
  ∃ c p, catalog = Ok c ∧ current c (space_id town) = Some p ∧ space_id p = space_id town.
Proof.
  pose proof catalog_lists as Hl. destruct catalog as [c|e] eqn:E; [|discriminate].
  exists c. injection Hl as Hl.
  destruct (from_sources_spec (H := crypto) read (Ok ("town"%string, listing)) c E) as (_ & _ & Hall).
  destruct (Hall (entry town "town/package.json")) as (p & Hp & _ & Hid & _).
  { rewrite Hl. left. }
  exists p. split; [reflexivity|]. split; [exact Hp|exact Hid].
Defined.
End SpaceScenario.
