(* ===== verification/Walk.v ===== *)
(** * Presence records: walks and skins

    [crates/gateway-contract/src/space.rs]: where an agent stands on its signed
    walk at a given time, the labels of the skins it wears, and the limits on
    the text of its activity. Floating-point arithmetic is IEEE 754 binary64,
    the Standard Library's [SpecFloat] at precision 53. *)

From S2P Require Import Prelude Collections Text Json Signing Identities Space SpaceCatalog.
From Stdlib Require Import SpecFloat.
#[local] Open Scope Z_scope.
#[local] Set Default Proof Using "Type*".

(** ** Doubles *)

Definition f64_prec : Z := 53.
Definition f64_emax : Z := 1024.

(** The double with a bit pattern. *)
Definition of_f64 (x : f64) : spec_float :=
  let sign := 2 ^ 63 <=? x in
  let e := (x / 2 ^ 52) mod 2 ^ 11 in
  let m := x mod 2 ^ 52 in
  if e =? 2047 then if m =? 0 then S754_infinity sign else S754_nan
  else if e =? 0 then
    match m with Z.pos q => S754_finite sign q (-1074) | _ => S754_zero sign end
  else match m + 2 ^ 52 with Z.pos q => S754_finite sign q (e - 1075) | _ => S754_nan end.

(** [n as f64]. *)
Definition fl_of_Z (n : Z) : spec_float := binary_normalize f64_prec f64_emax n 0 false.
Definition fl_mul : spec_float → spec_float → spec_float := SFmul f64_prec f64_emax.
Definition fl_div : spec_float → spec_float → spec_float := SFdiv f64_prec f64_emax.
Definition fl_add : spec_float → spec_float → spec_float := SFadd f64_prec f64_emax.
Definition fl_sub : spec_float → spec_float → spec_float := SFsub f64_prec f64_emax.

(** [f64::min]: a NaN gives the other argument. *)
Definition fl_min (x y : spec_float) : spec_float :=
  match x, y with
  | S754_nan, _ => y
  | _, S754_nan => x
  | _, _ => if SFltb y x then y else x
  end.

(** [f64::clamp]: a NaN stays. *)
Definition fl_clamp (lo hi x : spec_float) : spec_float :=
  if SFltb x lo then lo else if SFltb hi x then hi else x.

(** The signed significand of a finite double. *)
Definition signed (s : bool) (m : positive) : Z := if s then Z.neg m else Z.pos m.

(** [f64::floor]. *)
Definition fl_floor (x : spec_float) : spec_float :=
  match x with
  | S754_finite s m e =>
      if 0 <=? e then x
      else binary_normalize f64_prec f64_emax (Z.shiftr (signed s m) (- e)) 0 s
  | _ => x
  end.

(** [x as usize]: towards zero, saturating, NaN is 0. *)
Definition usize_max : Z := 2 ^ 64 - 1.
Definition fl_to_usize (x : spec_float) : Z :=
  match x with
  | S754_finite false m e =>
      Z.min usize_max (if 0 <=? e then Z.shiftl (Z.pos m) e else Z.shiftr (Z.pos m) (- e))
  | S754_infinity false => usize_max
  | _ => 0
  end.

(** ** Positions *)

Definition elapsed_ms (r : SpacePresenceRecord) (now_ms : Z) : Z :=
  Z.max 0 (i64_saturating_sub now_ms (sr_depart_at r)).

(** [elapsed as f64 / 1_000.0 * walk_speed]. *)
Definition travelled (r : SpacePresenceRecord) (speed : f64) (now_ms : Z) : spec_float :=
  fl_mul (fl_div (fl_of_Z (elapsed_ms r now_ms)) (fl_of_Z 1000)) (of_f64 speed).

Definition path_len (r : SpacePresenceRecord) : Z := Z.of_nat (length (to_bytes (sr_path r))).

Fixpoint position_walk (steps : spec_float) (index : Z) (path : bytes)
    (x y : spec_float) : spec_float * spec_float :=
  match path with
  | [] => (x, y)
  | direction :: path' =>
      let progress := fl_clamp (fl_of_Z 0) (fl_of_Z 1) (fl_sub steps (fl_of_Z index)) in
      let moved :=
        if Ascii.eqb direction "U" then Some (x, fl_sub y progress)
        else if Ascii.eqb direction "R" then Some (fl_add x progress, y)
        else if Ascii.eqb direction "D" then Some (x, fl_add y progress)
        else if Ascii.eqb direction "L" then Some (fl_sub x progress, y)
        else None in
      match moved with
      | None => (x, y)
      | Some (x', y') =>
          if SFltb progress (fl_of_Z 1) then (x', y')
          else position_walk steps (index + 1) path' x' y'
      end
  end.

Definition position_at (r : SpacePresenceRecord) (speed : f64) (now_ms : Z)
    : spec_float * spec_float :=
  let steps := fl_min (travelled r speed now_ms) (fl_of_Z (path_len r)) in
  position_walk steps 0 (to_bytes (sr_path r))
    (fl_of_Z (Z.of_N (sr_from_tile r).1)) (fl_of_Z (Z.of_N (sr_from_tile r).2)).

Definition u32_saturating_pred (n : N) : N := N.pred n.
Definition u32_saturating_succ (n : N) : N := N.min 4294967295 (N.succ n).

Fixpoint tile_walk (path : bytes) (t : N * N) : N * N :=
  match path with
  | [] => t
  | direction :: path' =>
      if Ascii.eqb direction "U" then tile_walk path' (t.1, u32_saturating_pred t.2)
      else if Ascii.eqb direction "R" then tile_walk path' (u32_saturating_succ t.1, t.2)
      else if Ascii.eqb direction "D" then tile_walk path' (t.1, u32_saturating_succ t.2)
      else if Ascii.eqb direction "L" then tile_walk path' (u32_saturating_pred t.1, t.2)
      else t
  end.

Definition whole_steps (r : SpacePresenceRecord) (speed : f64) (now_ms : Z) : nat :=
  Z.to_nat (fl_to_usize
    (fl_min (fl_floor (travelled r speed now_ms)) (fl_of_Z (path_len r)))).

Definition tile_at (r : SpacePresenceRecord) (speed : f64) (now_ms : Z) : N * N :=
  tile_walk (take (whole_steps r speed now_ms) (to_bytes (sr_path r))) (sr_from_tile r).

(** ** Skins *)

Definition SPACE_AVATAR_COUNT : Z := 25.
Definition SKIN_ID_LEN : nat := 64.
Definition BUILTIN_SKIN_PREFIX : string := "builtin:".

Definition builtin_skin_label (index : N) : string :=
  BUILTIN_SKIN_PREFIX +:+ show_Z (Z.of_N index).

Inductive SkinChoice :=
  | BuiltIn (index : N)
  | Custom (skin_id : string).
#[global] Instance SkinChoice_eq_dec : EqDecision SkinChoice.
Proof. solve_decision. Defined.

Definition is_lower_hex (a : ascii) : bool :=
  let n := nat_of_ascii a in
  is_ascii_digit a || ((97 <=? n) && (n <=? 102))%nat.

Definition validate_skin_id (skin_id : string) : result unit :=
  if negb (String.length skin_id =? SKIN_ID_LEN)%nat
     || negb (forallb is_lower_hex (to_bytes skin_id))
  then Err "skin_id must be a 64 character lowercase hex content hash"
  else Ok tt.

Definition parse_skin_label (label : string) : result SkinChoice :=
  match strip_prefix (to_bytes BUILTIN_SKIN_PREFIX) (to_bytes label) with
  | Some index =>
      match parse_u8 (of_bytes index) with
      | Some n =>
          if n <? SPACE_AVATAR_COUNT then Ok (BuiltIn (Z.to_N n))
          else Err "built-in skins are builtin:0 to builtin:24"
      | None => Err "built-in skins are builtin:0 to builtin:24"
      end
  | None =>
      match validate_skin_id label with
      | Ok _ => Ok (Custom label)
      | Err _ => Err "skin_id must be builtin:N (N below 25) or the 64 character hex id of a published custom skin"
      end
  end.

(** [SpacePresenceRecord::skin]. *)
Definition skin (r : SpacePresenceRecord) : string :=
  match sr_skin_id r with
  | Some id => id
  | None => BUILTIN_SKIN_PREFIX +:+ show_Z (Z.of_N (default 0%N (sr_avatar_id r)))
  end.

(** ** Activities *)

Definition is_text_control (c : bytes) : bool :=
  is_control c && negb (bool_decide (c ∈ [["010"%char]; ["013"%char]; ["009"%char]])).

Definition validate_activity (activity : string) : result unit :=
  if (2000 <? length (utf8_chars (to_bytes activity)))%nat
  then Err "activity exceeds 2000 characters"
  else if existsb is_text_control (utf8_chars (to_bytes activity))
  then Err "activity contains unsupported control characters"
  else Ok tt.

(** ** Signed records *)

Record SignedSpacePresence := mkSignedSpacePresence {
  sp_record : SpacePresenceRecord;
  sp_public_key : string;
  sp_signature : string;
}.

Record NodePresence := mkNodePresence {
  np_node_id : string;
  np_agent_did : string;
  np_last_heartbeat_ms : Z;
  np_heartbeat_interval_sec : Z;
}.

(** ** The walk and the grid *)

Lemma follow_take p t l u n :
  follow p t l = Some u → ∃ v, follow p t (take n l) = Some v.
Proof.
  revert t n. induction l as [|d l IH]; intros t [|n]; simpl; eauto.
  intros (next & Hs & Hf)%bind_Some. rewrite Hs /=. by eapply IH.
Qed.

(** On a walk of the grid the saturating moves of [tile_at] are the checked
    moves of the package. *)
Lemma tile_walk_follow p t l u : follow p t l = Some u → tile_walk l t = u.
Proof.
  revert t. induction l as [|d l IH]; intros [x y]; simpl; [by intros [= ->]|].
  intros (next & Hs & Hf)%bind_Some. apply IH in Hf as <-.
  rewrite /step /checked_pred /checked_succ in Hs.
  apply bind_Some in Hs as (next' & Hn & Hw). case_match; simplify_eq.
  rewrite /u32_saturating_pred /u32_saturating_succ.
  destruct (Ascii.eqb d "U"), (Ascii.eqb d "R"), (Ascii.eqb d "D"), (Ascii.eqb d "L");
    try done; apply bind_Some in Hn as (z & Hz & [= <-]); case_match; try done;
    injection Hz as <-; simpl; do 2 f_equal;
    match goal with
    | E : (_ =? _)%N = false |- _ => apply N.eqb_neq in E
    | E : (_ <? _)%N = true |- _ => apply N.ltb_lt in E
    end; lia.
Qed.

Lemma geometry_walk p r u :
  validate_record_geometry p r = Ok u →
  is_walkable p (sr_from_tile r) = true
  ∧ ∃ t destination, follow p (sr_from_tile r) (to_bytes (sr_path r)) = Some t
    ∧ place p (sr_destination_place_id r) = Some destination ∧ t ∈ tiles destination.
Proof.
  rewrite /validate_record_geometry.
  intros (? & _ & (? & _ & (? & _ & (? & Hw & (dest & Hd & (t & Hf & (? & Ht & _)%result_bind_ok)%result_bind_ok)%result_bind_ok)%result_bind_ok)%result_bind_ok)%result_bind_ok)%result_bind_ok.
  apply ensure_ok_ok in Hw, Ht. apply ok_or_ok in Hd, Hf. apply bool_decide_eq_true in Ht.
  split; [done|]. by exists t, dest.
Qed.

(** Where the code says an agent stands is a tile of its walk, after a whole
    number of steps, so it is a walkable one. *)
Lemma tile_at_prefix p r u w now :
  validate_record_geometry p r = Ok u →
  follow p (sr_from_tile r) (take (whole_steps r w now) (to_bytes (sr_path r)))
    = Some (tile_at r w now)
  ∧ is_walkable p (tile_at r w now) = true.
Proof.
  intros (Hw & t & dest & Hf & _)%geometry_walk.
  destruct (follow_take _ _ _ _ (whole_steps r w now) Hf) as [v Hv].
  pose proof (tile_walk_follow _ _ _ _ Hv) as Htile.
  rewrite /tile_at Htile. split; [done|]. by eapply follow_walkable.
Qed.

(** An agent that has walked its whole path stands in its destination. *)
Lemma tile_at_arrived p r u w now :
  validate_record_geometry p r = Ok u →
  (length (to_bytes (sr_path r)) ≤ whole_steps r w now)%nat →
  ∃ destination, place p (sr_destination_place_id r) = Some destination
    ∧ tile_at r w now ∈ tiles destination.
Proof.
  intros (Hw & t & dest & Hf & Hp & Ht)%geometry_walk Hlen. exists dest. split; [done|].
  rewrite /tile_at take_ge //. by rewrite (tile_walk_follow _ _ _ _ Hf).
Qed.

(** Before its departure an agent stands at the start of its walk. *)
Lemma before_departure r now :
  now ≤ sr_depart_at r → elapsed_ms r now = 0.
Proof.
  intros Hn. rewrite /elapsed_ms /i64_saturating_sub /clamp /i64_min /i64_max. lia.
Qed.

Lemma min_zero_steps y : fl_to_usize (fl_min (S754_zero false) y) = 0.
Proof. destruct y as [[]|[]| |[] ? ?]; done. Qed.

Lemma tile_at_departure r w now :
  now ≤ sr_depart_at r → positive_finite w = true → tile_at r w now = sr_from_tile r.
Proof.
  intros Hn Hw. rewrite /tile_at.
  assert (whole_steps r w now = 0%nat) as ->; [|by rewrite take_0].
  rewrite /whole_steps /travelled before_departure //.
  assert (∃ m e, of_f64 w = S754_finite false m e) as (m & e & ->).
  { rewrite /positive_finite in Hw. bool_to_prop. rewrite /of_f64.
    assert ((2 ^ 63 <=? w) = false) as ->. { apply Z.leb_gt. lia. }
    assert (0 ≤ w / 2 ^ 52 < 2047) as He.
    { split; [apply Z.div_pos; lia|]. apply Z.div_lt_upper_bound; lia. }
    pose proof (Z.mod_pos_bound w (2 ^ 52)) as Hm. pose proof (Z.div_mod w (2 ^ 52)) as Hd.
    rewrite (Z.mod_small (w / 2 ^ 52)); [|lia].
    destruct (Z.eqb_spec (w / 2 ^ 52) 2047); [lia|].
    destruct (Z.eqb_spec (w / 2 ^ 52) 0) as [E|E].
    - destruct (w mod 2 ^ 52) eqn:Em; [lia| |lia]. eauto.
    - destruct (w mod 2 ^ 52 + 2 ^ 52) eqn:Em; [lia| |lia]. eauto. }
  replace (fl_floor _) with (S754_zero false) by done.
  by rewrite min_zero_steps.
Qed.

(** An agent without a walk stands still. *)
Lemma tile_at_still r w now : sr_path r = ""%string → tile_at r w now = sr_from_tile r.
Proof. intros Hp. by rewrite /tile_at Hp take_nil. Qed.

(** ** Skin labels *)

Definition skin_label (c : SkinChoice) : string :=
  match c with BuiltIn n => builtin_skin_label n | Custom id => id end.

Definition wearable (c : SkinChoice) : Prop :=
  match c with
  | BuiltIn n => (n < 25)%N
  | Custom id => validate_skin_id id = Ok tt
  end.

Lemma validate_skin_id_ok id u :
  validate_skin_id id = Ok u ↔
  String.length id = SKIN_ID_LEN ∧ forallb is_lower_hex (to_bytes id) = true.
Proof.
  rewrite /validate_skin_id. destruct u, (Nat.eqb_spec (String.length id) SKIN_ID_LEN) as [->|],
    (forallb _ _); simpl; naive_solver.
Qed.

Lemma of_to_bytes s : of_bytes (to_bytes s) = s.
Proof. apply String.string_of_list_ascii_of_string. Qed.

Lemma hex_not_builtin id :
  forallb is_lower_hex (to_bytes id) = true →
  strip_prefix (to_bytes BUILTIN_SKIN_PREFIX) (to_bytes id) = None.
Proof.
  intros Hh. destruct (strip_prefix _ _) as [k|] eqn:E; [|done].
  apply strip_prefix_Some in E. rewrite E forallb_app in Hh.
  by apply andb_true_iff in Hh as [Hh _].
Qed.

Lemma strip_prefix_app (l k : bytes) : strip_prefix l (l ++ k) = Some k.
Proof. by apply strip_prefix_Some. Qed.

Lemma parse_print_skin c : wearable c → parse_skin_label (skin_label c) = Ok c.
Proof.
  rewrite /parse_skin_label. destruct c as [n|id]; rewrite /skin_label /wearable.
  - intros Hn. rewrite /builtin_skin_label to_bytes_app strip_prefix_app of_to_bytes.
    destruct (show_Z_decimal (Z.of_N n)) as (Hd & Hv & Hne); [lia|].
    rewrite -(of_to_bytes (show_Z (Z.of_N n))) /parse_u8 parse_uint_digits // Hv /uint_checked.
    rewrite /u8_max /SPACE_AVATAR_COUNT.
    assert ((0 <=? Z.of_N n) && (Z.of_N n <=? 255) = true) as -> by lia.
    assert ((Z.of_N n <? 25) = true) as -> by lia. by rewrite N2Z.id.
  - intros Hid. destruct (proj1 (validate_skin_id_ok _ _) Hid) as [_ Hh].
    by rewrite hex_not_builtin // Hid.
Qed.

(** Skin labels round trip: every wearable skin is what the parser reads
    from its label, everything the parser accepts is wearable, and the label a
    presence record shows for the choice it stores reads back as that choice. *)
Theorem skin_label_roundtrip c label r :
  (wearable c → parse_skin_label (skin_label c) = Ok c)
  ∧ (parse_skin_label label = Ok c → wearable c)
  ∧ (match sr_skin_id r with Some id => validate_skin_id id = Ok tt | None => True end →
     (default 0 (sr_avatar_id r) < 25)%N →
     parse_skin_label (skin r) =
       Ok (match sr_skin_id r with
           | Some id => Custom id
           | None => BuiltIn (default 0%N (sr_avatar_id r))
           end)).
Proof.
  split_and!.
  - apply parse_print_skin.
  - rewrite /parse_skin_label. destruct (strip_prefix _ _) as [k|].
    + destruct (parse_u8 (of_bytes k)) as [n|] eqn:E; [|done].
      destruct (Z.ltb_spec n SPACE_AVATAR_COUNT) as [Hn|]; [|done]. intros [= <-]. simpl.
      rewrite /SPACE_AVATAR_COUNT in Hn. lia.
    + destruct (validate_skin_id label) as [[]|] eqn:E; [|done]. by intros [= <-].
  - rewrite /skin. destruct (sr_skin_id r) as [id|]; intros Hid Hn.
    + by apply (parse_print_skin (Custom id)).
    + by apply (parse_print_skin (BuiltIn _)).
Qed.

(** ** The shared movement vectors

    [crates/gateway-contract/tests/fixtures/space_movement_vectors.json]. *)

Module WalkScenario.

Definition record (path : string) : SpacePresenceRecord :=
  mkSpacePresenceRecord "agent" None None "" "the-ville" "sha256:version" false 1 (10, 10)%N
    path 10000 "park" "" None 10000.

Definition speed_2 : f64 := 0x4000000000000000.
Definition speed_1_25 : f64 := 0x3FF4000000000000.

(** [k / 2] as a double. *)
Definition half (k : Z) : spec_float := fl_div (fl_of_Z k) (fl_of_Z 2).

Example up_half : position_at (record "U") speed_2 10250 = (half 20, half 19)
  ∧ tile_at (record "U") speed_2 10250 = (10, 10)%N.
Proof. by vm_compute. Qed.
Example turn_half : position_at (record "URDD") speed_2 10750 = (half 21, half 18)
  ∧ tile_at (record "URDD") speed_2 10750 = (10, 9)%N.
Proof. by vm_compute. Qed.
Example exact_boundary : position_at (record "URDD") speed_2 10500 = (half 20, half 18)
  ∧ tile_at (record "URDD") speed_2 10500 = (10, 9)%N.
Proof. by vm_compute. Qed.
Example around_boundary : tile_at (record "URDD") speed_2 10499 = (10, 10)%N
  ∧ tile_at (record "URDD") speed_2 10501 = (10, 9)%N.
Proof. by vm_compute. Qed.
Example before_departure_vector : position_at (record "URDD") speed_2 9000 = (half 20, half 20).
Proof. by vm_compute. Qed.
Example late_receipt : position_at (record "URDD") speed_2 30000 = (half 22, half 22)
  ∧ tile_at (record "URDD") speed_2 30000 = (11, 11)%N.
Proof. by vm_compute. Qed.
Example fractional_speed : position_at (record "RDL") speed_1_25 11200 = (half 22, half 21)
  ∧ tile_at (record "RDL") speed_1_25 11200 = (11, 10)%N.
Proof. by vm_compute. Qed.

Lemma skin_label_roundtrip_witness : parse_skin_label "builtin:7" = Ok (BuiltIn 7).
Proof.
  change "builtin:7"%string with (skin_label (BuiltIn 7)).
  apply (skin_label_roundtrip (BuiltIn 7) "" (record "")). done.
Defined.

End WalkScenario.
