(* ===== verification/Presence.v ===== *)
(** * The presence registry

    [crates/control-plane/src/routes/space/registry.rs]: the records by which
    this node's agent is present in spaces, one per network and space. Every
    change is signed with a fresh sequence number, saved, and published. A call
    reads its surroundings from an [Env]: the signer, the network and its
    permission, the gateways' replies, the clock. The map in use, the registry,
    the saved document and the event stream are the state. *)

From S2P Require Import Prelude Collections Text Json Signing Hashcash Identities Space SpaceCatalog Walk.
From Stdlib Require Import SpecFloat.
#[local] Open Scope Z_scope.
#[local] Set Default Proof Using "Type*".

(** ** Data *)

#[global] Instance SpacePresenceRecord_eq_dec : EqDecision SpacePresenceRecord.
Proof. solve_decision. Defined.
#[global] Instance SpacePresenceRecord_eta : Eta SpacePresenceRecord := λ r,
  mkSpacePresenceRecord (sr_agent_did r) (sr_avatar_id r) (sr_skin_id r) (sr_network_id r)
    (sr_space_id r) (sr_space_version r) (sr_entered r) (sr_seq r) (sr_from_tile r) (sr_path r)
    (sr_depart_at r) (sr_destination_place_id r) (sr_activity r) (sr_object_place_id r)
    (sr_updated_at r).

Definition Networks : Type := gmap string (gmap string SignedSpacePresence).

Record OwnSpacePresence := mkOwn {
  own_networks : Networks;
  active_space : option (string * string);
}.
#[global] Instance OwnSpacePresence_eta : Eta OwnSpacePresence := λ o,
  mkOwn (own_networks o) (active_space o).

(** [SpaceMaps] of [map_source.rs]: the map in use, the foreign versions that
    already sent one catalog check, the refreshes started, and whether the map
    is a local override. *)
Record SpaceMaps := mkSpaceMaps {
  sm_current : option SpaceCatalog;
  sm_checked : gset string;
  sm_attempts : Z;
  sm_pinned : bool;
}.
#[global] Instance SpaceMaps_eta : Eta SpaceMaps := λ m,
  mkSpaceMaps (sm_current m) (sm_checked m) (sm_attempts m) (sm_pinned m).

(** The catalog and the packages it names, as published. *)
Record CachedCatalog := mkCachedCatalog {
  cc_catalog : string;
  cc_packages : gmap string string;
}.

(** The map, the registry, the documents of the two domains in the local
    database, the events sent, and the refreshes spawned in the background. *)
Record SpaceState := mkSpaceState {
  maps : SpaceMaps;
  own_space_presence : OwnSpacePresence;
  saved_presence : option Networks;
  saved_catalog : option CachedCatalog;
  stream : list SignedSpacePresence;
  spawned : nat;
}.
#[global] Instance SpaceState_eta : Eta SpaceState := λ s,
  mkSpaceState (maps s) (own_space_presence s) (saved_presence s) (saved_catalog s) (stream s)
    (spawned s).

(** [SpaceMaps::get]. *)
Definition space_catalog (s : SpaceState) : option SpaceCatalog := sm_current (maps s).

(** The serializer of a record: absent and default members are skipped. *)
Definition record_json (r : SpacePresenceRecord) : json :=
  JObject
    ([("agent_did", JString (sr_agent_did r))]
     ++ match sr_avatar_id r with Some n => [("avatar_id", json_of_N n)] | None => [] end
     ++ match sr_skin_id r with Some i => [("skin_id", JString i)] | None => [] end
     ++ (if String.eqb (sr_network_id r) "" then []
         else [("network_id", JString (sr_network_id r))])
     ++ [("space_id", JString (sr_space_id r)); ("space_version", JString (sr_space_version r))]
     ++ (if sr_entered r then [("entered", JBool true)] else [])
     ++ [("seq", json_of_N (sr_seq r)); ("from_tile", tile_json (sr_from_tile r));
         ("path", JString (sr_path r)); ("depart_at", json_of_Z (sr_depart_at r));
         ("destination_place_id", JString (sr_destination_place_id r));
         ("activity", JString (sr_activity r));
         ("object_place_id", json_of_option JString (sr_object_place_id r));
         ("updated_at", json_of_Z (sr_updated_at r))]).

(** [Iterator::max_by_key]: the last of the largest elements. *)
Fixpoint max_by (leb : SignedSpacePresence → SignedSpacePresence → bool)
    (l : list SignedSpacePresence) : option SignedSpacePresence :=
  match l with
  | [] => None
  | x :: l' =>
      match max_by leb l' with
      | None => Some x
      | Some y => if leb x y then Some y else Some x
      end
  end.
Definition by_seq (a b : SignedSpacePresence) : bool :=
  (sr_seq (sp_record a) <=? sr_seq (sp_record b))%N.
Definition by_updated (a b : SignedSpacePresence) : bool :=
  sr_updated_at (sp_record a) <=? sr_updated_at (sp_record b).

(** By [(seq, entered)]: [false < true]. *)
Definition by_seq_entered (a b : SignedSpacePresence) : bool :=
  let '(x, y) := (sp_record a, sp_record b) in
  (sr_seq x <? sr_seq y)%N
  || (sr_seq x =? sr_seq y)%N && implb (sr_entered x) (sr_entered y).

(** ** Queries *)

(** [networks.get(network).into_iter().flat_map(values)]. *)
Definition network_values (m : Networks) (network : string) : list SignedSpacePresence :=
  match m !! network with Some spaces => btree_values spaces | None => [] end.

Definition stored (o : OwnSpacePresence) (network space : string) : option SignedSpacePresence :=
  spaces ← own_networks o !! network; spaces !! space.

Definition active_space_id (o : OwnSpacePresence) (network : string) : option string :=
  match active_space o with
  | Some (n, space) => if String.eqb n network then Some space else None
  | None => None
  end.

Definition sequence_floor (o : OwnSpacePresence) (network : string) : N :=
  foldr N.max 0%N ((λ s, sr_seq (sp_record s)) <$> network_values (own_networks o) network).

Definition get (o : OwnSpacePresence) (network : string) (p : SpacePackage)
    : option SignedSpacePresence :=
  option_filter (λ s, is_ok (validate_activity (sr_activity (sp_record s))))
    (option_filter (λ s, String.eqb (sr_space_version (sp_record s)) (space_version p))
      (stored o network (space_id p))).

Definition visible_get (o : OwnSpacePresence) (network : string) (p : SpacePackage)
    : option SignedSpacePresence :=
  if bool_decide (active_space_id o network = Some (space_id p)) then
    option_filter (λ s, sr_entered (sp_record s) && String.eqb (sr_network_id (sp_record s)) network)
      (get o network p)
  else None.

Definition catalog_package (c : option SpaceCatalog) (space : string) : option SpacePackage :=
  c ← c; current c space.

(** ** The surroundings of a call *)

Record NetworkPermissionCheckpoint := mkCheckpoint {
  cp_agent_did : string;
  cp_network_id : string;
  cp_permission_status : string;
}.

(** The credential that verified: its id, and whether the trust anchor stored
    with it decodes. *)
Record VerifiedCredential := mkVerified {
  vc_credential_id : string;
  vc_trust_anchor : result unit;
}.

Record Env := mkEnv {
  env_agent_did : string;
  env_signer : PayloadSigner;
  (** [did_key_from_public_key_b64] *)
  did_of_public_key : string → result string;
  (** [swarm_bridge.current_network_id()] *)
  swarm_network : result string;
  (** [LocalDb::load_network_permission_checkpoint] for a network, or the latest *)
  load_checkpoint : option string → result (option NetworkPermissionCheckpoint);
  (** [verify_membership_credential_for_network_start] *)
  verify_credential : string → string → result (option VerifiedCredential);
  gateway_urls : list string;
  (** The record a gateway has of this agent on a network: nothing (404), a
      record, or no usable answer. *)
  gateway_record : string → string → result (option SignedSpacePresence);
  (** [LedgerClient::owns_skin]; no client without a gateway *)
  owns_skin : option (string → string → result bool);
  (** [LocalDb::save_domain] *)
  save_result : result unit;
  random_avatar : N;
  (** [chrono::Duration::milliseconds(..).as_seconds_f64()] *)
  as_seconds_f64 : Z → spec_float;
  now_ms : Z;
  (** [GET catalog.json] of a gateway, and a package relative to it *)
  fetch_catalog : string → result string;
  fetch_package : string → string → result string;
  (** the derived deserializers of a catalog and a package *)
  decode_catalog : string → result (string * list SpaceCatalogEntry);
  decode_package : string → result SpacePackage;
  (** [LocalDb::save_domain] of the catalog cache *)
  save_catalog_result : result unit;
}.

Definition PERMISSION_STATUS_ACTIVE : string := "active".

Section registry.
Context `{Crypto} `{Digest} (E : Env).

Definition permission_credential (cp : NetworkPermissionCheckpoint) : result (option string) :=
  verified ← (if String.eqb (cp_permission_status cp) PERMISSION_STATUS_ACTIVE
              then verify_credential E (cp_agent_did cp) (cp_network_id cp) else Ok None);
  match verified with
  | Some v =>
      _ ← with_context "decode verified network Credential trust anchor" (vc_trust_anchor v);
      Ok (Some (vc_credential_id v))
  | None => Ok None
  end.

Definition verified_checkpoint_network : result (option string) :=
  checkpoint ← load_checkpoint E None;
  match checkpoint with
  | None => Ok None
  | Some cp =>
      credential ← permission_credential cp;
      Ok (match credential with Some _ => Some (cp_network_id cp) | None => None end)
  end.

Definition current_network : result string :=
  network ←
    match swarm_network E with
    | Ok n => if is_blank n
              then verified_checkpoint_network ≫= ok_or "current network is unavailable"
              else Ok n
    | Err _ => verified_checkpoint_network ≫= ok_or "current network is unavailable"
    end;
  if is_blank network then Err "current network is unavailable" else Ok network.

Definition require_active_network : result string :=
  network ← current_network;
  checkpoint ← load_checkpoint E (Some network);
  cp ← ok_or "active network agent permission is required to join Agent Space" checkpoint;
  credential ← permission_credential cp;
  _ ← ensure_ok (String.eqb (cp_permission_status cp) PERMISSION_STATUS_ACTIVE
                 && bool_decide (is_Some credential))
        "active network agent permission is required to join Agent Space";
  Ok network.

(** ** Verification *)

Definition is_direction (a : ascii) : bool := bool_decide (a ∈ DIRECTIONS).

Definition verify_presence_signature (s : SignedSpacePresence) : result unit :=
  let r := sp_record s in
  _ ← ensure_ok (0 <? sr_seq r)%N "presence sequence must be positive";
  _ ← ensure_ok (negb (is_blank (sr_space_id r)) && negb (is_blank (sr_space_version r)))
        "presence Space identity is required";
  _ ← ensure_ok (forallb is_direction (to_bytes (sr_path r)))
        "presence path contains invalid directions";
  did ← did_of_public_key E (sp_public_key s);
  _ ← ensure_ok (String.eqb did (sr_agent_did r)) "presence DID does not match public key";
  valid ← verify_payload (record_json r) (sp_signature s) (sp_public_key s);
  ensure_ok valid "invalid presence signature".

Definition verify_presence (p : SpacePackage) (s : SignedSpacePresence) : result unit :=
  _ ← verify_presence_signature s;
  _ ← validate_activity (sr_activity (sp_record s));
  validate_record_geometry p (sp_record s).

Definition projection (o : OwnSpacePresence) (network : string) (c : option SpaceCatalog)
    : list SignedSpacePresence :=
  List.filter (λ s,
      String.eqb (sr_network_id (sp_record s)) network
      && is_ok (validate_activity (sr_activity (sp_record s)))
      && (negb (sr_entered (sp_record s))
          || bool_decide (active_space_id o network = Some (sr_space_id (sp_record s)))
             && match catalog_package c (sr_space_id (sp_record s)) with
                | Some p => is_ok (verify_presence p s)
                | None => false
                end))
    (network_values (own_networks o) network).

(** ** Skins and sequence numbers *)

Definition assigned_skin (o : OwnSpacePresence) (recovered : list SignedSpacePresence)
    : N * option string :=
  match max_by by_updated
          (List.filter (λ s, bool_decide (is_Some (sr_avatar_id (sp_record s))))
             (recovered ++ mjoin (btree_values <$> btree_values (own_networks o)))) with
  | None => (random_avatar E, None)
  | Some s => (default 0%N (sr_avatar_id (sp_record s)), sr_skin_id (sp_record s))
  end.

Definition confirm_skin_ownership (skin_id : string) : option string :=
  match owns_skin E with
  | None => Some skin_id
  | Some owns =>
      match owns (env_agent_did E) skin_id with
      | Ok true => Some skin_id
      | Ok false => None
      | Err _ => Some skin_id
      end
  end.

(** [u64::checked_add(1)]. *)
Definition u64_checked_succ (n : N) : option N :=
  if (n <? 2 ^ 64 - 1)%N then Some (n + 1)%N else None.

Definition next_sequence (o : OwnSpacePresence) (network : string)
    (recovered : list SignedSpacePresence) : result N :=
  ok_or "presence sequence exhausted"
    (u64_checked_succ
      (foldl N.max (N.max (sequence_floor o network) (sequence_floor o ""))
         ((λ s, sr_seq (sp_record s)) <$> recovered))).

Definition sequence_conflicts (existing : SignedSpacePresence)
    (recovered : list SignedSpacePresence) : bool :=
  existsb (λ s,
    (sr_seq (sp_record existing) <? sr_seq (sp_record s))%N
    || (sr_seq (sp_record s) =? sr_seq (sp_record existing))%N
       && negb (bool_decide (sp_record s = sp_record existing))) recovered.

Record GatewaySequenceRecovery := mkRecovery {
  rec_records : list SignedSpacePresence;
  successful_query : bool;
}.

Definition recovered_record (gateway queried : string) : result (option SignedSpacePresence) :=
  reply ← gateway_record E gateway queried;
  match reply with
  | None => Ok None
  | Some s =>
      _ ← ensure_ok (String.eqb (sr_agent_did (sp_record s)) (env_agent_did E)
                     && String.eqb (sr_network_id (sp_record s)) queried)
            "recovered presence does not match local network and agent";
      _ ← verify_presence_signature s;
      Ok (Some s)
  end.

Definition recover_query (network : string) (acc : GatewaySequenceRecovery)
    (query : string * string) : GatewaySequenceRecovery :=
  match recovered_record query.1 query.2 with
  | Ok s =>
      mkRecovery (rec_records acc ++ option_list s)
        (successful_query acc || String.eqb query.2 network)
  | Err _ => acc
  end.

Definition recover_gateway_sequence (network : string) : GatewaySequenceRecovery :=
  foldl (recover_query network) (mkRecovery [] false)
    (mjoin ((λ gateway, [(gateway, network); (gateway, ""%string)]) <$> gateway_urls E)).

(** ** Signing and saving *)

(** The stored record of an unknown space, made inactive: the only change the
    node signs without the map of the space. *)
Definition inactive_of (network : string) (saved record : SpacePresenceRecord)
    : SpacePresenceRecord :=
  saved <| sr_network_id := network |> <| sr_entered := false |>
        <| sr_seq := sr_seq record |> <| sr_updated_at := sr_updated_at record |>.

Definition check_record (c : option SpaceCatalog) (o : OwnSpacePresence) (network : string)
    (record : SpacePresenceRecord) : result unit :=
  match option_filter (λ p, String.eqb (space_version p) (sr_space_version record))
          (catalog_package c (sr_space_id record)) with
  | Some p => validate_record p record
  | None =>
      saved ← ok_or "inactive unknown Space requires a saved own record"
                (stored o network (sr_space_id record));
      _ ← verify_presence_signature saved;
      ensure_ok (negb (sr_entered record)
                 && bool_decide (record = inactive_of network (sp_record saved) record))
        "inactive unknown Space must preserve saved geometry and content"
  end.

Definition sign_record (c : option SpaceCatalog) (o : OwnSpacePresence) (network : string)
    (record : SpacePresenceRecord) : result SignedSpacePresence :=
  _ ← ensure_ok (String.eqb (sr_agent_did record) (env_agent_did E))
        "presence is not the local agent";
  let record := record <| sr_network_id := network |> in
  _ ← check_record c o network record;
  _ ← validate_activity (sr_activity record);
  signature ← sign_payload_with (record_json record) (env_signer E);
  Ok (mkSignedSpacePresence record (ps_public_key (env_signer E)) signature).

Definition insert_signed (network : string) (m : Networks) (s : SignedSpacePresence) : Networks :=
  <[network := <[sr_space_id (sp_record s) := s]> (default ∅ (m !! network))]> m.

(** The new records are signed one by one against the registry as it was; one
    document is saved, and only then the registry changes. *)
Definition persist_records (c : option SpaceCatalog) (network : string)
    (records : list SpacePresenceRecord) (o : OwnSpacePresence)
    : result (list SignedSpacePresence * OwnSpacePresence) :=
  _ ← ensure_ok (String.eqb (ps_agent_did (env_signer E)) (env_agent_did E))
        "active signer is not the local agent";
  signed ← collect (sign_record c o network) records;
  let candidate := o <| own_networks ::= λ m, foldl (insert_signed network) m signed |> in
  _ ← save_result E;
  Ok (signed, candidate).

Definition emit_presence (s : SignedSpacePresence) : stm SpaceState unit :=
  modify (λ st, st <| stream ::= λ l, l ++ [s] |>).

Fixpoint emit_all (l : list SignedSpacePresence) : stm SpaceState unit :=
  match l with
  | [] => mret tt
  | s :: l' => emit_presence s ;; emit_all l'
  end.

(** The registry after a successful save, and the document saved. *)
Definition put_own (o : OwnSpacePresence) : stm SpaceState unit :=
  modify (λ st, st <| own_space_presence := o |> <| saved_presence := Some (own_networks o) |>).

Definition persist_presence (network : string) (record : SpacePresenceRecord)
    : stm SpaceState SignedSpacePresence :=
  c ← gets space_catalog;
  o ← gets own_space_presence;
  r ← lift (persist_records c network [record] o);
  put_own r.2 ;;
  lift (ok_or "missing persisted presence" (last r.1)).

Definition emit_current_space_presence : stm SpaceState unit :=
  match current_network with
  | Err _ => mret tt
  | Ok network =>
      c ← gets space_catalog;
      o ← gets own_space_presence;
      emit_all (projection o network c)
  end.

(** ** Records *)

Definition spawn_record (p : SpacePackage) (place : string) (now : Z)
    : result SpacePresenceRecord :=
  t ← destination_tile p (env_agent_did E) place;
  Ok (mkSpacePresenceRecord (env_agent_did E) None None "" (space_id p) (space_version p) false 1
        t "" now place "" None now).

Definition restore_record (p : SpacePackage) (saved : option SignedSpacePresence) (now : Z)
    : result SpacePresenceRecord :=
  match saved with
  | None => spawn_record p (spawn_place_id p) now
  | Some saved =>
      let record := sp_record saved <| sr_space_version := space_version p |>
                                    <| sr_updated_at := now |> in
      let record := if is_ok (validate_activity (sr_activity record)) then record
                    else record <| sr_activity := ""%string |> in
      if is_ok (validate_record p record) then Ok record
      else
        let t := tile_at (sp_record saved) (walk_speed p) now in
        if negb (is_walkable p t) then spawn_record p (spawn_place_id p) now
        else
          let record := record <| sr_from_tile := t |> <| sr_depart_at := now |> in
          record ←
            match destination_tile p (env_agent_did E) (sr_destination_place_id record)
                    ≫= path p t with
            | Ok w => Ok (record <| sr_path := w |>)
            | Err _ =>
                pl ← ok_or "current tile has no place" (place_at_tile p t);
                Ok (record <| sr_path := ""%string |> <| sr_destination_place_id := place_id pl |>
                           <| sr_object_place_id := None |>)
            end;
          let record := if is_ok (validate_record p record) then record
                        else record <| sr_object_place_id := None |> in
          _ ← validate_record p record;
          Ok record
  end.

(** ** Maps *)

(** The record of the active space, when it was signed on another version. *)
Definition stale_record (o : OwnSpacePresence) (network space : string) (p : SpacePackage)
    : option SignedSpacePresence :=
  option_filter (λ s, sr_entered (sp_record s)
                      && negb (String.eqb (sr_space_version (sp_record s)) (space_version p)))
    (stored o network space).

Definition adopt_map (c : SpaceCatalog) : stm SpaceState unit :=
  modify (λ st, st <| maps ::= λ m, m <| sm_current := Some c |> |>) ;;
  o ← gets own_space_presence;
  match current_network with
  | Err _ => mret tt
  | Ok network =>
      match active_space_id o network with
      | None => mret tt
      | Some space =>
          match current c space with
          | None => mret tt
          | Some p =>
              match stale_record o network space p with
              | None => mret tt
              | Some saved =>
                  record ← lift (restore_record p (Some saved) (now_ms E));
                  seq ← lift (next_sequence o network []);
                  let record := record <| sr_avatar_id := sr_avatar_id (sp_record saved) |>
                                       <| sr_skin_id := sr_skin_id (sp_record saved) |>
                                       <| sr_entered := true |> <| sr_seq := seq |> in
                  signed ← persist_presence network record;
                  emit_presence signed
              end
          end
      end
  end.
End registry.

(** ** Sequence floors *)

Lemma foldr_max_ge (l : list N) x : x ∈ l → (x ≤ foldr N.max 0 l)%N.
Proof. induction 1; simpl; lia. Qed.

Lemma foldr_max_le (l : list N) b : (∀ x, x ∈ l → x ≤ b)%N → (foldr N.max 0 l ≤ b)%N.
Proof.
  induction l as [|a l IH]; simpl; intros Hl; [lia|].
  assert (a ≤ b)%N by (apply Hl; constructor).
  assert (foldr N.max 0 l ≤ b)%N by (apply IH; intros; apply Hl; by constructor). lia.
Qed.

Lemma foldl_max_ge (l : list N) a : (a ≤ foldl N.max a l)%N ∧ ∀ x, x ∈ l → (x ≤ foldl N.max a l)%N.
Proof.
  revert a. induction l as [|y l IH]; intros a; simpl; [split; [lia|by intros ? ?%elem_of_nil]|].
  destruct (IH (N.max a y)) as [H1 H2]. split; [lia|].
  intros x [->|Hx]%elem_of_cons; [lia|by apply H2].
Qed.

Lemma elem_of_network_values m n s :
  s ∈ network_values m n ↔ ∃ spaces k, m !! n = Some spaces ∧ spaces !! k = Some s.
Proof.
  rewrite /network_values. destruct (m !! n) as [spaces|]; [rewrite elem_of_btree_values|].
  - split; [intros [k Hk]; eauto|]. intros (? & k & [= <-] & ?). eauto.
  - split; [by intros ?%elem_of_nil|]. by intros (? & ? & ? & _).
Qed.

Lemma stored_values o n k s : stored o n k = Some s → s ∈ network_values (own_networks o) n.
Proof. intros (spaces & Hn & Hk)%bind_Some. apply elem_of_network_values. eauto. Qed.

Lemma floor_ge o n s :
  s ∈ network_values (own_networks o) n → (sr_seq (sp_record s) ≤ sequence_floor o n)%N.
Proof. intros Hs. apply foldr_max_ge, list_elem_of_fmap. eauto. Qed.

Lemma floor_le o n b :
  (∀ s, s ∈ network_values (own_networks o) n → sr_seq (sp_record s) ≤ b)%N →
  (sequence_floor o n ≤ b)%N.
Proof. intros Hb. apply foldr_max_le. intros x (s & -> & Hs)%list_elem_of_fmap. by apply Hb. Qed.

(** A new sequence number is above all the node and the gateways know of. *)
Lemma next_sequence_gt o n recovered seq :
  next_sequence o n recovered = Ok seq →
  (sequence_floor o n < seq ∧ 0 < seq ∧ ∀ s, s ∈ recovered → sr_seq (sp_record s) < seq)%N.
Proof.
  rewrite /next_sequence /u64_checked_succ. intros Hn%ok_or_ok. case_match; [|done].
  injection Hn as <-.
  match goal with |- context [foldl N.max ?a ?l] => pose proof (foldl_max_ge l a) as [H1 H2] end.
  split_and!; [lia|lia|]. intros s Hs.
  enough (sr_seq (sp_record s) ≤ foldl N.max
    (sequence_floor o n `max` sequence_floor o "") ((λ s, sr_seq (sp_record s)) <$> recovered))%N
    by lia.
  apply H2, list_elem_of_fmap. eauto.
Qed.

(** ** Insertion *)

Lemma insert_signed_lookup n m s n' :
  insert_signed n m s !! n'
  = if decide (n' = n) then Some (<[sr_space_id (sp_record s) := s]> (default ∅ (m !! n)))
    else m !! n'.
Proof.
  rewrite /insert_signed. case_decide as E; [subst; by rewrite lookup_insert_eq|].
  by rewrite lookup_insert_ne.
Qed.

Lemma insert_signed_values n m s s' n' :
  s' ∈ network_values (insert_signed n m s) n' →
  (n' = n ∧ s' = s) ∨ s' ∈ network_values m n'.
Proof.
  rewrite !elem_of_network_values insert_signed_lookup.
  intros (spaces & k & Hn & Hk). case_decide as E; [|right; eauto]. subst n'.
  injection Hn as <-. apply lookup_insert_Some in Hk as [[_ <-]|[_ Hk]]; [by left|].
  destruct (m !! n) as [sp|] eqn:Em; simpl in Hk; [|by rewrite lookup_empty in Hk].
  right. eauto.
Qed.

Lemma insert_signed_new n m s : s ∈ network_values (insert_signed n m s) n.
Proof.
  apply elem_of_network_values. rewrite insert_signed_lookup decide_True //.
  eexists _, _. split; [done|]. apply lookup_insert_eq.
Qed.

Definition set_networks (o : OwnSpacePresence) (f : Networks → Networks) : OwnSpacePresence :=
  mkOwn (f (own_networks o)) (active_space o).

Lemma floor_insert_other n s o n' :
  n' ≠ n → sequence_floor (set_networks o (λ m, insert_signed n m s)) n' = sequence_floor o n'.
Proof.
  intros Hn. rewrite /sequence_floor /network_values /= insert_signed_lookup.
  by rewrite decide_False.
Qed.

(** A record that is not below the floor becomes the floor. *)
Lemma floor_insert n s o :
  (sequence_floor o n ≤ sr_seq (sp_record s))%N →
  sequence_floor (set_networks o (λ m, insert_signed n m s)) n = sr_seq (sp_record s).
Proof.
  intros Hf. apply N.le_antisymm.
  - apply floor_le. intros s' [[_ ->]|Hs']%insert_signed_values; [lia|].
    apply floor_ge in Hs'. lia.
  - apply floor_ge, insert_signed_new.
Qed.

Lemma floor_insert_mono n s o n' :
  (sequence_floor o n ≤ sr_seq (sp_record s))%N →
  (sequence_floor o n' ≤ sequence_floor (set_networks o (λ m, insert_signed n m s)) n')%N.
Proof.
  intros Hf. destruct (decide (n' = n)) as [->|Hn]; [by rewrite floor_insert|].
  by rewrite floor_insert_other.
Qed.

(** ** Stored records *)

(** A map whose packages are validated and served under their own ids: what
    [SpaceCatalog::from_sources] builds. *)
Definition catalog_valid `{Crypto} (c : option SpaceCatalog) : Prop :=
  ∀ id p, catalog_package c id = Some p → validate p = Ok tt ∧ space_id p = id.

(** The key the node signs with is the one of its DID: the documented contract
    of an Ed25519 identity. *)
Class PresenceSigner `{Crypto} (E : Env) : Prop := {
  signer_did : did_of_public_key E (ps_public_key (env_signer E))
                 = Ok (ps_agent_did (env_signer E));
  signer_verifies m sig : sign_bytes (env_signer E) m = Ok sig →
    verify_with_public_key m sig (ps_public_key (env_signer E)) = Ok true;
}.

Section stored.
Context `{Crypto} `{Digest}.

(** A stored record is the agent's own, under the right keys, and its
    signature verifies. *)
Definition entry_ok (E : Env) (n k : string) (s : SignedSpacePresence) : Prop :=
  sr_space_id (sp_record s) = k ∧ sr_agent_did (sp_record s) = env_agent_did E
  ∧ (sr_network_id (sp_record s) = ""%string ∨ sr_network_id (sp_record s) = n)
  ∧ verify_presence_signature E s = Ok tt.

Definition networks_ok (E : Env) (m : Networks) : Prop :=
  ∀ n spaces k s, m !! n = Some spaces → spaces !! k = Some s → entry_ok E n k s.

Lemma networks_ok_values E m n s :
  networks_ok E m → s ∈ network_values m n → entry_ok E n (sr_space_id (sp_record s)) s.
Proof.
  intros Hm (spaces & k & Hn & Hk)%elem_of_network_values.
  pose proof (Hm _ _ _ _ Hn Hk) as Hok. by destruct Hok as (<- & ?).
Qed.

Lemma follow_directions p t l u :
  follow p t l = Some u → forallb is_direction l = true.
Proof.
  revert t. induction l as [|d l IH]; intros t; [done|].
  cbn [follow]. intros (next & Hs & Hf)%bind_Some. cbn. rewrite (IH _ Hf) andb_true_r.
  apply bool_decide_eq_true. by eapply step_direction.
Qed.

Lemma validate_record_facts p r u :
  validate_record p r = Ok u →
  sr_space_id r = space_id p ∧ sr_space_version r = space_version p ∧ (0 < sr_seq r)%N
  ∧ forallb is_direction (to_bytes (sr_path r)) = true
  ∧ validate_record_geometry p r = Ok u.
Proof.
  rewrite /validate_record. intros Hv. result_inv. bool_to_prop.
  pose proof (geometry_walk _ _ _ Hv) as (_ & t & _ & Hf & _).
  split_and!; try done; [|by eapply follow_directions].
  rewrite /validate_record_geometry in Hv. result_inv. by apply N.ltb_lt.
Qed.

Lemma version_not_blank p : validate p = Ok tt → is_blank (space_version p) = false.
Proof.
  intros (_ & _ & _ & _ & _ & _ & content & _ & ->)%validate_facts. by apply not_blank_head.
Qed.

Lemma space_id_not_blank p : validate p = Ok tt → is_blank (space_id p) = false.
Proof. rewrite /validate. intros Hv. result_inv. by bool_to_prop. Qed.

Lemma validate_walk_speed p : validate p = Ok tt → positive_finite (walk_speed p) = true.
Proof. rewrite /validate. intros Hv. by result_inv. Qed.

Lemma option_filter_Some {A} (f : A → bool) o a :
  option_filter f o = Some a ↔ o = Some a ∧ f a = true.
Proof.
  destruct o as [x|]; cbn; [|by split; [|intros [? _]]].
  destruct (f x) eqn:E; split; [by intros [= <-]|by intros [? _]|done|].
  intros [[= <-] E']. congruence.
Qed.

Lemma verify_signature_iff E s :
  verify_presence_signature E s = Ok tt ↔
  (0 < sr_seq (sp_record s))%N
  ∧ is_blank (sr_space_id (sp_record s)) = false ∧ is_blank (sr_space_version (sp_record s)) = false
  ∧ forallb is_direction (to_bytes (sr_path (sp_record s))) = true
  ∧ did_of_public_key E (sp_public_key s) = Ok (sr_agent_did (sp_record s))
  ∧ verify_payload (record_json (sp_record s)) (sp_signature s) (sp_public_key s) = Ok true.
Proof.
  rewrite /verify_presence_signature. split.
  - intros Hv. result_inv. bool_to_prop. subst. split_and!; try done. by apply N.ltb_lt.
  - intros (Hs & H1 & H2 & H3 & H4 & H5). rewrite H1 H2 H3 H4 /=.
    apply N.ltb_lt in Hs. by rewrite Hs /= String.eqb_refl /= H5.
Qed.

(** What a successful signature of a record establishes. *)
Lemma sign_record_ok E c o n r s :
  PresenceSigner E → ps_agent_did (env_signer E) = env_agent_did E →
  catalog_valid c → networks_ok E (own_networks o) → (0 < sr_seq r)%N →
  sign_record E c o n r = Ok s →
  sp_record s = r <| sr_network_id := n |> ∧ entry_ok E n (sr_space_id r) s
  ∧ validate_activity (sr_activity r) = Ok tt
  ∧ check_record E c o n (r <| sr_network_id := n |>) = Ok tt.
Proof.
  intros [Hdid Hver] Hsig Hc Ho Hseq. rewrite /sign_record.
  intros ([] & Hdid'%ensure_ok_ok & ([] & Hcheck & ([] & Hact & (sig & Hsign & [= <-])%result_bind_ok)%result_bind_ok)%result_bind_ok)%result_bind_ok.
  set (r' := r <| sr_network_id := n |>) in *. apply String.eqb_eq in Hdid'.
  split_and!; [done| |done|done]. split_and!; [done|done|by right|].
  assert (is_blank (sr_space_id r') = false ∧ is_blank (sr_space_version r') = false
    ∧ forallb is_direction (to_bytes (sr_path r')) = true) as (Hb1 & Hb2 & Hp).
  { rewrite /check_record in Hcheck. destruct (option_filter _ _) as [p|] eqn:Ep.
    - apply option_filter_Some in Ep as [Hp _]. apply Hc in Hp as [Hval _].
      apply validate_record_facts in Hcheck as (-> & -> & _ & Hdir & _).
      eauto using space_id_not_blank, version_not_blank.
    - apply result_bind_ok in Hcheck as (saved & Hst%ok_or_ok & Hcheck). result_inv. bool_to_prop.
      apply stored_values in Hst. pose proof (networks_ok_values _ _ _ _ Ho Hst) as (_ & _ & _ & Hv).
      apply verify_signature_iff in Hv as (_ & Hb1 & Hb2 & Hd & _).
      match goal with Hr : r' = _ |- _ => rewrite Hr end. done. }
  apply verify_signature_iff. split_and!; try done; cbn [sp_public_key sp_record sp_signature].
  - rewrite Hdid Hsig. by rewrite -Hdid'.
  - rewrite /verify_payload. apply result_bind_ok in Hsign as (b & Hb & Hsign).
    rewrite Hb /=. by apply Hver.
Qed.
End stored.

(** ** What a save does to the registry *)

Section persist.
Context `{Crypto} `{Digest} (E : Env).

Definition seqs (l : list SignedSpacePresence) : list N := (λ s, sr_seq (sp_record s)) <$> l.

Definition insert_all (n : string) (l : list SignedSpacePresence) (o : OwnSpacePresence)
    : OwnSpacePresence :=
  set_networks o (λ m, foldl (insert_signed n) m l).

Lemma insert_all_cons n s l o :
  insert_all n (s :: l) o = insert_all n l (set_networks o (λ m, insert_signed n m s)).
Proof. done. Qed.

Lemma persist_inv c n records o signed o' :
  persist_records E c n records o = Ok (signed, o') →
  ps_agent_did (env_signer E) = env_agent_did E
  ∧ collect (sign_record E c o n) records = Ok signed ∧ o' = insert_all n signed o.
Proof.
  rewrite /persist_records. intros Hp. result_inv. bool_to_prop.
  injection Hp as <- <-. by destruct o.
Qed.

Lemma collect_forall2 {A B} (f : A → result B) l bs :
  collect f l = Ok bs → Forall2 (λ a b, f a = Ok b) l bs.
Proof.
  revert bs. induction l as [|a l IH]; cbn; intros bs Hc; [by injection Hc as <-; constructor|].
  result_inv. injection Hc as <-. constructor; eauto.
Qed.

Lemma insert_signed_ok n m s :
  networks_ok E m → entry_ok E n (sr_space_id (sp_record s)) s → networks_ok E (insert_signed n m s).
Proof.
  intros Hm Hs n' spaces k s' Hn Hk. rewrite insert_signed_lookup in Hn.
  case_decide; [subst|by eapply Hm]. injection Hn as <-.
  apply lookup_insert_Some in Hk as [[<- <-]|[_ Hk]]; [done|].
  destruct (m !! n) eqn:Em; cbn in Hk; [by eapply Hm|by rewrite lookup_empty in Hk].
Qed.

Lemma insert_all_ok n l o :
  networks_ok E (own_networks o) →
  Forall (λ s, entry_ok E n (sr_space_id (sp_record s)) s) l →
  networks_ok E (own_networks (insert_all n l o)).
Proof.
  revert o. induction l as [|s l IH]; intros o Ho Hl; [done|].
  apply Forall_cons in Hl as [Hs Hl]. rewrite insert_all_cons.
  apply IH; [|done]. by apply insert_signed_ok.
Qed.

(** The records published on one network carry strictly increasing sequence
    numbers, and the registry's floor has reached them all. *)
Definition later (a b : SignedSpacePresence) : Prop :=
  sr_network_id (sp_record a) = sr_network_id (sp_record b) →
  (sr_seq (sp_record a) < sr_seq (sp_record b))%N.

Record published_ok (o : OwnSpacePresence) (l : list SignedSpacePresence) : Prop := {
  pub_ordered : StronglySorted later l;
  pub_floor s : s ∈ l →
    (sr_seq (sp_record s) ≤ sequence_floor o (sr_network_id (sp_record s)))%N;
}.

Lemma published_mono o o' l :
  published_ok o l → (∀ n, sequence_floor o n ≤ sequence_floor o' n)%N → published_ok o' l.
Proof.
  intros [Ho Hf] Hle. split; [done|]. intros s Hs. etrans; [by apply Hf|apply Hle].
Qed.

Lemma publish_one n s o l :
  published_ok o l → sr_network_id (sp_record s) = n →
  (sequence_floor o n < sr_seq (sp_record s))%N →
  published_ok (set_networks o (λ m, insert_signed n m s)) (l ++ [s]).
Proof.
  intros [Ho Hf] Hn Hlt. split.
  - apply StronglySorted_app. split_and!; [|done|repeat constructor].
    intros a b Ha ->%list_elem_of_singleton Heq. specialize (Hf a Ha).
    rewrite Heq Hn in Hf. lia.
  - intros a [Ha| ->%list_elem_of_singleton]%elem_of_app.
    + etrans; [by apply Hf|]. apply floor_insert_mono. lia.
    + rewrite Hn floor_insert; lia.
Qed.

Lemma publish_all n l2 o l1 :
  published_ok o l1 → Forall (λ s, sr_network_id (sp_record s) = n) l2 →
  StronglySorted N.lt (sequence_floor o n :: seqs l2) →
  published_ok (insert_all n l2 o) (l1 ++ l2).
Proof.
  revert o l1. induction l2 as [|s l2 IH]; intros o l1 Hp Hn Hs.
  { rewrite app_nil_r. by destruct o. }
  apply Forall_cons in Hn as [Hsn Hn]. apply StronglySorted_inv in Hs as [Hs Hall].
  cbn in Hall. apply Forall_cons in Hall as [Hlt Hall].
  rewrite insert_all_cons cons_middle app_assoc. apply IH; [by apply publish_one|done|].
  rewrite floor_insert; [done|lia].
Qed.

(** ** The state of a node *)

Record node_ok (st : SpaceState) : Prop := {
  node_catalog : catalog_valid (space_catalog st);
  node_networks : networks_ok E (own_networks (own_space_presence st));
  node_published : published_ok (own_space_presence st) (stream st);
}.

Definition keeps {A} (m : stm SpaceState A) : Prop := ∀ st, node_ok st → node_ok (m st).2.

Lemma persist_facts c n records o signed o' :
  PresenceSigner E → catalog_valid c → networks_ok E (own_networks o) →
  Forall (λ r, 0 < sr_seq r)%N records →
  persist_records E c n records o = Ok (signed, o') →
  networks_ok E (own_networks o')
  ∧ Forall2 (λ r s, sp_record s = r <| sr_network_id := n |>
                    ∧ entry_ok E n (sr_space_id r) s
                    ∧ validate_activity (sr_activity r) = Ok tt
                    ∧ check_record E c o n (r <| sr_network_id := n |>) = Ok tt) records signed
  ∧ o' = insert_all n signed o.
Proof.
  intros HE Hc Ho Hseq (Hsig & Hcol%collect_forall2 & ->)%persist_inv.
  assert (Forall2 (λ r s, sp_record s = r <| sr_network_id := n |>
                    ∧ entry_ok E n (sr_space_id r) s
                    ∧ validate_activity (sr_activity r) = Ok tt
                    ∧ check_record E c o n (r <| sr_network_id := n |>) = Ok tt) records signed) as Hall.
  { clear -HE Hsig Hc Ho Hseq Hcol. induction Hcol as [|r s ? ? Hs ? IH]; [constructor|].
    apply Forall_cons in Hseq as [Hr Hseq]. constructor; [by apply sign_record_ok|by apply IH]. }
  split_and!; [|done|done]. apply insert_all_ok; [done|].
  clear -Hall. induction Hall as [|r s ? ? (Hr & Hs & _) ? IH]; [constructor|].
  constructor; [|done]. by rewrite Hr.
Qed.

(** Publishing a batch of fresh records keeps the node's invariant. *)
Lemma publish_ok c n records o st signed o' :
  PresenceSigner E → catalog_valid c → networks_ok E (own_networks o) →
  published_ok o (stream st) →
  StronglySorted N.lt (sequence_floor o n :: (sr_seq <$> records)) →
  persist_records E c n records o = Ok (signed, o') →
  networks_ok E (own_networks o') ∧ published_ok o' (stream st ++ signed).
Proof.
  intros HE Hc Ho Hp Hs Hrun.
  assert (Forall (λ r, 0 < sr_seq r)%N records) as Hseq.
  { apply StronglySorted_inv in Hs as [_ Hs]. rewrite Forall_fmap in Hs.
    eapply Forall_impl; [done|]. cbn. lia. }
  destruct (persist_facts _ _ _ _ _ _ HE Hc Ho Hseq Hrun) as (Hok & Hall & ->).
  split; [done|]. apply publish_all; [done| |].
  - clear -Hall. induction Hall as [|r s ? ? (Hr & _) ? IH]; [constructor|].
    constructor; [|done]. by rewrite Hr.
  - assert (seqs signed = sr_seq <$> records) as ->; [|done].
    clear -Hall. induction Hall as [|r s ? ? (Hr & _) ? IH]; [done|].
    rewrite /seqs !fmap_cons. f_equal; [by rewrite Hr|done].
Qed.

Lemma emit_all_run l st :
  emit_all l st
  = (Ok tt, mkSpaceState (maps st) (own_space_presence st) (saved_presence st) (saved_catalog st)
              (stream st ++ l) (spawned st)).
Proof.
  revert st. induction l as [|s l IH]; intros st; cbn.
  { rewrite app_nil_r. by destruct st. }
  rewrite /emit_presence. cbv [mbind stm_bind modify set_field]. rewrite IH /=. by rewrite -app_assoc.
Qed.

(** A presence is persisted as one record, or nothing changes. *)
Lemma persist_presence_run n r st :
  (∃ e, persist_presence E n r st = (Err e, st))
  ∨ ∃ s o', persist_records E (space_catalog st) n [r] (own_space_presence st) = Ok ([s], o')
      ∧ persist_presence E n r st
        = (Ok s, mkSpaceState (maps st) o' (Some (own_networks o')) (saved_catalog st) (stream st)
                   (spawned st)).
Proof.
  rewrite /persist_presence. cbv [mbind stm_bind gets lift modify put_own].
  destruct (persist_records _ _ _ _ _) as [[signed o']|e] eqn:Hp; [|by left; exists e].
  apply persist_inv in Hp as Hi. destruct Hi as (_ & Hcol%collect_forall2 & _).
  apply Forall2_cons_inv_l in Hcol as (s & l & _ & Hnil%Forall2_nil_inv_l & ->). subst l.
  right. by exists s, o'.
Qed.

Lemma published_active o a l : published_ok o l → published_ok (mkOwn (own_networks o) a) l.
Proof. by intros [? ?]. Qed.

(** Persisting a fresh record and publishing it keeps the invariant, whatever
    space is active afterwards. *)
Lemma persist_emit_ok n r st s o' a m saved cat sp :
  PresenceSigner E → node_ok st → (sequence_floor (own_space_presence st) n < sr_seq r)%N →
  persist_records E (space_catalog st) n [r] (own_space_presence st) = Ok ([s], o') →
  sm_current m = space_catalog st →
  node_ok (mkSpaceState m (mkOwn (own_networks o') a) saved cat (stream st ++ [s]) sp).
Proof.
  intros HE [Hc Hn Hp] Hlt Hrun Hm.
  assert (StronglySorted N.lt (sequence_floor (own_space_presence st) n :: (sr_seq <$> [r]))) as Hs
    by by repeat constructor.
  destruct (publish_ok _ _ _ _ st _ _ HE Hc Hn Hp Hs Hrun) as [Hok Hpub].
  split; cbn; [|done|by apply published_active]. by rewrite /space_catalog /= Hm.
Qed.

(** The same, for the tail of an operation that leaves the active space alone. *)
Lemma keeps_publish {A} n r (k : SignedSpacePresence → A) st :
  PresenceSigner E → node_ok st → (sequence_floor (own_space_presence st) n < sr_seq r)%N →
  node_ok ((s ← persist_presence E n r; emit_presence s ;; mret (k s)) st).2.
Proof.
  intros HE Hst Hlt. cbv [mbind stm_bind].
  destruct (persist_presence_run n r st) as [[e ->]|(s & o' & Hrun & ->)]; [done|].
  cbv [emit_presence modify set_field]. cbn.
  pose proof (persist_emit_ok n r st s o' (active_space o') (maps st) (Some (own_networks o'))
    (saved_catalog st) (spawned st) HE Hst Hlt Hrun eq_refl) as Hok. by destruct o'.
Qed.

Lemma keeps_publish_unit n r st :
  PresenceSigner E → node_ok st → (sequence_floor (own_space_presence st) n < sr_seq r)%N →
  node_ok ((s ← persist_presence E n r; emit_presence s) st).2.
Proof.
  intros HE Hst Hlt. pose proof (keeps_publish n r (λ _, tt) st HE Hst Hlt) as Hk.
  revert Hk. cbv [mbind stm_bind]. destruct (persist_presence E n r st) as [[s|e] st']; done.
Qed.

Lemma adopt_map_keeps c : PresenceSigner E → catalog_valid (Some c) → keeps (adopt_map E c).
Proof.
  intros HE Hc st [_ Hn Hp]. rewrite /adopt_map. cbv [mbind stm_bind modify gets lift].
  set (st1 := st <| maps ::= _ |>). assert (node_ok st1) as Hst1 by by split.
  destruct (current_network E) as [n|]; [|done].
  destruct (active_space_id _ n) as [space|]; [|done].
  destruct (current c space) as [p|]; [|done].
  destruct (stale_record _ _ _ _) as [saved|]; [|done].
  destruct (restore_record _ _ _ _) as [r|]; [|done].
  destruct (next_sequence _ _ _) as [seq|] eqn:Hseq; [|done].
  apply keeps_publish_unit; [done|done|]. by apply next_sequence_gt in Hseq as [? _].
Qed.
End persist.
