(* ===== verification/MapSource.v ===== *)
(** * Where the map comes from

    [crates/control-plane/src/routes/space/map_source.rs]: the node pulls the
    catalog of spaces and its packages from the first gateway that answers,
    verifies them, keeps a copy in its database and swaps the map in. A local
    override is never replaced. A call holds the refresh lock for its whole
    length, so each is one step. *)

From S2P Require Import Prelude Collections Text Json Signing Hashcash Identities Space SpaceCatalog Walk Presence.
#[local] Open Scope Z_scope.
#[local] Set Default Proof Using "Type*".

(** ** Published catalogs *)

Record Published := mkPublished {
  pub_gateway : string;
  pub_json : string;
  pub_default_space_id : string;
  pub_spaces : list SpaceCatalogEntry;
}.

Definition pinned (c : option SpaceCatalog) : SpaceMaps := mkSpaceMaps c ∅ 0 true.
Definition from_gateway (c : option SpaceCatalog) : SpaceMaps :=
  pinned c <| sm_pinned := false |>.

(** [SpaceMaps::current_version]. *)
Definition map_version (m : SpaceMaps) (space : option string) : option string :=
  c ← sm_current m;
  current_version c (default (sc_default_space_id c) space).

(** [SpaceMaps::source]. *)
Definition source (m : SpaceMaps) : string :=
  match sm_pinned m, sm_current m with
  | true, _ => "catalog_path"
  | false, Some _ => "gateway"
  | false, None => "unavailable"
  end.

Definition versions (l : list SpaceCatalogEntry) : gset (string * string) :=
  list_to_set ((λ e, (sce_space_id e, sce_current_version e)) <$> l).

Definition matches (p : Published) (local : SpaceCatalog) : bool :=
  String.eqb (pub_default_space_id p) (sc_default_space_id local)
  && bool_decide (versions (pub_spaces p) = versions (sc_spaces local)).

Section source.
Context `{Crypto} `{Digest} (E : Env).

Definition build (cached : CachedCatalog) : result SpaceCatalog :=
  from_sources (λ path, json ← ok_or "package is not in the cache" (cc_packages cached !! path);
                        decode_package E json)
    (decode_catalog E (cc_catalog cached)).

Definition fetch_from (gateway : string) : result Published :=
  json ← fetch_catalog E gateway;
  catalog ← with_context "decode the published Space catalog" (decode_catalog E json);
  _ ← ensure_ok (negb (bool_decide (catalog.2 = []))) "the published Space catalog names no Space";
  Ok (mkPublished gateway json catalog.1 catalog.2).

Fixpoint fetch_go (last_error : string) (gateways : list string) : result Published :=
  match gateways with
  | [] => Err last_error
  | gateway :: rest =>
      match fetch_from gateway with
      | Ok p => Ok p
      | Err e => fetch_go e rest
      end
  end.
Definition fetch (gateways : list string) : result Published :=
  fetch_go "no gateway configured" gateways.

Fixpoint download_versions (gateway : string) (packages : gmap string string)
    (l : list SpaceCatalogVersion) : result (gmap string string) :=
  match l with
  | [] => Ok packages
  | v :: l' =>
      match packages !! scv_package_path v with
      | Some _ => download_versions gateway packages l'
      | None =>
          json ← fetch_package E gateway (scv_package_path v);
          download_versions gateway (<[scv_package_path v := json]> packages) l'
      end
  end.

Definition download (p : Published) : result (CachedCatalog * SpaceCatalog) :=
  packages ← download_versions (pub_gateway p) ∅ (mjoin (sce_versions <$> pub_spaces p));
  let cached := mkCachedCatalog (pub_json p) packages in
  c ← build cached;
  Ok (cached, c).

(** ** Start-up *)

(** [SpaceMaps::load]: an override, or the gateway's map, or the cached one;
    with the cache as it is afterwards. *)
Definition load_maps (override : option (result SpaceCatalog)) (cache : option CachedCatalog)
    : result SpaceMaps * option CachedCatalog :=
  match override with
  | Some r => (c ← r; Ok (pinned (Some c)), cache)
  | None =>
      let cached := cache ≫= λ doc, result_ok (build doc) in
      match gateway_urls E with
      | [] => (Ok (from_gateway cached), cache)
      | urls =>
          match fetch urls with
          | Err _ => (Ok (from_gateway cached), cache)
          | Ok published =>
              if is_some_and (matches published) cached then (Ok (from_gateway cached), cache)
              else
                match download published with
                | Err _ => (Ok (from_gateway cached), cache)
                | Ok (doc, c) =>
                    match save_catalog_result E with
                    | Ok _ => (Ok (from_gateway (Some c)), Some doc)
                    | Err e => (Err e, cache)
                    end
                end
          end
      end
  end.

(** ** Refreshing *)

Definition refresh_locked : stm SpaceState bool :=
  modify (λ st, st <| maps ::= λ m, m <| sm_attempts ::= λ n, (n + 1) mod 2 ^ 64 |> |>) ;;
  _ ← ensure (negb (bool_decide (gateway_urls E = []))) "no gateway configured";
  published ← lift (fetch (gateway_urls E));
  c ← gets space_catalog;
  if is_some_and (matches published) c then mret false
  else
    r ← lift (download published);
    _ ← lift (save_catalog_result E);
    modify (λ st, st <| saved_catalog := Some r.1 |>) ;;
    adopt_map E r.2 ;;
    mret true.

Definition refresh : stm SpaceState bool :=
  m ← gets maps;
  if sm_pinned m then mret false else refresh_locked.

(** A failed refresh is logged: the request goes on with what map there is. *)
Definition try_refresh : stm SpaceState unit := λ st, (Ok tt, (refresh_locked st).2).

Definition catalog : stm SpaceState SpaceCatalog :=
  c ← gets space_catalog;
  lift (ok_or "Space is unavailable: no map from the gateway and none cached" c).

Definition ensure_map : stm SpaceState SpaceCatalog :=
  m ← gets maps;
  (if bool_decide (sm_current m = None) && negb (sm_pinned m)
      && negb (bool_decide (gateway_urls E = []))
   then try_refresh else mret tt) ;;
  catalog.

Definition spawn_refresh : stm SpaceState unit := modify (λ st, st <| spawned ::= S |>).

Definition observe_gateway_version (space version : option string) : stm SpaceState unit :=
  match version with
  | None => mret tt
  | Some version =>
      m ← gets maps;
      if sm_pinned m || bool_decide (map_version m space = Some version) then mret tt
      else spawn_refresh
  end.

Definition observe_record_version (space version : string) : stm SpaceState unit :=
  m ← gets maps;
  if sm_pinned m || bool_decide (map_version m (Some space) = Some version) then mret tt
  else if bool_decide (version ∈ sm_checked m) then mret tt
  else
    modify (λ st, st <| maps ::= λ m, m <| sm_checked ::= λ s, {[version]} ∪ s |> |>) ;;
    spawn_refresh.
End source.

(** ** Verified maps *)

Lemma current_version_eq c id p :
  current c id = Some p →
  ∃ e, e ∈ sc_spaces c ∧ sce_space_id e = id ∧ version c id (sce_current_version e) = Some p.
Proof.
  intros (e & He & Hv)%bind_Some. apply find_first_Some in He as [Hid He].
  apply String.eqb_eq in Hid. eauto.
Qed.

(** A catalog that loads serves validated packages under their own ids. *)
Lemma from_sources_valid `{Crypto} read decoded c :
  from_sources read decoded = Ok c → catalog_valid (Some c).
Proof.
  rewrite /from_sources. intros Hf. result_inv. destruct x as [d spaces]. result_inv.
  injection Hf as <-. intros id p Hp. cbn in Hp. apply current_version_eq in Hp as (e & He & <- & Hv).
  match goal with Hl : load_entries _ _ _ = _ |- _ => apply load_entries_served in Hl as (Hall & _) end.
  cbn in He. destruct (Hall e He) as [(versions & p' & Hvs & Htr & Hp' & _) _].
  rewrite /version in Hv. cbn [sc_packages] in Hv. rewrite Hvs /= in Hv.
  by destruct (Htr _ _ Hv) as (? & ? & _).
Qed.

Section keeps.
Context `{Crypto} `{Digest} (E : Env).

Lemma download_inv p doc c : download E p = Ok (doc, c) → build E doc = Ok c.
Proof. rewrite /download. intros Hd. result_inv. by injection Hd as <- <-. Qed.

Lemma build_valid doc c : build E doc = Ok c → catalog_valid (Some c).
Proof. apply from_sources_valid. Qed.

Lemma download_valid p doc c : download E p = Ok (doc, c) → catalog_valid (Some c).
Proof. intros Hd%download_inv. by eapply build_valid. Qed.

Lemma node_ok_maps (f : SpaceMaps → SpaceMaps) st :
  (∀ m, sm_current (f m) = sm_current m) → node_ok E st → node_ok E (st <| maps ::= f |>).
Proof. intros Hf [Hc Hn Hp]. split; cbn; [|done..]. by rewrite /space_catalog /= Hf. Qed.

Lemma node_ok_cache doc st : node_ok E st → node_ok E (st <| saved_catalog := doc |>).
Proof. by intros [Hc Hn Hp]. Qed.

Lemma refresh_locked_keeps : PresenceSigner E → keeps E (refresh_locked E).
Proof.
  intros HE st Hst. rewrite /refresh_locked. cbv [mbind stm_bind modify gets lift ensure mret stm_ret].
  set (st1 := st <| maps ::= _ |>).
  assert (node_ok E st1) as Hst1 by by apply node_ok_maps.
  destruct (negb _); [|done]. destruct (fetch _ _) as [published|]; [|done].
  destruct (is_some_and _ _); [done|].
  destruct (download _ _) as [[doc c]|] eqn:Hd; [|done].
  destruct (save_catalog_result E); [|done].
  pose proof (adopt_map_keeps E c HE (download_valid _ _ _ Hd) (st1 <| saved_catalog := Some doc |>)
    (node_ok_cache _ _ Hst1)) as Hk.
  cbn [fst snd]. destruct (adopt_map E c _) as [[]]; done.
Qed.

Lemma ensure_map_keeps : PresenceSigner E → keeps E (ensure_map E).
Proof.
  intros HE st Hst. rewrite /ensure_map. cbv [mbind stm_bind gets].
  destruct (bool_decide _ && _ && _); [|done].
  pose proof (refresh_locked_keeps HE st Hst) as Hk. done.
Qed.

(** The map a request runs on is the one in use. *)
Lemma ensure_map_ok st c st' :
  ensure_map E st = (Ok c, st') → space_catalog st' = Some c.
Proof.
  rewrite /ensure_map /catalog. cbv [mbind stm_bind gets lift mret stm_ret try_refresh].
  destruct (bool_decide _ && _ && _); destruct (space_catalog _) eqn:Ec; cbn; intros [= <- <-]; done.
Qed.

(** What adopting a map leaves in the caches. *)
Lemma adopt_map_fields c st :
  sm_current (maps (adopt_map E c st).2) = Some c
  ∧ sm_pinned (maps (adopt_map E c st).2) = sm_pinned (maps st)
  ∧ saved_catalog (adopt_map E c st).2 = saved_catalog st.
Proof.
  rewrite /adopt_map. cbv [mbind stm_bind modify gets lift mret stm_ret].
  destruct (current_network E) as [n|]; [|done].
  destruct (active_space_id _ n) as [space|]; [|done].
  destruct (current c space) as [p|]; [|done].
  destruct (stale_record _ _ _ _) as [saved|]; [|done].
  destruct (restore_record _ _ _ _) as [r|]; [|done].
  destruct (next_sequence _ _ _) as [seq|]; [|done].
  match goal with |- context [persist_presence E n ?r ?s] =>
    destruct (persist_presence_run E n r s) as [[e ->]|(sg & o' & _ & ->)] end; done.
Qed.

(** A refresh that changes the map. *)
Lemma refresh_true st st' :
  refresh_locked E st = (Ok true, st') →
  ∃ published doc c, fetch E (gateway_urls E) = Ok published ∧ download E published = Ok (doc, c)
    ∧ is_some_and (matches published) (space_catalog st) = false
    ∧ space_catalog st' = Some c ∧ saved_catalog st' = Some doc
    ∧ sm_pinned (maps st') = sm_pinned (maps st).
Proof.
  rewrite /refresh_locked. cbv [mbind stm_bind modify gets lift ensure mret stm_ret].
  destruct (negb _); [|done]. destruct (fetch _ _) as [published|] eqn:Hf; [|done].
  destruct (is_some_and _ _) eqn:Hm; [done|].
  destruct (download _ _) as [[doc c]|] eqn:Hd; [|done].
  destruct (save_catalog_result E); [|done]. cbn [fst snd].
  match goal with |- context [adopt_map E c ?s] => pose proof (adopt_map_fields c s) as (Hc & Hp & Hs) end.
  destruct (adopt_map E c _) as [[u|e] st2]; [|done]. intros [= <-]. cbn in *.
  exists published, doc, c. split_and!; try done.
Qed.
End keeps.

(** ** Claims *)

Section claims.
Context `{Crypto} `{Digest} (E : Env).

Lemma from_sources_decoded read decoded c :
  from_sources read decoded = Ok c → decoded = Ok (sc_default_space_id c, sc_spaces c).
Proof.
  rewrite /from_sources. intros Hf. result_inv. destruct x as [d spaces]. result_inv.
  by injection Hf as <-.
Qed.

Lemma fetch_decoded urls p :
  fetch E urls = Ok p → decode_catalog E (pub_json p) = Ok (pub_default_space_id p, pub_spaces p).
Proof.
  rewrite /fetch. generalize "no gateway configured"%string as e.
  induction urls as [|g urls IH]; intros e; cbn; [done|].
  destruct (fetch_from E g) as [q|] eqn:Hq; [|apply IH]. intros [= ->].
  rewrite /fetch_from in Hq. result_inv. destruct x0 as [d l]. injection Hq as <-. done.
Qed.

Lemma download_matches p doc c :
  decode_catalog E (pub_json p) = Ok (pub_default_space_id p, pub_spaces p) →
  download E p = Ok (doc, c) → matches p c = true.
Proof.
  intros Hdec Hd. rewrite /download in Hd. result_inv. injection Hd as <- <-.
  rename select (build _ _ = _) into Hb. rewrite /build in Hb. apply from_sources_decoded in Hb.
  cbn in Hb. rewrite Hdec in Hb. injection Hb as Hd Hsp.
  rewrite /matches Hd String.eqb_refl /= Hsp. by apply bool_decide_eq_true.
Qed.

(** A refresh that changes the map replaces an unpinned map by verified packages under
    their own ids; refreshing again changes nothing, and a node restarted on the saved cache,
    without a gateway or with one that still publishes the same catalog, runs on the same map. *)
Theorem map_refresh_spec E' st st' :
  refresh E st = (Ok true, st') →
  decode_catalog E' = decode_catalog E → decode_package E' = decode_package E →
  gateway_urls E' = [] ∨ gateway_urls E' = gateway_urls E ∧ fetch_catalog E' = fetch_catalog E →
  ∃ c, space_catalog st' = Some c ∧ catalog_valid (Some c) ∧ sm_pinned (maps st) = false
    ∧ (∃ st'', refresh E st' = (Ok false, st'') ∧ space_catalog st'' = Some c
         ∧ own_space_presence st'' = own_space_presence st' ∧ stream st'' = stream st')
    ∧ load_maps E' None (saved_catalog st') = (Ok (from_gateway (Some c)), saved_catalog st').
Proof.
  rewrite /refresh. cbv [mbind stm_bind gets mret stm_ret].
  destruct (sm_pinned (maps st)) eqn:Hpin; [done|]. intros Href Hdec Hpkg Hgw.
  pose proof (refresh_true E st st' Href) as (p & doc & c & Hf & Hd & _ & Hc & Hs & Hp').
  pose proof (fetch_decoded _ _ Hf) as Hdecoded. pose proof (download_matches _ _ _ Hdecoded Hd) as Hm.
  exists c. split_and!; [done|by eapply download_valid|done| |].
  - rewrite Hp' Hpin /refresh_locked. cbv [mbind stm_bind modify gets lift ensure mret stm_ret].
    destruct (bool_decide _) eqn:Hnil.
    { bool_to_prop. by rewrite Hnil in Hf. }
    cbn [negb]. rewrite Hf. rewrite {1}/space_catalog. cbn.
    rewrite /space_catalog in Hc. rewrite Hc /= Hm. by eexists.
  - rewrite Hs /load_maps. cbn [mbind option_bind].
    assert (build E' doc = Ok c) as ->.
    { apply download_inv in Hd. rewrite -Hd /build Hdec. by rewrite Hpkg. }
    cbn [result_ok]. destruct Hgw as [->|[-> Hfetch]]; [done|].
    destruct (gateway_urls E) as [|u urls] eqn:Hurls; [done|].
    assert (fetch E' (u :: urls) = Ok p) as ->; [|by rewrite /= Hm].
    rewrite -Hf /fetch. generalize "no gateway configured"%string as e.
    generalize (u :: urls) as l. induction l as [|g l IH]; intros e; cbn; [done|].
    assert (fetch_from E' g = fetch_from E g) as ->; [by rewrite /fetch_from Hfetch Hdec|].
    destruct (fetch_from E g); [done|]. apply IH.
Qed.

(** A pinned map is never replaced. *)
Lemma pinned_never_replaced st space version sp :
  sm_pinned (maps st) = true →
  refresh E st = (Ok false, st) ∧ (ensure_map E st).2 = st
  ∧ observe_gateway_version space version st = (Ok tt, st)
  ∧ observe_record_version sp (default ""%string version) st = (Ok tt, st).
Proof.
  intros Hp. rewrite /refresh /ensure_map /observe_gateway_version /observe_record_version /catalog.
  cbv [mbind stm_bind gets mret stm_ret lift]. rewrite Hp andb_false_r /=.
  split_and!; [done|by destruct (space_catalog st)|by destruct version; rewrite ?Hp|done].
Qed.

Definition observe_records (l : list (string * string)) : stm SpaceState unit :=
  foldr (λ '(space, v) k, observe_record_version space v ;; k) (mret tt) l.

(** A foreign version sends at most one catalog check: over any run of records
    the refreshes spawned are the versions newly noted. *)
Lemma record_checks_bounded l st :
  ∃ st', observe_records l st = (Ok tt, st')
    ∧ (spawned st' + size (sm_checked (maps st)) = spawned st + size (sm_checked (maps st')))%nat
    ∧ sm_checked (maps st') ⊆ list_to_set l.*2 ∪ sm_checked (maps st).
Proof.
  revert st. induction l as [|[sp v] l IH]; intros st; cbn [observe_records foldr].
  { exists st. split_and!; [done|lia|set_solver]. }
  fold (observe_records l). rewrite {1}/observe_record_version.
  cbv [mbind stm_bind gets mret stm_ret modify spawn_refresh].
  destruct (_ || _).
  { destruct (IH st) as (st' & -> & Hn & Hsub). exists st'. split_and!; [done..|]. set_solver. }
  case_bool_decide as Hv.
  { destruct (IH st) as (st' & -> & Hn & Hsub). exists st'. split_and!; [done..|]. set_solver. }
  match goal with |- context [observe_records l ?s] => destruct (IH s) as (st' & Hrun & Hn & Hsub) end.
  cbn in Hn, Hsub. exists st'. split_and!.
  - exact Hrun.
  - rewrite size_union in Hn; [|set_solver]. rewrite size_singleton in Hn. lia.
  - set_solver.
Qed.
End claims.
