(* ===== verification/SpaceEntry.v ===== *)
(** * Entering, moving and leaving

    The operations of [crates/control-plane/src/routes/space/registry.rs] on the
    presence of the agent: entry and portals, updates, departure, reconciliation
    with the gateways, the reset at start-up, and reading the saved document.
    Each runs under the lock of the registry and is one step. *)

From S2P Require Import Prelude Collections Text Json Signing Hashcash Identities Space SpaceCatalog Walk Presence MapSource.
From Stdlib Require Import SpecFloat.
#[local] Open Scope Z_scope.
#[local] Set Default Proof Using "Type*".

Section entry.
Context `{Crypto} `{Digest} (E : Env).

Definition selected_package (requested : option string) : stm SpaceState (string * SpacePackage) :=
  _ ← ensure_map E;
  network ← lift (current_network E);
  o ← gets own_space_presence;
  c ← catalog;
  let space := default (sc_default_space_id c) (or_else requested (active_space_id o network)) in
  p ← lift (ok_or "unknown configured Space" (current c space));
  mret (network, p).

Definition update_presence
    (update : SpacePresenceRecord → SpacePackage → result SpacePresenceRecord)
    : stm SpaceState SignedSpacePresence :=
  _ ← ensure_map E;
  network ← lift (require_active_network E);
  c ← catalog;
  o ← gets own_space_presence;
  space ← lift (ok_or "agent has not entered the space; call enter_space first"
                  (active_space_id o network));
  p ← lift (ok_or "active Space is unavailable" (current c space));
  previous ← lift (ok_or "agent has not entered the current network Space"
                     (visible_get o network p));
  record ← lift (update (sp_record previous) p);
  seq ← lift (next_sequence o network []);
  signed ← persist_presence E network (record <| sr_seq := seq |>);
  emit_presence signed ;;
  mret signed.

(** ** Entry *)

Definition find_portal (p : SpacePackage) (id : option string) : option Portal :=
  find_first (λ portal, bool_decide (Some (portal_id portal) = id)) (portals p).

(** The portal through which the agent leaves [p], once it has arrived there. *)
Definition portal_taken (p target : SpacePackage) (source : SpacePresenceRecord)
    (id : option string) (now : Z) : result Portal :=
  portal ← ok_or "cross-Space entry requires a source portal" (find_portal p id);
  _ ← ensure_ok (String.eqb (target_space_id portal) (space_id target))
        "portal target Space mismatch";
  source_place ← ok_or "unknown portal source" (place p (source_place_id portal));
  let t := tile_at source (walk_speed p) now in
  let elapsed := as_seconds_f64 E (elapsed_ms source now) in
  let travelled := fl_mul elapsed (of_f64 (walk_speed p)) in
  _ ← ensure_ok (negb (bool_decide (t ∈ tiles source_place)) || (path_len source <=? u32_max))
        "out of range integral type conversion attempted";
  _ ← ensure_ok (bool_decide (t ∈ tiles source_place)
                 && SFleb (fl_of_Z (path_len source)) travelled)
        "agent must have arrived at the source portal";
  Ok portal.

(** The space the agent leaves by entering [target] and its record there. *)
Definition leaving (o : OwnSpacePresence) (c : SpaceCatalog) (network : string)
    (target : SpacePackage) : option (SpacePackage * SignedSpacePresence) :=
  let active := active_space_id o network in
  if bool_decide (active = Some (space_id target)) then None
  else
    space ← active;
    p ← current c space;
    s ← visible_get o network p;
    Some (p, s).

(** The records of one network: the gateways' copies, then the own ones. *)
Definition history (o : OwnSpacePresence) (network : string)
    (recovered : list SignedSpacePresence) : list SignedSpacePresence :=
  List.filter (λ s, String.eqb (sr_network_id (sp_record s)) network) recovered
  ++ network_values (own_networks o) network.

Definition resume_space (o : OwnSpacePresence) (c : SpaceCatalog) (network : string)
    (last : option SignedSpacePresence) : string :=
  match active_space_id o network with
  | Some space => space
  | None =>
      match last ≫= λ s, current c (sr_space_id (sp_record s)) with
      | Some p => space_id p
      | None => sc_default_space_id c
      end
  end.

(** No active space, and the last one is gone from the map. *)
Definition resets_to_default (o : OwnSpacePresence) (c : SpaceCatalog) (network : string)
    (last : option SignedSpacePresence) : bool :=
  bool_decide (active_space_id o network = None)
  && match last with
     | Some s => match current c (sr_space_id (sp_record s)) with Some _ => false | None => true end
     | None => false
     end.

Definition entry_refusal (reset_to_default : bool) (last : option SignedSpacePresence) : string :=
  if reset_to_default then "last Space is unavailable; enter the default Space first"
  else match last with
       | Some _ => "return to the last Space before using a portal"
       | None => "first entry must use the default Space"
       end.

Definition already_entered (o : OwnSpacePresence) (network : string) (target : SpacePackage)
    (recovered : list SignedSpacePresence) : option SignedSpacePresence :=
  option_filter (λ s, bool_decide (is_Some (sr_avatar_id (sp_record s)))
                      && negb (sequence_conflicts s recovered))
    (visible_get o network target).

(** The records an entry signs: the departure from another space, if the agent
    leaves one, then the arrival. *)
Definition entry_records (o : OwnSpacePresence) (c : SpaceCatalog) (network : string)
    (target : SpacePackage) (portal : option string) (recovered : list SignedSpacePresence)
    : result (list SpacePresenceRecord) :=
  let now := now_ms E in
  let last := max_by by_seq (history o network recovered) in
  seq ← next_sequence o network recovered;
  '(records, seq, record) ←
    match leaving o c network target with
    | Some (p, source) =>
        portal ← portal_taken p target (sp_record source) portal now;
        let left := sp_record source <| sr_entered := false |> <| sr_seq := seq |>
                                     <| sr_updated_at := now |> in
        seq ← ok_or "presence sequence exhausted" (u64_checked_succ seq);
        record ← spawn_record E target (target_place_id portal) now;
        Ok ([left], seq, record)
    | None =>
        let saved := max_by by_seq
          (List.filter (λ s, negb (resets_to_default o c network last)
                             && String.eqb (sr_space_id (sp_record s)) (space_id target))
             (history o network recovered)) in
        record ← restore_record E target saved now;
        Ok ([], seq, record)
    end;
  let '(avatar, skin) := assigned_skin E o recovered in
  let record := record <| sr_entered := true |> <| sr_seq := seq |>
                       <| sr_avatar_id := Some avatar |>
                       <| sr_skin_id := skin ≫= confirm_skin_ownership E |> in
  Ok (records ++ [record]).

Definition enter_configured_space (requested portal : option string)
    : stm SpaceState SignedSpacePresence :=
  _ ← ensure_map E;
  network ← lift (require_active_network E);
  o ← gets own_space_presence;
  c ← catalog;
  let recovery := recover_gateway_sequence E network in
  _ ← ensure ((0 <? sequence_floor o network)%N || bool_decide (gateway_urls E = [])
              || successful_query recovery)
        "gateway presence sequence recovery unavailable; retry enter_space when a gateway is reachable";
  let recovered := rec_records recovery in
  let last := max_by by_seq (history o network recovered) in
  let resume := resume_space o c network last in
  _ ← ensure (bool_decide (is_Some (active_space_id o network))
              || is_none_or (λ r, String.eqb r resume) requested)
        (entry_refusal (resets_to_default o c network last) last);
  target ← lift (ok_or "unknown configured Space" (current c (default resume requested)));
  match already_entered o network target recovered with
  | Some existing => mret existing
  | None =>
      records ← lift (entry_records o c network target portal recovered);
      r ← lift (persist_records E (Some c) network records o);
      put_own r.2 ;;
      modify (λ st, st <| own_space_presence ::= λ o,
                          o <| active_space := Some (network, space_id target) |> |>) ;;
      emit_all r.1 ;;
      lift (ok_or "missing target presence" (list.last r.1))
  end.

Definition initialize_space_presence : stm SpaceState SignedSpacePresence :=
  enter_configured_space None None.

(** ** Departure *)

Definition departure_record (p : SpacePackage) (r : SpacePresenceRecord) (now : Z)
    : result SpacePresenceRecord :=
  let t := tile_at r (walk_speed p) now in
  pl ← ok_or "current tile has no place" (place_at_tile p t);
  let keeps := is_none_or (λ object, is_some_and (λ pl, bool_decide (t ∈ tiles pl)) (place p object))
                 (sr_object_place_id r) in
  Ok (r <| sr_from_tile := t |> <| sr_path := ""%string |> <| sr_depart_at := now |>
        <| sr_destination_place_id := place_id pl |>
        <| sr_object_place_id := if keeps then sr_object_place_id r else None |>
        <| sr_entered := false |> <| sr_updated_at := now |>).

Definition leave_configured_space : stm SpaceState (option SignedSpacePresence) :=
  o ← gets own_space_presence;
  match active_space o with
  | None => mret None
  | Some _ =>
      network ← lift (require_active_network E);
      c ← catalog;
      match active_space_id o network with
      | None => mret None
      | Some space =>
          p ← lift (ok_or "active Space is unavailable" (current c space));
          previous ← lift (ok_or "agent has not entered the current network Space"
                             (visible_get o network p));
          let recovered := rec_records (recover_gateway_sequence E network) in
          record ← lift (departure_record p (sp_record previous) (now_ms E));
          seq ← lift (next_sequence o network recovered);
          signed ← persist_presence E network (record <| sr_seq := seq |>);
          modify (λ st, st <| own_space_presence ::= λ o, o <| active_space := None |> |>) ;;
          emit_presence signed ;;
          mret (Some signed)
      end
  end.

(** ** Reconciliation *)

Definition persist_recovered_sequence (network : string) (existing : SignedSpacePresence)
    (recovered : list SignedSpacePresence) : stm SpaceState SignedSpacePresence :=
  o ← gets own_space_presence;
  seq ← lift (next_sequence o network recovered);
  let record := sp_record existing <| sr_seq := seq |> in
  let record := if is_ok (validate_activity (sr_activity record)) then record
                else record <| sr_activity := ""%string |> in
  persist_presence E network (record <| sr_updated_at := now_ms E |>).

(** The latest record a gateway has that the registry should take over. *)
Definition recovered_latest (o : OwnSpacePresence) (network : string)
    (recovered : list SignedSpacePresence) : option SignedSpacePresence :=
  let local_latest := max_by by_seq (network_values (own_networks o) network) in
  option_filter (λ s,
      (sequence_floor o network <? sr_seq (sp_record s))%N
      || sr_entered (sp_record s)
         && is_some_and (λ local, negb (sr_entered (sp_record local))
                                  && sequence_conflicts local [s]) local_latest)
    (max_by by_seq_entered
      (List.filter (λ s, String.eqb (sr_network_id (sp_record s)) network) recovered)).

Definition adopt_recovered (c : option SpaceCatalog) (network : string)
    (o : OwnSpacePresence) (latest : option SignedSpacePresence) : result OwnSpacePresence :=
  let ensured := o <| own_networks ::= λ m, <[network := default ∅ (m !! network)]> m |> in
  match latest with
  | None => Ok ensured
  | Some s =>
      _ ← match option_filter (λ p, String.eqb (space_version p) (sr_space_version (sp_record s)))
                  (catalog_package c (sr_space_id (sp_record s))) with
          | Some p => validate_record p (sp_record s)
          | None => Ok tt
          end;
      Ok (ensured <| own_networks ::= λ m, insert_signed network m s |>)
  end.

Definition reset_records (o candidate : OwnSpacePresence) (network : string)
    (recovered : list SignedSpacePresence) : result (list SpacePresenceRecord) :=
  match max_by by_seq_entered (network_values (own_networks candidate) network) with
  | Some saved =>
      if sr_entered (sp_record saved) && is_ok (validate_activity (sr_activity (sp_record saved)))
      then
        seq ← next_sequence o network recovered;
        Ok [sp_record saved <| sr_entered := false |> <| sr_updated_at := now_ms E |>
                            <| sr_seq := seq |>]
      else Ok []
  | None => Ok []
  end.

Definition reset_space_presence : stm SpaceState unit :=
  match current_network E with
  | Err _ => mret tt
  | Ok network =>
      let recovered := rec_records (recover_gateway_sequence E network) in
      o ← gets own_space_presence;
      match active_space o with
      | Some _ => mret tt
      | None =>
          c ← gets space_catalog;
          let latest := recovered_latest o network recovered in
          candidate ← lift (adopt_recovered c network o latest);
          records ← lift (reset_records o candidate network recovered);
          if bool_decide (records = []) && bool_decide (latest = None) then mret tt
          else
            r ← lift (persist_records E c network records candidate);
            put_own r.2 ;;
            emit_all r.1
      end
  end.

Definition reconcile_space_presence : stm SpaceState unit :=
  o ← gets own_space_presence;
  match active_space o with
  | None => reset_space_presence
  | Some _ =>
      c ← gets space_catalog;
      match c with
      | None => mret tt
      | Some c =>
          network ← lift (current_network E);
          checkpoint ← lift (load_checkpoint E (Some network));
          match checkpoint with
          | None => mret tt
          | Some cp =>
              credential ← lift (permission_credential E cp);
              if negb (String.eqb (cp_permission_status cp) PERMISSION_STATUS_ACTIVE)
                 || bool_decide (credential = None)
              then mret tt
              else
                let recovered := rec_records (recover_gateway_sequence E network) in
                match active_space_id o network ≫= current c with
                | None => mret tt
                | Some p =>
                    match option_filter (λ s, sequence_conflicts s recovered)
                            (visible_get o network p) with
                    | None => mret tt
                    | Some existing =>
                        signed ← persist_recovered_sequence network existing recovered;
                        emit_presence signed
                    end
                end
          end
      end
  end.

(** ** The saved document *)

Inductive StoredSpace :=
  | OneRecord (r : result SignedSpacePresence)
  | ByAgent (r : result (gmap string SignedSpacePresence)).

(** The document of the domain as JSON: [networks], or the [spaces] of an
    earlier release; each part decodes or not. *)
Inductive StoredDocument :=
  | DocNetworks (r : result Networks)
  | DocSpaces (spaces : option (list (string * StoredSpace))).

Definition check_agents (space : string) (records : gmap string SignedSpacePresence)
    (own : gmap string SignedSpacePresence) : result (gmap string SignedSpacePresence) :=
  foldl (λ acc '(agent, s),
      own ← acc;
      _ ← ensure_ok (String.eqb (sr_agent_did (sp_record s)) agent)
            "presence registry key does not match signed record";
      _ ← ensure_ok (String.eqb agent (env_agent_did E)) "stored presence is not the local agent";
      Ok (<[space := s]> own))
    (Ok own) (btree_entries records).

Fixpoint upgrade_spaces (spaces : list (string * StoredSpace))
    (own : gmap string SignedSpacePresence) : result (gmap string SignedSpacePresence) :=
  match spaces with
  | [] => Ok own
  | (space, OneRecord r) :: rest => s ← r; upgrade_spaces rest (<[space := s]> own)
  | (space, ByAgent r) :: rest =>
      records ← r; own ← check_agents space records own; upgrade_spaces rest own
  end.

Definition check_stored (c : option SpaceCatalog) (network : string)
    (entry : string * SignedSpacePresence) : result unit :=
  let '(space, s) := entry in
  let r := sp_record s in
  _ ← ensure_ok (String.eqb (sr_space_id r) space)
        "presence registry key does not match signed record";
  _ ← ensure_ok (String.eqb (sr_agent_did r) (env_agent_did E))
        "stored presence is not the local agent";
  _ ← ensure_ok (String.eqb (sr_network_id r) "" || String.eqb (sr_network_id r) network)
        "presence registry network does not match signed record";
  _ ← verify_presence_signature E s;
  match option_filter (λ p, String.eqb (space_version p) (sr_space_version r))
          (catalog_package c space) with
  | Some p => validate_record p r
  | None => Ok tt
  end.

(** [OwnSpacePresence::load]: the registry, and the document written back by an
    upgrade. *)
Definition load_own (doc : option StoredDocument) (c : option SpaceCatalog)
    : result (OwnSpacePresence * option Networks) :=
  match doc with
  | None => Ok (mkOwn ∅ None, None)
  | Some doc =>
      networks ←
        match doc with
        | DocNetworks r => r
        | DocSpaces spaces =>
            spaces ← ok_or "stored presence has no spaces" spaces;
            network ← verified_checkpoint_network E;
            own ← upgrade_spaces spaces ∅;
            Ok {[default ""%string network := own]}
        end;
      _ ← collect (λ '(network, spaces), collect (check_stored c network) (btree_entries spaces))
            (btree_entries networks);
      match doc with
      | DocNetworks _ => Ok (mkOwn networks None, None)
      | DocSpaces _ => _ ← save_result E; Ok (mkOwn networks None, Some networks)
      end
  end.
End entry.

(** ** Maxima and recovered records *)

Lemma max_by_elem leb l x : max_by leb l = Some x → x ∈ l.
Proof.
  revert x. induction l as [|a l IH]; intros x; cbn; [done|].
  destruct (max_by leb l) as [y|]; [|intros [= <-]; constructor].
  destruct (leb a y); intros [= <-]; constructor; auto.
Qed.

Lemma max_by_seq_max l x :
  max_by by_seq l = Some x → ∀ y, y ∈ l → (sr_seq (sp_record y) ≤ sr_seq (sp_record x))%N.
Proof.
  revert x. induction l as [|a l IH]; intros x; cbn; [done|].
  destruct (max_by by_seq l) as [z|] eqn:Ez.
  - rewrite {1}/by_seq. destruct (N.leb_spec (sr_seq (sp_record a)) (sr_seq (sp_record z)));
      intros [= <-] y [->|Hy]%elem_of_cons; try done; try (by apply (IH z)).
    specialize (IH z eq_refl y Hy). lia.
  - intros [= <-] y [->|Hy]%elem_of_cons; [done|]. destruct l; [by apply elem_of_nil in Hy|].
    cbn in Ez. by repeat case_match.
Qed.

Section recovered.
Context `{Crypto} `{Digest} (E : Env).

Lemma recovered_record_ok g q s :
  recovered_record E g q = Ok (Some s) →
  sr_agent_did (sp_record s) = env_agent_did E ∧ sr_network_id (sp_record s) = q
  ∧ verify_presence_signature E s = Ok tt.
Proof.
  rewrite /recovered_record. intros (reply & _ & Hr)%result_bind_ok.
  destruct reply as [s'|]; [|done].
  apply result_bind_ok in Hr as ([] & Hb%ensure_ok_ok & ([] & Hv & [= ->])%result_bind_ok).
  by bool_to_prop.
Qed.

(** What the gateways return passes the checks of the node. *)
Lemma recover_ok n s :
  s ∈ rec_records (recover_gateway_sequence E n) →
  sr_agent_did (sp_record s) = env_agent_did E ∧ verify_presence_signature E s = Ok tt.
Proof.
  rewrite /recover_gateway_sequence. generalize (mjoin ((λ g, [(g, n); (g, ""%string)]) <$> gateway_urls E)).
  intros l. assert (∀ acc, s ∈ rec_records (foldl (recover_query E n) acc l) →
    s ∈ rec_records acc ∨ sr_agent_did (sp_record s) = env_agent_did E
      ∧ verify_presence_signature E s = Ok tt) as Hl.
  { induction l as [|[g q] l IH]; intros acc; cbn; [by left|]. intros [Ha|?]%IH; [|by right].
    revert Ha. rewrite /recover_query /=. destruct (recovered_record E g q) as [o|] eqn:Er; [|by left].
    cbn. intros [Ha|Ha]%elem_of_app; [by left|]. destruct o as [s'|]; cbn in Ha;
      [|by apply elem_of_nil in Ha].
    apply list_elem_of_singleton in Ha as ->. apply recovered_record_ok in Er as (? & _ & ?). by right. }
  intros [Hs|?]%Hl; [by apply elem_of_nil in Hs|done].
Qed.

Lemma latest_facts o n recovered s :
  recovered_latest o n recovered = Some s →
  s ∈ recovered ∧ sr_network_id (sp_record s) = n
  ∧ (sequence_floor o n ≤ sr_seq (sp_record s))%N.
Proof.
  rewrite /recovered_latest. intros [Hmax Hcond]%option_filter_Some.
  apply max_by_elem in Hmax. apply elem_of_filterb in Hmax as [Hin Hn]. bool_to_prop.
  - split_and!; [done..|]. match goal with Hl : (_ <? _)%N = true |- _ => apply N.ltb_lt in Hl end. lia.
  - split_and!; [done..|].
    destruct (max_by by_seq (network_values _ _)) as [local|] eqn:El; [|done].
    rename select (is_some_and _ _ = true) into Hs. cbn [is_some_and] in Hs.
    apply andb_true_iff in Hs as [_ Hs]. rewrite /sequence_conflicts /= orb_false_r in Hs.
    etrans; [apply floor_le; intros y Hy; exact (max_by_seq_max _ _ El y Hy)|].
    apply orb_true_iff in Hs as [Hs%N.ltb_lt|Hs]; [lia|]. apply andb_true_iff in Hs as [Hs%N.eqb_eq _]. lia.
Qed.

Definition ensure_network (n : string) (m : Networks) : Networks := <[n := default ∅ (m !! n)]> m.

Lemma ensure_network_values n m n' : network_values (ensure_network n m) n' = network_values m n'.
Proof.
  rewrite /network_values /ensure_network. destruct (decide (n' = n)) as [->|Hn].
  - rewrite lookup_insert_eq. by destruct (m !! n).
  - by rewrite lookup_insert_ne.
Qed.

Lemma ensure_network_ok n m : networks_ok E m → networks_ok E (ensure_network n m).
Proof.
  intros Hm n' spaces k s. rewrite /ensure_network.
  intros [[<- <-]|[_ Hn]]%lookup_insert_Some Hk; [|by eapply Hm].
  destruct (m !! n) eqn:Em; cbn in Hk; [by eapply Hm|by rewrite lookup_empty in Hk].
Qed.

(** What taking over a recovered record does to the registry. *)
Lemma adopt_recovered_ok c n o latest candidate :
  networks_ok E (own_networks o) →
  latest = recovered_latest o n (rec_records (recover_gateway_sequence E n)) →
  adopt_recovered c n o latest = Ok candidate →
  networks_ok E (own_networks candidate)
  ∧ (∀ n', sequence_floor o n' ≤ sequence_floor candidate n')%N
  ∧ (∀ seq, next_sequence o n (rec_records (recover_gateway_sequence E n)) = Ok seq →
      sequence_floor candidate n < seq)%N.
Proof.
  intros Ho Hl Ha. rewrite /adopt_recovered in Ha.
  set (o1 := set_networks o (ensure_network n)) in *.
  assert (∀ n', sequence_floor o1 n' = sequence_floor o n') as Hfl.
  { intros n'. by rewrite /sequence_floor /= ensure_network_values. }
  assert (networks_ok E (own_networks o1)) as Ho1 by by apply ensure_network_ok.
  destruct latest as [s|].
  - apply result_bind_ok in Ha as ([] & _ & [= <-]). symmetry in Hl.
    apply latest_facts in Hl as (Hin & Hn & Hle). pose proof (recover_ok n s Hin) as [Hdid Hv].
    change (networks_ok E (own_networks (set_networks o1 (λ m, insert_signed n m s)))
      ∧ (∀ n', sequence_floor o n' ≤ sequence_floor (set_networks o1 (λ m, insert_signed n m s)) n')%N
      ∧ (∀ seq, next_sequence o n (rec_records (recover_gateway_sequence E n)) = Ok seq →
          sequence_floor (set_networks o1 (λ m, insert_signed n m s)) n < seq)%N).
    split_and!.
    + apply insert_signed_ok; [done|]. split_and!; [done|done|by right|done].
    + intros n'. rewrite -Hfl. apply floor_insert_mono. by rewrite Hfl.
    + intros seq (_ & _ & Hrec)%next_sequence_gt. rewrite floor_insert; [by apply Hrec|by rewrite Hfl].
  - injection Ha as <-.
    change (networks_ok E (own_networks o1) ∧ (∀ n', sequence_floor o n' ≤ sequence_floor o1 n')%N
      ∧ (∀ seq, next_sequence o n (rec_records (recover_gateway_sequence E n)) = Ok seq →
          sequence_floor o1 n < seq)%N).
    split_and!; [done|intros n'; by rewrite Hfl|]. intros seq (? & _)%next_sequence_gt. by rewrite Hfl.
Qed.
End recovered.

(** ** Every operation keeps the invariant of the node *)

Section keeping.
Context `{Crypto} `{Digest} (E : Env).
Context (HE : PresenceSigner E).

Ltac run_ensure_map Hst :=
  match goal with |- context [ensure_map E ?st] =>
    let Hk := fresh "Hmap" in
    pose proof (ensure_map_keeps E HE st Hst) as Hk;
    destruct (ensure_map E st) as [[?|?] ?st1] eqn:?; [|exact Hk]; cbn in Hk
  end.

Lemma update_presence_keeps update : keeps E (update_presence E update).
Proof.
  intros st Hst. rewrite /update_presence. cbv [mbind stm_bind].
  run_ensure_map Hst. cbv [lift gets catalog mbind stm_bind].
  destruct (require_active_network E) as [n|]; [|done].
  destruct (ok_or _ (space_catalog st1)) as [c|]; [|done].
  destruct (ok_or _ (active_space_id _ n)) as [space|]; [|done].
  destruct (ok_or _ (current c space)) as [p|]; [|done].
  destruct (ok_or _ (visible_get _ _ _)) as [previous|]; [|done].
  destruct (update _ p) as [r|]; [|done].
  destruct (next_sequence _ _ _) as [seq|] eqn:Hseq; [|done].
  apply keeps_publish; [done|done|]. by apply next_sequence_gt in Hseq as [? _].
Qed.

Lemma entry_records_fresh o c n target portal recovered records :
  entry_records E o c n target portal recovered = Ok records →
  StronglySorted N.lt (sequence_floor o n :: (sr_seq <$> records)).
Proof.
  rewrite /entry_records. intros (seq & Hseq & Hr)%result_bind_ok.
  apply next_sequence_gt in Hseq as (Hlt & _).
  apply result_bind_ok in Hr as ([[rs seq'] r] & Hl & Hr).
  destruct (assigned_skin _ _ _) as [avatar sk]. injection Hr as <-.
  destruct (leaving o c n target) as [[p source]|].
  - apply result_bind_ok in Hl as (pt & _ & (seq2 & Hs2%ok_or_ok & (r0 & _ & [= <- <- <-])%result_bind_ok)%result_bind_ok).
    rewrite /u64_checked_succ in Hs2. case_match; [|done]. injection Hs2 as <-. cbn.
    repeat constructor; cbn; lia.
  - apply result_bind_ok in Hl as (r0 & _ & [= <- <- <-]). cbn. repeat constructor. done.
Qed.

Lemma enter_keeps requested portal : keeps E (enter_configured_space E requested portal).
Proof.
  intros st Hst. rewrite /enter_configured_space. cbv [mbind stm_bind].
  run_ensure_map Hst. cbv [lift gets catalog mbind stm_bind ensure].
  destruct (require_active_network E) as [n|]; [|done].
  destruct (space_catalog st1) as [c|] eqn:Hc; [|done]. cbn [ok_or].
  destruct (_ || _ || _); [|done]. destruct (bool_decide _ || _); [|done].
  destruct (ok_or _ (current c _)) as [target|]; [|done].
  destruct (already_entered _ _ _ _) as [s|]; [done|].
  destruct (entry_records _ _ _ _ _ _ _) as [records|] eqn:Hrec; [|done].
  destruct (persist_records _ _ _ _ _) as [[signed o']|] eqn:Hp; [|done].
  apply entry_records_fresh in Hrec. rewrite -Hc in Hp. destruct Hmap as [Hcat Hnet Hpub].
  destruct (publish_ok E _ _ _ _ st1 _ _ HE Hcat Hnet Hpub Hrec Hp) as [Hok Hpub'].
  cbv [put_own modify]. rewrite emit_all_run. cbn.
  split; [done|done|]. apply published_active. by destruct o'.
Qed.

Lemma leave_keeps : keeps E (leave_configured_space E).
Proof.
  intros st Hst. rewrite /leave_configured_space. cbv [mbind stm_bind gets lift catalog].
  destruct (active_space (own_space_presence st)); [|done].
  destruct (require_active_network E) as [n|]; [|done].
  destruct (ok_or _ (space_catalog st)) as [c|]; [|done].
  destruct (active_space_id _ n) as [space|]; [|done].
  destruct (ok_or _ (current c space)) as [pk|]; [|done].
  destruct (ok_or _ (visible_get _ _ _)) as [previous|]; [|done].
  destruct (departure_record _ _ _) as [r|]; [|done].
  destruct (next_sequence _ _ _) as [seq|] eqn:Hseq; [|done].
  apply next_sequence_gt in Hseq as [Hlt _].
  match goal with |- context [persist_presence E n ?r st] =>
    destruct (persist_presence_run E n r st) as [[e ->]|(s & o' & Hrun & ->)]; [done|] end.
  cbv [modify emit_presence set_field]. cbn.
  eapply (persist_emit_ok E n _ st s o' None _ _ _ _ HE Hst); [|exact Hrun|done]. exact Hlt.
Qed.

Lemma reset_keeps : keeps E (reset_space_presence E).
Proof.
  intros st Hst. rewrite /reset_space_presence. destruct (current_network E) as [n|]; [|done].
  cbv [mbind stm_bind gets lift].
  destruct (active_space (own_space_presence st)); [done|].
  destruct (adopt_recovered _ _ _ _) as [candidate|] eqn:Ha; [|done].
  destruct Hst as [Hcat Hnet Hpub].
  apply (adopt_recovered_ok E _ _ _ _ _ Hnet eq_refl) in Ha as (Hok & Hmono & Hgt).
  destruct (reset_records _ _ _ _ _) as [records|] eqn:Hr; [|done].
  destruct (bool_decide _ && _); [done|].
  destruct (persist_records _ _ _ _ _) as [[signed o']|] eqn:Hp; [|done].
  assert (StronglySorted N.lt (sequence_floor candidate n :: (sr_seq <$> records))) as Hs.
  { rewrite /reset_records in Hr. destruct (max_by _ _) as [saved|]; [|injection Hr as <-; repeat constructor].
    destruct (_ && _); [|injection Hr as <-; repeat constructor].
    apply result_bind_ok in Hr as (seq & Hseq & [= <-]). cbn. repeat constructor. by apply Hgt. }
  pose proof (published_mono _ _ _ Hpub Hmono) as Hpub2.
  destruct (publish_ok E _ _ _ _ st _ _ HE Hcat Hok Hpub2 Hs Hp) as [Hok' Hpub'].
  cbv [put_own modify]. rewrite emit_all_run. by split.
Qed.

Lemma reconcile_keeps : keeps E (reconcile_space_presence E).
Proof.
  intros st Hst. rewrite /reconcile_space_presence. cbv [mbind stm_bind gets lift].
  destruct (active_space (own_space_presence st)); [|by apply reset_keeps].
  destruct (space_catalog st) as [c|] eqn:Hc; [|done].
  destruct (current_network E) as [n|]; [|done].
  destruct (load_checkpoint E (Some n)) as [[cp|]|]; [|done..].
  destruct (permission_credential E cp) as [credential|]; [|done].
  destruct (_ || _); [done|].
  match goal with |- context [match ?x with Some _ => _ | None => _ end] =>
    destruct x as [pk|]; [|done] end.
  destruct (option_filter _ _) as [existing|]; [|done].
  rewrite /persist_recovered_sequence. cbv [mbind stm_bind gets lift].
  destruct (next_sequence _ _ _) as [seq|] eqn:Hseq; [|done].
  apply next_sequence_gt in Hseq as [Hlt _].
  apply (keeps_publish_unit E); [done|done|]. destruct (is_ok _); exact Hlt.
Qed.
End keeping.

(** ** Restored records *)

Section restored.
Context `{Crypto} `{Digest} (E : Env).

Lemma spawn_fields p pl now r :
  spawn_record E p pl now = Ok r →
  sr_space_id r = space_id p ∧ sr_space_version r = space_version p
  ∧ sr_agent_did r = env_agent_did E.
Proof. rewrite /spawn_record. intros (t & _ & [= <-])%result_bind_ok. done. Qed.

(** A restored record is of the package's space and version; unless the agent
    respawns it is the saved one, standing where its walk stood. *)
Lemma restore_fields p saved now r :
  restore_record E p saved now = Ok r →
  (∀ s, saved = Some s → sr_space_id (sp_record s) = space_id p) →
  sr_space_id r = space_id p ∧ sr_space_version r = space_version p.
Proof.
  rewrite /restore_record. destruct saved as [s|]; [|by intros (? & ? & _)%spawn_fields].
  intros Hr Hs. specialize (Hs s eq_refl).
  set (r1 := sp_record s <| sr_space_version := _ |> <| sr_updated_at := _ |>) in *.
  set (r2 := if is_ok (validate_activity (sr_activity r1)) then r1 else _) in *.
  assert (sr_space_id r2 = space_id p ∧ sr_space_version r2 = space_version p) as Hr2.
  { rewrite /r2. by destruct (is_ok _). }
  clearbody r2.
  destruct (is_ok (validate_record p r2)); [by injection Hr as <-|].
  destruct (negb _); [by apply spawn_fields in Hr as (? & ? & _)|].
  apply result_bind_ok in Hr as (r3 & Hr3 & Hr).
  assert (sr_space_id r3 = space_id p ∧ sr_space_version r3 = space_version p) as Hf3.
  { destruct (destination_tile _ _ _ ≫= _) as [w|]; [injection Hr3 as <-; exact Hr2|].
    apply result_bind_ok in Hr3 as (pl & _ & [= <-]). exact Hr2. }
  apply result_bind_ok in Hr as (u & _ & [= <-]). destruct (is_ok _); exact Hf3.
Qed.

Lemma restore_keeps_tile p s now r :
  positive_finite (walk_speed p) = true →
  restore_record E p (Some s) now = Ok r →
  is_walkable p (tile_at (sp_record s) (walk_speed p) now) = true →
  tile_at r (walk_speed p) now = tile_at (sp_record s) (walk_speed p) now.
Proof.
  intros Hw. rewrite /restore_record.
  set (r1 := sp_record s <| sr_space_version := _ |> <| sr_updated_at := _ |>).
  set (r2 := if is_ok (validate_activity (sr_activity r1)) then r1 else _).
  assert (tile_at r2 (walk_speed p) now = tile_at (sp_record s) (walk_speed p) now) as Ht2.
  { rewrite /r2. by destruct (is_ok _). }
  clearbody r2.
  destruct (is_ok (validate_record p r2)); [by intros [= <-]|].
  intros Hr Hwalk. rewrite Hwalk /= in Hr. apply result_bind_ok in Hr as (r3 & Hr3 & Hr).
  apply result_bind_ok in Hr as (u & _ & [= <-]).
  assert (sr_from_tile r3 = tile_at (sp_record s) (walk_speed p) now ∧ sr_depart_at r3 = now)
    as [Hfrom Hdep].
  { destruct (destination_tile _ _ _ ≫= _) as [w|]; [injection Hr3 as <-; by split|].
    apply result_bind_ok in Hr3 as (pl & _ & [= <-]). by split. }
  rewrite -Hfrom.
  destruct (is_ok _); (etrans; [apply tile_at_departure|]); cbn; rewrite ?Hdep //; lia.
Qed.

(** The last record of a batch is the stored one. *)
Lemma stored_last n l s o :
  stored (insert_all n (l ++ [s]) o) n (sr_space_id (sp_record s)) = Some s.
Proof.
  rewrite /stored /insert_all /set_networks /= foldl_app /= insert_signed_lookup decide_True //.
  apply lookup_insert_eq.
Qed.

Lemma visible_intro o n p s :
  active_space o = Some (n, space_id p) → stored o n (space_id p) = Some s →
  sr_space_version (sp_record s) = space_version p →
  validate_activity (sr_activity (sp_record s)) = Ok tt →
  sr_entered (sp_record s) = true → sr_network_id (sp_record s) = n →
  visible_get o n p = Some s.
Proof.
  intros Ha Hs Hv Hact He Hn. rewrite /visible_get /active_space_id Ha String.eqb_refl.
  rewrite bool_decide_true // /get Hs /= Hv String.eqb_refl /= Hact /= He Hn String.eqb_refl. done.
Qed.

Lemma visible_inv o n p s :
  visible_get o n p = Some s →
  active_space_id o n = Some (space_id p) ∧ stored o n (space_id p) = Some s
  ∧ sr_space_version (sp_record s) = space_version p ∧ sr_entered (sp_record s) = true
  ∧ sr_network_id (sp_record s) = n.
Proof.
  rewrite /visible_get. case_bool_decide as Ha; [|done].
  intros [Hg He]%option_filter_Some. apply option_filter_Some in Hg as [Hg _].
  apply option_filter_Some in Hg as [Hst Hv]. by bool_to_prop.
Qed.

(** A record of a current package, signed, is valid there. *)
Lemma check_record_current c o n p r :
  catalog_package c (space_id p) = Some p → sr_space_id r = space_id p →
  sr_space_version r = space_version p → check_record E c o n r = Ok tt →
  validate_record p r = Ok tt.
Proof.
  intros Hp Hid Hv. rewrite /check_record Hid Hp Hv /= String.eqb_refl. done.
Qed.
End restored.

(** ** Claims: the stored document *)

Section claims.
Context `{Crypto} `{Digest}.

(** Every stored record whose version is the current one is valid on the map. *)
Definition fits_map (c : option SpaceCatalog) (m : Networks) : Prop :=
  ∀ n spaces k s p, m !! n = Some spaces → spaces !! k = Some s →
    catalog_package c k = Some p → space_version p = sr_space_version (sp_record s) →
    validate_record p (sp_record s) = Ok tt.

Lemma check_stored_iff E c n k s :
  check_stored E c n (k, s) = Ok tt ↔
  entry_ok E n k s
  ∧ ∀ p, catalog_package c k = Some p → space_version p = sr_space_version (sp_record s) →
      validate_record p (sp_record s) = Ok tt.
Proof.
  rewrite /check_stored /entry_ok. split.
  - intros ([] & Hk%ensure_ok_ok & ([] & Hd%ensure_ok_ok & ([] & Hn%ensure_ok_ok & ([] & Hv & Hp)%result_bind_ok)%result_bind_ok)%result_bind_ok)%result_bind_ok.
    apply String.eqb_eq in Hk, Hd. split.
    + split_and!; [done..| |done]. apply orb_true_iff in Hn as [Hn%String.eqb_eq|Hn%String.eqb_eq]; auto.
    + intros p Hc Hver. rewrite Hc /= Hver String.eqb_refl in Hp. done.
  - intros [(-> & -> & Hn & Hv) Hp]. rewrite !String.eqb_refl /=.
    assert ((sr_network_id (sp_record s) =? "")%string || (sr_network_id (sp_record s) =? n)%string = true) as ->.
    { apply orb_true_iff. destruct Hn as [->| ->]; rewrite String.eqb_refl; auto. }
    rewrite Hv /=. destruct (option_filter _ _) as [p|] eqn:Ep; [|done].
    apply option_filter_Some in Ep as [Hc Hver%String.eqb_eq]. by apply Hp.
Qed.

Lemma collect_unit_iff {A} (f : A → result unit) l :
  (∃ us, collect f l = Ok us) ↔ ∀ x, x ∈ l → f x = Ok tt.
Proof.
  split.
  - intros [us Hc] x Hx. by destruct (collect_ok_forall _ _ _ Hc x Hx) as [[] ?].
  - induction l as [|a l IH]; intros Hl; cbn; [eauto|]. rewrite (Hl a); [|constructor].
    destruct IH as [us Hus]; [intros; apply Hl; by constructor|]. rewrite Hus. cbn. eauto.
Qed.

Definition check_networks (E : Env) (c : option SpaceCatalog) (m : Networks) : result (list (list unit)) :=
  collect (λ '(network, spaces), collect (check_stored E c network) (btree_entries spaces))
    (btree_entries m).

Lemma check_networks_iff E c m :
  (∃ us, check_networks E c m = Ok us) ↔ networks_ok E m ∧ fits_map c m.
Proof.
  split.
  - intros [us Hc].
    assert (∀ n spaces k s, m !! n = Some spaces → spaces !! k = Some s →
      check_stored E c n (k, s) = Ok tt) as Hall.
    { intros n spaces k s Hn%elem_of_btree_entries Hk%elem_of_btree_entries.
      destruct (collect_ok_forall _ _ _ Hc _ Hn) as [us' Hus'].
      by destruct (collect_ok_forall _ _ _ Hus' _ Hk) as [[] ?]. }
    split.
    + intros n spaces k s Hn Hk. by apply (check_stored_iff E c), (Hall _ _ _ _ Hn Hk).
    + intros n spaces k s p Hn Hk. by apply (check_stored_iff E c n), (Hall _ _ _ _ Hn Hk).
  - intros [Hm Hf]. rewrite /check_networks.
    assert (∀ n spaces, (n, spaces) ∈ btree_entries m →
      ∃ us, collect (check_stored E c n) (btree_entries spaces) = Ok us) as Hin.
    { intros n spaces Hn%elem_of_btree_entries. apply collect_unit_iff.
      intros [k s] Hk%elem_of_btree_entries. apply check_stored_iff. split; [by eapply Hm|].
      intros p. by eapply Hf. }
    revert Hin. generalize (btree_entries m) as l. induction l as [|[n spaces] l IH]; intros Hin; cbn.
    { eauto. }
    destruct (Hin n spaces) as [us ->]; [constructor|]. cbn.
    destruct IH as [us' Hus']; [intros; apply Hin; by constructor|]. rewrite Hus'. cbn. eauto.
Qed.

Lemma load_networks_ok E doc c o w :
  load_own E doc c = Ok (o, w) → networks_ok E (own_networks o) ∧ active_space o = None.
Proof.
  rewrite /load_own. destruct doc as [doc|]; [|intros [= <- <-]; split; [|done]].
  2: { intros n spaces k s Hn. by rewrite lookup_empty in Hn. }
  intros (m & _ & (us & Hc & Hl)%result_bind_ok)%result_bind_ok.
  destruct (proj1 (check_networks_iff E c m)) as [Hm _]; [by exists us|].
  destruct doc; [by injection Hl as <- <-|].
  by apply result_bind_ok in Hl as (u & _ & [= <- <-]).
Qed.

(** The registry accepts a saved document exactly when every record in it is the agent's
    own, filed under its space and network, correctly signed, and valid on the current map
    wherever it was made for it; then it is read back unchanged. *)
Theorem load_accepts_iff E m c :
  load_own E (Some (DocNetworks (Ok m))) c = Ok (mkOwn m None, None)
  ↔ networks_ok E m ∧ fits_map c m.
Proof.
  rewrite -check_networks_iff /load_own. cbn [mbind result_bind].
  change (collect (λ '(network, spaces), collect (check_stored E c network) (btree_entries spaces))
    (btree_entries m)) with (check_networks E c m).
  destruct (check_networks E c m) as [us|e]; cbn; [by split; [eauto|]|].
  split; [done|]. by intros [us Hus].
Qed.

(** ** Claims: a node at work *)

Inductive Call :=
  | CallUpdate (update : SpacePresenceRecord → SpacePackage → result SpacePresenceRecord)
  | CallEnter (requested portal : option string)
  | CallLeave
  | CallReconcile
  | CallReset
  | CallRefresh.

Definition ignore {A} (m : stm SpaceState A) : stm SpaceState unit := a ← m; mret tt.

Definition perform (E : Env) (call : Call) : stm SpaceState unit :=
  match call with
  | CallUpdate update => ignore (update_presence E update)
  | CallEnter requested portal => ignore (enter_configured_space E requested portal)
  | CallLeave => ignore (leave_configured_space E)
  | CallReconcile => reconcile_space_presence E
  | CallReset => reset_space_presence E
  | CallRefresh => ignore (refresh E)
  end.

(** A run of calls, each in its own surroundings; a failed call is reported and
    the node goes on. *)
Definition run (calls : list (Env * Call)) (st : SpaceState) : SpaceState :=
  foldl (λ st '(E, call), exec (perform E call) st) st calls.

(** Two surroundings of the same node. *)
Definition same_node (E E' : Env) : Prop :=
  env_agent_did E = env_agent_did E' ∧ did_of_public_key E = did_of_public_key E'.

Lemma same_node_ok E E' st : same_node E E' → node_ok E st → node_ok E' st.
Proof.
  intros [Hd Hp] [Hc Hn Hpub]. split; [done| |done].
  intros n spaces k s Hs Hk. destruct (Hn n spaces k s Hs Hk) as (H1 & H2 & H3 & H4).
  rewrite /entry_ok -Hd. split_and!; [done..|].
  rewrite /verify_presence_signature -Hp. exact H4.
Qed.

Lemma ignore_keeps {A} E (m : stm SpaceState A) : keeps E m → keeps E (ignore m).
Proof.
  intros Hm st Hst. specialize (Hm st Hst). rewrite /ignore. cbv [mbind stm_bind].
  by destruct (m st) as [[a|e] st'].
Qed.

Lemma perform_keeps E call : PresenceSigner E → keeps E (perform E call).
Proof.
  intros HE. destruct call as [update|requested portal| | | |]; cbn.
  - apply ignore_keeps. by apply update_presence_keeps.
  - apply ignore_keeps. by apply enter_keeps.
  - apply ignore_keeps. by apply leave_keeps.
  - by apply reconcile_keeps.
  - by apply reset_keeps.
  - apply ignore_keeps. intros st Hst. rewrite /refresh. cbv [mbind stm_bind gets].
    destruct (sm_pinned (maps st)); [done|]. by apply refresh_locked_keeps.
Qed.

Lemma run_keeps E0 calls st :
  Forall (λ '(E, _), PresenceSigner E ∧ same_node E E0) calls → node_ok E0 st →
  node_ok E0 (run calls st).
Proof.
  revert st. induction calls as [|[E call] calls IH]; intros st Hcalls Hst; [done|].
  apply Forall_cons in Hcalls as [[HE Hsame] Hcalls]. cbn. apply IH; [done|].
  apply (same_node_ok E); [done|]. apply perform_keeps; [done|].
  apply (same_node_ok E0); [|done]. by destruct Hsame.
Qed.

End claims.

(** ** Claims: where the agent is *)

Section visible.
Context `{Crypto} `{Digest} (E : Env).

Lemma entry_records_last o c n target portal recovered records :
  entry_records E o c n target portal recovered = Ok records →
  ∃ l r, records = l ++ [r] ∧ sr_space_id r = space_id target
    ∧ sr_space_version r = space_version target ∧ sr_entered r = true ∧ is_Some (sr_avatar_id r).
Proof.
  rewrite /entry_records. intros (seq & _ & ([[rs seq'] r] & Hl & Hr)%result_bind_ok)%result_bind_ok.
  destruct (assigned_skin _ _ _) as [avatar sk]. injection Hr as <-.
  assert (sr_space_id r = space_id target ∧ sr_space_version r = space_version target) as [Hid Hv].
  { destruct (leaving o c n target) as [[p source]|].
    - apply result_bind_ok in Hl as (pt & _ & (seq2 & _ & (r0 & Hsp & [= _ _ <-])%result_bind_ok)%result_bind_ok).
      by apply spawn_fields in Hsp as (? & ? & _).
    - apply result_bind_ok in Hl as (r0 & Hre & [= _ _ <-]). eapply restore_fields; [done|].
      intros s Hs%max_by_elem. apply elem_of_filterb in Hs as [_ Hs]. by bool_to_prop. }
  eexists rs, _. split_and!; [done|done|done|done|]. by eexists.
Qed.

Lemma active_space_set n target : 
  ∀ m, active_space_id (mkOwn m (Some (n, space_id target))) n = Some (space_id target).
Proof. intros m. by rewrite /active_space_id /= String.eqb_refl. Qed.

(** An agent that enters is where it asked to be: on the active network, in the requested
    space if it named one, visible with an assigned look. The record is the one already
    published, and nothing changes, or a freshly signed and published one, valid on the map. *)
Theorem enter_spec requested portal st s st' :
  PresenceSigner E → node_ok E st →
  enter_configured_space E requested portal st = (Ok s, st') →
  ∃ n target, require_active_network E = Ok n
    ∧ catalog_package (space_catalog st') (space_id target) = Some target
    ∧ (∀ r, requested = Some r → r = space_id target)
    ∧ visible_get (own_space_presence st') n target = Some s
    ∧ is_Some (sr_avatar_id (sp_record s))
    ∧ (st' = (ensure_map E st).2
       ∨ last (stream st') = Some s ∧ validate_record target (sp_record s) = Ok tt).
Proof.
  intros HE Hst. rewrite /enter_configured_space. cbv [mbind stm_bind].
  pose proof (ensure_map_keeps E HE st Hst) as Hmap.
  destruct (ensure_map E st) as [[c0|e] st1] eqn:Hens; [|done]. cbn in Hmap.
  cbv [lift gets catalog mbind stm_bind ensure].
  destruct (require_active_network E) as [n|]; [|done].
  destruct (space_catalog st1) as [c|] eqn:Hc; [|done]. cbn [ok_or].
  destruct (_ || _ || _); [|done]. destruct (bool_decide _ || _); [|done].
  destruct (current c _) as [target|] eqn:Ht; [|done]. cbn [ok_or].
  destruct Hmap as [Hcat Hnet Hpub].
  assert (catalog_package (Some c) (space_id target) = Some target
    ∧ (∀ r, requested = Some r → r = space_id target)) as [Htarget Hreq].
  { rewrite Hc in Hcat. destruct (Hcat _ _ Ht) as [_ Hid]. rewrite Hid. split; [done|].
    by intros r ->. }
  destruct (already_entered _ _ _ _) as [ex|] eqn:Hex.
  { intros [= <- <-]. apply option_filter_Some in Hex as [Hvis Hav]. bool_to_prop.
    exists n, target. rewrite Hc. split_and!; try done. by left. }
  destruct (entry_records _ _ _ _ _ _ _) as [records|] eqn:Hrec; [|done].
  destruct (persist_records _ _ _ _ _) as [[signed o']|] eqn:Hp; [|done].
  pose proof (entry_records_fresh E HE _ _ _ _ _ _ _ Hrec) as Hfresh.
  apply entry_records_last in Hrec as (l & r & -> & Hid & Hv & He & Hav).
  rewrite -Hc in Hp. apply (persist_facts E) in Hp as (_ & Hall & Ho'); [|done..|].
  2: { apply StronglySorted_inv in Hfresh as [_ Hf]. rewrite Forall_fmap in Hf.
       eapply Forall_impl; [done|]. cbn. lia. }
  apply Forall2_app_inv_l in Hall as (l' & rs & _ & Hlast & ->).
  apply Forall2_cons_inv_l in Hlast as (s' & rest & (Hrs & _ & Hact & Hchk) & Hnil & ->).
  apply Forall2_nil_inv_l in Hnil as ->.
  cbv [put_own modify]. rewrite emit_all_run. cbn. rewrite last_snoc /=. intros [= <- <-].
  rewrite Hc in Hchk. exists n, target. cbn. split_and!; [done|by rewrite /space_catalog /= -/(space_catalog st1) Hc|done| | |].
  - apply visible_intro; cbn; [done| |by rewrite Hrs|by rewrite Hrs|by rewrite Hrs|by rewrite Hrs].
    pose proof (stored_last n l' s' (own_space_presence st1)) as Hst'. rewrite -Ho' in Hst'.
    rewrite Hrs /= Hid in Hst'. done.
  - by rewrite Hrs.
  - right. split; [by rewrite app_assoc last_snoc|]. rewrite Hrs.
    by eapply (check_record_current E (Some c)).
Qed.

(** Leaving makes the agent invisible everywhere; its last record is saved, no longer
    entered, and stands still on the tile the agent had reached. *)
Theorem leave_spec st s st' :
  PresenceSigner E → node_ok E st → leave_configured_space E st = (Ok (Some s), st') →
  (∀ n p, visible_get (own_space_presence st') n p = None)
  ∧ last (stream st') = Some s
  ∧ ∃ n p previous, catalog_package (space_catalog st) (space_id p) = Some p
      ∧ visible_get (own_space_presence st) n p = Some previous
      ∧ stored (own_space_presence st') n (space_id p) = Some s
      ∧ sr_entered (sp_record s) = false
      ∧ ∀ t, tile_at (sp_record s) (walk_speed p) t
             = tile_at (sp_record previous) (walk_speed p) (now_ms E).
Proof.
  intros HE Hst. rewrite /leave_configured_space. cbv [mbind stm_bind gets lift catalog].
  destruct (active_space (own_space_presence st)) as [act|]; [|done].
  destruct (require_active_network E) as [n|]; [|done].
  destruct (space_catalog st) as [c|] eqn:Hc; [|done]. cbn [ok_or].
  destruct (active_space_id _ n) as [space|]; [|done].
  destruct (current c space) as [p|] eqn:Hp; [|done]. cbn [ok_or].
  destruct (visible_get _ _ _) as [previous|] eqn:Hvis; [|done]. cbn [ok_or].
  destruct (departure_record _ _ _) as [r|] eqn:Hr; [|done].
  destruct (next_sequence _ _ _) as [seq|] eqn:Hseq; [|done].
  apply next_sequence_gt in Hseq as (_ & Hpos & _).
  match goal with |- context [persist_presence E n ?r st] =>
    destruct (persist_presence_run E n r st) as [[e ->]|(s' & o' & Hrun & ->)]; [done|] end.
  cbv [modify emit_presence set_field]. cbn. intros [= <- <-]. cbn.
  destruct Hst as [Hcat Hnet _]. apply (persist_facts E) in Hrun as (_ & Hall & Ho');
    [|done|done|done|by repeat constructor].
  apply Forall2_cons_inv_l in Hall as (s1 & rest & (Hrs & _) & _ & [= <- <-]).
  apply result_bind_ok in Hr as (pl & _ & [= <-]).
  rewrite Hc in Hcat. destruct (Hcat _ _ Hp) as [_ Hid].
  apply visible_inv in Hvis as Hv. destruct Hv as (_ & Hstored & _ & _ & _).
  assert (sr_space_id (sp_record previous) = space_id p) as Hsp.
  { apply bind_Some in Hstored as (spaces & Hn1 & Hk). by destruct (Hnet _ _ _ _ Hn1 Hk). }
  split_and!; [done|by rewrite last_snoc|].
  exists n, p, previous. split_and!; [by rewrite Hid|done| |by rewrite Hrs|].
  - pose proof (stored_last n [] s' (own_space_presence st)) as Hs'. rewrite /= -Ho' Hrs /= Hsp in Hs'.
    done.
  - intros t. rewrite Hrs. by rewrite tile_at_still.
Qed.

(** A new map does not move the agent: if the tile it stands on is still walkable, its
    record is re-signed for the new version on that tile, with the look it had. *)
Theorem adopt_map_keeps_place c st st' n space saved p :
  PresenceSigner E → node_ok E st → catalog_valid (Some c) →
  current_network E = Ok n → active_space (own_space_presence st) = Some (n, space) →
  stored (own_space_presence st) n space = Some saved → sr_entered (sp_record saved) = true →
  current c space = Some p → sr_space_version (sp_record saved) ≠ space_version p →
  is_walkable p (tile_at (sp_record saved) (walk_speed p) (now_ms E)) = true →
  adopt_map E c st = (Ok tt, st') →
  ∃ s, visible_get (own_space_presence st') n p = Some s ∧ last (stream st') = Some s
    ∧ validate_record p (sp_record s) = Ok tt
    ∧ tile_at (sp_record s) (walk_speed p) (now_ms E)
      = tile_at (sp_record saved) (walk_speed p) (now_ms E)
    ∧ sr_avatar_id (sp_record s) = sr_avatar_id (sp_record saved)
    ∧ sr_skin_id (sp_record s) = sr_skin_id (sp_record saved).
Proof.
  intros HE Hst Hc Hn Ha Hs He Hp Hver Hwalk. rewrite /adopt_map.
  cbv [mbind stm_bind modify gets lift]. set (st1 := st <| maps ::= _ |>).
  rewrite Hn. cbn [own_space_presence].
  replace (active_space_id (own_space_presence st1) n) with (Some space)
    by by rewrite /active_space_id /= Ha String.eqb_refl.
  rewrite Hp. destruct (Hc _ _ Hp) as [Hval Hid].
  replace (stale_record (own_space_presence st1) n space p) with (Some saved); last first.
  { rewrite /stale_record /= Hs /= He /=. by destruct (String.eqb_spec (sr_space_version (sp_record saved)) (space_version p)). }
  destruct (restore_record _ _ _ _) as [r|] eqn:Hr; [|done].
  destruct (next_sequence _ _ _) as [seq|] eqn:Hseq; [|done].
  apply next_sequence_gt in Hseq as (_ & Hpos & _).
  match goal with |- context [persist_presence E n ?r ?s] =>
    destruct (persist_presence_run E n r s) as [[e ->]|(s' & o' & Hrun & ->)]; [done|] end.
  cbv [modify emit_presence set_field]. cbn. intros [= <-]. cbn.
  destruct Hst as [_ Hnet _]. apply (persist_facts E) in Hrun as (_ & Hall & Ho');
    [|done|done|done|by repeat constructor].
  apply Forall2_cons_inv_l in Hall as (s1 & rest & (Hrs & _ & Hact & Hchk) & _ & [= <- <-]).
  assert (sr_space_id (sp_record saved) = space_id p) as Hsp.
  { apply bind_Some in Hs as (spaces & Hn1 & Hk). destruct (Hnet _ _ _ _ Hn1 Hk) as [-> _].
    by rewrite Hid. }
  pose proof (restore_fields E _ _ _ _ Hr) as Hf.
  destruct Hf as [Hrid Hrv]; [by intros s [= <-]|].
  pose proof (restore_keeps_tile E _ _ _ _ (validate_walk_speed _ Hval) Hr Hwalk) as Ht.
  exists s'. split_and!.
  - apply visible_intro; cbn; [by rewrite Ho' /= Ha Hid| |by rewrite Hrs|by rewrite Hrs|by rewrite Hrs|by rewrite Hrs].
    pose proof (stored_last n [] s' (own_space_presence st)) as Hs'.
    rewrite Hrs /= Hrid in Hs'. rewrite Ho'. exact Hs'.
  - by rewrite last_snoc.
  - rewrite Hrs. eapply (check_record_current E (Some c)); [by rewrite /= Hid|done|done|done].
  - by rewrite Hrs.
  - by rewrite Hrs.
  - by rewrite Hrs.
Qed.
End visible.

(** ** A node in the town *)

Module PresenceScenario.
Import Demo SpaceScenario.
#[local] Existing Instance demo_digest.

(** The town with other tiles: a second version of the map. *)
Definition town2 : SpacePackage := stamp (λ ver,
  mkSpacePackage "town" ver 4 3 26 [[1; 1; 0; 1]; [1; 0; 0; 1]; [1; 1; 1; 1]]%N
    town_places "home" 0x3FF0000000000000 (Some 3%N) [] []).

Definition decode (json : string) : result (string * list SpaceCatalogEntry) :=
  if String.eqb json "first" then Ok ("town"%string, listing)
  else Ok ("town"%string, [entry town2 "town2/package.json"]).

Definition package (json : string) : result SpacePackage :=
  if String.eqb json "town2/package.json" then Ok town2 else read json.

Definition me : PayloadSigner := signer "me".

Definition env (catalog : string) (now : Z) : Env :=
  mkEnv (ps_agent_did me) me (λ _, Ok (ps_agent_did me)) (Ok "net"%string)
    (λ _, Ok (Some (mkCheckpoint (ps_agent_did me) "net" PERMISSION_STATUS_ACTIVE)))
    (λ _ _, Ok (Some (mkVerified "cred" (Ok tt)))) ["gw"%string] (λ _ _, Ok None) None (Ok tt) 7
    (λ ms, fl_div (fl_of_Z ms) (fl_of_Z 1000)) now
    (λ _, Ok catalog) (λ _ path, Ok path) decode package (Ok tt).

#[export] Instance env_signer_ok catalog now : PresenceSigner (env catalog now).
Proof.
  split; [done|]. intros m sig [= <-].
  rewrite /verify_with_public_key /decode_public_key_from_ref /=. rewrite /base64_decode /= !length_fit /=.
  change (Ok (fit 32 m =? fit 32 m)%string = Ok true). by rewrite String.eqb_refl.
Qed.

Definition start : SpaceState :=
  mkSpaceState (from_gateway None) (mkOwn ∅ None) None None [] 0.

Lemma start_ok catalog now : node_ok (env catalog now) start.
Proof.
  split; [by intros ? ?|by intros ? ? ? ? ?|]. split; [constructor|]. by intros ? ?%elem_of_nil.
Qed.

Definition day : list (Env * Call) :=
  [(env "first" 1000, CallEnter None None); (env "second" 2000, CallRefresh);
   (env "second" 3000, CallLeave); (env "second" 4000, CallEnter (Some "town"%string) None)].

Example day_seqs : seqs (stream (run day start)) = [1; 2; 3; 4]%N.
Proof. by vm_compute. Qed.


Definition entered : SpaceState := exec (initialize_space_presence (env "first" 1000)) start.
Lemma entered_ok catalog now : node_ok (env catalog now) entered.
Proof.
  apply (same_node_ok (env "first" 1000)); [done|]. apply enter_keeps; [apply _|apply start_ok].
Qed.

Lemma enter_spec_witness :
  ∃ s, enter_configured_space (env "first" 1000) None None start = (Ok s, entered)
    ∧ is_Some (sr_avatar_id (sp_record s)).
Proof.
  destruct (outcome (enter_configured_space (env "first" 1000) None None) start) as [s|e] eqn:Hs;
    [|by vm_compute in Hs].
  assert (enter_configured_space (env "first" 1000) None None start = (Ok s, entered)) as Hrun.
  { rewrite -Hs. apply surjective_pairing. }
  exists s. split; [exact Hrun|].
  destruct (enter_spec (env "first" 1000) None None start s entered) as (n & target & _ & _ & _ & _ & Ha & _);
    [apply _|apply start_ok|exact Hrun|exact Ha].
Defined.

Definition left_state : SpaceState := exec (leave_configured_space (env "first" 9000)) entered.

Lemma leave_spec_witness :
  ∀ n p, visible_get (own_space_presence left_state) n p = None.
Proof.
  destruct (outcome (leave_configured_space (env "first" 9000)) entered) as [[s|]|e] eqn:Hs;
    [|by vm_compute in Hs..].
  assert (leave_configured_space (env "first" 9000) entered = (Ok (Some s), left_state)) as Hrun.
  { rewrite -Hs. apply surjective_pairing. }
  destruct (leave_spec (env "first" 9000) entered s left_state) as (Hv & _);
    [apply _|apply entered_ok|exact Hrun|exact Hv].
Defined.

Definition new_map : SpaceCatalog :=
  match from_sources package (decode "second") with
  | Ok c => c
  | Err _ => mkSpaceCatalog "" [] ∅
  end.

Lemma new_map_valid : catalog_valid (Some new_map).
Proof.
  rewrite /new_map. destruct (from_sources _ _) as [c|e] eqn:Hc; [by eapply from_sources_valid|].
  by vm_compute in Hc.
Qed.

Definition my_record : SignedSpacePresence :=
  default (mkSignedSpacePresence (presence "") "" "") (stored (own_space_presence entered) "net" "town").

Lemma adopt_map_keeps_place_witness :
  ∃ s, tile_at (sp_record s) (walk_speed town2) 2000 = tile_at (sp_record my_record) (walk_speed town2) 2000
    ∧ last (stream (exec (adopt_map (env "second" 2000) new_map) entered)) = Some s.
Proof.
  destruct (adopt_map_keeps_place (env "second" 2000) new_map entered
    (exec (adopt_map (env "second" 2000) new_map) entered) "net" "town" my_record town2)
    as (s & _ & Hlast & _ & Ht & _).
  - apply _.
  - apply entered_ok.
  - exact new_map_valid.
  - by vm_compute.
  - by vm_compute.
  - by vm_compute.
  - by vm_compute.
  - by vm_compute.
  - by vm_compute.
  - by vm_compute.
  - by vm_compute.
  - exists s. split; [exact Ht|exact Hlast].
Defined.

Lemma map_refresh_spec_witness :
  ∃ c, space_catalog (exec (refresh (env "first" 0)) start) = Some c ∧ catalog_valid (Some c).
Proof.
  destruct (map_refresh_spec (env "first" 0) (env "first" 5) start (exec (refresh (env "first" 0)) start))
    as (c & Hc & Hv & _);
    [by vm_compute|reflexivity|reflexivity|right; split; reflexivity|exists c; split; [exact Hc|exact Hv]].
Defined.
End PresenceScenario.
