(* ===== verification/Access.v ===== *)
(** * Requests to the control plane

    [crates/control-plane/src/auth.rs] and the rate limiter and the event
    sequence of [crates/control-plane/src/state.rs]: who may call, how often,
    and the numbers of the events sent to the gateway. *)

From S2P Require Import Prelude Collections Text.
#[local] Open Scope Z_scope.
#[local] Set Default Proof Using "Type*".

(** ** Replies *)

(** The answer of a handler: a value, or a status code with its error. *)
Inductive reply (A : Type) : Type :=
  | Answer (a : A)
  | Refuse (status : Z) (error : string).
Arguments Answer {A} _.
Arguments Refuse {A} _ _.

Definition unauthorized {A} : reply A := Refuse 401 "unauthorized".
Definition internal_error {A} (e : string) : reply A := Refuse 500 e.
Definition bad_request {A} (e : string) : reply A := Refuse 400 e.

(** A handler is a function from the state it works on to a reply {e and} a
    state: a refusal keeps what was already changed. *)
Definition hst (S A : Type) : Type := S → reply A * S.

Section hst.
Context {S : Type}.

#[global] Instance handler_ret : MRet (hst S) := λ A a n, (Answer a, n).
#[global] Instance handler_bind : MBind (hst S) := λ A B k m n,
  match m n with
  | (Answer a, n') => k a n'
  | (Refuse status e, n') => (Refuse status e, n')
  end.

Definition refuse {A} (status : Z) (e : string) : hst S A := λ n, (Refuse status e, n).
Definition require (b : bool) (status : Z) (e : string) : hst S unit :=
  if b then mret tt else refuse status e.

Lemma handler_bind_inv {A B} (m : hst S A) (k : A → hst S B) n b n' :
  (m ≫= k) n = (Answer b, n') → ∃ a n1, m n = (Answer a, n1) ∧ k a n1 = (Answer b, n').
Proof. rewrite /mbind /handler_bind. destruct (m n) as [[a|? ?] n1]; [eauto|done]. Qed.
End hst.

(** ** The rate limiter *)

Record RateLimiter := mkRateLimiter {
  max_requests : nat;
  window_sec : Z;
  buckets : gmap string (list Z);
}.

Definition new_limiter (max : nat) (window : Z) : RateLimiter := mkRateLimiter max window ∅.

Definition allow (key : string) (now : Z) (r : RateLimiter) : bool * RateLimiter :=
  let window_start := i64_sub now (window_sec r) in
  let entries := List.filter (λ t, window_start <=? t) (default [] (buckets r !! key)) in
  if (max_requests r <=? length entries)%nat
  then (false, mkRateLimiter (max_requests r) (window_sec r) (<[key := entries]> (buckets r)))
  else (true, mkRateLimiter (max_requests r) (window_sec r)
                (<[key := entries ++ [now]]> (buckets r))).

(** ** Authorization *)

(** [headers.get("authorization")], when it is visible ASCII. *)
Definition bearer_token (authorization : option string) : option string :=
  value ← authorization;
  of_bytes <$> strip_prefix (to_bytes "Bearer ") (to_bytes value).

Definition authorize (auth_token : string) (authorization : option string) (now : Z)
    (r : RateLimiter) : reply string * RateLimiter :=
  match bearer_token authorization with
  | Some token =>
      if String.eqb token auth_token then
        let '(ok, r') := allow token now r in
        if ok then (Answer token, r') else (Refuse 429 "rate limit exceeded", r')
      else (unauthorized, r)
  | None => (unauthorized, r)
  end.

(** ** Numbered events *)

(** The counter in memory and the number in the state file. *)
Record GatewayEventSequence := mkSequence {
  next_seq : Z;
  last_written : option Z;
}.

(** [load_or_seed]: one more than the persisted number, or the clock. *)
Definition load_or_seed (persisted : option Z) (now_ms : Z) : GatewayEventSequence :=
  let seed :=
    match persisted ≫= (λ last, uint_checked u64_max (last + 1)) with
    | Some n => n
    | None => Z.max 0 now_ms
    end in
  mkSequence seed persisted.

(** [next], with whether the write of the state file succeeded. *)
Definition next (written : bool) (s : GatewayEventSequence) : Z * GatewayEventSequence :=
  let current := next_seq s in
  (current, mkSequence (Z.min u64_max (current + 1))
              (if written then Some current else last_written s)).

Inductive SeqStep := StepNext (written : bool) | StepRestart (now_ms : Z).

Fixpoint seq_run (steps : list SeqStep) (s : GatewayEventSequence) : list Z :=
  match steps with
  | [] => []
  | StepNext written :: steps' =>
      let '(n, s') := next written s in n :: seq_run steps' s'
  | StepRestart now_ms :: steps' => seq_run steps' (load_or_seed (last_written s) now_ms)
  end.

(** ** The rate limiter's bound *)

(** The requests of a run that were let through, in order. *)
Fixpoint accepted (requests : list (string * Z)) (r : RateLimiter) : list (string * Z) :=
  match requests with
  | [] => []
  | (key, now) :: rest =>
      let '(ok, r') := allow key now r in
      if ok then (key, now) :: accepted rest r' else accepted rest r'
  end.

(** The accepted requests of a key in the window that ends at [t]. *)
Definition in_window (key : string) (w t : Z) (l : list (string * Z)) : list (string * Z) :=
  List.filter (λ x, String.eqb x.1 key && (t - w <=? x.2) && (x.2 <=? t)) l.

Section limit.
Context (max : nat) (w : Z) (key : string) (Hw0 : 0 ≤ w).

(** The bucket of the key holds what was accepted since some moment. *)
Record window_inv (r : RateLimiter) (log : list (string * Z)) (now : Z) : Prop := {
  wi_max : max_requests r = max;
  wi_window : window_sec r = w;
  wi_past : Forall (λ x, x.2 ≤ now) log;
  wi_bucket : ∃ s, s ≤ now - w
    ∧ default [] (buckets r !! key)
      = (List.filter (λ x, String.eqb x.1 key && (s <=? x.2)) log).*2;
  wi_bound t : (length (in_window key w t log) ≤ max)%nat;
}.

Lemma filter_snd (f : Z → bool) (l : list (string * Z)) :
  List.filter f l.*2 = (List.filter (λ x, f x.2) l).*2.
Proof. induction l as [|[k t] l IH]; cbn; [done|]. destruct (f t); cbn; by rewrite IH. Qed.

Lemma filter_ext_in {A} (f g : A → bool) l :
  Forall (λ x, f x = g x) l → List.filter f l = List.filter g l.
Proof. induction 1 as [|x l Hx _ IH]; cbn; [done|]. by rewrite Hx IH. Qed.

Lemma allow_inv r log now k now' :
  window_inv r log now → now ≤ now' → is_i64 (now' - w) →
  let '(ok, r') := allow k now' r in
  window_inv r' (if ok then log ++ [(k, now')] else log) now'.
Proof.
  intros [Hm Hw Hp (s & Hs & Hb) Hbound] Hnow Hi. rewrite /allow Hm Hw /i64_sub wrap_i64_id //.
  assert (Forall (λ x : string * Z, x.2 ≤ now') log) as Hp'.
  { eapply Forall_impl; [done|]. cbn. lia. }
  destruct (decide (k = key)) as [->|Hk].
  - rewrite Hb filter_snd filter_filter.
    set (kept := List.filter _ log).
    assert (kept = List.filter (λ x, String.eqb x.1 key && (now' - w <=? x.2)) log) as Hkept.
    { apply filter_ext_in, Forall_forall. intros x _.
      destruct (String.eqb x.1 key); cbn; [|done].
      destruct (Z.leb_spec (now' - w) x.2), (Z.leb_spec s x.2); cbn; try done; lia. }
    destruct (Nat.leb_spec max (length kept.*2)) as [Hfull|Hroom].
    + split; cbn; [done|done|done| |done]. exists (now' - w). split; [done|].
      by rewrite lookup_insert_eq /= Hkept.
    + split; cbn; [done|done| | |].
      * apply Forall_app. split; [done|]. by constructor; [cbn|].
      * exists (now' - w). split; [done|].
        rewrite lookup_insert_eq /= List.filter_app fmap_app -Hkept /= String.eqb_refl.
        destruct (Z.leb_spec (now' - w) now') as [_|Hneg]; [done|lia].
      * intros t. rewrite /in_window List.filter_app length_app /= String.eqb_refl.
        rewrite length_fmap Hkept in Hroom.
        destruct (Z.leb_spec (t - w) now'), (Z.leb_spec now' t); cbn;
          rewrite ?Nat.add_0_r; try apply Hbound.
        rewrite Nat.add_1_r. eapply Nat.le_trans; [|exact Hroom].
        apply le_n_S, length_filter_le. intros x Hx. bool_to_prop.
        match goal with E : x.1 = key |- _ => rewrite E String.eqb_refl end. cbn. apply Z.leb_le. lia.
  - destruct (max <=? _)%nat; split; cbn; try done.
    + exists s. split; [lia|]. by rewrite lookup_insert_ne.
    + apply Forall_app. split; [done|]. by constructor; [cbn|].
    + exists s. split; [lia|]. rewrite lookup_insert_ne // List.filter_app fmap_app /=.
      destruct (String.eqb_spec k key); [done|]. by rewrite app_nil_r.
    + intros t. rewrite /in_window List.filter_app /=.
      destruct (String.eqb_spec k key); [done|]. rewrite app_nil_r. apply Hbound.
Qed.

Lemma accepted_inv requests r log now :
  window_inv r log now →
  Sorted Z.le (now :: requests.*2) → Forall (λ x, is_i64 (x.2 - w)) requests →
  ∀ t, (length (in_window key w t (log ++ accepted requests r)) ≤ max)%nat.
Proof.
  revert r log now. induction requests as [|[k n] requests IH]; intros r log now Hinv Hs Hi t; cbn.
  { rewrite app_nil_r. apply Hinv. }
  apply Forall_cons in Hi as [Hn Hi]. apply Sorted_inv in Hs as [Hs Hd].
  apply HdRel_inv in Hd.
  pose proof (allow_inv r log now k n Hinv Hd Hn) as Hstep.
  destruct (allow k n r) as [[] r'].
  - specialize (IH r' (log ++ [(k, n)]) n Hstep Hs Hi t). by rewrite -app_assoc in IH.
  - by eapply IH.
Qed.
End limit.

(** C35: the rate limiter keeps its promise: in every window of [window_sec] seconds, wherever
    it ends, at most [max_requests] requests of one key are let through, for any run of requests
    with a clock that does not go back. *)
Theorem rate_limit_bound max w key requests t :
  0 ≤ w → Sorted Z.le requests.*2 → Forall (λ x, is_i64 (x.2 - w)) requests →
  (length (in_window key w t (accepted requests (new_limiter max w))) ≤ max)%nat.
Proof.
  intros Hw Hs Hi. destruct requests as [|[k n] requests]; [cbn; lia|].
  apply (accepted_inv max w key Hw ((k, n) :: requests) _ [] n); [|by constructor; [|constructor]|done].
  split; cbn; [done|done|constructor| |intros; lia]. exists (n - w). split; [done|].
  by rewrite lookup_empty.
Qed.

(** A caller without the token is refused, and uses up nobody's requests. *)
Lemma authorize_spec token header now r :
  (bearer_token header ≠ Some token → authorize token header now r = (unauthorized, r))
  ∧ (∀ t, (authorize token header now r).1 = Answer t → t = token ∧ bearer_token header = Some token).
Proof.
  rewrite /authorize. destruct (bearer_token header) as [tk|]; [|done].
  destruct (String.eqb_spec tk token) as [->|Hne].
  - split; [done|]. intros t. destruct (allow token now r) as [[] r']; cbn; [|done].
    by intros [= <-].
  - split; [done|]. done.
Qed.

(** ** The event numbers *)

Definition writes_succeed (steps : list SeqStep) : Prop :=
  Forall (λ x, match x with StepNext written => written = true | StepRestart _ => True end) steps.

Definition nexts (steps : list SeqStep) : nat :=
  length (List.filter (λ x, match x with StepNext _ => true | StepRestart _ => false end) steps).

Lemma seq_run_from steps n s :
  writes_succeed steps → next_seq s = n → last_written s = Some (n - 1) →
  0 ≤ n → n + Z.of_nat (nexts steps) ≤ u64_max →
  seq_run steps s = seqZ n (Z.of_nat (nexts steps)).
Proof.
  revert n s. induction steps as [|[written|now] steps IH]; intros n s Hw Hn Hl H0 Hb; [done| |];
    apply Forall_cons in Hw as [Hx Hw].
  - subst written. cbn [seq_run next]. rewrite /nexts /= -/(nexts steps) in Hb |- *.
    rewrite Nat2Z.inj_succ seqZ_cons; [|lia]. rewrite Hn. f_equal.
    rewrite Z.pred_succ. apply IH; cbn; [done|lia|f_equal; lia|lia|lia].
  - cbn [seq_run]. rewrite /nexts /= -/(nexts steps) in Hb |- *. apply IH; try done.
    + rewrite /load_or_seed Hl /= /uint_checked.
      replace (n - 1 + 1) with n by lia. assert ((0 <=? n) && (n <=? u64_max) = true) as -> by lia. done.
Qed.

(** The numbers of the events are consecutive from the first one handed out, across restarts,
    as long as the state file is written and the counter has room. *)
Lemma event_numbers_consecutive steps s :
  writes_succeed steps → 0 ≤ next_seq s → next_seq s + Z.of_nat (S (nexts steps)) ≤ u64_max →
  seq_run (StepNext true :: steps) s = seqZ (next_seq s) (Z.of_nat (S (nexts steps))).
Proof.
  intros Hw H0 Hb. cbn [seq_run next]. rewrite Nat2Z.inj_succ seqZ_cons; [|lia]. f_equal.
  rewrite Z.pred_succ. apply seq_run_from; cbn; [done|lia|f_equal; lia|lia|lia].
Qed.

Module AccessScenario.
Definition burst : list (string * Z) := [("a", 0); ("a", 1); ("a", 2); ("b", 2); ("a", 11)]%string.

Example burst_accepted : accepted burst (new_limiter 2 10) = [("a", 0); ("a", 1); ("b", 2); ("a", 11)]%string.
Proof. by vm_compute. Qed.

Lemma rate_limit_bound_witness :
  (length (in_window "a" 10 11 (accepted burst (new_limiter 2 10))) ≤ 2)%nat.
Proof.
  apply (rate_limit_bound 2 10 "a" burst 11); [lia|repeat constructor; cbn; lia|].
  repeat constructor; cbn; rewrite /is_i64 /i64_min /i64_max; lia.
Defined.

(** A lost write lets a restart hand out a number twice. *)
Example lost_write_repeats : seq_run [StepNext true; StepNext false; StepRestart 0; StepNext true]
  (mkSequence 5 None) = [5; 6; 6].
Proof. by vm_compute. Qed.
End AccessScenario.
