(* ===== verification/Movement.v ===== *)
(** * Walking

    [crates/control-plane/src/routes/space/mod.rs] and [busy.rs]: where an agent
    that walks to a place or to another agent stops, the presences a node sees,
    and the handlers that re-sign its own presence. The handlers are functions
    of the node: its rate limiter, the moment until which it is held, its
    presence. *)

From S2P Require Import Prelude Collections Text Json Signing Hashcash Identities Space SpaceCatalog Walk Presence MapSource SpaceEntry Access.
From stdpp Require Import lexico.
From Stdlib Require Import SpecFloat.
#[local] Open Scope Z_scope.
#[local] Set Default Proof Using "Type*".

(** ** Holding an agent in place *)

(** The moment in memory, whether the saved one was read, and the saved one. *)
Record Busy := mkBusy {
  until_ms : Z;
  restored : bool;
  busy_saved : option Z;
}.

(** [Busy::until_ms]: the saved moment is read once. *)
Definition busy_until (b : Busy) : Z * Busy :=
  let b' := if restored b then b
            else mkBusy (match busy_saved b with
                         | Some saved => Z.max (until_ms b) saved
                         | None => until_ms b
                         end) true (busy_saved b) in
  (until_ms b', b').

Definition busy_set (saved : bool) (until : Z) (b : Busy) : Busy :=
  let '(_, b) := busy_until b in
  mkBusy until true (if saved then Some until else busy_saved b).

(** [Busy::walk_turn]: refused while the agent is held. *)
Definition walk_turn (now : Z) (b : Busy) : reply unit * Busy :=
  let '(until, b) := busy_until b in
  let remaining := i64_saturating_sub until now in
  if remaining <=? 0 then (Answer tt, b) else (Refuse 409 "busy", b).

(** ** Choosing where to stop *)

Definition abs_diff (a b : N) : N := if (a <=? b)%N then (b - a)%N else (a - b)%N.
Definition manhattan_distance (l r : N * N) : N := (abs_diff l.1 r.1 + abs_diff l.2 r.2)%N.

(** The newest record of each agent of each network. *)
Definition Latest : Type := gmap string (gmap string SignedSpacePresence).

Definition newer (s : SignedSpacePresence) (old : option SignedSpacePresence) : bool :=
  match old with
  | None => true
  | Some old => (sr_seq (sp_record old) <? sr_seq (sp_record s))%N
  end.

Definition note_latest (m : Latest) (s : SignedSpacePresence) : Latest :=
  let agents := default ∅ (m !! sr_network_id (sp_record s)) in
  if newer s (agents !! sr_agent_did (sp_record s))
  then <[sr_network_id (sp_record s) := <[sr_agent_did (sp_record s) := s]> agents]> m
  else m.

Definition latest_values (m : Latest) : list SignedSpacePresence :=
  mjoin (btree_values <$> btree_values m).

Record MovementSelection := mkSelection {
  ms_package : SpacePackage;
  ms_presences : list SignedSpacePresence;
  ms_agent_did : string;
  ms_network : string;
  ms_now : Z;
}.

Definition count_tile (loads : gmap (N * N) nat) (t : N * N) : gmap (N * N) nat :=
  <[t := S (default 0%nat (loads !! t))]> loads.

(** [i64::MAX], when every walk is over. *)
Definition tile_loads (m : MovementSelection) : gmap (N * N) nat :=
  let p := ms_package m in
  let others := List.filter (λ s, negb (String.eqb (sr_network_id (sp_record s)) (ms_network m)
                                        && String.eqb (sr_agent_did (sp_record s)) (ms_agent_did m)))
                  (ms_presences m) in
  foldl (λ loads s,
      let current := tile_at (sp_record s) (walk_speed p) (ms_now m) in
      let loads := if is_walkable p current then count_tile loads current else loads in
      let destination := tile_at (sp_record s) (walk_speed p) i64_max in
      if negb (bool_decide (destination = current)) && is_walkable p destination
      then count_tile loads destination else loads)
    ∅ (latest_values (foldl note_latest ∅ others)).

(** The tiles of the grid, row by row. *)
Definition all_tiles (p : SpacePackage) : list (N * N) :=
  mjoin ((λ y, (λ x, (N.of_nat x, N.of_nat y)) <$> seq 0 (N.to_nat (width p)))
           <$> seq 0 (N.to_nat (height p))).

Section movement.
Context `{Crypto} `{Digest} (E : Env).

Definition movement_tile_tie (agent_did space : string) (t : N * N) : list Z :=
  sha256_digest (agent_did +:+ String "010" "" +:+ space +:+ String "010" ""
                 +:+ show_Z (Z.of_N t.1) +:+ "," +:+ show_Z (Z.of_N t.2)).

(** A tile of the place the agent walks to, in reach. *)
Definition place_candidate (m : MovementSelection) (radius : N) (from anchor : N * N)
    (id : string) (t : N * N) : option (nat * (N * N)) :=
  let p := ms_package m in
  if (radius <? manhattan_distance t anchor)%N || negb (is_walkable p t)
     || negb (is_some_and (λ pl, bool_decide (t ∈ tiles pl)) (place p id))
     || negb (is_ok (path p from t))
  then None else Some (0%nat, t).

(** A tile near the agent the walk goes to, in reach of both. *)
Definition agent_candidate (m : MovementSelection) (radius : N) (from anchor t : N * N)
    : option (nat * (N * N)) :=
  let p := ms_package m in
  if bool_decide (t = anchor) || (radius <? manhattan_distance t anchor)%N
     || negb (is_walkable p t) || bool_decide (place_at_tile p t = None)
     || negb (is_ok (path p from t))
  then None
  else
    match path p anchor t with
    | Ok w => if (N.to_nat radius <? String.length w)%nat then None else Some (String.length w, t)
    | Err _ => None
    end.

(** The key candidates are sorted by. *)
Definition selection_key (m : MovementSelection) (loads : gmap (N * N) nat) (distance : N)
    (t : N * N) : nat * (N * (list Z * (N * N))) :=
  (default 0%nat (loads !! t),
   (distance, (movement_tile_tie (ms_agent_did m) (space_id (ms_package m)) t, (t.2, t.1)))).

Definition key_leb (a b : nat * (N * (list Z * (N * N)))) : bool :=
  match trichotomyT lexico a b with inleft _ => true | inright _ => false end.

Definition select (m : MovementSelection) (from anchor : N * N) (place_id : option string)
    : result (N * N) :=
  radius ← ok_or "space package is missing movement search radius"
             (movement_search_radius (ms_package m));
  match place_id with
  | None =>
      if negb (bool_decide (from = anchor)) && (manhattan_distance from anchor =? 1)%N then Ok from
      else
        match sort_by (λ a b : nat * (N * N), key_leb
                (selection_key m (tile_loads m) (N.of_nat a.1) a.2)
                (selection_key m (tile_loads m) (N.of_nat b.1) b.2))
              (omap (agent_candidate m radius from anchor) (all_tiles (ms_package m))) with
        | [] => if bool_decide (from = anchor) then Ok from
                else Err "no reachable stopping tile near target"
        | c :: _ => Ok c.2
        end
  | Some id =>
      match sort_by (λ a b : nat * (N * N), key_leb
              (selection_key m (tile_loads m) (manhattan_distance a.2 anchor) a.2)
              (selection_key m (tile_loads m) (manhattan_distance b.2 anchor) b.2))
            (omap (place_candidate m radius from anchor id) (all_tiles (ms_package m))) with
      | [] => Ok anchor
      | c :: _ => Ok c.2
      end
  end.

(** ** Presences seen *)

(** A reply of [/api/spaces/presence]: the version of the map the gateway
    serves, and its records, each of which decodes or not. *)
Record PresencePayload := mkPayload {
  pl_current_version : option string;
  pl_presences : option (list (option SignedSpacePresence));
}.

(** The records of a reply that decode and verify, in order. *)
Definition verified_records (keep : SignedSpacePresence → bool)
    (l : list (option SignedSpacePresence)) : list SignedSpacePresence :=
  List.filter (λ s, keep s && is_ok (verify_presence_signature E s)) (omap (λ o, o) l).

Definition valid_in (c : SpaceCatalog) (space : string) (s : SignedSpacePresence) : bool :=
  is_some_and (λ p : SpacePackage, is_ok (verify_presence E p s)) (current c space).

Fixpoint occupancy_go (replies : string → result PresencePayload) (space : string)
    (gateways : list string) (available : bool) (latest : Latest)
    : stm SpaceState (bool * Latest) :=
  match gateways with
  | [] => mret (available, latest)
  | gateway :: rest =>
      match replies gateway with
      | Err _ => occupancy_go replies space rest available latest
      | Ok payload =>
          observe_gateway_version (Some space) (pl_current_version payload) ;;
          match pl_presences payload with
          | None => occupancy_go replies space rest available latest
          | Some records =>
              occupancy_go replies space rest true
                (foldl note_latest latest
                  (verified_records (λ s, String.eqb (sr_space_id (sp_record s)) space) records))
          end
      end
  end.

Definition movement_occupancies (replies : string → result PresencePayload) (space : string)
    : stm SpaceState (option (list SignedSpacePresence)) :=
  c ← gets space_catalog;
  match c with
  | None => mret None
  | Some c =>
      '(available, latest) ← occupancy_go replies space (gateway_urls E) false ∅;
      mret (if available : bool
            then Some (List.filter (λ s, sr_entered (sp_record s) && valid_in c space s)
                         (latest_values latest))
            else None)
  end.

(** The newest record of each agent, over all networks. *)
Definition note_agent (m : gmap string SignedSpacePresence) (s : SignedSpacePresence)
    : gmap string SignedSpacePresence :=
  if newer s (m !! sr_agent_did (sp_record s)) then <[sr_agent_did (sp_record s) := s]> m else m.

Fixpoint observe_foreign (l : list SignedSpacePresence) : stm SpaceState unit :=
  match l with
  | [] => mret tt
  | s :: l' =>
      (if String.eqb (sr_agent_did (sp_record s)) (env_agent_did E) then mret tt
       else observe_record_version (sr_space_id (sp_record s)) (sr_space_version (sp_record s))) ;;
      observe_foreign l'
  end.

Fixpoint presences_go (replies : string → result PresencePayload) (network space : string)
    (gateways : list string) (latest : gmap string SignedSpacePresence)
    : stm SpaceState (gmap string SignedSpacePresence) :=
  match gateways with
  | [] => mret latest
  | gateway :: rest =>
      match replies gateway with
      | Err _ => presences_go replies network space rest latest
      | Ok payload =>
          observe_gateway_version (Some space) (pl_current_version payload) ;;
          match pl_presences payload with
          | None => presences_go replies network space rest latest
          | Some records =>
              let verified :=
                verified_records (λ s, String.eqb (sr_network_id (sp_record s)) network) records in
              observe_foreign verified ;;
              presences_go replies network space rest (foldl note_agent latest verified)
          end
      end
  end.

Definition network_presences (replies : string → result PresencePayload) (network space : string)
    : stm SpaceState (list SignedSpacePresence) :=
  c ← ensure_map E;
  o ← gets own_space_presence;
  let own_active := is_some_and (λ p, bool_decide (is_Some (visible_get o network p)))
                      (current c space) in
  let own := List.filter (λ s, String.eqb (sr_network_id (sp_record s)) network)
               (network_values (own_networks o) network) in
  latest ← presences_go replies network space (gateway_urls E) (foldl note_agent ∅ own);
  mret (List.filter (λ s,
      String.eqb (sr_space_id (sp_record s)) space && sr_entered (sp_record s)
      && (negb (String.eqb (sr_agent_did (sp_record s)) (env_agent_did E)) || own_active)
      && valid_in c space s) (btree_values latest)).

(** ** Updates of the own record *)

Record MoveAgentBody := mkMove {
  mb_place_id : option string;
  mb_target_agent_id : option string;
  mb_tile : option (N * N);
  mb_activity : option string;
}.

(** Stops the agent where it stands: the place under it becomes its destination. *)
Definition stand_still (now : Z) (r : SpacePresenceRecord) (p : SpacePackage)
    : result SpacePresenceRecord :=
  let t := tile_at r (walk_speed p) now in
  pl ← ok_or "current tile has no place" (place_at_tile p t);
  Ok (r <| sr_from_tile := t |> <| sr_path := ""%string |> <| sr_depart_at := now |>
        <| sr_updated_at := now |> <| sr_destination_place_id := place_id pl |>).

Definition move_destination (body : MoveAgentBody) (network : string)
    (occupancy : option (list SignedSpacePresence)) (target_tile : option (N * N)) (now : Z)
    (p : SpacePackage) (from : N * N) : result ((N * N) * string) :=
  let selection presences := mkSelection p presences (env_agent_did E) network now in
  match mb_tile body with
  | Some t =>
      pl ← ok_or "destination tile has no place" (place_at_tile p t);
      Ok (t, place_id pl)
  | None =>
      match mb_place_id body with
      | Some id =>
          anchor ← destination_tile p (env_agent_did E) id;
          t ← match occupancy with
              | Some records => select (selection records) from anchor (Some id)
              | None => Ok anchor
              end;
          Ok (t, id)
      | None =>
          target ← ok_or "target choice checked" target_tile;
          t ← select (selection (default [] occupancy)) from target None;
          pl ← ok_or "destination tile has no place" (place_at_tile p t);
          Ok (t, place_id pl)
      end
  end.

Definition move_update (body : MoveAgentBody) (network : string)
    (occupancy : option (list SignedSpacePresence)) (target_tile : option (N * N)) (now : Z)
    (r : SpacePresenceRecord) (p : SpacePackage) : result SpacePresenceRecord :=
  let from := tile_at r (walk_speed p) now in
  d ← move_destination body network occupancy target_tile now p from;
  w ← path p from d.1;
  Ok (r <| sr_from_tile := from |> <| sr_path := w |> <| sr_depart_at := now |>
        <| sr_updated_at := now |> <| sr_destination_place_id := d.2 |>
        <| sr_activity := default ""%string (mb_activity body) |> <| sr_object_place_id := None |>).

Definition walk_later_update (to : N * N) (depart_at now : Z)
    (r : SpacePresenceRecord) (p : SpacePackage) : result SpacePresenceRecord :=
  let from := tile_at r (walk_speed p) now in
  pl ← ok_or "destination tile has no place" (place_at_tile p to);
  w ← path p from to;
  Ok (r <| sr_from_tile := from |> <| sr_path := w |> <| sr_depart_at := depart_at |>
        <| sr_updated_at := now |> <| sr_destination_place_id := place_id pl |>
        <| sr_activity := ""%string |> <| sr_object_place_id := None |>).

(** [f64::ceil] then [as i64]: the whole number above, saturating. *)
Definition fl_ceil_i64 (x : spec_float) : Z :=
  match x with
  | S754_finite s m e =>
      let z := signed s m in
      clamp i64_min i64_max (if 0 <=? e then Z.shiftl z e else - Z.shiftr (- z) (- e))
  | S754_infinity s => if s then i64_min else i64_max
  | _ => 0
  end.

(** The walk off a tile: when it departs and when it arrives. *)
Definition walk_ms (p : SpacePackage) (r : SpacePresenceRecord) : Z :=
  fl_ceil_i64 (fl_mul (fl_div (fl_of_Z (path_len r)) (of_f64 (walk_speed p))) (fl_of_Z 1000)).

Definition walk_later (to : N * N) (depart_at : Z) : stm SpaceState Z :=
  let now := now_ms E in
  let depart_at := Z.max depart_at now in
  s ← update_presence E (walk_later_update to depart_at now);
  c ← catalog;
  p ← lift (ok_or "active Space is unavailable" (current c (sr_space_id (sp_record s))));
  mret (i64_add depart_at (walk_ms p (sp_record s))).

Definition activity_update (activity : string) (object : option string) (now : Z)
    (r : SpacePresenceRecord) (p : SpacePackage) : result SpacePresenceRecord :=
  r ← stand_still now r p;
  Ok (r <| sr_activity := activity |> <| sr_object_place_id := object |>).

Definition wear (choice : SkinChoice) (r : SpacePresenceRecord) : SpacePresenceRecord :=
  match choice with
  | BuiltIn avatar => r <| sr_avatar_id := Some avatar |> <| sr_skin_id := None |>
  | Custom id => r <| sr_skin_id := Some id |>
  end.

Definition restyle_presence (choice : SkinChoice) : stm SpaceState SignedSpacePresence :=
  update_presence E (λ r p, r ← stand_still (now_ms E) r p; Ok (wear choice r)).
End movement.

(** ** Handlers *)

Record Node := mkNode {
  node_limiter : RateLimiter;
  node_token : string;
  node_busy : Busy;
  node_space : SpaceState;
}.
#[global] Instance Node_eta : Eta Node := λ n,
  mkNode (node_limiter n) (node_token n) (node_busy n) (node_space n).

Notation handler := (hst Node).

(** [authorize(&state, &headers)]. *)
Definition authorized (header : option string) (now_s : Z) : handler string := λ n,
  let '(r, limiter) := authorize (node_token n) header now_s (node_limiter n) in
  (r, n <| node_limiter := limiter |>).

(** [busy.walk_turn(&state.local_db)]. *)
Definition take_turn (now : Z) : handler unit := λ n,
  let '(r, b) := walk_turn now (node_busy n) in (r, n <| node_busy := b |>).

(** An operation on the presence whose error is answered with a status. *)
Definition on_space {A} (status : Z) (m : stm SpaceState A) : handler A := λ n,
  match m (node_space n) with
  | (Ok a, st) => (Answer a, n <| node_space := st |>)
  | (Err e, st) => (Refuse status e, n <| node_space := st |>)
  end.

Section handlers.
Context `{Crypto} `{Digest} (E : Env).

Definition not_entered : string := "agent has not entered the space; call enter_space first".

Definition is_entered (st : SpaceState) : bool :=
  bool_decide (is_Some (active_space (own_space_presence st))).

Definition enter_space (header : option string) (now_s : Z) (requested portal : option string)
    : handler SignedSpacePresence :=
  _ ← authorized header now_s;
  on_space 400 (enter_configured_space E requested portal).

Definition leave_space (header : option string) (now_s : Z) : handler (option SignedSpacePresence) :=
  _ ← authorized header now_s;
  on_space 400 (leave_configured_space E).

Definition person_target (replies : string → result PresencePayload) (network : string)
    (p : SpacePackage) (target : string) (now : Z)
    : handler ((N * N) * list SignedSpacePresence) :=
  records ← on_space 500 (network_presences E replies network (space_id p));
  match find_first (λ s, String.eqb (sr_agent_did (sp_record s)) target) records with
  | None => refuse 400 "target agent presence not found"
  | Some s =>
      let t := tile_at (sp_record s) (walk_speed p) now in
      match place_at_tile p t with
      | None => refuse 400 "target agent is outside a known place"
      | Some _ => mret (t, records)
      end
  end.

Definition choices (body : MoveAgentBody) : nat :=
  (length (option_list (mb_place_id body)) + length (option_list (mb_target_agent_id body))
   + length (option_list (mb_tile body)))%nat.

Definition move_agent (header : option string) (now_s : Z) (body : MoveAgentBody)
    (by_space by_network : string → result PresencePayload) : handler SignedSpacePresence :=
  _ ← authorized header now_s;
  let now := now_ms E in
  _ ← take_turn now;
  _ ← require (bool_decide (choices body = 1%nat)) 400
        "provide exactly one of place_id, target_agent_id or tile";
  _ ← on_space 400 (lift (validate_activity (default ""%string (mb_activity body))));
  entered ← on_space 400 (gets is_entered);
  _ ← require entered 400 not_entered;
  '(network, p) ← on_space 400 (selected_package E None);
  occupancy ← match mb_tile body with
              | None => on_space 400 (movement_occupancies E by_space (space_id p))
              | Some _ => mret None
              end;
  target ← match mb_target_agent_id body with
           | Some id =>
               r ← person_target by_network network p id now;
               mret (Some r)
           | None => mret None
           end;
  let occupancy := match occupancy, target with
                   | None, Some (_, records) => Some records
                   | _, _ => occupancy
                   end in
  on_space 400 (update_presence E (move_update E body network occupancy (fst <$> target) now)).

Definition set_agent_activity (header : option string) (now_s : Z) (activity : string)
    (object : option string) : handler SignedSpacePresence :=
  _ ← authorized header now_s;
  _ ← on_space 400 (lift (validate_activity activity));
  entered ← on_space 400 (gets is_entered);
  _ ← require entered 400 not_entered;
  on_space 400 (update_presence E (activity_update activity object (now_ms E))).

Definition check_custom_skin (choice : SkinChoice) : handler unit :=
  match choice with
  | BuiltIn _ => mret tt
  | Custom id =>
      match owns_skin E with
      | None => refuse 400 "custom skins live on the gateway; this node has no gateway configured"
      | Some owns =>
          match owns (env_agent_did E) id with
          | Ok true => mret tt
          | Ok false => refuse 400 ("skin " +:+ id +:+ " is not one you published; upload it with upload_agent_skin first")
          | Err e => refuse 502 e
          end
      end
  end.

Definition set_agent_skin (header : option string) (now_s : Z) (label : string)
    : handler SignedSpacePresence :=
  _ ← authorized header now_s;
  choice ← on_space 400 (lift (parse_skin_label (trim label)));
  entered ← on_space 400 (gets is_entered);
  _ ← require entered 400 not_entered;
  _ ← check_custom_skin choice;
  on_space 400 (restyle_presence E choice).

(** For this agent its own visible record, and the network must not change
    while reading; for another agent what the network shows of it. *)
Definition get_agent_presence (header : option string) (now_s : Z) (space agent : option string)
    (by_network : string → result PresencePayload) : handler SignedSpacePresence :=
  _ ← authorized header now_s;
  '(network, p) ← on_space 400 (selected_package E space);
  let agent_id := default (env_agent_did E) agent in
  presence ←
    if String.eqb agent_id (env_agent_did E) then
      o ← on_space 400 (gets own_space_presence);
      match visible_get o network p with
      | None => mret None
      | Some s =>
          match require_active_network E with
          | Ok active =>
              if String.eqb active network then mret (Some s)
              else refuse 500 "current network changed while reading Agent Space"
          | Err e => refuse 500 e
          end
      end
    else
      records ← on_space 500 (network_presences E by_network network (space_id p));
      mret (find_first (λ s, String.eqb (sr_agent_did (sp_record s)) agent_id) records);
  match presence with
  | None => refuse 404 "agent presence not found"
  | Some s => mret s
  end.
End handlers.

(** ** Selection *)

Lemma key_leb_total a b : key_leb a b = true ∨ key_leb b a = true.
Proof.
  rewrite /key_leb. destruct (trichotomyT lexico a b) as [[|]|Hba]; [by left..|]. right.
  destruct (trichotomyT lexico b a) as [[|]|Hab]; [done..|].
  exfalso. by apply (irreflexivity lexico a); trans b.
Qed.

Lemma key_leb_load a b : key_leb a b = true → (a.1 ≤ b.1)%nat.
Proof.
  rewrite /key_leb. destruct (trichotomyT lexico a b) as [[Hlt|Heq]|]; [|by rewrite Heq|done].
  intros _. destruct Hlt as [Hlt|[-> _]]; [|done]. change (a.1 < b.1)%nat in Hlt. lia.
Qed.

Lemma key_leb_trans a b c : key_leb a b = true → key_leb b c = true → key_leb a c = true.
Proof.
  rewrite /key_leb. destruct (trichotomyT lexico a b) as [[Hab|Hab]|]; [| |done];
    destruct (trichotomyT lexico b c) as [[Hbc|Hbc]|]; try done; intros _ _;
    destruct (trichotomyT lexico a c) as [[|]|Hca]; try done; exfalso; subst.
  - apply (irreflexivity lexico a). trans b; [done|]. by trans c.
  - by apply (irreflexivity lexico a); trans c.
  - by apply (irreflexivity lexico b); trans c.
  - by apply (irreflexivity lexico c).
Qed.

(** The head of a sorted list has the least key. *)
Lemma sort_head_least {A} (key : A → nat * (N * (list Z * (N * N)))) l x rest :
  sort_by (λ a b, key_leb (key a) (key b)) l = x :: rest →
  x ∈ l ∧ ∀ y, y ∈ l → key_leb (key x) (key y) = true.
Proof.
  intros Hs. set (leb := λ a b, key_leb (key a) (key b)).
  assert (StronglySorted (λ a b, leb a b = true) (x :: rest)) as Hss.
  { rewrite -Hs. apply Sorted_StronglySorted.
    - intros a b c. apply key_leb_trans.
    - apply sort_by_sorted. intros a b. apply key_leb_total. }
  apply StronglySorted_inv in Hss as [_ Hall]. rewrite Forall_forall in Hall.
  assert (∀ y, y ∈ l ↔ y ∈ x :: rest) as Hin.
  { intros y. rewrite -Hs. symmetry. apply elem_of_sort_by. }
  split; [apply Hin; constructor|]. intros y [->|Hy]%Hin%elem_of_cons; [|by apply Hall].
  destruct (key_leb_total (key x) (key x)); done.
Qed.

Section selection.
Context `{Crypto} `{Digest}.

Definition load (m : MovementSelection) (t : N * N) : nat := default 0%nat (tile_loads m !! t).

(** A tile of the place the agent may stop on. *)
Definition may_stop_in (m : MovementSelection) (radius : N) (from anchor : N * N) (id : string)
    (t : N * N) : Prop :=
  is_walkable (ms_package m) t = true ∧ (manhattan_distance t anchor ≤ radius)%N
  ∧ (∃ pl, place (ms_package m) id = Some pl ∧ t ∈ tiles pl)
  ∧ ∃ w, path (ms_package m) from t = Ok w.

(** A tile near the other agent the walk may end on. *)
Definition may_stop_near (m : MovementSelection) (radius : N) (from anchor t : N * N) : Prop :=
  t ≠ anchor ∧ is_walkable (ms_package m) t = true ∧ (manhattan_distance t anchor ≤ radius)%N
  ∧ (∃ pl, place_at_tile (ms_package m) t = Some pl)
  ∧ (∃ w, path (ms_package m) from t = Ok w)
  ∧ ∃ w, path (ms_package m) anchor t = Ok w ∧ (String.length w ≤ N.to_nat radius)%nat.

Lemma elem_of_all_tiles p t : is_walkable p t = true → t ∈ all_tiles p.
Proof.
  intros [Hx Hy]%walkable_bounds. destruct t as [x y]. cbn in Hx, Hy. rewrite /all_tiles.
  apply list_elem_of_join. eexists. split; [|apply list_elem_of_fmap; exists (N.to_nat y); split; [done|]].
  - apply list_elem_of_fmap. exists (N.to_nat x). rewrite !N2Nat.id. split; [done|].
    apply elem_of_seq. lia.
  - apply elem_of_seq. lia.
Qed.

Lemma place_candidate_iff m radius from anchor id t c :
  place_candidate m radius from anchor id t = Some c ↔
  c = (0%nat, t) ∧ may_stop_in m radius from anchor id t.
Proof.
  rewrite /place_candidate /may_stop_in.
  destruct (N.ltb_spec radius (manhattan_distance t anchor)) as [Hd|Hd]; cbn.
  { split; [done|]. intros (_ & _ & ? & _). lia. }
  destruct (is_walkable (ms_package m) t); cbn; [|split; [done|by intros (_ & ? & _)]].
  destruct (place (ms_package m) id) as [pl|] eqn:Hp; cbn;
    [|split; [done|by intros (_ & _ & _ & (? & ? & _) & _)]].
  case_bool_decide as Ht; cbn; [|split; [done|by intros (_ & _ & _ & (? & [= <-] & ?) & _)]].
  destruct (path (ms_package m) from t) as [w|e] eqn:Hw; cbn;
    [|split; [done|by intros (_ & _ & _ & _ & ? & ?)]].
  split; [intros [= <-]; split_and!; eauto|by intros [-> _]].
Qed.

Lemma agent_candidate_Some m radius from anchor t c :
  agent_candidate m radius from anchor t = Some c → c.2 = t ∧ may_stop_near m radius from anchor t.
Proof.
  rewrite /agent_candidate /may_stop_near. intros Hc.
  destruct (_ || _) eqn:Hg; [done|]. bool_to_prop.
  destruct (path (ms_package m) from t) as [w0|] eqn:Hw0; [|done].
  destruct (path (ms_package m) anchor t) as [w|]; [|done].
  destruct (Nat.ltb_spec (N.to_nat radius) (String.length w)); [done|]. injection Hc as <-. cbn.
  repeat match goal with E : (_ <? _)%N = false |- _ => apply N.ltb_ge in E end.
  split_and!; try done; eauto. by destruct (place_at_tile _ _); eauto.
Qed.

Lemma agent_candidate_complete m radius from anchor t :
  may_stop_near m radius from anchor t → ∃ c, agent_candidate m radius from anchor t = Some c ∧ c.2 = t.
Proof.
  rewrite /agent_candidate. intros (Hne & Hw & Hd & (pl & Hpl) & (w0 & Hw0) & w & Hpath & Hlen).
  rewrite (bool_decide_false (t = anchor)) // Hw Hpl (bool_decide_false (Some pl = None)) // Hw0 Hpath.
  assert ((radius <? manhattan_distance t anchor)%N = false) as -> by by apply N.ltb_ge.
  assert ((N.to_nat radius <? String.length w)%nat = false) as -> by by apply Nat.ltb_ge.
  by eexists.
Qed.

(** The candidates in the order of the choice. *)
Definition ranked (m : MovementSelection) (distance : nat * (N * N) → N)
    (l : list (nat * (N * N))) : list (nat * (N * N)) :=
  sort_by (λ a b, key_leb (selection_key m (tile_loads m) (distance a) a.2)
                          (selection_key m (tile_loads m) (distance b) b.2)) l.

(** The first of the ranked candidates is as little loaded as any of them. *)
Lemma ranked_head m distance l (ok : N * N → Prop) :
  (∀ c, c ∈ l → ok c.2) → (∀ t, ok t → ∃ c, c ∈ l ∧ c.2 = t) →
  match ranked m distance l with
  | [] => ∀ t, ¬ ok t
  | c :: _ => ok c.2 ∧ ∀ t, ok t → (load m c.2 ≤ load m t)%nat
  end.
Proof.
  intros Hok Hall. destruct (ranked m distance l) as [|c rest] eqn:Hs.
  - intros t (c & Hc & _)%Hall. apply (elem_of_nil c). rewrite -Hs. by apply elem_of_sort_by.
  - apply (sort_head_least (λ a : nat * (N * N), selection_key m (tile_loads m) (distance a) a.2))
      in Hs as [Hc Hmin].
    split; [by apply Hok|]. intros t (c' & Hc'%Hmin%key_leb_load & <-)%Hall. exact Hc'.
Qed.

Lemma ranked_place m radius from anchor id :
  match ranked m (λ a, manhattan_distance a.2 anchor)
          (omap (place_candidate m radius from anchor id) (all_tiles (ms_package m))) with
  | [] => ∀ t, ¬ may_stop_in m radius from anchor id t
  | c :: _ => may_stop_in m radius from anchor id c.2
      ∧ ∀ t, may_stop_in m radius from anchor id t → (load m c.2 ≤ load m t)%nat
  end.
Proof.
  apply ranked_head.
  - intros c (t & _ & [-> Ht]%place_candidate_iff)%list_elem_of_omap. done.
  - intros t Ht. exists (0%nat, t). split; [|done]. apply list_elem_of_omap. exists t.
    split; [apply elem_of_all_tiles, Ht|]. by apply place_candidate_iff.
Qed.

Lemma ranked_near m radius from anchor :
  match ranked m (λ a, N.of_nat a.1)
          (omap (agent_candidate m radius from anchor) (all_tiles (ms_package m))) with
  | [] => ∀ t, ¬ may_stop_near m radius from anchor t
  | c :: _ => may_stop_near m radius from anchor c.2
      ∧ ∀ t, may_stop_near m radius from anchor t → (load m c.2 ≤ load m t)%nat
  end.
Proof.
  apply ranked_head.
  - intros c (t & _ & [<- Ht]%agent_candidate_Some)%list_elem_of_omap. done.
  - intros t Ht. destruct (agent_candidate_complete _ _ _ _ _ Ht) as (c & Hc & Heq).
    exists c. split; [|done]. apply list_elem_of_omap. exists t. split; [|done].
    by apply elem_of_all_tiles, Ht.
Qed.

(** An agent walking to a place stops on a reachable tile of it, within the search radius
    of its anchor tile, that no other tile there beats in how many agents stand on it or head for
    it; only when there is no such tile does it take the anchor. Walking to an agent it stops
    likewise near, never on, the tile of that agent, and the choice fails only when it stands
    elsewhere and no tile qualifies. *)
Theorem select_spec m radius from anchor :
  movement_search_radius (ms_package m) = Some radius →
  (∀ id, ∃ t, select m from anchor (Some id) = Ok t
    ∧ ((may_stop_in m radius from anchor id t
        ∧ ∀ t', may_stop_in m radius from anchor id t' → (load m t ≤ load m t')%nat)
       ∨ t = anchor ∧ ∀ t', ¬ may_stop_in m radius from anchor id t'))
  ∧ (∀ t, select m from anchor None = Ok t →
      (from ≠ anchor ∧ manhattan_distance from anchor = 1%N ∧ t = from)
      ∨ (may_stop_near m radius from anchor t
         ∧ ∀ t', may_stop_near m radius from anchor t' → (load m t ≤ load m t')%nat)
      ∨ (from = anchor ∧ t = from ∧ ∀ t', ¬ may_stop_near m radius from anchor t'))
  ∧ (∀ e, select m from anchor None = Err e →
      from ≠ anchor ∧ ∀ t', ¬ may_stop_near m radius from anchor t').
Proof.
  intros Hr. rewrite /select Hr. cbn [ok_or mbind result_bind].
  split; [|split]; [intros id|intros t|intros e].
  - pose proof (ranked_place m radius from anchor id) as Hp. rewrite /ranked in Hp.
    destruct (sort_by _ _) as [|c rest]; eauto 6.
  - pose proof (ranked_near m radius from anchor) as Hp. rewrite /ranked in Hp.
    case_bool_decide as Hfa; cbn [negb andb].
    + destruct (sort_by _ _) as [|c rest]; intros [= <-]; auto.
    + destruct (N.eqb_spec (manhattan_distance from anchor) 1); [intros [= <-]; by left|].
      destruct (sort_by _ _) as [|c rest]; [done|]. intros [= <-]. auto.
  - pose proof (ranked_near m radius from anchor) as Hp. rewrite /ranked in Hp.
    case_bool_decide as Hfa; cbn [negb andb]; [by destruct (sort_by _ _)|].
    destruct (manhattan_distance from anchor =? 1)%N; [done|].
    by destruct (sort_by _ _) as [|c rest].
Qed.
End selection.

(** ** Updates *)

Section updates.
Context `{Crypto} `{Digest} (E : Env).

(** An update that stays in the space leaves a visible, valid record. *)
Definition stays (update : SpacePresenceRecord → SpacePackage → result SpacePresenceRecord) : Prop :=
  ∀ r p r', update r p = Ok r' → sr_space_id r' = sr_space_id r
    ∧ sr_space_version r' = sr_space_version r ∧ sr_entered r' = sr_entered r.

Lemma update_presence_run update st s st' :
  PresenceSigner E → node_ok E st → stays update → update_presence E update st = (Ok s, st') →
  ∃ n p previous r, require_active_network E = Ok n
    ∧ catalog_package (space_catalog st') (space_id p) = Some p ∧ validate p = Ok tt
    ∧ visible_get (own_space_presence (ensure_map E st).2) n p = Some previous
    ∧ update (sp_record previous) p = Ok r
    ∧ sp_record s = r <| sr_seq := sr_seq (sp_record s) |> <| sr_network_id := n |>
    ∧ validate_record p (sp_record s) = Ok tt
    ∧ visible_get (own_space_presence st') n p = Some s ∧ last (stream st') = Some s.
Proof.
  intros HE Hst Hstays. rewrite /update_presence. cbv [mbind stm_bind].
  pose proof (ensure_map_keeps E HE st Hst) as Hmap.
  destruct (ensure_map E st) as [[c0|e] st1] eqn:Hens; [|done]. cbn in Hmap |- *.
  cbv [lift gets catalog mbind stm_bind].
  destruct (require_active_network E) as [n|]; [|done].
  destruct (space_catalog st1) as [c|] eqn:Hc; [|done]. cbn [ok_or].
  destruct (active_space_id _ n) as [space|]; [|done]. cbn [ok_or].
  destruct (current c space) as [p|] eqn:Hp; [|done]. cbn [ok_or].
  destruct (visible_get _ _ _) as [previous|] eqn:Hvis; [|done]. cbn [ok_or].
  destruct (update _ p) as [r|] eqn:Hup; [|done].
  destruct (next_sequence _ _ _) as [seq|] eqn:Hseq; [|done].
  apply next_sequence_gt in Hseq as (_ & Hpos & _).
  match goal with |- context [persist_presence E n ?r ?s] =>
    destruct (persist_presence_run E n r s) as [[e ->]|(s' & o' & Hrun & ->)]; [done|] end.
  cbv [modify emit_presence set_field]. cbn. intros [= <- <-]. cbn.
  destruct Hmap as [Hcat Hnet _]. apply (persist_facts E) in Hrun as (_ & Hall & Ho');
    [|done|done|done|by repeat constructor].
  apply Forall2_cons_inv_l in Hall as (s1 & rest & (Hrs & _ & Hact & Hchk) & _ & [= <- <-]).
  rewrite Hc in Hcat. destruct (Hcat _ _ Hp) as [Hval Hid].
  apply visible_inv in Hvis as Hv. destruct Hv as (Hactive & Hstored & Hver & Hent & _).
  assert (sr_space_id (sp_record previous) = space_id p) as Hsp.
  { apply bind_Some in Hstored as (spaces & Hn1 & Hk). by destruct (Hnet _ _ _ _ Hn1 Hk). }
  destruct (Hstays _ _ _ Hup) as (Hsid & Hsver & Hsent).
  rewrite Hsp in Hsid. rewrite Hver in Hsver. rewrite Hent in Hsent.
  exists n, p, previous, r. split_and!; try done.
  - by rewrite /space_catalog /= -/(space_catalog st1) Hc /= Hid.
  - by rewrite Hrs.
  - rewrite Hrs. rewrite Hc in Hchk.
    eapply (check_record_current E (Some c)); [by rewrite /= Hid|done|done|done].
  - apply visible_intro; [| |by rewrite Hrs..].
    + rewrite Ho' /=. rewrite /active_space_id in Hactive.
      destruct (active_space _) as [[n' sp]|]; [|done].
      destruct (String.eqb_spec n' n); [|done]. by injection Hactive as ->; subst.
    + pose proof (stored_last n [] s' (own_space_presence st1)) as Hs'.
      rewrite Hrs /= Hsid in Hs'. rewrite Ho'. exact Hs'.
  - by rewrite last_snoc.
Qed.

Lemma move_stays body n occupancy target now : stays (move_update E body n occupancy target now).
Proof. intros r p r'. rewrite /move_update. by intros (d & _ & (w & _ & [= <-])%result_bind_ok)%result_bind_ok. Qed.

Lemma stand_still_fields now r p r' :
  stand_still now r p = Ok r' →
  sr_space_id r' = sr_space_id r ∧ sr_space_version r' = sr_space_version r
  ∧ sr_entered r' = sr_entered r ∧ sr_path r' = ""%string
  ∧ sr_from_tile r' = tile_at r (walk_speed p) now.
Proof. rewrite /stand_still. by intros (pl & _ & [= <-])%result_bind_ok. Qed.

Lemma restyle_stays choice :
  stays (λ r p, r ← stand_still (now_ms E) r p; Ok (wear choice r)).
Proof.
  intros r p r' (r1 & Hs & [= <-])%result_bind_ok. apply stand_still_fields in Hs as (? & ? & ? & _).
  by destruct choice.
Qed.

(** ** Handlers keep the node's invariant *)

Lemma on_space_inv {A} status (m : stm SpaceState A) n a n' :
  on_space status m n = (Answer a, n') → ∃ st, m (node_space n) = (Ok a, st)
    ∧ n' = mkNode (node_limiter n) (node_token n) (node_busy n) st.
Proof. rewrite /on_space. destruct (m (node_space n)) as [[x|e] st]; intros [= <- <-]. eauto. Qed.

Definition hkeeps {A} (h : handler A) : Prop :=
  ∀ n a n', node_ok E (node_space n) → h n = (Answer a, n') → node_ok E (node_space n').

Lemma hkeeps_bind {A B} (h : handler A) (k : A → handler B) :
  hkeeps h → (∀ a, hkeeps (k a)) → hkeeps (h ≫= k).
Proof. 
  intros Hh Hk n b n' Hn (a & n1 & H1 & H2)%handler_bind_inv.
  exact (Hk a n1 b n' (Hh n a n1 Hn H1) H2).
Qed.

Lemma hkeeps_space {A} status (m : stm SpaceState A) : keeps E m → hkeeps (on_space status m).
Proof.
  intros Hm n a n' Hn (st & Hr & ->)%on_space_inv. specialize (Hm _ Hn). by rewrite Hr in Hm.
Qed.

Lemma keeps_bind {A B} (m : stm SpaceState A) (k : A → stm SpaceState B) :
  keeps E m → (∀ a, keeps E (k a)) → keeps E (m ≫= k).
Proof.
  intros Hm Hk st Hst. specialize (Hm st Hst). cbv [mbind stm_bind].
  destruct (m st) as [[a|e] st']; [by apply Hk|done].
Qed.

Lemma keeps_pure {A} (m : stm SpaceState A) : (∀ st, (m st).2 = st) → keeps E m.
Proof. intros Hm st. by rewrite Hm. Qed.

Lemma observe_gateway_keeps sp v : keeps E (observe_gateway_version sp v).
Proof.
  intros st [Hc Hn Hp]. rewrite /observe_gateway_version. destruct v as [v|]; [|done].
  cbv [mbind stm_bind gets mret stm_ret modify spawn_refresh]. by destruct (_ || _).
Qed.

Lemma observe_record_keeps sp v : keeps E (observe_record_version sp v).
Proof.
  intros st [Hc Hn Hp]. rewrite /observe_record_version.
  cbv [mbind stm_bind gets mret stm_ret modify spawn_refresh]. destruct (_ || _); [done|].
  by destruct (bool_decide _).
Qed.

Lemma occupancy_keeps replies sp gateways available latest :
  keeps E (occupancy_go E replies sp gateways available latest).
Proof.
  revert available latest. induction gateways as [|g gateways IH]; intros available latest;
    [by apply keeps_pure|].
  cbn [occupancy_go]. destruct (replies g) as [payload|]; [|apply IH].
  apply keeps_bind; [apply observe_gateway_keeps|]. intros _. destruct (pl_presences payload); apply IH.
Qed.

Lemma movement_occupancies_keeps replies sp : keeps E (movement_occupancies E replies sp).
Proof.
  apply keeps_bind; [by apply keeps_pure|]. intros [c|]; [|by apply keeps_pure].
  apply keeps_bind; [apply occupancy_keeps|]. intros [available latest]. by apply keeps_pure.
Qed.

Lemma observe_foreign_keeps l : keeps E (observe_foreign E l).
Proof.
  induction l as [|s l IH]; [by apply keeps_pure|]. cbn [observe_foreign].
  apply keeps_bind; [|done]. destruct (String.eqb _ _); [by apply keeps_pure|].
  apply observe_record_keeps.
Qed.

Lemma presences_go_keeps replies nw sp gateways latest :
  keeps E (presences_go E replies nw sp gateways latest).
Proof.
  revert latest. induction gateways as [|g gateways IH]; intros latest;
    [by apply keeps_pure|].
  cbn [presences_go]. destruct (replies g) as [payload|]; [|apply IH].
  apply keeps_bind; [apply observe_gateway_keeps|]. intros _.
  destruct (pl_presences payload); [|apply IH].
  apply keeps_bind; [apply observe_foreign_keeps|]. intros _. apply IH.
Qed.

Lemma network_presences_keeps replies nw sp :
  PresenceSigner E → keeps E (network_presences E replies nw sp).
Proof.
  intros HE. apply keeps_bind; [by apply ensure_map_keeps|]. intros c.
  apply keeps_bind; [by apply keeps_pure|]. intros o.
  apply keeps_bind; [apply presences_go_keeps|]. intros latest. by apply keeps_pure.
Qed.

Lemma selected_package_keeps requested : PresenceSigner E → keeps E (selected_package E requested).
Proof.
  intros HE. apply keeps_bind; [by apply ensure_map_keeps|]. intros _.
  apply keeps_pure. intros st. cbv [mbind stm_bind lift gets catalog mret stm_ret].
  destruct (current_network E); [|done]. destruct (ok_or _ (space_catalog st)); [|done].
  by destruct (ok_or _ _).
Qed.

Lemma person_target_keeps replies nw p target now :
  PresenceSigner E → hkeeps (person_target E replies nw p target now).
Proof.
  intros HE. apply hkeeps_bind; [by apply hkeeps_space, network_presences_keeps|]. intros records.
  intros n a n' Hn. destruct (find_first _ _) as [s|]; [|done].
  cbv zeta. destruct (place_at_tile p _); [|done]. by intros [= _ <-].
Qed.

Lemma authorized_inv header now_s n t n' :
  authorized header now_s n = (Answer t, n') →
  bearer_token header = Some (node_token n) ∧ node_busy n' = node_busy n
  ∧ node_space n' = node_space n.
Proof.
  rewrite /authorized. pose proof (authorize_spec (node_token n) header now_s (node_limiter n)) as [_ Ha].
  destruct (authorize _ _ _ _) as [r l]. cbn in Ha. intros [= -> <-].
  by destruct (Ha t eq_refl) as [_ ?].
Qed.

Lemma take_turn_inv now n u n' :
  take_turn now n = (Answer u, n') →
  (busy_until (node_busy n)).1 ≤ now ∧ node_space n' = node_space n.
Proof.
  rewrite /take_turn /walk_turn. destruct (busy_until (node_busy n)) as [until b].
  destruct (Z.leb_spec (i64_saturating_sub until now) 0) as [Hl|]; [|done].
  intros [= _ <-]. split; [|done]. cbn.
  rewrite /i64_saturating_sub /clamp /i64_min /i64_max in Hl. lia.
Qed.

Lemma hkeeps_require b status e : hkeeps (require b status e).
Proof. intros n u n' Hn. destruct b; [by intros [= _ <-]|done]. Qed.

Lemma hkeeps_ret {A} (a : A) : hkeeps (mret a).
Proof. intros n x n' Hn. by intros [= _ <-]. Qed.

Lemma keeps_lift {A} (r : result A) : keeps E (lift r).
Proof. by apply keeps_pure. Qed.

Lemma keeps_gets {A} (f : SpaceState → A) : keeps E (gets f).
Proof. by apply keeps_pure. Qed.

Lemma occupancy_step_keeps body by_space p :
  hkeeps (match mb_tile body with
          | None => on_space 400 (movement_occupancies E by_space (space_id p))
          | Some _ => mret None
          end).
Proof.
  destruct (mb_tile body); [apply hkeeps_ret|]. apply hkeeps_space, movement_occupancies_keeps.
Qed.

Lemma target_step_keeps body by_network nw p :
  PresenceSigner E →
  hkeeps (match mb_target_agent_id body with
          | Some id =>
              r ← person_target E by_network nw p id (now_ms E);
              mret (Some r)
          | None => mret None
          end).
Proof.
  intros HE. destruct (mb_target_agent_id body); [|apply hkeeps_ret].
  apply hkeeps_bind; [by apply person_target_keeps|]. intros r. apply hkeeps_ret.
Qed.

Ltac move_step Hrun Hn lem :=
  let x := fresh "x" in let n1 := fresh "n1" in let Hs := fresh "Hstep" in
  apply handler_bind_inv in Hrun as (x & n1 & Hs & Hrun);
  apply (lem _ _ _ Hn) in Hs; clear Hn; rename Hs into Hn.

(** A walk starts where the agent stands: the signed record is valid on the map, at the
    moment of the call the agent is on the tile it was on, and once it has walked its path it
    stands in the destination place. It is refused while a command holds the agent. *)
Theorem move_agent_spec header now_s body by_space by_network n s n' :
  PresenceSigner E → node_ok E (node_space n) →
  move_agent E header now_s body by_space by_network n = (Answer s, n') →
  bearer_token header = Some (node_token n) ∧ (busy_until (node_busy n)).1 ≤ now_ms E
  ∧ ∃ st network p previous,
      node_ok E st ∧ visible_get (own_space_presence st) network p = Some previous
      ∧ visible_get (own_space_presence (node_space n')) network p = Some s
      ∧ validate_record p (sp_record s) = Ok tt
      ∧ tile_at (sp_record s) (walk_speed p) (now_ms E)
        = tile_at (sp_record previous) (walk_speed p) (now_ms E)
      ∧ ∀ t, (length (to_bytes (sr_path (sp_record s))) ≤ whole_steps (sp_record s) (walk_speed p) t)%nat →
          ∃ destination, place p (sr_destination_place_id (sp_record s)) = Some destination
            ∧ tile_at (sp_record s) (walk_speed p) t ∈ tiles destination.
Proof.
  intros HE Hn (tok & n1 & (Htok & Hb1 & Hs1)%authorized_inv & Hrun)%handler_bind_inv.
  apply handler_bind_inv in Hrun as (u & n2 & (Hbusy & Hs2)%take_turn_inv & Hrun).
  rewrite Hb1 in Hbusy. rewrite -Hs1 -Hs2 in Hn. split; [done|split; [done|]].
  move_step Hrun Hn (hkeeps_require (bool_decide (choices body = 1%nat)) 400
    "provide exactly one of place_id, target_agent_id or tile").
  move_step Hrun Hn (hkeeps_space 400 _
    (keeps_lift (validate_activity (default ""%string (mb_activity body))))).
  move_step Hrun Hn (hkeeps_space 400 _ (keeps_gets is_entered)).
  move_step Hrun Hn (hkeeps_require x1 400 not_entered).
  move_step Hrun Hn (hkeeps_space 400 _ (selected_package_keeps None HE)). destruct x3 as [network p0].
  move_step Hrun Hn (occupancy_step_keeps body by_space p0).
  move_step Hrun Hn (target_step_keeps body by_network network p0 HE).
  apply on_space_inv in Hrun as (st' & Hup & ->).
  destruct (update_presence_run _ _ _ _ HE Hn (move_stays _ _ _ _ _) Hup)
    as (nw & p & previous & r & _ & _ & Hval & Hvis & Hr & Hrs & Hv & Hvis' & _).
  eexists _, nw, p, previous. split_and!;
    [exact (ensure_map_keeps E HE _ Hn)|exact Hvis|exact Hvis'|exact Hv| |].
  - rewrite /move_update in Hr.
    apply result_bind_ok in Hr as (d & _ & (w & _ & [= <-])%result_bind_ok).
    rewrite Hrs. etrans; [apply tile_at_departure|]; [done|by apply validate_walk_speed|done].
  - intros t Ht. apply validate_record_facts in Hv as (_ & _ & _ & _ & Hgeo).
    by eapply tile_at_arrived.
Qed.
End updates.

(** ** What a node sees of the others *)

Section seen.
Context `{Crypto} `{Digest} (E : Env).

(** [m] holds the newest record of [l] of every agent in [l]. *)
Definition newest (m : gmap string SignedSpacePresence) (l : list SignedSpacePresence) : Prop :=
  (∀ a s, m !! a = Some s → s ∈ l ∧ sr_agent_did (sp_record s) = a)
  ∧ ∀ s, s ∈ l → ∃ s', m !! sr_agent_did (sp_record s) = Some s'
      ∧ (sr_seq (sp_record s) ≤ sr_seq (sp_record s'))%N.

Lemma note_agent_newest m l s : newest m l → newest (note_agent m s) (l ++ [s]).
Proof.
  intros [Hm Hl]. rewrite /note_agent /newer. split.
  - intros a s' Hs. destruct (m !! sr_agent_did (sp_record s)) as [old|] eqn:Ho.
    + destruct (_ <? _)%N; [|apply Hm in Hs as [? ?]; split; [apply elem_of_app; by left|done]].
      apply lookup_insert_Some in Hs as [[<- <-]|[_ Hs%Hm]];
        (split; [apply elem_of_app|]); [right; by constructor|done|left; apply Hs|apply Hs].
    + apply lookup_insert_Some in Hs as [[<- <-]|[_ Hs%Hm]];
        (split; [apply elem_of_app|]); [right; by constructor|done|left; apply Hs|apply Hs].
  - intros x Hx. assert (∃ s', m !! sr_agent_did (sp_record x) = Some s'
      ∧ (sr_seq (sp_record x) ≤ sr_seq (sp_record s'))%N ∨ x = s) as Hcase.
    { apply elem_of_app in Hx as [Hx%Hl| ->%list_elem_of_singleton]; [|exists s; by right].
      destruct Hx as (s' & ? & ?). exists s'. by left. }
    destruct (m !! sr_agent_did (sp_record s)) as [old|] eqn:Ho.
    + destruct (N.ltb_spec (sr_seq (sp_record old)) (sr_seq (sp_record s))) as [Hlt|Hge].
      * destruct (decide (sr_agent_did (sp_record x) = sr_agent_did (sp_record s))) as [Heq|Hne].
        -- rewrite Heq lookup_insert_eq. exists s. split; [done|].
           destruct Hcase as [s' [[Hs' ?]| ->]]; [|done]. rewrite Heq Ho in Hs'. injection Hs' as <-. lia.
        -- rewrite lookup_insert_ne //. destruct Hcase as [s' [?| ->]]; [eauto|done].
      * destruct Hcase as [s' [?| ->]]; eauto.
    + destruct (decide (sr_agent_did (sp_record x) = sr_agent_did (sp_record s))) as [Heq|Hne].
      * rewrite Heq lookup_insert_eq. exists s. split; [done|].
        destruct Hcase as [s' [[Hs' ?]| ->]]; [|done]. by rewrite Heq Ho in Hs'.
      * rewrite lookup_insert_ne //. destruct Hcase as [s' [?| ->]]; [eauto|done].
Qed.

Lemma note_all_newest l2 m l1 : newest m l1 → newest (foldl note_agent m l2) (l1 ++ l2).
Proof.
  revert m l1. induction l2 as [|s l2 IH]; intros m l1 Hm; [by rewrite app_nil_r|].
  cbn [foldl]. rewrite cons_middle app_assoc. by apply IH, note_agent_newest.
Qed.

(** What the gateways returned of the network, verified. *)
Definition heard (replies : string → result PresencePayload) (network : string)
    (gateways : list string) : list SignedSpacePresence :=
  gateways ≫= λ g,
    match replies g with
    | Ok payload =>
        match pl_presences payload with
        | Some records =>
            verified_records E (λ s, String.eqb (sr_network_id (sp_record s)) network) records
        | None => []
        end
    | Err _ => []
    end.

Lemma presences_go_newest replies nw sp gateways m l st m' st' :
  newest m l → presences_go E replies nw sp gateways m st = (Ok m', st') →
  newest m' (l ++ heard replies nw gateways).
Proof.
  revert m l st. induction gateways as [|g gateways IH]; intros m l st Hm.
  { intros [= <- <-]. by rewrite app_nil_r. }
  cbn [presences_go]. rewrite /heard bind_cons -/(heard replies nw gateways).
  destruct (replies g) as [payload|]; [|by apply IH].
  intros (u & st1 & _ & Hrun)%bind_ok_inv.
  destruct (pl_presences payload) as [records|]; [|by eapply IH].
  apply bind_ok_inv in Hrun as (u2 & st2 & _ & Hrun). rewrite app_assoc.
  eapply IH; [|exact Hrun]. by apply note_all_newest.
Qed.

(** The presences a node shows of a space are verified records of agents that are in it,
    one per agent, each the newest this node and the gateways have of that agent on the network;
    an agent whose newest record says it left, or is elsewhere, is not shown. *)
Theorem network_presences_spec replies network space st l st' :
  network_presences E replies network space st = (Ok l, st') →
  ∃ known, NoDup ((λ s, sr_agent_did (sp_record s)) <$> l)
    ∧ heard replies network (gateway_urls E) `suffix_of` known
    ∧ ∀ s, s ∈ l → s ∈ known ∧ sr_space_id (sp_record s) = space ∧ sr_entered (sp_record s) = true
        ∧ (∃ p, catalog_package (space_catalog (ensure_map E st).2) space = Some p
             ∧ verify_presence E p s = Ok tt)
        ∧ ∀ s', s' ∈ known → sr_agent_did (sp_record s') = sr_agent_did (sp_record s) →
            (sr_seq (sp_record s') ≤ sr_seq (sp_record s))%N.
Proof.
  intros (c & st1 & Hmap & Hrun)%bind_ok_inv.
  apply bind_ok_inv in Hrun as (o & st2 & [= <- <-] & Hrun).
  apply bind_ok_inv in Hrun as (latest & st3 & Hgo & [= <- <-]).
  set (own := List.filter _ (network_values _ _)) in Hgo.
  assert (newest ∅ []) as Hempty.
  { split; [by intros a s; rewrite lookup_empty|by intros s ?%elem_of_nil]. }
  pose proof (presences_go_newest _ _ _ _ _ _ _ _ _ (note_all_newest own _ _ Hempty) Hgo) as [Hm Hl].
  exists (own ++ heard replies network (gateway_urls E)). cbn in Hm, Hl. split_and!.
  - eapply sublist_NoDup; [|apply fmap_sublist, filterb_sublist].
    rewrite /btree_values -list_fmap_compose.
    assert ((λ s, sr_agent_did (sp_record s)) ∘ snd <$> btree_entries latest = (btree_entries latest).*1) as ->.
    { apply list_fmap_ext. intros i [a s] Hi. apply list_elem_of_lookup_2, elem_of_btree_entries in Hi. by apply Hm. }
    apply btree_entries_NoDup.
  - by eexists.
  - intros s [Hs Hf]%elem_of_filterb. apply elem_of_btree_values in Hs as [a Ha].
    destruct (Hm _ _ Ha) as [Hin Hagent]. apply andb_true_iff in Hf as [Hf Hvalid].
    apply andb_true_iff in Hf as [Hf _]. apply andb_true_iff in Hf as [Hsp He].
    split_and!; [done|by apply String.eqb_eq|done| |].
    + rewrite /valid_in in Hvalid. destruct (current c space) as [p|] eqn:Hc; [|done]. cbn in Hvalid.
      exists p. rewrite Hmap /= (ensure_map_ok E _ _ _ Hmap). split; [done|].
      by destruct (verify_presence E p s) as [[]|].
    + intros s' Hs' Heq. destruct (Hl s' Hs') as (s2 & Hs2 & Hle).
      rewrite Heq Hagent Ha in Hs2. by injection Hs2 as <-.
Qed.
End seen.

(** ** Held agents *)

(** A hold outlives a restart: the saved moment still refuses walks until it
    passes, and no longer. *)
Lemma busy_survives_restart until now b :
  is_i64 until → is_i64 now → 0 ≤ until →
  let b' := busy_set true until b in
  let restarted := mkBusy 0 false (busy_saved b') in
  (walk_turn now b').1 = (if now <? until then Refuse 409 "busy" else Answer tt)
  ∧ (walk_turn now restarted).1 = (if now <? until then Refuse 409 "busy" else Answer tt).
Proof.
  intros Hu Hn H0. rewrite /busy_set /walk_turn /busy_until. destruct (restored b); cbn;
    rewrite Z.max_r //; rewrite /i64_saturating_sub /clamp /is_i64 /i64_min /i64_max in Hu, Hn |- *;
    destruct (Z.ltb_spec now until); (destruct (Z.leb_spec (Z.min (2 ^ 63 - 1) (Z.max (- 2 ^ 63) (until - now))) 0); [|]);
    cbn; try done; lia.
Qed.

(** ** A walk in the town *)

Module MovementScenario.
Import Demo SpaceScenario PresenceScenario.
#[local] Existing Instance demo_digest.

Definition node : Node :=
  mkNode (new_limiter 10 60) "secret" (mkBusy 500 false (Some 1500)) entered.

Definition nobody (_ : string) : result PresencePayload := Ok (mkPayload None (Some [])).

Definition to_shop : MoveAgentBody := mkMove (Some "shop"%string) None None (Some "shopping"%string).

Definition walk (now : Z) : reply SignedSpacePresence * Node :=
  move_agent (env "first" now) (Some "Bearer secret"%string) 0 to_shop nobody nobody node.

Example held_agent_refused : (walk 1400).1 = Refuse 409 "busy".
Proof. by vm_compute. Qed.

Example walk_path :
  match (walk 2000).1 with Answer s => sr_path (sp_record s) | Refuse _ e => e end = "LDDRRRUU"%string.
Proof. by vm_compute. Qed.

Lemma move_agent_spec_witness :
  ∃ s n', walk 2000 = (Answer s, n')
    ∧ ∃ p, validate_record p (sp_record s) = Ok tt.
Proof.
  destruct (walk 2000) as [[s|status e] n'] eqn:Hw; [|by vm_compute in Hw].
  exists s, n'. split; [reflexivity|].
  destruct (move_agent_spec (env "first" 2000) (Some "Bearer secret"%string) 0 to_shop nobody nobody
    node s n') as (_ & _ & st & network & p & previous & _ & _ & _ & Hv & _);
    [apply env_signer_ok|exact (entered_ok "first" 2000)|exact Hw|by exists p].
Defined.

Definition choose : MovementSelection := mkSelection town [my_record] "did:key:you" "net" 2000.

Lemma select_spec_witness :
  ∃ t, select choose (0, 0)%N (0, 0)%N (Some "home"%string) = Ok t.
Proof.
  destruct (select_spec choose 3 (0, 0)%N (0, 0)%N) as (Hp & _ & _); [reflexivity|].
  destruct (Hp "home"%string) as (t & Ht & _). exists t. exact Ht.
Defined.

(** The agent already on the anchor tile sends the next one beside it. *)
Example avoids_the_occupied :
  select choose (0, 0)%N (tile_at (sp_record my_record) (walk_speed town) 2000) (Some "home"%string)
  ≠ Ok (tile_at (sp_record my_record) (walk_speed town) 2000).
Proof. by vm_compute. Qed.

Lemma network_presences_spec_witness :
  ∃ l st', network_presences (env "first" 2000) nobody "net" "town" entered = (Ok l, st')
    ∧ NoDup ((λ s, sr_agent_did (sp_record s)) <$> l).
Proof.
  destruct (network_presences (env "first" 2000) nobody "net" "town" entered) as [[l|e] st'] eqn:Hr;
    [|by vm_compute in Hr].
  exists l, st'. split; [reflexivity|].
  destruct (network_presences_spec (env "first" 2000) nobody "net" "town" entered l st' Hr)
    as (known & Hnd & _). exact Hnd.
Defined.
End MovementScenario.
