(* ===== verification/Registration.v ===== *)
(** * Registration of networks

    [network/registration.rs]: an autonomous network signs a manifest and a
    request to join a mainnet; the authority of the mainnet signs a membership
    credential for it, and may revoke it; each side keeps the evidence in a
    store. [apps/wattetheria-cli/src/network_registration.rs]: the commands of
    both sides. The files that hold artifacts, the keys and the store are not
    modelled: artifacts and the authority are arguments, and the store, which is
    changed under a file lock, is the state. *)

From S2P Require Import Prelude Collections Text Json Sql Signing.
#[local] Open Scope Z_scope.
#[local] Set Default Proof Using "Type*".

Definition NETWORK_REGISTRATION_PROTOCOL_VERSION : string := "wattetheria.network-registration.v1".
Definition MEMBERSHIP_STATUS_ACTIVE : string := "active".
Definition MEMBERSHIP_STATUS_REVOKED : string := "revoked".

(** [Serialize]. *)
Class ToJson (T : Type) := to_json : T → json.

Record FederationEndpoint := mkEndpoint { fe_transport : string; fe_endpoint : string }.

#[global] Instance endpoint_eq_dec : EqDecision FederationEndpoint.
Proof. solve_decision. Defined.

#[global] Instance endpoint_json : ToJson FederationEndpoint := λ e,
  JObject [("transport", JString (fe_transport e)); ("endpoint", JString (fe_endpoint e))].

(** ** Signed artifacts *)

Record SignedArtifact {T : Type} := mkArtifact {
  payload : T;
  signed_by : string;
  signature : string;
}.
Arguments SignedArtifact : clear implicits.
Arguments mkArtifact {T} _ _ _.

#[global] Instance artifact_eq_dec `{EqDecision T} : EqDecision (SignedArtifact T).
Proof. solve_decision. Defined.

#[global] Instance artifact_json `{ToJson T} : ToJson (SignedArtifact T) := λ a,
  JObject [("payload", to_json (payload a)); ("signed_by", JString (signed_by a));
           ("signature", JString (signature a))].

Record NetworkManifestPayload := mkManifest {
  nm_protocol_version : string;
  nm_network_did : string;
  nm_network_id : string;
  nm_name : string;
  nm_authority_did : string;
  nm_federation_endpoints : list FederationEndpoint;
  nm_issued_at_ms : Z;
  nm_expires_at_ms : option Z;
}.
#[global] Instance manifest_eq_dec : EqDecision NetworkManifestPayload.
Proof. solve_decision. Defined.
#[global] Instance manifest_json : ToJson NetworkManifestPayload := λ m,
  JObject
    ([("protocol_version", JString (nm_protocol_version m));
      ("network_did", JString (nm_network_did m));
      ("network_id", JString (nm_network_id m));
      ("name", JString (nm_name m));
      ("authority_did", JString (nm_authority_did m))]
     ++ match nm_federation_endpoints m with
        | [] => []
        | es => [("federation_endpoints", JArray (to_json <$> es))]
        end
     ++ [("issued_at_ms", json_of_Z (nm_issued_at_ms m))]
     ++ match nm_expires_at_ms m with
        | None => []
        | Some t => [("expires_at_ms", json_of_Z t)]
        end).
Notation NetworkManifest := (SignedArtifact NetworkManifestPayload).

Record NetworkRegistrationRequestPayload := mkRequest {
  rr_protocol_version : string;
  rr_request_id : string;
  rr_target_network_did : string;
  rr_manifest : NetworkManifest;
  rr_issued_at_ms : Z;
  rr_expires_at_ms : Z;
}.
#[global] Instance request_eq_dec : EqDecision NetworkRegistrationRequestPayload.
Proof. solve_decision. Defined.
#[global] Instance request_json : ToJson NetworkRegistrationRequestPayload := λ r,
  JObject [("protocol_version", JString (rr_protocol_version r));
           ("request_id", JString (rr_request_id r));
           ("target_network_did", JString (rr_target_network_did r));
           ("manifest", to_json (rr_manifest r));
           ("issued_at_ms", json_of_Z (rr_issued_at_ms r));
           ("expires_at_ms", json_of_Z (rr_expires_at_ms r))].
Notation NetworkRegistrationRequest := (SignedArtifact NetworkRegistrationRequestPayload).

Record MainnetTrustBundlePayload := mkBundle {
  tb_protocol_version : string;
  tb_network_did : string;
  tb_network_id : string;
  tb_authority_did : string;
  tb_issued_at_ms : Z;
}.
#[global] Instance bundle_eq_dec : EqDecision MainnetTrustBundlePayload.
Proof. solve_decision. Defined.
#[global] Instance bundle_json : ToJson MainnetTrustBundlePayload := λ b,
  JObject [("protocol_version", JString (tb_protocol_version b));
           ("network_did", JString (tb_network_did b));
           ("network_id", JString (tb_network_id b));
           ("authority_did", JString (tb_authority_did b));
           ("issued_at_ms", json_of_Z (tb_issued_at_ms b))].
Notation MainnetTrustBundle := (SignedArtifact MainnetTrustBundlePayload).

Record NetworkMembershipCredentialPayload := mkMembership {
  mc_protocol_version : string;
  mc_credential_id : string;
  mc_request_id : string;
  mc_issuer_network_did : string;
  mc_subject_network_did : string;
  mc_subject_network_id : string;
  mc_subject_authority_did : string;
  mc_manifest_hash : string;
  mc_issued_at_ms : Z;
  mc_expires_at_ms : Z;
}.
#[global] Instance membership_eq_dec : EqDecision NetworkMembershipCredentialPayload.
Proof. solve_decision. Defined.
#[global] Instance membership_json : ToJson NetworkMembershipCredentialPayload := λ c,
  JObject [("protocol_version", JString (mc_protocol_version c));
           ("credential_id", JString (mc_credential_id c));
           ("request_id", JString (mc_request_id c));
           ("issuer_network_did", JString (mc_issuer_network_did c));
           ("subject_network_did", JString (mc_subject_network_did c));
           ("subject_network_id", JString (mc_subject_network_id c));
           ("subject_authority_did", JString (mc_subject_authority_did c));
           ("manifest_hash", JString (mc_manifest_hash c));
           ("issued_at_ms", json_of_Z (mc_issued_at_ms c));
           ("expires_at_ms", json_of_Z (mc_expires_at_ms c))].
Notation NetworkMembershipCredential := (SignedArtifact NetworkMembershipCredentialPayload).

Record NetworkMembershipRevocationPayload := mkRevocation {
  rv_protocol_version : string;
  rv_revocation_id : string;
  rv_credential_id : string;
  rv_issuer_network_did : string;
  rv_revoked_at_ms : Z;
  rv_reason : string;
}.
#[global] Instance revocation_eq_dec : EqDecision NetworkMembershipRevocationPayload.
Proof. solve_decision. Defined.
#[global] Instance revocation_json : ToJson NetworkMembershipRevocationPayload := λ r,
  JObject [("protocol_version", JString (rv_protocol_version r));
           ("revocation_id", JString (rv_revocation_id r));
           ("credential_id", JString (rv_credential_id r));
           ("issuer_network_did", JString (rv_issuer_network_did r));
           ("revoked_at_ms", json_of_Z (rv_revoked_at_ms r));
           ("reason", JString (rv_reason r))].
Notation NetworkMembershipRevocation := (SignedArtifact NetworkMembershipRevocationPayload).

(** ** The store *)

Record StoredNetworkMembershipCredential := mkStored {
  sc_credential : NetworkMembershipCredential;
  sc_status : string;
  sc_registration_request : NetworkRegistrationRequest;
  sc_trust_bundle : MainnetTrustBundle;
  sc_revocation : option NetworkMembershipRevocation;
}.

Record NetworkRegistrationState := mkState {
  requests : list NetworkRegistrationRequest;
  credentials : list StoredNetworkMembershipCredential;
}.
#[global] Instance eta_registration : Eta NetworkRegistrationState := λ s,
  mkState (requests s) (credentials s).
Definition NetworkRegistrationState_default : NetworkRegistrationState := mkState [] [].

Definition request_id_of (r : NetworkRegistrationRequest) : string := rr_request_id (payload r).
Definition credential_id_of (s : StoredNetworkMembershipCredential) : string :=
  mc_credential_id (payload (sc_credential s)).
Definition credential_request_of (s : StoredNetworkMembershipCredential) : string :=
  mc_request_id (payload (sc_credential s)).

(** ** Signing and verification *)

Section registration.
Context `{Crypto}.

Definition sign_artifact `{ToJson T} (p : T) (identity : PayloadSigner)
    : result (SignedArtifact T) :=
  sig ← sign_payload_with (to_json p) identity;
  Ok (mkArtifact p (ps_agent_did identity) sig).

Definition verify_artifact `{ToJson T} (a : SignedArtifact T) : result unit :=
  valid ← verify_payload (to_json (payload a)) (signature a) (signed_by a);
  ensure_ok valid "signed network registration artifact signature is invalid".

Definition require_version (version : string) : result unit :=
  ensure_ok (String.eqb version NETWORK_REGISTRATION_PROTOCOL_VERSION)
    ("unsupported network registration protocol version '" +:+ version +:+ "'").

Definition require_did (value name : string) : result unit :=
  ensure_ok (String.prefix "did:" value && (4 <? String.length value)%nat
             && negb (has_whitespace (to_bytes value)))
    (name +:+ " must be a non-empty DID").

Definition manifest_hash (manifest : NetworkManifest) : result string :=
  b ← canonical_bytes (to_json manifest); Ok ("sha256:" +:+ sha256_hex b).

Definition sign_network_manifest (p : NetworkManifestPayload) (authority : PayloadSigner)
    : result NetworkManifest :=
  _ ← ensure_ok (String.eqb (nm_authority_did p) (ps_agent_did authority))
        "network manifest authority DID does not match signer";
  sign_artifact p authority.

(** The loop over the endpoints; [seen] is the set of the earlier ones. *)
Fixpoint check_endpoints (seen es : list FederationEndpoint) : result unit :=
  match es with
  | [] => Ok tt
  | e :: es' =>
      _ ← ensure_ok (negb (is_blank (fe_transport e) || is_blank (fe_endpoint e)))
            "federation endpoint transport and endpoint are required";
      _ ← ensure_ok (String.eqb (trim (fe_transport e)) (fe_transport e)
                     && String.eqb (trim (fe_endpoint e)) (fe_endpoint e))
            "federation endpoint values must not have surrounding whitespace";
      _ ← ensure_ok (negb (bool_decide (e ∈ seen))) "federation endpoints must be unique";
      check_endpoints (e :: seen) es'
  end.

Definition verify_network_manifest (manifest : NetworkManifest) : result unit :=
  let p := payload manifest in
  _ ← require_version (nm_protocol_version p);
  _ ← require_did (nm_network_did p) "network_did";
  _ ← require_did (nm_authority_did p) "authority_did";
  _ ← ensure_ok (negb (is_blank (nm_network_id p) || is_blank (nm_name p)))
        "network manifest id and name are required";
  _ ← ensure_ok (String.eqb (signed_by manifest) (nm_authority_did p))
        "network manifest signer does not match authority DID";
  _ ← ensure_ok (match nm_expires_at_ms p with
                 | Some expires => nm_issued_at_ms p <? expires
                 | None => true
                 end) "network manifest expiry must follow issuance";
  _ ← check_endpoints [] (nm_federation_endpoints p);
  verify_artifact manifest.

Definition sign_registration_request (p : NetworkRegistrationRequestPayload)
    (authority : PayloadSigner) : result NetworkRegistrationRequest :=
  _ ← verify_network_manifest (rr_manifest p);
  _ ← ensure_ok (String.eqb (nm_authority_did (payload (rr_manifest p))) (ps_agent_did authority))
        "registration request authority does not match signer";
  sign_artifact p authority.

Definition verify_registration_request (request : NetworkRegistrationRequest) (now_ms : Z)
    : result unit :=
  let p := payload request in
  _ ← require_version (rr_protocol_version p);
  _ ← require_did (rr_target_network_did p) "target_network_did";
  _ ← ensure_ok (negb (is_blank (rr_request_id p) || (rr_expires_at_ms p <=? rr_issued_at_ms p)))
        "registration request id and validity window are required";
  _ ← verify_network_manifest (rr_manifest p);
  _ ← ensure_ok (String.eqb (signed_by request) (nm_authority_did (payload (rr_manifest p))))
        "registration request signer does not match network authority";
  _ ← verify_artifact request;
  ensure_ok (negb ((now_ms <? rr_issued_at_ms p) || (rr_expires_at_ms p <? now_ms)))
    "network registration request is not currently valid".

Definition sign_trust_bundle (p : MainnetTrustBundlePayload) (authority : PayloadSigner)
    : result MainnetTrustBundle :=
  _ ← ensure_ok (String.eqb (tb_authority_did p) (ps_agent_did authority))
        "mainnet trust bundle authority DID does not match signer";
  sign_artifact p authority.

Definition verify_trust_bundle (bundle : MainnetTrustBundle) : result unit :=
  let p := payload bundle in
  _ ← require_version (tb_protocol_version p);
  _ ← require_did (tb_network_did p) "mainnet network_did";
  _ ← require_did (tb_authority_did p) "mainnet authority_did";
  _ ← ensure_ok (negb (is_blank (tb_network_id p)
                       || negb (String.eqb (signed_by bundle) (tb_authority_did p))))
        "mainnet trust bundle identity is invalid";
  verify_artifact bundle.

Definition sign_membership_credential (p : NetworkMembershipCredentialPayload)
    (authority : PayloadSigner) : result NetworkMembershipCredential :=
  sign_artifact p authority.

Definition verify_membership_credential (credential : NetworkMembershipCredential)
    (request : NetworkRegistrationRequest) (trust_bundle : MainnetTrustBundle) (now_ms : Z)
    : result unit :=
  let p := payload credential in
  let trust := payload trust_bundle in
  let manifest := rr_manifest (payload request) in
  _ ← verify_trust_bundle trust_bundle;
  _ ← verify_registration_request request (mc_issued_at_ms p);
  _ ← require_version (mc_protocol_version p);
  _ ← ensure_ok (negb (is_blank (mc_credential_id p)
                       || (mc_expires_at_ms p <=? mc_issued_at_ms p)
                       || (now_ms <? mc_issued_at_ms p) || (mc_expires_at_ms p <? now_ms)))
        "network membership credential is not currently valid";
  _ ← ensure_ok (String.eqb (signed_by credential) (tb_authority_did trust)
                 && String.eqb (mc_issuer_network_did p) (tb_network_did trust)
                 && String.eqb (rr_target_network_did (payload request)) (tb_network_did trust))
        "membership credential issuer does not match pinned mainnet authority";
  _ ← ensure_ok (String.eqb (mc_request_id p) (rr_request_id (payload request))
                 && String.eqb (mc_subject_network_did p) (nm_network_did (payload manifest))
                 && String.eqb (mc_subject_network_id p) (nm_network_id (payload manifest))
                 && String.eqb (mc_subject_authority_did p) (nm_authority_did (payload manifest)))
        "membership credential does not match registration request";
  hash ← manifest_hash manifest;
  _ ← ensure_ok (String.eqb (mc_manifest_hash p) hash)
        "membership credential does not match registration request";
  _ ← ensure_ok (match nm_expires_at_ms (payload manifest) with
                 | Some expires => mc_expires_at_ms p <=? expires
                 | None => true
                 end) "membership credential outlives the signed network manifest";
  verify_artifact credential.

Definition sign_membership_revocation (p : NetworkMembershipRevocationPayload)
    (authority : PayloadSigner) : result NetworkMembershipRevocation :=
  _ ← ensure_ok (negb (is_blank (rv_reason p))) "membership revocation reason is required";
  sign_artifact p authority.

Definition verify_membership_revocation (revocation : NetworkMembershipRevocation)
    (trust_bundle : MainnetTrustBundle) : result unit :=
  let p := payload revocation in
  let trust := payload trust_bundle in
  _ ← verify_trust_bundle trust_bundle;
  _ ← require_version (rv_protocol_version p);
  _ ← ensure_ok (negb (is_blank (rv_revocation_id p) || is_blank (rv_credential_id p)
                       || is_blank (rv_reason p)))
        "membership revocation id, credential id, and reason are required";
  _ ← ensure_ok (String.eqb (rv_issuer_network_did p) (tb_network_did trust)
                 && String.eqb (signed_by revocation) (tb_authority_did trust))
        "membership revocation issuer does not match pinned mainnet authority";
  verify_artifact revocation.

(** ** Operations on the store *)

Notation store := (stm NetworkRegistrationState).

Definition save_request (request : NetworkRegistrationRequest) : store unit :=
  lift (verify_registration_request request (rr_issued_at_ms (payload request)));;
  rs ← gets requests;
  match find_first (λ r, String.eqb (request_id_of r) (request_id_of request)) rs with
  | Some existing =>
      ensure (bool_decide (existing = request))
        "registration request id already stores a different request"
  | None => modify (λ s, s <| requests ::= λ l, l ++ [request] |>)
  end.

Definition store_credential (credential : NetworkMembershipCredential)
    (request : NetworkRegistrationRequest) (trust_bundle : MainnetTrustBundle) : store unit :=
  lift (verify_membership_credential credential request trust_bundle
          (mc_issued_at_ms (payload credential)));;
  cs ← gets credentials;
  match find_first (λ s, String.eqb (credential_id_of s) (mc_credential_id (payload credential))
                        || String.eqb (credential_request_of s)
                             (mc_request_id (payload credential))) cs with
  | Some existing =>
      ensure (bool_decide (sc_credential existing = credential)
              && bool_decide (sc_registration_request existing = request)
              && bool_decide (sc_trust_bundle existing = trust_bundle))
        "credential or request id already stores different registration evidence"
  | None =>
      modify (λ s, s <| credentials ::= λ l,
        l ++ [mkStored credential MEMBERSHIP_STATUS_ACTIVE request trust_bundle None] |>)
  end.

Definition list_credentials (st : NetworkRegistrationState) (subject_network_did : option string)
    : list StoredNetworkMembershipCredential :=
  sort_by (λ left right, mc_issued_at_ms (payload (sc_credential right))
                         <=? mc_issued_at_ms (payload (sc_credential left)))
    (match subject_network_did with
     | Some did =>
         List.filter (λ s, String.eqb (mc_subject_network_did (payload (sc_credential s))) did)
           (credentials st)
     | None => credentials st
     end).

Definition credential (st : NetworkRegistrationState) (id : string)
    : option StoredNetworkMembershipCredential :=
  find_first (λ s, String.eqb (credential_id_of s) id) (credentials st).

(** Changes the first record with the credential id, as [find] on [iter_mut]. *)
Fixpoint update_first (id : string)
    (f : StoredNetworkMembershipCredential → StoredNetworkMembershipCredential)
    (l : list StoredNetworkMembershipCredential) : list StoredNetworkMembershipCredential :=
  match l with
  | [] => []
  | s :: l' => if String.eqb (credential_id_of s) id then f s :: l' else s :: update_first id f l'
  end.

Definition apply_revocation (revocation : NetworkMembershipRevocation) : store unit :=
  let p := payload revocation in
  found ← gets (λ st, credential st (rv_credential_id p));
  record ← lift (ok_or "network membership credential not found for revocation" found);
  lift (verify_membership_revocation revocation (sc_trust_bundle record));;
  ensure (String.eqb (rv_issuer_network_did p)
            (mc_issuer_network_did (payload (sc_credential record))))
    "revocation issuer does not match credential issuer";;
  ensure (mc_issued_at_ms (payload (sc_credential record)) <=? rv_revoked_at_ms p)
    "revocation predates credential issuance";;
  match sc_revocation record with
  | Some existing =>
      ensure (bool_decide (existing = revocation)) "network membership credential is already revoked"
  | None =>
      modify (λ st, st <| credentials ::= update_first (rv_credential_id p) (λ s,
        mkStored (sc_credential s) MEMBERSHIP_STATUS_REVOKED (sc_registration_request s)
          (sc_trust_bundle s) (Some revocation)) |>)
  end.

(** ** The commands

    [authority] is what [load_network_authority] gives, [uuid] the random id of
    a new artifact, and the artifacts are those read from the named files. *)

Definition parse_endpoint (value : string) : result FederationEndpoint :=
  '(transport, endpoint) ← ok_or "federation endpoint must use TRANSPORT=ENDPOINT"
                             (split_once "="%char (to_bytes value));
  _ ← ensure_ok (negb (is_blank (of_bytes transport) || is_blank (of_bytes endpoint)))
        "federation endpoint transport and endpoint are required";
  Ok (mkEndpoint (trim (of_bytes transport)) (trim (of_bytes endpoint))).

Fixpoint parse_endpoints (values : list string) : result (list FederationEndpoint) :=
  match values with
  | [] => Ok []
  | v :: values' => e ← parse_endpoint v; es ← parse_endpoints values'; Ok (e :: es)
  end.

Definition MS_PER_DAY : Z := 86400000.

Definition expiry_after_days (now_ms days : Z) : result Z :=
  _ ← ensure_ok (negb (days =? 0)) "valid-for-days must be greater than zero";
  ms ← ok_or "valid-for-days is too large" (uint_checked u64_max (days * MS_PER_DAY));
  ok_or "registration expiry overflow" (uint_checked u64_max (now_ms + ms)).

Definition create_request (authority : result PayloadSigner) (now_ms : Z)
    (network_did network_id name mainnet_did : string) (federation_endpoints : list string)
    (valid_for_days : Z) (uuid : string) : store NetworkRegistrationRequest :=
  authority ← lift authority;
  endpoints ← lift (parse_endpoints federation_endpoints);
  manifest ← lift (sign_network_manifest
    (mkManifest NETWORK_REGISTRATION_PROTOCOL_VERSION network_did network_id name
       (ps_agent_did authority) endpoints now_ms None) authority);
  expires ← lift (expiry_after_days now_ms valid_for_days);
  request ← lift (sign_registration_request
    (mkRequest NETWORK_REGISTRATION_PROTOCOL_VERSION uuid mainnet_did manifest now_ms expires)
    authority);
  lift (verify_registration_request request now_ms);;
  save_request request;;
  mret request.

Definition build_trust_bundle (mainnet_did network_id : string) (issued_at_ms : Z)
    (authority : PayloadSigner) : result MainnetTrustBundle :=
  sign_trust_bundle
    (mkBundle NETWORK_REGISTRATION_PROTOCOL_VERSION mainnet_did network_id
       (ps_agent_did authority) issued_at_ms) authority.

Definition export_trust_bundle (authority : result PayloadSigner) (now_ms : Z)
    (mainnet_did network_id : string) : result MainnetTrustBundle :=
  authority ← authority;
  bundle ← build_trust_bundle mainnet_did network_id now_ms authority;
  _ ← verify_trust_bundle bundle;
  Ok bundle.

(** Answers the credential and whether it was issued now. *)
Definition issue_credential (authority : result PayloadSigner) (now_ms : Z)
    (request : NetworkRegistrationRequest) (mainnet_did network_id : string)
    (valid_for_days : Z) (uuid : string) : store (NetworkMembershipCredential * bool) :=
  lift (verify_registration_request request now_ms);;
  ensure (String.eqb (rr_target_network_did (payload request)) mainnet_did)
    "registration request targets a different mainnet DID";;
  authority ← lift authority;
  trust ← lift (build_trust_bundle mainnet_did network_id now_ms authority);
  listed ← gets (λ st, list_credentials st None);
  match find_first (λ s, String.eqb (credential_request_of s) (request_id_of request)) listed with
  | Some existing =>
      lift (verify_membership_credential (sc_credential existing) request trust now_ms);;
      mret (sc_credential existing, false)
  | None =>
      let manifest := rr_manifest (payload request) in
      hash ← lift (manifest_hash manifest);
      expires ← lift (expiry_after_days now_ms valid_for_days);
      credential ← lift (sign_membership_credential
        (mkMembership NETWORK_REGISTRATION_PROTOCOL_VERSION uuid (request_id_of request) mainnet_did
           (nm_network_did (payload manifest)) (nm_network_id (payload manifest))
           (nm_authority_did (payload manifest)) hash now_ms expires) authority);
      lift (verify_membership_credential credential request trust now_ms);;
      store_credential credential request trust;;
      mret (credential, true)
  end.

Definition import_credential (now_ms : Z) (credential : NetworkMembershipCredential)
    (request : NetworkRegistrationRequest) (trust : MainnetTrustBundle) : store unit :=
  lift (verify_membership_credential credential request trust now_ms);;
  store_credential credential request trust.

Definition revoke_credential (authority : result PayloadSigner) (now_ms : Z)
    (credential_id reason mainnet_did uuid : string) : store NetworkMembershipRevocation :=
  found ← gets (λ st, credential st credential_id);
  record ← lift (ok_or "network membership credential not found" found);
  ensure (String.eqb (mc_issuer_network_did (payload (sc_credential record))) mainnet_did)
    "credential issuer does not match mainnet DID";;
  authority ← lift authority;
  ensure (String.eqb (ps_agent_did authority) (tb_authority_did (payload (sc_trust_bundle record))))
    "local network authority does not match credential issuer authority";;
  revocation ← lift (sign_membership_revocation
    (mkRevocation NETWORK_REGISTRATION_PROTOCOL_VERSION uuid credential_id mainnet_did now_ms reason)
    authority);
  lift (verify_membership_revocation revocation (sc_trust_bundle record));;
  apply_revocation revocation;;
  mret revocation.

Definition import_revocation (revocation : NetworkMembershipRevocation)
    (trust : MainnetTrustBundle) : store unit :=
  lift (verify_membership_revocation revocation trust);;
  found ← gets (λ st, credential st (rv_credential_id (payload revocation)));
  record ← lift (ok_or "network membership credential not found" found);
  ensure (bool_decide (sc_trust_bundle record = trust))
    "revocation trust bundle does not match imported credential evidence";;
  apply_revocation revocation.

(** ** What verification depends on *)

Lemma bind_unit {A} (r : result unit) (k : unit → result A) (a : A) :
  (r ≫= k) = Ok a ↔ r = Ok tt ∧ k tt = Ok a.
Proof using Type. rewrite result_bind_ok. split; [intros ([] & ? & ?)|intros [? ?]]; eauto. Qed.

Lemma ensure_ok_iff b e : ensure_ok b e = Ok tt ↔ b = true.
Proof using Type. by destruct b. Qed.

(** A signed artifact verifies. *)
Lemma sign_artifact_verifies `{ToJson T} (p : T) identity a :
  SignerSound identity → sign_artifact p identity = Ok a →
  payload a = p ∧ signed_by a = ps_agent_did identity ∧ verify_artifact a = Ok tt.
Proof using Type.
  intros Hs. rewrite /sign_artifact result_bind_ok. intros (sig & Hsig & [= <-]). cbn.
  split_and!; [done..|]. rewrite /verify_artifact /=.
  by rewrite (sign_then_verify identity _ _ Hs Hsig).
Qed.

(** What a verified membership credential says. *)
Record credential_valid (c : NetworkMembershipCredential) (r : NetworkRegistrationRequest)
    (b : MainnetTrustBundle) (now : Z) : Prop := mkValid {
  cv_trust : verify_trust_bundle b = Ok tt;
  cv_request : verify_registration_request r (mc_issued_at_ms (payload c)) = Ok tt;
  cv_version : mc_protocol_version (payload c) = NETWORK_REGISTRATION_PROTOCOL_VERSION;
  cv_id : is_blank (mc_credential_id (payload c)) = false;
  cv_window : mc_issued_at_ms (payload c) < mc_expires_at_ms (payload c);
  cv_now : mc_issued_at_ms (payload c) ≤ now ≤ mc_expires_at_ms (payload c);
  cv_signer : signed_by c = tb_authority_did (payload b);
  cv_issuer : mc_issuer_network_did (payload c) = tb_network_did (payload b);
  cv_target : rr_target_network_did (payload r) = tb_network_did (payload b);
  cv_request_id : mc_request_id (payload c) = request_id_of r;
  cv_subject : mc_subject_network_did (payload c) = nm_network_did (payload (rr_manifest (payload r)));
  cv_subject_id : mc_subject_network_id (payload c) = nm_network_id (payload (rr_manifest (payload r)));
  cv_subject_authority :
    mc_subject_authority_did (payload c) = nm_authority_did (payload (rr_manifest (payload r)));
  cv_hash : manifest_hash (rr_manifest (payload r)) = Ok (mc_manifest_hash (payload c));
  cv_outlives : ∀ t, nm_expires_at_ms (payload (rr_manifest (payload r))) = Some t →
    mc_expires_at_ms (payload c) ≤ t;
  cv_signed : verify_artifact c = Ok tt;
}.

Lemma verify_credential_inv c r b now :
  verify_membership_credential c r b now = Ok tt → credential_valid c r b now.
Proof using Type.
  rewrite /verify_membership_credential. intros Hv.
  apply bind_unit in Hv as [H1 Hv]. apply bind_unit in Hv as [H2 Hv].
  apply bind_unit in Hv as [H3%ensure_ok_iff Hv]. apply bind_unit in Hv as [H4%ensure_ok_iff Hv].
  apply bind_unit in Hv as [H5%ensure_ok_iff Hv]. apply bind_unit in Hv as [H6%ensure_ok_iff Hv].
  apply result_bind_ok in Hv as (hash & H7 & Hv). apply bind_unit in Hv as [H8%ensure_ok_iff Hv].
  apply bind_unit in Hv as [H9%ensure_ok_iff H10].
  apply negb_true_iff in H4. rewrite !orb_false_iff !Z.ltb_ge Z.leb_gt in H4.
  rewrite !andb_true_iff !String.eqb_eq in H3, H5, H6, H8. destruct_and!. subst hash.
  split; try done. intros t Ht. rewrite Ht Z.leb_le in H9. done.
Qed.

Lemma verify_credential_intro c r b now :
  credential_valid c r b now → verify_membership_credential c r b now = Ok tt.
Proof using Type.
  intros [H1 H2 H3 H4 H5 [H6 H7] H8 H9 H10 H11 H12 H13 H14 H15 H16 H17].
  rewrite /verify_membership_credential H1 /= H2 /= /require_version H3 /= H4.
  rewrite (proj2 (Z.leb_gt _ _) H5) (proj2 (Z.ltb_ge _ _) H6) (proj2 (Z.ltb_ge _ _) H7) /=.
  rewrite H8 H9 H10 !String.eqb_refl /= H11 H12 H13 H14 !String.eqb_refl /= H15 /=.
  rewrite String.eqb_refl /=. destruct (nm_expires_at_ms _) as [t|]; cbn; [|done].
  by rewrite (proj2 (Z.leb_le _ _) (H16 t eq_refl)).
Qed.

(** A credential keeps verifying, in its window, under every bundle that names
    the same authority for the same network. *)
Lemma verify_credential_any c r b b' now now' :
  verify_membership_credential c r b now = Ok tt → verify_trust_bundle b' = Ok tt →
  tb_authority_did (payload b') = tb_authority_did (payload b) →
  tb_network_did (payload b') = tb_network_did (payload b) →
  mc_issued_at_ms (payload c) ≤ now' ≤ mc_expires_at_ms (payload c) →
  verify_membership_credential c r b' now' = Ok tt.
Proof using Type.
  intros [] %verify_credential_inv ? Ha Hn ?. apply verify_credential_intro.
  by split; rewrite ?Ha ?Hn.
Qed.

Lemma exported_bundle auth t mainnet nid b :
  export_trust_bundle (Ok auth) t mainnet nid = Ok b →
  verify_trust_bundle b = Ok tt ∧ tb_authority_did (payload b) = ps_agent_did auth
  ∧ tb_network_did (payload b) = mainnet.
Proof using Type.
  rewrite /export_trust_bundle /=. rewrite result_bind_ok. intros (b1 & Hb & Hv).
  apply bind_unit in Hv as [Hv [= <-]]. split; [done|].
  rewrite /build_trust_bundle /sign_trust_bundle bind_unit in Hb. destruct Hb as [_ Hb].
  apply result_bind_ok in Hb as (sig & _ & [= <-]). done.
Qed.

(** ** The store keeps its evidence *)

Definition revoked_by (s : StoredNetworkMembershipCredential) (rv : NetworkMembershipRevocation)
    : Prop :=
  verify_membership_revocation rv (sc_trust_bundle s) = Ok tt
  ∧ rv_credential_id (payload rv) = credential_id_of s
  ∧ mc_issued_at_ms (payload (sc_credential s)) ≤ rv_revoked_at_ms (payload rv).

Record stored_ok (s : StoredNetworkMembershipCredential) : Prop := {
  so_verified : verify_membership_credential (sc_credential s) (sc_registration_request s)
    (sc_trust_bundle s) (mc_issued_at_ms (payload (sc_credential s))) = Ok tt;
  so_status : match sc_revocation s with
              | None => sc_status s = MEMBERSHIP_STATUS_ACTIVE
              | Some rv => sc_status s = MEMBERSHIP_STATUS_REVOKED ∧ revoked_by s rv
              end;
}.

Record store_ok (st : NetworkRegistrationState) : Prop := {
  st_requests : Forall (λ r, verify_registration_request r (rr_issued_at_ms (payload r)) = Ok tt)
    (requests st);
  st_request_ids : NoDup (request_id_of <$> requests st);
  st_credentials : Forall stored_ok (credentials st);
  st_credential_ids : NoDup (credential_id_of <$> credentials st);
  st_credential_requests : NoDup (credential_request_of <$> credentials st);
}.

(** The same credential with the same evidence; a revocation is never undone. *)
Definition follows (s s' : StoredNetworkMembershipCredential) : Prop :=
  sc_credential s' = sc_credential s ∧ sc_registration_request s' = sc_registration_request s
  ∧ sc_trust_bundle s' = sc_trust_bundle s
  ∧ ∀ rv, sc_revocation s = Some rv → sc_revocation s' = Some rv.

Record extends (st st' : NetworkRegistrationState) : Prop := {
  ex_requests : ∀ r, r ∈ requests st → r ∈ requests st';
  ex_credentials : ∀ s, s ∈ credentials st → ∃ s', s' ∈ credentials st' ∧ follows s s';
}.

Lemma follows_refl s : follows s s.
Proof using Type. by split_and!. Qed.

#[local] Instance extends_preorder : PreOrder extends.
Proof using Type.
  split.
  - intros st. split; [done|]. intros s Hs. exists s. by split; [|apply follows_refl].
  - intros x y z [Hr Hc] [Hr' Hc']. split; [naive_solver|]. intros s Hs.
    destruct (Hc s Hs) as (s' & Hs' & ? & ? & ? & Hrv).
    destruct (Hc' s' Hs') as (s'' & ? & ? & ? & ? & Hrv').
    exists s''. split; [done|]. split_and!; [congruence..|]. eauto.
Qed.

(** An operation keeps the store when its every run, successful or not, does. *)
Definition keeps {A} (m : store A) : Prop :=
  ∀ st, store_ok st → store_ok (m st).2 ∧ extends st (m st).2.

Lemma evidence_keeps_bind {A B} (m : store A) (k : A → store B) :
  keeps m → (∀ a, keeps (k a)) → keeps (m ≫= k).
Proof using Type.
  intros Hm Hk st Hst. rewrite /mbind /stm_bind. specialize (Hm st Hst).
  destruct (m st) as [[a|e] st1]; [|done]. destruct Hm as [H1 H2], (Hk a st1 H1) as [H3 H4].
  split; [done|]. by etrans.
Qed.

Lemma evidence_keeps_same {A} (m : store A) : (∀ st, (m st).2 = st) → keeps m.
Proof using Type. intros Hm st Hst. by rewrite Hm. Qed.

Lemma find_none_not_in {A} (key : A → string) k l :
  find_first (λ x, String.eqb (key x) k) l = None → k ∉ key <$> l.
Proof using Type.
  intros Hf (x & -> & Hx)%list_elem_of_fmap.
  pose proof (proj1 (find_first_None _ _) Hf x Hx) as Hk.
  cbn in Hk. by rewrite String.eqb_refl in Hk.
Qed.

Lemma save_request_keeps r : keeps (save_request r).
Proof using Type.
  intros st Hst. rewrite /save_request.
  cbv [mbind stm_bind gets lift modify mret stm_ret ensure bail].
  destruct (verify_registration_request r _) as [[]|] eqn:Hv; [|done].
  destruct (find_first _ (requests st)) as [e|] eqn:Hf; [by case_match|]. cbn.
  apply (find_none_not_in request_id_of) in Hf. destruct Hst as [H1 H2 H3 H4 H5]. split.
  - split; cbn; [|by apply NoDup_fmap_snoc|done..]. apply Forall_app. by split; [|repeat constructor].
  - split; cbn; [by intros; apply elem_of_app; left|].
    intros s Hs. exists s. by split; [|apply follows_refl].
Qed.

Lemma find_either_none k1 k2 l :
  find_first (λ s, String.eqb (credential_id_of s) k1 || String.eqb (credential_request_of s) k2) l
    = None →
  k1 ∉ credential_id_of <$> l ∧ k2 ∉ credential_request_of <$> l.
Proof using Type.
  intros Hf. split; intros (x & -> & Hx)%list_elem_of_fmap;
    pose proof (proj1 (find_first_None _ _) Hf x Hx) as Hk; cbn in Hk;
    by rewrite String.eqb_refl ?orb_true_r in Hk.
Qed.

Lemma store_credential_keeps c r b : keeps (store_credential c r b).
Proof using Type.
  intros st Hst. rewrite /store_credential.
  cbv [mbind stm_bind gets lift modify mret stm_ret ensure bail].
  destruct (verify_membership_credential c r b _) as [[]|] eqn:Hv; [|done].
  destruct (find_first _ (credentials st)) as [e|] eqn:Hf; [by case_match|]. cbn.
  apply find_either_none in Hf as [Hi Hr]. destruct Hst as [H1 H2 H3 H4 H5]. split.
  - split; cbn; [done|done| |by apply NoDup_fmap_snoc|by apply NoDup_fmap_snoc].
    apply Forall_app. split; [done|]. constructor; [|done]. by split.
  - split; cbn; [done|]. intros s Hs. exists s.
    split; [apply elem_of_app; by left|apply follows_refl].
Qed.

Lemma update_first_in id f l s :
  s ∈ l → s ∈ update_first id f l ∨ (credential_id_of s = id ∧ f s ∈ update_first id f l).
Proof using Type.
  induction l as [|x l IH]; cbn; [by intros ?%elem_of_nil|].
  intros [->|Hs]%elem_of_cons.
  - destruct (String.eqb_spec (credential_id_of x) id); [right; split; [done|]|left]; by left.
  - destruct (String.eqb _ id); [left; by right|].
    destruct (IH Hs) as [?|[? ?]]; [left|right; split; [done|]]; by right.
Qed.

Lemma update_first_fmap {B} (g : StoredNetworkMembershipCredential → B) id f l :
  (∀ s, g (f s) = g s) → g <$> update_first id f l = g <$> l.
Proof using Type.
  intros Hg. induction l as [|x l IH]; cbn; [done|].
  case_match; cbn; [by rewrite Hg|by f_equal].
Qed.

Lemma update_first_Forall (P : StoredNetworkMembershipCredential → Prop) id f l s :
  find_first (λ s, String.eqb (credential_id_of s) id) l = Some s →
  Forall P l → P (f s) → Forall P (update_first id f l).
Proof using Type.
  intros Hf Hl Hs. induction Hl as [|x l Hx Hl IH]; cbn in *; [done|].
  destruct (String.eqb (credential_id_of x) id); [injection Hf as ->; by constructor|].
  constructor; auto.
Qed.

Lemma apply_revocation_keeps rv : keeps (apply_revocation rv).
Proof using Type.
  intros st Hst. rewrite /apply_revocation.
  cbv [mbind stm_bind gets lift modify mret stm_ret ensure bail ok_or].
  destruct (credential st _) as [s|] eqn:Hf; [|done].
  destruct (verify_membership_revocation rv _) as [[]|] eqn:Hv; [|done].
  destruct (String.eqb_spec (rv_issuer_network_did (payload rv))
              (mc_issuer_network_did (payload (sc_credential s)))); [|done].
  destruct (Z.leb_spec (mc_issued_at_ms (payload (sc_credential s)))
              (rv_revoked_at_ms (payload rv))); [|done].
  destruct (sc_revocation s) as [old|] eqn:He; [by case_match|]. cbn.
  destruct Hst as [H1 H2 H3 H4 H5].
  apply find_first_Some in Hf as Hs. destruct Hs as [Hid%String.eqb_eq Hin].
  split.
  - split; cbn; [done|done| |by rewrite update_first_fmap|by rewrite update_first_fmap].
    apply (update_first_Forall _ _ _ _ s); [done|done|].
    rewrite Forall_forall in H3. destruct (H3 s Hin) as [Hver _]. split; cbn; [done|].
    by split.
  - split; cbn; [done|]. intros s' Hs'.
    destruct (update_first_in (rv_credential_id (payload rv))
      (λ s, mkStored (sc_credential s) MEMBERSHIP_STATUS_REVOKED (sc_registration_request s)
              (sc_trust_bundle s) (Some rv)) _ _ Hs') as [Hk|[Hi Hk]].
    + exists s'. by split; [|apply follows_refl].
    + eexists. split; [exact Hk|]. split_and!; try done. cbn. intros rv' Hrv'.
      assert (s' = s) as ->; [|congruence].
      apply (key_unique credential_id_of (credentials st)); [done..|congruence].
Qed.

(** The commands of either side, in any order. *)
Inductive command :=
  | CreateRequest (authority : result PayloadSigner) (now : Z) (did id name mainnet : string)
      (endpoints : list string) (days : Z) (uuid : string)
  | IssueCredential (authority : result PayloadSigner) (now : Z)
      (request : NetworkRegistrationRequest) (mainnet id : string) (days : Z) (uuid : string)
  | ImportCredential (now : Z) (c : NetworkMembershipCredential) (r : NetworkRegistrationRequest)
      (b : MainnetTrustBundle)
  | RevokeCredential (authority : result PayloadSigner) (now : Z) (id reason mainnet uuid : string)
  | ImportRevocation (rv : NetworkMembershipRevocation) (b : MainnetTrustBundle).

Definition ignore {A} (m : store A) : store unit := m ≫= λ _, mret tt.

Definition run_command (c : command) : store unit :=
  match c with
  | CreateRequest a now did id name mainnet es days uuid =>
      ignore (create_request a now did id name mainnet es days uuid)
  | IssueCredential a now r mainnet id days uuid =>
      ignore (issue_credential a now r mainnet id days uuid)
  | ImportCredential now c r b => import_credential now c r b
  | RevokeCredential a now id reason mainnet uuid =>
      ignore (revoke_credential a now id reason mainnet uuid)
  | ImportRevocation rv b => import_revocation rv b
  end.

(** A run of commands; those that fail may have changed the store as well. *)
Definition run_commands (st : NetworkRegistrationState) (cs : list command)
    : NetworkRegistrationState :=
  foldl (λ st c, (run_command c st).2) st cs.

#[local] Ltac keep :=
  repeat first
    [ apply save_request_keeps | apply store_credential_keeps | apply apply_revocation_keeps
    | apply evidence_keeps_bind; [|intros ?] | case_match
    | apply evidence_keeps_same; intros; by rewrite /ensure /lift; repeat case_match ].

Lemma run_command_keeps c : keeps (run_command c).
Proof using Type.
  destruct c; cbn [run_command ignore];
    rewrite ?/create_request ?/issue_credential ?/import_credential ?/revoke_credential
      ?/import_revocation /ignore; keep.
Qed.

Lemma run_commands_keep cs st :
  store_ok st → store_ok (run_commands st cs) ∧ extends st (run_commands st cs).
Proof using Type.
  revert st. induction cs as [|c cs IH]; intros st Hst; cbn; [done|].
  destruct (run_command_keeps c st Hst) as [H1 H2], (IH _ H1) as [H3 H4].
  split; [done|]. by etrans.
Qed.

Lemma default_ok : store_ok NetworkRegistrationState_default.
Proof using Type. split; cbn; constructor. Qed.

Lemma credential_lookup st s :
  store_ok st → s ∈ credentials st → credential st (credential_id_of s) = Some s.
Proof using Type.
  intros [] Hs. by apply find_first_eqb.
Qed.


(** ** From the request to the member *)

(** No record of the store names the credential or the request. *)
Definition unused (st : NetworkRegistrationState) (id request : string) : Prop :=
  ∀ s, s ∈ credentials st → credential_id_of s ≠ id ∧ credential_request_of s ≠ request.

Definition add_record (s : StoredNetworkMembershipCredential) (st : NetworkRegistrationState)
    : NetworkRegistrationState := st <| credentials ::= λ l, l ++ [s] |>.

Lemma store_credential_new c r b st :
  verify_membership_credential c r b (mc_issued_at_ms (payload c)) = Ok tt →
  unused st (mc_credential_id (payload c)) (mc_request_id (payload c)) →
  store_credential c r b st
  = (Ok tt, add_record (mkStored c MEMBERSHIP_STATUS_ACTIVE r b None) st).
Proof using Type.
  intros Hv Hu. rewrite /store_credential.
  cbv [mbind stm_bind gets lift modify mret stm_ret ensure bail]. rewrite Hv.
  rewrite (proj2 (find_first_None _ _)) //. intros s [Hi Hr]%Hu.
  by rewrite (proj2 (String.eqb_neq _ _) Hi) (proj2 (String.eqb_neq _ _) Hr).
Qed.

Lemma expiry_after_days_later now days t : expiry_after_days now days = Ok t → now < t.
Proof using Type.
  rewrite /expiry_after_days. intros Ht.
  apply bind_unit in Ht as [Hd%ensure_ok_iff Ht]. apply negb_true_iff, Z.eqb_neq in Hd.
  apply result_bind_ok in Ht as (ms & Hm%ok_or_ok & Hn%ok_or_ok).
  rewrite /uint_checked in Hm, Hn.
  destruct (_ && _) eqn:Hb in Hm; [|done]. destruct (_ && _) in Hn; [|done].
  injection Hm as <-. injection Hn as <-.
  apply andb_true_iff in Hb as [Hb%Z.leb_le _]. rewrite /MS_PER_DAY in Hb |- *. lia.
Qed.

(** The credential [issue_credential] signs. *)
Definition issued_payload (request : NetworkRegistrationRequest) (mainnet uuid hash : string)
    (now expires : Z) : NetworkMembershipCredentialPayload :=
  let manifest := rr_manifest (payload request) in
  mkMembership NETWORK_REGISTRATION_PROTOCOL_VERSION uuid (request_id_of request) mainnet
    (nm_network_did (payload manifest)) (nm_network_id (payload manifest))
    (nm_authority_did (payload manifest)) hash now expires.

Lemma issued_valid auth now req mainnet nid days uuid trust hash expires c :
  SignerSound auth → verify_registration_request req now = Ok tt →
  rr_target_network_did (payload req) = mainnet →
  export_trust_bundle (Ok auth) now mainnet nid = Ok trust →
  manifest_hash (rr_manifest (payload req)) = Ok hash → expiry_after_days now days = Ok expires →
  (∀ t, nm_expires_at_ms (payload (rr_manifest (payload req))) = Some t → expires ≤ t) →
  is_blank uuid = false →
  sign_membership_credential (issued_payload req mainnet uuid hash now expires) auth = Ok c →
  payload c = issued_payload req mainnet uuid hash now expires
  ∧ verify_membership_credential c req trust now = Ok tt.
Proof using Type.
  intros Hsound Hreq Ht Htrust Hh Hexp Hman Hblank Hsign.
  apply exported_bundle in Htrust as (Hb & Ha & Hn).
  destruct (sign_artifact_verifies _ _ _ Hsound Hsign) as (Hp & Hby & Hver).
  pose proof (expiry_after_days_later _ _ _ Hexp). split; [done|].
  apply verify_credential_intro. split; rewrite ?Hp ?Hby; cbn; try done; try lia; congruence.
Qed.

(** An admitted network becomes a member. When a request verifies, its
    authority's key signs, and neither the request nor the new id was used,
    issuing gives a credential and stores it as active; and any node that does
    not hold other evidence under these ids can import that credential with a
    trust bundle the same authority exports, at any moment before it expires. *)
Theorem membership_flow auth now req mainnet nid days uuid st trust hash expires :
  SignerSound auth → (∀ p, is_ok (sign_membership_credential p auth) = true) →
  verify_registration_request req now = Ok tt → rr_target_network_did (payload req) = mainnet →
  export_trust_bundle (Ok auth) now mainnet nid = Ok trust →
  manifest_hash (rr_manifest (payload req)) = Ok hash → expiry_after_days now days = Ok expires →
  (∀ t, nm_expires_at_ms (payload (rr_manifest (payload req))) = Some t → expires ≤ t) →
  is_blank uuid = false → unused st uuid (request_id_of req) →
  ∃ c, issue_credential (Ok auth) now req mainnet nid days uuid st
         = (Ok (c, true), add_record (mkStored c MEMBERSHIP_STATUS_ACTIVE req trust None) st)
    ∧ mc_credential_id (payload c) = uuid ∧ mc_expires_at_ms (payload c) = expires
    ∧ ∀ t nid' b now' st', export_trust_bundle (Ok auth) t mainnet nid' = Ok b →
        now ≤ now' ≤ expires → unused st' uuid (request_id_of req) →
        import_credential now' c req b st'
        = (Ok tt, add_record (mkStored c MEMBERSHIP_STATUS_ACTIVE req b None) st').
Proof using Type.
  intros Hsound Hsigns Hreq Ht Htrust Hh Hexp Hman Hblank Hu.
  specialize (Hsigns (issued_payload req mainnet uuid hash now expires)).
  destruct (sign_membership_credential _ auth) as [c|] eqn:Hsign; [clear Hsigns|done].
  edestruct issued_valid as [Hp Hv]; [done..|]. exists c. split_and!.
  - apply exported_bundle in Htrust as Hb. destruct Hb as (_ & Ha & Hn).
    rewrite /export_trust_bundle /= in Htrust. apply result_bind_ok in Htrust as (b & Hb & Hvb).
    apply bind_unit in Hvb as [_ [= ->]].
    rewrite /issue_credential. cbv [mbind stm_bind gets lift ensure]. rewrite Hreq Ht String.eqb_refl Hb.
    rewrite (proj2 (find_first_None _ _)).
    { rewrite Hh Hexp. rewrite /issued_payload in Hsign. rewrite Hsign Hv.
      rewrite store_credential_new ?Hp //. }
    intros s Hs. rewrite /list_credentials sort_by_perm in Hs. apply String.eqb_neq, (Hu s Hs).
  - by rewrite Hp.
  - by rewrite Hp.
  - intros t nid' b now' st' Hb Hnow Hu'.
    apply exported_bundle in Htrust as (_ & Ha & Hn). apply exported_bundle in Hb as (Hb & Ha' & Hn').
    assert (∀ now', now ≤ now' ≤ expires → verify_membership_credential c req b now' = Ok tt) as Hvb.
    { intros n ?. apply (verify_credential_any c req trust b now n); try done; [congruence..|].
      by rewrite Hp. }
    rewrite /import_credential. cbv [mbind stm_bind lift]. rewrite Hvb //.
    pose proof (expiry_after_days_later _ _ _ Hexp).
    apply store_credential_new; rewrite Hp //=. apply Hvb. lia.
Qed.

(** A credential fixes the network it admits. Two requests under which the
    same credential verifies have the same id and the same target, and their
    manifests have the same canonical bytes, unless two texts with the same
    SHA-256 digest are at hand. *)
Theorem credential_fixes_manifest c r1 r2 b1 b2 t1 t2 :
  verify_membership_credential c r1 b1 t1 = Ok tt →
  verify_membership_credential c r2 b2 t2 = Ok tt →
  request_id_of r1 = request_id_of r2
  ∧ rr_target_network_did (payload r1) = rr_target_network_did (payload r2)
  ∧ ∃ x y, canonical_bytes (to_json (rr_manifest (payload r1))) = Ok x
      ∧ canonical_bytes (to_json (rr_manifest (payload r2))) = Ok y
      ∧ (x = y ∨ x ≠ y ∧ sha256_hex x = sha256_hex y).
Proof using Type.
  intros V1%verify_credential_inv V2%verify_credential_inv.
  split; [by rewrite -(cv_request_id _ _ _ _ V1) -(cv_request_id _ _ _ _ V2)|].
  split; [by rewrite (cv_target _ _ _ _ V1) (cv_target _ _ _ _ V2) -(cv_issuer _ _ _ _ V1)
            -(cv_issuer _ _ _ _ V2)|].
  pose proof (cv_hash _ _ _ _ V1) as H1. pose proof (cv_hash _ _ _ _ V2) as H2.
  rewrite /manifest_hash in H1, H2.
  apply result_bind_ok in H1 as (x & Hx & [= H1]). apply result_bind_ok in H2 as (y & Hy & [= H2]).
  exists x, y. split_and!; [done..|]. destruct (decide (x = y)) as [|Hne]; [by left|right].
  split; [done|]. rewrite -H2 in H1. by injection H1.
Qed.
End registration.

(** ** A network joins a mainnet *)

Module RegistrationScenario.
Import Demo.

Definition auto : PayloadSigner := signer "auto".
Definition main : PayloadSigner := signer "main".
Definition blank_request : NetworkRegistrationRequest :=
  mkArtifact (mkRequest "" "" "" (mkArtifact (mkManifest "" "" "" "" "" [] 0 None) "" "") 0 0) "" "".
Definition ask : stm NetworkRegistrationState NetworkRegistrationRequest :=
  create_request (Ok auto) 1000 "did:watt:campus" "campus" "Campus" "did:watt:main"
    ["iroh = node-a"] 30 "request-1".
Definition request1 : NetworkRegistrationRequest :=
  match (ask NetworkRegistrationState_default).1 with Ok r => r | Err _ => blank_request end.
Definition issue1 : command :=
  IssueCredential (Ok main) 2000 request1 "did:watt:main" "main" 365 "credential-1".
Definition revoke1 : command :=
  RevokeCredential (Ok main) 3000 "credential-1" "left" "did:watt:main" "revocation-1".
Definition issued : NetworkRegistrationState :=
  run_commands NetworkRegistrationState_default [issue1].


(** A revoked credential is handed out again: a second request to issue for the
    same registration answers it as already issued, and it verifies. *)
Example revoked_credential_reissued :
  let st := run_commands issued [revoke1] in
  (sc_status <$> credential st "credential-1") = Some MEMBERSHIP_STATUS_REVOKED
  ∧ match (issue_credential (Ok main) 4000 request1 "did:watt:main" "main" 365 "credential-2" st).1 with
    | Ok (c, fresh) => fresh = false ∧ mc_credential_id (payload c) = "credential-1"
    | Err _ => False
    end.
Proof. vm_compute. repeat split. Qed.

Definition blank_bundle : MainnetTrustBundle := mkArtifact (mkBundle "" "" "" "" 0) "" "".
Definition bundle_at (t : Z) : MainnetTrustBundle :=
  match export_trust_bundle (Ok main) t "did:watt:main" "main" with Ok b => b | Err _ => blank_bundle end.
Definition request_hash : string :=
  match manifest_hash (rr_manifest (payload request1)) with Ok h => h | Err _ => "" end.
Definition one_day_on : Z := 2000 + MS_PER_DAY.

Lemma membership_flow_witness :
  ∃ c, issue_credential (Ok main) 2000 request1 "did:watt:main" "main" 1 "credential-1"
         NetworkRegistrationState_default
       = (Ok (c, true), add_record (mkStored c MEMBERSHIP_STATUS_ACTIVE request1 (bundle_at 2000) None)
            NetworkRegistrationState_default)
    ∧ import_credential 5000 c request1 (bundle_at 7) NetworkRegistrationState_default
      = (Ok tt, add_record (mkStored c MEMBERSHIP_STATUS_ACTIVE request1 (bundle_at 7) None)
           NetworkRegistrationState_default).
Proof.
  assert (unused NetworkRegistrationState_default "credential-1" (request_id_of request1)) as Hu.
  { by intros s ?%elem_of_nil. }
  assert (verify_registration_request request1 2000 = Ok tt) as H1 by (vm_compute; reflexivity).
  assert (rr_target_network_did (payload request1) = "did:watt:main") as H2
    by (vm_compute; reflexivity).
  assert (export_trust_bundle (Ok main) 2000 "did:watt:main" "main" = Ok (bundle_at 2000)) as H3
    by (vm_compute; reflexivity).
  assert (manifest_hash (rr_manifest (payload request1)) = Ok request_hash) as H4
    by (vm_compute; reflexivity).
  assert (expiry_after_days 2000 1 = Ok one_day_on) as H5 by (vm_compute; reflexivity).
  assert (nm_expires_at_ms (payload (rr_manifest (payload request1))) = None) as H6
    by (vm_compute; reflexivity).
  assert (is_blank "credential-1" = false) as H7 by (vm_compute; reflexivity).
  assert (export_trust_bundle (Ok main) 7 "did:watt:main" "main" = Ok (bundle_at 7)) as H8
    by (vm_compute; reflexivity).
  destruct (membership_flow main 2000 request1 "did:watt:main" "main" 1 "credential-1"
    NetworkRegistrationState_default (bundle_at 2000) request_hash one_day_on
    (signer_is_sound "main") (λ p, eq_refl) H1 H2 H3 H4 H5) as (c & Hc & _ & _ & Himp);
    [by rewrite H6|exact H7|exact Hu|].
  exists c. split; [exact Hc|]. apply (Himp 7 "main"); [exact H8| |exact Hu].
  rewrite /one_day_on /MS_PER_DAY. lia.
Defined.

Definition membership1 : NetworkMembershipCredential :=
  match credentials issued with s :: _ => sc_credential s | [] => mkArtifact (mkMembership "" "" "" "" "" "" "" "" 0 0) "" "" end.

Lemma credential_fixes_manifest_witness :
  verify_membership_credential membership1 request1 (bundle_at 2000) 2000 = Ok tt
  ∧ rr_target_network_did (payload request1) = rr_target_network_did (payload request1).
Proof.
  assert (verify_membership_credential membership1 request1 (bundle_at 2000) 2000 = Ok tt) as H1
    by (vm_compute; reflexivity).
  assert (verify_membership_credential membership1 request1 (bundle_at 7) 5000 = Ok tt) as H2
    by (vm_compute; reflexivity).
  split; [exact H1|].
  exact (proj1 (proj2 (credential_fixes_manifest membership1 request1 request1 (bundle_at 2000)
                         (bundle_at 7) 2000 5000 H1 H2))).
Defined.
End RegistrationScenario.
