(* ===== verification/Membership.v ===== *)
(** * Membership of agents

    [network/agent_registration.rs] and
    [storage/local_db/network_registration_storage.rs]: the credential by which
    a registry admits an agent to a network, the chain of signatures behind it,
    the rows of the local database that hold it, and the checkpoints of the
    permission it gives; [routes/network.rs] of the control plane: applying the
    answer of a registry and handing the permission to the swarm, again and
    again until it is taken.

    The detached signature check, the did:key decoder and serde's derived codecs
    are parameters. SQLite statements fail on an integer beyond [i64] and on a
    violated uniqueness constraint. *)

From S2P Require Import Prelude Collections Text Json Sql Signing.
#[local] Open Scope Z_scope.
#[local] Set Default Proof Using "Type*".

Definition REGISTRATION_PROTOCOL_VERSION : Z := 1.
Definition REGISTRATION_REQUEST_DOMAIN : string := "wattetheria:network-registration-request:v1".
Definition AUTHORITY_KEY_CERTIFICATE_DOMAIN : string :=
  "wattetheria:registry-authority-key-certificate:v1".
Definition MEMBERSHIP_CREDENTIAL_DOMAIN : string :=
  "wattetheria:network-membership-credential:v1".
Definition PERMISSION_STATUS_ACTIVE : string := "active".

(** ** Wire types *)

Record RegistrationRequest := mkRegistrationRequest {
  rq_version : Z;
  rq_request_id : string;
  rq_network_id : string;
  rq_agent_did : string;
  rq_nickname : string;
  rq_agent_card : option json;
  rq_agent_card_hash : option string;
  rq_tenant_instance_id : option string;
  rq_nonce : string;
  rq_signature_b64 : string;
}.

Record NetworkCredentialTrustAnchor := mkAnchor {
  ta_network_id : string;
  ta_trust_anchor_id : string;
  ta_signature_algorithm : string;
  ta_public_key_encoding : string;
  ta_public_key : string;
}.

Record UnsignedAuthorityKeyCertificate := mkUnsignedCertificate {
  kc_version : Z;
  kc_network_id : string;
  kc_authority_id : string;
  kc_key_id : string;
  kc_signature_algorithm : string;
  kc_public_key_encoding : string;
  kc_public_key : string;
  kc_trust_anchor_id : string;
  kc_issued_at_ms : Z;
  kc_expires_at_ms : option Z;
}.

Record AuthorityKeyCertificate := mkCertificate {
  ak_unsigned : UnsignedAuthorityKeyCertificate;
  ak_signature_algorithm : string;
  ak_signature_encoding : string;
  ak_signature : string;
}.

Record UnsignedMembershipCredential := mkUnsignedCredential {
  um_version : Z;
  um_credential_id : string;
  um_network_id : string;
  um_agent_did : string;
  um_issuer_authority_id : string;
  um_issued_at_ms : Z;
  um_expires_at_ms : option Z;
  um_signing_key_id : option string;
  um_signature_algorithm : option string;
  um_issuer_key_certificate : option AuthorityKeyCertificate;
  um_extensions : list (string * json);
}.

Record MembershipCredential := mkCredential {
  unsigned : UnsignedMembershipCredential;
  signature_hex : string;
}.

Definition json_of_opt_string : option string → json := json_of_option JString.
Definition json_of_opt_Z : option Z → json := json_of_option json_of_Z.
Definition opt_field {A} (k : string) (f : A → json) (o : option A) : list (string * json) :=
  match o with Some a => [(k, f a)] | None => [] end.

(** The derived [Serialize] of a certificate and of a credential: the unsigned
    part is flattened, absent fields are skipped. *)
Definition certificate_json (c : AuthorityKeyCertificate) : json :=
  let u := ak_unsigned c in
  JObject
    ([("version", json_of_Z (kc_version u)); ("network_id", JString (kc_network_id u));
      ("authority_id", JString (kc_authority_id u)); ("key_id", JString (kc_key_id u));
      ("signature_algorithm", JString (kc_signature_algorithm u));
      ("public_key_encoding", JString (kc_public_key_encoding u));
      ("public_key", JString (kc_public_key u));
      ("trust_anchor_id", JString (kc_trust_anchor_id u));
      ("issued_at", json_of_Z (kc_issued_at_ms u))]
     ++ opt_field "expires_at" json_of_Z (kc_expires_at_ms u)
     ++ [("trust_anchor_signature_algorithm", JString (ak_signature_algorithm c));
         ("trust_anchor_signature_encoding", JString (ak_signature_encoding c));
         ("trust_anchor_signature", JString (ak_signature c))]).

Definition credential_json (c : MembershipCredential) : json :=
  let u := unsigned c in
  JObject
    ([("version", json_of_Z (um_version u)); ("credential_id", JString (um_credential_id u));
      ("network_id", JString (um_network_id u)); ("agent_did", JString (um_agent_did u));
      ("issuer_authority_id", JString (um_issuer_authority_id u));
      ("issued_at", json_of_Z (um_issued_at_ms u))]
     ++ opt_field "expires_at" json_of_Z (um_expires_at_ms u)
     ++ opt_field "signing_key_id" JString (um_signing_key_id u)
     ++ opt_field "signature_algorithm" JString (um_signature_algorithm u)
     ++ opt_field "issuer_key_certificate" certificate_json (um_issuer_key_certificate u)
     ++ um_extensions u
     ++ [("signature_hex", JString (signature_hex c))]).

(** ** Rows *)

Record NetworkPermissionCheckpoint := mkPermission {
  np_network_id : string;
  np_node_id : string;
  np_agent_did : string;
  np_permission_status : string;
  np_network_status : string;
  np_revision : Z;
  np_last_error : option string;
  np_updated_at_ms : Z;
}.
#[global] Instance eta_permission : Eta NetworkPermissionCheckpoint := λ c,
  mkPermission (np_network_id c) (np_node_id c) (np_agent_did c) (np_permission_status c)
    (np_network_status c) (np_revision c) (np_last_error c) (np_updated_at_ms c).

Record NetworkAgentCredentialRecord := mkCredentialRecord {
  cr_network_id : string;
  cr_agent_did : string;
  cr_request_id : string;
  cr_credential_id : string;
  cr_credential_json : string;
  cr_trust_anchor_json : option string;
  cr_credential_hash : string;
  cr_status : string;
  cr_issued_at_ms : Z;
  cr_credential_expires_at_ms : option Z;
  cr_stored_at_ms : Z;
  cr_updated_at_ms : Z;
}.
#[global] Instance eta_credential_record : Eta NetworkAgentCredentialRecord := λ r,
  mkCredentialRecord (cr_network_id r) (cr_agent_did r) (cr_request_id r) (cr_credential_id r)
    (cr_credential_json r) (cr_trust_anchor_json r) (cr_credential_hash r) (cr_status r)
    (cr_issued_at_ms r) (cr_credential_expires_at_ms r) (cr_stored_at_ms r) (cr_updated_at_ms r).

Record LocalDb := mkLocalDb {
  network_permission_checkpoints : list NetworkPermissionCheckpoint;
  network_agent_credentials : list NetworkAgentCredentialRecord;
}.
#[global] Instance eta_local_db : Eta LocalDb := λ d,
  mkLocalDb (network_permission_checkpoints d) (network_agent_credentials d).

(** [u64] as an SQLite [INTEGER]. *)
Definition sql_u64 (z : Z) : bool := z <=? i64_max.

(** [?1 IS NULL OR column = ?1]. *)
Definition sql_opt (o : option string) (column : string) : bool :=
  match o with Some v => String.eqb column v | None => true end.

Definition permission_key (c : NetworkPermissionCheckpoint) : string * string * string :=
  (np_network_id c, np_node_id c, np_agent_did c).
Definition credential_key (r : NetworkAgentCredentialRecord) : string * string :=
  (cr_network_id r, cr_agent_did r).

Definition upsert_network_permission_checkpoint (c : NetworkPermissionCheckpoint)
    : stm LocalDb unit :=
  ensure (sql_u64 (np_revision c) && sql_u64 (np_updated_at_ms c))
    "upsert network permission checkpoint";;
  modify (λ d, d <| network_permission_checkpoints ::= replace_row permission_key c |>).

Definition load_network_permission_checkpoint (d : LocalDb) (agent_did : string)
    (network_id node_id : option string) : option NetworkPermissionCheckpoint :=
  latest np_updated_at_ms
    (List.filter (λ c, String.eqb (np_agent_did c) agent_did
                       && sql_opt network_id (np_network_id c) && sql_opt node_id (np_node_id c))
       (network_permission_checkpoints d)).

Definition load_network_agent_credential (d : LocalDb) (agent_did : string)
    (network_id : option string) : option NetworkAgentCredentialRecord :=
  latest cr_updated_at_ms
    (List.filter (λ r, String.eqb (cr_agent_did r) agent_did && sql_opt network_id (cr_network_id r))
       (network_agent_credentials d)).

Definition credential_records_match (current candidate : NetworkAgentCredentialRecord) : bool :=
  String.eqb (cr_network_id current) (cr_network_id candidate)
  && String.eqb (cr_agent_did current) (cr_agent_did candidate)
  && String.eqb (cr_request_id current) (cr_request_id candidate)
  && String.eqb (cr_credential_id current) (cr_credential_id candidate)
  && bool_decide (cr_trust_anchor_json current = cr_trust_anchor_json candidate)
  && String.eqb (cr_credential_hash current) (cr_credential_hash candidate)
  && String.eqb (cr_status current) (cr_status candidate)
  && (cr_issued_at_ms current =? cr_issued_at_ms candidate)
  && bool_decide (cr_credential_expires_at_ms current = cr_credential_expires_at_ms candidate).

(** Answers whether the row changed. *)
Definition upsert_network_agent_credential (record : NetworkAgentCredentialRecord)
    : stm LocalDb bool :=
  existing ← gets (λ d, load_network_agent_credential d (cr_agent_did record)
                          (Some (cr_network_id record)));
  if match existing with Some e => credential_records_match e record | None => false end
  then mret false
  else
    ensure (sql_u64 (cr_issued_at_ms record) && sql_u64 (cr_stored_at_ms record)
            && sql_u64 (cr_updated_at_ms record)
            && match cr_credential_expires_at_ms record with Some t => sql_u64 t | None => true end)
      "upsert network Agent Credential";;
    rows ← gets network_agent_credentials;
    ensure (forallb (λ r, negb (String.eqb (cr_credential_id r) (cr_credential_id record))
                          || bool_decide (credential_key r = credential_key record)) rows)
      "upsert network Agent Credential";;
    modify (λ d, d <| network_agent_credentials ::= replace_row credential_key record |>);;
    mret true.

Definition status_applies (network_id agent_did request_id status : string)
    (r : NetworkAgentCredentialRecord) : bool :=
  String.eqb (cr_network_id r) network_id && String.eqb (cr_agent_did r) agent_did
  && String.eqb (cr_request_id r) request_id && negb (String.eqb (cr_status r) status).

Definition update_network_agent_credential_status (network_id agent_did request_id status : string)
    (updated_at_ms : Z) : stm LocalDb bool :=
  ensure (sql_u64 updated_at_ms) "update network Agent Credential status";;
  rows ← gets network_agent_credentials;
  let applies := status_applies network_id agent_did request_id status in
  modify (λ d, d <| network_agent_credentials ::= fmap (λ r,
    if applies r then r <| cr_status := status |> <| cr_updated_at_ms := updated_at_ms |> else r) |>);;
  mret (existsb applies rows).

Definition delete_network_agent_credential (network_id agent_did : string) : stm LocalDb bool :=
  rows ← gets network_agent_credentials;
  let hit r := String.eqb (cr_network_id r) network_id && String.eqb (cr_agent_did r) agent_did in
  modify (λ d, d <| network_agent_credentials ::= List.filter (λ r, negb (hit r)) |>);;
  mret (existsb hit rows).

(** ** Credentials *)

(** Third-party code: the detached signature check of watt_credential, the
    public key of an Ed25519 did:key, and serde_json's text of a credential and
    of a trust anchor. *)
Record DetachedSignature := mkDetached {
  ds_algorithm : string;
  ds_public_key_encoding : string;
  ds_public_key : string;
  ds_signature_encoding : string;
  ds_signature : string;
}.

Class CredentialLib := {
  verify_detached_signature : DetachedSignature → string → result unit;
  did_key_ed25519 : string → result string;
  credential_to_text : MembershipCredential → result string;
  credential_of_text : string → result MembershipCredential;
  anchor_to_text : NetworkCredentialTrustAnchor → result string;
  anchor_of_text : string → result NetworkCredentialTrustAnchor;
  request_of_json : json → result RegistrationRequest;
  credential_of_json : json → result MembershipCredential;
}.

(** A value that was serialised is read back. *)
Class CredentialLibLaws `{CredentialLib} : Prop := {
  credential_text c s : credential_to_text c = Ok s → credential_of_text s = Ok c;
  anchor_text a s : anchor_to_text a = Ok s → anchor_of_text s = Ok a;
}.

Section membership.
Context `{Crypto} `{CredentialLib}.

Definition signing_bytes_with_nickname (r : RegistrationRequest) (include_nickname : bool)
    : result string :=
  jcs_to_string (JObject
    ([("domain", JString REGISTRATION_REQUEST_DOMAIN); ("version", json_of_Z (rq_version r));
      ("request_id", JString (rq_request_id r)); ("network_id", JString (rq_network_id r));
      ("agent_did", JString (rq_agent_did r))]
     ++ (if include_nickname then [("nickname", JString (rq_nickname r))] else [])
     ++ opt_field "agent_card_hash" JString (rq_agent_card_hash r)
     ++ [("tenant_instance_id", json_of_opt_string (rq_tenant_instance_id r));
         ("nonce", JString (rq_nonce r))])).
Definition request_signing_bytes (r : RegistrationRequest) : result string :=
  signing_bytes_with_nickname r false.
Definition legacy_signing_bytes (r : RegistrationRequest) : result string :=
  signing_bytes_with_nickname r true.

Definition certificate_signing_bytes (u : UnsignedAuthorityKeyCertificate) : result string :=
  jcs_to_string (JObject
    [("domain", JString AUTHORITY_KEY_CERTIFICATE_DOMAIN); ("version", json_of_Z (kc_version u));
     ("network_id", JString (kc_network_id u)); ("authority_id", JString (kc_authority_id u));
     ("key_id", JString (kc_key_id u));
     ("signature_algorithm", JString (kc_signature_algorithm u));
     ("public_key_encoding", JString (kc_public_key_encoding u));
     ("public_key", JString (kc_public_key u)); ("trust_anchor_id", JString (kc_trust_anchor_id u));
     ("issued_at", json_of_Z (kc_issued_at_ms u)); ("expires_at", json_of_opt_Z (kc_expires_at_ms u))]).

Definition credential_signing_bytes (c : MembershipCredential) : result string :=
  let u := unsigned c in
  jcs_to_string (JObject
    [("domain", JString MEMBERSHIP_CREDENTIAL_DOMAIN); ("version", json_of_Z (um_version u));
     ("credential_id", JString (um_credential_id u)); ("network_id", JString (um_network_id u));
     ("agent_did", JString (um_agent_did u));
     ("issuer_authority_id", JString (um_issuer_authority_id u));
     ("issued_at", json_of_Z (um_issued_at_ms u)); ("expires_at", json_of_opt_Z (um_expires_at_ms u));
     ("signing_key_id", json_of_opt_string (um_signing_key_id u));
     ("signature_algorithm", json_of_opt_string (um_signature_algorithm u));
     ("issuer_key_certificate", json_of_option certificate_json (um_issuer_key_certificate u))]).

(** [is_some_and(|expires_at| expires_at <= now)]. *)
Definition expired (expires : option Z) (now_ms : Z) : bool :=
  match expires with Some t => t <=? now_ms | None => false end.

Definition verify_for (c : MembershipCredential) (request : RegistrationRequest) (now_ms : Z)
    : result unit :=
  _ ← ensure_ok (String.eqb (um_network_id (unsigned c)) (rq_network_id request)
                 && String.eqb (um_agent_did (unsigned c)) (rq_agent_did request))
        "membership credential subject does not match registration request";
  ensure_ok (negb (expired (um_expires_at_ms (unsigned c)) now_ms))
    "membership credential has expired".

Definition membership_credential_hash (c : MembershipCredential) : string :=
  "sha256:" +:+ sha256_hex (default "" (result_ok (jcs_to_string (credential_json c)))).

Definition store_membership_credential (request : RegistrationRequest)
    (c : MembershipCredential) (anchor : NetworkCredentialTrustAnchor) (now_ms : Z)
    : stm LocalDb bool :=
  lift (verify_for c request now_ms);;
  ensure (String.eqb (ta_network_id anchor) (rq_network_id request))
    "network Credential trust anchor does not match registration network";;
  text ← lift (with_context "serialize network Agent membership Credential" (credential_to_text c));
  anchor_json ← lift (with_context "serialize network Credential trust anchor" (anchor_to_text anchor));
  upsert_network_agent_credential
    (mkCredentialRecord (rq_network_id request) (rq_agent_did request) (rq_request_id request)
       (um_credential_id (unsigned c)) text (Some anchor_json) (membership_credential_hash c) "active"
       (um_issued_at_ms (unsigned c)) (um_expires_at_ms (unsigned c)) now_ms now_ms).

Definition network_status_of (status : string) : string :=
  if String.eqb status PERMISSION_STATUS_ACTIVE then "running" else "stopped".

Definition update_network_permission_checkpoint (network_id node_id agent_did permission_status : string)
    (last_error : option string) (now_ms : Z) : stm LocalDb NetworkPermissionCheckpoint :=
  exact ← gets (λ d, load_network_permission_checkpoint d agent_did (Some network_id) (Some node_id));
  other ← gets (λ d, load_network_permission_checkpoint d agent_did (Some network_id) None);
  let previous := match exact with Some c => Some c | None => other end in
  let checkpoint :=
    mkPermission network_id node_id agent_did permission_status (network_status_of permission_status)
      (match previous with Some c => Z.min u64_max (np_revision c + 1) | None => 1 end)
      last_error now_ms in
  upsert_network_permission_checkpoint checkpoint;;
  mret checkpoint.

Definition load_valid_membership_credential (d : LocalDb) (agent_did : string)
    (network_id : option string) (now_ms : Z)
    : result (option (NetworkAgentCredentialRecord * MembershipCredential)) :=
  match load_network_agent_credential d agent_did network_id with
  | None => Ok None
  | Some record =>
      if negb (String.eqb (cr_status record) "active")
         || expired (cr_credential_expires_at_ms record) now_ms
      then Ok None
      else
        c ← with_context "decode stored network Agent membership Credential"
              (credential_of_text (cr_credential_json record));
        let u := unsigned c in
        let valid :=
          String.eqb (um_credential_id u) (cr_credential_id record)
          && String.eqb (um_network_id u) (cr_network_id record)
          && String.eqb (um_agent_did u) (cr_agent_did record)
          && (um_issued_at_ms u =? cr_issued_at_ms record)
          && bool_decide (um_expires_at_ms u = cr_credential_expires_at_ms record)
          && String.eqb (membership_credential_hash c) (cr_credential_hash record) in
        Ok (if valid then Some (record, c) else None)
  end.

Definition load_active_membership_credential (d : LocalDb) (agent_did : string)
    (network_id : option string) (now_ms : Z) : result (option MembershipCredential) :=
  found ← load_valid_membership_credential d agent_did network_id now_ms; Ok (option_map snd found).

Definition network_permission_is_active (d : LocalDb) (agent_did : string) (now_ms : Z)
    : result bool :=
  match load_network_permission_checkpoint d agent_did None None with
  | None => Ok false
  | Some checkpoint =>
      if negb (String.eqb (np_permission_status checkpoint) PERMISSION_STATUS_ACTIVE) then Ok false
      else
        found ← load_valid_membership_credential d agent_did (Some (np_network_id checkpoint)) now_ms;
        Ok (bool_decide (is_Some found))
  end.

Definition verify_membership_credential_signature (c : MembershipCredential)
    (anchor : NetworkCredentialTrustAnchor) (now_ms : Z) : result unit :=
  let u := unsigned c in
  _ ← ensure_ok (match um_extensions u with [] => true | _ => false end)
        "network membership Credential contains unsigned extension fields";
  certificate ← ok_or
    "network membership Credential has no issuer key certificate; re-registration is required"
    (um_issuer_key_certificate u);
  let k := ak_unsigned certificate in
  _ ← ensure_ok (String.eqb (ta_network_id anchor) (um_network_id u)
                 && String.eqb (kc_network_id k) (um_network_id u)
                 && String.eqb (kc_authority_id k) (um_issuer_authority_id u)
                 && String.eqb (kc_trust_anchor_id k) (ta_trust_anchor_id anchor)
                 && String.eqb (ak_signature_algorithm certificate) (ta_signature_algorithm anchor)
                 && bool_decide (Some (kc_key_id k) = um_signing_key_id u)
                 && bool_decide (Some (kc_signature_algorithm k) = um_signature_algorithm u))
        "network membership Credential issuer proof does not match the trusted network";
  _ ← ensure_ok (negb (expired (kc_expires_at_ms k) now_ms))
        "network membership Credential issuer key certificate has expired";
  bytes ← certificate_signing_bytes k;
  _ ← with_context "verify network membership Credential issuer key certificate"
        (verify_detached_signature
           (mkDetached (ak_signature_algorithm certificate) (ta_public_key_encoding anchor)
              (ta_public_key anchor) (ak_signature_encoding certificate) (ak_signature certificate))
           bytes);
  algorithm ← ok_or "network membership Credential signature algorithm is required"
                (um_signature_algorithm u);
  bytes ← credential_signing_bytes c;
  with_context "verify network membership Credential signature"
    (verify_detached_signature
       (mkDetached algorithm (kc_public_key_encoding k) (kc_public_key k) "hex" (signature_hex c))
       bytes).

(** [clk] gives the two readings of the clock: for the row and for the chain. *)
Definition verify_membership_credential_for_network_start (d : LocalDb) (agent_did : string)
    (network_id : option string) (clk : clock)
    : result (option (NetworkAgentCredentialRecord * MembershipCredential)) :=
  found ← load_valid_membership_credential d agent_did network_id (clk 0%nat);
  match found with
  | None => Ok None
  | Some (record, c) =>
      text ← ok_or
        "network membership Credential has no trusted network anchor; re-registration is required"
        (cr_trust_anchor_json record);
      anchor ← with_context "decode stored network Credential trust anchor" (anchor_of_text text);
      _ ← verify_membership_credential_signature c anchor (clk 1%nat);
      Ok (Some (record, c))
  end.

Record NetworkPermissionUpdate := mkUpdate {
  pu_checkpoint : NetworkPermissionCheckpoint;
  pu_credential_id : option string;
  pu_credential_hash : option string;
  pu_credential_expires_at_ms : option Z;
  pu_credential_trust_anchor : option NetworkCredentialTrustAnchor;
}.

Definition network_permission_update (d : LocalDb) (checkpoint : NetworkPermissionCheckpoint)
    (clk : clock) : result NetworkPermissionUpdate :=
  verified ← (if String.eqb (np_permission_status checkpoint) PERMISSION_STATUS_ACTIVE
              then verify_membership_credential_for_network_start d (np_agent_did checkpoint)
                     (Some (np_network_id checkpoint)) clk
              else Ok None);
  let credential := option_map fst verified in
  anchor ← match credential ≫= cr_trust_anchor_json with
           | Some text => with_context "decode verified network Credential trust anchor"
                            (Some <$> anchor_of_text text)
           | None => Ok None
           end;
  Ok (mkUpdate checkpoint (cr_credential_id <$> credential) (cr_credential_hash <$> credential)
        (credential ≫= cr_credential_expires_at_ms) anchor).

Definition set_membership_credential_status (request : RegistrationRequest) (status : string)
    (now_ms : Z) : stm LocalDb bool :=
  update_network_agent_credential_status (rq_network_id request) (rq_agent_did request)
    (rq_request_id request) status now_ms.

Definition decode_request (v : json) : result RegistrationRequest :=
  with_context "decode Agent registration request" (request_of_json (default v (json_get "request" v))).
Definition decode_credential (v : json) : result MembershipCredential :=
  with_context "decode membership credential" (credential_of_json (default v (json_get "credential" v))).

Definition request_signature_is_valid (r : RegistrationRequest) : result unit :=
  public_key ← did_key_ed25519 (rq_agent_did r);
  signature ← ok_or "decode registration request signature"
                (base64_decode (trim (rq_signature_b64 r)));
  _ ← ensure_ok (String.length signature =? 64)%nat
        "registration request signature must be 64 bytes";
  _ ← with_context "parse Agent registration public key" (verifying_key_from_bytes public_key);
  current ← request_signing_bytes r;
  if ed25519_verify public_key current signature then Ok tt
  else
    legacy ← legacy_signing_bytes r;
    ensure_ok (ed25519_verify public_key legacy signature)
      "verify Agent registration request signature".

(** ** Applying the answer of a registry

    [routes/network.rs]. The node keeps its database, the revision that waits
    for delivery (the entry of its data directory in
    [NETWORK_PERMISSION_RETRY_REVISIONS]; while there is one, a task retries), and
    the updates the swarm took. A call reads the swarm and the clock from a
    [Surroundings]. *)

Record Registrar := mkRegistrar {
  db : LocalDb;
  retry_revision : option Z;
  delivered : list NetworkPermissionUpdate;
}.
#[local] Instance eta_registrar : Eta Registrar := λ r,
  mkRegistrar (db r) (retry_revision r) (delivered r).

Record Surroundings := mkSurroundings {
  su_agent_did : string;
  (** [swarm_bridge.local_node_id()] *)
  su_node_id : result string;
  (** [swarm_bridge.network_credential_trust_anchor()] *)
  su_anchor : result NetworkCredentialTrustAnchor;
  (** [swarm_bridge.update_network_permission(..)] *)
  su_update : NetworkPermissionUpdate → result unit;
  (** successive readings of [now_ms()] *)
  su_clock : clock;
}.

Section registrar.
Context (E : Surroundings).

Definition on_db {A} (m : stm LocalDb A) : stm Registrar A := λ r,
  let '(a, d) := m (db r) in (a, r <| db := d |>).

Definition node_id : string :=
  match su_node_id E with
  | Ok id => if is_blank id then su_agent_did E else id
  | Err _ => su_agent_did E
  end.

Definition persist_network_permission_checkpoint (request : RegistrationRequest) (status : string)
    (force_changed : bool) (last_error : option string) (now_ms : Z)
    : stm Registrar (NetworkPermissionCheckpoint * bool) :=
  existing ← gets (λ r, load_network_permission_checkpoint (db r) (rq_agent_did request)
                          (Some (rq_network_id request)) (Some node_id));
  let unchanged e :=
    negb force_changed && String.eqb (np_permission_status e) status
    && String.eqb (np_network_status e) (network_status_of status)
    && bool_decide (np_last_error e = last_error) in
  match option_filter unchanged existing with
  | Some e => mret (e, false)
  | None =>
      c ← on_db (update_network_permission_checkpoint (rq_network_id request) node_id
                   (rq_agent_did request) status last_error now_ms);
      mret (c, true)
  end.

(** A running retry task takes the higher revision; without one, one starts. *)
Definition schedule_network_permission_retry (revision : Z) : stm Registrar unit :=
  modify (λ r, r <| retry_revision ::= λ p,
    match p with Some pending => Some (Z.max pending revision) | None => Some revision end |>).

Definition deliver (update : NetworkPermissionUpdate) : stm Registrar unit := λ r,
  match su_update E update with
  | Ok _ => (Ok tt, r <| delivered ::= cons update |>)
  | Err e => (Err e, r)
  end.

Definition push_network_permission_checkpoint (checkpoint : NetworkPermissionCheckpoint) (clk : clock)
    : stm Registrar bool := λ r,
  match network_permission_update (db r) checkpoint clk with
  | Err _ => (schedule_network_permission_retry (np_revision checkpoint);; mret false) r
  | Ok update =>
      match deliver update r with
      | (Ok _, r') => (Ok true, r')
      | (Err _, r') => (schedule_network_permission_retry (np_revision checkpoint);; mret false) r'
      end
  end.

Definition shift (n : nat) (clk : clock) : clock := λ i, clk (n + i)%nat.

(** What the handler answers: the status, whether a row was stored, the
    checkpoint and whether the swarm took it. *)
Definition registration_reply : Type := string * bool * NetworkPermissionCheckpoint * bool.

Definition push_if (changed : bool) (checkpoint : NetworkPermissionCheckpoint) (clk : clock)
    : stm Registrar bool :=
  if changed then push_network_permission_checkpoint checkpoint clk else mret true.

Definition persist_non_approved_registration (request : RegistrationRequest) (status : string)
    : stm Registrar registration_reply :=
  stored ← on_db (set_membership_credential_status request status (su_clock E 0%nat));
  '(checkpoint, changed) ←
    persist_network_permission_checkpoint request status stored None (su_clock E 1%nat);
  sent ← push_if changed checkpoint (shift 2 (su_clock E));
  mret (status, stored, checkpoint, sent).

Definition persist_approved_registration (request : RegistrationRequest) (c : MembershipCredential)
    : stm Registrar registration_reply :=
  anchor ← lift (su_anchor E);
  credential_changed ← on_db (store_membership_credential request c anchor (su_clock E 0%nat));
  '(checkpoint, changed) ←
    persist_network_permission_checkpoint request PERMISSION_STATUS_ACTIVE credential_changed None
      (su_clock E 1%nat);
  sent ← push_if changed checkpoint (shift 2 (su_clock E));
  mret ("approved", true, checkpoint, sent).

Definition registration_status (payload : json) : result string :=
  let s := to_ascii_lowercase (trim (default "pending" (get_str "status" payload))) in
  if String.eqb s "approved" || String.eqb s "active" then Ok "approved"
  else if String.eqb s "pending" then Ok "pending"
  else if String.eqb s "rejected" then Ok "rejected"
  else if String.eqb s "disabled" then Ok "disabled"
  else Err ("unsupported registration credential status: " +:+ s).

Definition apply_registration_record (payload : json) : stm Registrar registration_reply :=
  request ← lift (decode_request payload);
  ensure (String.eqb (rq_agent_did request) (su_agent_did E))
    "registration credential agent_did does not match local Agent";;
  lift (request_signature_is_valid request);;
  status ← lift (registration_status payload);
  if negb (String.eqb status "approved") then persist_non_approved_registration request status
  else
    raw ← lift (ok_or "approved registration credential is missing"
                  (match json_get "credential" payload with
                   | Some v => if is_null v then None else Some v
                   | None => None
                   end));
    c ← lift (decode_credential raw);
    persist_approved_registration request c.

(** ** The retry task *)

(** Whether the task goes on. *)
Definition finish_network_permission_retry (delivered_revision : option Z) : stm Registrar bool := λ r,
  if match delivered_revision, retry_revision r with
     | Some d, Some pending => d <? pending
     | _, _ => false
     end
  then (Ok true, r)
  else (Ok false, r <| retry_revision := None |>).

(** One round of the loop of [retry_network_permission_delivery_inner]. *)
Definition retry_round (clk : clock) : stm Registrar bool := λ r,
  match load_network_permission_checkpoint (db r) (su_agent_did E) None None with
  | None => (finish_network_permission_retry None;; mret false) r
  | Some checkpoint =>
      match network_permission_update (db r) checkpoint clk with
      | Err _ => (Ok true, r)
      | Ok update =>
          match deliver update r with
          | (Ok _, r') => finish_network_permission_retry (Some (np_revision checkpoint)) r'
          | (Err _, r') => (Ok true, r')
          end
      end
  end.
End registrar.

(** ** What the rows hold *)

(** The text of a row decodes to a credential that says what its columns say. *)
Definition row_valid (r : NetworkAgentCredentialRecord) : Prop :=
  ∃ c, credential_of_text (cr_credential_json r) = Ok c
    ∧ um_credential_id (unsigned c) = cr_credential_id r
    ∧ um_network_id (unsigned c) = cr_network_id r ∧ um_agent_did (unsigned c) = cr_agent_did r
    ∧ um_issued_at_ms (unsigned c) = cr_issued_at_ms r
    ∧ um_expires_at_ms (unsigned c) = cr_credential_expires_at_ms r
    ∧ membership_credential_hash c = cr_credential_hash r.

Record db_ok (d : LocalDb) : Prop := {
  do_permissions : NoDup (permission_key <$> network_permission_checkpoints d);
  do_credentials : NoDup (credential_key <$> network_agent_credentials d);
  do_revisions : Forall (λ c, np_revision c ≤ i64_max) (network_permission_checkpoints d);
  do_rows : Forall row_valid (network_agent_credentials d);
}.

(** A permission is replaced only by one of a higher revision. *)
Definition permissions_grow (d d' : LocalDb) : Prop :=
  ∀ c, c ∈ network_permission_checkpoints d →
    ∃ c', c' ∈ network_permission_checkpoints d' ∧ permission_key c' = permission_key c
      ∧ (c' = c ∨ np_revision c < np_revision c').

#[local] Instance permissions_grow_preorder : PreOrder permissions_grow.
Proof using Type.
  split; [by intros d c Hc; exists c; eauto|].
  intros x y z H1 H2 c Hc. destruct (H1 c Hc) as (c1 & Hc1 & Hk1 & Hr1).
  destruct (H2 c1 Hc1) as (c2 & Hc2 & Hk2 & Hr2). exists c2.
  split_and!; [done|congruence|]. destruct Hr1 as [->|], Hr2 as [->|]; auto. right. lia.
Qed.

Lemma load_permission_inv d agent net node c :
  load_network_permission_checkpoint d agent net node = Some c →
  c ∈ network_permission_checkpoints d ∧ np_agent_did c = agent
  ∧ (∀ n, net = Some n → np_network_id c = n) ∧ (∀ n, node = Some n → np_node_id c = n).
Proof using Type.
  intros [Hc _]%latest_Some. apply elem_of_filterb in Hc as [Hin Hc].
  rewrite !andb_true_iff String.eqb_eq in Hc. destruct Hc as [[? Hn] Hm].
  split_and!; [done..| |].
  - intros n ->. by apply String.eqb_eq in Hn.
  - intros n ->. by apply String.eqb_eq in Hm.
Qed.

(** The row of a key is found under it. *)
Lemma load_permission_exact d c :
  db_ok d → c ∈ network_permission_checkpoints d →
  load_network_permission_checkpoint d (np_agent_did c) (Some (np_network_id c))
    (Some (np_node_id c)) = Some c.
Proof using Type.
  intros Hd Hc. apply latest_newest.
  - apply elem_of_filterb. split; [done|]. cbn. by rewrite !String.eqb_refl.
  - intros x Hx. left. apply elem_of_filterb in Hx as [Hx Hk]. cbn in Hk.
    rewrite !andb_true_iff !String.eqb_eq in Hk. destruct Hk as [[Ha Hn] Hm].
    apply (key_unique permission_key (network_permission_checkpoints d)); [apply Hd|done..|].
    by rewrite /permission_key Ha Hn Hm.
Qed.

Lemma load_credential_inv d agent net r :
  load_network_agent_credential d agent (Some net) = Some r →
  r ∈ network_agent_credentials d ∧ credential_key r = (net, agent).
Proof using Type.
  intros [Hc _]%latest_Some. apply elem_of_filterb in Hc as [Hin Hc].
  rewrite andb_true_iff String.eqb_eq in Hc. destruct Hc as [Ha Hn%String.eqb_eq].
  by rewrite /credential_key Ha Hn.
Qed.

Lemma load_credential_exact d r :
  db_ok d → r ∈ network_agent_credentials d →
  load_network_agent_credential d (cr_agent_did r) (Some (cr_network_id r)) = Some r.
Proof using Type.
  intros Hd Hr. apply latest_newest.
  - apply elem_of_filterb. split; [done|]. cbn. by rewrite !String.eqb_refl.
  - intros x Hx. left. apply elem_of_filterb in Hx as [Hx Hk]. cbn in Hk.
    rewrite !andb_true_iff !String.eqb_eq in Hk. destruct Hk as [Ha Hn].
    apply (key_unique credential_key (network_agent_credentials d)); [apply Hd|done..|].
    by rewrite /credential_key Ha Hn.
Qed.

(** Writing a permission. *)
Lemma update_permission_ok net node agent status err now d c d' :
  db_ok d →
  update_network_permission_checkpoint net node agent status err now d = (Ok c, d') →
  db_ok d' ∧ permissions_grow d d' ∧ c ∈ network_permission_checkpoints d'
  ∧ network_agent_credentials d' = network_agent_credentials d
  ∧ permission_key c = (net, node, agent) ∧ np_permission_status c = status
  ∧ np_network_status c = network_status_of status ∧ np_updated_at_ms c = now.
Proof using Type.
  intros Hd. rewrite /update_network_permission_checkpoint.
  cbv [mbind stm_bind gets]. cbv zeta. set (new := mkPermission _ _ _ _ _ _ _ _).
  rewrite /upsert_network_permission_checkpoint. cbv [mbind stm_bind ensure modify].
  destruct (sql_u64 (np_revision new) && _) eqn:Hsql; [|done].
  intros [= <- <-]. apply andb_true_iff in Hsql as [Hrev%Z.leb_le _].
  pose proof Hd as [H1 H2 H3 H4]. split.
  { split; cbn; [by apply replace_row_NoDup|done|by apply replace_row_Forall|done]. }
  split; [|split_and!; try done; cbn; apply elem_of_replace_row; [done|by left]].
  intros x Hx. destruct (decide (permission_key x = permission_key new)) as [Hk|Hk].
  - exists new. cbn. split_and!; [apply elem_of_replace_row; [done|by left]|done|right].
    pose proof (load_permission_exact d x Hd Hx) as Hl.
    rewrite /permission_key /= in Hk. injection Hk as E1 E2 E3.
    rewrite E1 E2 E3 in Hl. cbn. rewrite Hl. rewrite Forall_forall in H3. specialize (H3 x Hx).
    rewrite /u64_max. rewrite /i64_max in H3 |- *. lia.
  - exists x. cbn. split_and!; [|done|by left]. apply elem_of_replace_row; [done|by right].
Qed.

(** Writing a credential. *)
Lemma upsert_credential_ok record d changed d' :
  db_ok d → row_valid record →
  upsert_network_agent_credential record d = (Ok changed, d') →
  db_ok d' ∧ network_permission_checkpoints d' = network_permission_checkpoints d
  ∧ ∃ r, r ∈ network_agent_credentials d' ∧ credential_records_match r record = true.
Proof using Type.
  intros Hd Hv. rewrite /upsert_network_agent_credential.
  cbv [mbind stm_bind gets mret stm_ret ensure modify].
  destruct (match load_network_agent_credential d _ _ with Some e => _ | None => _ end) eqn:Hm.
  - destruct (load_network_agent_credential d _ _) as [e|] eqn:Hl; [|done].
    intros [= <- <-]. split_and!; [done..|]. exists e.
    by apply load_credential_inv in Hl as [? _].
  - destruct (sql_u64 _ && _ && _ && _); [|done]. destruct (forallb _ _); [|done].
    intros [= <- <-]. destruct Hd as [H1 H2 H3 H4]. cbn. split.
    { split; cbn; [done|by apply replace_row_NoDup|done|by apply replace_row_Forall]. }
    split; [done|]. exists record. split; [apply elem_of_replace_row; [done|by left]|].
    rewrite /credential_records_match. rewrite !String.eqb_refl Z.eqb_refl.
    by rewrite !bool_decide_true.
Qed.

(** The status of a credential. *)
Lemma update_status_ok net agent req status now d stored d' :
  db_ok d →
  update_network_agent_credential_status net agent req status now d = (Ok stored, d') →
  db_ok d' ∧ network_permission_checkpoints d' = network_permission_checkpoints d
  ∧ ∀ r, r ∈ network_agent_credentials d' → credential_key r = (net, agent) →
      cr_request_id r = req → cr_status r = status.
Proof using Type.
  intros Hd. rewrite /update_network_agent_credential_status.
  cbv [mbind stm_bind gets mret stm_ret ensure modify]. destruct (sql_u64 now); [|done].
  intros [= <- <-]. destruct Hd as [H1 H2 H3 H4]. cbn. set (f := λ r, if status_applies _ _ _ _ r then _ else r).
  assert (∀ r, credential_key (f r) = credential_key r) as Hkey by by intros r; rewrite /f; case_match.
  split; [|split; [done|]].
  - split; cbn; [done| |done|].
    + rewrite -list_fmap_compose. rewrite (list_fmap_ext (credential_key ∘ f) credential_key) //.
      intros i r _. apply Hkey.
    + apply Forall_fmap. eapply Forall_impl; [exact H4|]. intros r Hr. rewrite /= /f. by case_match.
  - intros r (r0 & -> & Hr0)%list_elem_of_fmap. rewrite Hkey. intros Hk. rewrite /f.
    destruct (status_applies net agent req status r0) eqn:Hs; [done|]. intros Hq.
    rewrite /status_applies in Hs. injection Hk as E1 E2. rewrite E1 E2 Hq !String.eqb_refl in Hs.
    cbn in Hs. by apply negb_false_iff, String.eqb_eq in Hs.
Qed.

(** ** Registrations decide the permission *)

Section decide.
Context `{!CredentialLibLaws} (E : Surroundings).

Lemma store_membership_ok request c anchor now d changed d' :
  db_ok d → store_membership_credential request c anchor now d = (Ok changed, d') →
  db_ok d' ∧ network_permission_checkpoints d' = network_permission_checkpoints d
  ∧ ∃ r, r ∈ network_agent_credentials d'
      ∧ credential_key r = (rq_network_id request, rq_agent_did request)
      ∧ cr_status r = "active" ∧ cr_request_id r = rq_request_id request
      ∧ cr_credential_expires_at_ms r = um_expires_at_ms (unsigned c)
      ∧ cr_credential_hash r = membership_credential_hash c.
Proof.
  intros Hd Hrun. rewrite /store_membership_credential in Hrun.
  apply bind_ok_inv in Hrun as ([] & d1 & [Hv ->]%lift_ok_inv & Hrun).
  apply bind_ok_inv in Hrun as ([] & d1 & [_ ->]%ensure_ok_inv & Hrun).
  apply bind_ok_inv in Hrun as (text & d1 & [Htext%with_context_ok ->]%lift_ok_inv & Hrun).
  apply bind_ok_inv in Hrun as (atext & d1 & [_ ->]%lift_ok_inv & Hrun).
  rewrite /verify_for in Hv. apply result_bind_ok in Hv as ([] & Hsub%ensure_ok_ok & _).
  apply andb_true_iff in Hsub as [Hnet%String.eqb_eq Hag%String.eqb_eq].
  apply upsert_credential_ok in Hrun as (Hok & Hcp & r & Hr & Hm); [|done|].
  - split_and!; [done..|]. exists r. split; [done|]. rewrite /credential_records_match /= in Hm.
    rewrite !andb_true_iff !String.eqb_eq !bool_decide_eq_true in Hm. destruct_and!.
    rewrite /credential_key. split_and!; congruence.
  - eexists. split; [by apply credential_text|]. cbn. done.
Qed.

Lemma load_valid_active d r t :
  db_ok d → r ∈ network_agent_credentials d → cr_status r = "active" →
  expired (cr_credential_expires_at_ms r) t = false →
  ∃ c, load_valid_membership_credential d (cr_agent_did r) (Some (cr_network_id r)) t
         = Ok (Some (r, c)) ∧ membership_credential_hash c = cr_credential_hash r.
Proof using Type.
  intros Hd Hr Ha He. rewrite /load_valid_membership_credential load_credential_exact // Ha He.
  cbn [String.eqb negb orb].
  pose proof (do_rows d Hd) as Hrows. rewrite Forall_forall in Hrows.
  destruct (Hrows r Hr) as (c & -> & F1 & F2 & F3 & F4 & F5 & F6).
  cbn [with_context mbind result_bind]. exists c. split; [|done].
  rewrite F1 F2 F3 F4 F5 F6 !String.eqb_refl Z.eqb_refl bool_decide_true //.
Qed.

Lemma load_valid_inactive d r t :
  db_ok d → r ∈ network_agent_credentials d → cr_status r ≠ "active" →
  load_valid_membership_credential d (cr_agent_did r) (Some (cr_network_id r)) t = Ok None.
Proof using Type.
  intros Hd Hr Ha. rewrite /load_valid_membership_credential load_credential_exact //.
  by rewrite (proj2 (String.eqb_neq _ _) Ha).
Qed.

Lemma persist_permission_ok request status force now r cp changed r' :
  db_ok (db r) →
  persist_network_permission_checkpoint E request status force None now r = (Ok (cp, changed), r') →
  db_ok (db r') ∧ network_agent_credentials (db r') = network_agent_credentials (db r)
  ∧ cp ∈ network_permission_checkpoints (db r')
  ∧ permission_key cp = (rq_network_id request, node_id E, rq_agent_did request)
  ∧ np_permission_status cp = status.
Proof using Type.
  intros Hd. rewrite /persist_network_permission_checkpoint. intros Hrun.
  apply bind_ok_inv in Hrun as (ex & r1 & Hg & Hrun). injection Hg as <- <-.
  destruct (option_filter _ _) as [e|] eqn:Hex.
  - injection Hrun as <- _ <-. rewrite /option_filter in Hex.
    destruct (load_network_permission_checkpoint _ _ _ _) as [e'|] eqn:Hl; [|done].
    destruct (negb force && _ && _ && _) eqn:Hc; [|done]. injection Hex as ->.
    apply load_permission_inv in Hl as (Hin & Ha & Hn & Hm).
    rewrite !andb_true_iff !String.eqb_eq in Hc. destruct_and!.
    split_and!; try done. by rewrite /permission_key Ha (Hn _ eq_refl) (Hm _ eq_refl).
  - apply bind_ok_inv in Hrun as (c & r1 & Hc & Hm). injection Hm as <- _ <-.
    rewrite /on_db in Hc.
    destruct (update_network_permission_checkpoint _ _ _ _ _ _ (db r)) as [a d'] eqn:Hu.
    injection Hc as -> <-. apply update_permission_ok in Hu; [|done].
    destruct Hu as (? & _ & ? & ? & ? & ? & _). done.
Qed.

Lemma push_keeps_db changed cp clk r : db (push_if E changed cp clk r).2 = db r.
Proof using Type.
  rewrite /push_if /push_network_permission_checkpoint /deliver.
  destruct changed; [|done]. by repeat case_match; simplify_eq/=.
Qed.

(** The checkpoint is newer than every other one of its agent. *)
Definition newest (d : LocalDb) (cp : NetworkPermissionCheckpoint) : Prop :=
  ∀ x, x ∈ network_permission_checkpoints d → np_agent_did x = np_agent_did cp →
    x = cp ∨ np_updated_at_ms x < np_updated_at_ms cp.

Lemma newest_loaded d cp :
  cp ∈ network_permission_checkpoints d → newest d cp →
  load_network_permission_checkpoint d (np_agent_did cp) None None = Some cp.
Proof using Type.
  intros Hc Hn. apply latest_newest.
  - apply elem_of_filterb. split; [done|]. by rewrite String.eqb_refl.
  - intros x [Hx Hk]%elem_of_filterb. rewrite !andb_true_iff String.eqb_eq in Hk.
    destruct Hk as [[? _] _]. by apply Hn.
Qed.

(** What an applied registration decides about its network. *)
Definition decided (d : LocalDb) (request : RegistrationRequest) (payload : json) (status : string)
    (cp : NetworkPermissionCheckpoint) : Prop :=
  cp ∈ network_permission_checkpoints d ∧ np_network_id cp = rq_network_id request
  ∧ np_agent_did cp = rq_agent_did request
  ∧ if decide (status = "approved") then
      np_permission_status cp = PERMISSION_STATUS_ACTIVE
      ∧ ∃ raw c, json_get "credential" payload = Some raw ∧ decode_credential raw = Ok c
        ∧ ∀ t, expired (um_expires_at_ms (unsigned c)) t = false →
            (∃ r c', load_valid_membership_credential d (rq_agent_did request)
                       (Some (rq_network_id request)) t = Ok (Some (r, c'))
               ∧ membership_credential_hash c' = membership_credential_hash c)
            ∧ (newest d cp → network_permission_is_active d (rq_agent_did request) t = Ok true)
    else
      np_permission_status cp = status
      ∧ (∀ r t, r ∈ network_agent_credentials d →
           credential_key r = (rq_network_id request, rq_agent_did request) →
           cr_request_id r = rq_request_id request →
           load_valid_membership_credential d (rq_agent_did request)
             (Some (rq_network_id request)) t = Ok None)
      ∧ (newest d cp → ∀ t, network_permission_is_active d (rq_agent_did request) t = Ok false).

Lemma on_db_inv {A} (m : stm LocalDb A) r a r' :
  on_db m r = (Ok a, r') → ∃ d, m (db r) = (Ok a, d) ∧ r' = r <| db := d |>.
Proof using Type.
  rewrite /on_db. destruct (m (db r)) as [x d]. intros [= -> <-]. by exists d.
Qed.

Lemma push_inv changed cp clk r sent r' :
  push_if E changed cp clk r = (Ok sent, r') → db r' = db r.
Proof using Type. intros Hp. by rewrite -(push_keeps_db changed cp clk r) Hp. Qed.

Lemma approved_decides request c payload raw r reply r' :
  db_ok (db r) → json_get "credential" payload = Some raw → decode_credential raw = Ok c →
  persist_approved_registration E request c r = (Ok reply, r') →
  reply.1.1.1 = "approved" ∧ decided (db r') request payload "approved" reply.1.2.
Proof.
  intros Hd Hraw Hdec Hrun. rewrite /persist_approved_registration in Hrun.
  apply bind_ok_inv in Hrun as (anchor & r1 & [_ ->]%lift_ok_inv & Hrun).
  apply bind_ok_inv in Hrun as (ch & r1 & (d1 & Hst & ->)%on_db_inv & Hrun).
  apply store_membership_ok in Hst as (Hd1 & _ & rec & Hin & Hk & Ha & Hq & He & Hh); [|done].
  apply bind_ok_inv in Hrun as ([cp changed] & r2 & Hp & Hrun).
  apply persist_permission_ok in Hp as (Hd2 & Hcr & Hcp & Hkey & Hs); [|done].
  apply bind_ok_inv in Hrun as (sent & r3 & Hpush%push_inv & Hrun). injection Hrun as <- <-.
  split; [done|]. rewrite /decided Hpush /=. injection Hkey as Hn _ Hag.
  rewrite -Hcr in Hin. injection Hk as Hk1 Hk2.
  split_and!; [done..|]. exists raw, c. split_and!; [done..|]. intros t Ht.
  destruct (load_valid_active (db r2) rec t Hd2 Hin Ha) as (c' & Hl & Hc'); [by rewrite He|].
  rewrite Hk1 Hk2 in Hl. split; [exists rec, c'; split; [done|congruence]|].
  intros Hnew. rewrite /network_permission_is_active -Hag newest_loaded // Hs String.eqb_refl Hn Hag.
  cbn [negb]. by rewrite Hl.
Qed.

Lemma non_approved_decides request status payload r reply r' :
  db_ok (db r) → status ≠ "approved" → status ≠ PERMISSION_STATUS_ACTIVE →
  persist_non_approved_registration E request status r = (Ok reply, r') →
  reply.1.1.1 = status ∧ decided (db r') request payload status reply.1.2.
Proof using Type.
  intros Hd Hna Hnact Hrun. rewrite /persist_non_approved_registration in Hrun.
  apply bind_ok_inv in Hrun as (st & r1 & (d1 & Hst & ->)%on_db_inv & Hrun).
  apply update_status_ok in Hst as (Hd1 & _ & Hrows); [|done].
  apply bind_ok_inv in Hrun as ([cp changed] & r2 & Hp & Hrun).
  apply persist_permission_ok in Hp as (Hd2 & Hcr & Hcp & Hkey & Hs); [|done].
  apply bind_ok_inv in Hrun as (sent & r3 & Hpush%push_inv & Hrun). injection Hrun as <- <-.
  split; [done|]. rewrite /decided Hpush /= decide_False //. injection Hkey as Hn _ Hag.
  split_and!; [done..| |].
  - intros rec t Hin Hk Hq. rewrite Hcr in Hin.
    pose proof (Hrows rec Hin Hk Hq) as Hst. injection Hk as Hk1 Hk2.
    rewrite -Hk1 -Hk2. rewrite -Hcr in Hin. apply load_valid_inactive; [done..|].
    rewrite Hst. exact Hnact.
  - intros Hnew t. rewrite /network_permission_is_active -Hag newest_loaded // Hs.
    by rewrite (proj2 (String.eqb_neq _ _) Hnact).
Qed.

(** ** Every run keeps the rows *)

Definition keeps {A} (m : stm Registrar A) : Prop :=
  ∀ r, db_ok (db r) → db_ok (db (m r).2) ∧ permissions_grow (db r) (db (m r).2).

Lemma registrar_keeps_bind {A B} (m : stm Registrar A) (k : A → stm Registrar B) :
  keeps m → (∀ a, keeps (k a)) → keeps (m ≫= k).
Proof using Type.
  intros Hm Hk r Hr. rewrite /mbind /stm_bind. specialize (Hm r Hr).
  destruct (m r) as [[a|e] r1]; [|done]. destruct Hm as [G1 G2], (Hk a r1 G1) as [G3 G4].
  split; [done|]. by etrans.
Qed.

Lemma registrar_keeps_same {A} (m : stm Registrar A) : (∀ r, db (m r).2 = db r) → keeps m.
Proof using Type. intros Hm r Hr. by rewrite Hm. Qed.

Lemma keeps_on_db {A} (m : stm LocalDb A) :
  (∀ d, db_ok d → match m d with
                  | (Ok _, d') => db_ok d' ∧ permissions_grow d d'
                  | (Err _, d') => d' = d
                  end) → keeps (on_db m).
Proof using Type.
  intros Hm r Hr. specialize (Hm (db r) Hr). rewrite /on_db.
  destruct (m (db r)) as [[a|e] d]; cbn; [done|]. by subst d.
Qed.

Lemma same_permissions_grow d d' :
  network_permission_checkpoints d' = network_permission_checkpoints d → permissions_grow d d'.
Proof using Type. intros Heq c Hc. exists c. rewrite Heq. eauto. Qed.

Lemma store_membership_keeps request c anchor now :
  keeps (on_db (store_membership_credential request c anchor now)).
Proof.
  apply keeps_on_db. intros d Hd.
  destruct (store_membership_credential _ _ _ _ d) as [[ch|e] d'] eqn:Hrun.
  - apply store_membership_ok in Hrun as (? & ? & _); [|done].
    by split; [|apply same_permissions_grow].
  - revert Hrun. rewrite /store_membership_credential /upsert_network_agent_credential.
    cbv [mbind stm_bind gets mret stm_ret ensure modify lift].
    intros Hrun. by repeat (case_match; simplify_eq/=).
Qed.

Lemma update_status_keeps request status now :
  keeps (on_db (set_membership_credential_status request status now)).
Proof using Type.
  apply keeps_on_db. intros d Hd.
  destruct (set_membership_credential_status _ _ _ d) as [[ch|e] d'] eqn:Hrun.
  - apply update_status_ok in Hrun as (? & ? & _); [|done].
    by split; [|apply same_permissions_grow].
  - revert Hrun. rewrite /set_membership_credential_status /update_network_agent_credential_status.
    cbv [mbind stm_bind gets mret stm_ret ensure modify]. by destruct (sql_u64 now); intros [= _ <-].
Qed.

Lemma update_permission_keeps net node agent status err now :
  keeps (on_db (update_network_permission_checkpoint net node agent status err now)).
Proof using Type.
  apply keeps_on_db. intros d Hd.
  destruct (update_network_permission_checkpoint _ _ _ _ _ _ d) as [[ch|e] d'] eqn:Hrun.
  - by apply update_permission_ok in Hrun as (? & ? & _).
  - revert Hrun. rewrite /update_network_permission_checkpoint /upsert_network_permission_checkpoint.
    cbv [mbind stm_bind gets mret stm_ret ensure modify]. cbv zeta.
    by destruct (sql_u64 (np_revision _) && _); intros [= _ <-].
Qed.

#[local] Ltac keep :=
  repeat first
    [ apply store_membership_keeps | apply update_status_keeps | apply update_permission_keeps
    | apply registrar_keeps_same; intros; apply push_keeps_db
    | apply registrar_keeps_bind; [|intros ?] | case_match
    | apply registrar_keeps_same; intros; by rewrite /ensure /lift; repeat case_match ].

Lemma apply_registration_keeps payload : keeps (apply_registration_record E payload).
Proof.
  rewrite /apply_registration_record /persist_approved_registration
    /persist_non_approved_registration /persist_network_permission_checkpoint. keep.
Qed.

Lemma retry_keeps_db clk r : db (retry_round E clk r).2 = db r.
Proof using Type.
  rewrite /retry_round /deliver /finish_network_permission_retry.
  by repeat case_match; simplify_eq/=; repeat case_match; simplify_eq/=.
Qed.
End decide.

(** ** Runs of a node *)

Definition new_registrar : Registrar := mkRegistrar (mkLocalDb [] []) None [].

(** The node of agent [me] applies answers of registries and retries its
    deliveries, in any order and whatever the swarm and the clock do. *)
Inductive reg_step (me : string) (r : Registrar) : Registrar → Prop :=
  | step_apply E payload : su_agent_did E = me → reg_step me r (apply_registration_record E payload r).2
  | step_retry E clk : su_agent_did E = me → reg_step me r (retry_round E clk r).2.

Section runs.
Context `{!CredentialLibLaws} (me : string).

Lemma new_registrar_ok : db_ok (db new_registrar).
Proof using Type. by split; constructor. Qed.

Lemma steps_keep r r' :
  rtc (reg_step me) r r' → db_ok (db r) → db_ok (db r') ∧ permissions_grow (db r) (db r').
Proof.
  induction 1 as [r|r r1 r2 Hstep _ IH]; intros Hr; [by split|].
  assert (db_ok (db r1) ∧ permissions_grow (db r) (db r1)) as [G1 G2].
  { destruct Hstep as [E payload _|E clk _]; [by apply apply_registration_keeps|].
    by rewrite retry_keeps_db. }
  destruct (IH G1) as [G3 G4]. split; [done|]. by etrans.
Qed.

Lemma registration_status_cases payload status :
  registration_status payload = Ok status → status = "approved" ∨
  (status ≠ "approved" ∧ status ≠ PERMISSION_STATUS_ACTIVE).
Proof using Type. rewrite /registration_status. repeat case_match; intros [= <-]; auto. Qed.

(** C22: what a registry answers decides the permission. After an answer was
    applied, whatever happened before, the permission of its network is the one
    the answer gives. An approved agent is active with a stored credential that
    is valid until it expires; a pending, rejected or disabled agent is not
    active, and the credential of that request no longer counts. While this is
    the newest checkpoint of the agent, it is what the node goes by. *)
Theorem registration_decides E payload r reply r' :
  rtc (reg_step me) new_registrar r →
  apply_registration_record E payload r = (Ok reply, r') →
  let '(status, _, cp, _) := reply in
  ∃ request, decode_request payload = Ok request ∧ rq_agent_did request = su_agent_did E
    ∧ registration_status payload = Ok status ∧ decided (db r') request payload status cp.
Proof.
  intros Hr Hrun. apply steps_keep in Hr as [Hd _]; [|apply new_registrar_ok].
  rewrite /apply_registration_record in Hrun.
  apply bind_ok_inv in Hrun as (request & r1 & [Hreq ->]%lift_ok_inv & Hrun).
  apply bind_ok_inv in Hrun as ([] & r1 & [Hag%String.eqb_eq ->]%ensure_ok_inv & Hrun).
  apply bind_ok_inv in Hrun as ([] & r1 & [_ ->]%lift_ok_inv & Hrun).
  apply bind_ok_inv in Hrun as (status & r1 & [Hst ->]%lift_ok_inv & Hrun).
  assert (reply.1.1.1 = status ∧ decided (db r') request payload status reply.1.2) as [<- Hdec].
  { destruct (registration_status_cases _ _ Hst) as [->|[Hna Hnact]].
    - cbn [String.eqb negb] in Hrun.
      apply bind_ok_inv in Hrun as (raw & r1 & [Hraw%ok_or_ok ->]%lift_ok_inv & Hrun).
      apply bind_ok_inv in Hrun as (c & r1 & [Hc ->]%lift_ok_inv & Hrun).
      eapply approved_decides; [done| |exact Hc|exact Hrun].
      by destruct (json_get "credential" payload) as [v|]; [destruct (is_null v)|].
    - rewrite (proj2 (String.eqb_neq _ _) Hna) in Hrun. cbn [negb] in Hrun.
      by eapply non_approved_decides. }
  destruct reply as [[[st ch] cp] sent]. exists request. done.
Qed.

(** Revisions of a permission only grow. Whatever answers were applied,
    successfully or not, the checkpoint of an agent on a network and a node is
    found under these keys and changes only to a higher revision, which fits the
    database. *)
Theorem permission_revisions_grow r r' c :
  rtc (reg_step me) new_registrar r → rtc (reg_step me) r r' →
  c ∈ network_permission_checkpoints (db r) →
  ∃ c', load_network_permission_checkpoint (db r') (np_agent_did c) (Some (np_network_id c))
          (Some (np_node_id c)) = Some c'
    ∧ (c' = c ∨ np_revision c < np_revision c') ∧ np_revision c' ≤ i64_max.
Proof.
  intros Hr Hr' Hc. apply steps_keep in Hr as [Hd _]; [|apply new_registrar_ok].
  apply steps_keep in Hr' as [Hd' Hg]; [|done]. destruct (Hg c Hc) as (c' & Hc' & Hk & Hrev).
  exists c'. injection Hk as <- <- <-. split; [by apply load_permission_exact|]. split; [done|].
  pose proof (do_revisions _ Hd') as Hall. rewrite Forall_forall in Hall. by apply Hall.
Qed.

(** ** Deliveries that wait *)

(** From one state to a later one, what was delivered stays, and a revision that
    waits is replaced by a higher one only. *)
Record waits (r r' : Registrar) : Prop := {
  wa_delivered : ∃ new, delivered r' = new ++ delivered r;
  wa_pending : ∀ p, retry_revision r = Some p → ∃ p', retry_revision r' = Some p' ∧ p ≤ p';
}.

#[local] Instance waits_preorder : PreOrder waits.
Proof using Type.
  split.
  - intros r. split; [by exists []|]. intros p Hp. exists p. split; [done|lia].
  - intros x y z [[n1 G1] G2] [[n2 G3] G4]. split; [exists (n2 ++ n1); by rewrite G3 G1 app_assoc|].
    intros p (p1 & (p2 & ? & ?)%G4 & ?)%G2. exists p2. split; [done|lia].
Qed.

(** A waiting revision belongs to an agent that has a checkpoint. *)
Definition retry_inv (r : Registrar) : Prop :=
  is_Some (retry_revision r) →
  ∃ c, c ∈ network_permission_checkpoints (db r) ∧ np_agent_did c = me.

(** What an operation does from states with [P]: it lets deliveries wait, keeps
    the rows, and ends in states with [Q] when it succeeds. *)
Definition op_spec {A} (P : Registrar → Prop) (m : stm Registrar A) (Q : A → Registrar → Prop) : Prop :=
  ∀ r, P r → db_ok (db r) → retry_inv r →
    waits r (m r).2 ∧ db_ok (db (m r).2) ∧ retry_inv (m r).2 ∧ ∀ a, (m r).1 = Ok a → Q a (m r).2.

Lemma op_bind {A B} P (m : stm Registrar A) Q (k : A → stm Registrar B) T :
  op_spec P m Q → (∀ a, op_spec (Q a) (k a) T) → op_spec P (m ≫= k) T.
Proof using Type.
  intros Hm Hk r HP Hd Hi. destruct (Hm r HP Hd Hi) as (W1 & D1 & I1 & Q1).
  rewrite /mbind /stm_bind. destruct (m r) as [[a|e] r1]; cbn in *; [|done].
  destruct (Hk a r1 (Q1 a eq_refl) D1 I1) as (W2 & D2 & I2 & Q2).
  split_and!; [by etrans|done..].
Qed.

Lemma op_db {A} (m : stm LocalDb A) P :
  keeps (on_db m) → op_spec P (on_db m) (λ _ _, True).
Proof using Type.
  intros Hk r _ Hd Hi. destruct (Hk r Hd) as [Hd' Hg]. rewrite /on_db in Hd', Hg |- *.
  destruct (m (db r)) as [o d]. cbn in *. split; [split; [by exists []|]|split; [done|split; [|done]]].
  - intros p Hp. exists p. split; [done|lia].
  - intros (c & Hc & Ha)%Hi. destruct (Hg c Hc) as (c' & Hc' & [= _ _ Hk'] & _).
    exists c'. split; [done|congruence].
Qed.

Lemma op_pure {A} (P : Registrar → Prop) (m : stm Registrar A) (Q : A → Registrar → Prop) :
  (∀ r, (m r).2 = r) → (∀ r a, P r → (m r).1 = Ok a → Q a r) → op_spec P m Q.
Proof using Type. intros Hs HQ r HP Hd Hi. rewrite Hs. split_and!; [done..|]. eauto. Qed.

Lemma op_persist E request status force now P :
  op_spec P (persist_network_permission_checkpoint E request status force None now)
    (λ '(cp, _) r, cp ∈ network_permission_checkpoints (db r)
                   ∧ np_agent_did cp = rq_agent_did request).
Proof using Type.
  intros r HP Hd Hi.
  assert (op_spec P (persist_network_permission_checkpoint E request status force None now)
            (λ _ _, True)) as Hop.
  { eapply op_bind with (Q := λ _ _, True); [by apply op_pure|]. intros ex. cbv zeta.
    case_match; [by apply op_pure|].
    eapply op_bind; [apply op_db, update_permission_keeps|]. intros a. by apply op_pure. }
  destruct (Hop r HP Hd Hi) as (W & D & I & _). split_and!; [done..|].
  intros [cp ch] Ho. destruct (persist_network_permission_checkpoint _ _ _ _ _ _ r) as [o r'] eqn:Hrun.
  cbn in Ho. subst o. apply persist_permission_ok in Hrun as (_ & _ & Hcp & Hk & _); [|done].
  injection Hk as _ _ Ha. done.
Qed.

Lemma op_push E changed cp clk :
  np_agent_did cp = me →
  op_spec (λ r, cp ∈ network_permission_checkpoints (db r)) (push_if E changed cp clk) (λ _ _, True).
Proof using Type.
  intros Ha r Hcp Hd Hi.
  assert (waits r (push_if E changed cp clk r).2) as Hw.
  { rewrite /push_if /push_network_permission_checkpoint /deliver /schedule_network_permission_retry.
    cbv [mbind stm_bind modify mret stm_ret]. destruct changed; [|done].
    destruct (network_permission_update _ _ _) as [u|]; cbn.
    - destruct (su_update E u); cbn; split; cbn; try (by exists []); try (by exists [u]).
      + intros p Hp. exists p. split; [done|lia].
      + intros p ->. eexists. split; [done|lia].
    - split; cbn; [by exists []|]. intros p ->. eexists. split; [done|lia]. }
  split_and!; [done|by rewrite push_keeps_db| |done].
  intros _. exists cp. by rewrite push_keeps_db.
Qed.

(** The two ends of a registration, for the node's own agent. *)
Lemma op_finish E request status force now A (reply : NetworkPermissionCheckpoint → bool → A) :
  rq_agent_did request = me →
  op_spec (λ _, True)
    ('(checkpoint, changed) ← persist_network_permission_checkpoint E request status force None now;
     sent ← push_if E changed checkpoint (shift 2 (su_clock E));
     mret (reply checkpoint sent)) (λ _ _, True).
Proof using Type.
  intros Ha. eapply op_bind; [apply op_persist|]. intros [cp ch].
  eapply op_bind with (Q := λ _ _, True); [|intros; by apply op_pure].
  intros r [Hcp Hag] Hd Hi. apply op_push; [congruence|done..].
Qed.

Lemma op_fact {A} (φ : Prop) (m : stm Registrar A) Q :
  (φ → op_spec (λ _, True) m Q) → op_spec (λ _, φ) m Q.
Proof using Type. intros Hm r Hφ. by apply Hm. Qed.

Lemma op_apply E payload :
  su_agent_did E = me → op_spec (λ _, True) (apply_registration_record E payload) (λ _ _, True).
Proof.
  intros He. eapply op_bind with (Q := λ _ _, True); [by apply op_pure|]. intros request.
  eapply op_bind with (Q := λ _ _, rq_agent_did request = me).
  { apply op_pure; [by intros r; rewrite /ensure; case_match|]. intros r [] _.
    rewrite /ensure. by destruct (String.eqb_spec (rq_agent_did request) (su_agent_did E)); [rewrite -He|]. }
  intros []. apply op_fact. intros Ha.
  eapply op_bind with (Q := λ _ _, True); [by apply op_pure|]. intros _.
  eapply op_bind with (Q := λ _ _, True); [by apply op_pure|]. intros status.
  case_match.
  - eapply op_bind; [apply op_db, update_status_keeps|]. intros st. by apply op_finish.
  - eapply op_bind with (Q := λ _ _, True); [by apply op_pure|]. intros raw.
    eapply op_bind with (Q := λ _ _, True); [by apply op_pure|]. intros c.
    eapply op_bind with (Q := λ _ _, True); [by apply op_pure|]. intros anchor.
    eapply op_bind; [apply op_db, store_membership_keeps|]. intros ch. by apply op_finish.
Qed.

(** One round of the retry task. *)
Lemma retry_round_cases E clk r :
  su_agent_did E = me → retry_inv r →
  let r' := (retry_round E clk r).2 in
  ((∃ u, delivered r' = u :: delivered r
         ∧ ∀ p, retry_revision r = Some p →
             p ≤ np_revision (pu_checkpoint u) ∨ retry_revision r' = Some p)
   ∨ delivered r' = delivered r ∧ (is_Some (retry_revision r) → retry_revision r' = retry_revision r))
  ∧ (retry_revision r' = None ∨ retry_revision r' = retry_revision r).
Proof using Type.
  intros He Hi. rewrite /retry_round He.
  destruct (load_network_permission_checkpoint (db r) me None None) as [c|] eqn:Hl.
  - destruct (network_permission_update (db r) c clk) as [u|] eqn:Hu; cbn; [|by split; right].
    rewrite /deliver. destruct (su_update E u); cbn; [|by split; right].
    assert (pu_checkpoint u = c) as Hc.
    { revert Hu. rewrite /network_permission_update. intros Hu.
      apply result_bind_ok in Hu as (v & _ & Hu). apply result_bind_ok in Hu as (anc & _ & [= <-]). done. }
    rewrite /finish_network_permission_retry /=.
    destruct (retry_revision r) as [p|] eqn:Hp; cbn.
    + destruct (Z.ltb_spec (np_revision c) p); cbn.
      * split; [left; exists u; split; [done|]; intros p' [= <-]; by right|by right].
      * split; [left; exists u; split; [done|]; intros p' [= <-]; left; by rewrite Hc|by left].
    + split; [by left; exists u|by left].
  - rewrite /finish_network_permission_retry. cbn.
    split; [right; split; [done|]|by left]. intros Hp. exfalso.
    destruct (Hi Hp) as (c & Hc & Ha). apply latest_None in Hl.
    assert (c ∈ @nil NetworkPermissionCheckpoint) as []%elem_of_nil.
    rewrite -Hl. apply elem_of_filterb. split; [done|]. by rewrite Ha String.eqb_refl.
Qed.

Lemma step_state r r' :
  reg_step me r r' → db_ok (db r) → retry_inv r →
  db_ok (db r') ∧ retry_inv r' ∧ ∃ new, delivered r' = new ++ delivered r.
Proof.
  intros [E payload He|E clk He] Hd Hi.
  - by destruct (op_apply E payload He r I Hd Hi) as ([? _] & ? & ? & _).
  - destruct (retry_round_cases E clk r He Hi) as [Hc Hr]. rewrite retry_keeps_db. split; [done|].
    split; [|destruct Hc as [(u & -> & _)|[-> _]]; [by exists [u]|by exists []]].
    rewrite /retry_inv retry_keeps_db. destruct Hr as [-> | ->]; [by intros []%is_Some_None|done].
Qed.

Lemma steps_state r r' :
  rtc (reg_step me) r r' → db_ok (db r) → retry_inv r →
  db_ok (db r') ∧ retry_inv r' ∧ ∃ new, delivered r' = new ++ delivered r.
Proof.
  induction 1 as [r|r r1 r2 Hs _ IH]; intros Hd Hi; [by split_and!; [done..|exists []]|].
  destruct (step_state r r1 Hs Hd Hi) as (Hd1 & Hi1 & n1 & E1).
  destruct (IH Hd1 Hi1) as (Hd2 & Hi2 & n2 & E2). split_and!; [done..|].
  exists (n2 ++ n1). by rewrite E2 E1 app_assoc.
Qed.

(** Since [r], an update of at least revision [p] was taken by the swarm. *)
Definition taken_since (r r' : Registrar) (p : Z) : Prop :=
  ∃ new u, delivered r' = new ++ delivered r ∧ u ∈ new ∧ p ≤ np_revision (pu_checkpoint u).

Lemma waiting_superseded r r' p :
  rtc (reg_step me) r r' → db_ok (db r) → retry_inv r → retry_revision r = Some p →
  (∃ p', retry_revision r' = Some p' ∧ p ≤ p') ∨ taken_since r r' p.
Proof.
  intros Hrtc. revert p. induction Hrtc as [r|r r1 r2 Hs Hrest IH]; intros p Hd Hi Hp.
  { left. exists p. split; [done|lia]. }
  destruct (step_state r r1 Hs Hd Hi) as (Hd1 & Hi1 & n1 & E1).
  assert ((∃ p1, retry_revision r1 = Some p1 ∧ p ≤ p1) ∨ taken_since r r1 p) as [(p1 & Hp1 & Hle)|Ht].
  { destruct Hs as [E payload He|E clk He].
    - left. destruct (op_apply E payload He r I Hd Hi) as ([_ Hw] & _). by apply Hw.
    - destruct (retry_round_cases E clk r He Hi) as [[(u & Hu & Hcase)|[_ Hsame]] _].
      + destruct (Hcase p Hp) as [Hle|Hsame]; [right|left; exists p; split; [done|lia]].
        exists [u], u. split; [done|]. split; [by left|done].
      + left. exists p. rewrite Hsame; [split; [done|lia]|by rewrite Hp]. }
  - destruct (IH p1 Hd1 Hi1 Hp1) as [(p2 & ? & ?)|(n2 & u & E2 & Hu & Hr)].
    + left. exists p2. split; [done|lia].
    + right. exists (n2 ++ n1), u. split; [by rewrite E2 E1 app_assoc|].
      split; [apply elem_of_app; by left|lia].
  - right. destruct Ht as (n & u & E2 & Hu & Hr).
    destruct (steps_state r1 r2 Hrest Hd1 Hi1) as (_ & _ & n2 & E3).
    exists (n2 ++ n), u. split; [by rewrite E3 E2 app_assoc|]. split; [apply elem_of_app; by right|done].
Qed.

End runs.

(** C37: a retry may never end. When the newest checkpoint of the agent has a
    lower revision than the delivery that waits, which is the case after the
    agent moves from one network to another, every round hands the same update
    to the swarm again, and however many rounds were made the task goes on. *)
Theorem retry_never_ends E clk r c u p n :
  load_network_permission_checkpoint (db r) (su_agent_did E) None None = Some c →
  network_permission_update (db r) c clk = Ok u → su_update E u = Ok tt →
  retry_revision r = Some p → np_revision c < p →
  let later := Nat.iter n (λ r, (retry_round E clk r).2) r in
  delivered later = replicate n u ++ delivered r ∧ (retry_round E clk later).1 = Ok true.
Proof using Type.
  intros Hl Hu Hs Hp Hlt.
  assert (∀ r1, db r1 = db r → retry_revision r1 = Some p →
    retry_round E clk r1 = (Ok true, r1 <| delivered ::= cons u |>)) as Hround.
  { intros r1 Hd1 Hp1. rewrite /retry_round Hd1 Hl Hu /deliver Hs /finish_network_permission_retry /=.
    by rewrite Hp1 (proj2 (Z.ltb_lt _ _) Hlt). }
  assert (∀ k, let later := Nat.iter k (λ r, (retry_round E clk r).2) r in
    db later = db r ∧ retry_revision later = Some p ∧ delivered later = replicate k u ++ delivered r)
    as Hall.
  { induction k as [|k (G1 & G2 & G3)]; [done|]. cbn. rewrite Hround //=. split_and!; [done..|].
    by rewrite G3. }
  destruct (Hall n) as (G1 & G2 & G3). cbv zeta. split; [done|]. by rewrite Hround.
Qed.

(** ** Starting the network *)

(** C23: a node joins a network only on the word of its anchor. When the
    credential of an agent passes the check made at network start, it is the
    newest stored for it, active and not expired, it names this agent, it
    carries no unsigned fields, and there are a key certificate that verifies
    under the stored trust anchor of that network and the credential's own
    signature that verifies under the certified key. *)
Theorem network_start_trusted d agent network clk r c :
  verify_membership_credential_for_network_start d agent (Some network) clk = Ok (Some (r, c)) →
  r ∈ network_agent_credentials d ∧ credential_key r = (network, agent)
  ∧ um_network_id (unsigned c) = network ∧ um_agent_did (unsigned c) = agent
  ∧ cr_status r = "active" ∧ expired (um_expires_at_ms (unsigned c)) (clk 0%nat) = false
  ∧ um_extensions (unsigned c) = []
  ∧ ∃ text anchor k cert_bytes bytes,
      cr_trust_anchor_json r = Some text ∧ anchor_of_text text = Ok anchor
      ∧ ta_network_id anchor = network
      ∧ um_issuer_key_certificate (unsigned c) = Some k
      ∧ kc_network_id (ak_unsigned k) = network
      ∧ expired (kc_expires_at_ms (ak_unsigned k)) (clk 1%nat) = false
      ∧ certificate_signing_bytes (ak_unsigned k) = Ok cert_bytes
      ∧ verify_detached_signature
          (mkDetached (ta_signature_algorithm anchor) (ta_public_key_encoding anchor)
             (ta_public_key anchor) (ak_signature_encoding k) (ak_signature k)) cert_bytes = Ok tt
      ∧ credential_signing_bytes c = Ok bytes
      ∧ verify_detached_signature
          (mkDetached (kc_signature_algorithm (ak_unsigned k)) (kc_public_key_encoding (ak_unsigned k))
             (kc_public_key (ak_unsigned k)) "hex" (signature_hex c)) bytes = Ok tt.
Proof using Type.
  rewrite /verify_membership_credential_for_network_start. intros Hv.
  apply result_bind_ok in Hv as ([[r0 c0]|] & Hl & Hv); [|done].
  apply result_bind_ok in Hv as (text & Htext%ok_or_ok & Hv).
  apply result_bind_ok in Hv as (anchor & Hanchor%with_context_ok & Hv).
  apply result_bind_ok in Hv as ([] & Hsig & [= -> ->]).
  rewrite /load_valid_membership_credential in Hl.
  destruct (load_network_agent_credential d agent (Some network)) as [r1|] eqn:Hr; [|done].
  apply load_credential_inv in Hr as [Hin Hk].
  destruct (negb _ || _) eqn:Hact; [done|]. apply orb_false_iff in Hact as [Ha He].
  apply negb_false_iff, String.eqb_eq in Ha.
  apply result_bind_ok in Hl as (c1 & _ & Hl). cbv zeta in Hl.
  destruct (_ && _) eqn:Hvalid in Hl; [|done]. injection Hl as -> ->.
  rewrite !andb_true_iff !String.eqb_eq !bool_decide_eq_true in Hvalid.
  destruct Hvalid as [[[[[_ Hn] Hg] _] Hx] _]. injection Hk as Hk1 Hk2.
  rewrite /verify_membership_credential_signature in Hsig.
  apply result_bind_ok in Hsig as ([] & Hext%ensure_ok_ok & Hsig).
  apply result_bind_ok in Hsig as (k & Hcert%ok_or_ok & Hsig).
  apply result_bind_ok in Hsig as ([] & Hm%ensure_ok_ok & Hsig).
  apply result_bind_ok in Hsig as ([] & Hexp%ensure_ok_ok & Hsig).
  apply result_bind_ok in Hsig as (b1 & Hb1 & Hsig).
  apply result_bind_ok in Hsig as ([] & Hs1%with_context_ok & Hsig).
  apply result_bind_ok in Hsig as (alg & Halg%ok_or_ok & Hsig).
  apply result_bind_ok in Hsig as (b2 & Hb2 & Hs2%with_context_ok).
  rewrite !andb_true_iff !String.eqb_eq !bool_decide_eq_true in Hm.
  destruct Hm as [[[[[[M1 M2] M3] M4] M5] M6] M7]. rewrite Halg in M7. injection M7 as <-.
  rewrite M5 in Hs1. rewrite /credential_key.
  split_and!; [done|congruence..|done|by rewrite Hx|by destruct (um_extensions _)|].
  exists text, anchor, k, b1, b2. split_and!; try done; try congruence.
  by apply negb_true_iff in Hexp.
Qed.
End membership.

(** ** An agent that changes its network *)

Module MembershipScenario.
Import Demo.

#[local] Instance unsigned_certificate_eq_dec : EqDecision UnsignedAuthorityKeyCertificate.
Proof. solve_decision. Defined.
#[local] Instance certificate_eq_dec : EqDecision AuthorityKeyCertificate.
Proof. solve_decision. Defined.
#[local] Instance unsigned_eq_dec : EqDecision UnsignedMembershipCredential.
Proof. solve_decision. Defined.
#[local] Instance credential_eq_dec : EqDecision MembershipCredential.
Proof. solve_decision. Defined.
#[local] Instance anchor_eq_dec : EqDecision NetworkCredentialTrustAnchor.
Proof. solve_decision. Defined.

Definition me : string := "did:key:me".
Definition me_key : string := fit 32 me.

Definition certificate (network : string) : AuthorityKeyCertificate :=
  mkCertificate (mkUnsignedCertificate 1 network "registry" "key-1" "ed25519" "hex" "pk" "anchor" 1 None)
    "ed25519" "hex" "signed".
Definition membership (network : string) : MembershipCredential :=
  mkCredential
    (mkUnsignedCredential 1 ("cred-" +:+ network) network me "registry" 1 None (Some "key-1")
       (Some "ed25519") (Some (certificate network)) []) "signed".
Definition anchor (network : string) : NetworkCredentialTrustAnchor :=
  mkAnchor network "anchor" "ed25519" "hex" "root".

Definition unsigned_request (network : string) : RegistrationRequest :=
  mkRegistrationRequest 1 ("request-" +:+ network) network me "Me" None None None "nonce" "".
Definition request (network : string) : RegistrationRequest :=
  let r := unsigned_request network in
  mkRegistrationRequest 1 ("request-" +:+ network) network me "Me" None None None "nonce"
    (match request_signing_bytes r with Ok b => fit 64 (me_key +:+ b) | Err _ => "" end).

Definition networks : list string := ["a"; "b"].

(** A codec for the values of this scenario. *)
#[export] Instance scenario_lib : CredentialLib := {|
  verify_detached_signature s _ := if String.eqb (ds_signature s) "signed" then Ok tt else Err "forged";
  did_key_ed25519 did := Ok (fit 32 did);
  credential_to_text c :=
    ok_or "unknown" (find_first (λ n, bool_decide (c = membership n)) networks);
  credential_of_text s :=
    ok_or "unknown" (membership <$> find_first (String.eqb s) networks);
  anchor_to_text a := ok_or "unknown" (find_first (λ n, bool_decide (a = anchor n)) networks);
  anchor_of_text s := ok_or "unknown" (anchor <$> find_first (String.eqb s) networks);
  request_of_json v := ok_or "unknown" (request <$> as_str v);
  credential_of_json v := ok_or "unknown" (membership <$> as_str v);
|}.

Lemma find_network {A} (f : string → A) `{EqDecision A} a s :
  find_first (λ n, bool_decide (a = f n)) networks = Some s →
  f <$> find_first (String.eqb s) networks = Some a.
Proof.
  intros [Hs%bool_decide_eq_true Hin]%find_first_Some. subst a.
  rewrite /networks in Hin. apply elem_of_cons in Hin as [->|Hin]; [done|].
  apply elem_of_cons in Hin as [->|Hin]; [done|by apply elem_of_nil in Hin].
Qed.

#[export] Instance scenario_laws : CredentialLibLaws.
Proof.
  split; intros x s Hx; rewrite /= in Hx |- *; apply ok_or_ok in Hx; apply find_network in Hx;
    by rewrite Hx.
Qed.

Definition surroundings (network : string) (now : Z) (swarm : result unit) : Surroundings :=
  mkSurroundings me (Ok "node-1") (Ok (anchor network)) (λ _, swarm) (λ _, now).
Definition answer (network status : string) : json :=
  JObject [("request", JString network); ("status", JString status); ("credential", JString network)].
Definition applied (network status : string) (now : Z) (swarm : result unit) (r : Registrar) : Registrar :=
  (apply_registration_record (surroundings network now swarm) (answer network status) r).2.

Definition moved1 : Registrar := applied "a" "approved" 10 (Err "down") new_registrar.
Definition moved2 : Registrar := applied "a" "disabled" 20 (Err "down") moved1.
Definition moved3 : Registrar := applied "b" "approved" 30 (Ok tt) moved2.

Lemma reach1 : rtc (reg_step me) new_registrar moved1.
Proof.
  apply rtc_once.
  exact (step_apply me _ (surroundings "a" 10 (Err "down")) (answer "a" "approved") eq_refl).
Qed.
Lemma reach12 : rtc (reg_step me) moved1 moved2.
Proof.
  apply rtc_once.
  exact (step_apply me _ (surroundings "a" 20 (Err "down")) (answer "a" "disabled") eq_refl).
Qed.
Lemma reach23 : rtc (reg_step me) moved2 moved3.
Proof.
  apply rtc_once.
  exact (step_apply me _ (surroundings "b" 30 (Ok tt)) (answer "b" "approved") eq_refl).
Qed.

Lemma reach2 : rtc (reg_step me) new_registrar moved2.
Proof. etrans; [exact reach1|exact reach12]. Qed.
Lemma reach13 : rtc (reg_step me) moved1 moved3.
Proof. etrans; [exact reach12|exact reach23]. Qed.

Definition blank_permission : NetworkPermissionCheckpoint := mkPermission "" "" "" "" "" 0 None 0.
Definition blank_reply : registration_reply := ("", false, blank_permission, false).
Definition reply3 : registration_reply :=
  match (apply_registration_record (surroundings "b" 30 (Ok tt)) (answer "b" "approved") moved2).1 with
  | Ok x => x
  | Err _ => blank_reply
  end.

Lemma registration_decides_witness :
  apply_registration_record (surroundings "b" 30 (Ok tt)) (answer "b" "approved") moved2
    = (Ok reply3, moved3)
  ∧ ∃ request, decode_request (answer "b" "approved") = Ok request ∧ rq_agent_did request = me.
Proof.
  assert (apply_registration_record (surroundings "b" 30 (Ok tt)) (answer "b" "approved") moved2
          = (Ok reply3, moved3)) as Hrun by (vm_compute; reflexivity).
  split; [exact Hrun|].
  pose proof (registration_decides me (surroundings "b" 30 (Ok tt)) (answer "b" "approved") moved2
                reply3 moved3 reach2 Hrun) as Hdec.
  destruct reply3 as [[[status stored] cp] sent].
  destruct Hdec as (request & H1 & H2 & _). exists request. split; [exact H1|exact H2].
Defined.

Definition first_permission (r : Registrar) : NetworkPermissionCheckpoint :=
  default blank_permission (head (network_permission_checkpoints (db r))).

Lemma permission_revisions_grow_witness :
  first_permission moved1 ∈ network_permission_checkpoints (db moved1)
  ∧ ∃ c', load_network_permission_checkpoint (db moved3) (np_agent_did (first_permission moved1))
            (Some (np_network_id (first_permission moved1)))
            (Some (np_node_id (first_permission moved1))) = Some c'
      ∧ np_revision c' ≤ i64_max.
Proof.
  assert (network_permission_checkpoints (db moved1) !! 0%nat = Some (first_permission moved1)) as Hl
    by (vm_compute; reflexivity).
  apply list_elem_of_lookup_2 in Hl.
  destruct (permission_revisions_grow me moved1 moved3 (first_permission moved1) reach1
              reach13 Hl) as (c' & H1 & _ & H3).
  split; [exact Hl|]. exists c'. split; [exact H1|exact H3].
Defined.


Definition newest3 : NetworkPermissionCheckpoint :=
  default blank_permission (load_network_permission_checkpoint (db moved3) me None None).
Definition update3 : NetworkPermissionUpdate :=
  match network_permission_update (db moved3) newest3 (λ _, 40) with
  | Ok u => u
  | Err _ => mkUpdate blank_permission None None None None
  end.

(** The agent left network a, where its second revision was never delivered,
    for network b, where its first one is: the task that waits for revision 2
    hands revision 1 to the swarm for ever. *)
Lemma retry_never_ends_witness :
  np_network_id newest3 = "b"
  ∧ (retry_round (surroundings "b" 40 (Ok tt)) (λ _, 40)
       (Nat.iter 1000 (λ r, (retry_round (surroundings "b" 40 (Ok tt)) (λ _, 40) r).2) moved3)).1
    = Ok true.
Proof.
  split; [vm_compute; reflexivity|].
  refine (proj2 (retry_never_ends (surroundings "b" 40 (Ok tt)) (λ _, 40) moved3 newest3 update3 2 1000
                   _ _ _ _ _)).
  - vm_compute. reflexivity.
  - vm_compute. reflexivity.
  - reflexivity.
  - vm_compute. reflexivity.
  - vm_compute. reflexivity.
Defined.

Definition row3 : NetworkAgentCredentialRecord :=
  default (mkCredentialRecord "" "" "" "" "" None "" "" 0 None 0 0)
    (load_network_agent_credential (db moved3) me (Some "b")).

Lemma network_start_trusted_witness :
  verify_membership_credential_for_network_start (db moved3) me (Some "b") (λ _, 40)
    = Ok (Some (row3, membership "b"))
  ∧ cr_status row3 = "active".
Proof.
  assert (verify_membership_credential_for_network_start (db moved3) me (Some "b") (λ _, 40)
          = Ok (Some (row3, membership "b"))) as Hv by (vm_compute; reflexivity).
  split; [exact Hv|].
  destruct (network_start_trusted (db moved3) me "b" (λ _, 40) row3 (membership "b") Hv)
    as (_ & _ & _ & _ & Ha & _).
  exact Ha.
Defined.
End MembershipScenario.
