(* ===== verification/Credentials.v ===== *)
(** * Custody of credentials

    [K/network/credentials.rs] and [P/routes/credentials.rs]: the store of
    third-party credentials of the Runtime Agent, of Service Agents and of
    Providers, and the handlers that import, list and delete them. A record is
    one file in the directory of its binding; a directory is named by a hash of
    the binding. The credential types and their checks are those of the crates
    watt_credential and watt_did; the files are a map from directory and name to
    what they decode to, and are locked during an operation. *)

From S2P Require Import Prelude Collections Text Json Sql Signing Hashcash Admission Identities.
#[local] Open Scope Z_scope.

Definition CREDENTIAL_ROOT : string := ".agent-identity/credentials".
Definition PROVIDER_CREDENTIAL_ROOT : string := ".provider-identity/credentials".
Definition MAX_CREDENTIAL_BYTES : nat := Z.to_nat (512 * 1024).

Inductive AgentCredentialOwnerKind := Runtime | Provider | ServiceAgent.
#[global] Instance owner_kind_eq_dec : EqDecision AgentCredentialOwnerKind.
Proof. solve_decision. Defined.

Record AgentCredentialBinding := mkBinding {
  owner_kind : AgentCredentialOwnerKind;
  service_agent_identity_id : option string;
  owner_did : string;
}.
#[global] Instance binding_eq_dec : EqDecision AgentCredentialBinding.
Proof. solve_decision. Defined.

(** [watt_credential::CredentialEnvelope] *)
Record CredentialEnvelope := mkEnvelope {
  en_format : string;
  en_media_type : option string;
  en_payload : bytes;
}.
#[global] Instance envelope_eq_dec : EqDecision CredentialEnvelope.
Proof. solve_decision. Defined.

(** What the store uses of the two crates. *)
Class CredentialTypes := {
  VerifiedContext : Type;
  TrustAnchor : Type;
  did_parse : string → result unit;
  envelope_sha256 : CredentialEnvelope → string;
  cx_proof_valid : VerifiedContext → bool;
  cx_evidence_sha256 : VerifiedContext → string;
  cx_original_sha256 : VerifiedContext → string;
  cx_original_format : VerifiedContext → string;
  cx_validate : VerifiedContext → result unit;
  cx_subject_ids : VerifiedContext → list string;
  cx_active : VerifiedContext → bool;
  cx_trusted : VerifiedContext → bool;
  anchor_id : TrustAnchor → string;
  anchor_validate : TrustAnchor → result unit;
}.

(** A digest is 64 lower-case hexadecimal digits, and a DID has no bar. *)
Class CredentialTypesLaws `{CredentialTypes} : Prop := {
  digest_length e : length (to_bytes (envelope_sha256 e)) = 64%nat;
  digest_hex e : forallb is_ascii_hexdigit (to_bytes (envelope_sha256 e)) = true;
  digest_lower e : to_ascii_lowercase (envelope_sha256 e) = envelope_sha256 e;
  did_no_bar d : did_parse d = Ok tt → "|"%char ∉ to_bytes d;
}.

Section credentials.
Context `{Crypto} `{CredentialTypes}.

Definition validate (b : AgentCredentialBinding) : result unit :=
  _ ← with_context "parse credential owner DID" (did_parse (owner_did b));
  match owner_kind b, service_agent_identity_id b with
  | Runtime, None | Provider, None => Ok tt
  | ServiceAgent, Some id =>
      if negb (is_blank id) && negb (existsb is_control (utf8_chars (to_bytes id))) then Ok tt
      else Err "Service Agent credential binding requires a Service Agent identity ID"
  | Runtime, Some _ | Provider, Some _ =>
      Err "Runtime and Provider credential bindings cannot include a Service Agent identity ID"
  | ServiceAgent, None => Err "Service Agent credential binding requires a Service Agent identity ID"
  end.

Definition validated (b : AgentCredentialBinding) : result AgentCredentialBinding :=
  _ ← validate b; Ok b.
Definition runtime (did : string) : result AgentCredentialBinding :=
  validated (mkBinding Runtime None did).
Definition provider (did : string) : result AgentCredentialBinding :=
  validated (mkBinding Provider None did).
Definition service_agent (id did : string) : result AgentCredentialBinding :=
  validated (mkBinding ServiceAgent (Some id) did).

Definition owner_name (k : AgentCredentialOwnerKind) : string :=
  match k with Runtime => "runtime" | Provider => "provider" | ServiceAgent => "service_agent" end.

Definition storage_text (b : AgentCredentialBinding) : string :=
  owner_name (owner_kind b) +:+ "|" +:+ default "" (service_agent_identity_id b) +:+ "|"
    +:+ owner_did b.
Definition storage_key (b : AgentCredentialBinding) : string := sha256_hex (storage_text b).

Inductive AgentCredentialVerification :=
  | Pending (reason : string)
  | Verified (context : VerifiedContext).

Record AgentCredentialRecord := mkRecord {
  cd_credential_id : string;
  cd_binding : AgentCredentialBinding;
  cd_envelope : CredentialEnvelope;
  cd_imported_at : Z;
  cd_verification : AgentCredentialVerification;
}.

Definition verification_status (r : AgentCredentialRecord) : string :=
  match cd_verification r with
  | Pending _ => "pending"
  | Verified c => if cx_active c && cx_trusted c then "trusted"
                  else if cx_active c then "untrusted" else "inactive"
  end.

(** The files: a record is [None] when its file does not decode. *)
Record CredentialFiles := mkFiles {
  files : gmap (string * string) (option AgentCredentialRecord);
  anchors_file : option (option (list TrustAnchor));
}.
#[local] Instance eta_files : Eta CredentialFiles := λ s, mkFiles (files s) (anchors_file s).

Definition binding_directory (b : AgentCredentialBinding) : string :=
  match owner_kind b with Provider => PROVIDER_CREDENTIAL_ROOT | _ => CREDENTIAL_ROOT end
    +:+ "/records/" +:+ storage_key b.

Definition record_path (b : AgentCredentialBinding) (credential_id : string)
    : result (string * string) :=
  digest ← ok_or "credential_id must be sha256:<64 lowercase hex characters>"
    (option_filter (λ v, (length v =? 64)%nat && forallb is_ascii_hexdigit v)
       (strip_prefix (to_bytes "sha256:") (to_bytes credential_id)));
  Ok (binding_directory b, to_ascii_lowercase (of_bytes digest) +:+ ".json").

Definition credential_id (e : CredentialEnvelope) : string := "sha256:" +:+ envelope_sha256 e.

Definition validate_envelope (e : CredentialEnvelope) : result unit :=
  _ ← ensure_ok (negb (is_blank (en_format e))) "credential format is required";
  _ ← ensure_ok (negb (length (en_payload e) =? 0)%nat) "credential payload is required";
  ensure_ok (length (en_payload e) <=? MAX_CREDENTIAL_BYTES)%nat "credential payload exceeds 524288 bytes".

Definition validate_verified_context (b : AgentCredentialBinding) (e : CredentialEnvelope)
    (c : VerifiedContext) : result unit :=
  _ ← ensure_ok (cx_proof_valid c) "verified credential context must contain a valid proof outcome";
  _ ← ensure_ok (String.eqb (cx_evidence_sha256 c) (envelope_sha256 e)
                 && String.eqb (cx_original_sha256 c) (envelope_sha256 e)
                 && String.eqb (cx_original_format c) (en_format e))
        "verified credential context does not match the original credential artifact";
  _ ← with_context "validate canonical credential" (cx_validate c);
  ensure_ok (existsb (λ id, String.eqb id (owner_did b)) (cx_subject_ids c))
    ("verified credential subject does not contain owner DID '" +:+ owner_did b +:+ "'").

Fixpoint validate_trust_anchors_from (seen : gset string) (anchors : list TrustAnchor) : result unit :=
  match anchors with
  | [] => Ok tt
  | a :: anchors' =>
      _ ← with_context "validate credential trust anchor" (anchor_validate a);
      if bool_decide (anchor_id a ∈ seen)
      then Err ("duplicate credential trust anchor id '" +:+ anchor_id a +:+ "'")
      else validate_trust_anchors_from ({[anchor_id a]} ∪ seen) anchors'
  end.
Definition validate_trust_anchors : list TrustAnchor → result unit := validate_trust_anchors_from ∅.

Definition read_record (file : option AgentCredentialRecord) : result AgentCredentialRecord :=
  ok_or "parse Agent credential" file.

Definition import_pending (b : AgentCredentialBinding) (e : CredentialEnvelope) (now : Z)
    : stm CredentialFiles AgentCredentialRecord :=
  lift (validate b);;
  lift (validate_envelope e);;
  path ← lift (record_path b (credential_id e));
  found ← gets (λ s, files s !! path);
  match found with
  | Some file =>
      existing ← lift (read_record file);
      ensure (bool_decide (cd_binding existing = b) && bool_decide (cd_envelope existing = e))
        "credential digest collides with a different stored credential";;
      mret existing
  | None =>
      let record := mkRecord (credential_id e) b e now
                      (Pending "no credential adapter has verified this artifact yet") in
      modify (λ s, s <| files ::= <[path := Some record]> |>);;
      mret record
  end.

Definition store_verified (b : AgentCredentialBinding) (e : CredentialEnvelope) (c : VerifiedContext)
    (now : Z) : stm CredentialFiles AgentCredentialRecord :=
  lift (validate b);;
  lift (validate_envelope e);;
  lift (validate_verified_context b e c);;
  path ← lift (record_path b (credential_id e));
  found ← gets (λ s, files s !! path);
  imported_at ← lift (match found with
                      | Some file => cd_imported_at <$> read_record file
                      | None => Ok now
                      end);
  let record := mkRecord (credential_id e) b e imported_at (Verified c) in
  modify (λ s, s <| files ::= <[path := Some record]> |>);;
  mret record.

(** The files of a directory. *)
Definition directory (dir : string) (s : CredentialFiles) : list (option AgentCredentialRecord) :=
  snd <$> List.filter (λ p : (string * string) * option AgentCredentialRecord, String.eqb p.1.1 dir)
            (map_to_list (files s)).

Definition list_records (b : AgentCredentialBinding) (s : CredentialFiles)
    : result (list AgentCredentialRecord) :=
  _ ← validate b;
  records ← collect (λ file,
    r ← read_record file;
    _ ← ensure_ok (bool_decide (cd_binding r = b)) "stored credential binding does not match its directory";
    Ok r) (directory (binding_directory b) s);
  Ok (order_by [desc_Z cd_imported_at; asc_str cd_credential_id] records).

Definition delete_record (b : AgentCredentialBinding) (id : string) : stm CredentialFiles bool :=
  lift (validate b);;
  path ← lift (record_path b id);
  found ← gets (λ s, files s !! path);
  match found with
  | None => mret false
  | Some file =>
      r ← lift (read_record file);
      ensure (bool_decide (cd_binding r = b) && String.eqb (cd_credential_id r) id)
        "stored credential does not match delete request";;
      modify (λ s, s <| files ::= delete path |>);;
      mret true
  end.

Definition load_trust_anchors (s : CredentialFiles) : result (list TrustAnchor) :=
  match anchors_file s with
  | None => Ok []
  | Some file =>
      anchors ← ok_or "parse credential trust anchors" file;
      _ ← validate_trust_anchors anchors;
      Ok anchors
  end.

Definition replace_trust_anchors (anchors : list TrustAnchor) : stm CredentialFiles unit :=
  lift (validate_trust_anchors anchors);;
  modify (λ s, s <| anchors_file := Some (Some anchors) |>).

(** The import handler, after [authorize]: status and body as a result. *)
Definition import_credential (b : AgentCredentialBinding) (format : string) (media_type : option string)
    (payload : bytes) (now : Z) : stm CredentialFiles AgentCredentialRecord :=
  let format := trim format in
  ensure (negb (String.eqb format "" || (80 <? String.length format)%nat))
    "format must contain 1 to 80 characters";;
  let media_type := option_filter (λ v, negb (String.eqb v "")) (option_map trim media_type) in
  import_pending b (mkEnvelope format media_type payload) now.

(** ** What the files hold *)

Record record_ok (r : AgentCredentialRecord) : Prop := {
  rk_binding : validate (cd_binding r) = Ok tt;
  rk_envelope : validate_envelope (cd_envelope r) = Ok tt;
  rk_id : cd_credential_id r = credential_id (cd_envelope r);
  rk_verified c : cd_verification r = Verified c →
    validate_verified_context (cd_binding r) (cd_envelope r) c = Ok tt;
}.

Definition store_ok (s : CredentialFiles) : Prop :=
  ∀ path file, files s !! path = Some file →
    ∃ r, file = Some r ∧ record_ok r ∧ record_path (cd_binding r) (cd_credential_id r) = Ok path.

(** The operations that write. *)
Inductive credential_op : Type :=
  | Import (b : AgentCredentialBinding) (e : CredentialEnvelope) (now : Z)
  | Verify (b : AgentCredentialBinding) (e : CredentialEnvelope) (c : VerifiedContext) (now : Z)
  | Remove (b : AgentCredentialBinding) (id : string)
  | Trust (anchors : list TrustAnchor).

Definition run_credential_op (o : credential_op) (s : CredentialFiles) : CredentialFiles :=
  match o with
  | Import b e now => exec (import_pending b e now) s
  | Verify b e c now => exec (store_verified b e c now) s
  | Remove b id => exec (delete_record b id) s
  | Trust anchors => exec (replace_trust_anchors anchors) s
  end.

Lemma insert_store_ok s path r :
  store_ok s → record_ok r → record_path (cd_binding r) (cd_credential_id r) = Ok path →
  store_ok (s <| files ::= <[path := Some r]> |>).
Proof using Type.
  intros Hs Hr Hp path' file. cbn. intros [[<- <-]|[_ Hf]]%lookup_insert_Some; eauto.
Qed.

Lemma run_import_inv b e now s r s' :
  import_pending b e now s = (Ok r, s') →
  ∃ path, validate b = Ok tt ∧ validate_envelope e = Ok tt ∧ record_path b (credential_id e) = Ok path
  ∧ ((files s !! path = Some (Some r) ∧ cd_binding r = b ∧ cd_envelope r = e ∧ s' = s)
     ∨ (files s !! path = None
        ∧ r = mkRecord (credential_id e) b e now
                (Pending "no credential adapter has verified this artifact yet")
        ∧ s' = s <| files ::= <[path := Some r]> |>)).
Proof using Type.
  intros Hrun. rewrite /import_pending in Hrun.
  apply bind_ok_inv in Hrun as ([] & ? & [Hb ->]%lift_ok_inv & Hrun).
  apply bind_ok_inv in Hrun as ([] & ? & [He ->]%lift_ok_inv & Hrun).
  apply bind_ok_inv in Hrun as (path & ? & [Hp ->]%lift_ok_inv & Hrun).
  apply bind_ok_inv in Hrun as (found & ? & [= <- <-] & Hrun).
  exists path. split_and!; [done..|]. destruct (files s !! path) as [file|] eqn:Hf.
  - left. apply bind_ok_inv in Hrun as (x & ? & [Hx%ok_or_inv ->]%lift_ok_inv & Hrun).
    apply bind_ok_inv in Hrun as ([] & ? & [Hg ->]%ensure_ok_inv & [= <- <-]).
    apply andb_true_iff in Hg as [Hg1%bool_decide_eq_true Hg2%bool_decide_eq_true]. by subst file.
  - right. apply bind_ok_inv in Hrun as ([] & ? & [= <-] & [= <- <-]). done.
Qed.

Lemma run_op_err {A} (m : stm CredentialFiles A) s :
  (∀ a s', m s = (Ok a, s') → store_ok s') → (∀ e s', m s = (Err e, s') → s' = s) →
  store_ok s → store_ok (exec m s).
Proof using Type.
  intros Hok Herr Hs. rewrite /exec. destruct (m s) as [[a|e] s'] eqn:E; cbn; [eauto|].
  by rewrite (Herr e s' eq_refl).
Qed.

Lemma run_verify_inv b e c now s r s' :
  store_verified b e c now s = (Ok r, s') →
  ∃ path at_, validate b = Ok tt ∧ validate_envelope e = Ok tt
  ∧ validate_verified_context b e c = Ok tt ∧ record_path b (credential_id e) = Ok path
  ∧ at_ = match files s !! path with Some (Some old) => cd_imported_at old | _ => now end
  ∧ r = mkRecord (credential_id e) b e at_ (Verified c) ∧ s' = s <| files ::= <[path := Some r]> |>.
Proof using Type.
  intros Hrun. rewrite /store_verified in Hrun.
  apply bind_ok_inv in Hrun as ([] & ? & [Hb ->]%lift_ok_inv & Hrun).
  apply bind_ok_inv in Hrun as ([] & ? & [He ->]%lift_ok_inv & Hrun).
  apply bind_ok_inv in Hrun as ([] & ? & [Hc ->]%lift_ok_inv & Hrun).
  apply bind_ok_inv in Hrun as (path & ? & [Hp ->]%lift_ok_inv & Hrun).
  apply bind_ok_inv in Hrun as (found & ? & [= <- <-] & Hrun).
  apply bind_ok_inv in Hrun as (at_ & ? & [Ha ->]%lift_ok_inv & Hrun).
  apply bind_ok_inv in Hrun as ([] & ? & [= <-] & [= <- <-]).
  exists path, at_. split_and!; try done.
  destruct (files s !! path) as [[old|]|]; cbn in Ha; congruence.
Qed.

Lemma run_delete_inv b id s ok s' :
  delete_record b id s = (Ok ok, s') →
  ∃ path, validate b = Ok tt ∧ record_path b id = Ok path
  ∧ ((files s !! path = None ∧ ok = false ∧ s' = s)
     ∨ (∃ r, files s !! path = Some (Some r) ∧ cd_binding r = b ∧ cd_credential_id r = id ∧ ok = true
             ∧ s' = s <| files ::= delete path |>)).
Proof using Type.
  intros Hrun. rewrite /delete_record in Hrun.
  apply bind_ok_inv in Hrun as ([] & ? & [Hb ->]%lift_ok_inv & Hrun).
  apply bind_ok_inv in Hrun as (path & ? & [Hp ->]%lift_ok_inv & Hrun).
  apply bind_ok_inv in Hrun as (found & ? & [= <- <-] & Hrun).
  exists path. split_and!; [done..|]. destruct (files s !! path) as [file|] eqn:Hf.
  - right. apply bind_ok_inv in Hrun as (x & ? & [Hx%ok_or_inv ->]%lift_ok_inv & Hrun).
    apply bind_ok_inv in Hrun as ([] & ? & [Hg ->]%ensure_ok_inv & Hrun).
    apply bind_ok_inv in Hrun as ([] & ? & [= <-] & [= <- <-]).
    apply andb_true_iff in Hg as [Hg1%bool_decide_eq_true Hg2%String.eqb_eq]. exists x. by subst file.
  - left. by injection Hrun as <- <-.
Qed.

(** A refused operation writes nothing. *)
Lemma refused_unchanged s :
  (∀ b e now err s', import_pending b e now s = (Err err, s') → s' = s)
  ∧ (∀ b e c now err s', store_verified b e c now s = (Err err, s') → s' = s)
  ∧ (∀ b id err s', delete_record b id s = (Err err, s') → s' = s)
  ∧ (∀ anchors err s', replace_trust_anchors anchors s = (Err err, s') → s' = s).
Proof using Type.
  split_and!; intros *; rewrite /import_pending /store_verified /delete_record /replace_trust_anchors;
    cbv [mbind stm_bind lift gets ensure modify mret stm_ret]; intros Hrun;
    repeat (case_match; simplify_eq/=; try done).
Qed.

Lemma run_credential_op_ok o s : store_ok s → store_ok (run_credential_op o s).
Proof using Type.
  destruct (refused_unchanged s) as (Hi & Hv & Hd & Ht).
  destruct o as [b e now|b e c now|b id|anchors]; cbn [run_credential_op]; intros Hs;
    apply run_op_err; eauto.
  - intros r s' (path & Hb & He & Hp & [(_ & _ & _ & ->)|(_ & -> & ->)])%run_import_inv; [done|].
    by apply insert_store_ok.
  - intros r s' (path & at_ & Hb & He & Hc & Hp & _ & -> & ->)%run_verify_inv.
    apply insert_store_ok; [done| |done]. split; try done. by intros c' [= <-].
  - intros ok s' (path & Hb & Hp & [(_ & _ & ->)|(r & _ & _ & _ & _ & ->)])%run_delete_inv; [done|].
    intros path' file. cbn. intros [_ Hf]%lookup_delete_Some. eauto.
  - intros [] s' Hrun. rewrite /replace_trust_anchors in Hrun.
    by apply bind_ok_inv in Hrun as ([] & ? & [_ ->]%lift_ok_inv & [= <-]).
Qed.

(** ** Directories and names determine what is in them *)

Context `{!CredentialTypesLaws}.

Lemma record_path_of e b :
  record_path b (credential_id e) = Ok (binding_directory b, envelope_sha256 e +:+ ".json").
Proof using Type*.
  rewrite /record_path /credential_id to_bytes_app.
  rewrite (proj2 (strip_prefix_Some _ _ (to_bytes (envelope_sha256 e))) eq_refl).
  cbn [option_filter]. rewrite digest_length digest_hex /=.
  by rewrite String.string_of_list_ascii_of_string digest_lower.
Qed.

(** Two owners whose texts have the same digest are the same owner. *)
Hypothesis owners_distinct : ∀ b b', storage_key b = storage_key b' → storage_text b = storage_text b'.

Lemma owner_name_no_bar k : "|"%char ∉ to_bytes (owner_name k).
Proof using Type. by destruct k; apply (bool_decide_eq_true_1 _). Qed.

Lemma storage_text_inj b b' :
  validate b = Ok tt → validate b' = Ok tt → storage_text b = storage_text b' → b = b'.
Proof using Type*.
  assert (∀ b, validate b = Ok tt → did_parse (owner_did b) = Ok tt) as Hdid.
  { intros x Hx. rewrite /validate in Hx. apply result_bind_ok in Hx as ([] & Hx & _).
    by apply with_context_ok_inv in Hx. }
  intros Hb Hb' Heq. apply (f_equal to_bytes) in Heq. rewrite /storage_text !to_bytes_app in Heq.
  pose proof (did_no_bar _ (Hdid b Hb)) as Hn. pose proof (did_no_bar _ (Hdid b' Hb')) as Hn'.
  apply split_at_inj in Heq as [Hk Heq]; [|apply owner_name_no_bar..].
  apply (f_equal reverse) in Heq.
  assert (∀ l r : bytes, reverse (l ++ "|"%char :: r) = reverse r ++ "|"%char :: reverse l) as Hrev
    by (intros l r; by rewrite reverse_app reverse_cons -app_assoc).
  rewrite !Hrev in Heq. apply split_at_inj in Heq as [Hd%(inj reverse) Hi%(inj reverse)];
    [|by rewrite elem_of_reverse..].
  apply to_bytes_inj in Hk, Hd, Hi. destruct b as [k id did], b' as [k' id' did'].
  cbn in Hk, Hd, Hi. subst did'.
  assert (k = k') as <- by by destruct k, k'.
  f_equal. clear -Hi Hb Hb'. rewrite /validate /= in Hb, Hb'.
  apply result_bind_ok in Hb as (_ & _ & Hb). apply result_bind_ok in Hb' as (_ & _ & Hb').
  by destruct k, id as [id|], id' as [id'|]; try done; f_equal.
Qed.

Lemma binding_directory_inj b b' :
  validate b = Ok tt → validate b' = Ok tt → binding_directory b = binding_directory b' → b = b'.
Proof using Type*.
  intros Hb Hb' Heq. apply storage_text_inj; [done..|]. apply owners_distinct.
  apply to_bytes_inj. apply (f_equal to_bytes) in Heq.
  rewrite /binding_directory !to_bytes_app in Heq.
  destruct (owner_kind b), (owner_kind b'); cbn in Heq; simplify_eq; done.
Qed.

(** A record of an owner is among the files. *)
Definition stored (s : CredentialFiles) (b : AgentCredentialBinding) (r : AgentCredentialRecord) : Prop :=
  cd_binding r = b ∧ ∃ path, files s !! path = Some (Some r).

Lemma stored_path s b r :
  store_ok s → stored s b r →
  files s !! (binding_directory b, envelope_sha256 (cd_envelope r) +:+ ".json") = Some (Some r).
Proof using Type*.
  intros Hs (<- & path & Hf). destruct (Hs path _ Hf) as (r' & [= <-] & Hr & Hp).
  rewrite (rk_id r Hr) record_path_of in Hp. by injection Hp as <-.
Qed.

Lemma elem_of_directory dir s file :
  file ∈ directory dir s ↔ ∃ name, files s !! (dir, name) = Some file.
Proof using Type.
  rewrite /directory list_elem_of_fmap. split.
  - intros ([[dir' name] f] & -> & [Hin Hd%String.eqb_eq]%elem_of_filterb). cbn in Hd. subst dir'.
    exists name. by apply elem_of_map_to_list.
  - intros [name Hf]. exists ((dir, name), file). split; [done|]. apply elem_of_filterb.
    split; [by apply elem_of_map_to_list|apply String.eqb_refl].
Qed.

Lemma collect_ok {A B} (f : A → result B) l :
  (∀ x, x ∈ l → ∃ y, f x = Ok y) →
  ∃ ys, collect f l = Ok ys ∧ ∀ y, y ∈ ys ↔ ∃ x, x ∈ l ∧ f x = Ok y.
Proof using Type.
  induction l as [|x l IH]; intros Hl.
  { exists []. split; [done|]. intros y. split; [by intros ?%elem_of_nil|].
    by intros (x & []%elem_of_nil & _). }
  destruct (Hl x) as [y Hy]; [by left|]. destruct IH as (ys & Hys & Hin); [intros z Hz; apply Hl; by right|].
  exists (y :: ys). cbn. rewrite Hy /= Hys. split; [done|]. intros z. rewrite elem_of_cons Hin. split.
  - intros [->|(w & Hw & Hz)]; [exists x; split; [by left|done]|exists w; split; [by right|done]].
  - intros (w & [->|Hw]%elem_of_cons & Hz); [left; congruence|eauto].
Qed.

Lemma list_records_spec s b :
  store_ok s → validate b = Ok tt →
  ∃ l, list_records b s = Ok l ∧ (∀ r, r ∈ l ↔ stored s b r)
       ∧ StronglySorted (λ x y, compare_by [desc_Z cd_imported_at; asc_str cd_credential_id] x y ≠ Gt) l.
Proof using Type*.
  intros Hs Hb. rewrite /list_records Hb /=.
  destruct (collect_ok (λ file,
    r ← read_record file;
    _ ← ensure_ok (bool_decide (cd_binding r = b)) "stored credential binding does not match its directory";
    Ok r) (directory (binding_directory b) s)) as (rs & Hrs & Hin).
  { intros file (name & Hf)%elem_of_directory. destruct (Hs _ _ Hf) as (r & -> & Hr & Hp).
    rewrite (rk_id r Hr) record_path_of in Hp. injection Hp as Hd _.
    apply binding_directory_inj in Hd; [|apply Hr|done].
    exists r. cbn. by rewrite bool_decide_eq_true_2. }
  exists (order_by [desc_Z cd_imported_at; asc_str cd_credential_id] rs). rewrite Hrs. split; [done|]. split.
  - intros r. rewrite elem_of_order_by Hin. split.
    + intros (file & [name Hf]%elem_of_directory & Hr). destruct file as [r'|]; [|done]. cbn in Hr.
      apply result_bind_ok in Hr as ([] & Heq%ensure_ok_ok%bool_decide_eq_true & [= <-]).
      split; [done|eauto].
    + intros Hr. exists (Some r). split.
      * apply elem_of_directory. eexists. by apply stored_path.
      * destruct Hr as [Hr _]. cbn. by rewrite bool_decide_eq_true_2.
  - apply (order_by_sorted [desc_Z cd_imported_at; asc_str cd_credential_id] rs).
    repeat constructor; apply desc_Z_order || apply asc_str_order.
Qed.

(** ** Theorems *)

(** What a credential that counts as trusted was checked for. *)
Definition trustworthy (b : AgentCredentialBinding) (r : AgentCredentialRecord) : Prop :=
  ∃ c, cd_verification r = Verified c ∧ cx_proof_valid c = true ∧ cx_validate c = Ok tt
    ∧ cx_active c = true ∧ cx_trusted c = true
    ∧ cx_evidence_sha256 c = envelope_sha256 (cd_envelope r)
    ∧ cx_original_sha256 c = envelope_sha256 (cd_envelope r) ∧ owner_did b ∈ cx_subject_ids c.

Lemma trusted_trustworthy r :
  record_ok r → verification_status r = "trusted" → trustworthy (cd_binding r) r.
Proof using Type.
  intros Hr. rewrite /verification_status. destruct (cd_verification r) as [|c] eqn:Hv; [done|].
  destruct (cx_active c && cx_trusted c) eqn:Ht; [|by case_match].
  apply andb_true_iff in Ht as [Ha Ht]. intros _. exists c.
  pose proof (rk_verified r Hr c Hv) as Hc. rewrite /validate_verified_context in Hc.
  apply result_bind_ok in Hc as ([] & Hp%ensure_ok_ok & Hc).
  apply result_bind_ok in Hc as ([] & He%ensure_ok_ok & Hc).
  apply result_bind_ok in Hc as ([] & Hx%with_context_ok_inv & Hc%ensure_ok_ok).
  apply andb_true_iff in He as [He _]. apply andb_true_iff in He as [He1%String.eqb_eq He2%String.eqb_eq].
  apply existsb_elem_of in Hc as (id & Hid & <-%String.eqb_eq). done.
Qed.


(** Where a record is, and what a write or a removal there does. *)
Definition path_of (r : AgentCredentialRecord) : string * string :=
  (binding_directory (cd_binding r), envelope_sha256 (cd_envelope r) +:+ ".json").

Lemma stored_at s path r : store_ok s → files s !! path = Some (Some r) → path = path_of r.
Proof using Type*.
  intros Hs Hf. destruct (Hs path _ Hf) as (r' & [= <-] & Hr & Hp).
  rewrite (rk_id r Hr) record_path_of in Hp. by injection Hp as <-.
Qed.

Lemma stored_insert s v b' x :
  store_ok s →
  stored (s <| files ::= <[path_of v := Some v]> |>) b' x
  ↔ (x = v ∧ b' = cd_binding v) ∨ (files s !! path_of v ≠ Some (Some x) ∧ stored s b' x).
Proof using Type*.
  intros Hs. rewrite /stored /=. split.
  - intros (<- & path & [[<- [= <-]]|[Hne Hf]]%lookup_insert_Some); [by left|]. right.
    split; [|eauto]. intros Hx. apply Hne. rewrite (stored_at s path x) // (stored_at s (path_of v) x) //.
  - intros [[-> ->]|(Hne & <- & path & Hf)].
    + split; [done|]. exists (path_of v). apply lookup_insert_eq.
    + split; [done|]. exists path. rewrite lookup_insert_ne //. by intros <-.
Qed.

Lemma stored_delete s path b' x :
  store_ok s →
  stored (s <| files ::= delete path |>) b' x ↔ files s !! path ≠ Some (Some x) ∧ stored s b' x.
Proof using Type*.
  intros Hs. rewrite /stored /=. split.
  - intros (<- & path' & [Hne Hf]%lookup_delete_Some). split; [|eauto].
    intros Hx. apply Hne. rewrite (stored_at s path x) // (stored_at s path' x) //.
  - intros (Hne & <- & path' & Hf). split; [done|]. exists path'. rewrite lookup_delete_ne //. by intros <-.
Qed.

(** An import that finds the record of its path gives it back. *)
Lemma import_again b e later s r :
  validate b = Ok tt → validate_envelope e = Ok tt → cd_binding r = b → cd_envelope r = e →
  files s !! path_of r = Some (Some r) → import_pending b e later s = (Ok r, s).
Proof using Type*.
  intros Hb He <- <- Hf. rewrite /import_pending. cbv [mbind stm_bind lift gets ensure mret stm_ret].
  rewrite Hb He record_path_of. fold (path_of r). rewrite Hf. cbn. by rewrite !bool_decide_eq_true_2.
Qed.

(** A credential is kept from its import to its removal. After an import
    it is listed under its owner, once; importing it again changes nothing, not
    even after it was verified; what others have is as before; and removing it
    takes away that credential and nothing else. *)
Theorem credential_lifecycle s b e now r s1 :
  store_ok s → import_pending b e now s = (Ok r, s1) →
  (∀ b' x, stored s1 b' x ↔ x = r ∧ b' = b ∨ stored s b' x)
  ∧ (∀ later, import_pending b e later s1 = (Ok r, s1))
  ∧ (∀ c later v s2, store_verified b e c later s1 = (Ok v, s2) →
       cd_imported_at v = cd_imported_at r ∧ import_pending b e later s2 = (Ok v, s2)
       ∧ ∀ b' x, stored s2 b' x ↔ x = v ∧ b' = b ∨ (x ≠ r ∧ stored s1 b' x))
  ∧ ∃ s2, delete_record b (cd_credential_id r) s1 = (Ok true, s2)
      ∧ delete_record b (cd_credential_id r) s2 = (Ok false, s2)
      ∧ ∀ b' x, stored s2 b' x ↔ x ≠ r ∧ stored s1 b' x.
Proof using Type*.
  intros Hs Hrun. assert (store_ok s1) as Hs1.
  { pose proof (run_credential_op_ok (Import b e now) s Hs) as Ho. by rewrite /= /exec Hrun in Ho. }
  apply run_import_inv in Hrun as (path & Hb & He & Hp & Hcase).
  rewrite record_path_of in Hp. injection Hp as <-.
  assert (cd_binding r = b ∧ cd_envelope r = e ∧ files s1 !! path_of r = Some (Some r)) as (Hrb & Hre & Hf1).
  { destruct Hcase as [(Hf & Hrb & Hre & ->)|(_ & -> & ->)].
    - split_and!; [done..|]. by rewrite /path_of Hrb Hre.
    - split_and!; [done..|]. apply lookup_insert_eq. }
  assert (cd_credential_id r = credential_id e) as Hid.
  { destruct (Hs1 _ _ Hf1) as (r' & [= <-] & Hr & _). by rewrite (rk_id r Hr) Hre. }
  assert ((binding_directory b, envelope_sha256 e +:+ ".json") = path_of r) as Hpath
    by by rewrite /path_of Hrb Hre.
  split_and!.
  - intros b' x. rewrite Hpath in Hcase. destruct Hcase as [(Hf & _ & _ & ->)|(Hf & Heq & ->)].
    + split; [by right|]. intros [[-> ->]|Hx]; [|done]. by split; [|eauto].
    + rewrite stored_insert // Hf Hrb. split; [|by intros [?|?]; [left|right]]. by intros [?|[_ ?]]; [left|right].
  - intros later. by apply import_again.
  - intros c later v s2 Hv. pose proof (run_credential_op_ok (Verify b e c later) s1 Hs1) as Hs2.
    rewrite /= /exec Hv in Hs2. apply run_verify_inv in Hv as (path & at_ & _ & _ & _ & Hp & Hat & Hv & ->).
    rewrite record_path_of Hpath in Hp. injection Hp as <-. rewrite Hf1 in Hat.
    assert (path_of v = path_of r) as Hpv by by rewrite Hv /path_of /= Hrb Hre.
    split_and!.
    + by rewrite Hv.
    + apply import_again; [done|done|by rewrite Hv|by rewrite Hv|]. rewrite Hpv. apply lookup_insert_eq.
    + intros b' x. rewrite -Hpv stored_insert // Hpv Hf1.
      assert (cd_binding v = b) as -> by by rewrite Hv. split; intros [?|[Hne ?]]; auto; right; split;
        congruence || done.
  - exists (s1 <| files ::= delete (path_of r) |>). split_and!.
    + rewrite /delete_record Hid. cbv [mbind stm_bind lift gets ensure modify mret stm_ret].
      rewrite Hb record_path_of Hpath Hf1. cbn. by rewrite bool_decide_eq_true_2 // Hid String.eqb_refl.
    + rewrite /delete_record Hid. cbv [mbind stm_bind lift gets ensure modify mret stm_ret].
      rewrite Hb record_path_of Hpath. cbn. by rewrite lookup_delete_eq.
    + intros b' x. rewrite stored_delete // Hf1. split; intros [Hne ?]; split; congruence || done.
Qed.
End credentials.

Module CredentialScenario.
(** A hash that is its own input, and digests of one repeated digit. *)
#[local] Instance plain : Crypto := {|
  jcs_to_string _ := Ok "";
  sha256_hex s := s;
  base64_decode := Some;
  did_key_public_key_b64 := Ok;
  verifying_key_from_bytes _ := Ok tt;
  ed25519_verify _ _ _ := true;
|}.

Definition digest (e : CredentialEnvelope) : string :=
  of_bytes (replicate 64 (if Nat.even (length (en_payload e)) then "a"%char else "1"%char)).

#[local] Instance types : CredentialTypes := {|
  VerifiedContext := CredentialEnvelope * list string;
  TrustAnchor := string;
  did_parse d := ensure_ok (String.prefix "did:" d && negb (bool_decide ("|"%char ∈ to_bytes d))) "not a DID";
  envelope_sha256 := digest;
  cx_proof_valid _ := true;
  cx_evidence_sha256 c := digest c.1;
  cx_original_sha256 c := digest c.1;
  cx_original_format c := en_format c.1;
  cx_validate _ := Ok tt;
  cx_subject_ids := snd;
  cx_active _ := true;
  cx_trusted _ := true;
  anchor_id a := a;
  anchor_validate _ := Ok tt;
|}.
#[local] Instance types_laws : CredentialTypesLaws.
Proof.
  split.
  - intros e. change (envelope_sha256 e) with (digest e). rewrite /digest.
    by destruct (Nat.even (length (en_payload e))).
  - intros e. change (envelope_sha256 e) with (digest e). rewrite /digest.
    by destruct (Nat.even (length (en_payload e))).
  - intros e. change (envelope_sha256 e) with (digest e). rewrite /digest.
    by destruct (Nat.even (length (en_payload e))).
  - intros d Hd%ensure_ok_ok. apply andb_true_iff in Hd as [_ Hd].
    by apply negb_true_iff, bool_decide_eq_false in Hd.
Qed.

Lemma distinct b b' : storage_key b = storage_key b' → storage_text b = storage_text b'.
Proof. done. Qed.

Definition owner : AgentCredentialBinding := mkBinding ServiceAgent (Some "sid-1") "did:key:z1".
Definition passport : CredentialEnvelope := mkEnvelope "w3c_vc_json" None (to_bytes "{}").

Definition verified : @VerifiedContext types := (passport, ["did:key:z1"]).

Definition blank : AgentCredentialRecord := mkRecord "" owner passport 0 (Pending "").
Definition imported : CredentialFiles := exec (import_pending owner passport 10) (mkFiles ∅ None).
Definition record1 : AgentCredentialRecord :=
  match outcome (import_pending owner passport 10) (mkFiles ∅ None) with Ok r => r | Err _ => blank end.


Lemma credential_lifecycle_witness : import_pending owner passport 99 imported = (Ok record1, imported).
Proof.
  assert (import_pending owner passport 10 (mkFiles ∅ None) = (Ok record1, imported)) as Hrun by reflexivity.
  refine (proj1 (proj2 (credential_lifecycle distinct (mkFiles ∅ None) owner passport 10 record1 imported
    _ Hrun)) 99).
  intros path file. by rewrite lookup_empty.
Defined.

(** An identifier in capitals passes the check of its form, but names no record. *)
Example capitals_not_deleted :
  outcome (delete_record owner ("sha256:" +:+ to_ascii_uppercase (digest passport))) imported
  = Err "stored credential does not match delete request".
Proof. vm_compute. reflexivity. Qed.
End CredentialScenario.
