(* ===== verification/LedgerClient.v ===== *)
(** * The client of the Watt ledger

    [crates/control-plane/src/ledger_client.rs]: the requests a node sends to the
    gateway's ledger and how it reads the answers. The ledger itself and the HTTP
    transport are not part of the repository: a request is answered by a
    transport error or by a status with a JSON body. *)

From S2P Require Import Prelude Collections Text Json Signing Hashcash Admission.
#[local] Open Scope Z_scope.
#[local] Set Default Proof Using "Type*".

(** [reqwest]'s status text and [serde_json]'s printer. *)
Class HttpText := {
  status_text : Z → string;
  value_to_string : json → string;
}.

(** What comes back: the error of the transport, or a status and a body. *)
Definition http_answer : Type := string + (Z * json).

Definition is_success (status : Z) : bool := (200 <=? status) && (status <? 300).
Definition is_client_error (status : Z) : bool := (400 <=? status) && (status <? 500).

(** ** Errors *)

Inductive LedgerError :=
  | InsufficientBalance (message : string)
  | NotFound (message : string)
  | Rejected (status : Z) (message : string)
  | Unavailable (error : string).

Definition ledger_result (A : Type) : Type := LedgerError + A.

Section client.
Context `{HttpText}.

Definition ledger_error_to_string (e : LedgerError) : string :=
  match e with
  | InsufficientBalance message | NotFound message => message
  | Rejected status message =>
      "ledger rejected request (" +:+ status_text status +:+ "): " +:+ message
  | Unavailable error => "ledger unavailable: " +:+ error
  end.

Definition error_message (body : json) : string :=
  default (value_to_string body) (json_get "error" body ≫= as_str).

(** [post_signed], from what [post_signed_raw] returned. *)
Definition post_signed (a : http_answer) : ledger_result json :=
  match a with
  | inl error => inl (Unavailable error)
  | inr (status, body) =>
      if is_success status then inr body
      else if status =? 402 then inl (InsufficientBalance (error_message body))
      else if status =? 404 then inl (NotFound (error_message body))
      else inl (Rejected status (error_message body))
  end.

(** [escrow], from the answer to the lookup. *)
Definition escrow (a : http_answer) : ledger_result (option json) :=
  match a with
  | inl error => inl (Unavailable error)
  | inr (status, body) =>
      if is_success status then inr (Some body)
      else if status =? 404 then inr None
      else inl (Rejected status (error_message body))
  end.

(** A read through [error_for_status], which fails on the statuses 400 to 599; a
    body that is not JSON counts as an error of the transport. *)
Definition read_ok (what : string) (a : http_answer) : result json :=
  match a with
  | inl error => Err ("query ledger " +:+ what)
  | inr (status, body) =>
      if (400 <=? status) && (status <? 600)
      then Err ("ledger " +:+ what +:+ " returned error status")
      else Ok body
  end.

Definition balance (a : http_answer) : result Z :=
  account ← read_ok "account" a;
  ok_or "ledger balance response has no balance" (json_get "balance" account ≫= as_i64).

Definition balances (a : http_answer) : result (list (string * Z)) :=
  body ← read_ok "balances" a;
  match json_get "balances" body with
  | Some (JObject o) => Ok ((λ '(id, v), (id, default 0 (as_i64 v))) <$> o)
  | _ => Err "ledger balances response has no balances"
  end.

Definition escrows (a : http_answer) : result (list json) :=
  body ← read_ok "escrows" a;
  Ok (match json_get "escrows" body with Some (JArray l) => l | _ => [] end).

Definition claim_welcome (a : http_answer) : result json :=
  match a with
  | inl _ => Err "claim ledger welcome bonus"
  | inr (status, body) =>
      if is_success status then Ok body
      else Err ("ledger welcome claim rejected (" +:+ status_text status +:+ "): "
                +:+ error_message body)
  end.
End client.

(** ** Balances shown to the agent *)

Record WattBalance := mkWattBalance { watt : Z; available : bool }.
Definition UNAVAILABLE : WattBalance := mkWattBalance 0 false.

Definition watt_balance (ledger : option string) (answer : http_answer) : WattBalance :=
  match ledger with
  | None => UNAVAILABLE
  | Some _ => match balance answer with Ok b => mkWattBalance b true | Err _ => UNAVAILABLE end
  end.

Definition watt_balances (ledger : option string) (account_ids : list string)
    (answer : http_answer) : list (string * Z) :=
  match ledger, account_ids with
  | None, _ | _, [] => []
  | Some _, _ :: _ => match balances answer with Ok b => b | Err _ => [] end
  end.

(** ** Where the ledger is *)

(** [str::trim_end_matches('/')]. *)
Fixpoint drop_slashes (l : bytes) : bytes :=
  match l with
  | c :: l' => if Ascii.eqb c "/"%char then drop_slashes l' else l
  | [] => []
  end.

Definition strip_suffix (suffix l : bytes) : option bytes :=
  reverse <$> strip_prefix (reverse suffix) (reverse l).

Definition INGEST_SUFFIXES : list string := ["/api/ingest/snapshot"; "/api/ingest/event"].

Definition ledger_base_url (gateway_url : string) : string :=
  let base := reverse (drop_slashes (reverse (to_bytes gateway_url))) in
  of_bytes (foldl (λ base suffix, default base (strip_suffix (to_bytes suffix) base))
              base INGEST_SUFFIXES).

(** [LedgerClient::from_state], with whether the HTTP client can be built. *)
Definition from_state (client_builds : bool) (gateway_urls : list string) : option string :=
  gateway_url ← head gateway_urls;
  if client_builds then Some (ledger_base_url gateway_url) else None.

Example base_url_snapshot :
  ledger_base_url "https://gw.example/api/ingest/snapshot" = "https://gw.example".
Proof. reflexivity. Qed.
Example base_url_event :
  ledger_base_url "https://gw.example/api/ingest/event/" = "https://gw.example".
Proof. reflexivity. Qed.
Example base_url_plain : ledger_base_url "http://127.0.0.1:8080/" = "http://127.0.0.1:8080".
Proof. reflexivity. Qed.

(** ** Requests *)

(** The requests on mission bounties; the two labels of a lock are the payer's
    name and the subject. *)
Inductive LedgerRequest :=
  | LockEscrow (escrow_id payer : string) (amount : Z) (reference : string)
      (payer_label subject : option string) (issued_at_ms : Z)
  | ReadEscrow (escrow_id : string)
  | ReleaseEscrow (escrow_id payer payee : string) (payee_label : option string)
      (issued_at_ms : Z)
  | RefundEscrow (escrow_id payer : string) (issued_at_ms : Z).

Definition request_path (r : LedgerRequest) : string :=
  match r with
  | LockEscrow _ _ _ _ _ _ _ => "/api/ledger/escrows"
  | ReadEscrow id => "/api/ledger/escrows/" +:+ id
  | ReleaseEscrow id _ _ _ _ => "/api/ledger/escrows/" +:+ id +:+ "/release"
  | RefundEscrow id _ _ => "/api/ledger/escrows/" +:+ id +:+ "/refund"
  end.

(** The payload that is signed; a lookup has none. *)
Definition request_payload (r : LedgerRequest) : option json :=
  match r with
  | LockEscrow id payer amount reference payer_label subject at_ms =>
      Some (JObject [("escrow_id", JString id); ("payer", JString payer);
        ("amount", json_of_Z amount); ("reference", JString reference);
        ("payer_label", json_of_option JString payer_label);
        ("subject", json_of_option JString subject); ("issued_at_ms", json_of_Z at_ms)])
  | ReadEscrow _ => None
  | ReleaseEscrow id payer payee payee_label at_ms =>
      Some (JObject [("escrow_id", JString id); ("payer", JString payer);
        ("payee", JString payee); ("payee_label", json_of_option JString payee_label);
        ("issued_at_ms", json_of_Z at_ms)])
  | RefundEscrow id payer at_ms =>
      Some (JObject [("escrow_id", JString id); ("payer", JString payer);
        ("issued_at_ms", json_of_Z at_ms)])
  end.

(** ** Transfers *)

Section transfers.
Context `{Crypto, Digest, Hex}.

Definition scoped_transfer_id (payer_did transfer_id : string) : ledger_result string :=
  match PublicId.fingerprint_from_did_key payer_did with
  | Ok fingerprint => inr (fingerprint +:+ ":" +:+ transfer_id)
  | Err error => inl (Unavailable ("payer DID has no fingerprint: " +:+ error))
  end.

Lemma fingerprint_colon_free `{!HexLaws} did fp :
  PublicId.fingerprint_from_did_key did = Ok fp → colon_free fp.
Proof.
  rewrite /PublicId.fingerprint_from_did_key /PublicId.public_key_fingerprint.
  intros (k & _ & (pk & _ & [= <-])%result_bind_ok)%result_bind_ok.
  rewrite /colon_free => Hin.
  pose proof (hex_digits (take PublicId.FINGERPRINT_BYTES (sha256_digest pk))) as Hd.
  rewrite forallb_forall in Hd. specialize (Hd ":"%char).
  apply list_elem_of_In in Hin. by apply Hd in Hin.
Qed.

(** The ledger's ids are global: two transfers share one only when the payers
    share a fingerprint and the callers chose the same id. *)
Lemma scoped_transfer_id_inj `{!HexLaws} d1 d2 t1 t2 id :
  scoped_transfer_id d1 t1 = inr id → scoped_transfer_id d2 t2 = inr id →
  PublicId.fingerprint_from_did_key d1 = PublicId.fingerprint_from_did_key d2 ∧ t1 = t2.
Proof.
  rewrite /scoped_transfer_id.
  destruct (PublicId.fingerprint_from_did_key d1) as [f1|] eqn:E1; [|done].
  destruct (PublicId.fingerprint_from_did_key d2) as [f2|] eqn:E2; [|done].
  intros [= <-] [= Heq]. apply colon_join_inj in Heq as [-> ->]; eauto using fingerprint_colon_free.
Qed.
End transfers.

(** Ledger answers that mean that no Watt was moved. *)
Definition ledger_outcome_is_definitive (e : LedgerError) : bool :=
  match e with
  | InsufficientBalance _ | NotFound _ => true
  | Rejected status _ => is_client_error status
  | Unavailable _ => false
  end.

Lemma definitive_iff `{HttpText} a e :
  post_signed a = inl e →
  ledger_outcome_is_definitive e = true ↔ ∃ status body, a = inr (status, body)
    ∧ is_client_error status = true.
Proof.
  destruct a as [err|[status body]]; cbn [post_signed].
  - intros [= <-]. split; [done|]. by intros (? & ? & ? & ?).
  - destruct (is_success status) eqn:Es; [done|].
    destruct (Z.eqb_spec status 402) as [->|]; [|destruct (Z.eqb_spec status 404) as [->|]];
      intros [= <-]; cbn [ledger_outcome_is_definitive]; split; eauto; by intros (? & ? & [= -> ->] & ?).
Qed.
