(* ===== verification/RegistryClient.v ===== *)
(** * Registering with a registry

    The client half of [crates/control-plane/src/routes/network.rs]: the signed
    request of an agent, the registries a node knows, submitting or polling a
    registration and applying the first answer that is about this agent, and the
    reservation of a nickname. The answers of the registries are arguments. *)

From S2P Require Import Prelude Collections Text Json Sql Signing Membership LedgerClient.
#[local] Open Scope Z_scope.
#[local] Set Default Proof Using "Type*".

(** ** Registries *)

Definition REGISTRY_API_ROUTE : string := "/v1".

Definition registry_base_url (base_url : string) : option string :=
  let base := reverse (drop_slashes (reverse (trim_bytes (to_bytes base_url)))) in
  let route := to_bytes REGISTRY_API_ROUTE in
  if match base with [] => true | _ => false end
     || contains_text (to_bytes "/api/network/discovery") base then None
  else
    match strip_suffix (to_bytes "/v1/nodes/discovery") base with
    | Some b => Some (of_bytes (b ++ route))
    | None =>
        match strip_suffix (to_bytes "/v1/nodes") base with
        | Some b => Some (of_bytes (b ++ route))
        | None =>
            match strip_suffix route base with
            | Some _ => Some (of_bytes base)
            | None => Some (of_bytes (base ++ route))
            end
        end
    end.

(** The urls of the first file that has any, normalized, without repetition. *)
Definition normalize_urls (candidates : list string) : list string :=
  foldl (λ acc c, match registry_base_url c with
                  | Some url => if existsb (String.eqb url) acc then acc else acc ++ [url]
                  | None => acc
                  end) [] candidates.

Definition load_registry_urls (state_file local_file : option (result (list string)))
    : result (list string) :=
  first ← match state_file with Some r => r | None => Ok [] end;
  candidates ← match first, local_file with
               | [], Some r => r
               | _, _ => Ok first
               end;
  Ok (normalize_urls candidates).

Definition registration_route (authority : json) : result string :=
  let mode := to_ascii_lowercase (default "manual" (get_str "registration_mode" authority)) in
  if String.eqb mode "auto" then Ok "/registrations/auto"
  else if String.eqb mode "manual" then Ok "/registrations/manual"
  else if String.eqb mode "disabled" then Err "Registry registration is disabled"
  else Err ("Registry returned unsupported registration mode '" +:+ mode +:+ "'").

Record RegistryRegistrationResult := mkRegistryResult { rg_request_id : string; rg_status : string }.

Definition is_active (r : RegistryRegistrationResult) : bool :=
  let s := to_ascii_lowercase (rg_status r) in String.eqb s "approved" || String.eqb s "active".
Definition is_pending (r : RegistryRegistrationResult) : bool :=
  String.eqb (to_ascii_lowercase (rg_status r)) "pending".

Section registry.
Context `{Crypto} `{CredentialLib}.

(** What the node reads while it registers: the network of the swarm, its public
    agent card with its hash, the answers of a registry (its authority document,
    the submission on a route, the poll), and the random ids. *)
Record RegistryEnv := mkRegistryEnv {
  re_surroundings : Surroundings;
  re_network : result string;
  re_card : result (json * string);
  re_signer : PayloadSigner;
  re_request_uuid : string;
  re_nonce_uuid : string;
  re_urls : result (list string);
  re_authority : string → result json;
  re_submit : string → string → RegistrationRequest → result json;
  re_poll : string → string → result json;
}.
Context (E : RegistryEnv).

Definition me : string := su_agent_did (re_surroundings E).

Definition new_registration_id (kind uuid : string) : string := "agent-" +:+ kind +:+ "-" +:+ uuid.

Definition with_signature (r : RegistrationRequest) (signature : string) : RegistrationRequest :=
  mkRegistrationRequest (rq_version r) (rq_request_id r) (rq_network_id r) (rq_agent_did r)
    (rq_nickname r) (rq_agent_card r) (rq_agent_card_hash r) (rq_tenant_instance_id r) (rq_nonce r)
    signature.

Definition build_registration_request : result RegistrationRequest :=
  network ← re_network E;
  _ ← ensure_ok (negb (is_blank network)) "current network id is empty";
  '(card, card_hash) ← re_card E;
  let name := option_filter (λ n, negb (String.eqb n ""))
                (option_map trim (get_str "name" card)) in
  let nickname := of_bytes (take_chars 80 (to_bytes (default me name))) in
  let request :=
    mkRegistrationRequest REGISTRATION_PROTOCOL_VERSION
      (new_registration_id "request" (re_request_uuid E)) network me nickname (Some card)
      (Some card_hash) None (new_registration_id "nonce" (re_nonce_uuid E)) "" in
  bytes ← request_signing_bytes request;
  signature ← sign_bytes (re_signer E) bytes;
  Ok (with_signature request signature).

Definition submit_registry_registration (url : string) (request : RegistrationRequest) : result json :=
  authority ← re_authority E url;
  route ← registration_route authority;
  re_submit E url route request.

Definition validate_registry_response_request (payload : json)
    (expected_network_id expected_agent_did : string) : result unit :=
  r ← decode_request payload;
  ensure_ok (String.eqb (rq_network_id r) expected_network_id
             && String.eqb (rq_agent_did r) expected_agent_did)
    "Registry response does not match the local registration subject".

(** The answer of one registry, when it is about this agent and network. *)
Definition registry_answer (pending : option string) (request : option RegistrationRequest)
    (network url : string) : result json :=
  payload ← match pending, request with
            | Some id, _ => re_poll E url id
            | None, Some r => submit_registry_registration url r
            | None, None => Err "new registration request" (* there is one without a pending id *)
            end;
  _ ← validate_registry_response_request payload network me;
  Ok payload.

Fixpoint first_answer (ask : string → result json) (last_error : string) (urls : list string)
    : result json :=
  match urls with
  | [] => Err last_error
  | url :: urls' =>
      match ask url with
      | Ok payload => Ok payload
      | Err e => first_answer ask e urls'
      end
  end.

Definition apply_registry_registration_record (payload : json)
    : stm Registrar RegistryRegistrationResult :=
  reply ← apply_registration_record (re_surroundings E) payload;
  request ← lift (decode_request payload);
  lift (ensure_ok (negb (is_blank (rq_request_id request))) "registration response missing request_id");;
  mret (mkRegistryResult (rq_request_id request) reply.1.1.1).

Definition run_registry_registration_once (pending : option string)
    : stm Registrar RegistryRegistrationResult :=
  request ← lift (match pending with
                  | None => Some <$> build_registration_request
                  | Some _ => Ok None
                  end);
  network ← lift (match request with Some r => Ok (rq_network_id r) | None => re_network E end);
  urls ← lift (re_urls E);
  lift (ensure_ok (match urls with [] => false | _ => true end) "no Registry URL configured");;
  payload ← lift (first_answer (registry_answer pending request network)
                    "Registry registration failed" urls);
  apply_registry_registration_record payload.

(** ** Nicknames *)

(** An answer is a transport error or a status. *)
Fixpoint try_nickname (ask : string → string + Z) (last_error : string) (urls : list string)
    : result unit :=
  match urls with
  | [] => Err last_error
  | url :: urls' =>
      match ask url with
      | inl e => try_nickname ask ("Registry nickname request failed: " +:+ e) urls'
      | inr status =>
          if is_success status then Ok tt
          else if status =? 409 then Err "display name is already in use across this network"
          else try_nickname ask "Registry nickname request returned an error" urls'
      end
  end.

Definition reserve_registry_nickname (ask : string → string + Z) : result unit :=
  network ← re_network E;
  if String.prefix "local:" network then Ok tt
  else
    urls ← re_urls E;
    _ ← ensure_ok (match urls with [] => false | _ => true end)
          "no Registry URL configured; cannot check display name uniqueness";
    try_nickname ask "Registry nickname request failed" urls.

(** ** Theorems *)

(** An Ed25519 signer for a did:key: what it signs verifies under the key the DID
    names, and its base64 text is whole. *)
Definition signs_for (signer : PayloadSigner) (did : string) : Prop :=
  ∀ m sig, sign_bytes signer m = Ok sig →
    ∃ key raw, did_key_ed25519 did = Ok key ∧ base64_decode (trim sig) = Some raw
      ∧ String.length raw = 64%nat ∧ verifying_key_from_bytes key = Ok tt
      ∧ ed25519_verify key m raw = true.

Definition with_nickname (r : RegistrationRequest) (nickname : string) : RegistrationRequest :=
  mkRegistrationRequest (rq_version r) (rq_request_id r) (rq_network_id r) (rq_agent_did r)
    nickname (rq_agent_card r) (rq_agent_card_hash r) (rq_tenant_instance_id r) (rq_nonce r)
    (rq_signature_b64 r).

(** A request the node builds is accepted when it comes back. It is for the
    node's agent and the current network, its signature is valid, and stays so
    when a registry changes the nickname, which is not signed. *)
Theorem built_request_valid r nickname :
  signs_for (re_signer E) me → build_registration_request = Ok r →
  rq_agent_did r = me ∧ re_network E = Ok (rq_network_id r)
  ∧ request_signature_is_valid (with_nickname r nickname) = Ok tt.
Proof.
  intros Hs. rewrite /build_registration_request. intros Hb.
  apply result_bind_ok in Hb as (network & Hn & Hb).
  apply result_bind_ok in Hb as ([] & _ & Hb). apply result_bind_ok in Hb as ([card hash] & _ & Hb).
  cbv zeta in Hb. set (unsigned_req := mkRegistrationRequest _ _ _ _ _ _ _ _ _ _) in Hb.
  apply result_bind_ok in Hb as (bytes & Hbytes & Hb).
  apply result_bind_ok in Hb as (sig & Hsig & [= <-]). split_and!; [done|done|].
  destruct (Hs bytes sig Hsig) as (key & raw & Hk & Hraw & Hlen & Hkey & Hver).
  rewrite /request_signature_is_valid. cbn [with_nickname with_signature rq_agent_did rq_signature_b64].
  rewrite Hk. cbn [mbind result_bind]. rewrite Hraw /=. rewrite Hlen /= Hkey /=.
  assert (request_signing_bytes (with_nickname (with_signature unsigned_req sig) nickname) = Ok bytes)
    as -> by exact Hbytes.
  by rewrite /= Hver.
Qed.

Lemma first_answer_cases ask e urls :
  match first_answer ask e urls with
  | Ok payload => ∃ pre url post, urls = pre ++ url :: post ∧ ask url = Ok payload
                    ∧ Forall (λ u, is_ok (ask u) = false) pre
  | Err _ => Forall (λ u, is_ok (ask u) = false) urls
  end.
Proof using Type.
  revert e. induction urls as [|url urls IH]; intros e; cbn; [done|].
  destruct (ask url) as [payload|e'] eqn:Ha.
  - exists [], url, urls. done.
  - specialize (IH e'). destruct (first_answer ask e' urls).
    + destruct IH as (pre & u & post & -> & Hu & Hpre). exists (url :: pre), u, post.
      split_and!; [done|done|]. constructor; [by rewrite Ha|done].
    + constructor; [by rewrite Ha|done].
Qed.

(** The first registry that answers about this agent decides. A run either
    fails and changes nothing, or applies the answer of a registry: that answer
    names this agent and the network it registers with, and no registry listed
    before gave one that does. *)
Theorem registry_once_spec pending r :
  let '(o, r') := run_registry_registration_once pending r in
  (is_ok o = false ∧ r' = r)
  ∨ ∃ request network urls pre url post payload req,
      re_urls E = Ok urls ∧ urls = pre ++ url :: post
      ∧ registry_answer pending request network url = Ok payload
      ∧ Forall (λ u, is_ok (registry_answer pending request network u) = false) pre
      ∧ decode_request payload = Ok req ∧ rq_agent_did req = me ∧ rq_network_id req = network
      ∧ re_network E = Ok network
      ∧ r' = (apply_registration_record (re_surroundings E) payload r).2.
Proof using Type.
  rewrite /run_registry_registration_once. cbv [mbind stm_bind lift].
  destruct (match pending with Some _ => _ | None => _ end) as [request|e] eqn:Hreq; [|by left].
  destruct (match request with Some _ => _ | None => _ end) as [network|e] eqn:Hnet; [|by left].
  destruct (re_urls E) as [urls|e] eqn:Hurls; [|by left].
  destruct (ensure_ok _ _) as [[]|e]; [|by left].
  pose proof (first_answer_cases (registry_answer pending request network)
                "Registry registration failed" urls) as Hf.
  destruct (first_answer _ _ urls) as [payload|e] eqn:Hfa; [|by left].
  destruct Hf as (pre & url & post & -> & Ha & Hpre).
  destruct (apply_registry_registration_record payload r) as [o r'] eqn:Hap. right.
  pose proof Ha as Hv. rewrite /registry_answer in Hv. apply result_bind_ok in Hv as (p & _ & Hv).
  apply result_bind_ok in Hv as ([] & Hval & [= ->]).
  rewrite /validate_registry_response_request in Hval.
  apply result_bind_ok in Hval as (req & Hdec & Hok%ensure_ok_ok).
  apply andb_true_iff in Hok as [Hn%String.eqb_eq Hm%String.eqb_eq].
  exists request, network, (pre ++ url :: post), pre, url, post, payload, req.
  split_and!; try done.
  - destruct pending as [id|].
    + injection Hreq as <-. done.
    + destruct build_registration_request as [b|] eqn:Hb; [|done]. injection Hreq as <-.
      injection Hnet as <-. revert Hb. rewrite /build_registration_request. intros Hb.
      apply result_bind_ok in Hb as (network & -> & Hb).
      apply result_bind_ok in Hb as ([] & _ & Hb). apply result_bind_ok in Hb as ([card hash] & _ & Hb).
      apply result_bind_ok in Hb as (bytes & _ & Hb). by apply result_bind_ok in Hb as (sig & _ & [= <-]).
  - revert Hap. rewrite /apply_registry_registration_record. cbv [mbind stm_bind lift mret stm_ret].
    destruct (apply_registration_record _ payload r) as [[reply|e] r1]; [|by intros [= _ <-]].
    rewrite Hdec. by destruct (ensure_ok _ _); intros [= _ <-].
Qed.
End registry.
