(* ===== verification/DailyReport.v ===== *)
(** * The daily report

    [P/routes/mcp/activity.rs]: what the agent does through its tools is kept in
    the local database, messages to friends without their text.
    [P/routes/space/daily.rs]: once a day the node hands its agent a report of
    the owner's yesterday: what the gateway says of the Space and of the agent,
    the agent's recorded activity and the public Board. Time zones, the calendar
    and the text of dates are chrono's; the gateway, the Board's messages and
    the delivery of the event to the agent are arguments of a tick. *)

From S2P Require Import Prelude Collections Text Json Sql LocalDatabase Civic LedgerClient.
#[local] Open Scope Z_scope.
#[local] Set Default Proof Using "Type*".

(** ** What the agent did *)

Module Activity.

Definition RECORDED_TOOLS : list string :=
  ["send_agent_dm_message"; "request_agent_friend"; "accept_friend_request"; "reject_friend_request";
   "remove_agent_friend"; "create_hive"; "create_private_hive"; "invite_private_hive_participant";
   "post_hive_message"; "publish_board_message"; "publish_mission"; "publish_delegated_mission";
   "publish_collective_mission"; "start_collective_mission"; "claim_mission"; "complete_mission";
   "settle_mission"; "propose_agent_payment"; "authorize_agent_payment"; "submit_agent_payment";
   "settle_agent_payment"; "reject_agent_payment"; "cancel_agent_payment"].

Definition SUBJECT_KEYS : list string :=
  ["hive_id"; "mission_id"; "payment_id"; "request_id"; "run_id"; "counterpart_public_id"; "category"].

Definition DETAIL_KEYS : list string :=
  ["display_name"; "hive_name"; "counterpart_public_id"; "target_agent_did"; "category"; "mention";
   "title"; "domain"; "mode"; "amount"; "currency"; "target_kind"; "target_address"; "reject_reason";
   "reply_to_message_id"].

Definition RESULT_KEYS : list string :=
  ["hive_id"; "mission_id"; "payment_id"; "request_id"; "run_id"; "message_id"].

Definition PREVIEW_CHARS : nat := 120.

(** [is_private_hive_profile] of [P/routes/topics.rs]. *)
Definition is_private_hive_profile (hive : Hives.HiveProfile) : bool :=
  negb (String.eqb (Hives.feed_key hive) "wattswarm.dm")
  && String.prefix "group:dm-" (Hives.scope_hint hive).

Definition present (key : string) (v : json) : option json :=
  option_filter (λ x, negb (is_null x)) (json_get key v).

Definition detail_of (arguments returned : json) : list (string * json) :=
  let detail := foldl (λ d key, match present key arguments with
                                | Some v => obj_insert key v d
                                | None => d
                                end) [] DETAIL_KEYS in
  foldl (λ d key, match present key returned with
                  | Some v => or_insert key v d
                  | None => d
                  end) detail RESULT_KEYS.

(** Hive posts carry [content] as text or as an object; Board posts [message]. *)
Definition post_text (arguments : json) : option string :=
  find_map (λ key, value ← json_get key arguments;
                   or_else (as_str value) (as_str (json_index value "text"))) ["content"; "message"].

Definition activity (tool_name : string) (arguments result : json) (hive : option Hives.HiveProfile)
    (created_at_ms : Z) : option AgentActivity :=
  if negb (existsb (String.eqb tool_name) RECORDED_TOOLS)
     || negb (bool_decide (json_index result "isError" = JBool false)) then None
  else
    let returned := json_index result "structuredContent" in
    let detail := detail_of arguments returned in
    let detail := match hive with
                  | Some h =>
                      obj_insert "hive_private" (JBool (is_private_hive_profile h))
                        (obj_insert "hive_name" (JString (Hives.display_name h)) detail)
                  | None => detail
                  end in
    let detail :=
      if negb (String.eqb tool_name "send_agent_dm_message") then
        match post_text arguments with
        | Some text =>
            obj_insert "text" (JString (of_bytes (take_chars PREVIEW_CHARS (to_bytes text)))) detail
        | None => detail
        end
      else detail in
    let subject := find_map (λ key, or_else (json_get key arguments) (json_get key returned) ≫= as_str)
                     SUBJECT_KEYS in
    Some (mkActivity tool_name subject (JObject detail) created_at_ms).

Section record.
Context `{JsonText}.

(** [lookup] finds a Hive in the registry. *)
Definition record (lookup : string → option Hives.HiveProfile) (tool_name : string)
    (arguments result : json) (now_ms : Z) : stm LocalDb unit :=
  let hive := match get_str "hive_id" arguments with
              | Some id => if String.eqb tool_name "post_hive_message" then lookup id else None
              | None => None
              end in
  match activity tool_name arguments result hive now_ms with
  | None => mret tt
  | Some a => append_agent_activity a
  end.
End record.

(** The keys of the arguments that a record may depend on. *)
Definition recorded_keys : list string := DETAIL_KEYS ++ SUBJECT_KEYS.

Lemma detail_of_agrees a b returned :
  (∀ k, k ∈ DETAIL_KEYS → json_get k a = json_get k b) → detail_of a returned = detail_of b returned.
Proof.
  intros Hab. rewrite /detail_of. f_equal.
  assert (∀ l acc, (∀ k, k ∈ l → json_get k a = json_get k b) →
    foldl (λ d key, match present key a with Some v => obj_insert key v d | None => d end) acc l
    = foldl (λ d key, match present key b with Some v => obj_insert key v d | None => d end) acc l)
    as Hf; [|by apply Hf].
  intros l. induction l as [|k l IH]; intros acc Hl; [done|]. cbn [foldl].
  assert (present k a = present k b) as -> by (rewrite /present Hl //; by left). apply IH. intros k' Hk'. apply Hl. by right.
Qed.

Lemma find_map_agrees {A B} (f g : A → option B) l :
  (∀ x, x ∈ l → f x = g x) → find_map f l = find_map g l.
Proof.
  induction l as [|x l IH]; intros Hl; [done|]. cbn. rewrite (Hl x); [|by left].
  case_match; [done|]. apply IH. intros y Hy. apply Hl. by right.
Qed.

Lemma detail_of_other a returned k :
  k ∉ DETAIL_KEYS → k ∉ RESULT_KEYS → assoc k (detail_of a returned) = None.
Proof.
  intros Hd Hr. rewrite /detail_of.
  assert (∀ (f : string → list (string * json) → list (string * json)) l acc,
    (∀ key d, key ≠ k → assoc k (f key d) = assoc k d) → k ∉ l →
    assoc k (foldl (λ d key, f key d) acc l) = assoc k acc) as Hf.
  { intros f l. induction l as [|x l IH]; intros acc Hstep Hl; [done|].
    apply not_elem_of_cons in Hl as [Hx Hl]. cbn [foldl]. rewrite IH //. by apply Hstep. }
  rewrite (Hf (λ key d, match present key returned with Some v => or_insert key v d | None => d end));
    [|intros key d Hne; case_match; [|done]; rewrite /or_insert; case_match; [done|];
      by rewrite assoc_obj_insert (proj2 (String.eqb_neq k key))|done].
  by rewrite (Hf (λ key d, match present key a with Some v => obj_insert key v d | None => d end));
    [|intros key d Hne; case_match; [|done]; by rewrite assoc_obj_insert (proj2 (String.eqb_neq k key))|].
Qed.

(** The text of a direct message is never recorded: what is recorded of
    such a call does not depend on any argument but the named ones, which the
    text is not among; of the text of any other call at most 120 characters are
    kept. *)
Theorem message_text_private lookup `{JsonText} args args' result now_ms d :
  (∀ k, k ∈ recorded_keys → json_get k args = json_get k args') →
  record lookup "send_agent_dm_message" args result now_ms d
  = record lookup "send_agent_dm_message" args' result now_ms d
  ∧ ∀ tool hive a t, activity tool args result hive now_ms = Some a →
      json_get "text" (aa_detail a) = Some (JString t) → (char_count (to_bytes t) ≤ PREVIEW_CHARS)%nat.
Proof.
  intros Hk. split.
  - rewrite /record.
    assert (∀ b : json, match get_str "hive_id" b with
                        | Some id => if String.eqb "send_agent_dm_message" "post_hive_message"
                                     then lookup id else None
                        | None => None
                        end = None) as Hh by by intros b; destruct (get_str _ b).
    rewrite !Hh /activity. case_match; [done|]. cbn [String.eqb negb].
    rewrite (detail_of_agrees args args'); [|intros k ?; apply Hk, elem_of_app; by left].
    rewrite (find_map_agrees _ (λ key, or_else (json_get key args')
      (json_get key (json_index result "structuredContent")) ≫= as_str)); [done|].
    intros k ?. by rewrite Hk; [|apply elem_of_app; right].
  - intros tool hive a t Ha Ht. rewrite /activity in Ha. destruct (_ || _); [done|].
    injection Ha as <-. cbn [aa_detail json_get] in Ht. revert Ht.
    set (base := match hive with Some h => _ | None => _ end).
    assert (assoc "text" base = None) as Hbase.
    { subst base. pose proof (detail_of_other args (json_index result "structuredContent") "text") as Hn.
      destruct hive; rewrite ?assoc_obj_insert; apply Hn; apply (bool_decide_eq_true_1 _); reflexivity. }
    destruct (negb _); [|by rewrite Hbase]. destruct (post_text args) as [text|]; [|by rewrite Hbase].
    rewrite assoc_obj_insert /=. intros [= <-]. rewrite String.list_ascii_of_string_of_list_ascii.
    apply take_chars_count.
Qed.
End Activity.

(** ** The report of the day *)

Module Daily.

Definition DOMAIN : string := "daily_report_day".
Definition TIMEZONE_DOMAIN : string := "owner_timezone".
Definition ENABLED_DOMAIN : string := "daily_report_enabled".
Definition SEND_HOUR : Z := 8.
Definition ACTIVITY_KEEP_DAYS : Z := 30.
Definition ACTIVITY_ITEMS : nat := 50.
Definition BOARD_LATEST : nat := 3.
Definition BOARD_MENTIONS : nat := 20.
Definition BOARD_PREVIEW_CHARS : nat := 120.

Definition DAY : Z := 86400.

(** A date as the number of its day since 1970-01-01. *)
Record NaiveDate := mkDate { day_number : Z }.

(** What the report uses of chrono and chrono_tz: time zones by their IANA name,
    the offset of a zone at an instant, the offset that a local time starts at,
    and the texts of dates and of instants in milliseconds. *)
Class Calendar (Tz : Type) := {
  tz_parse : string → option Tz;
  tz_name : Tz → string;
  tz_offset : Tz → Z → Z;
  tz_earliest : Tz → Z → option Z;
  date_to_string : NaiveDate → string;
  rfc3339_of_millis : Z → option string;
}.

Record AgentEventEnvelope := mkEvent {
  ev_event_id : string;
  ev_event_type : string;
  ev_source_kind : string;
  ev_target_agent_id : option string;
  ev_payload : json;
  ev_requires_commit : bool;
  ev_allowed_actions : list string;
  ev_dedupe_key : option string;
  ev_created_at : Z;
}.

Section daily.
Context {Tz : Type} `{Calendar Tz} `{JsonText} {timestamps : Timestamps}.
Context `{DomainCodec bool} `{DomainCodec string} `{DomainCodec NaiveDate}.

(** The handlers: a request passed [authorize]. *)
Definition set_owner_timezone (timezone : string) (now : Z) : stm LocalDb string :=
  tz ← lift (ok_or "timezone must be an IANA time zone, like Australia/Sydney"
               (tz_parse (trim timezone)));
  save_domain TIMEZONE_DOMAIN (tz_name tz) now;;
  mret (tz_name tz).

Definition set_daily_report_enabled (enabled : bool) (now : Z) : stm LocalDb bool :=
  save_domain ENABLED_DOMAIN enabled now;;
  mret enabled.

(** The date of a local time in seconds. *)
Definition date_naive (local : Z) : NaiveDate := mkDate (local / DAY).

Definition due_day (timezone : option Tz) (now_ms : Z) : option (NaiveDate * Z) :=
  let now := now_ms / 1000 in
  match timezone with
  | None => Some (date_naive (now - DAY), 0)
  | Some tz =>
      let local := now + tz_offset tz now in
      if (local mod DAY) / 3600 <? SEND_HOUR then None
      else
        let day := date_naive (now - DAY + tz_offset tz (now - DAY)) in
        offset ← tz_earliest tz (day_number day * DAY);
        Some (day, offset)
  end.

(** The window of a day in milliseconds. *)
Definition window (day : NaiveDate) (offset_secs : Z) : Z * Z :=
  let from := day_number day * DAY - offset_secs in
  (from * 1000, (from + DAY) * 1000).

(** What a tick meets: the clock, this agent, the gateway when one is configured
    ([LedgerClient::get_public]), the Board's messages of a window by channel,
    and whether the agent took the event. *)
Record Host := mkHost {
  h_now_ms : Z;
  h_agent_did : string;
  h_gateway : option (string → list (string * string) → result (Z * json));
  h_board : Z → Z → result (list (string * list json));
  h_deliver : AgentEventEnvelope → bool;
}.

(** The rows by how often each tool was used, and the first of them. *)
Definition counts (rows : list AgentActivity) : gmap string Z :=
  foldl (λ m r, <[aa_kind r := default 0 (m !! aa_kind r) + 1]> m) ∅ rows.

Definition activity_item (r : AgentActivity) : json :=
  JObject [("kind", JString (aa_kind r)); ("subject", json_of_option JString (aa_subject r));
           ("detail", aa_detail r);
           ("at", json_of_option JString (rfc3339_of_millis (aa_created_at_ms r)))].

Definition activity_json (rows : list AgentActivity) : json :=
  JObject [("counts", JObject (prod_map id json_of_Z <$> btree_entries (counts rows)));
           ("items", JArray (activity_item <$> take ACTIVITY_ITEMS rows));
           ("total", json_of_Z (Z.of_nat (length rows)))].

Definition activity (d : LocalDb) (from_ms to_ms : Z) : result json :=
  rows ← agent_activity_between d from_ms to_ms;
  Ok (activity_json rows).

Definition preview (message : json) : json :=
  let text := match as_str (json_index message "content") with
              | Some t => t
              | None => json_to_string (json_index message "content")
              end in
  JObject [("message_id", json_index message "message_id"); ("category", json_index message "category");
           ("from", json_index message "author_display_name");
           ("from_agent_did", json_index message "author_agent_did");
           ("text", JString (of_bytes (take_chars BOARD_PREVIEW_CHARS (to_bytes text))));
           ("at", json_of_option JString
                    (as_i64 (json_index message "created_at") ≫= rfc3339_of_millis))].

(** [Option<&str>]: [None] comes first. *)
Definition opt_str_leb (a b : option string) : bool :=
  match a, b with
  | None, _ => true
  | Some _, None => false
  | Some s, Some t => str_leb s t
  end.

Definition mentions (agent_did : string) (channels : list (string * list json)) : list json :=
  concat ((λ c, preview <$> List.filter (λ m, bool_decide (json_index m "mention" = JString agent_did)) c.2)
            <$> channels).

Definition board (agent_did : string) (channels : list (string * list json)) : json :=
  let summary := foldl (λ o c, obj_insert c.1
    (JObject [("messages", json_of_Z (Z.of_nat (length c.2)));
              ("latest", JArray (preview <$> take BOARD_LATEST c.2))]) o) [] channels in
  let found := sort_by (λ a b, opt_str_leb (as_str (json_index a "at")) (as_str (json_index b "at")))
                 (mentions agent_did channels) in
  JObject [("channels", JObject summary); ("mentions", JArray (take BOARD_MENTIONS found));
           ("mentioned", json_of_Z (Z.of_nat (length found)))].

(** [None] is a panic: a reply that is neither an object nor null is indexed. *)
Definition read_report (h : Host) (gateway : string → list (string * string) → result (Z * json))
    (d : LocalDb) (day : NaiveDate) (timezone : option Tz) (offset_secs : Z) : option (result json) :=
  let query := [("day", date_to_string day); ("offset_secs", show_Z offset_secs)] in
  let replies :=
    '(status, space) ← gateway "/api/spaces/daily" query;
    _ ← ensure_ok (is_success status) "Space daily report";
    '(status, agent) ← gateway ("/api/agents/" +:+ h_agent_did h +:+ "/daily") query;
    _ ← ensure_ok (is_success status) "agent daily report";
    let '(from_ms, to_ms) := window day offset_secs in
    rows ← activity d from_ms to_ms;
    Ok (space, agent, rows) in
  match replies with
  | Err e => Some (Err e)
  | Ok (space, agent, rows) =>
      agent ← json_set "activity" rows agent;
      let '(from_ms, to_ms) := window day offset_secs in
      let b := match h_board h (Z.max 0 from_ms) (Z.max 0 to_ms) with
               | Ok channels => board (h_agent_did h) channels
               | Err _ => JNull
               end in
      space ← json_set "board" b space;
      Some (Ok (JObject [("day", JString (date_to_string day));
                         ("timezone", json_of_option JString (tz_name <$> timezone));
                         ("space", space); ("agent", agent)]))
  end.

(** The database and the reports the agent took, newest first. *)
Record Desk := mkDesk { desk_db : LocalDb; reports : list (NaiveDate * AgentEventEnvelope) }.

Definition report_event (h : Host) (day : NaiveDate) (report : json) : AgentEventEnvelope :=
  mkEvent ("daily_report:" +:+ h_agent_did h +:+ ":" +:+ date_to_string day) "daily_report" "space"
    (Some (h_agent_did h)) report false ["ignore"] (Some ("daily_report:" +:+ date_to_string day))
    (Z.max 0 (h_now_ms h)).

(** The documents the tick reads: [.ok().flatten()]. *)
Definition stored (T : Type) `{DomainCodec T} (d : LocalDb) (domain : string) : option T :=
  mjoin (result_ok (load_domain T d domain)).

Definition owner_timezone (d : LocalDb) : option Tz := stored string d TIMEZONE_DOMAIN ≫= tz_parse.

Definition send_due_report (h : Host) (k : Desk) : option (nat * Desk) :=
  let d := desk_db k in
  if negb (default true (stored bool d ENABLED_DOMAIN)) then Some (0%nat, k)
  else
    match due_day (owner_timezone d) (h_now_ms h) with
    | None => Some (0%nat, k)
    | Some (day, offset_secs) =>
        if is_some_and (λ sent, day_number day <=? day_number sent) (stored NaiveDate d DOMAIN)
        then Some (0%nat, k)
        else match h_gateway h with
        | None => Some (0%nat, k)
        | Some gateway =>
            report ← read_report h gateway d day (owner_timezone d) offset_secs;
            match report with
            | Err _ => Some (0%nat, k)
            | Ok report =>
                let event := report_event h day report in
                if negb (h_deliver h event) then Some (0%nat, k)
                else
                  let d1 := exec (save_domain DOMAIN day (h_now_ms h / 1000)) d in
                  let d2 := exec (prune_agent_activity_before
                                    (h_now_ms h - ACTIVITY_KEEP_DAYS * DAY * 1000)) d1 in
                  Some (1%nat, mkDesk d2 ((day, event) :: reports k))
            end
        end
    end.

(** ** Ticks and requests in sequence *)

Inductive desk_op : Type :=
  | Tick (h : Host)
  | Db (o : db_op).

(** A panic ends the tick before it writes. *)
Definition desk_step (o : desk_op) (k : Desk) : Desk :=
  match o with
  | Tick h => match send_due_report h k with Some (_, k') => k' | None => k end
  | Db o => mkDesk (run_op o (desk_db k)) (reports k)
  end.

(** Only ticks write the day of the last report. *)
Definition allowed (o : desk_op) : Prop :=
  match o with
  | Tick _ => True
  | Db o => op_domain o ≠ Some DOMAIN ∧ ∀ x, op_domain o = Some x → is_utf8 x
  end.

(** [serde] writes every date, and reads it back. *)
Hypothesis date_saved : ∀ day : NaiveDate, ∃ s, to_text day = Ok s.
Context `{!DomainCodecLaws NaiveDate}.

Record desk_ok (k : Desk) : Prop := {
  ok_days : StronglySorted (λ a b, day_number b.1 < day_number a.1) (reports k);
  ok_last : ∃ m, represents (desk_db k) m
    ∧ match reports k with
      | [] => True
      | r :: _ => ∃ s u, m !! DOMAIN = Some (s, u) ∧ of_text s = Ok r.1
      end;
}.

Lemma stored_represents T `{DomainCodec T} d m x :
  represents d m →
  stored T d x = match m !! x with Some (s, _) => result_ok (of_text s) | None => None end.
Proof using Type.
  intros Hr. rewrite /stored /load_domain (represents_row d m x Hr).
  destruct (m !! x) as [[s u]|]; [|done]. by destruct (of_text s).
Qed.

(** What a tick that sends a report did. *)
Lemma send_due_report_sent h k k' :
  send_due_report h k = Some (1%nat, k') →
  ∃ day offset gateway report,
    due_day (owner_timezone (desk_db k)) (h_now_ms h) = Some (day, offset)
    ∧ is_some_and (λ sent, day_number day <=? day_number sent) (stored NaiveDate (desk_db k) DOMAIN) = false
    ∧ read_report h gateway (desk_db k) day (owner_timezone (desk_db k)) offset = Some (Ok report)
    ∧ h_deliver h (report_event h day report) = true
    ∧ k' = mkDesk (exec (prune_agent_activity_before (h_now_ms h - ACTIVITY_KEEP_DAYS * DAY * 1000))
                     (exec (save_domain DOMAIN day (h_now_ms h / 1000)) (desk_db k)))
             ((day, report_event h day report) :: reports k).
Proof using Type.
  rewrite /send_due_report. case_match; [done|].
  destruct (due_day _ _) as [[day offset]|] eqn:Hd; [|done].
  destruct (is_some_and _ _) eqn:Hs; [done|]. destruct (h_gateway h) as [g|]; [|done].
  destruct (read_report _ _ _ _ _ _) as [[report|]|] eqn:Hr; cbn; [|done..].
  destruct (h_deliver h _) eqn:He; cbn; [|done]. intros [= <-]. exists day, offset, g, report. done.
Qed.

(** A tick that sends nothing changes nothing. *)
Lemma send_due_report_quiet h k n k' :
  send_due_report h k = Some (n, k') → n = 1%nat ∨ k' = k.
Proof using Type.
  rewrite /send_due_report. repeat case_match; try (intros [= <- <-]; auto; done).
  destruct (read_report _ _ _ _ _ _) as [[report|]|]; cbn; [|intros [= <- <-]; auto|done].
  destruct (h_deliver h _); cbn; intros [= <- <-]; auto.
Qed.

Lemma tick_ok h k : desk_ok k → desk_ok (desk_step (Tick h) k).
Proof.
  intros Hk. cbn [desk_step]. destruct (send_due_report h k) as [[n k']|] eqn:Hs; [|done].
  destruct (send_due_report_quiet h k n k' Hs) as [->| ->]; [|done].
  apply send_due_report_sent in Hs as (day & off & g & report & _ & Hnew & _ & _ & ->).
  destruct Hk as [Hdays (m & Hr & Hlast)]. split; cbn [reports desk_db].
  - constructor; [done|]. rewrite (stored_represents NaiveDate _ m) // in Hnew.
    destruct (reports k) as [|r rs]; [constructor|].
    destruct Hlast as (s & u & Hm & Hs). rewrite Hm Hs in Hnew. cbn in Hnew. apply Z.leb_gt in Hnew.
    apply StronglySorted_inv in Hdays as [_ Hall]. constructor; [done|].
    eapply Forall_impl; [exact Hall|]. cbn. lia.
  - exists (saved NaiveDate DOMAIN day (h_now_ms h / 1000) m). split.
    + apply (run_op_represents (Prune _)); [|done]. by apply save_domain_represents.
    + rewrite /saved. destruct (date_saved day) as [s Hs]. rewrite Hs.
      exists s, (format_timestamp (h_now_ms h / 1000)). rewrite lookup_insert_eq.
      split; [done|]. by apply of_to_text.
Qed.

Lemma desk_step_ok o k : allowed o → desk_ok k → desk_ok (desk_step o k).
Proof.
  destruct o as [h|o]; [by intros _; apply tick_ok|]. intros [Ho Hu] [Hdays (m & Hr & Hlast)].
  split; [done|]. cbn. exists (spec_op o m). split; [by apply run_op_represents|].
  rewrite spec_op_other //.
Qed.


(** ** What a report says *)

Lemma counts_lookup rows kind :
  default 0 (counts rows !! kind)
  = Z.of_nat (length (List.filter (λ r, String.eqb (aa_kind r) kind) rows)).
Proof using Type.
  rewrite /counts.
  assert (∀ m : gmap string Z, default 0 (foldl (λ m r, <[aa_kind r := default 0 (m !! aa_kind r) + 1]> m) m rows !! kind)
    = default 0 (m !! kind) + Z.of_nat (length (List.filter (λ r, String.eqb (aa_kind r) kind) rows))) as Hf.
  { induction rows as [|r rows IH]; intros m; cbn [foldl List.filter]; [cbn [length]; lia|]. rewrite IH.
    destruct (String.eqb_spec (aa_kind r) kind) as [->|Hne].
    - rewrite lookup_insert_eq. cbn [from_option length]. rewrite /id Nat2Z.inj_succ. lia.
    - by rewrite lookup_insert_ne. }
  by rewrite Hf lookup_empty.
Qed.

(** What the agent did in a window, of all that it did. *)
Definition in_window (w : Z * Z) (acts : list AgentActivity) : list AgentActivity :=
  order_by [asc_Z aa_created_at_ms]
    (List.filter (λ a, (w.1 <=? aa_created_at_ms a) && (aa_created_at_ms a <? w.2)) acts).

Lemma read_report_says `{!JsonTextLaws} h g d acts day tz off report :
  agent_activity d = row_of_activity <$> acts →
  read_report h g d day tz off = Some (Ok report) →
  json_index (json_index report "agent") "activity" = activity_json (in_window (window day off) acts)
  ∧ json_index report "day" = JString (date_to_string day)
  ∧ json_index report "timezone" = json_of_option JString (tz_name <$> tz).
Proof using Type timestamps.
  intros Hd. rewrite /read_report. destruct (window day off) as [from_ms to_ms] eqn:Hw.
  match goal with |- match ?r with _ => _ end = _ → _ => destruct r as [[[space agent] rows]|] eqn:Hr end;
    [|done].
  apply result_bind_ok in Hr as ([st1 sp] & _ & Hr). apply result_bind_ok in Hr as (_ & _ & Hr).
  apply result_bind_ok in Hr as ([st2 ag] & _ & Hr). apply result_bind_ok in Hr as (_ & _ & Hr).
  apply result_bind_ok in Hr as (rows' & Hact & [= <- <- <-]).
  rewrite /activity in Hact. apply result_bind_ok in Hact as (l & Hl & [= <-]).
  rewrite (activity_refines d [] acts from_ms to_ms Hd) in Hl. injection Hl as Hl.
  destruct (json_set "activity" _ ag) as [ag'|] eqn:Ha; [|done].
  destruct (json_set "board" _ sp) as [sp'|]; [|done]. cbn. intros [= <-].
  split; [|done]. rewrite /json_index /=.
  assert (json_get "activity" ag' = Some (activity_json l)) as ->.
  { destruct ag; try done; cbn in Ha; injection Ha as <-; cbn; [done|]. by rewrite assoc_obj_insert. }
  cbn. by rewrite -Hl.
Qed.


(** What is dropped is never missed: no report that becomes due later, in
    whatever time zone, covers an instant thirty days before one that was sent. *)
Theorem pruning_spares_reports now later tz day off acts :
  (∀ z t, - DAY ≤ tz_offset z t ≤ DAY) → (∀ z t o, tz_earliest z t = Some o → - DAY ≤ o ≤ DAY) →
  now ≤ later → due_day tz later = Some (day, off) →
  in_window (window day off)
    (List.filter (λ a, negb (aa_created_at_ms a <? now - ACTIVITY_KEEP_DAYS * DAY * 1000)) acts)
  = in_window (window day off) acts.
Proof using Type.
  intros Hoff Hearly Hle Hdue. rewrite /in_window filter_filter. f_equal. apply filter_ext. intros a.
  assert (now - ACTIVITY_KEEP_DAYS * DAY * 1000 ≤ (window day off).1) as Hw.
  { rewrite /window /ACTIVITY_KEEP_DAYS /DAY /=. rewrite /due_day /DAY in Hdue.
    pose proof (Z.div_mod later 1000 ltac:(done)) as Hd. pose proof (Z.mod_pos_bound later 1000 ltac:(done)).
    set (l := later / 1000) in *. destruct tz as [z|].
    - case_match; [done|]. destruct (tz_earliest z _) as [o|] eqn:He; [|done]. injection Hdue as <- <-.
      apply Hearly in He. specialize (Hoff z (l - 86400)). rewrite /DAY in He, Hoff. cbn [day_number date_naive].
      pose proof (Z.div_mod (l - 86400 + tz_offset z (l - 86400)) DAY ltac:(done)).
      pose proof (Z.mod_pos_bound (l - 86400 + tz_offset z (l - 86400)) DAY ltac:(done)).
      unfold date_naive, DAY in *. cbn [day_number] in *. lia.
    - injection Hdue as <- <-. cbn [day_number date_naive]. rewrite /date_naive /DAY /=.
      pose proof (Z.div_mod (l - 86400) 86400 ltac:(done)).
      pose proof (Z.mod_pos_bound (l - 86400) 86400 ltac:(done)). lia. }
  destruct (Z.leb_spec (window day off).1 (aa_created_at_ms a)) as [Ha|]; [|by rewrite andb_false_r].
  rewrite (proj2 (Z.ltb_ge _ _)); [done|lia].
Qed.
End daily.
End Daily.

Module DailyScenario.
Import Daily DatabaseScenario.

(** Sydney around the end of daylight saving: the clocks go from UTC+11 to
    UTC+10 on 2026-04-05 at 03:00, so that day has 25 hours. *)
Definition april5 : Z := 20548.
Definition change : Z := (april5 - 1) * DAY + 16 * 3600.

#[export] Instance sydney : Calendar unit := {|
  tz_parse name := if String.eqb name "Australia/Sydney" then Some tt else None;
  tz_name _ := "Australia/Sydney";
  tz_offset _ t := if t <? change then 39600 else 36000;
  tz_earliest _ local := Some (if local - 39600 <? change then 39600 else 36000);
  date_to_string d := show_Z (day_number d);
  rfc3339_of_millis ms := Some (show_Z ms);
|}.

#[export] Instance flags : DomainCodec bool := {|
  to_text b := Ok (if b : bool then "true" else "false");
  of_text s := if String.eqb s "true" then Ok true
               else if String.eqb s "false" then Ok false else Err "expected a boolean";
|}.
#[export] Instance dates : DomainCodec NaiveDate := {|
  to_text d := Ok (show_Z (Z.pos (encode (day_number d))));
  of_text s := ok_or "expected a date" (mkDate <$> decode (Z.to_pos (dec 0 (to_bytes s))));
|}.
#[export] Instance dates_laws : DomainCodecLaws NaiveDate.
Proof.
  intros [v] s Hs. change (Ok (show_Z (Z.pos (encode v))) = Ok s) in Hs.
  assert (s = show_Z (Z.pos (encode v))) as -> by congruence.
  cbn [of_text dates].
  destruct (show_Z_decimal (Z.pos (encode v))) as (_ & -> & _); [done|].
  cbn [Z.to_pos]. by rewrite decode_encode.
Qed.
Lemma dates_saved (day : NaiveDate) : ∃ s, to_text day = Ok s.
Proof. eexists. reflexivity. Qed.

(** At [hour] UTC of a day, with a gateway that has nothing to tell. *)
Definition host (day hour : Z) : Host :=
  mkHost ((day * DAY + hour * 3600) * 1000) "did:key:z1" (Some (λ _ _, Ok (200, JObject [])))
    (λ _ _, Err "no board") (λ _, true).

Definition ops : list (desk_op) :=
  [Tick (host april5 22); Tick (host april5 23);
   Db (Save string _ TIMEZONE_DOMAIN "Australia/Sydney" 0); Tick (host april5 1); Db Open;
   Tick (host (april5 + 1) 22)].


Definition noted : AgentActivity :=
  did "claim_mission" ((april5 * DAY - 7200) * 1000).
Definition desk1 : Desk := mkDesk (run_op (Record_activity noted) opened) [].
Definition desk2 : Desk := match send_due_report (host april5 22) desk1 with Some (_, k) => k | None => desk1 end.


Lemma pruning_spares_reports_witness :
  in_window (window (mkDate april5) 39600)
    (List.filter (λ a, negb (aa_created_at_ms a <? april5 * DAY * 1000 - ACTIVITY_KEEP_DAYS * DAY * 1000))
       [noted])
  = in_window (window (mkDate april5) 39600) [noted].
Proof.
  apply (pruning_spares_reports (april5 * DAY * 1000) ((april5 * DAY + 22 * 3600) * 1000) (Some tt)).
  - intros [] t. cbn. rewrite /DAY. case_match; lia.
  - intros [] t o [= <-]. rewrite /DAY. case_match; lia.
  - rewrite /DAY /april5. lia.
  - reflexivity.
Defined.

(** The report of the day with 25 hours ends an hour before the next begins:
    what the agent does from 23:00 to midnight of that day is in no report. *)
Example changed_hour_not_reported :
  due_day (Some tt) (h_now_ms (host april5 22)) = Some (mkDate april5, 39600)
  ∧ due_day (Some tt) (h_now_ms (host (april5 + 1) 22)) = Some (mkDate (april5 + 1), 36000)
  ∧ (window (mkDate april5) 39600).2 + 3600 * 1000 = (window (mkDate (april5 + 1)) 36000).1.
Proof. vm_compute. done. Qed.

(** A gateway that answers the agent's day with an array ends the tick, and the
    task that runs it, in a panic. *)
Example array_reply_panics :
  send_due_report
    (mkHost ((april5 * DAY + 22 * 3600) * 1000) "did:key:z1" (Some (λ _ _, Ok (200, JArray [])))
       (λ _ _, Err "no board") (λ _, true)) desk1 = None.
Proof. vm_compute. reflexivity. Qed.

Lemma message_text_private_witness :
  Activity.record (λ _, None) "send_agent_dm_message"
    (JObject [("counterpart_public_id", JString "bob"); ("content", JString "secret")])
    (JObject [("isError", JBool false)]) 1 opened
  = Activity.record (λ _, None) "send_agent_dm_message"
      (JObject [("counterpart_public_id", JString "bob"); ("content", JString "other")])
      (JObject [("isError", JBool false)]) 1 opened.
Proof.
  refine (proj1 (Activity.message_text_private (λ _, None) _ _ _ 1 opened _)).
  apply Forall_forall. repeat constructor.
Defined.
End DailyScenario.
