(* ===== verification/MissionRoutes.v ===== *)
(** * Missions of other nodes

    The network half of [crates/control-plane/src/routes/missions.rs] and
    [routes/settlement_delegation.rs]: how a request names the node and the task
    of a mission that another node published, the contract of that task, the
    claim and the completion of it, and the delegation of a settlement. A JSON
    object is its list of fields. *)

From S2P Require Import Prelude Collections Text Json Profiles Identities Missions X402 Access.
#[local] Open Scope Z_scope.
#[local] Set Default Proof Using "Type*".

(** ** JSON objects *)

(** A string that is not blank, trimmed. *)
Definition value_string (v : json) (field : string) : option string :=
  trimmed_nonempty (json_get field v ≫= as_str).

(** [value_path_string]: the string at the end of a path of fields. *)
Fixpoint value_at (v : json) (path : list string) : option json :=
  match path with
  | [] => Some v
  | key :: path' => v' ← json_get key v; value_at v' path'
  end.
Definition value_path_string (v : json) (path : list string) : option string :=
  trimmed_nonempty (value_at v path ≫= as_str).

(** [i64::from_str]: an optional sign and at least one digit. *)
Definition parse_i64 (s : string) : option Z :=
  let '(negative, ds) := match to_bytes s with
                         | "-"%char :: l => (true, l)
                         | "+"%char :: l => (false, l)
                         | l => (false, l)
                         end in
  match ds with
  | [] => None
  | _ =>
      let n := dec 0 ds in
      if all_digits ds && (n <=? (if negative then i64_max + 1 else i64_max))
      then Some (if negative then - n else n) else None
  end.

Definition value_i64 (v : json) : option Z :=
  match as_i64 v with
  | Some z => Some z
  | None =>
      match as_u64 v ≫= (λ n, if n <=? i64_max then Some n else None) with
      | Some z => Some z
      | None => s ← as_str v; parse_i64 (trim s)
      end
  end.

Definition opt_or {A} (a b : option A) : option A := match a with Some _ => a | None => b end.

(** The first path that leads to a string. *)
Definition first_path (v : json) (paths : list (list string)) : option string :=
  foldr (λ p rest, opt_or (value_path_string v p) rest) None paths.

(** ** Requests *)

Record MissionClaimBody := mkClaimBody {
  cb_mission_id : string;
  cb_agent_did : string;
  cb_task_id : option string;
  cb_mission_feed_key : option string;
  cb_mission_scope_hint : option string;
  cb_publisher_node : option string;
  cb_claim_route : option json;
  cb_result : option json;
}.

(** [MissionClaimBody::local]. *)
Definition local_claim (mission agent : string) : MissionClaimBody :=
  mkClaimBody mission agent None None None None None None.

Record MissionSettleBody := mkSettleBody {
  sb_mission_id : string;
  sb_task_id : option string;
  sb_agent_did : option string;
  sb_candidate_id : option string;
  sb_claim_route : option json;
}.

Definition claim_route_value (body : MissionClaimBody) (field : string) : option json :=
  cb_claim_route body ≫= json_get field.
Definition claim_route_string (body : MissionClaimBody) (field : string) : option string :=
  trimmed_nonempty (claim_route_value body field ≫= as_str).
Definition claim_route_path_string (body : MissionClaimBody) (path : list string) : option string :=
  route ← cb_claim_route body; value_path_string route path.
Definition first_claim_path (body : MissionClaimBody) (paths : list (list string)) : option string :=
  route ← cb_claim_route body; first_path route paths.

Definition publisher_agent_did_from_claim (body : MissionClaimBody) : option string :=
  opt_or (claim_route_string body "publisher_agent_did")
    (inputs ← claim_route_value body "task_inputs"; value_string inputs "publisher_agent_did").

Definition mission_claim_actor_display_name (body : MissionClaimBody) : option string :=
  first_claim_path body
    [["decision_payload"; "display_name"]; ["decision_payload"; "agent_identity"];
     ["agent_envelope"; "source_agent_card"; "card"; "metadata"; "display_name"];
     ["agent_envelope"; "source_agent_card"; "card"; "name"];
     ["agent_event_payload"; "agent_envelope"; "source_agent_card"; "card"; "metadata";
      "display_name"];
     ["agent_event_payload"; "agent_envelope"; "source_agent_card"; "card"; "name"]].

Definition mission_claim_actor_public_id (body : MissionClaimBody) : option string :=
  first_claim_path body
    [["decision_payload"; "public_id"]; ["decision_payload"; "agent_public_id"];
     ["agent_envelope"; "source_agent_card"; "card"; "metadata"; "public_id"];
     ["agent_event_payload"; "agent_envelope"; "source_agent_card"; "card"; "metadata";
      "public_id"]].

Definition claim_route_candidate_id (body : MissionSettleBody) : option string :=
  route ← sb_claim_route body; value_path_string route ["candidate_id"].

(** The places an execution id may be found below the route itself. *)
Definition execution_paths : list (list string) :=
  [["decision_payload"; "execution_id"]; ["agent_event_payload"; "execution_id"];
   ["agent_event_payload"; "output"; "execution_id"];
   ["agent_event_payload"; "content"; "execution_id"];
   ["agent_event_payload"; "topic_content"; "execution_id"]].

Definition claim_route_execution_id (body : MissionClaimBody) : option string :=
  opt_or (claim_route_string body "execution_id") (first_claim_path body execution_paths).

Definition settle_route_execution_id (body : MissionSettleBody) : option string :=
  route ← sb_claim_route body; first_path route (["execution_id"] :: execution_paths).

Definition target_node_paths : list (list string) :=
  [["agent_envelope"; "source_node_id"]; ["agent_event_payload"; "source_node_id"];
   ["agent_event_payload"; "claimer_node_id"];
   ["agent_event_payload"; "agent_envelope"; "source_node_id"];
   ["decision_payload"; "claimer_node_id"]].

Definition mission_lifecycle_target_node_id_from_claim (body : MissionClaimBody) : option string :=
  first_claim_path body target_node_paths.
Definition mission_lifecycle_target_node_id_from_settle (body : MissionSettleBody)
    : option string :=
  route ← sb_claim_route body; first_path route target_node_paths.

Definition mission_settle_candidate (body : MissionSettleBody) (mission : CivilMission)
    : option (string * string) :=
  let task := default (mission_id mission) (sb_task_id body) in
  candidate ← opt_or (sb_candidate_id body) (claim_route_candidate_id body);
  Some (task, candidate).

(** ** Routes *)

Definition MISSION_FEED_KEY : string := "wattetheria.missions".

Record NetworkMissionClaimRoute := mkRoute {
  rt_task_id : string;
  rt_mission_feed_key : string;
  rt_mission_scope_hint : string;
  rt_publisher_node : option string;
  rt_status : option string;
}.

Definition publisher_node_scope_hint (node : string) : string := "node:" +:+ node.
Definition mission_task_scope_hint (task : string) : string := "group:" +:+ task.
Definition mission_execution_id (mission agent : string) : string :=
  "wattetheria:" +:+ mission +:+ ":" +:+ agent.

Definition network_claim_route (body : MissionClaimBody) : result NetworkMissionClaimRoute :=
  let task := default (cb_mission_id body)
                (opt_or (trimmed_nonempty (cb_task_id body)) (claim_route_string body "task_id")) in
  let node := opt_or (trimmed_nonempty (cb_publisher_node body))
                (claim_route_string body "publisher_wattswarm_node_id") in
  let feed := default MISSION_FEED_KEY
                (opt_or (trimmed_nonempty (cb_mission_feed_key body))
                   (claim_route_string body "mission_feed_key")) in
  hint ← ok_or "network mission transition requires mission_scope_hint or publisher_wattswarm_node_id from list_missions claim_route"
           (opt_or (trimmed_nonempty (cb_mission_scope_hint body))
             (opt_or (claim_route_string body "mission_scope_hint")
                (publisher_node_scope_hint <$> node)));
  Ok (mkRoute task feed hint node (claim_route_string body "status")).

(** A mission as the gateway lists it. *)
Definition task_id_from_gateway_task (task : json) : option string :=
  trimmed_nonempty
    (opt_or (json_get "task_id" task) (opt_or (json_get "id" task) (json_get "mission_id" task))
     ≫= as_str).

Definition gateway_task_value (task : json) (field : string) : option json :=
  opt_or (json_get field task)
    (opt_or (json_get "claim_route" task ≫= json_get field)
       (opt_or (json_get "summary" task ≫= json_get field)
          (json_get "inputs" task ≫= json_get field))).

Definition gateway_task_string (task : json) (field : string) : option string :=
  trimmed_nonempty (gateway_task_value task field ≫= as_str).

Definition network_claim_route_from_gateway_task (body : MissionClaimBody) (task : json)
    : result NetworkMissionClaimRoute :=
  let id := default (cb_mission_id body) (task_id_from_gateway_task task) in
  let node := gateway_task_string task "publisher_wattswarm_node_id" in
  let feed := default MISSION_FEED_KEY (gateway_task_string task "mission_feed_key") in
  let status := opt_or (gateway_task_string task "status") (gateway_task_string task "state") in
  hint ← ok_or "gateway mission is missing mission_scope_hint or publisher_wattswarm_node_id"
           (opt_or (gateway_task_string task "mission_scope_hint")
              (publisher_node_scope_hint <$> node));
  Ok (mkRoute id feed hint node status).

(** [gateway_network_task], from the tasks the gateway listed. *)
Definition gateway_network_task (tasks : result (list json)) (task_id : string)
    : result (option json) :=
  l ← tasks;
  Ok (find_first (λ t, bool_decide (task_id_from_gateway_task t = Some task_id)) l).

(** ** Contracts *)

(** The fields of the swarm protocol's [TaskContract] that a node reads or sets;
    the others are passed on. *)
Record TaskContract {Rest : Type} := mkContract {
  ct_task_id : string;
  ct_task_type : string;
  ct_inputs : json;
  ct_output_schema : json;
  ct_expiry_ms : Z;
  ct_rest : Rest;
}.
Arguments TaskContract : clear implicits.
Arguments mkContract {Rest} _ _ _ _ _ _.

Definition MISSION_TASK_NO_EXPIRY_MS : Z := u64_max.

Definition domain_name (d : MissionDomain) : string :=
  match d with
  | Wealth => "wealth" | Power => "power" | Security => "security" | Trade => "trade"
  | Culture => "culture"
  end.
Definition scope_name (s : MissionScope) : string :=
  match s with RealWorld => "real_world" | InWorld => "in_world" end.
Definition publisher_kind_name (k : MissionPublisherKind) : string :=
  match k with
  | Player => "player" | Organization => "organization"
  | PlanetaryGovernment => "planetary_government" | NeutralHub => "neutral_hub"
  | System => "system"
  end.
Definition role_name (r : RolePath) : string :=
  match r with
  | Operator => "operator" | Broker => "broker" | Enforcer => "enforcer"
  | Artificer => "artificer"
  end.
Definition faction_name (f : Faction) : string :=
  match f with Order => "order" | Freeport => "freeport" | Raider => "raider" end.
Definition reward_json (r : MissionReward) : json :=
  JObject [("agent_watt", json_of_Z (agent_watt r)); ("reputation", json_of_Z (reputation r));
           ("capacity", json_of_Z (capacity r))].
Definition float_json (x : f64) : json := JNumber (Float x).

Definition settlement_delegation_from_payload (payload : json) : option json :=
  match json_get "settlement_delegation" payload with
  | Some (JObject o) => Some (JObject o)
  | _ => None
  end.

(** The delegation and the reward are added when there are any. *)
Definition with_terms (mission : CivilMission) (o : list (string * json)) : list (string * json) :=
  let o := match settlement_delegation_from_payload (payload mission) with
           | Some d => obj_insert "settlement_delegation" d o
           | None => o
           end in
  match reward mission with
  | Some r => obj_insert "reward" (reward_json r) o
  | None => o
  end.

Definition mission_task_inputs (mission : CivilMission) (publisher_did : string)
    (publisher_name : option string) (node : string) : json :=
  JObject (with_terms mission
    [("kind", JString "wattetheria_mission"); ("mission_id", JString (mission_id mission));
     ("title", JString (title mission)); ("description", JString (description mission));
     ("publisher", JString (publisher mission));
     ("publisher_kind", JString (publisher_kind_name (publisher_kind mission)));
     ("publisher_agent_did", JString publisher_did);
     ("publisher_display_name", json_of_option JString publisher_name);
     ("publisher_wattswarm_node_id", JString node);
     ("swarm_scope", JObject [("kind", JString "group"); ("id", JString (mission_id mission))]);
     ("mission_feed_key", JString MISSION_FEED_KEY);
     ("mission_scope_hint", JString (mission_task_scope_hint (mission_id mission)));
     ("domain", JString (domain_name (domain mission)));
     ("scope", JString (scope_name (scope mission)));
     ("required_role", json_of_option (JString ∘ role_name) (required_role mission));
     ("required_faction", json_of_option (JString ∘ faction_name) (required_faction mission));
     ("subnet_id", json_of_option JString (subnet_id mission));
     ("zone_id", json_of_option JString (zone_id mission));
     ("lat", json_of_option float_json (lat mission));
     ("lng", json_of_option float_json (lng mission));
     ("coordinate_source", json_of_option JString (coordinate_source mission));
     ("payload", payload mission)]).

(** [mission_announce_command]: the scope hint and the summary. *)
Definition mission_announce_command (mission : CivilMission) (publisher_did : string)
    (publisher_name : option string) (node : string) : string * json :=
  (mission_task_scope_hint (mission_id mission),
   JObject (with_terms mission
    [("kind", JString "wattetheria_mission"); ("mission_id", JString (mission_id mission));
     ("title", JString (title mission)); ("description", JString (description mission));
     ("domain", JString (domain_name (domain mission)));
     ("scope", JString (scope_name (scope mission)));
     ("publisher", JString (publisher mission));
     ("publisher_agent_did", JString publisher_did);
     ("publisher_display_name", json_of_option JString publisher_name);
     ("publisher_wattswarm_node_id", JString node);
     ("lat", json_of_option float_json (lat mission));
     ("lng", json_of_option float_json (lng mission));
     ("coordinate_source", json_of_option JString (coordinate_source mission));
     ("mission_feed_key", JString MISSION_FEED_KEY);
     ("mission_scope_hint", JString (mission_task_scope_hint (mission_id mission)))])).

Definition mission_task_output_schema : json :=
  JObject [("type", JString "object");
           ("required", JArray [JString "mission_id"; JString "agent_did"; JString "result"]);
           ("properties",
            JObject [("mission_id", JObject [("type", JString "string")]);
                     ("agent_did", JObject [("type", JString "string")]);
                     ("result", JObject [])])].

Section contracts.
Context {Rest : Type}.

Definition mission_task_contract (contract : TaskContract Rest) (mission : CivilMission)
    (publisher_did : string) (publisher_name : option string) (node : string)
    : TaskContract Rest :=
  mkContract (mission_id mission) "wattetheria.mission"
    (mission_task_inputs mission publisher_did publisher_name node)
    mission_task_output_schema MISSION_TASK_NO_EXPIRY_MS (ct_rest contract).

Definition enriched_fields : list string :=
  ["title"; "description"; "domain"; "publisher"; "publisher_agent_did"; "publisher_display_name";
   "publisher_wattswarm_node_id"; "reward"; "reward_watt"; "executor_bounty_watt";
   "publisher_network_reward_watt"].

Definition enrich_gateway_task_contract_inputs (contract : TaskContract Rest) (task : json)
    : TaskContract Rest :=
  match ct_inputs contract with
  | JObject o =>
      let add o field :=
        match assoc field o, gateway_task_value task field with
        | None, Some v => obj_insert field v o
        | _, _ => o
        end in
      mkContract (ct_task_id contract) (ct_task_type contract)
        (JObject (foldl add o enriched_fields))
        (ct_output_schema contract) (ct_expiry_ms contract) (ct_rest contract)
  | _ => contract
  end.

Definition validate_network_task_contract (contract : TaskContract Rest)
    (route : NetworkMissionClaimRoute) (body : MissionClaimBody) : result unit :=
  _ ← ensure_ok (String.eqb (ct_task_id contract) (rt_task_id route))
        ("gateway task_contract task_id `" +:+ ct_task_id contract
         +:+ "` does not match request task_id `" +:+ rt_task_id route +:+ "`");
  _ ← ensure_ok (String.eqb (ct_task_type contract) "wattetheria.mission")
        ("gateway task_contract task_type `" +:+ ct_task_type contract
         +:+ "` is not wattetheria.mission");
  let mission := default (ct_task_id contract) (get_str "mission_id" (ct_inputs contract)) in
  ensure_ok (String.eqb mission (cb_mission_id body))
    ("gateway task_contract mission_id `" +:+ mission
     +:+ "` does not match request mission_id `" +:+ cb_mission_id body +:+ "`").
End contracts.

(** ** What is remembered of a claim *)

Section metadata.
Context {Rest : Type} (body : MissionClaimBody) (contract : TaskContract Rest).

Definition network_claim_string (field : string) : option string :=
  opt_or (claim_route_string body field)
    (opt_or (inputs ← claim_route_value body "task_inputs"; value_string inputs field)
       (value_string (ct_inputs contract) field)).

Definition network_claim_value (field : string) : option json :=
  opt_or (claim_route_value body field)
    (opt_or (claim_route_value body "task_inputs" ≫= json_get field)
       (json_get field (ct_inputs contract))).

Definition network_claim_i64 (field : string) : option Z := network_claim_value field ≫= value_i64.

Definition reward_agent_watt (reward : json) : option Z :=
  opt_or (json_get "agent_watt" reward)
    (opt_or (json_get "executor_bounty_watt" reward) (json_get "reward_watt" reward))
  ≫= value_i64.

Definition network_claim_metadata (route : NetworkMissionClaimRoute)
    : Claims.NetworkMissionClaimMetadata :=
  let reward := network_claim_value "reward" in
  let reward_watt := opt_or (reward ≫= reward_agent_watt) (network_claim_i64 "reward_watt") in
  {| Claims.title := network_claim_string "title";
     Claims.publisher_id := network_claim_string "publisher";
     Claims.publisher_agent_did := network_claim_string "publisher_agent_did";
     Claims.publisher_display_name := network_claim_string "publisher_display_name";
     Claims.publisher_wattswarm_node_id :=
       opt_or (rt_publisher_node route) (network_claim_string "publisher_wattswarm_node_id");
     Claims.domain := network_claim_string "domain";
     Claims.scope := network_claim_string "scope";
     Claims.task_status := None;
     Claims.mission_feed_key := Some (rt_mission_feed_key route);
     Claims.mission_scope_hint := Some (rt_mission_scope_hint route);
     Claims.reward := reward;
     Claims.reward_watt := reward_watt;
     Claims.executor_bounty_watt :=
       opt_or (network_claim_i64 "executor_bounty_watt") reward_watt;
     Claims.publisher_network_reward_watt :=
       opt_or (network_claim_i64 "publisher_network_reward_watt")
         (network_claim_i64 "network_publish_reward_watt") |}.
End metadata.

(** ** Claiming and completing *)

(** The saved registry of claims, the claims the swarm accepted (task and
    execution id) and the completions that were published. *)
Record Desk := mkDesk {
  registry : Claims.NetworkMissionClaimRegistry;
  swarm_claims : list (string * string);
  completions : list (string * string * json);
}.
#[global] Instance Desk_eta : Eta Desk := λ d, mkDesk (registry d) (swarm_claims d) (completions d).

(** What a handler meets: the gateway's list of tasks, the decoder of contracts,
    the swarm (its node id, whether it takes a contract, an envelope, a claim, a
    notice), the local database and the clock. *)
Record Network {Rest : Type} := mkNetwork {
  gateway_tasks : result (list json);
  decode_contract : json → result (TaskContract Rest);
  local_node_id : result string;
  import_contract : TaskContract Rest → result json;
  claim_envelope : result unit;
  claim_task : string → string → result json;
  completed_notice : result json;
  load_claims : result unit;
  save_claims : result unit;
  claim_time : clock;
}.
Arguments Network : clear implicits.

(** The desk as it is now. *)
Definition desk : hst Desk Desk := λ d, (Answer d, d).

Section network.
Context {Rest : Type} (N : Network Rest).

(** A step that may fail, answered with a status. *)
Definition try_with {A} (status : Z) (r : result A) : hst Desk A :=
  match r with Ok a => mret a | Err e => refuse status e end.

Definition parse_network_task_contract (v : json) : result (TaskContract Rest) :=
  match decode_contract N v with
  | Ok c => Ok c
  | Err e => Err ("gateway task_contract is invalid: " +:+ e)
  end.

Definition contract_value_from_gateway_task (task : json) : option json :=
  opt_or (json_get "task_contract" task) (json_get "contract" task).

Definition gateway_network_task_contract (task_id : string) : result (option (TaskContract Rest)) :=
  found ← gateway_network_task (gateway_tasks N) task_id;
  match found with
  | None => Ok None
  | Some task =>
      match contract_value_from_gateway_task task with
      | None => Ok None
      | Some v =>
          contract ← parse_network_task_contract v;
          Ok (Some (enrich_gateway_task_contract_inputs contract task))
      end
  end.

Definition network_claim_route_for_action (body : MissionClaimBody)
    : hst Desk NetworkMissionClaimRoute :=
  match network_claim_route body with
  | Ok route => mret route
  | Err route_error =>
      found ← try_with 500 (gateway_network_task (gateway_tasks N) (cb_mission_id body));
      match found with
      | Some task => try_with 400 (network_claim_route_from_gateway_task body task)
      | None => refuse 400 route_error
      end
  end.

Definition network_task_contract_for_action (route : NetworkMissionClaimRoute)
    (body : MissionClaimBody) (action : string) : hst Desk (TaskContract Rest) :=
  contract ←
    match opt_or (claim_route_value body "task_contract") (claim_route_value body "contract") with
    | Some v => try_with 400 (parse_network_task_contract v)
    | None =>
        found ← try_with 500 (gateway_network_task_contract (rt_task_id route));
        match found with
        | Some contract => mret contract
        | None => refuse 400 ("network mission " +:+ action
            +:+ " requires task_contract from gateway; refresh publisher snapshot before retrying")
        end
    end;
  try_with 400 (validate_network_task_contract contract route body);;
  mret contract.

Definition import_network_task_contract (contract : TaskContract Rest) : hst Desk (string * json) :=
  node ← try_with 500 (local_node_id N);
  sync ← try_with 500 (import_contract N contract);
  mret (node, sync).

Definition network_claim_status_allows_claim (status : string) : bool :=
  let s := to_ascii_lowercase (trim status) in String.eqb s "published" || String.eqb s "open".

Definition network_claim_status_allows_complete (status : option string) : bool :=
  is_some_and (λ s, eq_ignore_ascii_case (trim s) "claimed") status.

(** [mission_not_claimable_response] and [mission_already_claimed_response]. *)
Definition mission_not_claimable_response {A} (status : string) : hst Desk A :=
  if String.eqb (to_ascii_lowercase (trim status)) "claimed"
  then refuse 409 "mission already claimed" else refuse 409 "mission is not claimable".

Definition recorded_network_claim (mission task agent : string)
    : hst Desk (option Claims.NetworkMissionClaimRecord) :=
  try_with 500 (load_claims N);;
  d ← desk;
  mret (Claims.get (registry d) mission task agent).

Definition network_claim_already_recorded (mission task agent : string) : hst Desk bool :=
  try_with 500 (load_claims N);;
  d ← desk;
  mret (Claims.contains (registry d) mission task agent).

(** The registry is loaded, changed and saved. *)
Definition save_registry (reg : Claims.NetworkMissionClaimRegistry) : hst Desk unit := λ d,
  match save_claims N with
  | Ok _ => (Answer tt, d <| registry := reg |>)
  | Err e => (internal_error e, d)
  end.

Definition record_network_claim_submission (mission task agent execution : string)
    (status : option string) (md : Claims.NetworkMissionClaimMetadata) : hst Desk unit :=
  try_with 500 (load_claims N);;
  d ← desk;
  save_registry
    (Claims.record (claim_time N) mission task agent execution status md (registry d)).2.

Definition record_network_claim_completed (mission task agent : string) : hst Desk unit :=
  try_with 500 (load_claims N);;
  d ← desk;
  match Claims.update_status mission task agent "completed" (registry d) with
  | (Some _, reg) => save_registry reg
  | (None, _) => refuse 500 "recorded network mission claim not found"
  end.

(** [swarm_bridge.claim_task], with [network_claim_error_response]. *)
Definition submit_claim (task execution : string) : hst Desk json := λ d,
  match claim_task N task execution with
  | Ok v => (Answer v, d <| swarm_claims ::= cons (task, execution) |>)
  | Err e =>
      if contains_text (to_bytes "lease conflict") (to_bytes e)
      then (Refuse 409 "mission already claimed", d) else (internal_error e, d)
  end.

Definition claim_network_mission (direct : bool) (body : MissionClaimBody)
    : hst Desk (NetworkMissionClaimRoute * string * json) :=
  require direct 400 "network mission claim requires a direct request";;
  route ← network_claim_route_for_action body;
  let execution := mission_execution_id (rt_task_id route) (cb_agent_did body) in
  match rt_status route with
  | Some status =>
      if network_claim_status_allows_claim status then mret tt
      else mission_not_claimable_response status
  | None => mret tt
  end;;
  recorded ← network_claim_already_recorded (cb_mission_id body) (rt_task_id route)
               (cb_agent_did body);
  require (negb recorded) 409 "mission already claimed";;
  contract ← network_task_contract_for_action route body "claim";
  let status := opt_or (rt_status route) (network_claim_string body contract "status") in
  let md := network_claim_metadata body contract route in
  import_network_task_contract contract;;
  try_with 500 (claim_envelope N);;
  swarm_claim ← submit_claim (rt_task_id route) execution;
  record_network_claim_submission (cb_mission_id body) (rt_task_id route) (cb_agent_did body)
    execution status md;;
  mret (route, execution, swarm_claim).

(** [publish_mission_completed_lifecycle_notice], its outcome. *)
Definition publish_completed (task mission : string) (res : json) : hst Desk json := λ d,
  match completed_notice N with
  | Ok v => (Answer v, d <| completions ::= cons (task, mission, res) |>)
  | Err e => (internal_error e, d)
  end.

Definition complete_network_mission (body : MissionClaimBody)
    : hst Desk (NetworkMissionClaimRoute * string) :=
  route ← network_claim_route_for_action body;
  found ← recorded_network_claim (cb_mission_id body) (rt_task_id route) (cb_agent_did body);
  match found with
  | Some record =>
      if network_claim_status_allows_complete (Claims.status record) then
        match opt_or (cb_result body) (claim_route_value body "result") with
        | None => refuse 400 "network mission complete requires result"
        | Some res =>
            contract ← network_task_contract_for_action route body "complete";
            import_network_task_contract contract;;
            publish_completed (rt_task_id route) (cb_mission_id body) res;;
            record_network_claim_completed (cb_mission_id body) (rt_task_id route)
              (cb_agent_did body);;
            mret (route, Claims.execution_id record)
        end
      else refuse 400 "network mission complete requires a recorded claimed mission"
  | None => refuse 400 "network mission complete requires a recorded claimed mission"
  end.
End network.

(** ** Claims are submitted once *)

Section once.
Context {Rest : Type}.
Implicit Types N : Network Rest.

(** Steps that leave the desk as it is. *)
Definition pure_step {A} (m : hst Desk A) : Prop := ∀ d, (m d).2 = d.

Lemma pure_try {A} status (r : result A) : pure_step (try_with status r).
Proof. by destruct r. Qed.
Lemma pure_ret {A} (a : A) : pure_step (mret a).
Proof. done. Qed.
Lemma pure_refuse {A} s e : pure_step (refuse s e : hst Desk A).
Proof. done. Qed.
Lemma pure_desk : pure_step desk.
Proof. done. Qed.
Lemma pure_bind {A B} (m : hst Desk A) (k : A → hst Desk B) :
  pure_step m → (∀ a, pure_step (k a)) → pure_step (m ≫= k).
Proof.
  intros Hm Hk d. specialize (Hm d). cbv [mbind handler_bind].
  destruct (m d) as [[a|s e] d']; cbn in Hm |- *; [by rewrite Hm Hk|done].
Qed.
#[local] Hint Resolve pure_try pure_ret pure_refuse pure_desk pure_bind : core.

Lemma pure_route N body : pure_step (network_claim_route_for_action N body).
Proof.
  rewrite /network_claim_route_for_action. destruct (network_claim_route body); [auto|].
  apply pure_bind; [auto|]. intros [task|]; auto.
Qed.

Lemma pure_contract N route body action :
  pure_step (network_task_contract_for_action N route body action).
Proof.
  rewrite /network_task_contract_for_action. apply pure_bind; [|auto].
  destruct (opt_or _ _); [auto|]. apply pure_bind; [auto|]. intros [c|]; auto.
Qed.

Lemma pure_import N c : pure_step (import_network_task_contract N c).
Proof. rewrite /import_network_task_contract. auto. Qed.

Lemma pure_already N m t a : pure_step (network_claim_already_recorded N m t a).
Proof. rewrite /network_claim_already_recorded. auto. Qed.

Lemma pure_recorded N m t a : pure_step (recorded_network_claim N m t a).
Proof. rewrite /recorded_network_claim. auto. Qed.

(** A pure step that answers leaves the desk. *)
Lemma pure_answer {A} (m : hst Desk A) d a d' : pure_step m → m d = (Answer a, d') → d' = d.
Proof. intros Hm Hrun. specialize (Hm d). by rewrite Hrun in Hm. Qed.

Lemma try_answer {A} status (r : result A) d a d' :
  try_with status r d = (Answer a, d') → r = Ok a ∧ d' = d.
Proof. destruct r as [x|e]; cbn; [intros [= <- <-]; done|done]. Qed.

Lemma already_answer N m t a d b d' :
  network_claim_already_recorded N m t a d = (Answer b, d') →
  b = Claims.contains (registry d) m t a ∧ d' = d.
Proof.
  intros (u & d1 & [_ ->]%try_answer & Hrun)%handler_bind_inv.
  apply handler_bind_inv in Hrun as (d2 & d3 & [= <- <-] & [= <- <-]). done.
Qed.

(** What a claim that is answered did: it was not recorded, the swarm took it,
    and it is recorded now. *)
Lemma claim_answer N direct body d route execution v d' :
  claim_network_mission N direct body d = (Answer (route, execution, v), d') →
  network_claim_route_for_action N body d = (Answer route, d)
  ∧ Claims.contains (registry d) (cb_mission_id body) (rt_task_id route) (cb_agent_did body) = false
  ∧ execution = mission_execution_id (rt_task_id route) (cb_agent_did body)
  ∧ swarm_claims d' = (rt_task_id route, execution) :: swarm_claims d
  ∧ completions d' = completions d
  ∧ Claims.contains (registry d') (cb_mission_id body) (rt_task_id route) (cb_agent_did body) = true.
Proof.
  intros (u & d0 & H0 & Hrun)%handler_bind_inv.
  assert (d0 = d) as -> by (destruct direct; by injection H0).
  apply handler_bind_inv in Hrun as (rt & d1 & H1 & Hrun).
  pose proof (pure_answer _ _ _ _ (pure_route N body) H1) as ->.
  apply handler_bind_inv in Hrun as ([] & d2 & H2 & Hrun).
  assert (d2 = d) as ->.
  { revert H2. rewrite /mission_not_claimable_response. repeat case_match; by intros [=]. }
  apply handler_bind_inv in Hrun as (rec & d3 & [Hrec ->]%already_answer & Hrun).
  apply handler_bind_inv in Hrun as ([] & d4 & H4 & Hrun).
  destruct rec; [done|]. injection H4 as <-.
  apply handler_bind_inv in Hrun as (c & d5 & H5 & Hrun).
  pose proof (pure_answer _ _ _ _ (pure_contract N _ _ _) H5) as ->.
  apply handler_bind_inv in Hrun as (x & d6 & H6 & Hrun).
  pose proof (pure_answer _ _ _ _ (pure_import N _) H6) as ->.
  apply handler_bind_inv in Hrun as ([] & d7 & [_ ->]%try_answer & Hrun).
  apply handler_bind_inv in Hrun as (v' & d8 & H8 & Hrun).
  apply handler_bind_inv in Hrun as ([] & d9 & H9 & [= <- <- <- <-]).
  rewrite /submit_claim in H8. destruct (claim_task N _ _) as [w|e]; [|by case_match].
  injection H8 as _ <-.
  apply handler_bind_inv in H9 as ([] & d10 & [_ ->]%try_answer & H9).
  apply handler_bind_inv in H9 as (d11 & d12 & [= <- <-] & H9).
  rewrite /save_registry in H9. destruct (save_claims N); [|done]. injection H9 as <-.
  split_and!; try done. cbn. apply bool_decide_eq_true. by rewrite lookup_insert_eq.
Qed.

(** A recorded claim is not submitted again. *)
Lemma claim_recorded_refused N direct body d route :
  network_claim_route_for_action N body d = (Answer route, d) →
  Claims.contains (registry d) (cb_mission_id body) (rt_task_id route) (cb_agent_did body) = true →
  ∃ s e, claim_network_mission N direct body d = (Refuse s e, d).
Proof.
  intros Hr Hc. destruct (claim_network_mission N direct body d) as [[[[rt x] v]|s e] d'] eqn:Hrun.
  - apply claim_answer in Hrun as (Hr' & Hno & _). rewrite Hr in Hr'. simplify_eq. congruence.
  - exists s, e. f_equal. revert Hrun. rewrite /claim_network_mission.
    cbv [mbind handler_bind]. rewrite /require. destruct direct; [|by intros [=]].
    cbv [mret handler_ret]. rewrite Hr.
    set (chk := match rt_status route with Some _ => _ | None => _ end).
    assert (pure_step chk) as Hp.
    { rewrite /chk /mission_not_claimable_response. repeat case_match; auto. }
    specialize (Hp d). destruct (chk d) as [[[]|s' e'] d1]; cbn in Hp; subst d1; [|by intros [=]].
    pose proof (pure_already N (cb_mission_id body) (rt_task_id route) (cb_agent_did body) d) as Hp.
    pose proof (already_answer N (cb_mission_id body) (rt_task_id route) (cb_agent_did body) d) as Ha.
    destruct (network_claim_already_recorded _ _ _ _ d) as [[b|s' e'] d1]; cbn in Hp; subst d1;
      [|by intros [=]].
    destruct (Ha b d eq_refl) as [-> _]. rewrite Hc. by intros [=].
Qed.

(** A network claim is submitted once. A claim that is answered was
    accepted by the swarm and recorded; any later claim of the same mission and
    task by the same agent, whatever the gateway, the swarm and the route of the
    request are then, is refused and reaches neither the swarm nor the registry. *)
Theorem network_claim_once N N2 direct direct2 body body2 d route execution v d' route2 :
  claim_network_mission N direct body d = (Answer (route, execution, v), d') →
  cb_mission_id body2 = cb_mission_id body → cb_agent_did body2 = cb_agent_did body →
  network_claim_route_for_action N2 body2 d' = (Answer route2, d') →
  rt_task_id route2 = rt_task_id route →
  swarm_claims d' = (rt_task_id route, execution) :: swarm_claims d
  ∧ ∃ s e, claim_network_mission N2 direct2 body2 d' = (Refuse s e, d').
Proof.
  intros (_ & _ & _ & Hs & _ & Hc)%claim_answer Hm Ha Hr Ht. split; [done|].
  apply (claim_recorded_refused N2 direct2 body2 d' route2 Hr). by rewrite Hm Ha Ht.
Qed.

Lemma recorded_answer N m t a d o d' :
  recorded_network_claim N m t a d = (Answer o, d') → o = Claims.get (registry d) m t a ∧ d' = d.
Proof.
  intros (u & d1 & [_ ->]%try_answer & Hrun)%handler_bind_inv.
  apply handler_bind_inv in Hrun as (d2 & d3 & [= <- <-] & [= <- <-]). done.
Qed.

(** A completion that is answered was recorded as claimed, is published once and
    leaves the record completed, which allows no other. *)
Lemma complete_answer N body d route execution d' :
  complete_network_mission N body d = (Answer (route, execution), d') →
  ∃ record res,
    Claims.get (registry d) (cb_mission_id body) (rt_task_id route) (cb_agent_did body) = Some record
    ∧ network_claim_status_allows_complete (Claims.status record) = true
    ∧ opt_or (cb_result body) (claim_route_value body "result") = Some res
    ∧ completions d' = (rt_task_id route, cb_mission_id body, res) :: completions d
    ∧ Claims.get (registry d') (cb_mission_id body) (rt_task_id route) (cb_agent_did body)
      = Some (Claims.set_status "completed" record)
    ∧ network_claim_status_allows_complete (Claims.status (Claims.set_status "completed" record))
      = false.
Proof.
  intros (rt & d1 & H1 & Hrun)%handler_bind_inv.
  pose proof (pure_answer _ _ _ _ (pure_route N body) H1) as ->.
  apply handler_bind_inv in Hrun as (found & d2 & [Hf ->]%recorded_answer & Hrun).
  destruct found as [record|]; [|done].
  destruct (network_claim_status_allows_complete (Claims.status record)) eqn:Ha; [|done].
  destruct (opt_or _ _) as [res|] eqn:Hres; [|done].
  apply handler_bind_inv in Hrun as (c & d5 & H5 & Hrun).
  pose proof (pure_answer _ _ _ _ (pure_contract N _ _ _) H5) as ->.
  apply handler_bind_inv in Hrun as (x & d6 & H6 & Hrun).
  pose proof (pure_answer _ _ _ _ (pure_import N _) H6) as ->.
  apply handler_bind_inv in Hrun as (y & d7 & H7 & Hrun).
  rewrite /publish_completed in H7. destruct (completed_notice N); [|done]. injection H7 as _ <-.
  apply handler_bind_inv in Hrun as ([] & d8 & H8 & [= <- <- <-]).
  apply handler_bind_inv in H8 as ([] & d9 & [_ ->]%try_answer & H8).
  apply handler_bind_inv in H8 as (d10 & d11 & [= <- <-] & H8). cbn [registry] in H8.
  exists record, res. unfold Claims.get in Hf. symmetry in Hf.
  rewrite /Claims.update_status in H8. cbn in H8. rewrite Hf in H8.
  rewrite /save_registry in H8. destruct (save_claims N); [|done]. injection H8 as <-.
  split_and!; try done. rewrite /Claims.get /=. by rewrite lookup_insert_eq.
Qed.
End once.

(** ** A published mission can be claimed *)

Lemma assoc_with_terms m o k :
  String.eqb k "settlement_delegation" = false → String.eqb k "reward" = false →
  assoc k (with_terms m o) = assoc k o.
Proof.
  intros H1 H2. rewrite /with_terms.
  destruct (settlement_delegation_from_payload _), (reward m);
    rewrite ?assoc_obj_insert ?H2 ?assoc_obj_insert ?H1 //.
Qed.

(** What a node announces about its mission leads another node to it. From
    the announced summary, listed by the gateway, a claim derives the task, the
    feed, the group scope and the publishing node that the publisher used, and
    the contract the publisher made for the mission passes the claimer's
    validation. *)
Theorem announced_mission_claimable {Rest} (contract : TaskContract Rest) m did name node agent :
  graphic (mission_id m) = true → mission_id m ≠ "" → graphic node = true → node ≠ "" →
  let '(hint, summary) := mission_announce_command m did name node in
  let body := local_claim (mission_id m) agent in
  ∃ route, network_claim_route_from_gateway_task body summary = Ok route
    ∧ rt_task_id route = mission_id m ∧ rt_mission_feed_key route = MISSION_FEED_KEY
    ∧ rt_mission_scope_hint route = hint ∧ rt_publisher_node route = Some node
    ∧ rt_status route = None
    ∧ validate_network_task_contract (mission_task_contract contract m did name node) route body
      = Ok tt.
Proof.
  intros Hg Hne Hgn Hnn. cbn [mission_announce_command].
  set (body := local_claim (mission_id m) agent).
  set (o := with_terms m _).
  assert (graphic (mission_task_scope_hint (mission_id m)) = true) as Hgh.
  { rewrite /mission_task_scope_hint graphic_app Hg. reflexivity. }
  rewrite /network_claim_route_from_gateway_task.
  assert (task_id_from_gateway_task (JObject o) = Some (mission_id m)) as ->.
  { rewrite /task_id_from_gateway_task. cbn [json_get]. rewrite /o !assoc_with_terms //=.
    by apply trimmed_graphic. }
  assert (gateway_task_string (JObject o) "publisher_wattswarm_node_id" = Some node) as ->.
  { rewrite /gateway_task_string /gateway_task_value. cbn [json_get].
    rewrite /o !assoc_with_terms //=. by apply trimmed_graphic. }
  assert (gateway_task_string (JObject o) "mission_feed_key" = Some MISSION_FEED_KEY) as ->.
  { rewrite /gateway_task_string /gateway_task_value. cbn [json_get].
    rewrite /o !assoc_with_terms //=. }
  assert (gateway_task_string (JObject o) "mission_scope_hint"
          = Some (mission_task_scope_hint (mission_id m))) as ->.
  { rewrite /gateway_task_string /gateway_task_value. cbn [json_get].
    rewrite /o !assoc_with_terms //=. by apply trimmed_graphic. }
  assert (∀ k, k = "status" ∨ k = "state" → gateway_task_string (JObject o) k = None) as Hst.
  { intros k [-> | ->]; rewrite /gateway_task_string /gateway_task_value; cbn [json_get];
      by rewrite /o !assoc_with_terms. }
  rewrite !Hst; [|auto..]. cbn [ok_or opt_or default].
  eexists. split; [reflexivity|]. cbn [rt_task_id rt_mission_feed_key rt_mission_scope_hint
    rt_publisher_node rt_status]. split_and!; try done.
  rewrite /validate_network_task_contract /mission_task_contract.
  cbn [ct_task_id ct_task_type ct_inputs rt_task_id]. rewrite String.eqb_refl. cbn.
  rewrite assoc_with_terms //=. by rewrite String.eqb_refl.
Qed.

(** ** Delegated settlements *)

Module Delegation.

Definition SERVICE_NET_AGENT_PROVIDER : string := "servicenet-agent".

Definition delegation_enabled (v : json) : result bool :=
  match json_get "enabled" v with
  | Some (JBool enabled) => Ok enabled
  | Some _ => Err "settlement_delegation enabled must be a boolean"
  | None => Ok true
  end.

Definition optional_string (o : list (string * json)) (key : string) : option string :=
  trimmed_nonempty (assoc key o ≫= as_str).

Definition required_string (o : list (string * json)) (key : string) : result string :=
  ok_or ("settlement_delegation " +:+ key +:+ " is required") (optional_string o key).

Definition required_string_any (o : list (string * json)) (first second : string) : result string :=
  ok_or ("settlement_delegation " +:+ first +:+ " is required")
    (opt_or (optional_string o first) (optional_string o second)).

Definition required_object (o : list (string * json)) (key : string)
    : result (list (string * json)) :=
  match assoc key o with
  | Some (JObject inner) => Ok inner
  | _ => Err ("settlement_delegation " +:+ key +:+ " must be a JSON object")
  end.

Definition validate_funding_proof (v : option json) : result unit :=
  match v with
  | None => Ok tt
  | Some (JObject o) =>
      if bool_decide (optional_string o "type" = Some "evm_tx") then
        hash ← required_string o "tx_hash";
        ensure_ok (is_evm_transaction_hash hash)
          "settlement_delegation funding_proof tx_hash must be an EVM transaction hash"
      else Ok tt
  | Some _ => Err "settlement_delegation funding_proof must be a JSON object"
  end.

Definition normalize_publish_delegation (value : option json) : result (option json) :=
  match value with
  | None => Ok None
  | Some v =>
      enabled ← delegation_enabled v;
      if negb enabled then Ok None
      else
        match v with
        | JObject o =>
            layer ← required_string o "layer";
            _ ← ensure_ok (String.eqb layer "web2" || String.eqb layer "web3")
                  ("settlement_delegation layer `" +:+ layer +:+ "` is not supported");
            provider ← required_string o "provider";
            _ ← ensure_ok (String.eqb provider SERVICE_NET_AGENT_PROVIDER)
                  ("settlement_delegation provider `" +:+ provider +:+ "` is not supported yet");
            agent_id ← required_string o "provider_agent_id";
            agent_name ← required_string_any o "provider_agent_name" "provider_name";
            asset ← required_string o "asset";
            amount ← required_string o "amount";
            receipt ← required_object o "provider_receipt";
            status ← required_string receipt "status";
            _ ← validate_funding_proof (assoc "funding_proof" o);
            Ok (Some (JObject
              (obj_insert "status" (JString status)
              (obj_insert "amount" (JString amount)
              (obj_insert "asset" (JString asset)
              (obj_insert "provider_agent_name" (JString agent_name)
              (obj_insert "provider_agent_id" (JString agent_id)
              (obj_insert "provider" (JString provider)
              (obj_insert "layer" (JString layer)
              (obj_insert "enabled" (JBool true) o))))))))))
        | _ => Err "settlement_delegation must be a JSON object"
        end
  end.

Definition payload_with_settlement_delegation (payload : json) (delegation : option json) : json :=
  match delegation with
  | None => payload
  | Some d =>
      JObject (obj_insert "settlement_delegation" d
                 (match payload with JObject o => o | _ => [] end))
  end.

(** What is published with a mission is found again in its payload. *)
Lemma delegation_kept payload v d :
  normalize_publish_delegation (Some v) = Ok (Some d) →
  settlement_delegation_from_payload (payload_with_settlement_delegation payload (Some d)) = Some d.
Proof.
  intros Hn. assert (∃ o, d = JObject o) as [o ->].
  { revert Hn. cbn [normalize_publish_delegation].
    intros (en & _ & Hn)%result_bind_ok. destruct en; cbn [negb] in Hn; [|done].
    destruct v; try done.
    repeat (apply result_bind_ok in Hn as (? & _ & Hn)). injection Hn as <-. eauto. }
  rewrite /settlement_delegation_from_payload /payload_with_settlement_delegation. cbn [json_get].
  by rewrite assoc_obj_insert String.eqb_refl.
Qed.

(** An escrow service can only be named with a layer, an agent, an amount, an
    asset and a receipt with a status; a named EVM transaction must have a
    well-formed hash. *)
Lemma delegation_complete o d :
  normalize_publish_delegation (Some (JObject o)) = Ok (Some d) →
  (optional_string o "layer" = Some "web2" ∨ optional_string o "layer" = Some "web3")
  ∧ optional_string o "provider" = Some SERVICE_NET_AGENT_PROVIDER
  ∧ is_Some (optional_string o "asset") ∧ is_Some (optional_string o "amount")
  ∧ json_get "enabled" d = Some (JBool true)
  ∧ ∀ p h, assoc "funding_proof" o = Some (JObject p) → optional_string p "type" = Some "evm_tx" →
      optional_string p "tx_hash" = Some h → is_evm_transaction_hash h = true.
Proof.
  cbn [normalize_publish_delegation].
  intros (en & _ & Hn)%result_bind_ok. destruct en; cbn [negb] in Hn; [|done].
  apply result_bind_ok in Hn as (layer & Hl%ok_or_ok & Hn).
  apply result_bind_ok in Hn as (u & Hw%ensure_ok_ok & Hn).
  apply result_bind_ok in Hn as (prov & Hp%ok_or_ok & Hn).
  apply result_bind_ok in Hn as (u' & Hpe%ensure_ok_ok & Hn). apply String.eqb_eq in Hpe as ->.
  apply result_bind_ok in Hn as (aid & _ & Hn). apply result_bind_ok in Hn as (an & _ & Hn).
  apply result_bind_ok in Hn as (asset & Hasset%ok_or_ok & Hn).
  apply result_bind_ok in Hn as (amount & Hamount%ok_or_ok & Hn).
  apply result_bind_ok in Hn as (receipt & _ & Hn). apply result_bind_ok in Hn as (st & _ & Hn).
  apply result_bind_ok in Hn as (u'' & Hf & [= <-]).
  rewrite Hl Hp Hasset Hamount. split_and!; [|done|by eexists|by eexists| |].
  - apply orb_true_iff in Hw as [->%String.eqb_eq | ->%String.eqb_eq]; auto.
  - cbn [json_get]. by rewrite !assoc_obj_insert.
  - intros p h Hpr Ht Hh. rewrite Hpr in Hf. cbn in Hf. rewrite bool_decide_eq_true_2 // in Hf.
    apply result_bind_ok in Hf as (h' & Hh'%ok_or_ok & He%ensure_ok_ok). congruence.
Qed.
End Delegation.

(** ** The people of a mission *)

Definition mission_identity_for_participant (identities : list PublicIdentity)
    (participant : option string) : option PublicIdentity :=
  p ← participant;
  let p := trim p in
  if String.eqb p "" then None
  else find_first (λ i, String.eqb (pi_public_id i) p || bool_decide (pi_agent_did i = Some p))
         identities.

Definition insert_mission_identity_projection (prefix : string) (i : PublicIdentity)
    (o : list (string * json)) : list (string * json) :=
  let o := or_insert (prefix +:+ "_agent_identity") (JString (pi_display_name i)) o in
  let o := or_insert (prefix +:+ "_display_name") (JString (pi_display_name i)) o in
  let o := or_insert (prefix +:+ "_public_id") (JString (pi_public_id i)) o in
  match pi_agent_did i with
  | Some did => or_insert (prefix +:+ "_agent_did") (JString did) o
  | None => o
  end.

Definition insert_mission_actor_projection_fallback (prefix agent_did : string)
    (body : MissionClaimBody) (o : list (string * json)) : list (string * json) :=
  let o := if String.eqb (trim agent_did) "" then o
           else or_insert (prefix +:+ "_agent_did") (JString agent_did) o in
  let o := match mission_claim_actor_display_name body with
           | Some name => or_insert (prefix +:+ "_display_name") (JString name)
                            (or_insert (prefix +:+ "_agent_identity") (JString name) o)
           | None => o
           end in
  match mission_claim_actor_public_id body with
  | Some id => or_insert (prefix +:+ "_public_id") (JString id) o
  | None => o
  end.

Definition insert_mission_transition_actor_projection (payload : json) (action agent_did : string)
    (body : MissionClaimBody) : json :=
  match payload with
  | JObject o =>
      if String.eqb action "claim" then
        JObject (insert_mission_actor_projection_fallback "claimer" agent_did body o)
      else if String.eqb action "complete" then
        JObject (insert_mission_actor_projection_fallback "completer" agent_did body
                   (insert_mission_actor_projection_fallback "claimer" agent_did body o))
      else payload
  | _ => payload
  end.

Definition insert_mission_settle_actor_projection_fallbacks (payload : json)
    (mission : CivilMission) (body : MissionSettleBody) : json :=
  match payload with
  | JObject o =>
      let actor agent := mkClaimBody (sb_mission_id body) agent None None None None
                           (sb_claim_route body) None in
      let o := match opt_or (claimed_by mission) (sb_agent_did body) with
               | Some agent => insert_mission_actor_projection_fallback "claimer" agent (actor agent) o
               | None => o
               end in
      JObject (match sb_agent_did body with
               | Some agent => insert_mission_actor_projection_fallback "completer" agent (actor agent) o
               | None => o
               end)
  | _ => payload
  end.

(** A field that is there already is never overwritten by a projection. *)
Lemma fallback_keeps prefix agent body o k x :
  assoc k o = Some x →
  assoc k (insert_mission_actor_projection_fallback prefix agent body o) = Some x.
Proof.
  intros Hx. rewrite /insert_mission_actor_projection_fallback.
  repeat case_match; eauto using or_insert_keeps.
Qed.

(** ** A claim of another node's mission *)

Module RouteScenario.
Definition contract : TaskContract unit := mkContract "" "" JNull JNull 0 tt.
Definition mission : CivilMission :=
  mkCivilMission "m-1" "survey" "" "did:p" Player Trade RealWorld None None None None
    (Some (mkMissionReward 50 1 0)) JNull None None None 1 1 None None None None None Open None
    false None.
Definition offered : TaskContract unit := mission_task_contract contract mission "did:p" None "node-p".

(** The gateway lists the announced summary with the contract. *)
Definition listed_task : json :=
  match (mission_announce_command mission "did:p" None "node-p").2 with
  | JObject o => JObject (obj_insert "task_contract" JNull o)
  | v => v
  end.
Definition net : Network unit :=
  {| gateway_tasks := Ok [listed_task]; decode_contract := λ _, Ok offered;
     local_node_id := Ok "node-a"; import_contract := λ _, Ok JNull; claim_envelope := Ok tt;
     claim_task := λ _ _, Ok JNull; completed_notice := Ok JNull; load_claims := Ok tt;
     save_claims := Ok tt; claim_time := λ _, 7 |}.
Definition body : MissionClaimBody := local_claim "m-1" "did:a".
Definition empty_desk : Desk := mkDesk ∅ [] [].
Definition desk1 : Desk := (claim_network_mission net true body empty_desk).2.
Definition route1 : NetworkMissionClaimRoute :=
  mkRoute "m-1" MISSION_FEED_KEY "group:m-1" (Some "node-p") None.

Lemma announced_mission_claimable_witness :
  ∃ route, network_claim_route_from_gateway_task body
             (mission_announce_command mission "did:p" None "node-p").2 = Ok route
    ∧ validate_network_task_contract offered route body = Ok tt.
Proof.
  destruct (announced_mission_claimable contract mission "did:p" None "node-p" "did:a")
    as (route & Hr & _ & _ & _ & _ & _ & Hv); [reflexivity|discriminate|reflexivity|discriminate|].
  exact (ex_intro _ route (conj Hr Hv)).
Defined.

Lemma network_claim_once_witness :
  ∃ s e, claim_network_mission net true body desk1 = (Refuse s e, desk1).
Proof.
  assert (claim_network_mission net true body empty_desk
          = (Answer (route1, "wattetheria:m-1:did:a", JNull), desk1)) as Hrun
    by (vm_compute; reflexivity).
  assert (network_claim_route_for_action net body desk1 = (Answer route1, desk1)) as Hr
    by (vm_compute; reflexivity).
  destruct (network_claim_once net net true true body body empty_desk route1
    "wattetheria:m-1:did:a" JNull desk1 route1 Hrun eq_refl eq_refl Hr eq_refl) as [_ H].
  exact H.
Defined.
End RouteScenario.
