(* ===== verification/Escrow.v ===== *)
(** * Mission bounties in escrow

    The escrow half of [crates/control-plane/src/routes/missions.rs]: publishing
    a mission locks its bounty in the gateway's ledger, settling releases it,
    cancelling refunds it, and a periodic sweep reconciles the board with the
    ledger. Every [await] is a point where other requests may run: the world
    passes through [others] before each use of the board and each exchange with
    the ledger. The ledger answers as it likes, given all that was asked of it. *)

From S2P Require Import Prelude Collections Text Json Signing Hashcash Profiles Missions Tasks X402 Access LedgerClient MissionRoutes.
#[local] Open Scope Z_scope.
#[local] Set Default Proof Using "Type*".

(** ** The world of a handler *)

Definition Exchange : Type := LedgerRequest * http_answer.

(** The board in memory and the one last saved, all exchanges with the ledger
    (newest first), the announced cancellations with reason and actor, and a
    counter of steps from which clocks and failures are drawn. *)
Record World := mkWorld {
  board : MissionBoard;
  stored : MissionBoard;
  exchanges : list Exchange;
  announced : list (CivilMission * option string * option string);
  moment : nat;
}.
#[global] Instance World_eta : Eta World := λ w,
  mkWorld (board w) (stored w) (exchanges w) (announced w) (moment w).

(** What a handler finds around it. [label] reads a display name, [geo] the
    node's public position; [time] and [time_ms] are the clocks, [save_domain]
    the outcome of a write of the board, [uuid] draws a fresh id. *)
Record Host := mkHost {
  agent_did : string;
  identity_did : string;
  ledger : option string;
  label : string → option string;
  geo : PublicGeoPayload;
  http : list Exchange → LedgerRequest → http_answer;
  time : nat → clock;
  time_ms : nat → Z;
  save_domain : nat → result unit;
  uuid : World → string;
  others : World → World;
}.

Notation mh := (hst World).

Section escrow.
Context `{HttpText} (E : Host).

(** Other requests run. *)
Definition pause : mh unit := λ w,
  let w' := others E w in (Answer tt, w' <| moment ::= S |>).

(** An operation of the board whose error is answered with a status. *)
Definition on_board {A} (status : Z) (op : clock → stm MissionBoard A) : mh A := λ w,
  match op (time E (moment w)) (board w) with
  | (Ok a, b) => (Answer a, w <| board := b |>)
  | (Err e, b) => (Refuse status e, w <| board := b |>)
  end.

Definition read_board {A} (f : MissionBoard → A) : mh A := λ w, (Answer (f (board w)), w).

Definition save_or (status : Z) : mh unit := λ w,
  match save_domain E (moment w) with
  | Ok _ => (Answer tt, w <| stored := board w |>)
  | Err e => (Refuse status e, w)
  end.
Definition save : mh unit := save_or 500.

(** One exchange with the ledger; the request carries the time it is made. *)
Definition exchange (r : Z → LedgerRequest) : mh http_answer := λ w,
  let req := r (time_ms E (moment w)) in
  let a := http E (exchanges w) req in
  (Answer a, w <| exchanges ::= cons (req, a) |>).
Definition ask (r : Z → LedgerRequest) : mh http_answer := pause;; exchange r.

(** The outcome of a handler whose refusal is only logged. *)
Definition attempt {A} (h : mh A) : mh (reply A) := λ w, let '(r, w') := h w in (Answer r, w').

Definition now : mh Z := λ w, (Answer (time E (moment w) 0%nat), w).

(** ** Ledger errors *)

Definition ledger_error_response {A} (e : LedgerError) : mh A :=
  refuse match e with
         | InsufficientBalance _ => 402
         | NotFound _ => 404
         | Rejected _ _ | Unavailable _ => 502
         end (ledger_error_to_string e).

Definition escrow_missing_response {A} (mission escrow message : string) : mh A :=
  refuse 502 ("escrow " +:+ escrow +:+ " recorded on mission " +:+ mission
              +:+ " is missing from the ledger: " +:+ message).

Definition escrow_is_locked_by (escrow : json) (payer : string) (amount : Z) : bool :=
  bool_decide (get_str "status" escrow = Some "locked")
  && bool_decide (get_str "payer_account" escrow = Some payer)
  && bool_decide (get_i64 "amount" escrow = Some amount).

Definition bounty_of (m : CivilMission) : Z := from_option agent_watt 0 (reward m).

Definition mission_bounty_subject (title : string) : string :=
  let title := trim title in
  if String.eqb title "" then "Mission bounty" else "Mission bounty: " +:+ title.

(** ** The board and its record of escrows *)

Definition cancel_on_board (id : string) : mh unit :=
  pause;;
  r ← attempt (on_board 500 (λ clk, cancel clk id));
  match r with Answer _ => save | Refuse _ _ => mret tt end.

Definition record_mission_escrow_intent (id escrow : string) : mh CivilMission :=
  pause;;
  mission ← on_board 500 (λ clk, record_bounty_escrow_intent clk id escrow);
  save;;
  mret mission.

Definition record_mission_escrow (id escrow : string) : mh CivilMission :=
  pause;;
  mission ← on_board 500 (λ clk, mark_bounty_escrowed clk id escrow);
  save;;
  mret mission.

Definition clear_mission_escrow (id : string) : mh CivilMission :=
  pause;;
  mission ← on_board 500 (λ clk, clear_bounty_escrow clk id);
  save;;
  mret mission.

Definition announce_mission_cancelled (m : CivilMission) (reason actor : option string) : mh unit :=
  λ w, (Answer tt, w <| announced ::= cons (m, reason, actor) |>).

(** ** Exchanges *)

Definition lock_escrow (escrow : string) (amount : Z) (reference : string)
    (payer_label subject : option string) : mh (ledger_result json) :=
  a ← ask (LockEscrow escrow (identity_did E) amount reference payer_label subject);
  mret (post_signed a).

Definition read_escrow (escrow_id : string) : mh (ledger_result (option json)) :=
  a ← ask (λ _, ReadEscrow escrow_id); mret (escrow a).

Definition release_escrow (escrow payee : string) (payee_label : option string)
    : mh (ledger_result json) :=
  a ← ask (ReleaseEscrow escrow (identity_did E) payee payee_label); mret (post_signed a).

Definition refund_escrow (escrow : string) : mh (ledger_result json) :=
  a ← ask (RefundEscrow escrow (identity_did E)); mret (post_signed a).

Definition ESCROW_STALE_AFTER_SECS : Z := 60 * 60.
Definition ESCROW_UNCONFIRMED_GRACE_SECS : Z := 5 * 60.

Definition no_gateway {A} (id escrow : string) : mh A :=
  ledger_error_response (Unavailable ("mission " +:+ id +:+ " has escrow " +:+ escrow
                                      +:+ " but no gateway is configured")).

(** ** Refunds *)

Definition refund_pending_escrow (id : string) (stale_after_secs : Z) : mh CivilMission :=
  pause;;
  found ← read_board (λ b, get b id);
  match found with
  | None => refuse 404 "mission not found"
  | Some mission =>
      match escrow_id mission with
      | None => mret mission
      | Some escrow =>
          match ledger E with
          | None => no_gateway id escrow
          | Some _ =>
              r ← refund_escrow escrow;
              match r with
              | inr _ => clear_mission_escrow id
              | inl (NotFound message) =>
                  t ← now;
                  if stale_after_secs <=? i64_saturating_sub t (updated_at mission)
                  then clear_mission_escrow id
                  else escrow_missing_response id escrow message
              | inl error => ledger_error_response error
              end
          end
      end
  end.

(** ** Locking a bounty *)

Definition lock_mission_bounty (mission : CivilMission) : mh CivilMission :=
  let bounty := bounty_of mission in
  if bounty <=? 0 then mret mission
  else
    let id := mission_id mission in
    match ledger E with
    | None =>
        cancel_on_board id;;
        refuse 503 "a Watt bounty needs a gateway ledger and this node has none configured"
    | Some _ =>
        record_mission_escrow_intent id id;;
        r ← lock_escrow id bounty id (label E (agent_did E))
              (Some (mission_bounty_subject (title mission)));
        match r with
        | inr _ => record_mission_escrow id id
        | inl error =>
            if ledger_outcome_is_definitive error then
              cancel_on_board id;;
              clear_mission_escrow id;;
              ledger_error_response error
            else
              found ← read_escrow id;
              if (match found with
                  | inr (Some escrow) => escrow_is_locked_by escrow (identity_did E) bounty
                  | _ => false
                  end)
              then record_mission_escrow id id
              else
                cancel_on_board id;;
                attempt (refund_pending_escrow id ESCROW_STALE_AFTER_SECS);;
                ledger_error_response error
        end
    end.

(** ** Confirming an escrow *)

(** Whether the ledger holds the lock; a lock it holds is confirmed. *)
Definition confirm_escrow_with_ledger (mission : CivilMission) : mh bool :=
  let id := mission_id mission in
  match escrow_id mission with
  | None => mret true
  | Some escrow_id =>
      match ledger E with
      | None =>
          ledger_error_response (Unavailable ("mission " +:+ id +:+ " has an unconfirmed escrow "
            +:+ escrow_id +:+ " but no gateway is configured"))
      | Some _ =>
          r ← read_escrow escrow_id;
          match r with
          | inr (Some escrow) =>
              if escrow_is_locked_by escrow (identity_did E) (bounty_of mission)
              then record_mission_escrow id escrow_id;; mret true
              else mret false
          | inr None => mret false
          | inl error => ledger_error_response error
          end
      end
  end.

(** The cancellation, under the lock of the board. *)
Definition cancel_unfunded_on_board (id : string) : mh (option (option CivilMission)) :=
  pause;;
  found ← read_board (λ b, get b id);
  match found with
  | None => mret None
  | Some mission =>
      if bool_decide (status mission = Cancelled) then mret (Some None)
      else
        cancelled ← on_board 500 (λ clk, cancel_unfunded clk id);
        save;;
        mret (Some (Some cancelled))
  end.

Definition cancel_unfunded_mission (id : string) (stale_after_secs : Z) : mh bool :=
  outcome ← cancel_unfunded_on_board id;
  match outcome with
  | None | Some None => mret false
  | Some (Some cancelled) =>
      announce_mission_cancelled cancelled (Some "escrow_unconfirmed") None;;
      attempt (refund_pending_escrow id stale_after_secs);;
      mret true
  end.

Definition ensure_mission_escrow_confirmed (id : string) : mh unit :=
  pause;;
  found ← read_board (λ b, get b id);
  match found with
  | Some mission =>
      if has_unconfirmed_escrow mission && negb (bool_decide (status mission = Cancelled)) then
        held ← confirm_escrow_with_ledger mission;
        if (held : bool) then mret tt
        else
          cancel_unfunded_mission id ESCROW_STALE_AFTER_SECS;;
          refuse 409 ("mission " +:+ id +:+ " bounty was never escrowed in the ledger; "
                      +:+ "the mission has been cancelled")
      else mret tt
  | None => mret tt
  end.

(** ** Settling *)

(** Who is paid: the recorded executor, else the claimer, else the agent the
    request names. *)
Definition bounty_executor (mission : CivilMission) (fallback : option string) : option string :=
  let executor := match completed_by mission, claimed_by mission with
                  | Some e, _ => Some e
                  | None, Some c => Some c
                  | None, None => fallback
                  end in
  e ← executor; if String.eqb (trim e) "" then None else Some e.

Definition executor_label (mission : CivilMission) (executor : option string) : option string :=
  if bool_decide (is_Some executor) && bool_decide (executor = claimed_by mission)
  then claimed_by_display_name mission else None.

Definition release_mission_bounty (id : string) (fallback_executor : option string) : mh unit :=
  pause;;
  found ← read_board (λ b, get b id);
  match found with
  | None => mret tt
  | Some mission =>
      if negb (bool_decide (status mission = Completed)) then mret tt
      else
        let executor := bounty_executor mission fallback_executor in
        match escrow_id mission with
        | None => mret tt
        | Some escrow =>
            ensure_mission_escrow_confirmed id;;
            match ledger E with
            | None => no_gateway id escrow
            | Some _ =>
                r ← match executor with
                    | Some payee =>
                        let name := match executor_label mission executor with
                                    | Some l => Some l
                                    | None => label E payee
                                    end in
                        release_escrow escrow payee name
                    | None => refund_escrow escrow
                    end;
                match r with
                | inr _ => mret tt
                | inl (NotFound message) => escrow_missing_response id escrow message
                | inl error => ledger_error_response error
                end
            end
        end
  end.

Definition settle_mission_board (id : string) : mh CivilMission :=
  pause;;
  mission ← on_board 400 (λ clk, settle clk id);
  save;;
  mret mission.

(** ** Cancelling *)

(** The status check and the cancellation, under the lock of the board. *)
Definition cancel_live_mission (id : string) : mh (option CivilMission) :=
  pause;;
  found ← read_board (λ b, get b id);
  match found with
  | None => refuse 404 "mission not found"
  | Some mission =>
      match status mission with
      | Completed | Settled => refuse 409 "mission can no longer be cancelled"
      | Cancelled => mret None
      | Open | Claimed =>
          cancelled ← on_board 500 (λ clk, cancel clk id);
          save;;
          mret (Some cancelled)
      end
  end.

Definition cancel_mission_and_refund (id : string) (stale_after_secs : Z)
    (reason actor : option string) : mh (CivilMission * bool) :=
  newly ← cancel_live_mission id;
  match newly with
  | Some cancelled => announce_mission_cancelled cancelled reason actor
  | None => mret tt
  end;;
  mission ← refund_pending_escrow id stale_after_secs;
  mret (mission, bool_decide (is_Some newly)).

(** ** The sweep *)

Record MissionEscrowSweepReport := mkReport {
  expired : nat;
  refunds_settled : nat;
  refunds_pending : nat;
  escrows_confirmed : nat;
  escrows_abandoned : nat;
}.
#[global] Instance Report_eta : Eta MissionEscrowSweepReport := λ r,
  mkReport (expired r) (refunds_settled r) (refunds_pending r) (escrows_confirmed r)
    (escrows_abandoned r).

Definition resolve_unconfirmed_escrow (t stale_after_secs : Z)
    (report : MissionEscrowSweepReport) (mission : CivilMission) : mh MissionEscrowSweepReport :=
  r ← attempt (confirm_escrow_with_ledger mission);
  match r with
  | Answer true => mret (report <| escrows_confirmed ::= S |>)
  | Answer false =>
      let grace := Z.min stale_after_secs ESCROW_UNCONFIRMED_GRACE_SECS in
      if i64_saturating_sub t (created_at mission) <? grace then mret report
      else
        r ← attempt (cancel_unfunded_mission (mission_id mission) stale_after_secs);
        match r with
        | Answer true => mret (report <| escrows_abandoned ::= S |>)
        | Answer false | Refuse _ _ => mret report
        end
  | Refuse _ _ => mret report
  end.

Definition expire_mission (stale_after_secs : Z) (report : MissionEscrowSweepReport)
    (mission : CivilMission) : mh MissionEscrowSweepReport :=
  r ← attempt (cancel_mission_and_refund (mission_id mission) stale_after_secs
                 (Some "expired") None);
  match r with
  | Answer _ => mret (report <| expired ::= S |>)
  | Refuse status _ =>
      if (status =? 409) || (status =? 404) then mret report
      else mret (report <| expired ::= S |> <| refunds_pending ::= S |>)
  end.

Definition retry_refund (stale_after_secs : Z) (report : MissionEscrowSweepReport)
    (id : string) : mh MissionEscrowSweepReport :=
  r ← attempt (refund_pending_escrow id stale_after_secs);
  match r with
  | Answer mission =>
      match escrow_id mission with
      | None => mret (report <| refunds_settled ::= S |>)
      | Some _ => mret (report <| refunds_pending ::= S |>)
      end
  | Refuse _ _ => mret (report <| refunds_pending ::= S |>)
  end.

(** A [for] loop that updates the report. *)
Fixpoint each {A B} (f : B → A → mh B) (acc : B) (l : list A) : mh B :=
  match l with
  | [] => mret acc
  | x :: l' => acc ← f acc x; each f acc l'
  end.

(** The ids of the cancelled missions that still record an escrow. *)
Definition pending_refunds (b : MissionBoard) : list string :=
  mission_id <$> List.filter (λ m, bool_decide (is_Some (escrow_id m)))
                   (list_missions b (Some Cancelled)).

Definition reconcile_mission_escrows (stale_after_secs : Z) : mh MissionEscrowSweepReport :=
  t ← now;
  pause;;
  unconfirmed ← read_board unconfirmed_escrows;
  report ← each (resolve_unconfirmed_escrow t stale_after_secs) (mkReport 0 0 0 0 0) unconfirmed;
  pause;;
  lists ← read_board (λ b, (expired_missions b t, pending_refunds b));
  report ← each (expire_mission stale_after_secs) report lists.1;
  each (retry_refund stale_after_secs) report lists.2.

(** ** Publishing and moving a mission *)

(** [Uuid::new_v4]. *)
Definition new_id : mh string := λ w, (Answer (uuid E w), w).

Definition publish_mission_on_board (spec : MissionSpec) (expires : option Z) : mh CivilMission :=
  t ← now;
  require (negb (is_some_and (λ e, e <=? t) expires)) 400 "expires_at must be in the future";;
  pause;;
  id ← new_id;
  mission ← on_board 500 (λ clk, publish_with_scope_and_geo clk id spec (Some (geo E)));
  mission ← match expires with
            | Some _ => on_board 500 (λ clk, set_expiry clk (mission_id mission) expires)
            | None => mret mission
            end;
  save;;
  mret mission.

(** [mission_publish], up to the announcement of the mission. *)
Definition publish_mission (spec : MissionSpec) (expires : option Z) : mh CivilMission :=
  mission ← publish_mission_on_board spec expires;
  lock_mission_bounty mission.

Inductive transition := Claim | Complete.

Definition claimer_display_name (body : MissionClaimBody) : option string :=
  match label E (cb_agent_did body) with
  | Some name => Some name
  | None => mission_claim_actor_display_name body
  end.

Definition apply_local_mission_transition (action : transition) (body : MissionClaimBody)
    (name : option string) (clk : clock) : stm MissionBoard CivilMission :=
  match action with
  | Claim => claim_as clk (cb_mission_id body) (cb_agent_did body) name
  | Complete => complete clk (cb_mission_id body) (cb_agent_did body) (cb_result body)
  end.

(** [transition_mission], up to the dispatch to the network; [None] for a
    mission that is not on the board. *)
Definition transition_mission (action : transition) (body : MissionClaimBody)
    : mh (option CivilMission) :=
  ensure_mission_escrow_confirmed (cb_mission_id body);;
  let name := match action with Claim => claimer_display_name body | Complete => None end in
  pause;;
  found ← read_board (λ b, get b (cb_mission_id body));
  match found with
  | None => mret None
  | Some _ =>
      mission ← on_board 400 (apply_local_mission_transition action body name);
      save;;
      mret (Some mission)
  end.

(** The board's part of a mission notice relayed by the network
    ([agent_events.rs]): refused when the signer is not the claimer it names,
    applied and saved otherwise. *)
Inductive relayed := RelayedClaim | RelayedCompletion (res : option json) | RelayedSettlement.

Definition apply_relayed (kind : relayed) (id signer : string) (claimed_as : option string)
    (clk : clock) : stm MissionBoard (option CivilMission) :=
  ensure (is_none_or (String.eqb signer) claimed_as)
    ("envelope signed by " +:+ signer +:+ " names " +:+ default "" claimed_as
     +:+ " as the claimer");;
  match kind with
  | RelayedClaim => apply_remote_claim_approved clk id signer
  | RelayedCompletion res => apply_remote_completed clk id signer res
  | RelayedSettlement =>
      before ← gets (λ b, get b id);
      match before with
      | Some mission =>
          ensure (bool_decide (status mission = Settled))
            ("mission " +:+ id +:+ " settlement must go through the local settle route");;
          mret (Some mission)
      | None => mret None
      end
  end.

Definition sync_relayed (kind : relayed) (id signer : string) (claimed_as : option string)
    : mh (option CivilMission) :=
  pause;;
  was_cancelled ← read_board (λ b, is_some_and (λ m, bool_decide (status m = Cancelled)) (get b id));
  r ← attempt (on_board 400 (apply_relayed kind id signer claimed_as));
  match r with
  | Answer (Some mission) =>
      save_or 400;;
      (if bool_decide (status mission = Cancelled) && negb was_cancelled
       then announce_mission_cancelled mission (Some "expired") None else mret tt);;
      mret (Some mission)
  | Answer None | Refuse _ _ => mret None
  end.
End escrow.

(** [mission_settle], up to the announcement, with the puzzle decoders. *)
Section settle.
Context `{HttpText} `{Crypto, Digest, Puzzle.PuzzleDecoders} (E : Host).

Definition reject_invalid_system_puzzle_settlement (id : string) : mh unit :=
  pause E;;
  found ← read_board (λ b, get b id);
  match found with
  | None => mret tt
  | Some mission =>
      match Puzzle.system_puzzle_settlement_from_mission mission with
      | Ok _ => mret tt
      | Err e => refuse 400 e
      end
  end.

Definition settle_mission (id : string) (agent : option string) : mh CivilMission :=
  reject_invalid_system_puzzle_settlement id;;
  release_mission_bounty E id agent;;
  settle_mission_board E id.
End settle.
