(* ===== verification/EscrowLogic.v ===== *)
(** * Reasoning about escrows

    The invariant of the mission board and its escrows against all exchanges
    with the ledger, what one request may rely on of the requests that run while
    it waits, and a program logic for the handlers of [Escrow]: each of them
    keeps the invariant and gives what the others rely on. *)

From S2P Require Import Prelude Collections Text Json Signing Hashcash Profiles Missions Tasks X402 Access LedgerClient MissionRoutes Escrow.
#[local] Open Scope Z_scope.
#[local] Set Default Proof Using "Type*".

(** ** What the exchanges with the ledger tell *)

Section evidence.
Context `{HttpText} (E : Host).

(** The request asks to lock the escrow. *)
Definition is_lock (id : string) (x : Exchange) : Prop :=
  match x.1 with LockEscrow e _ _ _ _ _ _ => e = id | _ => False end.

(** The ledger said that this node's escrow of the bounty is locked. *)
Definition says_locked (id : string) (bounty : Z) (x : Exchange) : Prop :=
  match x.1 with
  | LockEscrow e payer amount _ _ _ _ =>
      e = id ∧ payer = identity_did E ∧ amount = bounty ∧ ∃ v, post_signed x.2 = inr v
  | ReadEscrow e =>
      e = id ∧ ∃ v, escrow x.2 = inr (Some v)
        ∧ escrow_is_locked_by v (identity_did E) bounty = true
  | _ => False
  end.

(** The ledger said that nothing is held: the lock was refused, the escrow was
    refunded, or there is none to refund. *)
Definition says_free (id : string) (x : Exchange) : Prop :=
  match x.1 with
  | LockEscrow e _ _ _ _ _ _ =>
      e = id ∧ ∃ err, post_signed x.2 = inl err ∧ ledger_outcome_is_definitive err = true
  | RefundEscrow e _ _ =>
      e = id ∧ ((∃ v, post_signed x.2 = inr v) ∨ ∃ msg, post_signed x.2 = inl (NotFound msg))
  | _ => False
  end.

(** The ledger said that the escrow was paid out or returned. *)
Definition says_paid (id : string) (x : Exchange) : Prop :=
  match x.1 with
  | ReleaseEscrow e _ _ _ _ => e = id ∧ ∃ v, post_signed x.2 = inr v
  | RefundEscrow e _ _ => e = id ∧ ∃ v, post_signed x.2 = inr v
  | _ => False
  end.

(** ** The invariant *)

(** A recorded escrow has the mission's own id; a confirmed one was reported
    locked for the bounty; and once a lock was asked for, the escrow stays
    recorded until the ledger said that nothing is held. *)
Definition escrow_ok (h : list Exchange) (id : string) (m : CivilMission) : Prop :=
  mission_id m = id
  ∧ (∀ e, escrow_id m = Some e → e = id)
  ∧ (escrow_confirmed m = true →
       escrow_id m = Some id ∧ Exists (says_locked id (bounty_of m)) h)
  ∧ (Exists (is_lock id) h → escrow_id m = Some id ∨ Exists (says_free id) h).

Definition board_ok (h : list Exchange) (b : MissionBoard) : Prop :=
  map_Forall (escrow_ok h) (missions b).

Definition escrow_inv (w : World) : Prop :=
  board_ok (exchanges w) (board w) ∧ board_ok (exchanges w) (stored w).

(** The escrow is recorded in memory and on disk, or the ledger holds nothing. *)
Definition tracked (id : string) (w : World) : Prop :=
  ∀ m, missions (board w) !! id = Some m ∨ missions (stored w) !! id = Some m →
       escrow_id m = Some id ∨ Exists (says_free id) (exchanges w).

(** What one request may rely on of the others: exchanges are only added,
    missions keep their reward and move along the life cycle, and a tracked
    escrow stays tracked. *)
Record rely (w w' : World) : Prop := mkRely {
  rely_exchanges : exchanges w `suffix_of` exchanges w';
  rely_missions id m : missions (board w) !! id = Some m →
    ∃ m', missions (board w') !! id = Some m' ∧ reward m' = reward m
          ∧ rtc lifecycle (status m) (status m');
  rely_tracked id : is_Some (missions (board w) !! id) → tracked id w → tracked id w';
}.

Lemma rely_refl w : rely w w.
Proof. split; [done| |done]. intros id m Hm. by exists m. Qed.

Lemma rely_trans w1 w2 w3 : rely w1 w2 → rely w2 w3 → rely w1 w3.
Proof.
  intros [He1 Hm1 Ht1] [He2 Hm2 Ht2]. split; [by etrans|..].
  - intros id m (m' & Hm' & Hr & Hl)%Hm1. destruct (Hm2 _ _ Hm') as (m'' & ? & ? & ?).
    exists m''. split_and!; [done|congruence|by etrans].
  - intros id [m Hm] Ht. destruct (Hm1 _ _ Hm) as (m' & Hm' & _). apply Ht2; eauto.
Qed.

Lemma Exists_suffix {A} (P : A → Prop) l l' : l `suffix_of` l' → Exists P l → Exists P l'.
Proof. intros [k ->] Hl. apply Exists_app. by right. Qed.

(** *** Changes of the board *)

(** How an operation may change the escrow of a mission. *)
Inductive escrow_change (h : list Exchange) (id : string) (m m' : CivilMission) : Prop :=
  | change_none : escrow_id m' = escrow_id m → escrow_confirmed m' = escrow_confirmed m →
      escrow_change h id m m'
  | change_intent : escrow_id m' = Some id → escrow_confirmed m' = false →
      escrow_change h id m m'
  | change_locked : escrow_id m' = Some id → Exists (says_locked id (bounty_of m)) h →
      escrow_change h id m m'
  | change_freed : escrow_id m' = None → escrow_confirmed m' = false →
      Exists (says_free id) h → escrow_change h id m m'.

(** A step of the board that changes escrows only so, and whose new missions
    have none. *)
Record sound_step (h : list Exchange) (b b' : MissionBoard) : Prop := mkSound {
  sound_step_step : b' = b ∨ board_step b b';
  sound_step_change id m m' : missions b !! id = Some m → missions b' !! id = Some m' →
    escrow_change h id m m';
  sound_step_new id m' : missions b !! id = None → missions b' !! id = Some m' →
    escrow_ok h id m';
}.

Lemma sound_step_mission h b b' id m :
  sound_step h b b' → missions b !! id = Some m →
  ∃ m', missions b' !! id = Some m' ∧ same_contract m m' ∧ lifecycle (status m) (status m').
Proof.
  intros [[->|Hs] _ _] Hm; [exists m; repeat split; try done; constructor|].
  destruct (board_step_mission _ _ _ _ Hs Hm) as (m' & ? & (? & ? & _) & _). eauto.
Qed.

Lemma escrow_change_ok h id m m' :
  same_contract m m' → escrow_change h id m m' → escrow_ok h id m → escrow_ok h id m'.
Proof.
  intros (Hid & _ & Hr & _) Hc (H1 & H2 & H3 & H4).
  assert (bounty_of m' = bounty_of m) as Hb by by rewrite /bounty_of Hr.
  rewrite /escrow_ok Hid Hb. split; [done|].
  destruct Hc as [He Hf|He Hf|He Hf|He Hf Hfree]; rewrite He ?Hf.
  - done.
  - split_and!; [naive_solver|done|by left].
  - split_and!; [naive_solver|done|by left].
  - split_and!; [done|done|by right].
Qed.

Lemma sound_step_ok h b b' : sound_step h b b' → board_ok h b → board_ok h b'.
Proof.
  intros Hs Hb id m' Hm'. destruct (missions b !! id) as [m|] eqn:Hm.
  - destruct (sound_step_mission _ _ _ _ _ Hs Hm) as (m2 & Hm2 & Hc & _). simplify_eq.
    eapply escrow_change_ok; [done|by eapply (sound_step_change _ _ _ Hs)|by apply Hb].
  - by eapply sound_step_new.
Qed.

Lemma change_tracked h id m m' :
  escrow_change h id m m' → escrow_id m = Some id ∨ Exists (says_free id) h →
  escrow_id m' = Some id ∨ Exists (says_free id) h.
Proof. intros [He _|He _|He _|_ _ Hf] Ht; [rewrite He|rewrite He; by left..|by right]. done. Qed.

(** A sound change of the board in memory, under its lock. *)
Lemma board_change w b' :
  escrow_inv w → sound_step (exchanges w) (board w) b' →
  escrow_inv (w <| board := b' |>) ∧ rely w (w <| board := b' |>).
Proof.
  intros [Hb Hst] Hs. split; [split; [by eapply sound_step_ok|done]|].
  split; [done|..].
  - intros id m Hm. destruct (sound_step_mission _ _ _ _ _ Hs Hm) as (m' & ? & Hc & ?).
    exists m'. split_and!; [done|apply Hc|by apply rtc_once].
  - intros id [m Hm] Ht m' [Hm'|Hm'].
    + eapply change_tracked; [by eapply (sound_step_change _ _ _ Hs)|]. apply Ht. by left.
    + apply Ht. by right.
Qed.

Lemma save_change w :
  escrow_inv w → escrow_inv (w <| stored := board w |>) ∧ rely w (w <| stored := board w |>).
Proof.
  intros [Hb Hst]. split; [done|]. split; [done| |].
  - intros id m Hm. by exists m.
  - intros id _ Ht m Hm. apply Ht. left. by destruct Hm.
Qed.

Lemma escrow_ok_more h x id m :
  escrow_ok h id m → (is_lock id x → escrow_id m = Some id ∨ Exists (says_free id) h) →
  escrow_ok (x :: h) id m.
Proof.
  intros (H1 & H2 & H3 & H4) Hx. split_and!; [done|done|..].
  - intros Hc. destruct (H3 Hc). split; [done|by right].
  - intros Hl. enough (escrow_id m = Some id ∨ Exists (says_free id) h) as [?|?];
      [by left|right; by right|].
    apply Exists_cons in Hl as [Hl|Hl]; auto.
Qed.

(** An exchange; a lock is asked for only when the escrow is tracked. *)
Lemma exchange_change w x :
  escrow_inv w → (∀ id, is_lock id x → tracked id w) →
  escrow_inv (w <| exchanges ::= cons x |>) ∧ rely w (w <| exchanges ::= cons x |>).
Proof.
  intros [Hb Hst] Hx. split.
  - split; intros id m Hm; apply escrow_ok_more; [by apply Hb| |by apply Hst|];
      intros Hl; apply (Hx id Hl); [by left|by right].
  - split; [by apply suffix_cons_r| |].
    + intros id m Hm. by exists m.
    + intros id _ Ht m Hm. destruct (Ht m Hm); [by left|right; by right].
Qed.
End evidence.

(** *** The operations of the board are sound steps *)

Section steps.
Context `{HttpText} (E : Host) (h : list Exchange).

(** An operation leaves the escrow of every mission and adds none. *)
Definition escrows_kept (b b' : MissionBoard) : Prop :=
  ∀ id, match missions b !! id, missions b' !! id with
        | Some m, Some m' => escrow_id m' = escrow_id m ∧ escrow_confirmed m' = escrow_confirmed m
        | None, None => True
        | _, _ => False
        end.

Lemma escrows_kept_refl b : escrows_kept b b.
Proof. intros id. by destruct (missions b !! id). Qed.

Lemma escrows_kept_put b id m m' :
  missions b !! id = Some m → escrow_id m' = escrow_id m →
  escrow_confirmed m' = escrow_confirmed m → escrows_kept b (b <| missions ::= <[id := m']> |>).
Proof.
  intros Hm H1 H2 id'. cbn. destruct (decide (id' = id)) as [->|].
  - by rewrite Hm lookup_insert_eq.
  - rewrite lookup_insert_ne; [|done]. by destruct (missions b !! id').
Qed.

Lemma sound_kept b b' : board_step b b' → escrows_kept b b' → sound_step E h b b'.
Proof.
  intros Hs Hk. split; [by right|..].
  - intros id m m' Hm Hm'. specialize (Hk id). rewrite Hm Hm' in Hk.
    destruct Hk. by apply change_none.
  - intros id m' Hm Hm'. specialize (Hk id). by rewrite Hm Hm' in Hk.
Qed.

Ltac kept_run :=
  board_run; try apply escrows_kept_refl; try (by eapply escrows_kept_put).

Lemma cancel_sound clk id b : sound_step E h b (exec (cancel clk id) b).
Proof. apply sound_kept; [constructor|]. rewrite /cancel. kept_run. Qed.

Lemma cancel_unfunded_sound clk id b : sound_step E h b (exec (cancel_unfunded clk id) b).
Proof. apply sound_kept; [constructor|]. rewrite /cancel_unfunded. kept_run. Qed.

Lemma settle_sound clk id b : sound_step E h b (exec (settle clk id) b).
Proof. apply sound_kept; [constructor|]. rewrite /settle. kept_run. Qed.

Lemma set_expiry_sound clk id e b : sound_step E h b (exec (set_expiry clk id e) b).
Proof. apply sound_kept; [constructor|]. rewrite /set_expiry. kept_run. Qed.

Lemma transition_sound action body name clk b :
  sound_step E h b (exec (apply_local_mission_transition action body name clk) b).
Proof.
  destruct action; cbn [apply_local_mission_transition]; (apply sound_kept; [constructor|]);
    rewrite /claim_as /complete; kept_run.
Qed.

Lemma cancel_if_expired_escrow clk m m' :
  cancel_if_expired clk m = Some m' →
  escrow_id m' = escrow_id m ∧ escrow_confirmed m' = escrow_confirmed m.
Proof. rewrite /cancel_if_expired. case_match; [|done]. by intros [= <-]. Qed.

Lemma remote_completion_escrow now a r m :
  escrow_id (remote_completion now a r m) = escrow_id m
  ∧ escrow_confirmed (remote_completion now a r m) = escrow_confirmed m.
Proof. rewrite /remote_completion. repeat case_match; done. Qed.

Lemma remote_claim_sound clk id a b :
  sound_step E h b (exec (apply_remote_claim_approved clk id a) b).
Proof.
  apply sound_kept; [constructor|]. rewrite /apply_remote_claim_approved. board_run;
    try apply escrows_kept_refl;
    (eapply escrows_kept_put; [done|..]); try done; by eapply cancel_if_expired_escrow.
Qed.

Lemma remote_completed_sound clk id a r b :
  sound_step E h b (exec (apply_remote_completed clk id a r) b).
Proof.
  apply sound_kept; [constructor|]. rewrite /apply_remote_completed. board_run;
    try apply escrows_kept_refl;
    (eapply escrows_kept_put; [done|..]); try apply remote_completion_escrow;
    by eapply cancel_if_expired_escrow.
Qed.

Lemma sound_refl b : sound_step E h b b.
Proof.
  split; [by left|..].
  - intros id m m' Hm Hm'. simplify_eq. by apply change_none.
  - intros id m' Hm Hm'. by simplify_eq.
Qed.

Lemma relayed_sound kind id signer claimed_as clk b :
  sound_step E h b (exec (apply_relayed kind id signer claimed_as clk) b).
Proof.
  rewrite /apply_relayed. rewrite /exec. cbv [mbind stm_bind ensure].
  destruct (is_none_or _ _); [|apply sound_refl]. destruct kind.
  - apply remote_claim_sound.
  - apply remote_completed_sound.
  - cbv [gets]. destruct (get b id) as [m|]; [|apply sound_refl].
    destruct (bool_decide _); apply sound_refl.
Qed.

(** The three operations on the escrow itself. *)
Lemma rewrite_sound b id m m' :
  board_step b (b <| missions ::= <[id := m']> |>) → missions b !! id = Some m →
  escrow_change E h id m m' → sound_step E h b (b <| missions ::= <[id := m']> |>).
Proof.
  intros Hs Hm Hc. split; [by right|..]; cbn.
  - intros id' m1 m2 H1 H2. destruct (decide (id' = id)) as [->|].
    + rewrite lookup_insert_eq in H2. by simplify_eq.
    + rewrite lookup_insert_ne // in H2. simplify_eq. by apply change_none.
  - intros id' m2 H1 H2. destruct (decide (id' = id)) as [->|]; [congruence|].
    rewrite lookup_insert_ne // in H2. congruence.
Qed.

Definition with_escrow (clk : clock) (e : option string) (confirmed : bool) (m : CivilMission)
    : CivilMission :=
  m <| escrow_id := e |> <| escrow_confirmed := confirmed |> <| updated_at := clk 0%nat |>.

(** Each of them rewrites the mission, when there is one. *)
Lemma escrow_op_run (op : clock → string → stm MissionBoard CivilMission) e c clk id b :
  (∀ clk id, op clk id = (m ← get_mission id; put_mission id (with_escrow clk e c m))) →
  match missions b !! id with
  | Some m => op clk id b = (Ok (with_escrow clk e c m),
                             b <| missions ::= <[id := with_escrow clk e c m]> |>)
  | None => op clk id b = (Err "mission not found", b)
  end.
Proof.
  intros Hop. rewrite Hop /get_mission /put_mission.
  cbv [mbind stm_bind gets lift ok_or modify mret stm_ret]. by destruct (missions b !! id).
Qed.

Lemma intent_run clk id e b :
  match missions b !! id with
  | Some m => record_bounty_escrow_intent clk id e b
      = (Ok (with_escrow clk (Some e) false m),
         b <| missions ::= <[id := with_escrow clk (Some e) false m]> |>)
  | None => record_bounty_escrow_intent clk id e b = (Err "mission not found", b)
  end.
Proof. by apply (escrow_op_run (λ clk id, record_bounty_escrow_intent clk id e) (Some e) false). Qed.

Lemma mark_run clk id e b :
  match missions b !! id with
  | Some m => mark_bounty_escrowed clk id e b
      = (Ok (with_escrow clk (Some e) true m),
         b <| missions ::= <[id := with_escrow clk (Some e) true m]> |>)
  | None => mark_bounty_escrowed clk id e b = (Err "mission not found", b)
  end.
Proof. by apply (escrow_op_run (λ clk id, mark_bounty_escrowed clk id e) (Some e) true). Qed.

Lemma clear_run clk id b :
  match missions b !! id with
  | Some m => clear_bounty_escrow clk id b
      = (Ok (with_escrow clk None false m),
         b <| missions ::= <[id := with_escrow clk None false m]> |>)
  | None => clear_bounty_escrow clk id b = (Err "mission not found", b)
  end.
Proof. by apply (escrow_op_run (λ clk id, clear_bounty_escrow clk id) None false). Qed.

Lemma intent_sound clk id b : sound_step E h b (exec (record_bounty_escrow_intent clk id id) b).
Proof.
  pose proof (step_escrow_intent b clk id id) as Hs. pose proof (intent_run clk id id b) as Hr.
  revert Hs. rewrite /exec. destruct (missions b !! id) as [m|] eqn:Hm; rewrite Hr; cbn [snd].
  - intros Hs. eapply rewrite_sound; [done|done|by apply change_intent].
  - intros _. apply sound_refl.
Qed.

Lemma mark_sound clk id b m :
  missions b !! id = Some m → Exists (says_locked E id (bounty_of m)) h →
  sound_step E h b (exec (mark_bounty_escrowed clk id id) b).
Proof.
  intros Hm Hl. pose proof (step_mark_escrowed b clk id id) as Hs.
  pose proof (mark_run clk id id b) as Hr. revert Hs. rewrite /exec. rewrite Hm in Hr.
  rewrite Hr. intros Hs. eapply rewrite_sound; [done|done|by apply change_locked].
Qed.

Lemma clear_sound clk id b :
  Exists (says_free id) h → sound_step E h b (exec (clear_bounty_escrow clk id) b).
Proof.
  intros Hf. pose proof (step_clear_escrow b clk id) as Hs.
  pose proof (clear_run clk id b) as Hr. revert Hs. rewrite /exec.
  destruct (missions b !! id) as [m|] eqn:Hm; rewrite Hr; cbn [snd].
  - intros Hs. eapply rewrite_sound; [done|done|by apply change_freed].
  - intros _. apply sound_refl.
Qed.

Lemma publish_sound clk id s g b :
  missions b !! id = None → ¬ Exists (is_lock id) h →
  sound_step E h b (exec (publish_with_scope_and_geo clk id s g) b).
Proof.
  intros Hn Hl. split; [right; by constructor|..];
    rewrite /publish_with_scope_and_geo /put_mission /exec;
    cbv [mbind stm_bind modify mret stm_ret]; cbn.
  - intros id' m m' Hm Hm'. rewrite lookup_insert_ne in Hm'; [|congruence]. simplify_eq.
    by apply change_none.
  - intros id' m' Hm Hm'. destruct (decide (id' = id)) as [->|].
    + rewrite lookup_insert_eq in Hm'. injection Hm' as <-. by split_and!.
    + rewrite lookup_insert_ne // in Hm'. congruence.
Qed.
End steps.

(** ** A logic for handlers

    [ht P m Q F]: from a world with the invariant and [P], the handler keeps the
    invariant, does to the world only what other requests may rely on, and ends
    in [Q] with its answer or in [F] with its refusal. *)

Section logic.
Context `{HttpText} (E : Host).

Definition ends {A} (Q : A → World → Prop) (F : Z → string → World → Prop) (r : reply A)
    (w : World) : Prop :=
  match r with Answer a => Q a w | Refuse s e => F s e w end.

Definition ht {A} (P : World → Prop) (m : mh A) (Q : A → World → Prop)
    (F : Z → string → World → Prop) : Prop :=
  ∀ w, escrow_inv E w → P w →
    escrow_inv E (m w).2 ∧ rely w (m w).2 ∧ ends Q F (m w).1 (m w).2.

Definition stable (P : World → Prop) : Prop :=
  ∀ w w', escrow_inv E w' → rely w w' → P w → P w'.

Lemma stable_and P P' : stable P → stable P' → stable (λ w, P w ∧ P' w).
Proof. intros H1 H2 w w' Hi Hr [? ?]. eauto. Qed.

Lemma stable_exists h : stable (λ w, Exists h (exchanges w)).
Proof. intros w w' _ [He _ _]. by apply Exists_suffix. Qed.

Lemma ht_conseq {A} P P' (m : mh A) Q Q' F F' :
  ht P' m Q' F' → (∀ w, escrow_inv E w → P w → P' w) → (∀ a w, Q' a w → Q a w) →
  (∀ s e w, F' s e w → F s e w) → ht P m Q F.
Proof.
  intros Hm HP HQ HF w Hi Hp. destruct (Hm w Hi (HP w Hi Hp)) as (? & ? & Hend).
  split_and!; [done|done|]. destruct (m w).1; simpl in *; auto.
Qed.

Lemma ht_bind {A B} P (m : mh A) (k : A → mh B) Q R F :
  ht P m Q F → (∀ a, ht (Q a) (k a) R F) → ht P (m ≫= k) R F.
Proof.
  intros Hm Hk w Hi Hp. destruct (Hm w Hi Hp) as (Hi1 & Hr1 & Hend).
  cbv [mbind handler_bind]. destruct (m w) as [[a|s e] w1]; simpl in *; [|done].
  destruct (Hk a w1 Hi1 Hend) as (? & ? & ?). split_and!; [done|by eapply rely_trans|done].
Qed.

Lemma ht_pre {A} P P' (m : mh A) Q F :
  ht P' m Q F → (∀ w, escrow_inv E w → P w → P' w) → ht P m Q F.
Proof. intros Hm HP w Hi Hp. apply Hm; auto. Qed.

Lemma ht_post {A} P (m : mh A) (Q Q' : A → World → Prop) F :
  ht P m Q' F → (∀ a w, escrow_inv E w → Q' a w → Q a w) → ht P m Q F.
Proof.
  intros Hm HQ w Hi Hp. destruct (Hm w Hi Hp) as (? & ? & Hend). split_and!; [done|done|].
  destruct (m w).1; simpl in *; auto.
Qed.

Lemma ht_fail {A} P (m : mh A) Q (F F' : Z → string → World → Prop) :
  ht P m Q F' → (∀ s e w, F' s e w → F s e w) → ht P m Q F.
Proof. intros Hm HF. by eapply ht_conseq. Qed.

(** A fact that the precondition implies. *)
Lemma ht_assume {A} (φ : Prop) P (m : mh A) Q F :
  (∀ w, escrow_inv E w → P w → φ) → (φ → ht P m Q F) → ht P m Q F.
Proof. intros Hφ Hm w Hi Hp. apply Hm; eauto. Qed.

Lemma ht_seq {A B} P (m : mh A) (k : mh B) Q R F :
  ht P m (λ _, Q) F → ht Q k R F → ht P (m;; k) R F.
Proof. intros Hm Hk. by eapply ht_bind. Qed.

Lemma ht_ret {A} (P : World → Prop) (a : A) (Q : A → World → Prop) F :
  (∀ w, P w → Q a w) → ht P (mret a) Q F.
Proof. intros HQ w Hi Hp. split_and!; [done|apply rely_refl|]. by apply HQ. Qed.

Lemma ht_refuse {A} (P : World → Prop) s e (Q : A → World → Prop) (F : Z → string → World → Prop) :
  (∀ w, P w → F s e w) → ht P (refuse s e) Q F.
Proof. intros HF w Hi Hp. split_and!; [done|apply rely_refl|]. by apply HF. Qed.

Lemma ht_require P b s e (Q : unit → World → Prop) (F : Z → string → World → Prop) :
  (∀ w, P w → b = true → Q tt w) → (∀ w, P w → F s e w) → ht P (require b s e) Q F.
Proof. intros HQ HF. destruct b; [apply ht_ret; auto|by apply ht_refuse]. Qed.

Lemma ht_read {A} P (f : MissionBoard → A) F :
  ht P (read_board f) (λ a w, P w ∧ a = f (board w)) F.
Proof. intros w Hi Hp. split_and!; [done|apply rely_refl|done]. Qed.

Lemma ht_now P F : ht P (now E) (λ _, P) F.
Proof. intros w Hi Hp. split_and!; [done|apply rely_refl|done]. Qed.

Lemma ht_attempt {A} P (m : mh A) Q F F' : ht P m Q F → ht P (attempt m) (ends Q F) F'.
Proof.
  intros Hm w Hi Hp. destruct (Hm w Hi Hp) as (? & ? & ?). rewrite /attempt.
  by destruct (m w).
Qed.

(** An attempt of which only a common consequence is used. *)
Lemma ht_try {A} P P' (m : mh A) Q F F' :
  ht P m Q F → (∀ a w, Q a w → P' w) → (∀ s e w, F s e w → P' w) →
  ht P (attempt m) (λ _, P') F'.
Proof.
  intros Hm HQ HF. eapply ht_conseq; [by apply (ht_attempt P m Q F F')|done| |done].
  intros [a|s e] w; cbn; eauto.
Qed.

Lemma ht_announce P m reason actor F :
  stable P → ht P (announce_mission_cancelled m reason actor) (λ _, P) F.
Proof.
  intros HP w Hi Hp. assert (rely w (announce_mission_cancelled m reason actor w).2) as Hr
    by (destruct (rely_refl w); by split).
  split_and!; [done|done|]. by eapply HP.
Qed.

Lemma ht_save st (P : World → Prop) (Q : unit → World → Prop) (F : Z → string → World → Prop) :
  (∀ w, P w → escrow_inv E (w <| stored := board w |>) → rely w (w <| stored := board w |>) →
        Q tt (w <| stored := board w |>)) →
  (∀ w e, P w → F st e w) →
  ht P (save_or E st) Q F.
Proof.
  intros HQ HF w Hi Hp. rewrite /save_or. destruct (save_domain E (moment w)) as [u|e]; cbn.
  - destruct (save_change E w Hi). auto.
  - split_and!; [done|apply rely_refl|]. by apply HF.
Qed.

Lemma ht_board {A} st (op : clock → stm MissionBoard A) (P : World → Prop)
    (Q : A → World → Prop) (F : Z → string → World → Prop) :
  (∀ w clk, escrow_inv E w → P w →
     sound_step E (exchanges w) (board w) (exec (op clk) (board w))) →
  (∀ w clk a b, P w → op clk (board w) = (Ok a, b) →
     escrow_inv E (w <| board := b |>) → rely w (w <| board := b |>) → Q a (w <| board := b |>)) →
  (∀ w clk e b, P w → op clk (board w) = (Err e, b) →
     escrow_inv E (w <| board := b |>) → rely w (w <| board := b |>) →
     F st e (w <| board := b |>)) →
  ht P (on_board E st op) Q F.
Proof.
  intros Hs HQ HF w Hi Hp. specialize (Hs w (time E (moment w)) Hi Hp).
  specialize (HQ w (time E (moment w))). specialize (HF w (time E (moment w))).
  destruct (board_change E w _ Hi Hs) as [Hi' Hr']. revert Hi' Hr'. rewrite /on_board /exec.
  destruct (op (time E (moment w)) (board w)) as [[a|e] b]; cbn; auto.
Qed.

(** A change under the lock of the board that is saved at once. *)
Lemma ht_commit {A} st (op : clock → stm MissionBoard A) P (Q : A → World → Prop)
    (F : Z → string → World → Prop) :
  stable P →
  (∀ w clk, escrow_inv E w → P w →
     sound_step E (exchanges w) (board w) (exec (op clk) (board w))) →
  (∀ w clk a b, P w → op clk (board w) = (Ok a, b) → P (w <| board := b |> <| stored := b |>) →
     Q a (w <| board := b |> <| stored := b |>)) →
  (∀ s e w, s = st ∨ s = 500 → P w → F s e w) →
  ht P (a ← on_board E st op; save E;; mret a) Q F.
Proof.
  intros HP Hs HQ HF.
  eapply (ht_bind _ _ _ (λ a w, P w ∧ (P (w <| stored := board w |>) → Q a (w <| stored := board w |>)))).
  - eapply ht_board; [done|..].
    + intros w clk a b Hp Hrun Hi Hr.
      split; [by eapply HP|]. by eapply HQ.
    + intros w clk e b Hp Hrun Hi Hr. apply HF; [by left|]. by eapply HP.
  - intros a. eapply (ht_bind _ _ _ (λ _, Q a)).
    + apply ht_save; [intros w [Hp Hq] Hi Hr; apply Hq; by eapply HP|].
      intros w e [Hp _]. apply HF; auto.
    + intros []. by apply ht_ret.
Qed.

Context (Hothers : ∀ w, escrow_inv E w → escrow_inv E (others E w) ∧ rely w (others E w)).

Lemma ht_pause P F : stable P → ht P (pause E) (λ _, P) F.
Proof.
  intros HP w Hi Hp. destruct (Hothers w Hi) as [Hi' Hr']. cbn.
  split_and!; [done| |].
  - destruct Hr'. by split.
  - apply (HP (others E w)); [done| |by eapply HP].
    destruct (rely_refl (others E w)). by split.
Qed.

(** An exchange leaves its record; a lock needs a tracked escrow. *)
Lemma ht_ask P (r : Z → LedgerRequest) F :
  stable P →
  (∀ w t a id, P w → is_lock id (r t, a) → tracked id w) →
  ht P (ask E r) (λ a w, P w ∧ ∃ t, (r t, a) ∈ exchanges w) F.
Proof.
  intros HP Hl. rewrite /ask. eapply ht_bind; [by apply ht_pause|]. intros _ w Hi Hp.
  rewrite /exchange /=. set (x := (r (time_ms E (moment w)), http E (exchanges w) _)).
  destruct (exchange_change E w x Hi) as [Hi' Hr']; [intros id; by apply Hl|].
  split; [done|]. split; [done|]. split; [by eapply HP|]. eexists. by left.
Qed.
End logic.

(** ** The handlers keep the invariant *)

Section handlers.
Context `{HttpText} (E : Host).

(** The mission is on the board with the given reward. *)
Definition known (id : string) (r : option MissionReward) (w : World) : Prop :=
  ∃ m, missions (board w) !! id = Some m ∧ reward m = r.

(** The mission can no longer be claimed or completed. *)
Definition closed (id : string) (w : World) : Prop :=
  ∃ m, missions (board w) !! id = Some m ∧ open_or_claimed m = false.

Definition cancelled (id : string) (w : World) : Prop :=
  ∃ m, missions (board w) !! id = Some m ∧ status m = Cancelled.

Lemma known_stable id r : stable E (known id r).
Proof.
  intros w w' _ [_ Hm _] (m & Hl & <-). destruct (Hm _ _ Hl) as (m' & ? & ? & _). by exists m'.
Qed.

Lemma lifecycle_closed m m' :
  rtc lifecycle (status m) (status m') → open_or_claimed m = false → open_or_claimed m' = false.
Proof.
  rewrite /open_or_claimed. generalize (status m) (status m'). intros s s' Hr.
  induction Hr as [s|s1 s2 s3 Hs _ IH]; [done|]. intros H1. apply IH.
  destruct Hs; done.
Qed.

Lemma closed_stable id : stable E (closed id).
Proof.
  intros w w' _ [_ Hm _] (m & Hl & Ho). destruct (Hm _ _ Hl) as (m' & ? & _ & ?).
  exists m'. eauto using lifecycle_closed.
Qed.

Lemma cancelled_stable id : stable E (cancelled id).
Proof.
  intros w w' _ [_ Hm _] (m & Hl & Ho). destruct (Hm _ _ Hl) as (m' & ? & _ & Hr).
  exists m'. split; [done|]. revert Ho. clear -Hr. generalize (status m) (status m') Hr.
  clear. induction 1 as [|s1 s2 s3 Hs _ IH]; [done|]. intros ->. apply IH. by inversion Hs.
Qed.

Lemma tracked_stable id : stable E (λ w, is_Some (missions (board w) !! id) ∧ tracked id w).
Proof.
  intros w w' _ [_ Hm Ht] [[m Hl] Htr]. destruct (Hm _ _ Hl) as (m' & ? & _). split; eauto.
Qed.

Lemma known_some id r w : known id r w → is_Some (missions (board w) !! id).
Proof. intros (m & ? & _). by exists m. Qed.

Hint Resolve stable_and known_stable closed_stable cancelled_stable stable_exists
  tracked_stable : core.

(** *** Records of the board *)

Lemma cancel_closes clk id b r b' :
  cancel clk id b = (r, b') → is_Some (missions b !! id) →
  ∃ m, missions b' !! id = Some m ∧ open_or_claimed m = false.
Proof.
  intros Hrun [m Hm]. assert (b' = exec (cancel clk id) b) as -> by by rewrite /exec Hrun.
  clear Hrun. rewrite /cancel. board_run.
  - rewrite lookup_insert_eq. eauto.
  - eexists. split; [done|]. rewrite /open_or_claimed.
    match goal with E : negb _ = false |- _ => revert E end. by destruct (status a).
Qed.

Context (Hothers : ∀ w, escrow_inv E w → escrow_inv E (others E w) ∧ rely w (others E w)).

Lemma ht_cancel_on_board P id :
  stable E P → (∀ w, P w → is_Some (missions (board w) !! id)) →
  ht E P (cancel_on_board E id) (λ _ w, P w ∧ closed id w) (λ s _ w, s = 500 ∧ P w).
Proof.
  intros HP Hk. rewrite /cancel_on_board. eapply ht_seq; [by apply (ht_pause E Hothers)|].
  eapply ht_bind.
  - apply (ht_attempt _ _ _ (λ _ w, P w ∧ closed id w) (λ _ _ w, P w ∧ closed id w)).
    apply ht_board.
    + intros w clk _ _. apply cancel_sound.
    + intros w clk a b Hp Hrun Hi Hr. split; [by eapply HP|].
      exact (cancel_closes _ _ _ _ _ Hrun (Hk w Hp)).
    + intros w clk a b Hp Hrun Hi Hr. split; [by eapply HP|].
      exact (cancel_closes _ _ _ _ _ Hrun (Hk w Hp)).
  - intros [a|s e]; cbn [ends]; [|by apply ht_ret]. apply ht_save.
    + intros w [Hp Hc] Hi Hr. split; [by eapply HP|done].
    + by intros w e [Hp _].
Qed.

Lemma ht_intent P id :
  stable E P →
  ht E P (record_mission_escrow_intent E id id)
    (λ _ w, P w ∧ is_Some (missions (board w) !! id) ∧ tracked id w) (λ s _ w, s = 500 ∧ P w).
Proof.
  intros HP. rewrite /record_mission_escrow_intent. eapply ht_seq; [by apply (ht_pause E Hothers)|].
  eapply (ht_bind _ _ _ _ (λ _ w, P w ∧ ∃ m, missions (board w) !! id = Some m
                                           ∧ escrow_id m = Some id)).
  - apply ht_board.
    + intros w clk _ _. apply intent_sound.
    + intros w clk a b Hp Hrun Hi Hr. split; [by eapply HP|].
      pose proof (intent_run clk id id (board w)) as Hop. rewrite Hrun in Hop.
      destruct (missions (board w) !! id) as [m|]; [|done]. injection Hop as -> ->.
      eexists. by rewrite /= lookup_insert_eq.
    + intros w clk e b Hp Hrun Hi Hr. split; [done|by eapply HP].
  - intros a. eapply ht_seq; [|apply ht_ret; intros w Hq; exact Hq].
    apply ht_save.
    + intros w [Hp (m & Hm & He)] Hi Hr. split_and!; [by eapply HP|by exists m|].
      intros m' [Hm'|Hm']; cbn in Hm'; simplify_eq; by left.
    + by intros w e [Hp _].
Qed.

Lemma ht_record P id :
  stable E P →
  (∀ w, P w → ∃ m, missions (board w) !! id = Some m
              ∧ Exists (says_locked E id (bounty_of m)) (exchanges w)) →
  ht E P (record_mission_escrow E id id)
    (λ m w, P w ∧ missions (board w) !! id = Some m ∧ escrow_id m = Some id
            ∧ escrow_confirmed m = true) (λ s _ w, s = 500 ∧ P w).
Proof.
  intros HP Hk. rewrite /record_mission_escrow. eapply ht_seq; [by apply (ht_pause E Hothers)|].
  apply ht_commit; [done|..].
  - intros w clk _ (m & Hm & Hl)%Hk. by eapply mark_sound.
  - intros w clk a b Hp Hrun Hp'.
    pose proof (mark_run clk id id (board w)) as Hop. rewrite Hrun in Hop.
    destruct (missions (board w) !! id) as [m|]; [|done]. injection Hop as -> ->.
    rewrite /= lookup_insert_eq. split_and!; try done.
  - intros s e w [->| ->]; done.
Qed.

Lemma ht_clear P id :
  stable E P → (∀ w, P w → Exists (says_free id) (exchanges w)) →
  ht E P (clear_mission_escrow E id)
    (λ m w, P w ∧ missions (board w) !! id = Some m ∧ escrow_id m = None)
    (λ s _ w, s = 500 ∧ P w).
Proof.
  intros HP Hk. rewrite /clear_mission_escrow. eapply ht_seq; [by apply (ht_pause E Hothers)|].
  apply ht_commit; [done|..].
  - intros w clk _ Hf%Hk. by apply clear_sound.
  - intros w clk a b Hp Hrun Hp'.
    pose proof (clear_run clk id (board w)) as Hop. rewrite Hrun in Hop.
    destruct (missions (board w) !! id) as [m|]; [|done]. injection Hop as -> ->.
    rewrite /= lookup_insert_eq. split_and!; try done.
  - intros s e w [->| ->]; done.
Qed.

(** *** Exchanges *)

(** An exchange that asks for no lock. *)
Lemma ht_exchange P (r : Z → LedgerRequest) F :
  stable E P → (∀ t a id, ¬ is_lock id (r t, a)) →
  ht E P (ask E r) (λ a w, P w ∧ ∃ t, (r t, a) ∈ exchanges w) F.
Proof. intros HP Hn. apply (ht_ask E Hothers); [done|]. intros w t a id _ Hl. by destruct (Hn t a id). Qed.

Lemma ht_read_escrow P id F :
  stable E P →
  ht E P (read_escrow E id) (λ r w, P w ∧ ∃ a, r = escrow a ∧ (ReadEscrow id, a) ∈ exchanges w) F.
Proof.
  intros HP. eapply ht_bind; [apply ht_exchange; [done|by intros t a i []]|].
  intros a. apply ht_ret. intros w [Hp [t Hin]]. eauto.
Qed.

Lemma ht_refund_escrow P id F :
  stable E P →
  ht E P (refund_escrow E id) (λ r w, P w ∧ ∃ a t, r = post_signed a
     ∧ (RefundEscrow id (identity_did E) t, a) ∈ exchanges w) F.
Proof.
  intros HP. eapply ht_bind; [apply ht_exchange; [done|by intros t a i []]|].
  intros a. apply ht_ret. intros w [Hp [t Hin]]. eauto.
Qed.

Lemma ht_release_escrow P id payee name F :
  stable E P →
  ht E P (release_escrow E id payee name) (λ r w, P w ∧ ∃ a t, r = post_signed a
     ∧ (ReleaseEscrow id (identity_did E) payee name t, a) ∈ exchanges w) F.
Proof.
  intros HP. eapply ht_bind; [apply ht_exchange; [done|by intros t a i []]|].
  intros a. apply ht_ret. intros w [Hp [t Hin]]. eauto.
Qed.

Lemma ht_lock_escrow P id amount name subject F :
  stable E P → (∀ w, P w → tracked id w) →
  ht E P (lock_escrow E id amount id name subject) (λ r w, P w ∧ ∃ a t, r = post_signed a
     ∧ (LockEscrow id (identity_did E) amount id name subject t, a) ∈ exchanges w) F.
Proof.
  intros HP Ht. eapply ht_bind.
  - apply (ht_ask E Hothers); [done|]. intros w t a i Hp Hl. cbn in Hl. subst i. by apply Ht.
  - intros a. apply ht_ret. intros w [Hp [t Hin]]. eauto.
Qed.

Lemma in_Exists {A} (Q : A → Prop) x l : x ∈ l → Q x → Exists Q l.
Proof. intros Hx HQ. apply Exists_exists. eauto. Qed.

(** *** Refunds *)

Lemma ht_error {A} P err (Q : A → World → Prop) (F : Z → string → World → Prop) :
  (∀ s e w, P w → F s e w) → ht E P (ledger_error_response err) Q F.
Proof. intros HF. apply ht_refuse. auto. Qed.

(** Forgetting an escrow the ledger said is free. *)
Lemma ht_forget P id :
  stable E P →
  ht E (λ w, P w ∧ Exists (says_free id) (exchanges w)) (clear_mission_escrow E id)
    (λ m w, P w ∧ missions (board w) !! id = Some m ∧ escrow_id m = None) (λ _ _ w, P w).
Proof.
  intros HP. eapply ht_conseq;
    [apply (ht_clear (λ w, P w ∧ Exists (says_free id) (exchanges w))); [auto|by intros w []]
    |done| |].
  - intros m w [[? _] [? ?]]. by split_and!.
  - by intros s e w [_ []].
Qed.

(** A refund that is answered leaves the mission on the board without escrow. *)
Lemma ht_refund P id stale :
  stable E P →
  ht E P (refund_pending_escrow E id stale)
    (λ m w, P w ∧ missions (board w) !! id = Some m ∧ escrow_id m = None) (λ _ _ w, P w).
Proof.
  intros HP. rewrite /refund_pending_escrow. eapply ht_seq; [by apply (ht_pause E Hothers)|].
  eapply ht_bind; [apply ht_read|]. intros [mission|]; [|apply ht_refuse; by intros w []].
  destruct (escrow_id mission) as [e|] eqn:He.
  2: { apply ht_ret. intros w [Hp Hm]. by split_and!. }
  apply (ht_assume _ (e = id)).
  { intros w [Hb _] [_ Hm]. symmetry in Hm. by apply (Hb id mission Hm). }
  intros ->. destruct (ledger E); [|by apply ht_error; intros ??? []].
  apply (ht_pre _ _ P); [|by intros w _ []].
  eapply ht_bind; [by apply ht_refund_escrow|]. intros r.
  apply (ht_pre _ _ (λ w, P w ∧ ((∃ v, r = inr v) ∨ (∃ msg, r = inl (NotFound msg)) →
                                   Exists (says_free id) (exchanges w)))).
  2: { intros w _ (Hp & a & t & -> & Hin). split; [done|]. intros Ha. by eapply in_Exists. }
  destruct r as [[msg|msg|st msg|msg]|v]; try by apply ht_error; intros ??? [].
  - apply (ht_pre _ _ (λ w, P w ∧ Exists (says_free id) (exchanges w)));
      [|intros w _ [? Hf]; eauto].
    eapply ht_bind; [apply ht_now|]. intros t. destruct (_ <=? _).
    + by apply ht_forget.
    + apply ht_refuse. by intros w [].
  - apply (ht_pre _ _ (λ w, P w ∧ Exists (says_free id) (exchanges w)));
      [by apply ht_forget|intros w _ [? Hf]; eauto].
Qed.

(** *** Locking *)

(** A lock the ledger confirmed is recorded on the mission. *)
Lemma ht_confirmed id r b :
  b = from_option agent_watt 0 r →
  ht E (λ w, known id r w ∧ Exists (says_locked E id b) (exchanges w))
    (record_mission_escrow E id id)
    (λ m w, known id r w ∧ missions (board w) !! id = Some m ∧ escrow_id m = Some id
            ∧ escrow_confirmed m = true ∧ Exists (says_locked E id b) (exchanges w))
    (λ s _ w, s = 500 ∧ known id r w).
Proof.
  intros ->. set (b := from_option _ _ _).
  eapply ht_conseq;
    [apply (ht_record (λ w, known id r w ∧ Exists (says_locked E id b) (exchanges w)));
     [auto|]|done|..].
  - intros w [(m & Hm & Hr) Hl]. exists m. split; [done|]. by rewrite /bounty_of Hr.
  - intros m w [[? ?] (? & ? & ?)]. by split_and!.
  - by intros s e w [? [? _]].
Qed.

(** A lock that failed closes the mission, whether its escrow is forgotten or
    left for the sweep. *)
Lemma ht_give_up {A B} P id (m : mh A) err (Q : B → World → Prop) :
  stable E P → (∀ w, P w → is_Some (missions (board w) !! id)) →
  ht E (λ w, P w ∧ closed id w) m (λ _, closed id) (λ s _ w, s = 500 ∨ closed id w) →
  ht E P (cancel_on_board E id;; m;; ledger_error_response err) Q
    (λ s _ w, s = 500 ∨ closed id w).
Proof.
  intros HP Hk Hm. eapply ht_seq.
  { eapply ht_fail; [by apply (ht_cancel_on_board P id)|]. intros s e w []. by left. }
  eapply ht_seq; [exact Hm|]. apply ht_error. intros s e w. by right.
Qed.

Lemma ht_lock mission :
  let id := mission_id mission in
  ht E (known id (reward mission)) (lock_mission_bounty E mission)
    (λ m w, known id (reward mission) w
       ∧ if bounty_of mission <=? 0 then m = mission
         else missions (board w) !! id = Some m ∧ escrow_id m = Some id
              ∧ escrow_confirmed m = true
              ∧ Exists (says_locked E id (bounty_of mission)) (exchanges w))
    (λ s _ w, s = 500 ∨ closed id w).
Proof.
  intros id. set (K := known id (reward mission)). rewrite /lock_mission_bounty.
  destruct (bounty_of mission <=? 0); [by apply ht_ret|].
  assert (stable E K) as HK by apply known_stable. assert (∀ w, K w → is_Some (missions (board w) !! id)) as Hk
    by (intros w; apply known_some).
  destruct (ledger E).
  2: { eapply ht_seq.
       - eapply ht_fail; [by apply (ht_cancel_on_board K id)|]. intros s e w []. by left.
       - apply ht_refuse. intros w []. by right. }
  eapply ht_seq.
  { eapply ht_fail; [by apply (ht_intent K id)|]. intros s' e w []. by left. }
  set (T := λ w, K w ∧ is_Some (missions (board w) !! id) ∧ tracked id w).
  assert (stable E T) as HT by (apply stable_and; [done|apply tracked_stable]).
  eapply ht_bind; [apply (ht_lock_escrow T id); [done|by intros w (_ & _ & ?)]|]. intros r.
  apply (ht_pre _ _ (λ w, T w
    ∧ ((∃ v, r = inr v) → Exists (says_locked E id (bounty_of mission)) (exchanges w))
    ∧ ((∃ err, r = inl err ∧ ledger_outcome_is_definitive err = true) →
       Exists (says_free id) (exchanges w)))).
  2: { intros w _ (HTw & a & t & -> & Hin). split_and!; [done|..]; intros Ha;
       by eapply in_Exists. }
  destruct r as [err|v].
  2: { apply (ht_pre _ _ (λ w, K w ∧ Exists (says_locked E id (bounty_of mission)) (exchanges w)));
         [|intros w _ ([? _] & Hl & _); eauto].
       eapply ht_fail; [by apply ht_confirmed|]. intros s' e w []. by left. }
  destruct (ledger_outcome_is_definitive err) eqn:Hd.
  - apply (ht_pre _ _ (λ w, K w ∧ Exists (says_free id) (exchanges w)));
      [|intros w _ ([? _] & _ & Hf); eauto].
    apply ht_give_up; [auto|by intros w [? _]; auto|].
    eapply ht_conseq; [apply (ht_forget (closed id) id); auto|..].
    + by intros w _ [[_ ?] ?].
    + by intros a w [].
    + intros s' e w. by right.
  - apply (ht_pre _ _ K); [|by intros w _ ([? _] & _)].
    eapply ht_bind; [by apply (ht_read_escrow K)|]. intros found.
    destruct (match found with inr (Some _) => _ | _ => _ end) eqn:Hl.
    + eapply ht_fail; [eapply ht_pre; [by apply (ht_confirmed id (reward mission) (bounty_of mission))|]
                      |intros s' e w []; by left].
      intros w _ (HKw & a & -> & Hin). split; [done|]. eapply in_Exists; [done|].
      split; [done|]. cbn. destruct (escrow a) as [|[v|]]; try done. by exists v.
    + apply (ht_pre _ _ K); [|by intros w _ []].
      apply ht_give_up; [done|done|].
      eapply ht_pre; [|intros w _ [_ Hc]; exact Hc].
      eapply ht_try; [by apply (ht_refund (closed id))|by intros a w []|done].
Qed.

(** *** Confirming *)

(** Confirmation of a mission read from the board. *)
Lemma ht_confirm P mission :
  stable E P → (∀ e, escrow_id mission = Some e → e = mission_id mission) →
  (∀ w, P w → known (mission_id mission) (reward mission) w) →
  ht E P (confirm_escrow_with_ledger E mission) (λ _, P) (λ _ _, P).
Proof.
  intros HP He Hk. rewrite /confirm_escrow_with_ledger.
  destruct (escrow_id mission) as [e|]; [|by apply ht_ret]. specialize (He e eq_refl). subst e.
  destruct (ledger E); [|by apply ht_error].
  eapply ht_bind; [by apply (ht_read_escrow P)|]. intros r.
  destruct r as [err|[v|]]; [apply ht_error; by intros s' e w []| |apply ht_ret; by intros w []].
  destruct (escrow_is_locked_by _ _ _) eqn:Hl; [|apply ht_ret; by intros w []].
  set (L := λ w, P w
     ∧ Exists (says_locked E (mission_id mission) (bounty_of mission)) (exchanges w)).
  apply (ht_pre _ _ L).
  - eapply ht_seq; [|by apply ht_ret].
    eapply ht_conseq; [apply (ht_record L); [by apply stable_and; auto|]|done|..].
    + intros w [Hp Hex]. destruct (Hk w Hp) as (m & Hm & Hr). exists m. split; [done|].
      by rewrite /bounty_of Hr.
    + by intros a w [[? _] _].
    + by intros s' e w [_ [? _]].
  - intros w _ (Hp & a & Ha & Hin). split; [done|]. eapply in_Exists; [done|].
    split; [done|]. by exists v.
Qed.

Lemma ht_cancel_unfunded_on_board P id :
  stable E P →
  ht E P (cancel_unfunded_on_board E id) (λ _, P) (λ _ _, P).
Proof.
  intros HP. rewrite /cancel_unfunded_on_board. eapply ht_seq; [by apply (ht_pause E Hothers)|].
  eapply ht_bind; [apply ht_read|]. intros [m|]; [|apply ht_ret; by intros w []].
  apply (ht_pre _ _ P); [|by intros w _ []].
  destruct (bool_decide _); [by apply ht_ret|].
  eapply ht_bind.
  - apply (ht_board _ _ _ P (λ _, P)); [intros w clk _ _; apply cancel_unfunded_sound|..];
      intros w clk a b Hp Hrun Hi Hr; by eapply HP.
  - intros a. eapply ht_seq; [|by apply ht_ret]. apply ht_save; [|done].
    intros w Hp Hi Hr. by eapply HP.
Qed.

Lemma ht_cancel_unfunded P id stale :
  stable E P → ht E P (cancel_unfunded_mission E id stale) (λ _, P) (λ _ _, P).
Proof.
  intros HP. rewrite /cancel_unfunded_mission.
  eapply ht_bind; [by apply ht_cancel_unfunded_on_board|]. intros [[c|]|]; [|by apply ht_ret..].
  eapply ht_seq; [by apply ht_announce|].
  eapply ht_seq; [|by apply ht_ret].
  eapply ht_try; [by apply (ht_refund P)|by intros a w []|done].
Qed.

Lemma ht_ensure P id :
  stable E P → ht E P (ensure_mission_escrow_confirmed E id) (λ _, P) (λ _ _, P).
Proof.
  intros HP. rewrite /ensure_mission_escrow_confirmed.
  eapply ht_seq; [by apply (ht_pause E Hothers)|]. eapply ht_bind; [apply ht_read|].
  intros [mission|]; [|apply ht_ret; by intros w []].
  destruct (_ && _); [|apply ht_ret; by intros w []].
  apply (ht_assume _ (mission_id mission = id ∧ ∀ e, escrow_id mission = Some e → e = id)).
  { intros w [Hb _] [_ Hm]. symmetry in Hm. destruct (Hb id mission Hm) as (? & ? & _). done. }
  intros [Hid He].
  apply (ht_pre _ _ (λ w, P w ∧ known (mission_id mission) (reward mission) w)).
  2: { intros w _ [Hp Hm]. split; [done|]. exists mission. by rewrite Hid. }
  eapply ht_bind.
  - eapply ht_fail; [apply ht_confirm; [auto|by rewrite Hid|by intros w []]|].
    by intros s e w [].
  - intros [|]; [by apply ht_ret; intros w []|]. apply (ht_pre _ _ P); [|by intros w _ []].
    eapply ht_seq; [by apply ht_cancel_unfunded|]. by apply ht_refuse.
Qed.

(** *** Settling *)

(** The bounty was paid, or there is nothing to pay for the mission as it is. *)
Definition paid_or_free (id : string) (w : World) : Prop :=
  Exists (says_paid id) (exchanges w)
  ∨ ∀ m, missions (board w) !! id = Some m → status m ≠ Completed ∨ escrow_id m = None.

Lemma ht_pay P id mission executor :
  stable E P →
  ht E P (match executor with
          | Some payee =>
              release_escrow E id payee (match executor_label mission executor with
                                         | Some l => Some l
                                         | None => label E payee
                                         end)
          | None => refund_escrow E id
          end)
    (λ r w, P w ∧ ((∃ v, r = inr v) → Exists (says_paid id) (exchanges w))) (λ _ _, P).
Proof.
  intros HP. destruct executor as [payee|].
  - eapply ht_conseq; [by apply (ht_release_escrow P _ _ _ (λ _ _, P))|done| |done].
    intros r w (Hp & a & t & -> & Hin). split; [done|]. intros Ha. by eapply in_Exists.
  - eapply ht_conseq; [by apply (ht_refund_escrow P _ (λ _ _, P))|done| |done].
    intros r w (Hp & a & t & -> & Hin). split; [done|]. intros Ha. by eapply in_Exists.
Qed.

Lemma ht_release P id fallback :
  stable E P →
  ht E P (release_mission_bounty E id fallback) (λ _ w, P w ∧ paid_or_free id w) (λ _ _, P).
Proof.
  intros HP. rewrite /release_mission_bounty. eapply ht_seq; [by apply (ht_pause E Hothers)|].
  eapply ht_bind; [apply ht_read|]. intros [mission|].
  2: { apply ht_ret. intros w [Hp Hm]. split; [done|]. right. intros m Hm'.
       rewrite /get Hm' in Hm. done. }
  destruct (bool_decide (status mission = Completed)) eqn:Hs; cbn [negb].
  2: { apply bool_decide_eq_false in Hs. apply ht_ret. intros w [Hp Hm]. split; [done|]. right.
       intros m Hm'. left. rewrite /get Hm' in Hm. congruence. }
  destruct (escrow_id mission) as [e|] eqn:He.
  2: { apply ht_ret. intros w [Hp Hm]. split; [done|]. right. intros m Hm'. right.
       rewrite /get Hm' in Hm. congruence. }
  apply (ht_assume _ (e = id)).
  { intros w [Hb _] [_ Hm]. symmetry in Hm. by apply (Hb id mission Hm). }
  intros ->. apply (ht_pre _ _ P); [|by intros w _ []].
  eapply ht_seq; [by apply ht_ensure|]. destruct (ledger E); [|by apply ht_error].
  eapply ht_bind; [by apply ht_pay|]. intros r.
  destruct r as [[msg|msg|st msg|msg]|v]; try (apply ht_refuse; by intros w []).
  apply ht_ret. intros w [Hp Hpaid]. split; [done|]. left. eauto.
Qed.

Lemma settle_run clk id b m b' :
  settle clk id b = (Ok m, b') → missions b' !! id = Some m ∧ status m = Settled
    ∧ ∃ m0, missions b !! id = Some m0 ∧ status m0 = Completed ∧ escrow_id m = escrow_id m0.
Proof.
  rewrite /settle /get_mission /put_mission. intros Hrun. run_inv. bool_to_prop.
  rewrite lookup_insert_eq. split_and!; [done|done|]. eauto.
Qed.

Lemma ht_settle_board P id :
  stable E P →
  ht E P (settle_mission_board E id)
    (λ m w, P w ∧ missions (board w) !! id = Some m ∧ status m = Settled) (λ _ _, P).
Proof.
  intros HP. rewrite /settle_mission_board. eapply ht_seq; [by apply (ht_pause E Hothers)|].
  apply ht_commit; [done|..].
  - intros w clk _ _. apply settle_sound.
  - by intros w clk a b Hp (? & ? & _)%settle_run Hp'.
  - done.
Qed.

(** *** Cancelling *)

Lemma cancel_run clk id b m b' :
  cancel clk id b = (Ok m, b') → missions b' !! id = Some m ∧ status m = Cancelled.
Proof.
  rewrite /cancel /get_mission /put_mission. intros Hrun. run_inv. by rewrite lookup_insert_eq.
Qed.

Lemma ht_cancel_live P id :
  stable E P →
  ht E P (cancel_live_mission E id) (λ _ w, P w ∧ cancelled id w) (λ _ _, P).
Proof.
  intros HP. rewrite /cancel_live_mission. eapply ht_seq; [by apply (ht_pause E Hothers)|].
  eapply ht_bind; [apply ht_read|]. intros [mission|]; [|apply ht_refuse; by intros w []].
  assert (ht E P (c ← on_board E 500 (λ clk, cancel clk id); save E;; mret c)
            (λ _ w, P w ∧ cancelled id w) (λ _ _, P)) as Hc.
  { apply ht_commit; [done|intros w clk _ _; apply cancel_sound| |done].
    intros w clk a b Hp (Hm & Hs)%cancel_run Hp'. split; [done|]. by exists a. }
  assert (ht E P (c ← on_board E 500 (λ clk, cancel clk id); save E;; mret (Some c))
            (λ _ w, P w ∧ cancelled id w) (λ _ _, P)) as Hc'.
  { intros w Hi Hp. specialize (Hc w Hi Hp). revert Hc. cbv [mbind handler_bind].
    destruct (on_board _ _ _ w) as [[c|s' e] w1]; [|done]. destruct (save E w1) as [[[]|s' e] w2]; done. }
  destruct (status mission) eqn:Hs; try (apply ht_refuse; by intros w []);
    try (eapply ht_pre; [exact Hc'|by intros w _ []]).
  apply ht_ret. intros w [Hp Hm]. split; [done|]. by exists mission.
Qed.

Lemma ht_cancel P id stale reason actor :
  stable E P →
  ht E P (cancel_mission_and_refund E id stale reason actor)
    (λ r w, P w ∧ missions (board w) !! id = Some r.1 ∧ status r.1 = Cancelled
            ∧ escrow_id r.1 = None) (λ _ _, P).
Proof.
  intros HP. rewrite /cancel_mission_and_refund. eapply ht_bind; [by apply ht_cancel_live|].
  intros newly. set (C := λ w, P w ∧ cancelled id w).
  assert (stable E C) as HC by (apply stable_and; auto).
  eapply (ht_seq _ _ _ _ C).
  { destruct newly; [by apply ht_announce|by apply ht_ret]. }
  eapply ht_bind; [eapply ht_fail; [by apply (ht_refund C)|by intros s' e w []]|].
  intros m. apply ht_ret. intros w ([Hp (m' & Hm' & Hs)] & Hm & He). cbn. simplify_eq.
  by split_and!.
Qed.

(** *** The sweep *)

Lemma ht_each {A B} P (f : B → A → mh B) l acc F :
  (∀ acc x, x ∈ l → ht E P (f acc x) (λ _, P) F) → ht E P (each f acc l) (λ _, P) F.
Proof.
  revert acc. induction l as [|x l IH]; intros acc Hf; cbn; [by apply ht_ret|].
  eapply ht_bind; [apply Hf; by left|]. intros acc'. apply IH. intros acc'' y Hy. apply Hf.
  by right.
Qed.

(** The missions of a list are on the board, their escrows under their ids. *)
Definition listed (l : list CivilMission) (w : World) : Prop :=
  ∀ m, m ∈ l → known (mission_id m) (reward m) w.

Lemma listed_stable l : stable E (listed l).
Proof. intros w w' Hi Hr Hl m Hm. eapply known_stable; eauto. Qed.
Hint Resolve listed_stable : core.

Lemma ht_resolve P t stale report mission :
  stable E P → (∀ e, escrow_id mission = Some e → e = mission_id mission) →
  (∀ w, P w → known (mission_id mission) (reward mission) w) →
  ht E P (resolve_unconfirmed_escrow E t stale report mission) (λ _, P) (λ _ _, P).
Proof.
  intros HP He Hk. rewrite /resolve_unconfirmed_escrow.
  eapply ht_bind; [by eapply ht_try; [by apply ht_confirm|..]|]. intros [[|]|s' e];
    [by apply ht_ret| |by apply ht_ret].
  destruct (_ <? _); [by apply ht_ret|].
  eapply ht_bind; [by eapply ht_try; [by apply (ht_cancel_unfunded P)|..]|].
  intros [[|]|s' e]; by apply ht_ret.
Qed.

Lemma ht_expire P stale report mission :
  stable E P → ht E P (expire_mission E stale report mission) (λ _, P) (λ _ _, P).
Proof.
  intros HP. rewrite /expire_mission.
  eapply ht_bind; [eapply ht_try; [by apply (ht_cancel P)|by intros r w []|done]|].
  intros [r|s' e]; [by apply ht_ret|]. destruct (_ || _); by apply ht_ret.
Qed.

Lemma ht_retry P stale report id :
  stable E P → ht E P (retry_refund E stale report id) (λ _, P) (λ _ _, P).
Proof.
  intros HP. rewrite /retry_refund.
  eapply ht_bind; [eapply ht_try; [by apply (ht_refund P)|by intros r w []|done]|].
  intros [m|s' e]; [|by apply ht_ret]. destruct (escrow_id m); by apply ht_ret.
Qed.

(** The first loop, over the unconfirmed escrows of the board as it is. *)
Lemma ht_resolve_all P t stale report w :
  stable E P → escrow_inv E w → P w →
  let l := unconfirmed_escrows (board w) in
  let m := each (resolve_unconfirmed_escrow E t stale) report l in
  escrow_inv E (m w).2 ∧ rely w (m w).2 ∧ ends (λ _, P) (λ _ _, P) (m w).1 (m w).2.
Proof.
  intros HP Hi Hp l. assert (∀ m, m ∈ l → missions (board w) !! mission_id m = Some m
    ∧ ∀ e, escrow_id m = Some e → e = mission_id m) as Hl.
  { intros m Hm. apply elem_of_filterb in Hm as [[id Hm]%elem_of_btree_values _].
    destruct Hi as [Hb _]. destruct (Hb id m Hm) as (-> & He & _). done. }
  assert (P w ∧ listed l w) as Hw.
  { split; [done|]. intros m Hm. destruct (Hl m Hm). by exists m. }
  assert (ht E (λ w, P w ∧ listed l w) (each (resolve_unconfirmed_escrow E t stale) report l)
            (λ _ w, P w ∧ listed l w) (λ _ _ w, P w ∧ listed l w)) as Hloop.
  { apply ht_each. intros acc m Hm. apply ht_resolve; [auto|by apply Hl|].
    intros w' [_ Hl']. by apply Hl'. }
  destruct (Hloop w Hi Hw) as (? & ? & Hend). split_and!; [done|done|].
  revert Hend. destruct (each _ _ _ w) as [[r|s' e] w']; by intros [].
Qed.

Lemma ht_sweep P stale :
  stable E P → ht E P (reconcile_mission_escrows E stale) (λ _, P) (λ _ _, P).
Proof.
  intros HP. rewrite /reconcile_mission_escrows. eapply ht_bind; [apply ht_now|]. intros t.
  eapply ht_seq; [by apply (ht_pause E Hothers)|].
  eapply (ht_bind _ _ _ _ (λ l w, P w ∧ l = unconfirmed_escrows (board w)));
    [apply ht_read|]. intros l.
  eapply (ht_bind _ _ _ _ (λ _, P)).
  { intros w Hi [Hp ->]. by apply ht_resolve_all. }
  intros report. eapply ht_seq; [by apply (ht_pause E Hothers)|].
  eapply ht_bind; [apply ht_read|].
  intros lists. apply (ht_pre _ _ P); [|by intros w _ []].
  eapply ht_bind; [by apply ht_each; intros; apply ht_expire|].
  intros report'. by apply ht_each; intros; apply ht_retry.
Qed.

(** *** Publishing and moving a mission *)

Lemma ht_transition P action body :
  stable E P → ht E P (transition_mission E action body) (λ _, P) (λ _ _, P).
Proof.
  intros HP. rewrite /transition_mission. eapply ht_seq; [by apply ht_ensure|].
  set (name := match action with Claim => _ | Complete => _ end).
  eapply ht_seq; [by apply (ht_pause E Hothers)|]. eapply ht_bind; [apply ht_read|].
  intros [m|]; [|apply ht_ret; by intros w []]. apply (ht_pre _ _ P); [|by intros w _ []].
  eapply (ht_bind _ _ _ _ (λ _, P)).
  - apply ht_board; [intros w clk _ _; apply transition_sound|..];
      intros w clk a b Hp Hrun Hi Hr; by eapply HP.
  - intros a. eapply ht_seq; [|by apply ht_ret]. apply ht_save; [|done].
    intros w Hp Hi Hr. by eapply HP.
Qed.

Lemma ht_relayed P kind id signer claimed_as :
  stable E P → ht E P (sync_relayed E kind id signer claimed_as) (λ _, P) (λ _ _, P).
Proof.
  intros HP. rewrite /sync_relayed. eapply ht_seq; [by apply (ht_pause E Hothers)|].
  eapply ht_bind; [apply ht_read|]. intros was. apply (ht_pre _ _ P); [|by intros w _ []].
  eapply ht_bind.
  { apply (ht_try _ P P _ (λ _, P) (λ _ _, P)); [|done|done].
    apply ht_board; [intros w clk _ _; apply relayed_sound|..];
      intros w clk a b Hp Hrun Hi Hr; by eapply HP. }
  intros [[m|]|s' e]; [|by apply ht_ret..].
  eapply ht_seq; [apply (ht_save _ _ P (λ _, P)); [intros w Hp Hi Hr; by eapply HP|done]|].
  eapply (ht_seq _ _ _ _ P); [|by apply ht_ret].
  destruct (_ && _); [by apply ht_announce|by apply ht_ret].
Qed.

Context (Hfresh : ∀ w, missions (board w) !! uuid E w = None
                      ∧ ¬ Exists (is_lock (uuid E w)) (exchanges w)).

Lemma publish_scoped_run clk id spec g b :
  ∃ m, publish_with_scope_and_geo clk id spec g b = (Ok m, b <| missions ::= <[id := m]> |>)
       ∧ mission_id m = id ∧ reward m = spec_reward spec.
Proof.
  rewrite /publish_with_scope_and_geo /put_mission.
  cbv [mbind stm_bind modify mret stm_ret]. eexists. split; [reflexivity|done].
Qed.

Lemma set_expiry_run clk id e b m b' :
  set_expiry clk id e b = (Ok m, b') → missions b' !! id = Some m
    ∧ ∃ m0, missions b !! id = Some m0 ∧ mission_id m = mission_id m0 ∧ reward m = reward m0.
Proof.
  rewrite /set_expiry /get_mission /put_mission. intros Hrun. run_inv.
  rewrite lookup_insert_eq. eauto.
Qed.

Lemma ht_publish_on_board spec expires :
  ht E (λ _, True) (publish_mission_on_board E spec expires)
    (λ m w, known (mission_id m) (reward m) w ∧ reward m = spec_reward spec) (λ _ _ _, True).
Proof.
  rewrite /publish_mission_on_board. eapply ht_bind; [apply ht_now|]. intros t.
  eapply (ht_seq _ _ _ _ (λ _, True)); [by apply ht_require|]. eapply ht_seq; [by apply (ht_pause E Hothers)|].
  eapply (ht_bind _ _ _ _ (λ id w, missions (board w) !! id = None
                                   ∧ ¬ Exists (is_lock id) (exchanges w))).
  { intros w Hi _. split_and!; [done|apply rely_refl|]. apply Hfresh. }
  intros id.
  set (S := λ (m : CivilMission) w, mission_id m = id ∧ reward m = spec_reward spec
                   ∧ missions (board w) !! id = Some m).
  eapply (ht_bind _ _ _ _ S).
  { apply ht_board.
    - intros w clk _ [? ?]. by apply publish_sound.
    - intros w clk a b _ Hrun _ _. destruct (publish_scoped_run clk id spec (Some (geo E)) (board w))
        as (m & Hr & Hid & Hrew). rewrite Hrun in Hr. simplify_eq.
      split_and!; [done|done|]. by rewrite /= lookup_insert_eq.
    - done. }
  intros m. eapply (ht_bind _ _ _ _ S).
  { destruct expires; [|by apply ht_ret]. apply ht_board.
    - intros w clk _ _. apply set_expiry_sound.
    - intros w clk a b (<- & Hr & Hm) (Hm' & m0 & Hm0 & Hid & Hrew)%set_expiry_run _ _.
      simplify_eq. split_and!; [done|congruence|done].
    - done. }
  intros m'. eapply ht_seq; [|apply ht_ret; intros w Hq; exact Hq].
  apply ht_save; [|done]. intros w (<- & Hr & Hm) _ _. split; [|done]. by exists m'.
Qed.

(** A mission that is answered has its bounty locked; a refusal other than an
    internal error leaves nothing to claim. *)
Lemma ht_publish spec expires :
  ht E (λ _, True) (publish_mission E spec expires)
    (λ m w, 0 < from_option agent_watt 0 (spec_reward spec) →
       missions (board w) !! mission_id m = Some m ∧ escrow_id m = Some (mission_id m)
       ∧ escrow_confirmed m = true
       ∧ Exists (says_locked E (mission_id m) (from_option agent_watt 0 (spec_reward spec)))
           (exchanges w))
    (λ _ _ _, True).
Proof.
  eapply ht_bind; [apply ht_publish_on_board|]. intros m.
  apply (ht_assume _ (reward m = spec_reward spec)); [by intros w _ []|]. intros Hr.
  eapply ht_post; [eapply ht_conseq; [apply ht_lock|by intros w _ []|done|done]|].
  intros m' w [Hb _] [_ Hm']. rewrite /bounty_of Hr in Hm'. intros Hpos.
  destruct (Z.leb_spec (from_option agent_watt 0 (spec_reward spec)) 0); [lia|].
  destruct Hm' as (Hm & He & Hc & Hl). destruct (Hb _ _ Hm) as (-> & _). by split_and!.
Qed.
End handlers.
