(* ===== verification/EscrowSafety.v ===== *)
(** * Bounties are not lost

    Requests on missions that interrupt each other: no escrow is lost, a
    published bounty is locked or its mission closed, a settlement pays, and a
    sweep with a working ledger leaves nothing pending. *)

From S2P Require Import Prelude Collections Text Json Signing Hashcash Profiles Missions Tasks X402 Access LedgerClient MissionRoutes Escrow EscrowLogic.
#[local] Open Scope Z_scope.
#[local] Set Default Proof Using "Type*".

(** ** Requests that run during other requests *)

Section world.
Context `{HttpText} `{Crypto, Digest, Puzzle.PuzzleDecoders}.

Inductive request :=
  | Publish (spec : MissionSpec) (expires : option Z)
  | Transition (action : transition) (body : MissionClaimBody)
  | Settle (id : string) (agent : option string)
  | Cancel (id : string) (reason actor : option string)
  | Sweep (stale_after_secs : Z)
  | Relayed (kind : relayed) (id signer : string) (claimed_as : option string).

Definition serve (E : Host) (r : request) (w : World) : World :=
  match r with
  | Publish spec expires => (publish_mission E spec expires w).2
  | Transition action body => (transition_mission E action body w).2
  | Settle id agent => (settle_mission E id agent w).2
  | Cancel id reason actor =>
      (cancel_mission_and_refund E id ESCROW_STALE_AFTER_SECS reason actor w).2
  | Sweep stale => (reconcile_mission_escrows E stale w).2
  | Relayed kind id signer claimed_as => (sync_relayed E kind id signer claimed_as w).2
  end.

(** At every [await] the requests that [schedule] names are served, which are
    themselves interrupted in the same way, to the given depth. *)
Fixpoint nested (E : Host) (schedule : World → list request) (depth : nat) : Host :=
  {| agent_did := agent_did E; identity_did := identity_did E; ledger := ledger E;
     label := label E; geo := geo E; http := http E; time := time E; time_ms := time_ms E;
     save_domain := save_domain E; uuid := uuid E;
     others := match depth with
               | O => λ w, w
               | S depth' => λ w, foldl (λ w r, serve (nested E schedule depth') r w) w (schedule w)
               end |}.

(** A stop and a start of the node: the board is read back from disk. *)
Definition restart (w : World) : World := w <| board := stored w |>.

Definition world_step (E : Host) (schedule : World → list request) (w w' : World) : Prop :=
  (∃ depth r, w' = serve (nested E schedule depth) r w) ∨ w' = restart w.

Definition new_world : World := mkWorld default_board default_board [] [] 0.

(** [Uuid::new_v4] gives an id that was never used. *)
Definition fresh_ids (E : Host) : Prop :=
  ∀ w, missions (board w) !! uuid E w = None ∧ ¬ Exists (is_lock (uuid E w)) (exchanges w).

Lemma ht_reject (E : Host) id :
  (∀ w, escrow_inv E w → escrow_inv E (others E w) ∧ rely w (others E w)) →
  ht E (λ _, True) (reject_invalid_system_puzzle_settlement E id) (λ _ _, True) (λ _ _ _, True).
Proof.
  intros Ho. rewrite /reject_invalid_system_puzzle_settlement.
  eapply (ht_seq _ _ _ _ (λ _, True)); [by apply (ht_pause E Ho)|].
  eapply ht_bind; [apply ht_read|]. intros [m|]; [|by apply ht_ret].
  destruct (Puzzle.system_puzzle_settlement_from_mission m); [by apply ht_ret|by apply ht_refuse].
Qed.

Lemma serve_keeps (E : Host) r w :
  (∀ w, escrow_inv E w → escrow_inv E (others E w) ∧ rely w (others E w)) → fresh_ids E →
  escrow_inv E w → escrow_inv E (serve E r w) ∧ rely w (serve E r w).
Proof.
  intros Ho Hf Hi.
  assert (stable E (λ _, True)) as HT by done.
  assert (∀ {A} (m : mh A) Q F, ht E (λ _, True) m Q F →
            escrow_inv E (m w).2 ∧ rely w (m w).2) as Hht.
  { intros A m Q F Hm. by destruct (Hm w Hi I) as (? & ? & _). }
  destruct r; cbn [serve]; (eapply Hht).
  - by apply ht_publish.
  - by apply (ht_transition E Ho (λ _, True)).
  - rewrite /settle_mission. eapply (ht_seq _ _ _ _ (λ _, True)).
    { by eapply ht_fail; [apply ht_reject|]. }
    eapply (ht_seq _ _ _ _ (λ _, True));
      [eapply ht_post; [by apply (ht_release E Ho (λ _, True))|done]|].
    by apply (ht_settle_board E Ho (λ _, True)).
  - by apply (ht_cancel E Ho (λ _, True)).
  - by apply (ht_sweep E Ho (λ _, True)).
  - by apply (ht_relayed E Ho (λ _, True)).
Qed.

(** The predicates read only the node's identity. *)
Lemma escrow_inv_nested E schedule depth w :
  escrow_inv (nested E schedule depth) w ↔ escrow_inv E w.
Proof. by destruct depth. Qed.

Lemma nested_keeps E schedule depth w :
  fresh_ids E → escrow_inv E w →
  escrow_inv E (others (nested E schedule depth) w) ∧ rely w (others (nested E schedule depth) w).
Proof.
  intros Hf. revert w. induction depth as [|depth IH]; intros w Hi; cbn.
  { split; [done|apply rely_refl]. }
  generalize (schedule w). intros l. revert w Hi. induction l as [|r l IHl]; intros w Hi; cbn.
  { split; [done|apply rely_refl]. }
  destruct (serve_keeps (nested E schedule depth) r w) as [Hi1 Hr1].
  - intros w'. rewrite !escrow_inv_nested. apply IH.
  - by destruct depth.
  - by rewrite escrow_inv_nested.
  - rewrite escrow_inv_nested in Hi1. destruct (IHl _ Hi1). split; [done|by eapply rely_trans].
Qed.

Lemma nested_serve_keeps E schedule depth r w :
  fresh_ids E → escrow_inv E w →
  escrow_inv E (serve (nested E schedule depth) r w) ∧ rely w (serve (nested E schedule depth) r w).
Proof.
  intros Hf Hi. rewrite -(escrow_inv_nested E schedule depth). apply serve_keeps.
  - intros w'. rewrite !escrow_inv_nested. by apply nested_keeps.
  - by destruct depth.
  - by rewrite escrow_inv_nested.
Qed.

Lemma world_invariant E schedule w :
  fresh_ids E → rtc (world_step E schedule) new_world w → escrow_inv E w.
Proof.
  intros Hf Hr. assert (escrow_inv E new_world) as Hnew by (split; apply map_Forall_empty).
  revert Hnew. induction Hr as [w|w1 w2 w3 Hs _ IH]; [done|]. intros Hi. apply IH.
  destruct Hs as [(depth & r & ->)| ->]; [by apply nested_serve_keeps|].
  by destruct Hi as [_ Hs].
Qed.


(** C6: publishing locks the bounty or closes the mission. When the lock of a
    mission's positive bounty is answered, the mission on the board is confirmed
    and the ledger said that the bounty is locked; when it is refused for any
    reason but an internal error, the mission can no longer be claimed or
    completed. *)
Theorem locked_or_closed E schedule depth w mission :
  fresh_ids E → escrow_inv E w →
  missions (board w) !! mission_id mission = Some mission → 0 < bounty_of mission →
  match lock_mission_bounty (nested E schedule depth) mission w with
  | (Answer m, w') =>
      missions (board w') !! mission_id mission = Some m
      ∧ escrow_id m = Some (mission_id mission) ∧ escrow_confirmed m = true
      ∧ Exists (says_locked E (mission_id mission) (bounty_of mission)) (exchanges w')
  | (Refuse status _, w') => status = 500 ∨ closed (mission_id mission) w'
  end.
Proof.
  intros Hf Hi Hm Hpos.
  assert (∀ w, escrow_inv (nested E schedule depth) w →
    escrow_inv (nested E schedule depth) (others (nested E schedule depth) w)
    ∧ rely w (others (nested E schedule depth) w)) as Ho.
  { intros w'. rewrite !escrow_inv_nested. by apply nested_keeps. }
  destruct (ht_lock _ Ho mission w) as (_ & _ & Hend); [by rewrite escrow_inv_nested|by exists mission|].
  destruct (lock_mission_bounty _ mission w) as [[m|s e] w']; cbn in Hend; [|done].
  destruct Hend as [_ Hend]. destruct (Z.leb_spec (bounty_of mission) 0); [lia|].
  destruct Hend as (? & ? & ? & ?). split_and!; try done. by destruct depth.
Qed.

(** ** Settling *)

(** While nothing else runs. *)
Definition quiet (E : Host) : Prop := ∀ w, others E w = w.

Lemma quiet_keeps E w :
  quiet E → escrow_inv E w → escrow_inv E (others E w) ∧ rely w (others E w).
Proof. intros Hq Hi. rewrite Hq. split; [done|apply rely_refl]. Qed.

End world.

(** ** A sweep with a working ledger *)

Section sweep.
Context `{HttpText} (E : Host).

(** Nothing interrupts the sweep, the board can be saved, and the ledger carries
    out every refund. *)
Record working : Prop := {
  working_quiet : quiet E;
  working_ledger : is_Some (ledger E);
  working_saves n : save_domain E n = Ok tt;
  working_refunds h e p t : ∃ v, post_signed (http E h (RefundEscrow e p t)) = inr v;
}.
Context (W : working).

Lemma working_pause w : pause E w = (Answer tt, w <| moment ::= S |>).
Proof. by rewrite /pause (working_quiet W). Qed.

Lemma working_commit {A} (op : clock → stm MissionBoard A) w a b :
  op (time E (moment w)) (board w) = (Ok a, b) →
  (a ← on_board E 500 op; save E;; mret a) w = (Answer a, w <| board := b |> <| stored := b |>).
Proof.
  intros Hop. cbv [mbind handler_bind mret handler_ret]. rewrite /on_board Hop /save /save_or.
  by rewrite (working_saves W).
Qed.

(** What a step of the sweep did to the board: one mission, now without escrow. *)
Definition rewrote (id : string) (m : CivilMission) (w w' : World) : Prop :=
  missions (board w') = <[id := m]> (missions (board w)) ∧ escrow_id m = None.

Lemma refund_works w id m stale :
  missions (board w) !! id = Some m →
  ∃ m' w', refund_pending_escrow E id stale w = (Answer m', w') ∧ rewrote id m' w w'
           ∧ status m' = status m.
Proof.
  intros Hm. rewrite /refund_pending_escrow {1}/mbind /handler_bind working_pause.
  rewrite {1}/mbind {1}/read_board /get. cbn [board]. cbn. rewrite Hm.
  destruct (escrow_id m) as [e|] eqn:He.
  2: { exists m. eexists. split; [reflexivity|]. split; [|done]. split; [|done]. cbn.
       by rewrite insert_id. }
  destruct (working_ledger W) as [l ->].
  rewrite /refund_escrow /ask. cbv [mbind handler_bind]. rewrite working_pause.
  rewrite /exchange. cbn [mret handler_ret].
  destruct (working_refunds W (exchanges (w <| moment ::= S |> <| moment ::= S |>)) e
    (identity_did E) (time_ms E (S (S (moment w))))) as [v Hv]. cbn in Hv |- *. rewrite Hv.
  rewrite /clear_mission_escrow. cbv [mbind handler_bind]. rewrite working_pause.
  set (w3 := _ <| moment ::= S |>).
  pose proof (clear_run (time E (moment w3)) id (board w3)) as Hc.
  assert (missions (board w3) !! id = Some m) as Hm3 by done. rewrite Hm3 in Hc.
  pose proof (working_commit (λ clk, clear_bounty_escrow clk id) w3 _ _ Hc) as Hrun.
  cbv [mbind handler_bind] in Hrun. rewrite Hrun.
  eexists _, _. split; [reflexivity|]. done.
Qed.

Definition live (m : CivilMission) : Prop := status m ≠ Completed ∧ status m ≠ Settled.

Lemma cancel_ok clk id b m :
  missions b !! id = Some m → open_or_claimed m = true →
  let c := m <| status := Cancelled |> <| updated_at := clk 0%nat |> in
  cancel clk id b = (Ok c, b <| missions ::= <[id := c]> |>).
Proof.
  intros Hm Ho. rewrite /cancel /get_mission /put_mission.
  cbv [mbind stm_bind gets lift ok_or ensure modify mret stm_ret]. rewrite Hm.
  rewrite /open_or_claimed in Ho. by destruct (status m).
Qed.

Lemma cancel_live_works w id m :
  missions (board w) !! id = Some m → live m →
  ∃ newly m1 w1, cancel_live_mission E id w = (Answer newly, w1)
    ∧ missions (board w1) = <[id := m1]> (missions (board w)) ∧ status m1 = Cancelled.
Proof.
  intros Hm [Hc Hse]. rewrite /cancel_live_mission {1}/mbind /handler_bind working_pause.
  set (w0 := w <| moment ::= S |>).
  rewrite {1}/mbind {1}/read_board /get. assert (missions (board w0) !! id = Some m) as Hm0 by done.
  cbv beta iota. rewrite Hm0.
  destruct (status m) eqn:Hs; try done.
  3: { exists None, m, w0. split; [done|]. split; [|done]. by rewrite insert_id. }
  all: assert (open_or_claimed m = true) as Ho by by rewrite /open_or_claimed Hs.
  all: pose proof (cancel_ok (time E (moment w0)) id (board w0) m Hm0 Ho) as Hrun; cbn zeta in Hrun.
  all: cbv [mbind handler_bind]; rewrite /on_board Hrun /save /save_or (working_saves W).
  all: eexists _, _, _; split; [reflexivity|]; split; [reflexivity|done].
Qed.

Lemma cancel_works w id m stale reason actor :
  missions (board w) !! id = Some m → live m →
  ∃ m' b w', cancel_mission_and_refund E id stale reason actor w = (Answer (m', b), w')
             ∧ rewrote id m' w w' ∧ status m' = Cancelled.
Proof.
  intros Hm Hl. destruct (cancel_live_works w id m Hm Hl) as (newly & m1 & w1 & Hrun & Hb & Hs).
  rewrite /cancel_mission_and_refund {1}/mbind /handler_bind Hrun.
  set (w2 := (match newly with
              | Some c => announce_mission_cancelled c reason actor
              | None => mret tt end w1).2).
  assert (board w2 = board w1 ∧ match newly with
            | Some c => announce_mission_cancelled c reason actor
            | None => mret tt end w1 = (Answer tt, w2)) as [Hb2 Hann] by by destruct newly.
  rewrite {1}/mbind Hann.
  destruct (refund_works w2 id m1 stale) as (m' & w' & Hrun' & [Hb' He] & Hs').
  { by rewrite Hb2 Hb lookup_insert_eq. }
  rewrite {1}/mbind Hrun'. eexists _, _, _. split; [reflexivity|]. split; [|congruence].
  split; [|done]. by rewrite Hb' Hb2 Hb insert_insert_eq.
Qed.

(** *** The loops *)

Definition tidy (t : Z) (b : MissionBoard) (id : string) : Prop :=
  ∀ m, missions b !! id = Some m →
    (open_or_claimed m = true → is_expired m t = false)
    ∧ (status m = Cancelled → escrow_id m = None).

(** What is left to do: the missions to expire and the refunds to retry. *)
Record pending_work (t : Z) (expiring refunds : list string) (w : World) : Prop := {
  pw_tidy id : id ∉ expiring → id ∉ refunds → tidy t (board w) id;
  pw_live id : id ∈ expiring → ∃ m, missions (board w) !! id = Some m ∧ live m;
  pw_cancelled id : id ∈ refunds → cancelled id w;
}.

(** A mission that ends cancelled without escrow is done. *)
Lemma pending_work_rewrite t l1 l2 w w' id m l1' l2' :
  pending_work t l1 l2 w → rewrote id m w w' → status m = Cancelled →
  (∀ x, x ∈ l1 → x = id ∨ x ∈ l1') → (∀ x, x ∈ l2 → x = id ∨ x ∈ l2') →
  (∀ x, x ∈ l1' → x ∈ l1) → (∀ x, x ∈ l2' → x ∈ l2) → pending_work t l1' l2' w'.
Proof.
  intros [Ht Hl Hc] [Hb He] Hs H1 H2 H1' H2'.
  assert (∀ x, x ≠ id → missions (board w') !! x = missions (board w) !! x) as Hne.
  { intros x Hx. by rewrite Hb lookup_insert_ne. }
  assert (missions (board w') !! id = Some m) as Hid by by rewrite Hb lookup_insert_eq.
  split.
  - intros x Hx1 Hx2. destruct (decide (x = id)) as [->|Hx].
    + intros m' Hm'. simplify_eq. split; [|done]. rewrite /open_or_claimed. by rewrite Hs.
    + intros m' Hm'. rewrite (Hne x Hx) in Hm'. eapply Ht; [| |done]; naive_solver.
  - intros x Hx. destruct (decide (x = id)) as [->|Hne'].
    + exists m. split; [done|]. split; congruence.
    + rewrite (Hne x Hne'). auto.
  - intros x Hx. destruct (decide (x = id)) as [->|Hne']; [by exists m|].
    rewrite /cancelled (Hne x Hne'). by apply Hc, H2'.
Qed.

Lemma expire_works t stale l l2 report w :
  pending_work t (mission_id <$> l) l2 w →
  ∃ report' w', each (expire_mission E stale) report l w = (Answer report', w')
    ∧ pending_work t [] l2 w' ∧ refunds_pending report' = refunds_pending report
    ∧ expired report' = (expired report + length l)%nat.
Proof.
  revert report w. induction l as [|x l IH]; intros report w Hw; cbn [each].
  { exists report, w. split_and!; [done|done|done|cbn; lia]. }
  destruct (pw_live _ _ _ _ Hw (mission_id x)) as (m & Hm & Hl); [by left|].
  destruct (cancel_works w (mission_id x) m stale (Some "expired") None Hm Hl)
    as (m' & b & w1 & Hrun & Hr & Hs).
  rewrite {1}/mbind /handler_bind {1}/expire_mission {1}/mbind /handler_bind /attempt Hrun.
  destruct (IH (report <| expired ::= S |>) w1) as (report' & w' & Hrun' & Hw' & Hp & He).
  { eapply (pending_work_rewrite _ _ _ _ _ _ _ _ _ Hw Hr Hs); try done.
    - intros y. rewrite fmap_cons elem_of_cons. naive_solver.
    - by right.
    - intros y Hy. rewrite fmap_cons. by right. }
  exists report', w'. split_and!; [exact Hrun'|done|done|]. rewrite He. cbn. lia.
Qed.

Lemma retry_works t stale l report w :
  pending_work t [] l w →
  ∃ report' w', each (retry_refund E stale) report l w = (Answer report', w')
    ∧ pending_work t [] [] w' ∧ refunds_pending report' = refunds_pending report.
Proof.
  revert report w. induction l as [|id l IH]; intros report w Hw; cbn [each].
  { by exists report, w. }
  destruct (pw_cancelled _ _ _ _ Hw id) as (m & Hm & Hc); [by left|].
  destruct (refund_works w id m stale Hm) as (m' & w1 & Hrun & Hr & Hs).
  rewrite {1}/mbind /handler_bind {1}/retry_refund {1}/mbind /handler_bind /attempt Hrun.
  destruct Hr as [Hb He]. rewrite He.
  destruct (IH (report <| refunds_settled ::= S |>) w1) as (report' & w' & Hrun' & Hw' & Hp).
  { apply (pending_work_rewrite _ _ _ _ _ id m' _ _ Hw); [done|congruence|..].
    - intros y Hy. by right.
    - intros y. rewrite elem_of_cons. naive_solver.
    - done.
    - intros y Hy. by right. }
  by exists report', w'.
Qed.

Lemma resolve_answers t stale report mission w :
  ∃ report' w', resolve_unconfirmed_escrow E t stale report mission w = (Answer report', w')
    ∧ refunds_pending report' = refunds_pending report.
Proof.
  rewrite /resolve_unconfirmed_escrow. cbv [mbind handler_bind attempt].
  destruct (confirm_escrow_with_ledger E mission w) as [[[|]|s e] w1]; [by eexists _, _| |by eexists _, _].
  destruct (_ <? _); [by eexists _, _|].
  destruct (cancel_unfunded_mission E _ stale w1) as [[[|]|s e] w2]; by eexists _, _.
Qed.

Lemma resolve_all_answer t stale l report w :
  ∃ report' w', each (resolve_unconfirmed_escrow E t stale) report l w = (Answer report', w')
    ∧ refunds_pending report' = refunds_pending report.
Proof.
  revert report w. induction l as [|m l IH]; intros report w; cbn [each]; [by eexists _, _|].
  destruct (resolve_answers t stale report m w) as (r1 & w1 & Hrun & Hp).
  rewrite {1}/mbind /handler_bind Hrun. destruct (IH r1 w1) as (r2 & w2 & Hrun2 & Hp2).
  exists r2, w2. split; [done|congruence].
Qed.

Lemma all_listed t w :
  escrow_inv E w →
  pending_work t (mission_id <$> expired_missions (board w) t) (pending_refunds (board w)) w.
Proof.
  intros [Hb _]. split.
  - intros id Hn1 Hn2 m Hm. destruct (Hb id m Hm) as (Hid & _). split.
    + intros Ho. destruct (is_expired m t) eqn:He; [|done]. destruct Hn1.
      apply list_elem_of_fmap. exists m. split; [done|]. apply elem_of_expired_missions. eauto.
    + intros Hs. destruct (escrow_id m) as [e|] eqn:He; [|done]. destruct Hn2.
      apply list_elem_of_fmap. exists m. split; [done|]. rewrite elem_of_filterb.
      split; [|apply bool_decide_eq_true; by rewrite He].
      rewrite /list_missions elem_of_filterb elem_of_btree_values. split; [eauto|].
      by apply bool_decide_eq_true.
  - intros id (m & -> & [(id' & Hm) [Ho _]]%elem_of_expired_missions)%list_elem_of_fmap.
    destruct (Hb id' m Hm) as (-> & _). exists m. split; [done|].
    rewrite /open_or_claimed in Ho. split; intros Hs; by rewrite Hs in Ho.
  - intros id (m & -> & Hm)%list_elem_of_fmap. apply elem_of_filterb in Hm as [Hm _].
    apply elem_of_filterb in Hm as [[id' Hm]%elem_of_btree_values Hs%bool_decide_eq_true].
    destruct (Hb id' m Hm) as (-> & _). by exists m.
Qed.

Lemma sweep_works stale w :
  escrow_inv E w →
  ∃ report w', reconcile_mission_escrows E stale w = (Answer report, w')
    ∧ refunds_pending report = 0%nat ∧ ∀ id, tidy (time E (moment w) 0%nat) (board w') id.
Proof.
  intros Hi. set (t := time E (moment w) 0%nat).
  assert (∀ w, escrow_inv E w → escrow_inv E (others E w) ∧ rely w (others E w)) as Ho.
  { intros w1. apply quiet_keeps, W. }
  rewrite /reconcile_mission_escrows {1}/mbind /handler_bind /now. fold t.
  rewrite {1}/mbind /handler_bind working_pause {1}/mbind /handler_bind {1}/read_board.
  set (w0 := w <| moment ::= S |>). set (l0 := unconfirmed_escrows (board w0)).
  destruct (resolve_all_answer t stale l0 (mkReport 0 0 0 0 0) w0) as (r1 & w1 & Hrun1 & Hp1).
  rewrite {1}/mbind Hrun1.
  assert (escrow_inv E w1) as Hi1.
  { assert (escrow_inv E w0) as Hi0 by exact Hi.
    destruct (ht_resolve_all E Ho (λ _, True) t stale (mkReport 0 0 0 0 0) w0) as (Hi1 & _); try done.
    by rewrite -/l0 Hrun1 in Hi1. }
  rewrite {1}/mbind /handler_bind working_pause {1}/mbind /handler_bind {1}/read_board.
  set (w2 := w1 <| moment ::= S |>). cbn [fst snd].
  destruct (expire_works t stale (expired_missions (board w2) t) (pending_refunds (board w2)) r1 w2)
    as (r2 & w3 & Hrun2 & Hw3 & Hp2 & _); [by apply all_listed|].
  rewrite {1}/mbind Hrun2.
  destruct (retry_works t stale (pending_refunds (board w2)) r2 w3 Hw3)
    as (r3 & w4 & Hrun3 & Hw4 & Hp3).
  exists r3, w4. split_and!; [exact Hrun3|by rewrite Hp3 Hp2 Hp1|].
  intros id. apply (pw_tidy _ _ _ _ Hw4); apply not_elem_of_nil.
Qed.
End sweep.


(** ** A race of settlement and completion *)

Module EscrowScenario.
#[local] Existing Instance Signing.Demo.crypto.
#[local] Existing Instance Puzzle.PuzzleScenario.zero_digest.
#[local] Existing Instance Puzzle.PuzzleScenario.demo_decoders.
#[local] Instance http_text : HttpText := {|
  status_text := show_Z;
  value_to_string _ := "";
|}.

(** Fresh ids: longer than every id in use. *)
Definition ids_of (w : World) : gset string :=
  dom (missions (board w)) ∪ list_to_set ((λ x : Exchange,
    match x.1 with LockEscrow e _ _ _ _ _ _ => e | _ => "" end) <$> exchanges w).

(** The ledger accepts everything and reports a lock of 50. *)
Definition obliging : list Exchange → LedgerRequest → http_answer := λ _ r,
  inr (200, match r with
            | ReadEscrow _ => JObject [("status", JString "locked");
                ("payer_account", JString "did:p"); ("amount", JNumber (PosInt 50))]
            | _ => JNull
            end).

Definition host (answers : list Exchange → LedgerRequest → http_answer) : Host :=
  {| agent_did := "did:p"; identity_did := "did:p"; ledger := Some "https://gw";
     label := λ _, None; geo := mkPublicGeoPayload 0 0 "manual"; http := answers;
     time := λ n _, Z.of_nat n; time_ms := λ n, Z.of_nat n; save_domain := λ _, Ok tt;
     uuid := λ w, fresh (ids_of w); others := λ w, w |}.

Lemma host_fresh answers : fresh_ids (host answers).
Proof.
  intros w. cbn. pose proof (is_fresh (ids_of w)) as Hf. split.
  - apply not_elem_of_dom. intros Hin. apply Hf. rewrite {2}/ids_of. set_solver.
  - intros (x & Hx & Hl)%Exists_exists. apply Hf. rewrite {2}/ids_of.
    apply elem_of_union_r, elem_of_list_to_set, list_elem_of_fmap. exists x. split; [|done].
    rewrite /is_lock in Hl. by destruct x.1.
Qed.

(** A published mission with a bounty of 50, claimed by another agent. *)
Definition spec : MissionSpec :=
  mkMissionSpec "survey" "" "did:p" Player Trade RealWorld None None None None
    (Some (mkMissionReward 50 1 0)) JNull.
Definition body (id : string) : MissionClaimBody := local_claim id "did:a".

Definition alone (answers : list Exchange → LedgerRequest → http_answer) : Host :=
  nested (host answers) (λ _, []) 0.

Definition id1 : string := "0".
Definition w1 : World := serve (alone obliging) (Publish spec None) new_world.
Definition w2 : World := serve (alone obliging) (Transition Claim (body id1)) w1.
Definition w3 : World := serve (alone obliging) (Transition Complete (body id1)) w2.
Definition mission_at (w : World) : CivilMission :=
  default (mkCivilMission "" "" "" "" System Wealth InWorld None None None None None JNull None None
             None 0 0 None None None None None Open None false None) (missions (board w) !! id1).

Lemma w3_reached : rtc (world_step (host obliging) (λ _, [])) new_world w3.
Proof.
  eapply rtc_l; [left; exists O, (Publish spec None); reflexivity|].
  eapply rtc_l; [left; exists O, (Transition Claim (body id1)); reflexivity|].
  eapply rtc_l; [left; exists O, (Transition Complete (body id1)); reflexivity|].
  apply rtc_refl.
Qed.

Lemma w3_inv : escrow_inv (host obliging) w3.
Proof. exact (world_invariant _ _ _ (host_fresh _) w3_reached). Qed.


(** A ledger that refuses the lock: the mission just published is closed. *)
Definition refusing : list Exchange → LedgerRequest → http_answer := λ _ _,
  inr (402, JObject [("error", JString "no Watt")]).
Definition w0 : World := (publish_mission_on_board (alone refusing) spec None new_world).2.

Lemma w0_inv : escrow_inv (host refusing) w0.
Proof.
  assert (escrow_inv (host refusing) new_world) as Hnew by (split; apply map_Forall_empty).
  destruct (ht_publish_on_board (alone refusing)) with (spec := spec) (expires := None : option Z)
    (w := new_world) as (Hi & _); [|exact (host_fresh refusing)|exact Hnew|exact I|exact Hi].
  intros w. apply quiet_keeps. done.
Qed.

Lemma locked_or_closed_witness :
  (lock_mission_bounty (alone refusing) (mission_at w0) w0).1 = Refuse 402 "no Watt"
  ∧ (402 = 500 ∨ closed id1 (lock_mission_bounty (alone refusing) (mission_at w0) w0).2).
Proof.
  assert (missions (board w0) !! mission_id (mission_at w0) = Some (mission_at w0)) as Hm
    by (vm_compute; reflexivity).
  assert (0 < bounty_of (mission_at w0)) as Hb by (vm_compute; reflexivity).
  pose proof (locked_or_closed (host refusing) (λ _, []) 0 w0 (mission_at w0) (host_fresh _)
                w0_inv Hm Hb) as Hl.
  assert ((lock_mission_bounty (alone refusing) (mission_at w0) w0).1 = Refuse 402 "no Watt") as Hr
    by (vm_compute; reflexivity).
  split; [exact Hr|]. revert Hl Hr. fold (alone refusing).
  destruct (lock_mission_bounty (alone refusing) (mission_at w0) w0) as [[m|st e] w'];
    intros Hl Hr; [discriminate Hr|]. injection Hr as -> ->. exact Hl.
Defined.


(** The board after the sweep of a world whose open mission has expired. *)
Definition w4 : World :=
  (publish_mission (alone obliging) spec (Some 5) new_world).2 <| moment := 100%nat |>.

Lemma escrow_inv_moment E w n : escrow_inv E w → escrow_inv E (w <| moment := n |>).
Proof. done. Qed.

Lemma w4_inv : escrow_inv (alone obliging) w4.
Proof.
  apply escrow_inv_moment.
  assert (escrow_inv (alone obliging) new_world) as Hnew by (split; apply map_Forall_empty).
  destruct (ht_publish (alone obliging)) with (spec := spec) (expires := Some 5)
    (w := new_world) as (Hi & _); [|exact (host_fresh obliging)|exact Hnew|exact I|exact Hi].
  intros w. apply quiet_keeps. done.
Qed.


(** The completion is served while the settlement waits for the board: the
    mission was only claimed when the release looked at it, so nothing was
    released, and it is completed when the board settles it. *)
Definition racing : Host :=
  nested (host obliging)
    (λ w, if (moment w =? moment w2 + 2)%nat then [Transition Complete (body id1)] else []) 1.

Lemma settle_without_pay :
  ∃ m w', settle_mission racing id1 None w2 = (Answer m, w')
    ∧ missions (board w') !! id1 = Some m ∧ status m = Settled
    ∧ escrow_id m = Some id1 ∧ escrow_confirmed m = true
    ∧ completed_by m = Some "did:a" ∧ ¬ Exists (says_paid id1) (exchanges w').
Proof.
  destruct (settle_mission racing id1 None w2) as [[m|st e] w'] eqn:Hrun.
  2: { apply (f_equal fst) in Hrun. vm_compute in Hrun. discriminate Hrun. }
  exists m, w'. vm_compute in Hrun. injection Hrun as <- <-.
  split_and!; try reflexivity. intros Hp.
  repeat (apply Exists_cons in Hp as [Hp|Hp]; [by destruct Hp|]). by apply Exists_nil in Hp.
Qed.
End EscrowScenario.
