(* ===== verification/Farm.v ===== *)
(** * The farm game

    [crates/gateway-contract/src/farm.rs], the wire format of farm commands, and
    [crates/control-plane/src/routes/farm.rs], the handler that signs a command,
    holds the agent in place while it works, and reads the gateway's answer. The
    gateway is not part of the repository: its answers are arguments. *)

From S2P Require Import Prelude Collections Text Json Signing Hashcash Identities Space SpaceCatalog Walk Presence MapSource SpaceEntry Profiles Missions X402 Access Movement LedgerClient MissionRoutes.
From Stdlib Require Import SpecFloat.
#[local] Open Scope Z_scope.
#[local] Set Default Proof Using "Type*".

(** ** The wire format *)

Inductive Crop := Barley | CoffeeBean.
#[global] Instance Crop_eq_dec : EqDecision Crop.
Proof. solve_decision. Defined.

Definition all_crops : list Crop := [Barley; CoffeeBean].
Definition crop_as_str (c : Crop) : string :=
  match c with Barley => "barley" | CoffeeBean => "coffee_bean" end.
Definition crop_parse (s : string) : option Crop :=
  find_first (λ c, String.eqb (crop_as_str c) s) all_crops.

Inductive FarmAction :=
  | ClaimPlots (parcel : Z)
  | Plant (tile : N * N) (crop : Crop)
  | Water (tile : N * N)
  | Harvest (tile : N * N)
  | Sell (crop : Crop) (units : Z)
  | Steal (tile : N * N).

Definition action_name (a : FarmAction) : string :=
  match a with
  | ClaimPlots _ => "claim_plots" | Plant _ _ => "plant" | Water _ => "water"
  | Harvest _ => "harvest" | Sell _ _ => "sell" | Steal _ => "steal"
  end.

(** The derived serialisation: the tag and the fields of the variant. *)
Definition tile_value (t : N * N) : json :=
  JArray [JNumber (PosInt (Z.of_N t.1)); JNumber (PosInt (Z.of_N t.2))].
Definition action_fields (a : FarmAction) : list (string * json) :=
  ("action", JString (action_name a)) ::
  match a with
  | ClaimPlots parcel => [("parcel", JNumber (PosInt parcel))]
  | Plant t c => [("tile", tile_value t); ("crop", JString (crop_as_str c))]
  | Water t | Harvest t | Steal t => [("tile", tile_value t)]
  | Sell c units => [("crop", JString (crop_as_str c)); ("units", JNumber (PosInt units))]
  end.

(** The derived decoder: the tag selects the variant, other fields are ignored. *)
Definition u32_of (v : json) : option Z :=
  n ← as_u64 v; if n <=? u32_max then Some n else None.
Definition tile_of (v : json) : option (N * N) :=
  match v with
  | JArray [x; y] => x ← u32_of x; y ← u32_of y; Some (Z.to_N x, Z.to_N y)
  | _ => None
  end.
Definition crop_of (v : json) : option Crop := as_str v ≫= crop_parse.

Definition action_of_json (v : json) : option FarmAction :=
  tag ← get_str "action" v;
  let tile := json_get "tile" v ≫= tile_of in
  let crop := json_get "crop" v ≫= crop_of in
  if String.eqb tag "claim_plots" then p ← json_get "parcel" v ≫= u32_of; Some (ClaimPlots p)
  else if String.eqb tag "plant" then t ← tile; c ← crop; Some (Plant t c)
  else if String.eqb tag "water" then t ← tile; Some (Water t)
  else if String.eqb tag "harvest" then t ← tile; Some (Harvest t)
  else if String.eqb tag "sell" then
    c ← crop; u ← json_get "units" v ≫= u32_of; Some (Sell c u)
  else if String.eqb tag "steal" then t ← tile; Some (Steal t)
  else None.

Inductive FarmRejection :=
  | Invalid | NotInSpace | NotAtPlace | NotAtTile | Busy_ | AlreadyJoined | NotJoined
  | SeasonEnding | NoFreePlots | PlotsTaken | NotOwner | NotEmpty | NotGrowing | AlreadyWet
  | NotReady | InsufficientFarmBalance | InsufficientUnits | StealingOff | OwnPlot | Protected
  | OwnerWorking | AlreadyStolen | StealCapReached | StealLimitReached.

Definition rejection_as_str (r : FarmRejection) : string :=
  match r with
  | Invalid => "invalid" | NotInSpace => "not_in_space" | NotAtPlace => "not_at_place"
  | NotAtTile => "not_at_tile" | Busy_ => "busy" | AlreadyJoined => "already_joined"
  | NotJoined => "not_joined" | SeasonEnding => "season_ending" | NoFreePlots => "no_free_plots"
  | PlotsTaken => "plots_taken" | NotOwner => "not_owner" | NotEmpty => "not_empty"
  | NotGrowing => "not_growing" | AlreadyWet => "already_wet" | NotReady => "not_ready"
  | InsufficientFarmBalance => "insufficient_balance"
  | InsufficientUnits => "insufficient_units" | StealingOff => "stealing_off"
  | OwnPlot => "own_plot" | Protected => "protected" | OwnerWorking => "owner_working"
  | AlreadyStolen => "already_stolen" | StealCapReached => "steal_cap_reached"
  | StealLimitReached => "steal_limit_reached"
  end.

Record FarmActionPayload := mkFarmPayload {
  fp_action_id : string;
  fp_agent_did : string;
  fp_action : FarmAction;
  fp_presence : option SignedSpacePresence;
  fp_agent_label : option string;
}.

(** ** The catalog *)

Record FarmCatalog := mkFarmCatalog {
  fc_space_id : string;
  fc_field_place_id : string;
  fc_action_secs : Z;
  fc_steal_action_secs : option Z;
}.

Definition GAME_ID : string := "farm".
Definition DEFAULT_ACTION_SECS : Z := 6.
Definition CATALOG_TTL : Z := 600.
Definition MAX_ACTION_ID_CHARS : nat := 128.
Definition FARM_ACTIONS : list string :=
  ["claim_plots"; "plant"; "water"; "harvest"; "sell"; "steal"].

(** What [get_public] and [post_signed_raw] return: a status and a body. *)
Definition gateway_reply : Type := result (Z * json).

Definition read_catalog (reply : gateway_reply) : result FarmCatalog :=
  '(status, body) ← reply;
  _ ← ensure_ok (is_success status) "the game catalog answered an error";
  let games := match json_index body "games" with JArray l => l | _ => [] end in
  farm ← ok_or "the game catalog has no farm"
           (find_first (λ g, bool_decide (json_index g "game_id" = JString GAME_ID)) games);
  let text key := ok_or ("the catalog's farm entry has no " +:+ key) (as_str (json_index farm key)) in
  space ← text "space_id";
  field ← text "field_place_id";
  secs ← ok_or "the catalog's farm entry has no action_secs"
           (as_i64 (json_index farm "action_secs"));
  Ok (mkFarmCatalog space field secs (as_i64 (json_index farm "steal_action_secs"))).

(** The last read and when it was made, in seconds of a monotonic clock. *)
Definition FarmCatalogCache : Type := option (Z * FarmCatalog).

(** [catalog]: the cached entry while it is young, else a new read, else the old. *)
Definition farm_catalog (now : Z) (reply : gateway_reply) (cache : FarmCatalogCache)
    : option FarmCatalog * FarmCatalogCache :=
  let refreshed :=
    match read_catalog reply with
    | Ok c => (Some c, Some (now, c))
    | Err _ => (snd <$> cache, cache)
    end in
  match cache with
  | Some (read_at, c) => if now - read_at <? CATALOG_TTL then (Some c, cache) else refreshed
  | None => refreshed
  end.

Definition hold_secs (catalog : option FarmCatalog) (stealing : bool) : Z :=
  match catalog with
  | None => DEFAULT_ACTION_SECS
  | Some c => if stealing then default (fc_action_secs c) (fc_steal_action_secs c)
              else fc_action_secs c
  end.

(** ** Reading the gateway's answers *)

Definition is_server_error (status : Z) : bool := (500 <=? status) && (status <? 600).
Definition is_object (v : json) : bool := match v with JObject _ => true | _ => false end.

Definition outcome_unknown (status : Z) (reply : json) : bool :=
  if is_success status then negb (is_object reply) else is_server_error status.

Definition action_id (body : json) : result string :=
  id ← ok_or "action_id is required: a key you choose, reused when retrying"
         (as_str (json_index body "action_id"));
  _ ← ensure_ok (negb (String.eqb id "" || (MAX_ACTION_ID_CHARS <? char_count (to_bytes id))%nat
                       || has_whitespace (to_bytes id)))
        "action_id must be 1 to 128 characters with no whitespace";
  Ok id.

(** ** The handler *)

(** The node with its catalog, and the commands that left it, each with the hold
    as it was in memory and on disk. *)
Record FarmNode := mkFarmNode {
  fn_node : Node;
  fn_catalog : FarmCatalogCache;
  fn_sent : list (FarmActionPayload * Busy);
}.
#[global] Instance FarmNode_eta : Eta FarmNode := λ n,
  mkFarmNode (fn_node n) (fn_catalog n) (fn_sent n).

(** What the handler meets: the gateway (the games, the answer to a command, the
    agent's status), its clocks, the parser of RFC 3339 dates, the name of the
    agent, and whether the hold can be saved. *)
Record FarmHost := mkFarmHost {
  fh_gateway : option string;
  fh_games : gateway_reply;
  fh_answer : FarmActionPayload → gateway_reply;
  fh_status : gateway_reply;
  fh_instant : Z;
  fh_now_send : Z;
  fh_now_lost : Z;
  fh_now_sneak : Z;
  fh_parse_rfc3339 : string → option Z;
  fh_to_rfc3339 : Z → json;
  fh_label : option string;
  fh_saves : bool;
}.

Notation fh := (hst FarmNode).

Section farm.
Context `{Crypto} `{Digest} (E : Env) (F : FarmHost).

(** A handler of the node. *)
Definition on_node {A} (m : hst Node A) : fh A := λ n,
  let '(r, node) := m (fn_node n) in (r, n <| fn_node := node |>).

Definition get_catalog : fh (option FarmCatalog) := λ n,
  let '(c, cache) := farm_catalog (fh_instant F) (fh_games F) (fn_catalog n) in
  (Answer c, n <| fn_catalog := cache |>).

(** [current_presence]. *)
Definition current_presence (st : SpaceState) : option SignedSpacePresence :=
  '(network, space) ← active_space (own_space_presence st);
  stored (own_space_presence st) network space.

Definition get_presence : fh (option SignedSpacePresence) := λ n,
  (Answer (current_presence (node_space (fn_node n))), n).

(** [configured_package]. *)
Definition configured_package (st : SpaceState) (space : string) : option SpacePackage :=
  c ← space_catalog st; current c space.

Definition map_has (st : SpaceState) (c : FarmCatalog) : bool :=
  is_some_and (λ p, bool_decide (is_Some (place p (fc_field_place_id c))))
    (configured_package st (fc_space_id c)).
Definition get_map_has (c : FarmCatalog) : fh bool := λ n,
  (Answer (map_has (node_space (fn_node n)) c), n).

(** [busy.until_ms] and [busy.set]. *)
Definition get_hold : fh Z := λ n,
  let '(until, b) := busy_until (node_busy (fn_node n)) in
  (Answer until, n <| fn_node := fn_node n <| node_busy := b |> |>).
Definition set_hold (until : Z) : fh unit := λ n,
  (Answer tt, n <| fn_node := fn_node n <| node_busy := busy_set (fh_saves F) until
                                                         (node_busy (fn_node n)) |> |>).

(** [post_signed_raw]: the command leaves, with the hold as it is. *)
Definition send_command (p : FarmActionPayload) : fh gateway_reply := λ n,
  (Answer (fh_answer F p), n <| fn_sent ::= cons (p, node_busy (fn_node n)) |>).

Definition moment_ms (v : json) : option Z := s ← as_str v; fh_parse_rfc3339 F s.

Definition is_timed (a : FarmAction) : bool :=
  match a with Plant _ _ | Water _ | Harvest _ | Steal _ => true | _ => false end.
Definition is_steal (a : FarmAction) : bool := match a with Steal _ => true | _ => false end.

Definition busy_after_lost_reply (action_secs : Z) : Z :=
  let floor := i64_add (fh_now_lost F) (i64_mul action_secs 1000) in
  let told :=
    match fh_status F with
    | Ok (status, body) => if is_success status then moment_ms (json_index body "busy_until") else None
    | Err _ => None
    end in
  Z.max (default 0 told) floor.

(** [serde_json::from_value::<[u32; 2]>]. *)
Definition escape_tile (reply : json) : option (N * N) := tile_of (json_index reply "escape_tile").

(** [sneak_off]: a walk that cannot be signed is only logged. *)
Definition sneak_off (reply : json) : fh (option Z) :=
  match moment_ms (json_index reply "busy_until"), escape_tile reply with
  | Some leave_at, Some to =>
      if leave_at <=? fh_now_sneak F then mret None
      else λ n, match walk_later E to leave_at (node_space (fn_node n)) with
                | (Ok arrives, st) => (Answer (Some arrives),
                                       n <| fn_node := fn_node n <| node_space := st |> |>)
                | (Err _, st) => (Answer None, n <| fn_node := fn_node n <| node_space := st |> |>)
                end
  | _, _ => mret None
  end.

(** *** The walk to a goal *)

Record WalkHint := mkWalkHint { wh_to : N * N; wh_secs : Z; wh_move_agent : json }.

Definition walk_to (st : SpaceState) (now : Z) (presence : option SignedSpacePresence)
    (goal : json) : option WalkHint :=
  s ← presence;
  let r := sp_record s in
  p ← configured_package st (sr_space_id r);
  let from := tile_at r (walk_speed p) now in
  '(to, args) ←
    match json_index goal "tile" with
    | JArray (x :: y :: _) =>
        x ← u32_of x; y ← u32_of y;
        Some ((Z.to_N x, Z.to_N y), JObject [("tile", tile_value (Z.to_N x, Z.to_N y))])
    | JArray _ => None
    | _ =>
        id ← opt_or (as_str (json_index goal "move_to_place")) (as_str (json_index goal "place_id"));
        t ← result_ok (destination_tile p (env_agent_did E) id);
        Some (t, JObject [("place_id", JString id)])
    end;
  w ← result_ok (path p from to);
  Some (mkWalkHint to (fl_ceil_i64 (fl_div (fl_of_Z (Z.of_nat (String.length w)))
                                      (of_f64 (walk_speed p)))) args).

Definition add_walk_hint (st : SpaceState) (presence : SignedSpacePresence) (reply : json)
    : option json :=
  let error := as_str (json_index reply "error") in
  if bool_decide (error = Some "not_at_tile") || bool_decide (error = Some "not_at_place") then
    match walk_to st (now_ms E) (Some presence) (json_index reply "details") with
    | Some w =>
        d ← json_set "to_tile" (tile_value (wh_to w)) (json_index reply "details");
        d ← json_set "walk_secs" (JNumber (PosInt (wh_secs w))) d;
        d ← json_set "move_agent" (wh_move_agent w) d;
        json_set "details" d reply
    | None => Some reply
    end
  else Some reply.

(** A panic drops the connection: no status is sent. *)
Definition or_panic {A} (o : option A) : fh A :=
  match o with Some a => mret a | None => refuse 0 "panic" end.

Definition get_hint (presence : SignedSpacePresence) (reply : json) : fh json := λ n,
  or_panic (add_walk_hint (node_space (fn_node n)) presence reply) n.

(** The command is built from the body, whose action comes from the path. *)
Definition command_of (action : string) (body : json) : fh (string * FarmAction) :=
  require (bool_decide (action ∈ FARM_ACTIONS)) 404 "invalid";;
  match action_id body with
  | Err _ => refuse 400 "invalid"
  | Ok id =>
      match body with
      | JObject o =>
          match action_of_json (JObject (obj_insert "action" (JString action) o)) with
          | Some a => mret (id, a)
          | None => refuse 400 "invalid"
          end
      | _ => refuse 400 "invalid"
      end
  end.

(** From the turn on: the hold is raised before the command leaves and settled by
    the answer. *)
Definition run_command (id : string) (action : FarmAction) (action_secs : Z)
    : fh (Z * json) :=
  held ← get_hold;
  found ← get_presence;
  match found with
  | None => refuse 409 "not_in_space"
  | Some presence =>
      let payload := mkFarmPayload id (env_agent_did E) action (Some presence) (fh_label F) in
      (if is_timed action
       then set_hold (Z.max held (i64_add (fh_now_send F) (i64_mul action_secs 1000)))
       else mret tt);;
      sent ← send_command payload;
      let lost :=
        (if is_timed action then set_hold (Z.max held (busy_after_lost_reply action_secs))
         else mret tt);;
        refuse 502 "outcome_unknown" in
      match sent with
      | Err _ => lost
      | Ok (status, reply) =>
          if outcome_unknown status reply then lost
          else
            let until := default 0 (opt_or (moment_ms (json_index reply "busy_until"))
                           (moment_ms (json_index (json_index reply "details") "busy_until"))) in
            set_hold (Z.max held until);;
            reply ← (if is_steal action && is_success status then
                       arrives ← sneak_off reply;
                       match arrives with
                       | Some at_ms =>
                           set_hold (Z.max (Z.max held until) at_ms);;
                           or_panic (json_set "sneaks_off_until" (fh_to_rfc3339 F at_ms) reply)
                       | None => mret reply
                       end
                     else mret reply);
            reply ← get_hint presence reply;
            reply ← or_panic (json_set "action_id" (JString id) reply);
            mret (status, reply)
      end
  end.

Definition farm_action (header : option string) (now_s : Z) (action : string) (body : json)
    : fh (Z * json) :=
  _ ← on_node (authorized header now_s);
  '(id, action) ← command_of action body;
  match fh_gateway F with
  | None => refuse 503 "gateway_unavailable"
  | Some _ =>
      catalog ← get_catalog;
      stale ← match catalog with
              | Some c => has ← get_map_has c; mret (negb has)
              | None => mret false
              end;
      if (stale : bool) then refuse 409 "stale_client"
      else run_command id action (hold_secs catalog (is_steal action))
  end.
End farm.

(** ** Commands survive the wire *)

Definition tile_ok (t : N * N) : Prop := Z.of_N t.1 ≤ u32_max ∧ Z.of_N t.2 ≤ u32_max.
Definition action_ok (a : FarmAction) : Prop :=
  match a with
  | ClaimPlots n | Sell _ n => 0 ≤ n ≤ u32_max
  | Plant t _ | Water t | Harvest t | Steal t => tile_ok t
  end.

Lemma u32_of_num n : n ≤ u32_max → u32_of (JNumber (PosInt n)) = Some n.
Proof. intros Hn. rewrite /u32_of. cbn. by rewrite (proj2 (Z.leb_le n u32_max) Hn). Qed.

Lemma tile_of_value t : tile_ok t → tile_of (tile_value t) = Some t.
Proof.
  intros [Hx Hy]. destruct t as [x y]. rewrite /tile_of /tile_value. cbn [fst snd] in *.
  rewrite (u32_of_num _ Hx) (u32_of_num _ Hy). cbn. by rewrite !N2Z.id.
Qed.

Lemma crop_of_str c : crop_of (JString (crop_as_str c)) = Some c.
Proof. by destruct c. Qed.

(** A farm command survives its serialisation: whatever other fields the
    signed payload adds after it, the decoder reads back the same command. *)
Theorem farm_action_roundtrip a more :
  action_ok a → action_of_json (JObject (action_fields a ++ more)) = Some a.
Proof.
  intros Ha. destruct a as [n|t c|t|t|c n|t]; cbn in Ha;
    rewrite /action_of_json; cbn -[u32_of tile_of crop_of].
  - rewrite u32_of_num; [done|lia].
  - by rewrite tile_of_value //= crop_of_str.
  - by rewrite tile_of_value.
  - by rewrite tile_of_value.
  - rewrite crop_of_str /= u32_of_num; [done|lia].
  - by rewrite tile_of_value.
Qed.

(** ** The hold *)

Section hold.
Context `{Crypto} `{Digest} (E : Env) (F : FarmHost).

(** Until when the agent is held, as a walk would see it. *)
Definition hold (n : FarmNode) : Z := (busy_until (node_busy (fn_node n))).1.

Lemma hold_get n : hold (get_hold n).2 = hold n ∧ (get_hold n).1 = Answer (hold n)
  ∧ fn_sent (get_hold n).2 = fn_sent n ∧ restored (node_busy (fn_node (get_hold n).2)) = true.
Proof.
  rewrite /get_hold /hold /busy_until. destruct n as [[lim tok [u r s] sp] cat sent]. cbn.
  destruct r; by cbn.
Qed.

Lemma hold_set u n :
  hold (set_hold F u n).2 = u ∧ fn_sent (set_hold F u n).2 = fn_sent n
  ∧ until_ms (node_busy (fn_node (set_hold F u n).2)) = u
  ∧ (fh_saves F = true → busy_saved (node_busy (fn_node (set_hold F u n).2)) = Some u).
Proof.
  rewrite /set_hold /hold /busy_until /busy_set. destruct n as [[lim tok [u' r s] sp] cat sent].
  cbn. destruct r; cbn; by destruct (fh_saves F).
Qed.

(** Steps that never bring the hold below [u], send nothing and do not answer
    that the outcome is unknown. *)
Definition rises (u : Z) {A} (m : fh A) : Prop :=
  ∀ n, u ≤ hold n →
    u ≤ hold (m n).2 ∧ fn_sent (m n).2 = fn_sent n ∧ ∀ s e, (m n).1 = Refuse s e → s ≠ 502.

Lemma rises_ret u {A} (a : A) : rises u (mret a).
Proof. by intros n Hn. Qed.

Lemma rises_bind u {A B} (m : fh A) (k : A → fh B) :
  rises u m → (∀ a, rises u (k a)) → rises u (m ≫= k).
Proof.
  intros Hm Hk n Hn. destruct (Hm n Hn) as (H1 & H2 & H3). cbv [mbind handler_bind].
  destruct (m n) as [[a|s e] n1]; cbn in *.
  - destruct (Hk a n1 H1) as (H4 & H5 & H6). split_and!; [done|congruence|done].
  - split_and!; [done|done|]. intros s' e' [= <- <-]. by apply (H3 s e).
Qed.

Lemma rises_set u v : u ≤ v → rises u (set_hold F v).
Proof. intros Hv n _. destruct (hold_set v n) as (-> & -> & _). by split_and!. Qed.

Lemma rises_panic u {A} (o : option A) : rises u (or_panic o).
Proof. intros n Hn. destruct o; split_and!; try done. by intros s e [= <- <-]. Qed.

Lemma rises_hint u presence reply : rises u (get_hint E presence reply).
Proof. intros n Hn. apply rises_panic, Hn. Qed.

Lemma rises_sneak u reply : rises u (sneak_off E F reply).
Proof.
  intros n Hn. rewrite /sneak_off. destruct (moment_ms F _); [|done].
  destruct (escape_tile reply); [|done]. destruct (_ <=? _); [done|].
  destruct (walk_later E _ _ _) as [[a|e] st]; done.
Qed.

Hint Resolve rises_ret rises_panic rises_hint rises_sneak : core.

Definition worst (now secs : Z) : Z := i64_add now (i64_mul secs 1000).

(** What the handler does once the command has left. *)
Lemma after_send (held secs : Z) (a : FarmAction) id presence (sent : gateway_reply) n :
  held ≤ hold n →
  let lost := (if is_timed a then set_hold F (Z.max held (busy_after_lost_reply F secs))
               else mret tt);; refuse 502 "outcome_unknown" in
  let m : fh (Z * json) := match sent with
           | Err _ => lost
           | Ok (status, reply) =>
               if outcome_unknown status reply then lost
               else
                 let until := default 0 (opt_or (moment_ms F (json_index reply "busy_until"))
                   (moment_ms F (json_index (json_index reply "details") "busy_until"))) in
                 set_hold F (Z.max held until);;
                 reply ← (if is_steal a && is_success status then
                            arrives ← sneak_off E F reply;
                            match arrives with
                            | Some at_ms =>
                                set_hold F (Z.max (Z.max held until) at_ms);;
                                or_panic (json_set "sneaks_off_until" (fh_to_rfc3339 F at_ms) reply)
                            | None => mret reply
                            end
                          else mret reply);
                 reply ← get_hint E presence reply;
                 reply ← or_panic (json_set "action_id" (JString id) reply);
                 mret (status, reply)
           end in
  held ≤ hold (m n).2 ∧ fn_sent (m n).2 = fn_sent n
  ∧ (∀ e, (m n).1 = Refuse 502 e → is_timed a = true → worst (fh_now_lost F) secs ≤ hold (m n).2).
Proof.
  intros Hn lost m.
  assert (held ≤ hold (lost n).2 ∧ fn_sent (lost n).2 = fn_sent n
    ∧ (is_timed a = true → worst (fh_now_lost F) secs ≤ hold (lost n).2)) as Hlost.
  { rewrite /lost. cbv [mbind handler_bind refuse]. destruct (is_timed a); [|done].
    destruct (hold_set (Z.max held (busy_after_lost_reply F secs)) n) as (Hh & Hs & _).
    destruct (set_hold F _ n) as [[u|s e] n'] eqn:Hset; [|by injection Hset]. cbn in *.
    rewrite Hh Hs /busy_after_lost_reply /worst. split_and!; [lia|done|lia]. }
  rewrite /m. destruct sent as [[status reply]|e]; [|naive_solver].
  destruct (outcome_unknown status reply); [naive_solver|].
  set (until := default 0 _).
  assert (rises held (set_hold F (Z.max held until);;
     reply ← (if is_steal a && is_success status then
                arrives ← sneak_off E F reply;
                match arrives with
                | Some at_ms =>
                    set_hold F (Z.max (Z.max held until) at_ms);;
                    or_panic (json_set "sneaks_off_until" (fh_to_rfc3339 F at_ms) reply)
                | None => mret reply
                end
              else mret reply);
     reply ← get_hint E presence reply;
     reply ← or_panic (json_set "action_id" (JString id) reply);
     mret (status, reply) : fh (Z * json))) as Hr.
  { apply rises_bind; [apply rises_set; lia|]. intros _. apply rises_bind.
    - destruct (_ && _); [|auto]. apply rises_bind; [auto|]. intros [at_ms|]; [|auto].
      apply rises_bind; [apply rises_set; lia|auto].
    - intros r. apply rises_bind; [auto|]. intros r'. apply rises_bind; auto. }
  destruct (Hr n Hn) as (H1 & H2 & H3). split_and!; [done|done|]. intros e He. by apply H3 in He.
Qed.

(** A farm command never shortens the time an agent is held, whatever the
    gateway answers. A timed command leaves the node only after the hold was
    raised to the end of the action, in memory and, when it can be saved, on
    disk; and when its answer is lost the agent stays held for at least one
    action from then. *)
Theorem farm_hold_spec id a secs n :
  let '(r, n') := run_command E F id a secs n in
  hold n ≤ hold n'
  ∧ (∀ p b, (p, b) ∈ fn_sent n' →
       (p, b) ∈ fn_sent n
       ∨ (fp_action_id p = id ∧ fp_action p = a
          ∧ (is_timed a = true →
               hold n ≤ until_ms b ∧ worst (fh_now_send F) secs ≤ until_ms b
               ∧ (fh_saves F = true → busy_saved b = Some (until_ms b)))))
  ∧ (∀ e, r = Refuse 502 e → is_timed a = true → worst (fh_now_lost F) secs ≤ hold n').
Proof.
  rewrite /run_command {1}/mbind {1}/handler_bind.
  destruct (hold_get n) as (Hh & Hans & Hsent & _).
  destruct (get_hold n) as [[held|s e] n1]; [|done]. cbn [fst snd] in Hh, Hans, Hsent.
  injection Hans as ->. set (held := hold n) in *.
  rewrite {1}/mbind {1}/handler_bind {1}/get_presence.
  destruct (current_presence _) as [presence|].
  2: { cbn [refuse]. split_and!; [by rewrite Hh|intros p b; rewrite Hsent; by left|done]. }
  rewrite {1}/mbind {1}/handler_bind.
  set (raise := if is_timed a then _ else _).
  assert (∃ n2, raise n1 = (Answer tt, n2) ∧ held ≤ hold n2 ∧ fn_sent n2 = fn_sent n
    ∧ (is_timed a = true → held ≤ until_ms (node_busy (fn_node n2))
        ∧ worst (fh_now_send F) secs ≤ until_ms (node_busy (fn_node n2))
        ∧ (fh_saves F = true → busy_saved (node_busy (fn_node n2))
                                = Some (until_ms (node_busy (fn_node n2))))))
    as (n2 & -> & Hh2 & Hs2 & Hb2).
  { rewrite /raise. destruct (is_timed a).
    - destruct (hold_set (Z.max held (worst (fh_now_send F) secs)) n1) as (H1 & H2 & H3 & H4).
      eexists. split; [reflexivity|]. rewrite /worst in H1, H2, H3, H4 |- *.
      rewrite H1 H2 H3 Hsent. split_and!; [lia|done|]. intros _. split_and!; [lia|lia|done].
    - exists n1. split_and!; [done|by rewrite Hh|done|done]. }
  rewrite {1}/mbind {1}/handler_bind {1}/send_command.
  set (p0 := mkFarmPayload _ _ _ _ _).
  set (n3 := n2 <| fn_sent ::= cons (p0, node_busy (fn_node n2)) |>).
  destruct (after_send held secs a id presence (fh_answer F p0) n3 Hh2) as (H1 & H2 & H3).
  match goal with |- context [let '(r, n') := ?x in _] => set (x0 := x) end.
  change (held ≤ hold x0.2) in H1. change (fn_sent x0.2 = fn_sent n3) in H2.
  change (∀ e, x0.1 = Refuse 502 e → is_timed a = true →
            worst (fh_now_lost F) secs ≤ hold x0.2) in H3.
  destruct x0 as [r n']. cbn [fst snd] in *. split_and!; [done| |exact H3].
  intros p b Hin. rewrite H2 in Hin. cbn in Hin. apply elem_of_cons in Hin as [[= -> ->]|Hin].
  - right. split_and!; [done|done|]. exact Hb2.
  - left. by rewrite -Hs2.
Qed.
End hold.

(** ** Examples *)

Module FarmScenario.
#[local] Existing Instance Signing.Demo.crypto.
#[local] Instance no_digest : Digest := λ _, [].

Lemma farm_action_roundtrip_witness :
  action_of_json (JObject (action_fields (Plant (60, 90)%N CoffeeBean)
                           ++ [("action_id", JString "a1")]))
  = Some (Plant (60, 90)%N CoffeeBean).
Proof.
  apply farm_action_roundtrip. vm_compute. split; discriminate.
Defined.

(** The codes of the wire name the variants. *)
Definition all_rejections : list FarmRejection :=
  [Invalid; NotInSpace; NotAtPlace; NotAtTile; Busy_; AlreadyJoined; NotJoined; SeasonEnding;
   NoFreePlots; PlotsTaken; NotOwner; NotEmpty; NotGrowing; AlreadyWet; NotReady;
   InsufficientFarmBalance; InsufficientUnits; StealingOff; OwnPlot; Protected; OwnerWorking;
   AlreadyStolen; StealCapReached; StealLimitReached].
Example rejection_codes_distinct : NoDup (rejection_as_str <$> all_rejections).
Proof. apply (bool_decide_eq_true_1 _). vm_compute. reflexivity. Qed.

(** A refusal whose body is not an object makes the handler panic when it adds
    the action id. *)
Example text_refusal_panics :
  outcome_unknown 404 (JString "no such route") = false
  ∧ json_set "action_id" (JString "a1") (JString "no such route") = None.
Proof. split; reflexivity. Qed.
End FarmScenario.
