(* ===== verification/SocialDomain.v ===== *)
(** * Social: data and life cycles

    [crates/social/src/domain]: friend requests, friendships, blocks, threads,
    messages and their receipts, with the transitions their states allow; the
    errors of [types.rs]; and the text codes under which the store of
    [store/mod.rs] keeps the enumerations. *)

From S2P Require Import Prelude Collections Text Json.
#[local] Open Scope Z_scope.

(** ** Errors *)

Inductive SocialError : Type :=
  | InvalidInput (msg : string)
  | NotFound (msg : string)
  | Conflict (msg : string)
  | Storage (msg : string)
  | Did (msg : string).

#[global] Instance SocialError_eq_dec : EqDecision SocialError.
Proof. solve_decision. Defined.

(** A fallible operation on a store of type [S]; an error keeps the writes made
    before it, as the statements are not grouped in a transaction. *)
Definition social (S A : Type) : Type := S → (SocialError + A) * S.

Section monad.
Context {S : Type}.

#[global] Instance social_ret : MRet (social S) := λ A a s, (inr a, s).
#[global] Instance social_bind : MBind (social S) := λ A B k m s,
  match m s with
  | (inr a, s') => k a s'
  | (inl e, s') => (inl e, s')
  end.

Definition raise {A} (e : SocialError) : social S A := λ s, (inl e, s).
Definition reads {A} (f : S → A) : social S A := λ s, (inr (f s), s).
Definition writes (f : S → S) : social S unit := λ s, (inr tt, f s).
Definition invalid_when (b : bool) (msg : string) : social S unit :=
  λ s, if b then (inl (InvalidInput msg), s) else (inr tt, s).

Fixpoint for_each {A} (f : A → social S unit) (l : list A) : social S unit :=
  match l with
  | [] => mret tt
  | x :: l' => f x;; for_each f l'
  end.

Lemma social_bind_ok {A B} (m : social S A) (k : A → social S B) s b s' :
  (m ≫= k) s = (inr b, s') ↔ ∃ a s1, m s = (inr a, s1) ∧ k a s1 = (inr b, s').
Proof.
  rewrite /mbind /social_bind. destruct (m s) as [[e|a] s1]; split.
  - done.
  - by intros (? & ? & [=] & _).
  - eauto.
  - by intros (? & ? & [= <- <-] & ?).
Qed.

Lemma invalid_when_ok b msg s u s' :
  invalid_when b msg s = (inr u, s') ↔ b = false ∧ s' = s.
Proof. rewrite /invalid_when. destruct b, u; split; [done|by intros []|intros [= <-]|intros [_ ->]]; done. Qed.

(** A property every step keeps is kept by the loop, also when it stops early. *)
Lemma for_each_inv {A} (I : S → Prop) (f : A → social S unit) l s :
  (∀ x s, x ∈ l → I s → I (f x s).2) → I s → I (for_each f l s).2.
Proof.
  revert s. induction l as [|x l IH]; intros s Hf Hs; [done|].
  cbn [for_each]. rewrite /mbind /social_bind.
  pose proof (Hf x s ltac:(set_solver) Hs) as H1.
  destruct (f x s) as [[e|u] s1]; [done|]. apply IH; [|done]. intros; apply Hf; set_solver.
Qed.

Lemma bind_inv {A B} (I : S → Prop) (m : social S A) (k : A → social S B) s :
  I (m s).2 → (∀ a s1, m s = (inr a, s1) → I s1 → I (k a s1).2) → I ((m ≫= k) s).2.
Proof.
  rewrite /mbind /social_bind. intros Hm Hk. destruct (m s) as [[e|a] s1]; [done|]. by apply Hk.
Qed.
End monad.

(** [ignore_conflict]: a conflict counts as success. *)
Definition ignore_conflict {S} (m : social S unit) : social S unit := λ s,
  match m s with
  | (inl (Conflict _), s') => (inr tt, s')
  | r => r
  end.

(** ** Friend requests *)

Definition DECISION_PENDING_ACCEPT_REASON : string := "accept_queued".
Definition DECISION_PENDING_REJECT_REASON : string := "reject_queued".

Inductive FriendRequestDirection := FRInbound | FROutbound.
#[global] Instance FriendRequestDirection_eq_dec : EqDecision FriendRequestDirection.
Proof. solve_decision. Defined.

Inductive FriendRequestState :=
  | FRPending | FRDecisionPending | FRAccepted | FRRejected | FRBlocked | FRCancelled | FRExpired.
#[global] Instance FriendRequestState_eq_dec : EqDecision FriendRequestState.
Proof. solve_decision. Defined.

Record FriendRequest := mkFriendRequest {
  fr_request_id : string;
  fr_local_public_id : string;
  fr_remote_public_id : string;
  fr_remote_node_id : option string;
  fr_direction : FriendRequestDirection;
  fr_state : FriendRequestState;
  fr_decision_reason : option string;
  fr_correlation_id : option string;
  fr_created_at : Z;
  fr_updated_at : Z;
  fr_expires_at : option Z;
}.
#[global] Instance eta_FriendRequest : Eta FriendRequest := λ r,
  mkFriendRequest (fr_request_id r) (fr_local_public_id r) (fr_remote_public_id r)
    (fr_remote_node_id r) (fr_direction r) (fr_state r) (fr_decision_reason r)
    (fr_correlation_id r) (fr_created_at r) (fr_updated_at r) (fr_expires_at r).

Definition request_can_transition (current next : FriendRequestState) : bool :=
  if bool_decide (current = next) then true
  else match current with
       | FRPending =>
           match next with
           | FRDecisionPending | FRAccepted | FRRejected | FRBlocked | FRCancelled | FRExpired => true
           | FRPending => false
           end
       | FRDecisionPending =>
           match next with
           | FRAccepted | FRRejected | FRBlocked | FRCancelled | FRExpired => true
           | FRPending | FRDecisionPending => false
           end
       | FRAccepted | FRRejected | FRBlocked | FRCancelled | FRExpired => false
       end.

(** ** Friendships *)

Inductive FriendshipState := FSActive | FSRemoved | FSBlocked.
#[global] Instance FriendshipState_eq_dec : EqDecision FriendshipState.
Proof. solve_decision. Defined.

Record Friendship := mkFriendship {
  fs_friendship_id : string;
  fs_local_public_id : string;
  fs_remote_public_id : string;
  fs_display_name : option string;
  fs_state : FriendshipState;
  fs_established_from_request_id : option string;
  fs_thread_id : option string;
  fs_created_at : Z;
  fs_updated_at : Z;
}.
#[global] Instance eta_Friendship : Eta Friendship := λ f,
  mkFriendship (fs_friendship_id f) (fs_local_public_id f) (fs_remote_public_id f)
    (fs_display_name f) (fs_state f) (fs_established_from_request_id f) (fs_thread_id f)
    (fs_created_at f) (fs_updated_at f).

Definition friendship_is_active (f : Friendship) : bool := bool_decide (fs_state f = FSActive).

Definition friendship_can_transition (current next : FriendshipState) : bool :=
  match current, next with
  | FSActive, FSActive | FSRemoved, FSRemoved | FSBlocked, FSBlocked => true
  | FSActive, (FSRemoved | FSBlocked) => true
  | (FSRemoved | FSBlocked), _ => false
  end.

Definition is_reestablished_by (f next : Friendship) : bool :=
  bool_decide (fs_state f = FSRemoved)
  && bool_decide (fs_state next = FSActive)
  && is_some_and (λ request_id,
       negb (bool_decide (fs_established_from_request_id f = Some request_id)))
       (fs_established_from_request_id next).

(** ** Blocks *)

Record SocialBlock := mkSocialBlock {
  bl_block_id : string;
  bl_owner_public_id : string;
  bl_blocked_public_id : string;
  bl_blocked_node_id : option string;
  bl_reason : option string;
  bl_created_at : Z;
  bl_updated_at : Z;
}.
#[global] Instance eta_SocialBlock : Eta SocialBlock := λ b,
  mkSocialBlock (bl_block_id b) (bl_owner_public_id b) (bl_blocked_public_id b)
    (bl_blocked_node_id b) (bl_reason b) (bl_created_at b) (bl_updated_at b).

(** ** Threads *)

Inductive ThreadState := TSPending | TSReady | TSClosed | TSBlocked.
#[global] Instance ThreadState_eq_dec : EqDecision ThreadState.
Proof. solve_decision. Defined.

Record DirectThread := mkDirectThread {
  th_thread_id : string;
  th_local_public_id : string;
  th_remote_public_id : string;
  th_transport_thread_id : string;
  th_state : ThreadState;
  th_last_message_at : option Z;
  th_created_at : Z;
  th_updated_at : Z;
}.
#[global] Instance eta_DirectThread : Eta DirectThread := λ t,
  mkDirectThread (th_thread_id t) (th_local_public_id t) (th_remote_public_id t)
    (th_transport_thread_id t) (th_state t) (th_last_message_at t) (th_created_at t)
    (th_updated_at t).

Definition thread_can_transition (current next : ThreadState) : bool :=
  if bool_decide (current = next) then true
  else match current, next with
       | TSPending, (TSReady | TSClosed | TSBlocked) => true
       | TSReady, (TSClosed | TSBlocked) => true
       | _, _ => false
       end.

Definition thread_can_reopen (current next : ThreadState) : bool :=
  bool_decide (current = TSClosed) && bool_decide (next = TSReady).

(** ** Messages *)

Inductive MessageDirection := MDInbound | MDOutbound.
#[global] Instance MessageDirection_eq_dec : EqDecision MessageDirection.
Proof. solve_decision. Defined.
Inductive MessageKind := MKMessage | MKRelationshipEstablished | MKSessionInit.
Inductive DeliveryState := DSPending | DSDelivered | DSAcknowledged | DSFailed.
#[global] Instance DeliveryState_eq_dec : EqDecision DeliveryState.
Proof. solve_decision. Defined.
Inductive ReadState := RSUnread | RSRead.
#[global] Instance ReadState_eq_dec : EqDecision ReadState.
Proof. solve_decision. Defined.

Definition delivery_can_transition (current next : DeliveryState) : bool :=
  match current, next with
  | DSPending, DSPending | DSDelivered, DSDelivered | DSAcknowledged, DSAcknowledged
  | DSFailed, DSFailed => true
  | DSPending, (DSDelivered | DSAcknowledged | DSFailed) => true
  | DSDelivered, (DSAcknowledged | DSFailed) => true
  | _, _ => false
  end.

Definition read_can_transition (current next : ReadState) : bool :=
  match current, next with
  | RSUnread, RSUnread | RSRead, RSRead | RSUnread, RSRead => true
  | RSRead, RSUnread => false
  end.

Record DirectMessage := mkDirectMessage {
  dm_thread_id : string;
  dm_message_id : string;
  dm_transport_message_id : option string;
  dm_local_public_id : string;
  dm_remote_public_id : string;
  dm_direction : MessageDirection;
  dm_message_kind : MessageKind;
  dm_content_json : json;
  dm_encrypted_body : option string;
  dm_content_encoding : option string;
  dm_agent_envelope_json : option json;
  dm_agent_signature : option string;
  dm_delivery_state : DeliveryState;
  dm_read_state : ReadState;
  dm_created_at : Z;
  dm_updated_at : Z;
}.
#[global] Instance eta_DirectMessage : Eta DirectMessage := λ m,
  mkDirectMessage (dm_thread_id m) (dm_message_id m) (dm_transport_message_id m)
    (dm_local_public_id m) (dm_remote_public_id m) (dm_direction m) (dm_message_kind m)
    (dm_content_json m) (dm_encrypted_body m) (dm_content_encoding m) (dm_agent_envelope_json m)
    (dm_agent_signature m) (dm_delivery_state m) (dm_read_state m) (dm_created_at m)
    (dm_updated_at m).

Inductive ReceiptKind := RKSent | RKDelivered | RKAcknowledged | RKRead.
#[global] Instance ReceiptKind_eq_dec : EqDecision ReceiptKind.
Proof. solve_decision. Defined.

Record MessageReceipt := mkMessageReceipt {
  rc_message_id : string;
  rc_receipt_kind : ReceiptKind;
  rc_recorded_at : Z;
  rc_detail : option string;
}.

(** ** Identities, bindings, tasks, events and skills *)

Record RemoteIdentityProfile := mkRemoteIdentityProfile {
  ri_public_id : string;
  ri_agent_did : string;
  ri_display_name : string;
  ri_description : option string;
  ri_capabilities : list string;
  ri_skills : list string;
  ri_did_document_json : option json;
  ri_active : bool;
  ri_last_profile_fetched_at : option Z;
  ri_created_at : Z;
  ri_updated_at : Z;
}.
#[global] Instance eta_RemoteIdentityProfile : Eta RemoteIdentityProfile := λ i,
  mkRemoteIdentityProfile (ri_public_id i) (ri_agent_did i) (ri_display_name i)
    (ri_description i) (ri_capabilities i) (ri_skills i) (ri_did_document_json i) (ri_active i)
    (ri_last_profile_fetched_at i) (ri_created_at i) (ri_updated_at i).

Inductive TransportKind := Wattswarm.

Record RemoteTransportBinding := mkRemoteTransportBinding {
  tb_public_id : string;
  tb_agent_did : option string;
  tb_transport_kind : TransportKind;
  tb_transport_node_id : string;
  tb_binding_source : string;
  tb_binding_confidence : Z;
  tb_binding_proof_json : option json;
  tb_binding_verified : bool;
  tb_binding_verified_at : option Z;
  tb_updated_at : Z;
}.

Record ReliabilityTask := mkReliabilityTask {
  rt_object_kind : string;
  rt_object_id : string;
  rt_status : string;
  rt_attempt_count : Z;
  rt_last_attempt_at : option Z;
  rt_next_attempt_at : Z;
  rt_last_error : option string;
  rt_created_at : Z;
  rt_updated_at : Z;
}.

Record DeferredAgentEvent := mkDeferredAgentEvent {
  de_event_id : string;
  de_local_public_id : string;
  de_remote_public_id : string;
  de_remote_node_id : option string;
  de_source_agent_id : option string;
  de_status : string;
  de_event_json : json;
  de_reason : option string;
  de_created_at : Z;
  de_updated_at : Z;
  de_replayed_at : option Z;
}.
#[global] Instance eta_DeferredAgentEvent : Eta DeferredAgentEvent := λ e,
  mkDeferredAgentEvent (de_event_id e) (de_local_public_id e) (de_remote_public_id e)
    (de_remote_node_id e) (de_source_agent_id e) (de_status e) (de_event_json e) (de_reason e)
    (de_created_at e) (de_updated_at e) (de_replayed_at e).

Record AgentSkill := mkAgentSkill {
  sk_skill_id : string;
  sk_name : string;
  sk_description : string;
  sk_tags : list string;
  sk_visible : bool;
  sk_source : string;
  sk_sort_order : Z;
  sk_created_at : Z;
  sk_updated_at : Z;
}.
#[global] Instance eta_AgentSkill : Eta AgentSkill := λ s,
  mkAgentSkill (sk_skill_id s) (sk_name s) (sk_description s) (sk_tags s) (sk_visible s)
    (sk_source s) (sk_sort_order s) (sk_created_at s) (sk_updated_at s).

(** ** Policy rules and decisions *)

Inductive PolicyScope :=
  | Global | FriendRequestsInbound | FriendRequestsOutbound | DirectMessagesInbound
  | DirectMessagesOutbound | Blocks.
#[global] Instance PolicyScope_eq_dec : EqDecision PolicyScope.
Proof. solve_decision. Defined.

Inductive PolicyRuleType :=
  | RejectBlockedAgent | RejectDuplicatePendingRequest | RejectActiveFriendship
  | AllowDirectMessageForFriends | DenyDirectMessageWhenBlocked | DenyDirectMessageWhenNotFriends.
#[global] Instance PolicyRuleType_eq_dec : EqDecision PolicyRuleType.
Proof. solve_decision. Defined.

Inductive PolicyDecision := Allow | Deny.
#[global] Instance PolicyDecision_eq_dec : EqDecision PolicyDecision.
Proof. solve_decision. Defined.

Record PolicyRule := mkPolicyRule {
  pr_rule_id : string;
  pr_owner_public_id : option string;
  pr_rule_type : PolicyRuleType;
  pr_scope : PolicyScope;
  pr_matcher_json : json;
  pr_config_json : json;
  pr_priority : Z;
  pr_enabled : bool;
  pr_created_at : Z;
  pr_updated_at : Z;
}.
#[global] Instance PolicyRule_eq_dec : EqDecision PolicyRule.
Proof. solve_decision. Defined.
#[global] Instance eta_PolicyRule : Eta PolicyRule := λ r,
  mkPolicyRule (pr_rule_id r) (pr_owner_public_id r) (pr_rule_type r) (pr_scope r)
    (pr_matcher_json r) (pr_config_json r) (pr_priority r) (pr_enabled r) (pr_created_at r)
    (pr_updated_at r).

Record PolicyDecisionLog := mkPolicyDecisionLog {
  pl_decision_id : string;
  pl_owner_public_id : string;
  pl_scope : PolicyScope;
  pl_target_public_id : string;
  pl_target_node_id : option string;
  pl_rule_id : option string;
  pl_decision : PolicyDecision;
  pl_reason : string;
  pl_context_json : json;
  pl_created_at : Z;
}.

Record PolicyEvaluation := mkPolicyEvaluation {
  pe_decision : PolicyDecision;
  pe_matched_rule_id : option string;
  pe_reason : string;
  pe_context_json : json;
}.

(** ** Text codes of the store

    A [match] on string literals whose default is an unknown-code error. *)
Definition decode_code {T} (what : string) (codes : list (string * T)) (value : string)
    : SocialError + T :=
  match assoc value codes with
  | Some x => inr x
  | None => inl (Storage ("unknown " +:+ what +:+ ": " +:+ value))
  end.

Definition bool_to_sqlite (value : bool) : Z := if value then 1 else 0.
Definition sqlite_to_bool (value : Z) : bool := negb (value =? 0).

Definition remote_identity_state_to_str (active : bool) : string :=
  if active then "active" else "removed".
Definition remote_identity_state_from_str : string → SocialError + bool :=
  decode_code "remote identity state" [("active", true); ("removed", false)].

Definition policy_rule_type_to_str (value : PolicyRuleType) : string :=
  match value with
  | RejectBlockedAgent => "reject_blocked_agent"
  | RejectDuplicatePendingRequest => "reject_duplicate_pending_request"
  | RejectActiveFriendship => "reject_active_friendship"
  | AllowDirectMessageForFriends => "allow_direct_message_for_friends"
  | DenyDirectMessageWhenBlocked => "deny_direct_message_when_blocked"
  | DenyDirectMessageWhenNotFriends => "deny_direct_message_when_not_friends"
  end.
Definition policy_rule_type_from_str : string → SocialError + PolicyRuleType :=
  decode_code "policy rule type"
    [("reject_blocked_agent", RejectBlockedAgent);
     ("reject_duplicate_pending_request", RejectDuplicatePendingRequest);
     ("reject_active_friendship", RejectActiveFriendship);
     ("allow_direct_message_for_friends", AllowDirectMessageForFriends);
     ("deny_direct_message_when_blocked", DenyDirectMessageWhenBlocked);
     ("deny_direct_message_when_not_friends", DenyDirectMessageWhenNotFriends)].

Definition policy_scope_to_str (value : PolicyScope) : string :=
  match value with
  | Global => "global"
  | FriendRequestsInbound => "friend_requests_inbound"
  | FriendRequestsOutbound => "friend_requests_outbound"
  | DirectMessagesInbound => "direct_dm_messages_inbound"
  | DirectMessagesOutbound => "direct_dm_messages_outbound"
  | Blocks => "blocks"
  end.
Definition policy_scope_from_str : string → SocialError + PolicyScope :=
  decode_code "policy scope"
    [("global", Global); ("friend_requests_inbound", FriendRequestsInbound);
     ("friend_requests_outbound", FriendRequestsOutbound);
     ("direct_dm_messages_inbound", DirectMessagesInbound);
     ("direct_dm_messages_outbound", DirectMessagesOutbound); ("blocks", Blocks)].

Definition policy_decision_to_str (value : PolicyDecision) : string :=
  match value with Allow => "allow" | Deny => "deny" end.
Definition policy_decision_from_str : string → SocialError + PolicyDecision :=
  decode_code "policy decision" [("allow", Allow); ("deny", Deny)].

Definition friend_request_direction_to_str (value : FriendRequestDirection) : string :=
  match value with FRInbound => "inbound" | FROutbound => "outbound" end.
Definition friend_request_direction_from_str : string → SocialError + FriendRequestDirection :=
  decode_code "friend request direction" [("inbound", FRInbound); ("outbound", FROutbound)].

Definition friend_request_state_to_str (value : FriendRequestState) : string :=
  match value with
  | FRPending => "pending"
  | FRDecisionPending => "decision_pending"
  | FRAccepted => "accepted"
  | FRRejected => "rejected"
  | FRBlocked => "blocked"
  | FRCancelled => "cancelled"
  | FRExpired => "expired"
  end.
Definition friend_request_state_from_str : string → SocialError + FriendRequestState :=
  decode_code "friend request state"
    [("pending", FRPending); ("decision_pending", FRDecisionPending); ("accepted", FRAccepted);
     ("rejected", FRRejected); ("blocked", FRBlocked); ("cancelled", FRCancelled);
     ("expired", FRExpired)].

Definition friendship_state_to_str (value : FriendshipState) : string :=
  match value with FSActive => "active" | FSRemoved => "removed" | FSBlocked => "blocked" end.
Definition friendship_state_from_str : string → SocialError + FriendshipState :=
  decode_code "friendship state"
    [("active", FSActive); ("removed", FSRemoved); ("blocked", FSBlocked)].

Definition transport_kind_to_str (value : TransportKind) : string :=
  match value with Wattswarm => "wattswarm" end.
Definition transport_kind_from_str : string → SocialError + TransportKind :=
  decode_code "transport kind" [("wattswarm", Wattswarm)].

Definition thread_state_to_str (value : ThreadState) : string :=
  match value with
  | TSPending => "pending" | TSReady => "ready" | TSClosed => "closed" | TSBlocked => "blocked"
  end.
Definition thread_state_from_str : string → SocialError + ThreadState :=
  decode_code "thread state"
    [("pending", TSPending); ("ready", TSReady); ("closed", TSClosed); ("blocked", TSBlocked)].

Definition message_direction_to_str (value : MessageDirection) : string :=
  match value with MDInbound => "inbound" | MDOutbound => "outbound" end.
Definition message_direction_from_str : string → SocialError + MessageDirection :=
  decode_code "message direction" [("inbound", MDInbound); ("outbound", MDOutbound)].

Definition message_kind_to_str (value : MessageKind) : string :=
  match value with
  | MKMessage => "message"
  | MKRelationshipEstablished => "relationship_established"
  | MKSessionInit => "session_init"
  end.
Definition message_kind_from_str : string → SocialError + MessageKind :=
  decode_code "message kind"
    [("message", MKMessage); ("relationship_established", MKRelationshipEstablished);
     ("session_init", MKSessionInit)].

Definition delivery_state_to_str (value : DeliveryState) : string :=
  match value with
  | DSPending => "pending" | DSDelivered => "delivered" | DSAcknowledged => "acknowledged"
  | DSFailed => "failed"
  end.
Definition delivery_state_from_str : string → SocialError + DeliveryState :=
  decode_code "delivery state"
    [("pending", DSPending); ("delivered", DSDelivered); ("acknowledged", DSAcknowledged);
     ("failed", DSFailed)].

Definition read_state_to_str (value : ReadState) : string :=
  match value with RSUnread => "unread" | RSRead => "read" end.
Definition read_state_from_str : string → SocialError + ReadState :=
  decode_code "read state" [("unread", RSUnread); ("read", RSRead)].

Definition receipt_kind_to_str (value : ReceiptKind) : string :=
  match value with
  | RKSent => "sent" | RKDelivered => "delivered" | RKAcknowledged => "acknowledged"
  | RKRead => "read"
  end.
Definition receipt_kind_from_str : string → SocialError + ReceiptKind :=
  decode_code "receipt kind"
    [("sent", RKSent); ("delivered", RKDelivered); ("acknowledged", RKAcknowledged);
     ("read", RKRead)].

(** An encoding and a decoding of a column are inverse to each other. *)
Definition code_for {T} (to_str : T → string) (from_str : string → SocialError + T) : Prop :=
  (∀ x, from_str (to_str x) = inr x) ∧ (∀ s x, from_str s = inr x → to_str x = s).

Lemma decode_code_for {T} (to_str : T → string) what (codes : list (string * T)) :
  (∀ x, assoc (to_str x) codes = Some x) →
  Forall (λ c, to_str c.2 = c.1) codes →
  code_for to_str (decode_code what codes).
Proof.
  intros Hto Hall. split; [intros x; by rewrite /decode_code Hto|].
  intros s x. rewrite /decode_code. destruct (assoc s codes) as [y|] eqn:E; [|done].
  intros [= ->]. clear Hto. induction Hall as [|[c z] codes Hc _ IH]; simpl in *; [done|].
  destruct (String.eqb_spec s c) as [->|]; [by injection E as ->|auto].
Qed.

#[local] Ltac code_row :=
  apply decode_code_for; [by intros []|by repeat constructor].

(** Every enumeration survives the store: what is written as text reads
    back as the same value, and only the texts that are written are read. *)
Theorem codes_roundtrip :
  code_for remote_identity_state_to_str remote_identity_state_from_str
  ∧ code_for policy_rule_type_to_str policy_rule_type_from_str
  ∧ code_for policy_scope_to_str policy_scope_from_str
  ∧ code_for policy_decision_to_str policy_decision_from_str
  ∧ code_for friend_request_direction_to_str friend_request_direction_from_str
  ∧ code_for friend_request_state_to_str friend_request_state_from_str
  ∧ code_for friendship_state_to_str friendship_state_from_str
  ∧ code_for transport_kind_to_str transport_kind_from_str
  ∧ code_for thread_state_to_str thread_state_from_str
  ∧ code_for message_direction_to_str message_direction_from_str
  ∧ code_for message_kind_to_str message_kind_from_str
  ∧ code_for delivery_state_to_str delivery_state_from_str
  ∧ code_for read_state_to_str read_state_from_str
  ∧ code_for receipt_kind_to_str receipt_kind_from_str
  ∧ (∀ b, sqlite_to_bool (bool_to_sqlite b) = b).
Proof. repeat match goal with |- _ ∧ _ => split end; try code_row. by intros []. Qed.
