(* ===== verification/SocialStore.v ===== *)
(** * Social: the store

    [crates/social/src/store]: the SQLite store behind the repository traits.
    A table is the list of its rows in the order of insertion (the order in
    which a scan without [ORDER BY] meets them), a row is the record it decodes
    to: the text codes of its columns round-trip ([SocialDomain.codes_roundtrip])
    and so do the JSON columns. Each definition is the SQL statement of the
    method of that name; the statements are taken to succeed, except for the
    violation of a primary key. *)

From S2P Require Import Prelude Collections Text Json Sql SocialDomain.
#[local] Open Scope Z_scope.

(** ** Tables *)

Record SocialStore := mkSocialStore {
  public_identities : list RemoteIdentityProfile;
  public_transport_bindings : list RemoteTransportBinding;
  policy_rules : list PolicyRule;
  policy_decision_logs : list PolicyDecisionLog;
  friend_requests : list FriendRequest;
  friendships : list Friendship;
  public_blocks : list SocialBlock;
  dm_threads : list DirectThread;
  dm_messages : list DirectMessage;
  dm_message_receipts : list MessageReceipt;
  reliability_tasks : list ReliabilityTask;
  deferred_agent_events : list DeferredAgentEvent;
  agent_skills : list AgentSkill;
}.
#[global] Instance eta_SocialStore : Eta SocialStore := λ s,
  mkSocialStore (public_identities s) (public_transport_bindings s) (policy_rules s)
    (policy_decision_logs s) (friend_requests s) (friendships s) (public_blocks s) (dm_threads s)
    (dm_messages s) (dm_message_receipts s) (reliability_tasks s) (deferred_agent_events s)
    (agent_skills s).

Definition open_in_memory : SocialStore := mkSocialStore [] [] [] [] [] [] [] [] [] [] [] [] [].

(** *** Remote identities *)

Definition upsert_remote_identity (i : RemoteIdentityProfile) (s : SocialStore) : SocialStore :=
  s <| public_identities ::= upsert_row ri_public_id
         (λ old new, new <| ri_created_at := ri_created_at old |>) i |>.

Definition update_remote_identity_display_name (id name : string) (s : SocialStore) : SocialStore :=
  s <| public_identities ::= map (λ i,
         if String.eqb (ri_public_id i) id then i <| ri_display_name := name |> else i) |>.

Definition list_remote_identities (s : SocialStore) : list RemoteIdentityProfile :=
  order_by [desc_Z ri_updated_at; asc_str ri_public_id] (public_identities s).

Definition get_remote_identity (s : SocialStore) (id : string) : option RemoteIdentityProfile :=
  find_first (λ i, String.eqb (ri_public_id i) id) (public_identities s).

(** *** Transport bindings *)

Definition upsert_transport_binding (b : RemoteTransportBinding) (s : SocialStore) : SocialStore :=
  s <| public_transport_bindings ::= upsert_row
         (λ b, (tb_public_id b, tb_transport_node_id b)) (λ _ new, new) b |>.

Definition list_transport_bindings (s : SocialStore) : list RemoteTransportBinding :=
  order_by [desc_Z tb_updated_at; asc_str tb_public_id; asc_str tb_transport_node_id]
    (public_transport_bindings s).

Definition list_transport_bindings_for_public_id (s : SocialStore) (id : string)
    : list RemoteTransportBinding :=
  order_by [desc_Z tb_updated_at; asc_str tb_transport_node_id]
    (List.filter (λ b, String.eqb (tb_public_id b) id) (public_transport_bindings s)).

(** *** Policy rules and decisions *)

Definition upsert_policy_rule (r : PolicyRule) (s : SocialStore) : SocialStore :=
  s <| policy_rules ::= upsert_row pr_rule_id
         (λ old new, new <| pr_created_at := pr_created_at old |>) r |>.

Definition list_policy_rules (s : SocialStore) (owner : option string) : list PolicyRule :=
  order_by [asc_Z pr_priority; asc_str pr_rule_id]
    match owner with
    | Some _ => List.filter (λ r, bool_decide (pr_owner_public_id r = owner)) (policy_rules s)
    | None => policy_rules s
    end.

(** A plain [INSERT]: a decision id that is already there is an error. *)
Definition append_policy_decision_log (l : PolicyDecisionLog) : social SocialStore unit := λ s,
  if bool_decide (pl_decision_id l ∈ pl_decision_id <$> policy_decision_logs s)
  then (inl (Storage "append policy decision log"), s)
  else (inr tt, s <| policy_decision_logs ::= λ t, t ++ [l] |>).

Definition list_policy_decision_logs (s : SocialStore) (owner : string) : list PolicyDecisionLog :=
  order_by [desc_Z pl_created_at; asc_str pl_decision_id]
    (List.filter (λ l, String.eqb (pl_owner_public_id l) owner) (policy_decision_logs s)).

(** *** Friend requests *)

Definition upsert_friend_request (r : FriendRequest) (s : SocialStore) : SocialStore :=
  s <| friend_requests ::= upsert_row fr_request_id
         (λ old new, new <| fr_created_at := fr_created_at old |>) r |>.

Definition list_friend_requests (s : SocialStore) (local : string) : list FriendRequest :=
  order_by [desc_Z fr_updated_at; asc_str fr_request_id]
    (List.filter
       (λ r, String.eqb (fr_local_public_id r) local && sql_nonblank (fr_request_id r))
       (friend_requests s)).

(** *** Friendships *)

Definition upsert_friendship (f : Friendship) (s : SocialStore) : SocialStore :=
  s <| friendships ::= upsert_row fs_friendship_id
         (λ old new, new <| fs_created_at := fs_created_at old |>) f |>.

Definition list_friendships (s : SocialStore) (local : string) : list Friendship :=
  order_by [desc_Z fs_updated_at; asc_str fs_friendship_id]
    (List.filter (λ f, String.eqb (fs_local_public_id f) local) (friendships s)).

Definition find_friendship (s : SocialStore) (local remote : string) : option Friendship :=
  find_first (λ f, String.eqb (fs_local_public_id f) local
                   && String.eqb (fs_remote_public_id f) remote) (friendships s).

(** *** Blocks *)

Definition upsert_block (b : SocialBlock) (s : SocialStore) : SocialStore :=
  s <| public_blocks ::= upsert_row bl_block_id
         (λ old new, new <| bl_created_at := bl_created_at old |>) b |>.

Definition block_pair (owner blocked : string) (b : SocialBlock) : bool :=
  String.eqb (bl_owner_public_id b) owner && String.eqb (bl_blocked_public_id b) blocked.

Definition remove_block (owner blocked : string) (s : SocialStore) : SocialStore :=
  s <| public_blocks ::= List.filter (λ b, negb (block_pair owner blocked b)) |>.

Definition list_blocks (s : SocialStore) (owner : string) : list SocialBlock :=
  order_by [desc_Z bl_updated_at; asc_str bl_block_id]
    (List.filter (λ b, String.eqb (bl_owner_public_id b) owner) (public_blocks s)).

Definition find_block (s : SocialStore) (owner blocked : string) : option SocialBlock :=
  find_first (block_pair owner blocked) (public_blocks s).

(** *** Threads *)

Definition upsert_thread (t : DirectThread) (s : SocialStore) : SocialStore :=
  s <| dm_threads ::= upsert_row th_thread_id
         (λ old new, new <| th_created_at := th_created_at old |>) t |>.

Definition list_threads (s : SocialStore) (local : string) : list DirectThread :=
  order_by [desc_Z th_updated_at; asc_str th_thread_id]
    (List.filter (λ t, String.eqb (th_local_public_id t) local) (dm_threads s)).

Definition find_thread (s : SocialStore) (local remote : string) : option DirectThread :=
  find_first (λ t, String.eqb (th_local_public_id t) local
                   && String.eqb (th_remote_public_id t) remote) (dm_threads s).

Definition list_threads_by_state (s : SocialStore) (local : string) (state : ThreadState)
    : list DirectThread :=
  order_by [desc_Z th_updated_at; asc_str th_thread_id]
    (List.filter (λ t, String.eqb (th_local_public_id t) local && bool_decide (th_state t = state))
       (dm_threads s)).

(** *** Messages and receipts *)

Definition upsert_message (m : DirectMessage) (s : SocialStore) : SocialStore :=
  s <| dm_messages ::= upsert_row (λ m, (dm_thread_id m, dm_message_id m))
         (λ old new, new <| dm_created_at := dm_created_at old |>) m |>.

Definition list_thread_messages (s : SocialStore) (thread : string) : list DirectMessage :=
  order_by [asc_Z dm_created_at; asc_str dm_message_id]
    (List.filter (λ m, String.eqb (dm_thread_id m) thread) (dm_messages s)).

Definition get_message (s : SocialStore) (thread message : string) : option DirectMessage :=
  find_first (λ m, String.eqb (dm_thread_id m) thread && String.eqb (dm_message_id m) message)
    (dm_messages s).

Definition upsert_message_receipt (r : MessageReceipt) (s : SocialStore) : SocialStore :=
  s <| dm_message_receipts ::= upsert_row
         (λ r, (rc_message_id r, receipt_kind_to_str (rc_receipt_kind r), rc_recorded_at r))
         (λ _ new, new) r |>.

Definition list_message_receipts (s : SocialStore) (message : string) : list MessageReceipt :=
  order_by [asc_Z rc_recorded_at; asc_str (λ r, receipt_kind_to_str (rc_receipt_kind r))]
    (List.filter (λ r, String.eqb (rc_message_id r) message) (dm_message_receipts s)).

(** *** Reliability tasks *)

Definition task_key (t : ReliabilityTask) : string * string := (rt_object_kind t, rt_object_id t).

Definition get_reliability_task (s : SocialStore) (kind id : string) : option ReliabilityTask :=
  find_first (λ t, bool_decide (task_key t = (kind, id))) (reliability_tasks s).

Definition defer_reliability_task (kind id : string) (now next : Z) (err : option string)
    (s : SocialStore) : SocialStore :=
  s <| reliability_tasks ::= upsert_row task_key
         (λ old new, mkReliabilityTask (rt_object_kind old) (rt_object_id old) "pending"
            (rt_attempt_count old) (rt_last_attempt_at old) (rt_next_attempt_at new)
            (rt_last_error new) (rt_created_at old) (rt_updated_at new))
         (mkReliabilityTask kind id "pending" 0 None next err now now) |>.

Definition record_reliability_attempt (kind id : string) (now next : Z) (err : option string)
    (s : SocialStore) : SocialStore :=
  s <| reliability_tasks ::= upsert_row task_key
         (λ old new, mkReliabilityTask (rt_object_kind old) (rt_object_id old) "pending"
            (rt_attempt_count old + 1) (rt_last_attempt_at new) (rt_next_attempt_at new)
            (rt_last_error new) (rt_created_at old) (rt_updated_at new))
         (mkReliabilityTask kind id "pending" 1 (Some now) next err now now) |>.

Definition clear_reliability_task (kind id : string) (s : SocialStore) : SocialStore :=
  s <| reliability_tasks ::=
         List.filter (λ t, negb (bool_decide (task_key t = (kind, id)))) |>.

(** The time of the next attempt: that of the task, else the (normalized) last
    update and the retry delay. *)
Definition normalized_updated_at (r : FriendRequest) : Z :=
  if 10000000000 <? fr_updated_at r then fr_updated_at r `quot` 1000 else fr_updated_at r.
Definition next_attempt (s : SocialStore) (delay : Z) (r : FriendRequest) : Z :=
  match get_reliability_task s "friend_request" (fr_request_id r) with
  | Some t => rt_next_attempt_at t
  | None => normalized_updated_at r + delay
  end.
Definition task_pending (s : SocialStore) (r : FriendRequest) : bool :=
  match get_reliability_task s "friend_request" (fr_request_id r) with
  | Some t => String.eqb (rt_status t) "pending"
  | None => true
  end.

(** The subquery [newer]: a later request of the same pair, direction and
    state. *)
Definition newer_request (r newer : FriendRequest) : bool :=
  String.eqb (fr_local_public_id newer) (fr_local_public_id r)
  && String.eqb (fr_remote_public_id newer) (fr_remote_public_id r)
  && bool_decide (fr_direction newer = fr_direction r)
  && bool_decide (fr_state newer = fr_state r)
  && ((fr_updated_at r <? fr_updated_at newer)
      || (fr_updated_at newer =? fr_updated_at r)
         && str_ltb (fr_request_id newer) (fr_request_id r)).

Definition has_node (r : FriendRequest) : bool := is_some_and sql_nonblank (fr_remote_node_id r).

Definition active_friendship_pair (s : SocialStore) (r : FriendRequest) : bool :=
  existsb (λ f, String.eqb (fs_local_public_id f) (fr_local_public_id r)
                && String.eqb (fs_remote_public_id f) (fr_remote_public_id r)
                && bool_decide (fs_state f = FSActive)) (friendships s).

Definition due_outbound_pending_friend_requests (now delay : Z) (limit : nat) (s : SocialStore)
    : list FriendRequest :=
  take limit (order_by [asc_Z (next_attempt s delay); asc_Z fr_updated_at; asc_str fr_request_id]
    (List.filter (λ r,
       bool_decide (fr_direction r = FROutbound) && bool_decide (fr_state r = FRPending)
       && sql_nonblank (fr_request_id r) && has_node r && negb (active_friendship_pair s r)
       && task_pending s r && (next_attempt s delay r <=? now)
       && negb (existsb (newer_request r) (friend_requests s)))
       (friend_requests s))).

Definition due_pending_friend_request_decisions (now delay : Z) (limit : nat) (s : SocialStore)
    : list FriendRequest :=
  take limit (order_by [asc_Z (next_attempt s delay); asc_Z fr_updated_at; asc_str fr_request_id]
    (List.filter (λ r,
       bool_decide (fr_direction r = FRInbound) && bool_decide (fr_state r = FRDecisionPending)
       && is_some_and (λ d, String.eqb d DECISION_PENDING_ACCEPT_REASON
                            || String.eqb d DECISION_PENDING_REJECT_REASON) (fr_decision_reason r)
       && has_node r && task_pending s r && (next_attempt s delay r <=? now))
       (friend_requests s))).

(** *** Deferred events *)

Definition WAITING : string := "waiting_for_friendship".

Definition defer_agent_event (e : DeferredAgentEvent) (s : SocialStore) : SocialStore :=
  s <| deferred_agent_events ::= insert_or_ignore de_event_id e |>.

Definition list_waiting_deferred_agent_events (local remote : string) (limit : nat)
    (s : SocialStore) : list DeferredAgentEvent :=
  take limit (order_by [asc_Z de_created_at; asc_str de_event_id]
    (List.filter (λ e, String.eqb (de_status e) WAITING
                       && String.eqb (de_local_public_id e) local
                       && String.eqb (de_remote_public_id e) remote) (deferred_agent_events s))).

Definition get_deferred_agent_event (s : SocialStore) (id : string) : option DeferredAgentEvent :=
  find_first (λ e, String.eqb (de_event_id e) id) (deferred_agent_events s).

Definition mark_deferred_agent_event_replayed (id : string) (at_ : Z) (s : SocialStore)
    : SocialStore :=
  s <| deferred_agent_events ::= map (λ e,
         if String.eqb (de_event_id e) id && String.eqb (de_status e) WAITING
         then e <| de_status := "replayed" |> <| de_replayed_at := Some at_ |>
                <| de_updated_at := at_ |> else e) |>.

(** *** Skills *)

Definition list_agent_skills (s : SocialStore) : list AgentSkill :=
  order_by [asc_Z sk_sort_order; asc_str sk_name; asc_str sk_skill_id] (agent_skills s).
Definition list_visible_agent_skills (s : SocialStore) : list AgentSkill :=
  order_by [asc_Z sk_sort_order; asc_str sk_name; asc_str sk_skill_id]
    (List.filter sk_visible (agent_skills s)).
Definition upsert_agent_skill (k : AgentSkill) (s : SocialStore) : SocialStore :=
  s <| agent_skills ::= upsert_row sk_skill_id
         (λ old new, new <| sk_created_at := sk_created_at old |>) k |>.
Definition delete_agent_skill (id : string) (s : SocialStore) : SocialStore :=
  s <| agent_skills ::= List.filter (λ k, negb (String.eqb (sk_skill_id k) id)) |>.

(** The skills that earlier versions of the schema installed are deleted when
    the store is opened. *)
Definition remove_network_default_agent_skills (s : SocialStore) : SocialStore :=
  s <| agent_skills ::= List.filter (λ k, negb (String.eqb (sk_source k) "default"
         && bool_decide (sk_skill_id k ∈
              ["task-participation"; "social-direct-message"; "agent-payment"]))) |>.

(** *** Import of an older database

    A table the legacy file does not have is [None]; a row whose primary key is
    taken is left out. *)
Record LegacyTables := mkLegacyTables {
  lg_public_transport_bindings : option (list RemoteTransportBinding);
  lg_friend_requests : option (list FriendRequest);
  lg_friendships : option (list Friendship);
  lg_public_blocks : option (list SocialBlock);
  lg_dm_threads : option (list DirectThread);
  lg_dm_messages : option (list DirectMessage);
  lg_dm_message_receipts : option (list MessageReceipt);
  lg_policy_rules : option (list PolicyRule);
  lg_policy_decision_logs : option (list PolicyDecisionLog);
  lg_public_identities : option (list RemoteIdentityProfile);
}.

Definition import_table {R K} `{EqDecision K} (key : R → K) (legacy : option (list R))
    (t : list R) : list R :=
  match legacy with
  | Some rows => foldl (λ t r, insert_or_ignore key r t) t rows
  | None => t
  end.

Definition import_legacy_social_tables (l : LegacyTables) (s : SocialStore) : SocialStore :=
  s <| public_transport_bindings ::= import_table (λ b, (tb_public_id b, tb_transport_node_id b))
         (lg_public_transport_bindings l) |>
    <| friend_requests ::= import_table fr_request_id (lg_friend_requests l) |>
    <| friendships ::= import_table fs_friendship_id (lg_friendships l) |>
    <| public_blocks ::= import_table bl_block_id (lg_public_blocks l) |>
    <| dm_threads ::= import_table th_thread_id (lg_dm_threads l) |>
    <| dm_messages ::= import_table (λ m, (dm_thread_id m, dm_message_id m)) (lg_dm_messages l) |>
    <| dm_message_receipts ::= import_table
         (λ r, (rc_message_id r, receipt_kind_to_str (rc_receipt_kind r), rc_recorded_at r))
         (lg_dm_message_receipts l) |>
    <| policy_rules ::= import_table pr_rule_id (lg_policy_rules l) |>
    <| policy_decision_logs ::= import_table pl_decision_id (lg_policy_decision_logs l) |>
    <| public_identities ::= import_table ri_public_id (lg_public_identities l) |>.

(** ** Primary keys *)

Definition binding_key (b : RemoteTransportBinding) := (tb_public_id b, tb_transport_node_id b).
Definition message_key (m : DirectMessage) := (dm_thread_id m, dm_message_id m).
Definition receipt_key (r : MessageReceipt) :=
  (rc_message_id r, receipt_kind_to_str (rc_receipt_kind r), rc_recorded_at r).

(** Every table holds at most one row per primary key. *)
Record store_ok (s : SocialStore) : Prop := {
  ok_identities : NoDup (ri_public_id <$> public_identities s);
  ok_bindings : NoDup (binding_key <$> public_transport_bindings s);
  ok_rules : NoDup (pr_rule_id <$> policy_rules s);
  ok_logs : NoDup (pl_decision_id <$> policy_decision_logs s);
  ok_requests : NoDup (fr_request_id <$> friend_requests s);
  ok_friendships : NoDup (fs_friendship_id <$> friendships s);
  ok_blocks : NoDup (bl_block_id <$> public_blocks s);
  ok_threads : NoDup (th_thread_id <$> dm_threads s);
  ok_messages : NoDup (message_key <$> dm_messages s);
  ok_receipts : NoDup (receipt_key <$> dm_message_receipts s);
  ok_tasks : NoDup (task_key <$> reliability_tasks s);
  ok_events : NoDup (de_event_id <$> deferred_agent_events s);
  ok_skills : NoDup (sk_skill_id <$> agent_skills s);
}.

(** The statements the store executes. *)
Inductive store_step : SocialStore → SocialStore → Prop :=
  | step_identity i s : store_step s (upsert_remote_identity i s)
  | step_display_name i n s : store_step s (update_remote_identity_display_name i n s)
  | step_binding b s : store_step s (upsert_transport_binding b s)
  | step_rule r s : store_step s (upsert_policy_rule r s)
  | step_log l s : store_step s (append_policy_decision_log l s).2
  | step_request r s : store_step s (upsert_friend_request r s)
  | step_friendship f s : store_step s (upsert_friendship f s)
  | step_block b s : store_step s (upsert_block b s)
  | step_unblock o b s : store_step s (remove_block o b s)
  | step_thread t s : store_step s (upsert_thread t s)
  | step_message m s : store_step s (upsert_message m s)
  | step_receipt r s : store_step s (upsert_message_receipt r s)
  | step_defer k i now next err s : store_step s (defer_reliability_task k i now next err s)
  | step_attempt k i now next err s : store_step s (record_reliability_attempt k i now next err s)
  | step_clear k i s : store_step s (clear_reliability_task k i s)
  | step_event e s : store_step s (defer_agent_event e s)
  | step_replayed i t s : store_step s (mark_deferred_agent_event_replayed i t s)
  | step_skill k s : store_step s (upsert_agent_skill k s)
  | step_unskill i s : store_step s (delete_agent_skill i s)
  | step_default_skills s : store_step s (remove_network_default_agent_skills s)
  | step_import l s : store_step s (import_legacy_social_tables l s).

Lemma filterb_keys_NoDup {R K} (key : R → K) (P : R → bool) t :
  NoDup (key <$> t) → NoDup (key <$> List.filter P t).
Proof.
  induction t as [|r t IH]; [done|]. rewrite fmap_cons NoDup_cons. intros [Hr Ht]. simpl.
  destruct (P r); [|auto]. rewrite fmap_cons NoDup_cons. split; [|auto].
  intros (x & Hx & [Hin _]%elem_of_filterb)%list_elem_of_fmap. apply Hr. rewrite Hx.
  by apply list_elem_of_fmap_2.
Qed.

Lemma map_keys {R K} (key : R → K) (f : R → R) t :
  (∀ r, key (f r) = key r) → key <$> map f t = key <$> t.
Proof. intros Hf. induction t as [|r t IH]; [done|]. simpl map. by rewrite !fmap_cons Hf IH. Qed.

Lemma import_table_NoDup {R K} `{EqDecision K} (key : R → K) legacy t :
  NoDup (key <$> t) → NoDup (key <$> import_table key legacy t).
Proof.
  destruct legacy as [rows|]; [|done]. revert t. induction rows as [|r rows IH]; [done|].
  intros t Ht. apply IH. by apply insert_or_ignore_NoDup.
Qed.

#[local] Hint Resolve import_table_NoDup filterb_keys_NoDup insert_or_ignore_NoDup : watt.
#[local] Hint Extern 1 (NoDup (_ <$> upsert_row _ _ _ _)) => apply upsert_row_NoDup : watt.
#[local] Hint Extern 2 (NoDup (_ <$> map _ _)) =>
  rewrite map_keys; [|intros ?; by repeat case_match] : watt.

Lemma append_log_ok l s : store_ok s → store_ok (append_policy_decision_log l s).2.
Proof.
  intros Hs. rewrite /append_policy_decision_log. case_bool_decide as Hl; [done|].
  destruct Hs; split; try assumption. cbn. rewrite fmap_app.
  apply NoDup_app. split_and!; [done| |apply NoDup_singleton].
  intros k Hk ->%list_elem_of_singleton. done.
Qed.

Lemma store_step_ok s s' : store_ok s → store_step s s' → store_ok s'.
Proof.
  intros Hs Hstep. destruct Hstep; try (by apply append_log_ok); destruct Hs; split; cbn;
    try assumption; try (by eauto with watt); try (apply upsert_row_NoDup; [|done]; by intros ?? [=]).
Qed.


(** ** Retries of friend requests *)

Definition request_task (r : FriendRequest) : string * string := ("friend_request", fr_request_id r).

Lemma get_task_record kind id now next err s k i :
  get_reliability_task (record_reliability_attempt kind id now next err s) k i =
  if decide ((k, i) = (kind, id))
  then Some match get_reliability_task s k i with
       | Some old => mkReliabilityTask (rt_object_kind old) (rt_object_id old) "pending"
                       (rt_attempt_count old + 1) (Some now) next err (rt_created_at old) now
       | None => mkReliabilityTask kind id "pending" 1 (Some now) next err now now
       end
  else get_reliability_task s k i.
Proof.
  rewrite /get_reliability_task /record_reliability_attempt. cbn [reliability_tasks set_field].
  rewrite find_first_upsert; [|by intros r]. rewrite /task_key /=.
  case_decide; [|done]. by destruct (find_first _ _).
Qed.

(** The condition of the query on one row. *)
Definition outbound_due (now delay : Z) (s : SocialStore) (r : FriendRequest) : Prop :=
  r ∈ friend_requests s ∧ fr_direction r = FROutbound ∧ fr_state r = FRPending
  ∧ sql_nonblank (fr_request_id r) = true ∧ has_node r = true
  ∧ active_friendship_pair s r = false ∧ task_pending s r = true
  ∧ next_attempt s delay r ≤ now ∧ existsb (newer_request r) (friend_requests s) = false.

Lemma elem_of_due_outbound now delay n s r :
  r ∈ due_outbound_pending_friend_requests now delay n s → outbound_due now delay s r.
Proof.
  rewrite /due_outbound_pending_friend_requests. intros Hr.
  eapply elem_of_sublist in Hr; [|apply sublist_take]. rewrite elem_of_order_by elem_of_filterb in Hr.
  destruct Hr as [Hin Hb]. bool_to_prop. by repeat split.
Qed.

Lemma due_outbound_complete now delay n s r :
  (length (friend_requests s) ≤ n)%nat → outbound_due now delay s r →
  r ∈ due_outbound_pending_friend_requests now delay n s.
Proof.
  intros Hn (Hin & Hd & Hst & Hb & Hnode & Hact & Htask & Hnext & Hnew).
  rewrite /due_outbound_pending_friend_requests take_ge.
  - rewrite elem_of_order_by elem_of_filterb. split; [done|].
    rewrite Hb Hnode Hact Htask Hnew !bool_decide_true //= (proj2 (Z.leb_le _ _) Hnext). done.
  - rewrite order_by_perm. etrans; [apply List.filter_length_le|done].
Qed.

(** Two rows of the same pair that are both due are the same row. *)
Lemma due_outbound_same_pair now delay s r1 r2 :
  store_ok s → outbound_due now delay s r1 → outbound_due now delay s r2 →
  fr_local_public_id r1 = fr_local_public_id r2 →
  fr_remote_public_id r1 = fr_remote_public_id r2 → r1 = r2.
Proof.
  intros Hok (Hin1 & Hd1 & Hst1 & _ & _ & _ & _ & _ & Hn1)
    (Hin2 & Hd2 & Hst2 & _ & _ & _ & _ & _ & Hn2) Hl Hr.
  assert (newer_request r1 r2 = false) as H1.
  { apply not_true_is_false. intros H. by rewrite (proj2 (existsb_elem_of _ _)) in Hn1; eauto. }
  assert (newer_request r2 r1 = false) as H2.
  { apply not_true_is_false. intros H. by rewrite (proj2 (existsb_elem_of _ _)) in Hn2; eauto. }
  rewrite /newer_request Hl Hr Hd1 Hd2 Hst1 Hst2 !String.eqb_refl !bool_decide_true //= in H1, H2.
  apply orb_false_iff in H1 as [H1%Z.ltb_ge H1'], H2 as [H2%Z.ltb_ge H2'].
  assert (fr_updated_at r1 = fr_updated_at r2) as Hu by lia.
  rewrite Hu Z.eqb_refl /= in H1', H2'. assert (fr_request_id r1 = fr_request_id r2) as Hid.
  { rewrite /str_ltb (String.compare_antisym (fr_request_id r2)) in H1'. rewrite /str_ltb in H2'.
    apply String.compare_eq_iff. by destruct (String.compare (fr_request_id r1) _). }
  by eapply (key_unique fr_request_id); [apply Hok|..].
Qed.

(** The retry queue of outbound friend requests. At one time at most one
    request of a pair is due; an attempt takes the request out of the queue until
    the next attempt is due, and puts it back at that time when nothing else
    changed, so it is attempted again and again until it is settled. *)
Theorem retry_queue_spec s now delay n r next err :
  store_ok s → r ∈ due_outbound_pending_friend_requests now delay n s →
  (∀ r', r' ∈ due_outbound_pending_friend_requests now delay n s →
     fr_local_public_id r' = fr_local_public_id r →
     fr_remote_public_id r' = fr_remote_public_id r → r' = r)
  ∧ (∀ later m,
       (length (friend_requests s) ≤ m)%nat →
       r ∈ due_outbound_pending_friend_requests later delay m
             (record_reliability_attempt "friend_request" (fr_request_id r) now next err s)
       ↔ next ≤ later).
Proof.
  intros Hok Hr%elem_of_due_outbound. split.
  - intros r' Hr'%elem_of_due_outbound Hl Hrm. by eapply due_outbound_same_pair.
  - intros later m Hm. set (s' := record_reliability_attempt _ _ _ _ _ _).
    assert (∃ t, get_reliability_task s' "friend_request" (fr_request_id r) = Some t
                 ∧ rt_status t = "pending" ∧ rt_next_attempt_at t = next) as (t & Ht & Hst & Hnext).
    { rewrite /s' get_task_record decide_True //. by destruct (get_reliability_task _ _ _); eauto. }
    split.
    + intros H%elem_of_due_outbound. destruct H as (_ & _ & _ & _ & _ & _ & _ & H & _).
      by rewrite /next_attempt Ht Hnext in H.
    + intros Hle. apply due_outbound_complete; [done|].
      destruct Hr as (? & ? & ? & ? & ? & ? & _ & _ & ?).
      repeat split; try assumption.
      * by rewrite /task_pending Ht Hst.
      * by rewrite /next_attempt Ht Hnext.
Qed.

Module StoreScenario.
Definition request (id : string) (at_ : Z) : FriendRequest :=
  mkFriendRequest id "alice" "bob" (Some "node-b") FROutbound FRPending None None at_ at_ None.
Definition store : SocialStore :=
  upsert_friend_request (request "r2" 20) (upsert_friend_request (request "r1" 10) open_in_memory).

Lemma store_reachable : rtc store_step open_in_memory store.
Proof. eapply rtc_l; [apply step_request|]. eapply rtc_l; [apply step_request|]. apply rtc_refl. Qed.


Lemma retry_queue_spec_witness :
  request "r2" 20 ∈ due_outbound_pending_friend_requests 100 30 10 store
  ∧ request "r2" 20 ∈ due_outbound_pending_friend_requests 160 30 10
      (record_reliability_attempt "friend_request" "r2" 100 160 None store).
Proof.
  assert (request "r2" 20 ∈ due_outbound_pending_friend_requests 100 30 10 store) as H
    by (vm_compute; left).
  assert (store_ok store) as Hok
    by (split; apply (bool_decide_eq_true_1 _); vm_compute; reflexivity).
  split; [done|].
  pose proof (retry_queue_spec store 100 30 10 (request "r2" 20) 160 None Hok H) as [_ Hq].
  apply (Hq 160 10%nat); [vm_compute; lia|lia].
Defined.
End StoreScenario.
