(* ===== verification/SocialPolicy.v ===== *)
(** * Social: policy

    [crates/social/src/policy] and [application/policy_service.rs]: the rules an
    owner keeps for outbound friend requests and direct messages, their
    evaluation against a target, the default rules and the log of decisions. *)

From S2P Require Import Prelude Collections Text Json Sql SocialDomain SocialStore.
#[local] Open Scope Z_scope.

(** ** Evaluation *)

Record PolicyEvaluationContext := mkPolicyEvaluationContext {
  cx_scope : PolicyScope;
  cx_owner_public_id : string;
  cx_target_public_id : string;
  cx_target_node_id : option string;
  cx_has_block : bool;
  cx_has_active_friendship : bool;
  cx_has_pending_request : bool;
}.

Definition rule_applies_to_scope (rule : PolicyRule) (scope : PolicyScope) : bool :=
  bool_decide (pr_scope rule = Global) || bool_decide (pr_scope rule = scope).

(** [if let Some(x) = .. && !test(x) { return false }]. *)
Definition passes {A} (expected : option A) (test : A → bool) : bool :=
  is_none_or test expected.
Definition starts_with (prefix s : string) : bool :=
  bool_decide (is_Some (strip_prefix (to_bytes prefix) (to_bytes s))).

Definition matcher_matches (matcher : json) (cx : PolicyEvaluationContext) : bool :=
  match matcher with
  | JObject _ =>
      let str k := get_str k matcher in
      let bool k := json_get k matcher ≫= as_bool in
      passes (str "target_public_id") (λ e, String.eqb e (cx_target_public_id cx))
      && passes (str "target_public_id_prefix") (λ p, starts_with p (cx_target_public_id cx))
      && passes (str "target_node_id") (λ e, bool_decide (cx_target_node_id cx = Some e))
      && passes (bool "requires_blocked") (λ b, Bool.eqb (cx_has_block cx) b)
      && passes (bool "requires_active_friendship") (λ b, Bool.eqb (cx_has_active_friendship cx) b)
      && passes (bool "requires_pending_request") (λ b, Bool.eqb (cx_has_pending_request cx) b)
  | _ => true
  end.

Definition decision_for_rule_type (t : PolicyRuleType) : PolicyDecision :=
  match t with
  | AllowDirectMessageForFriends => Allow
  | RejectBlockedAgent | RejectDuplicatePendingRequest | RejectActiveFriendship
  | DenyDirectMessageWhenBlocked | DenyDirectMessageWhenNotFriends => Deny
  end.

Definition default_reason_for_rule_type (t : PolicyRuleType) : string :=
  match t with
  | RejectBlockedAgent => "blocked_agent"
  | RejectDuplicatePendingRequest => "duplicate_pending_request"
  | RejectActiveFriendship => "already_friends"
  | AllowDirectMessageForFriends => "active_friendship"
  | DenyDirectMessageWhenBlocked => "blocked"
  | DenyDirectMessageWhenNotFriends => "friendship_required"
  end.

(** The derived serializer of the scope. *)
Definition scope_json (scope : PolicyScope) : json :=
  JString match scope with
    | Global => "global"
    | FriendRequestsInbound => "friend_requests_inbound"
    | FriendRequestsOutbound => "friend_requests_outbound"
    | DirectMessagesInbound => "direct_messages_inbound"
    | DirectMessagesOutbound => "direct_messages_outbound"
    | Blocks => "blocks"
    end.

Definition context_to_json (cx : PolicyEvaluationContext) : json :=
  JObject [("scope", scope_json (cx_scope cx));
           ("owner_public_id", JString (cx_owner_public_id cx));
           ("target_public_id", JString (cx_target_public_id cx));
           ("target_node_id", json_of_option JString (cx_target_node_id cx));
           ("has_block", JBool (cx_has_block cx));
           ("has_active_friendship", JBool (cx_has_active_friendship cx));
           ("has_pending_request", JBool (cx_has_pending_request cx))].

Definition rule_order : list (PolicyRule → PolicyRule → comparison) :=
  [asc_Z pr_priority; asc_str pr_rule_id].

Definition evaluate (rule_set : list PolicyRule) (cx : PolicyEvaluationContext)
    : PolicyEvaluation :=
  let ordered_rules := order_by rule_order
    (List.filter (λ r, pr_enabled r && rule_applies_to_scope r (cx_scope cx)) rule_set) in
  match find_first (λ r, matcher_matches (pr_matcher_json r) cx) ordered_rules with
  | Some rule =>
      mkPolicyEvaluation (decision_for_rule_type (pr_rule_type rule)) (Some (pr_rule_id rule))
        (default (default_reason_for_rule_type (pr_rule_type rule))
           (get_str "reason" (pr_config_json rule)))
        (context_to_json cx)
  | None => mkPolicyEvaluation Allow None "no_matching_rule" (context_to_json cx)
  end.

(** ** Default rules *)

Definition default_policy_rules (owner : string) (now : Z) : list PolicyRule :=
  let flag k b := JObject [(k, JBool b)] in
  let text k v := JObject [(k, JString v)] in
  [mkPolicyRule (owner +:+ ":reject-blocked-agent") (Some owner) RejectBlockedAgent
     FriendRequestsOutbound (flag "requires_blocked" true) (text "reason" "blocked_agent")
     10 true now now;
   mkPolicyRule (owner +:+ ":reject-active-friendship") (Some owner) RejectActiveFriendship
     FriendRequestsOutbound (flag "requires_active_friendship" true)
     (text "reason" "already_friends") 20 true now now;
   mkPolicyRule (owner +:+ ":allow-direct-message-for-friends") (Some owner)
     AllowDirectMessageForFriends DirectMessagesOutbound (flag "requires_active_friendship" true)
     (text "relationship" "active_friendship") 50 true now now;
   mkPolicyRule (owner +:+ ":deny-direct-message-when-blocked") (Some owner)
     DenyDirectMessageWhenBlocked DirectMessagesOutbound (flag "requires_blocked" true)
     (text "reason" "blocked") 30 true now now;
   mkPolicyRule (owner +:+ ":deny-direct-message-when-not-friends") (Some owner)
     DenyDirectMessageWhenNotFriends DirectMessagesOutbound
     (flag "requires_active_friendship" false) (text "reason" "friendship_required")
     40 true now now].

Definition legacy_rule_id (owner : string) : string :=
  owner +:+ ":reject-duplicate-pending-request".

Definition disable_legacy_duplicate_pending_default (owner : string) (existing : list PolicyRule)
    (now : Z) : social SocialStore unit :=
  match find_first (λ r, String.eqb (pr_rule_id r) (legacy_rule_id owner) && pr_enabled r)
          existing with
  | None => mret tt
  | Some legacy_rule =>
      if negb (bool_decide (pr_rule_type legacy_rule = RejectDuplicatePendingRequest))
         || negb (bool_decide (pr_matcher_json legacy_rule =
                               JObject [("requires_pending_request", JBool true)]))
      then mret tt
      else writes (upsert_policy_rule
             (legacy_rule <| pr_enabled := false |> <| pr_updated_at := now |>
                <| pr_config_json :=
                     JObject [("reason", JString "legacy_duplicate_pending_request_disabled")] |>))
  end.

Definition ensure_default_policy_rules (owner : string) (now : Z)
    : social SocialStore (list PolicyRule) :=
  existing ← reads (λ s, list_policy_rules s (Some owner));
  let defaults := default_policy_rules owner now in
  (match existing with
   | [] => for_each (λ rule, writes (upsert_policy_rule rule)) defaults
   | _ =>
       disable_legacy_duplicate_pending_default owner existing now;;
       for_each (λ rule,
         if existsb (λ e, String.eqb (pr_rule_id e) (pr_rule_id rule)) existing
         then mret tt else writes (upsert_policy_rule rule)) defaults
   end);;
  reads (λ s, list_policy_rules s (Some owner)).

(** ** Evaluation against the store *)

Definition rules_for_owner (rules : list PolicyRule) (owner : string) : list PolicyRule :=
  List.filter (λ r, bool_decide (pr_owner_public_id r = None)
                    || bool_decide (pr_owner_public_id r = Some owner)) rules.

(** [str::replace(':', "_")]. *)
Definition replace_colons (s : string) : string :=
  of_bytes ((λ c, if Ascii.eqb c ":"%char then "_"%char else c) <$> to_bytes s).

Definition decision_id (owner target : string) (e : PolicyEvaluation) (now : Z) : string :=
  "policy:" +:+ owner +:+ ":" +:+ target +:+ ":"
    +:+ policy_decision_to_str (pe_decision e) +:+ ":"
    +:+ replace_colons (default "no_rule" (pe_matched_rule_id e)) +:+ ":" +:+ show_Z now.

Definition append_decision_log (owner : string) (scope : PolicyScope) (target : string)
    (target_node : option string) (e : PolicyEvaluation) (now : Z) : social SocialStore unit :=
  append_policy_decision_log
    (mkPolicyDecisionLog (decision_id owner target e now) owner scope target target_node
       (pe_matched_rule_id e) (pe_decision e) (pe_reason e) (pe_context_json e) now).

Definition has_block (s : SocialStore) (owner target : string) : bool :=
  bool_decide (is_Some (find_block s owner target)).
Definition has_active_friendship (s : SocialStore) (owner target : string) : bool :=
  is_some_and friendship_is_active (find_friendship s owner target).
Definition has_pending_request (s : SocialStore) (owner target : string) : bool :=
  existsb (λ r, String.eqb (fr_remote_public_id r) target && bool_decide (fr_state r = FRPending))
    (list_friend_requests s owner).

Definition evaluate_outbound_friend_request_policy (owner target : string)
    (target_node : option string) (now : Z) : social SocialStore PolicyEvaluation :=
  _ ← ensure_default_policy_rules owner now;
  all_rules ← reads (λ s, list_policy_rules s None);
  blocked ← reads (λ s, has_block s owner target);
  pending ← reads (λ s, has_pending_request s owner target);
  friends ← reads (λ s, has_active_friendship s owner target);
  let e := evaluate (rules_for_owner all_rules owner)
    (mkPolicyEvaluationContext FriendRequestsOutbound owner target target_node
       blocked friends pending) in
  append_decision_log owner FriendRequestsOutbound target target_node e now;;
  mret e.

Definition evaluate_outbound_dm_policy (owner target : string) (target_node : option string)
    (now : Z) : social SocialStore PolicyEvaluation :=
  _ ← ensure_default_policy_rules owner now;
  all_rules ← reads (λ s, list_policy_rules s None);
  blocked ← reads (λ s, has_block s owner target);
  friends ← reads (λ s, has_active_friendship s owner target);
  let e := evaluate (rules_for_owner all_rules owner)
    (mkPolicyEvaluationContext DirectMessagesOutbound owner target target_node
       blocked friends false) in
  append_decision_log owner DirectMessagesOutbound target target_node e now;;
  mret e.

(** ** What the evaluation selects *)

Definition applicable (rules : list PolicyRule) (cx : PolicyEvaluationContext) (r : PolicyRule)
    : Prop :=
  r ∈ rules ∧ pr_enabled r = true ∧ rule_applies_to_scope r (cx_scope cx) = true
  ∧ matcher_matches (pr_matcher_json r) cx = true.

(** [r] comes no later than [r'] by priority, then by identifier. *)
Definition precedes (r r' : PolicyRule) : Prop :=
  pr_priority r < pr_priority r'
  ∨ pr_priority r = pr_priority r' ∧ str_leb (pr_rule_id r) (pr_rule_id r') = true.

Lemma rule_order_ok : Forall row_order rule_order.
Proof. repeat constructor; apply asc_Z_order || apply asc_str_order. Qed.

Lemma rule_order_precedes r r' : compare_by rule_order r r' ≠ Gt ↔ precedes r r'.
Proof.
  rewrite /precedes /rule_order /str_leb /=. rewrite /asc_Z /asc_str.
  destruct (Z.compare_spec (pr_priority r) (pr_priority r')) as [->|H|H].
  - destruct (String.compare _ _); split; try done; try (intros _; by right);
      intros [?|[_ ?]]; lia || done.
  - split; [by left|done].
  - split; [done|]. intros [?|[? _]]; lia.
Qed.

Lemma find_first_sorted {A} (R : A → A → Prop) (P : A → bool) l x :
  Reflexive R → StronglySorted R l → find_first P l = Some x →
  ∀ y, y ∈ l → P y = true → R x y.
Proof.
  intros HR. induction 1 as [|z l _ IH Hall]; [done|]. cbn [find_first].
  destruct (P z) eqn:E.
  - intros [= ->] y [->|Hy]%elem_of_cons _; [done|]. by rewrite Forall_forall in Hall; apply Hall.
  - intros Hx y [->|Hy]%elem_of_cons Hp; [congruence|]. by apply IH.
Qed.

Lemma precedes_refl r : precedes r r.
Proof. right. split; [done|apply str_leb_refl]. Qed.

(** The evaluation follows the applicable rule that comes first by priority
    and identifier, with the reason of its configuration or of its type, and
    allows when no rule applies. *)
Lemma evaluate_selects rules cx :
  (evaluate rules cx = mkPolicyEvaluation Allow None "no_matching_rule" (context_to_json cx)
   ∧ ∀ r, ¬ applicable rules cx r)
  ∨ ∃ r, applicable rules cx r ∧ (∀ r', applicable rules cx r' → precedes r r')
         ∧ evaluate rules cx =
           mkPolicyEvaluation (decision_for_rule_type (pr_rule_type r)) (Some (pr_rule_id r))
             (default (default_reason_for_rule_type (pr_rule_type r))
                (get_str "reason" (pr_config_json r)))
             (context_to_json cx).
Proof.
  rewrite /evaluate.
  set (l := List.filter _ rules).
  assert (∀ r, applicable rules cx r ↔ r ∈ order_by rule_order l
               ∧ matcher_matches (pr_matcher_json r) cx = true) as Happ.
  { intros r. rewrite elem_of_order_by /l elem_of_filterb /applicable andb_true_iff. tauto. }
  destruct (find_first _ _) as [r|] eqn:E.
  - right. exists r. pose proof (find_first_Some _ _ _ E) as [Hm Hin].
    split; [by apply Happ|]. split; [|done].
    intros r' [Hin' Hm']%Happ. apply rule_order_precedes.
    eapply (find_first_sorted (λ x y, compare_by rule_order x y ≠ Gt)); [| |done..].
    + intros x. apply rule_order_precedes, precedes_refl.
    + apply order_by_sorted, rule_order_ok.
  - left. split; [done|]. intros r [Hin Hm]%Happ.
    rewrite find_first_None in E. by rewrite E in Hm.
Qed.

(** ** The default rules in the store *)

(** A rule without its times, and the rules an owner is subject to. *)
Definition content (r : PolicyRule) : PolicyRule :=
  r <| pr_created_at := 0 |> <| pr_updated_at := 0 |>.
Definition visible (owner : string) (r : PolicyRule) : bool :=
  bool_decide (pr_owner_public_id r = None) || bool_decide (pr_owner_public_id r = Some owner).

Abbreviation put_rule :=
  (upsert_row pr_rule_id (λ old new, new <| pr_created_at := pr_created_at old |>)).
Definition put_rules (rs t : list PolicyRule) : list PolicyRule := foldl (λ t r, put_rule r t) t rs.

Lemma put_rule_elem new t r : r ∈ put_rule new t → r ∈ t ∨ content r = content new.
Proof.
  induction t as [|x t IH]; cbn [upsert_row]; [by intros ->%list_elem_of_singleton; right|].
  case_decide; intros [->|Hr]%elem_of_cons; [by right|left; by right|left; by left|].
  destruct (IH Hr); [left; by right|by right].
Qed.

Lemma put_rule_new new t : ∃ r, r ∈ put_rule new t ∧ content r = content new.
Proof.
  induction t as [|x t IH]; cbn [upsert_row]; [exists new; split; [by left|done]|].
  case_decide; [eexists; split; [by left|done]|].
  destruct IH as (r & Hr & Hc). exists r. split; [by right|done].
Qed.

Lemma put_rule_keep new t r : r ∈ t → pr_rule_id r ≠ pr_rule_id new → r ∈ put_rule new t.
Proof.
  induction t as [|x t IH]; [by intros ?%elem_of_nil|]. cbn [upsert_row].
  intros [->|Hr]%elem_of_cons Hne; case_decide; [done|by left|by right|right; auto].
Qed.

Lemma put_rules_elem rs t r :
  r ∈ put_rules rs t → r ∈ t ∨ ∃ d, d ∈ rs ∧ content r = content d.
Proof.
  revert t. induction rs as [|d rs IH]; cbn; [by left|]. intros t [Hr|(d' & Hd & Hc)]%IH.
  - apply put_rule_elem in Hr as [Hr|Hc]; [by left|]. right. exists d. split; [by left|done].
  - right. exists d'. split; [by right|done].
Qed.

Lemma put_rules_keep rs t r :
  r ∈ t → pr_rule_id r ∉ pr_rule_id <$> rs → r ∈ put_rules rs t.
Proof.
  revert t. induction rs as [|d rs IH]; cbn; [done|]. intros t Hr Hn.
  apply not_elem_of_cons in Hn as [Hd Hn]. apply IH; [|done]. by apply put_rule_keep.
Qed.

Lemma put_rules_new rs t d :
  NoDup (pr_rule_id <$> rs) → d ∈ rs → ∃ r, r ∈ put_rules rs t ∧ content r = content d.
Proof.
  revert t. induction rs as [|d' rs IH]; [by intros t _ ?%elem_of_nil|]. intros t.
  rewrite fmap_cons NoDup_cons. intros [Hn Hrs] Hd. cbn. apply elem_of_cons in Hd as [Hd|Hd].
  - subst d'. destruct (put_rule_new d t) as (r & Hr & Hc). exists r. split; [|done].
    apply put_rules_keep; [done|]. by rewrite (f_equal pr_rule_id Hc : pr_rule_id r = pr_rule_id d).
  - by apply IH.
Qed.

Lemma content_id r r' : content r = content r' → pr_rule_id r = pr_rule_id r'.
Proof. intros H. exact (f_equal pr_rule_id H). Qed.

Lemma default_content owner now :
  content <$> default_policy_rules owner now = default_policy_rules owner 0.
Proof. done. Qed.

Lemma default_ids_NoDup owner now : NoDup (pr_rule_id <$> default_policy_rules owner now).
Proof.
  change (pr_rule_id <$> default_policy_rules owner now)
    with (String.append owner <$> (pr_rule_id <$> default_policy_rules "" now)).
  apply (NoDup_fmap_2 _). apply (bool_decide_eq_true_1 _). by vm_compute.
Qed.

(** The rules [ensure_default_policy_rules] writes. *)
Definition legacy_update (owner : string) (existing : list PolicyRule) (now : Z)
    : list PolicyRule :=
  match find_first (λ r, String.eqb (pr_rule_id r) (legacy_rule_id owner) && pr_enabled r)
          existing with
  | Some r =>
      if negb (bool_decide (pr_rule_type r = RejectDuplicatePendingRequest))
         || negb (bool_decide (pr_matcher_json r =
                               JObject [("requires_pending_request", JBool true)]))
      then []
      else [r <| pr_enabled := false |> <| pr_updated_at := now |>
              <| pr_config_json :=
                   JObject [("reason", JString "legacy_duplicate_pending_request_disabled")] |>]
  | None => []
  end.
Definition missing_defaults (owner : string) (existing : list PolicyRule) (now : Z)
    : list PolicyRule :=
  List.filter (λ d, negb (existsb (λ e, String.eqb (pr_rule_id e) (pr_rule_id d)) existing))
    (default_policy_rules owner now).
Definition ensure_updates (owner : string) (now : Z) (s : SocialStore) : list PolicyRule :=
  let existing := list_policy_rules s (Some owner) in
  legacy_update owner existing now ++ missing_defaults owner existing now.

Lemma set_rules_id (s : SocialStore) : s <| policy_rules ::= λ t, t |> = s.
Proof. by destruct s. Qed.

Lemma for_each_put (P : PolicyRule → bool) rs s :
  for_each (λ r, if P r then mret tt else writes (upsert_policy_rule r)) rs s =
  (inr tt, s <| policy_rules ::= put_rules (List.filter (λ r, negb (P r)) rs) |>).
Proof.
  revert s. induction rs as [|r rs IH]; intros s.
  { by rewrite /= set_rules_id. }
  cbn [for_each List.filter]. rewrite /mbind /social_bind. destruct (P r); cbn [negb].
  - apply IH.
  - etrans; [apply (IH (upsert_policy_rule r s))|]. by destruct s.
Qed.

Lemma disable_legacy_run owner existing now s :
  disable_legacy_duplicate_pending_default owner existing now s =
  (inr tt, s <| policy_rules ::= put_rules (legacy_update owner existing now) |>).
Proof.
  rewrite /disable_legacy_duplicate_pending_default /legacy_update.
  destruct (find_first _ existing) as [r|]; [|by destruct s].
  case_match; by destruct s.
Qed.

Lemma ensure_run owner now s :
  let s' := s <| policy_rules ::= put_rules (ensure_updates owner now s) |> in
  ensure_default_policy_rules owner now s = (inr (list_policy_rules s' (Some owner)), s').
Proof.
  intros s'. rewrite /ensure_default_policy_rules.
  set (existing := list_policy_rules s (Some owner)).
  change ((reads (λ s, list_policy_rules s (Some owner))) s) with (inr existing : SocialError + _, s).
  rewrite /s' /ensure_updates -/existing. rewrite {1}/mbind /social_bind {1}/reads -/existing.
  destruct existing as [|e l].
  - rewrite /mbind /social_bind. rewrite (for_each_put (λ _, false)). by rewrite /reads.
  - rewrite /mbind /social_bind disable_legacy_run for_each_put /reads.
    assert (∀ rs rs' (s : SocialStore),
      s <| policy_rules ::= put_rules rs |> <| policy_rules ::= put_rules rs' |>
      = s <| policy_rules ::= put_rules (rs ++ rs') |>) as ->; [|done].
    intros rs rs' []. by rewrite /set_field /= /put_rules foldl_app.
Qed.

Section ensured.
Context (owner : string).

Lemma elem_of_owned s r :
  r ∈ list_policy_rules s (Some owner) ↔ r ∈ policy_rules s ∧ pr_owner_public_id r = Some owner.
Proof. by rewrite /list_policy_rules elem_of_order_by elem_of_filterb bool_decide_eq_true. Qed.

Lemma legacy_id_not_default now : legacy_rule_id owner ∉ pr_rule_id <$> default_policy_rules owner now.
Proof.
  change (pr_rule_id <$> default_policy_rules owner now)
    with (String.append owner <$> (pr_rule_id <$> default_policy_rules "" now)).
  rewrite /legacy_rule_id. intros (x & Hx & Hin)%list_elem_of_fmap. simplify_eq.
  revert Hin. apply (bool_decide_eq_true_1 _). by vm_compute.
Qed.

Lemma default_fields now d :
  d ∈ default_policy_rules owner now →
  pr_owner_public_id d = Some owner ∧ pr_rule_id d ≠ legacy_rule_id owner.
Proof.
  intros Hd. split.
  - rewrite /default_policy_rules in Hd.
    repeat (apply elem_of_cons in Hd as [->|Hd]; [done|]). by apply elem_of_nil in Hd.
  - intros Heq. apply (legacy_id_not_default now). rewrite -Heq. by apply list_elem_of_fmap_2.
Qed.

Lemma legacy_update_elem existing now u :
  u ∈ legacy_update owner existing now →
  ∃ r, find_first (λ r, String.eqb (pr_rule_id r) (legacy_rule_id owner) && pr_enabled r) existing
       = Some r ∧ r ∈ existing ∧ pr_rule_id r = legacy_rule_id owner
       ∧ pr_rule_type r = RejectDuplicatePendingRequest
       ∧ pr_matcher_json r = JObject [("requires_pending_request", JBool true)]
       ∧ u = r <| pr_enabled := false |> <| pr_updated_at := now |>
               <| pr_config_json :=
                    JObject [("reason", JString "legacy_duplicate_pending_request_disabled")] |>.
Proof.
  rewrite /legacy_update. destruct (find_first _ _) as [r|] eqn:E; [|by intros ?%elem_of_nil].
  pose proof (find_first_Some _ _ _ E) as [Hr Hin]. bool_to_prop.
  case_match; [by intros ?%elem_of_nil|]. bool_to_prop. intros ->%list_elem_of_singleton.
  by exists r.
Qed.

Lemma elem_of_missing existing now d :
  d ∈ missing_defaults owner existing now ↔
  d ∈ default_policy_rules owner now ∧ pr_rule_id d ∉ pr_rule_id <$> existing.
Proof.
  rewrite /missing_defaults elem_of_filterb negb_true_iff. apply and_iff_compat_l.
  rewrite -not_true_iff_false existsb_elem_of list_elem_of_fmap. apply not_iff_compat.
  split; intros (x & Hx & Hin); exists x; bool_to_prop; [done|]. by rewrite Hx String.eqb_refl.
Qed.

Lemma ensure_updates_NoDup now s : NoDup (pr_rule_id <$> ensure_updates owner now s).
Proof.
  rewrite /ensure_updates fmap_app. apply NoDup_app. split_and!.
  - rewrite /legacy_update. destruct (find_first _ _) as [r|]; [|apply NoDup_nil_2].
    case_match; [apply NoDup_nil_2|apply NoDup_singleton].
  - intros id (u & -> & Hu)%list_elem_of_fmap (d & Hid & Hd)%list_elem_of_fmap.
    apply legacy_update_elem in Hu as (r & _ & _ & Hr & _ & _ & ->).
    apply elem_of_missing in Hd as [Hd _]. by apply default_fields in Hd as [_ []]; rewrite -Hid.
  - apply filterb_keys_NoDup, default_ids_NoDup.
Qed.

Lemma put_rules_NoDup rs t : NoDup (pr_rule_id <$> t) → NoDup (pr_rule_id <$> put_rules rs t).
Proof.
  revert t. induction rs as [|r rs IH]; [done|]. intros t Ht. apply IH. by apply upsert_row_NoDup.
Qed.

(** After the call every default rule is there: one the owner had, or the
    default itself. *)
Lemma ensured_default now s d :
  d ∈ default_policy_rules owner now →
  ∃ r, r ∈ put_rules (ensure_updates owner now s) (policy_rules s)
       ∧ pr_owner_public_id r = Some owner ∧ pr_rule_id r = pr_rule_id d
       ∧ (content r = content d ∨ r ∈ policy_rules s).
Proof.
  intros Hd. destruct (decide (pr_rule_id d ∈ pr_rule_id <$> list_policy_rules s (Some owner)))
    as [(e & Heq & [He Hown]%elem_of_owned)%list_elem_of_fmap|Hn].
  - exists e. split_and!; [|done..|by right]. apply put_rules_keep; [done|].
    rewrite /ensure_updates fmap_app elem_of_app. rewrite -Heq. intros [Hin|Hin].
    + apply list_elem_of_fmap in Hin as (u & Hu & (r & _ & _ & Hr & _ & _ & ->)%legacy_update_elem).
      apply default_fields in Hd as [_ []]. by rewrite Hu.
    + apply list_elem_of_fmap in Hin as (u & Hu & [_ []]%elem_of_missing). rewrite -Hu Heq.
      apply list_elem_of_fmap_2. by apply elem_of_owned.
  - destruct (put_rules_new (ensure_updates owner now s) (policy_rules s) d) as (r & Hr & Hc).
    + apply ensure_updates_NoDup.
    + apply elem_of_app. right. by apply elem_of_missing.
    + exists r. split_and!; [done| |by apply content_id|by left].
      transitivity (pr_owner_public_id d); [exact (f_equal pr_owner_public_id Hc)|].
      by destruct (default_fields now d Hd).
Qed.

Lemma legacy_update_single s now r :
  store_ok s → r ∈ policy_rules s → pr_owner_public_id r = Some owner →
  pr_rule_id r = legacy_rule_id owner → pr_enabled r = true →
  pr_rule_type r = RejectDuplicatePendingRequest →
  pr_matcher_json r = JObject [("requires_pending_request", JBool true)] →
  ∃ u, legacy_update owner (list_policy_rules s (Some owner)) now = [u]
       ∧ pr_enabled u = false ∧ pr_rule_id u = pr_rule_id r.
Proof.
  intros Hok Hr Hown Hid Hen Hty Hm.
  assert (find_first (λ r, String.eqb (pr_rule_id r) (legacy_rule_id owner) && pr_enabled r)
            (list_policy_rules s (Some owner)) = Some r) as Hfind.
  { destruct (find_first _ _) as [x|] eqn:E.
    - f_equal. pose proof (find_first_Some _ _ _ E) as [[Hx _]%andb_prop [Hin _]%elem_of_owned].
      apply (key_unique pr_rule_id (policy_rules s)); [apply Hok|done..|]. bool_to_prop. congruence.
    - rewrite find_first_None in E. specialize (E r). rewrite Hid Hen String.eqb_refl in E.
      discriminate E. by apply elem_of_owned. }
  rewrite /legacy_update Hfind Hty Hm !bool_decide_true //=. eauto.
Qed.

(** A second call finds nothing to do. *)
Lemma ensure_updates_done now now' s :
  store_ok s →
  ensure_updates owner now' (s <| policy_rules ::= put_rules (ensure_updates owner now s) |>) = [].
Proof.
  intros Hok. set (us := ensure_updates owner now s). set (s' := s <| policy_rules ::= _ |>).
  assert (policy_rules s' = put_rules us (policy_rules s)) as Hs' by done.
  assert (NoDup (pr_rule_id <$> policy_rules s')) as Hnd by (rewrite Hs'; apply put_rules_NoDup, Hok).
  rewrite {1}/ensure_updates. apply app_nil. split.
  - apply elem_of_nil_inv. intros u (r & E & [Hr Hown]%elem_of_owned & Hid & Hty & Hm & _)%legacy_update_elem.
    pose proof (find_first_Some _ _ _ E) as [[_ Hen]%andb_prop _]. rewrite Hs' in Hr.
    pose proof (put_rules_elem _ _ _ Hr) as [Hold|(d & Hd & Hc)].
    + destruct (legacy_update_single s now r) as (w & Hw & Hwen & Hwid); [done..|].
      destruct (put_rules_new us (policy_rules s) w) as (r2 & Hr2 & Hc).
      { apply ensure_updates_NoDup. }
      { apply elem_of_app. left. rewrite Hw. by left. }
      assert (r2 = r) as ->.
      { apply (key_unique pr_rule_id (policy_rules s')); [done|by rewrite Hs'..|].
        by rewrite (content_id _ _ Hc) Hwid. }
      by rewrite (f_equal pr_enabled Hc : pr_enabled r = pr_enabled w) Hwen in Hen.
    + rewrite (f_equal pr_enabled Hc : pr_enabled r = pr_enabled d) in Hen.
      apply elem_of_app in Hd as [(x & _ & _ & _ & _ & _ & ->)%legacy_update_elem|Hd]; [done|].
      apply elem_of_missing in Hd as [Hd _]. destruct (default_fields now d Hd) as [_ []].
      by rewrite -(content_id _ _ Hc).
  - apply elem_of_nil_inv. intros d [Hd Hn]%elem_of_missing.
    destruct (ensured_default now s (d <| pr_created_at := now |> <| pr_updated_at := now |>))
      as (r & Hr & Hown & Hid & _).
    + rewrite /default_policy_rules in Hd |- *. 
      repeat (apply elem_of_cons in Hd as [->|Hd]; [set_solver|]). by apply elem_of_nil in Hd.
    + apply Hn. cbn in Hid. rewrite -Hid. apply list_elem_of_fmap_2. by apply elem_of_owned.
Qed.
End ensured.

(** After [ensure_default_policy_rules] each of the five default rules of
    the owner is in the store, the owner's own rules (the legacy one apart) are
    untouched, nothing but the rules has changed, and a second call, at whatever
    time, changes nothing. *)
Theorem ensure_defaults_spec owner now s :
  store_ok s →
  ∃ t, let s' := s <| policy_rules := t |> in
  ensure_default_policy_rules owner now s = (inr (list_policy_rules s' (Some owner)), s')
  ∧ (∀ d, d ∈ default_policy_rules owner now →
       ∃ r, r ∈ list_policy_rules s' (Some owner) ∧ pr_rule_id r = pr_rule_id d)
  ∧ (∀ r, r ∈ policy_rules s → pr_owner_public_id r = Some owner →
       pr_rule_id r ≠ legacy_rule_id owner → r ∈ t)
  ∧ (∀ later, ensure_default_policy_rules owner later s' =
              (inr (list_policy_rules s' (Some owner)), s')).
Proof.
  intros Hok. exists (put_rules (ensure_updates owner now s) (policy_rules s)). intros s'.
  split_and!.
  - apply ensure_run.
  - intros d Hd. destruct (ensured_default owner now s d Hd) as (r & Hr & Hown & Hid & _).
    exists r. split; [|done]. by apply elem_of_owned.
  - intros r Hr Hown Hne. apply put_rules_keep; [done|].
    rewrite /ensure_updates fmap_app elem_of_app. intros [Hin|Hin].
    + apply list_elem_of_fmap in Hin as (u & Hu & (x & _ & _ & Hx & _ & _ & ->)%legacy_update_elem).
      by rewrite Hu in Hne.
    + apply list_elem_of_fmap in Hin as (u & Hu & [_ []]%elem_of_missing). rewrite -Hu.
      apply list_elem_of_fmap_2. by apply elem_of_owned.
  - intros later. rewrite ensure_run. rewrite (ensure_updates_done owner now later s Hok).
    by rewrite set_rules_id.
Qed.

(** ** Decisions under the default rules *)

(** The owner is subject to the default rules only (none of them need be there
    yet). *)
Definition standard_rules (owner : string) (s : SocialStore) : Prop :=
  ∀ r, r ∈ policy_rules s → visible owner r = true →
       content r ∈ default_policy_rules owner 0.

Lemma visible_own owner r : pr_owner_public_id r = Some owner → visible owner r = true.
Proof. intros H. apply orb_true_iff. right. by apply bool_decide_eq_true. Qed.

(** The rules after the call are the default rules. *)
Lemma ensured_standard owner now s r :
  standard_rules owner s →
  r ∈ rules_for_owner (list_policy_rules (s <| policy_rules ::=
        put_rules (ensure_updates owner now s) |>) None) owner →
  content r ∈ default_policy_rules owner 0.
Proof.
  rewrite /rules_for_owner /list_policy_rules elem_of_filterb elem_of_order_by. intros Hstd [Hr Hv].
  apply put_rules_elem in Hr as [Hr|(d & Hd & ->)]; [by apply Hstd|].
  apply elem_of_app in Hd as [Hd|[Hd _]%elem_of_missing].
  - apply legacy_update_elem in Hd as (x & _ & [Hx Hown]%elem_of_owned & _ & Hty & _).
    assert (content x ∈ default_policy_rules owner 0) as Hx'
      by (apply Hstd; [done|]; by apply visible_own).
    apply (list_elem_of_fmap_2 pr_rule_type) in Hx'. cbn in Hx'. rewrite Hty in Hx'. set_solver.
  - rewrite -(default_content owner now). by apply list_elem_of_fmap_2.
Qed.

Lemma default_by_id owner d d' :
  d ∈ default_policy_rules owner 0 → d' ∈ default_policy_rules owner 0 →
  pr_rule_id d = pr_rule_id d' → d = d'.
Proof. intros. by eapply (key_unique pr_rule_id); [apply default_ids_NoDup|..]. Qed.

Lemma ensured_all owner now s d :
  standard_rules owner s → d ∈ default_policy_rules owner 0 →
  ∃ r, r ∈ rules_for_owner (list_policy_rules (s <| policy_rules ::=
             put_rules (ensure_updates owner now s) |>) None) owner ∧ content r = d.
Proof.
  intros Hstd Hd.
  assert (∃ d', d' ∈ default_policy_rules owner now ∧ content d' = d) as (d' & Hd' & <-).
  { rewrite -(default_content owner now) in Hd. apply list_elem_of_fmap in Hd as (x & -> & ?). eauto. }
  destruct (ensured_default owner now s d' Hd') as (r & Hr & Hown & Hid & Hor).
  assert (r ∈ rules_for_owner (list_policy_rules (s <| policy_rules ::=
             put_rules (ensure_updates owner now s) |>) None) owner) as Hin.
  { rewrite /rules_for_owner /list_policy_rules elem_of_filterb elem_of_order_by. split; [done|].
    by apply visible_own. }
  exists r. split; [done|]. apply (default_by_id owner); [by eapply ensured_standard|done|done].
Qed.

Definition applies (cx : PolicyEvaluationContext) (r : PolicyRule) : bool :=
  pr_enabled r && rule_applies_to_scope r (cx_scope cx) && matcher_matches (pr_matcher_json r) cx.

(** The evaluation of a rule set that consists of the default rules. *)
Definition verdict (owner : string) (cx : PolicyEvaluationContext) (d : option PolicyRule)
    : PolicyEvaluation :=
  match d with
  | Some r => mkPolicyEvaluation (decision_for_rule_type (pr_rule_type r)) (Some (pr_rule_id r))
                (default (default_reason_for_rule_type (pr_rule_type r))
                   (get_str "reason" (pr_config_json r))) (context_to_json cx)
  | None => mkPolicyEvaluation Allow None "no_matching_rule" (context_to_json cx)
  end.

Lemma evaluate_by_content owner rules cx d :
  (∀ r, r ∈ rules → content r ∈ default_policy_rules owner 0) →
  (∀ d, d ∈ default_policy_rules owner 0 → ∃ r, r ∈ rules ∧ content r = d) →
  d ∈ default_policy_rules owner 0 → applies cx d = true →
  (∀ d', d' ∈ default_policy_rules owner 0 → applies cx d' = true → d' ≠ d →
         pr_priority d < pr_priority d') →
  evaluate rules cx = verdict owner cx (Some d).
Proof.
  intros Hin Hall Hd Hap Hmin. destruct (Hall d Hd) as (rd & Hrd & Hcd).
  assert (∀ r, r ∈ rules → applies cx (content r) = true → applicable rules cx r) as Happ.
  { intros r Hr H. rewrite /applies in H. bool_to_prop. by repeat split. }
  assert (applicable rules cx rd) as Hard by (apply Happ; [done|by rewrite Hcd]).
  destruct (evaluate_selects rules cx) as [[_ Hno]|(r & (Hr & He & Hs & Hm) & Hfirst & ->)].
  { by destruct (Hno rd). }
  destruct (decide (content r = d)) as [<-|Hne]; [done|].
  assert (pr_priority d < pr_priority (content r)).
  { apply Hmin; [by apply Hin| |done]. rewrite /applies. apply andb_true_iff.
    split; [by apply andb_true_iff|done]. }
  destruct (Hfirst rd Hard) as [?|[? _]];
    rewrite (f_equal pr_priority Hcd : pr_priority rd = pr_priority d) in H0; cbn in H; lia.
Qed.

Lemma evaluate_by_content_none owner rules cx :
  (∀ r, r ∈ rules → content r ∈ default_policy_rules owner 0) →
  Forall (λ d, applies cx d = false) (default_policy_rules owner 0) →
  evaluate rules cx = verdict owner cx None.
Proof.
  intros Hin Hno. destruct (evaluate_selects rules cx) as [[-> _]|(r & (Hr & He & Hs & Hm) & _)].
  { done. }
  rewrite Forall_forall in Hno. specialize (Hno _ (Hin r Hr)). exfalso. revert Hno.
  change (applies cx (content r)) with (applies cx r). by rewrite /applies He Hs Hm.
Qed.

(** The rule that decides, from what is known of the target. *)
Definition dm_rule (owner : string) (blocked friends : bool) : option PolicyRule :=
  let ds := default_policy_rules owner 0 in
  if blocked then ds !! 3%nat else if friends then ds !! 2%nat else ds !! 4%nat.
Definition request_rule (owner : string) (blocked friends : bool) : option PolicyRule :=
  let ds := default_policy_rules owner 0 in
  if blocked then ds !! 0%nat else if friends then ds !! 1%nat else None.

#[local] Ltac default_verdict :=
  eapply evaluate_by_content; [done|done| |done|];
  [by rewrite /default_policy_rules; repeat (apply elem_of_cons; (by left) || right)|];
  let d := fresh "d" in let Hd := fresh "Hd" in
  intros d Hd; rewrite /default_policy_rules in Hd;
  repeat (apply elem_of_cons in Hd as [->|Hd]; [cbn; done || lia|]); by apply elem_of_nil in Hd.

Lemma evaluate_default_dm owner rules target node blocked friends :
  (∀ r, r ∈ rules → content r ∈ default_policy_rules owner 0) →
  (∀ d, d ∈ default_policy_rules owner 0 → ∃ r, r ∈ rules ∧ content r = d) →
  let cx := mkPolicyEvaluationContext DirectMessagesOutbound owner target node blocked friends false in
  evaluate rules cx = verdict owner cx (dm_rule owner blocked friends).
Proof.
  intros Hin Hall cx. rewrite /cx /dm_rule.
  destruct blocked; [default_verdict|]. destruct friends; default_verdict.
Qed.

Lemma evaluate_default_request owner rules target node blocked friends pending :
  (∀ r, r ∈ rules → content r ∈ default_policy_rules owner 0) →
  (∀ d, d ∈ default_policy_rules owner 0 → ∃ r, r ∈ rules ∧ content r = d) →
  let cx := mkPolicyEvaluationContext FriendRequestsOutbound owner target node blocked friends
              pending in
  evaluate rules cx = verdict owner cx (request_rule owner blocked friends).
Proof.
  intros Hin Hall cx. rewrite /cx /request_rule.
  destruct blocked; [default_verdict|]. destruct friends; [default_verdict|].
  apply (evaluate_by_content_none owner); [done|]. by repeat constructor.
Qed.

(** What follows the bootstrap of the rules: it reads the rest of the store and
    logs the decision. *)
Definition logged (owner : string) (scope : PolicyScope) (target : string) (node : option string)
    (e : PolicyEvaluation) (now : Z) (s : SocialStore) : (SocialError + PolicyEvaluation) * SocialStore :=
  if bool_decide (decision_id owner target e now ∈ pl_decision_id <$> policy_decision_logs s)
  then (inl (Storage "append policy decision log"), s)
  else (inr e, s <| policy_decision_logs ::= λ l, l ++
          [mkPolicyDecisionLog (decision_id owner target e now) owner scope target node
             (pe_matched_rule_id e) (pe_decision e) (pe_reason e) (pe_context_json e) now] |>).

Lemma dm_policy_run owner target node now s :
  let s1 := s <| policy_rules ::= put_rules (ensure_updates owner now s) |> in
  evaluate_outbound_dm_policy owner target node now s =
  logged owner DirectMessagesOutbound target node
    (evaluate (rules_for_owner (list_policy_rules s1 None) owner)
       (mkPolicyEvaluationContext DirectMessagesOutbound owner target node
          (has_block s owner target) (has_active_friendship s owner target) false)) now s1.
Proof.
  intros s1. rewrite /evaluate_outbound_dm_policy. rewrite {1}/mbind {1}/social_bind ensure_run.
  rewrite -/s1 /logged /append_decision_log /append_policy_decision_log.
  cbv [mbind social_bind reads mret social_ret]. cbn [pl_decision_id].
  change (policy_decision_logs s1) with (policy_decision_logs s).
  change (has_block s1) with (has_block s).
  change (has_active_friendship s1) with (has_active_friendship s).
  by case_bool_decide.
Qed.

Lemma request_policy_run owner target node now s :
  let s1 := s <| policy_rules ::= put_rules (ensure_updates owner now s) |> in
  evaluate_outbound_friend_request_policy owner target node now s =
  logged owner FriendRequestsOutbound target node
    (evaluate (rules_for_owner (list_policy_rules s1 None) owner)
       (mkPolicyEvaluationContext FriendRequestsOutbound owner target node
          (has_block s owner target) (has_active_friendship s owner target)
          (has_pending_request s owner target))) now s1.
Proof.
  intros s1. rewrite /evaluate_outbound_friend_request_policy.
  rewrite {1}/mbind {1}/social_bind ensure_run.
  rewrite -/s1 /logged /append_decision_log /append_policy_decision_log.
  cbv [mbind social_bind reads mret social_ret]. cbn [pl_decision_id].
  change (policy_decision_logs s1) with (policy_decision_logs s).
  change (has_block s1) with (has_block s).
  change (has_active_friendship s1) with (has_active_friendship s).
  change (has_pending_request s1) with (has_pending_request s).
  by case_bool_decide.
Qed.

(** An owner with the default rules may send a direct message exactly to
    those he has an active friendship with and has not blocked. The call returns
    that decision with the rule and the reason behind it and logs it, unless
    the log already holds an entry of the same identifier, which is an error. *)
Theorem dm_policy_spec owner target node now s :
  standard_rules owner s →
  let blocked := has_block s owner target in
  let friends := has_active_friendship s owner target in
  let e := verdict owner (mkPolicyEvaluationContext DirectMessagesOutbound owner target node
                            blocked friends false) (dm_rule owner blocked friends) in
  (∃ t, evaluate_outbound_dm_policy owner target node now s =
        logged owner DirectMessagesOutbound target node e now (s <| policy_rules := t |>))
  ∧ (pe_decision e = Allow ↔ blocked = false ∧ friends = true).
Proof.
  intros Hstd blocked friends e. split.
  - eexists. rewrite dm_policy_run. f_equal. apply evaluate_default_dm.
    + intros r Hr. by eapply ensured_standard.
    + intros d Hd. by eapply ensured_all.
  - rewrite /e. destruct blocked, friends; cbn; split; try done; by intros [].
Qed.

(** An owner with the default rules may send a friend request to everyone he
    has neither blocked nor an active friendship with; a pending request does not
    stand in the way. *)
Theorem request_policy_spec owner target node now s :
  standard_rules owner s →
  let blocked := has_block s owner target in
  let friends := has_active_friendship s owner target in
  let e := verdict owner (mkPolicyEvaluationContext FriendRequestsOutbound owner target node
                            blocked friends (has_pending_request s owner target))
             (request_rule owner blocked friends) in
  (∃ t, evaluate_outbound_friend_request_policy owner target node now s =
        logged owner FriendRequestsOutbound target node e now (s <| policy_rules := t |>))
  ∧ (pe_decision e = Allow ↔ blocked = false ∧ friends = false).
Proof.
  intros Hstd blocked friends e. split.
  - eexists. rewrite request_policy_run. f_equal. apply evaluate_default_request.
    + intros r Hr. by eapply ensured_standard.
    + intros d Hd. by eapply ensured_all.
  - rewrite /e. destruct blocked, friends; cbn; split; try done; by intros [].
Qed.

(** The identifier of a log entry is made of the decision and the time in
    seconds, and the entry is inserted without a conflict clause: a second
    evaluation of the same target that reaches the same decision within the
    second fails with a storage error. *)
Theorem repeated_decision_fails owner target node now s e s1 :
  store_ok s →
  evaluate_outbound_dm_policy owner target node now s = (inr e, s1) →
  evaluate_outbound_dm_policy owner target node now s1 =
  (inl (Storage "append policy decision log"), s1).
Proof.
  intros Hok Hrun. rewrite dm_policy_run in Hrun.
  set (s0 := s <| policy_rules ::= _ |>) in Hrun.
  rewrite /logged in Hrun. case_bool_decide; [done|]. injection Hrun as He Hs1.
  rewrite dm_policy_run.
  assert (s1 <| policy_rules ::= put_rules (ensure_updates owner now s1) |> = s1) as ->.
  { rewrite -Hs1. change (ensure_updates owner now _) with (ensure_updates owner now s0).
    rewrite /s0 (ensure_updates_done owner now now s Hok). by rewrite set_rules_id. }
  rewrite /logged bool_decide_true; [done|]. rewrite -Hs1. cbn. rewrite fmap_app elem_of_app.
  right. apply list_elem_of_singleton. done.
Qed.

Module PolicyScenario.
Definition friendship : Friendship :=
  mkFriendship "friendship:alice:bob" "alice" "bob" None FSActive (Some "req-1") None 1 1.
Definition block : SocialBlock := mkSocialBlock "block:alice:carol" "alice" "carol" None None 2 2.
Definition store : SocialStore := upsert_block block (upsert_friendship friendship open_in_memory).

Lemma store_fine : store_ok store.
Proof. split; apply (bool_decide_eq_true_1 _); vm_compute; reflexivity. Qed.

Lemma store_standard owner : standard_rules owner store.
Proof. by intros r ?%elem_of_nil. Qed.

Lemma ensure_defaults_spec_witness :
  store_ok store ∧
  ∀ later, ∃ t, ensure_default_policy_rules "alice" later (store <| policy_rules := t |>) =
    (inr (list_policy_rules (store <| policy_rules := t |>) (Some "alice")),
     store <| policy_rules := t |>).
Proof.
  split; [apply store_fine|]. intros later.
  destruct (ensure_defaults_spec "alice" 10 store store_fine) as (t & _ & _ & _ & H).
  exists t. apply (H later).
Defined.

Lemma dm_policy_spec_witness :
  standard_rules "alice" store
  ∧ ∃ e s1, evaluate_outbound_dm_policy "alice" "bob" None 10 store = (inr e, s1)
            ∧ pe_decision e = Allow ∧ pe_reason e = "active_friendship".
Proof.
  split; [apply store_standard|].
  destruct (dm_policy_spec "alice" "bob" None 10 store (store_standard "alice")) as [[t ->] _].
  rewrite /logged bool_decide_false; [|apply not_elem_of_nil]. by eexists _, _.
Defined.

Lemma request_policy_spec_witness :
  standard_rules "alice" store
  ∧ ∃ e s1, evaluate_outbound_friend_request_policy "alice" "carol" None 10 store = (inr e, s1)
            ∧ pe_decision e = Deny ∧ pe_reason e = "blocked_agent".
Proof.
  split; [apply store_standard|].
  destruct (request_policy_spec "alice" "carol" None 10 store (store_standard "alice"))
    as [[t ->] _].
  rewrite /logged bool_decide_false; [|apply not_elem_of_nil]. by eexists _, _.
Defined.

Lemma repeated_decision_fails_witness :
  ∃ e s1, evaluate_outbound_dm_policy "alice" "bob" None 10 store = (inr e, s1)
    ∧ evaluate_outbound_dm_policy "alice" "bob" None 10 s1 =
      (inl (Storage "append policy decision log"), s1).
Proof.
  destruct (evaluate_outbound_dm_policy "alice" "bob" None 10 store) as [[err|e] s1] eqn:E.
  { vm_compute in E. discriminate E. }
  exists e, s1. split; [done|].
  apply (repeated_decision_fails "alice" "bob" None 10 store e s1 store_fine E).
Defined.
End PolicyScenario.
