(* ===== verification/SocialRequests.v ===== *)
(** * Social: friend requests

    [application/friend_request_service.rs]. The service is written against the
    repository traits; here they are the class [FriendRequestRepository], the
    laws a repository owes the service are [FriendRequestLaws], and the SQLite
    store discharges them. *)

From S2P Require Import Prelude Collections Text Json Sql SocialDomain SocialStore.
#[local] Open Scope Z_scope.
#[local] Set Default Proof Using "Type*".

(** ** The repository *)

Class FriendRequestRepository (S : Type) := {
  repo_upsert_friend_request : FriendRequest → S → S;
  repo_list_friend_requests : S → string → list FriendRequest;
  repo_clear_reliability_task : string → string → S → S;
}.

(** What the service relies on: a well-formed repository is a map from request
    identifiers to requests, of which an upsert replaces one (keeping the time
    of creation) and a listing shows those of one local identity. *)
Class FriendRequestLaws (S : Type) `{FriendRequestRepository S} := {
  repo_ok : S → Prop;
  repo_request : S → string → option FriendRequest;
  repo_has_task : S → string → string → Prop;
  law_id : ∀ s id r, repo_ok s → repo_request s id = Some r → fr_request_id r = id;
  law_list : ∀ s local r, repo_ok s →
    r ∈ repo_list_friend_requests s local ↔
    repo_request s (fr_request_id r) = Some r ∧ fr_local_public_id r = local
    ∧ sql_nonblank (fr_request_id r) = true;
  law_upsert_ok : ∀ r s, repo_ok s → repo_ok (repo_upsert_friend_request r s);
  law_upsert : ∀ r s id, repo_ok s →
    repo_request (repo_upsert_friend_request r s) id =
    if decide (id = fr_request_id r)
    then Some (default r ((λ old, r <| fr_created_at := fr_created_at old |>) <$>
                            repo_request s id))
    else repo_request s id;
  law_upsert_tasks : ∀ r s k i,
    repo_has_task (repo_upsert_friend_request r s) k i ↔ repo_has_task s k i;
  law_clear_ok : ∀ k i s, repo_ok s → repo_ok (repo_clear_reliability_task k i s);
  law_clear : ∀ k i s id, repo_request (repo_clear_reliability_task k i s) id = repo_request s id;
  law_clear_tasks : ∀ k i s k' i',
    repo_has_task (repo_clear_reliability_task k i s) k' i' ↔
    repo_has_task s k' i' ∧ (k', i') ≠ (k, i);
}.

(** ** Merging *)

Definition FRIEND_REQUEST_OBJECT_KIND : string := "friend_request".

Record FriendRequestCounterpartRef := mkFriendRequestCounterpartRef {
  cp_public_id : string;
  cp_remote_node_id : string;
  cp_target_agent : string;
}.

Record QueueFriendRequestDecisionInput := mkQueueFriendRequestDecisionInput {
  qi_local_public_id : string;
  qi_request_id : string;
  qi_remote_public_id : string;
  qi_remote_node_id : string;
  qi_decision_reason : string;
  qi_correlation_id : option string;
  qi_occurred_at : Z;
}.

Definition same_identity_pair (left right : FriendRequest) : bool :=
  String.eqb (fr_local_public_id left) (fr_local_public_id right)
  && String.eqb (fr_remote_public_id left) (fr_remote_public_id right).

Definition same_request_pair (left right : FriendRequest) : bool :=
  same_identity_pair left right && bool_decide (fr_direction left = fr_direction right).

Definition blocks_new_pending_request (state : FriendRequestState) : bool :=
  match state with FRDecisionPending | FRBlocked => true | _ => false end.

Definition merge_friend_request (existing incoming : FriendRequest) : FriendRequest :=
  mkFriendRequest (fr_request_id existing) (fr_local_public_id incoming)
    (fr_remote_public_id incoming)
    (or_else (fr_remote_node_id incoming) (fr_remote_node_id existing))
    (fr_direction incoming) (fr_state incoming)
    (or_else (fr_decision_reason incoming) (fr_decision_reason existing))
    (or_else (fr_correlation_id incoming) (fr_correlation_id existing))
    (Z.min (fr_created_at existing) (fr_created_at incoming))
    (Z.max (fr_updated_at existing) (fr_updated_at incoming))
    (or_else (fr_expires_at incoming) (fr_expires_at existing)).

Definition is_pending (r : FriendRequest) : bool := bool_decide (fr_state r = FRPending).
Definition has_id (id : string) (r : FriendRequest) : bool := String.eqb (fr_request_id r) id.

Definition coalesce_friend_request (existing_items : list FriendRequest) (request : FriendRequest)
    : option FriendRequest :=
  if is_pending request then
    if existsb (λ item, same_identity_pair item request
                        && blocks_new_pending_request (fr_state item)) existing_items
    then None
    else match find_first (λ item, has_id (fr_request_id request) item
                                   && same_request_pair item request && is_pending item)
                 existing_items with
         | Some existing => Some (merge_friend_request existing request)
         | None => Some request
         end
  else
    match find_first (has_id (fr_request_id request)) existing_items with
    | Some existing => Some (merge_friend_request existing request)
    | None =>
        match find_first (λ item, same_request_pair item request && is_pending item)
                existing_items with
        | Some existing => Some (merge_friend_request existing request)
        | None =>
            match find_first (λ item, same_request_pair item request && negb (is_pending item))
                    existing_items with
            | Some existing =>
                if bool_decide (fr_state existing = fr_state request)
                then Some (merge_friend_request existing request) else None
            | None => Some request
            end
        end
    end.

(** ** Listing without duplicates *)

Definition identity_pair_key (r : FriendRequest) : string * string :=
  (fr_local_public_id r, fr_remote_public_id r).
Definition request_pair_key (r : FriendRequest) : string * string * string :=
  (fr_local_public_id r, fr_remote_public_id r,
   match fr_direction r with FRInbound => "inbound" | FROutbound => "outbound" end).

(** The closure of [filter], with the set of pairs it has let through. *)
Fixpoint keep_requests (blocking : list (string * string)) (seen : list (string * string * string))
    (items : list FriendRequest) : list FriendRequest :=
  match items with
  | [] => []
  | item :: items' =>
      if negb (is_pending item) then item :: keep_requests blocking seen items'
      else if bool_decide (identity_pair_key item ∈ blocking)
              || bool_decide (request_pair_key item ∈ seen)
           then keep_requests blocking seen items'
           else item :: keep_requests blocking (request_pair_key item :: seen) items'
  end.

Definition dedupe_friend_requests (items : list FriendRequest) : list FriendRequest :=
  let blocking_pairs :=
    identity_pair_key <$> List.filter (λ i, blocks_new_pending_request (fr_state i)) items in
  keep_requests blocking_pairs []
    (order_by [desc_Z fr_updated_at; desc_Z fr_created_at; asc_str fr_request_id] items).

(** ** Matching a counterpart *)

Definition counterpart_match_keys (c : FriendRequestCounterpartRef) : gset string :=
  list_to_set (List.filter (λ v, negb (String.eqb v ""))
                 (trim <$> [cp_public_id c; cp_remote_node_id c; cp_target_agent c])).

Definition request_matches_counterpart (r : FriendRequest) (keys : gset string) : bool :=
  bool_decide (trim (fr_remote_public_id r) ∈ keys)
  || is_some_and (λ node, bool_decide (trim node ∈ keys)) (fr_remote_node_id r).

(** Seconds and milliseconds are told apart by their magnitude. *)
Definition i64_saturating (z : Z) : Z := clamp i64_min i64_max z.
Definition as_millis (timestamp : Z) : Z :=
  if 10000000000 <? timestamp then timestamp else i64_saturating (timestamp * 1000).
Definition accepted_at (occurred_at : Z) : Z :=
  if 10000000000 <? occurred_at then occurred_at
  else i64_saturating (as_millis occurred_at + 999).

(** The [Debug] form of a state. *)
Definition request_state_debug (s : FriendRequestState) : string :=
  match s with
  | FRPending => "Pending" | FRDecisionPending => "DecisionPending" | FRAccepted => "Accepted"
  | FRRejected => "Rejected" | FRBlocked => "Blocked" | FRCancelled => "Cancelled"
  | FRExpired => "Expired"
  end.

Definition superseded (r : FriendRequest) : bool :=
  bool_decide (fr_state r = FRCancelled)
  && bool_decide (fr_decision_reason r = Some "superseded_by_new_request").
Definition is_open (r : FriendRequest) : bool :=
  match fr_state r with FRPending | FRDecisionPending => true | _ => false end.

(** ** Operations *)

Section service.
Context {S : Type} `{FriendRequestRepository S}.

Definition validate_friend_request (r : FriendRequest) : social S unit :=
  invalid_when (is_blank (fr_request_id r)) "request_id is required";;
  invalid_when (is_blank (fr_local_public_id r)) "local_public_id is required";;
  invalid_when (is_blank (fr_remote_public_id r)) "remote_public_id is required";;
  invalid_when (fr_updated_at r <? fr_created_at r) "updated_at must be >= created_at";;
  invalid_when (negb (is_pending r) && bool_decide (fr_decision_reason r = None))
    "decision_reason is required for non-pending requests".

Definition supersede (request existing_pending : FriendRequest) : FriendRequest :=
  existing_pending <| fr_state := FRCancelled |>
    <| fr_decision_reason := Some "superseded_by_new_request" |>
    <| fr_updated_at := Z.max (fr_updated_at existing_pending) (fr_updated_at request) |>.

(** The last part of [upsert_friend_request], once the transition is found valid. *)
Definition store_request (existing_items : list FriendRequest) (request : FriendRequest)
    : social S unit :=
  match coalesce_friend_request existing_items request with
  | None => mret tt
  | Some coalesced =>
      (if is_pending request then
         for_each (λ existing_pending,
           writes (repo_upsert_friend_request (supersede request existing_pending)))
           (List.filter (λ item, negb (has_id (fr_request_id request) item)
                                 && same_request_pair item request && is_pending item)
              existing_items)
       else mret tt);;
      writes (repo_upsert_friend_request coalesced)
  end.

Definition upsert_friend_request (request : FriendRequest) : social S unit :=
  validate_friend_request request;;
  existing_items ← reads (λ s, repo_list_friend_requests s (fr_local_public_id request));
  match find_first (has_id (fr_request_id request)) existing_items with
  | Some existing =>
      if negb (request_can_transition (fr_state existing) (fr_state request)) then
        if is_pending request then mret tt
        else raise (Conflict ("invalid friend request transition: "
               +:+ request_state_debug (fr_state existing) +:+ " -> "
               +:+ request_state_debug (fr_state request)))
      else store_request existing_items request
  | None => store_request existing_items request
  end.

Definition list_friend_requests (local : string) : social S (list FriendRequest) :=
  invalid_when (is_blank local) "local_public_id is required";;
  items ← reads (λ s, repo_list_friend_requests s local);
  mret (dedupe_friend_requests items).

Definition queue_friend_request_decision (input : QueueFriendRequestDecisionInput)
    : social S unit :=
  items ← list_friend_requests (qi_local_public_id input);
  let existing := find_first (has_id (qi_request_id input)) items in
  if is_some_and (λ r, negb (is_open r)) existing then mret tt
  else upsert_friend_request
    (mkFriendRequest (qi_request_id input) (qi_local_public_id input) (qi_remote_public_id input)
       (Some (qi_remote_node_id input)) FRInbound FRDecisionPending
       (Some (qi_decision_reason input))
       (or_else (qi_correlation_id input) (existing ≫= fr_correlation_id))
       match existing with
       | Some r => Z.min (fr_created_at r) (qi_occurred_at input)
       | None => qi_occurred_at input
       end
       (qi_occurred_at input) (existing ≫= fr_expires_at)).

Definition clear_friend_request_retry (request_id : string) : social S unit :=
  writes (repo_clear_reliability_task FRIEND_REQUEST_OBJECT_KIND request_id).

Definition accept_request (occurred_at : Z) (r : FriendRequest) : FriendRequest :=
  r <| fr_state := FRAccepted |> <| fr_decision_reason := Some "accepted" |>
    <| fr_updated_at := Z.max (fr_updated_at r) occurred_at |>.

(** The body of the loop of [accept_related_friend_requests]. *)
Definition accept_one (keys : gset string) (t : Z) (request : FriendRequest) : social S unit :=
  if negb (request_matches_counterpart request keys)
     || (accepted_at t <? as_millis (fr_created_at request))
  then mret tt
  else
    (if is_open request || superseded request
     then writes (repo_upsert_friend_request (accept_request t request))
     else mret tt);;
    (if is_open request || bool_decide (fr_state request = FRAccepted) || superseded request
     then clear_friend_request_retry (fr_request_id request)
     else mret tt).

Definition accept_related_friend_requests (local : string)
    (counterpart : FriendRequestCounterpartRef) (occurred_at : Z) : social S unit :=
  let keys := counterpart_match_keys counterpart in
  requests ← reads (λ s, repo_list_friend_requests s local);
  for_each (accept_one keys occurred_at) requests.

Definition settle_related_outbound_friend_requests (local : string)
    (counterpart : FriendRequestCounterpartRef) (state : FriendRequestState)
    (decision_reason : string) (occurred_at : Z) : social S unit :=
  let keys := counterpart_match_keys counterpart in
  requests ← list_friend_requests local;
  for_each (λ request,
    if negb (bool_decide (fr_direction request = FROutbound)) || negb (is_pending request)
       || negb (request_matches_counterpart request keys)
    then mret tt
    else
      upsert_friend_request
        (request <| fr_state := state |> <| fr_decision_reason := Some decision_reason |>
           <| fr_updated_at := Z.max (fr_updated_at request) occurred_at |>);;
      clear_friend_request_retry (fr_request_id request)) requests.
End service.

(** ** Text that is not blank *)

Lemma sql_nonblank_trim s : is_blank s = false → sql_nonblank s = true.
Proof.
  intros Hb. apply not_false_is_true. intros Hn. revert Hb. rewrite /is_blank.
  assert (∀ c, c ∈ to_bytes s → c = " "%char) as Hsp.
  { intros c Hc. destruct (Ascii.eqb c " "%char) eqn:E; [by apply Ascii.eqb_eq in E|].
    rewrite /sql_nonblank in Hn. apply not_true_iff_false in Hn as [].
    apply existsb_elem_of. exists c. by rewrite E. }
  assert (trim_front ws_encodings (to_bytes s) = []) as E.
  { destruct (trim_front_suffix ws_encodings ws_encodings_ne (to_bytes s)) as [q Hq].
    destruct (trim_front ws_encodings (to_bytes s)) as [|c l] eqn:E; [done|].
    pose proof (trim_front_clean ws_encodings ws_encodings_ne (to_bytes s)) as Hc.
    assert (c = " "%char) as -> by (apply Hsp; rewrite Hq; apply elem_of_app; right; by left).
    rewrite E in Hc. by vm_compute in Hc. }
  rewrite /trim /trim_bytes E. by vm_compute.
Qed.

(** ** Life cycle *)

(** The transitions of the state machine, and the one an acceptance adds: a
    request that was superseded counts as accepted with its successor. *)
Definition lifecycle (a b : FriendRequestState) : bool :=
  request_can_transition a b
  || bool_decide (a = FRCancelled) && bool_decide (b = FRAccepted).

Lemma lifecycle_refl a : lifecycle a a = true.
Proof. by destruct a. Qed.
Lemma lifecycle_trans a b c :
  lifecycle a b = true → lifecycle b c = true → lifecycle a c = true.
Proof. by destruct a, b, c. Qed.

Section laws.
Context {S : Type} {Repo : FriendRequestRepository S} {Laws : FriendRequestLaws S}.
Implicit Types (s : S) (r : FriendRequest).

Definition evolves (s s' : S) : Prop :=
  repo_ok s' ∧
  ∀ id r, repo_request s id = Some r →
  ∃ r', repo_request s' id = Some r' ∧ lifecycle (fr_state r) (fr_state r') = true
        ∧ fr_local_public_id r' = fr_local_public_id r.

Lemma evolves_refl s : repo_ok s → evolves s s.
Proof. intros Hs. split; [done|]. intros id r ->. eauto using lifecycle_refl. Qed.

Lemma evolves_trans s1 s2 s3 : evolves s1 s2 → evolves s2 s3 → evolves s1 s3.
Proof.
  intros [_ H12] [Hok H23]. split; [done|]. intros id r Hr.
  destruct (H12 id r Hr) as (r2 & H2 & L12 & <-). destruct (H23 id r2 H2) as (r3 & H3 & L23 & <-).
  eauto using lifecycle_trans.
Qed.

Lemma upsert_state s r id :
  repo_ok s → id = fr_request_id r →
  ∃ r', repo_request (repo_upsert_friend_request r s) id = Some r' ∧ fr_state r' = fr_state r
        ∧ fr_local_public_id r' = fr_local_public_id r.
Proof.
  intros Hs ->. rewrite law_upsert // decide_True //. destruct (repo_request s _); by eexists.
Qed.

Lemma evolves_upsert s r :
  repo_ok s →
  (∀ old, repo_request s (fr_request_id r) = Some old →
          lifecycle (fr_state old) (fr_state r) = true
          ∧ fr_local_public_id r = fr_local_public_id old) →
  evolves s (repo_upsert_friend_request r s).
Proof.
  intros Hs Hold. split; [by apply law_upsert_ok|]. intros id r0 Hr0.
  destruct (decide (id = fr_request_id r)) as [->|Hne].
  - destruct (upsert_state s r (fr_request_id r) Hs eq_refl) as (r' & Hr' & Hst & Hl).
    exists r'. split; [done|]. rewrite Hst Hl. by apply Hold.
  - exists r0. rewrite law_upsert // decide_False //. by rewrite lifecycle_refl.
Qed.

Lemma evolves_clear s k i : repo_ok s → evolves s (repo_clear_reliability_task k i s).
Proof.
  intros Hs. split; [by apply law_clear_ok|]. intros id r. rewrite law_clear. intros ->.
  eauto using lifecycle_refl.
Qed.

(** A request of the listing is the one stored under its identifier. *)
Lemma listed s local r :
  repo_ok s → r ∈ repo_list_friend_requests s local →
  repo_request s (fr_request_id r) = Some r ∧ fr_local_public_id r = local.
Proof. intros Hs. rewrite law_list //. tauto. Qed.

(** *** Coalescing *)

Lemma coalesce_fields items r c :
  coalesce_friend_request items r = Some c →
  fr_state c = fr_state r ∧ fr_local_public_id c = fr_local_public_id r
  ∧ (is_pending r = true → fr_request_id c = fr_request_id r)
  ∧ (fr_request_id c = fr_request_id r ∨ ∃ e, e ∈ items ∧ fr_request_id c = fr_request_id e).
Proof.
  rewrite /coalesce_friend_request. destruct (is_pending r) eqn:Hp.
  - case_match; [done|]. destruct (find_first _ _) as [e|] eqn:E; intros [= <-]; [|by eauto].
    apply find_first_Some in E as [[[Hid%String.eqb_eq _]%andb_prop _]%andb_prop _]. cbn. eauto.
  - destruct (find_first (has_id _) _) as [e|] eqn:E1.
    { apply find_first_Some in E1 as [_ Hin]. intros [= <-]. cbn. split_and!; eauto; done. }
    destruct (find_first (λ item, same_request_pair item r && is_pending item) items)
      as [e|] eqn:E2.
    { apply find_first_Some in E2 as [_ Hin]. intros [= <-]. cbn. split_and!; eauto; done. }
    destruct (find_first (λ item, same_request_pair item r && negb (is_pending item)) items)
      as [e|] eqn:E3; [|intros [= <-]; split_and!; eauto; done].
    apply find_first_Some in E3 as [_ Hin]. case_bool_decide; [|done]. intros [= <-].
    cbn. split_and!; eauto; done.
Qed.

(** The stored request a coalesced one replaces may move to its state. *)
Lemma coalesce_transition s r c old :
  repo_ok s →
  is_blank (fr_request_id r) = false →
  (∀ x, repo_request s (fr_request_id r) = Some x →
        fr_local_public_id x = fr_local_public_id r
        ∧ request_can_transition (fr_state x) (fr_state r) = true) →
  coalesce_friend_request (repo_list_friend_requests s (fr_local_public_id r)) r = Some c →
  repo_request s (fr_request_id c) = Some old →
  lifecycle (fr_state old) (fr_state c) = true
  ∧ fr_local_public_id c = fr_local_public_id old.
Proof.
  intros Hs Hb Hx Hc Hold.
  destruct (coalesce_fields _ _ _ Hc) as (-> & Hlc & Hpid & Hcid). split; cycle 1.
  { rewrite Hlc. destruct Hcid as [Hid|(e & He & Hid)].
    - rewrite Hid in Hold. by apply Hx in Hold as [-> _].
    - apply listed in He as [He Hle]; [|done]. rewrite Hid He in Hold. by injection Hold as <-. }
  rewrite /lifecycle. apply orb_true_iff. left.
  destruct (decide (fr_request_id c = fr_request_id r)) as [Hid|Hid].
  { rewrite Hid in Hold. by apply Hx in Hold as [_ ?]. }
  revert Hc. rewrite /coalesce_friend_request. destruct (is_pending r) eqn:Hp; [by rewrite Hpid in Hid|].
  destruct (find_first (has_id _) _) as [e|] eqn:E1.
  { apply find_first_Some in E1 as [He%String.eqb_eq _]. intros [= <-]. by cbn in Hid. }
  destruct (find_first (λ item, same_request_pair item r && is_pending item) _) as [e|] eqn:E2.
  { apply find_first_Some in E2 as [[_ Hpe]%andb_prop Hin]. intros [= <-]. cbn in Hold.
    apply listed in Hin as [Hin _]; [|done]. rewrite Hin in Hold. injection Hold as <-.
    rewrite /is_pending in Hpe. bool_to_prop. rewrite Hpe. by destruct (fr_state r). }
  destruct (find_first (λ item, same_request_pair item r && negb (is_pending item)) _)
    as [e|] eqn:E3; [|by intros [= <-]].
  apply find_first_Some in E3 as [_ Hin]. case_bool_decide as Hst; [|done]. intros [= <-].
  cbn in Hold. apply listed in Hin as [Hin _]; [|done]. rewrite Hin in Hold.
  injection Hold as <-. rewrite Hst. by destruct (fr_state r).
Qed.

(** *** Each operation follows the life cycle *)

Lemma validate_run r s :
  (∃ e, validate_friend_request r s = (inl (InvalidInput e), s))
  ∨ validate_friend_request r s = (inr tt, s) ∧ is_blank (fr_request_id r) = false.
Proof.
  rewrite /validate_friend_request. cbv [mbind social_bind invalid_when].
  repeat case_match; simplify_eq; eauto.
Qed.

(** The requests a new pending one supersedes become cancelled, the others stay. *)
Definition superseding (s : S) (r : FriendRequest) (s' : S) : Prop :=
  repo_ok s' ∧ ∀ id,
  repo_request s' id = repo_request s id
  ∨ ∃ x x', repo_request s id = Some x ∧ fr_state x = FRPending ∧ id ≠ fr_request_id r
            ∧ repo_request s' id = Some x' ∧ fr_state x' = FRCancelled
            ∧ fr_local_public_id x' = fr_local_public_id x.

Lemma supersede_loop s r items :
  repo_ok s →
  (∀ x, x ∈ items → repo_request s (fr_request_id x) = Some x ∧ fr_state x = FRPending
                    ∧ fr_request_id x ≠ fr_request_id r) →
  superseding s r (for_each (λ x, writes (repo_upsert_friend_request (supersede r x))) items s).2.
Proof.
  intros Hs Hitems. apply (for_each_inv (superseding s r)); [|split; eauto].
  intros x s1 Hx [Hok1 H1]. destruct (Hitems x Hx) as (Hst & Hp & Hne). cbn.
  split; [by apply law_upsert_ok|]. intros id.
  destruct (decide (id = fr_request_id x)) as [->|Hid].
  - right. destruct (upsert_state s1 (supersede r x) (fr_request_id x) Hok1 eq_refl)
      as (x' & Hx' & Hst' & Hl'). exists x, x'. done.
  - rewrite law_upsert // decide_False //.
Qed.

Lemma superseding_evolves s r s' : superseding s r s' → evolves s s'.
Proof.
  intros [Hok H]. split; [done|]. intros id x Hx.
  destruct (H id) as [->|(y & y' & Hy & Hp & _ & Hy' & Hc & Hl)]; [eauto using lifecycle_refl|].
  rewrite Hx in Hy. injection Hy as <-. exists y'. by rewrite Hp Hc Hl.
Qed.

(** The identifier of the request is free or belongs to the same local
    identity. *)
Definition own_id (s : S) (r : FriendRequest) : Prop :=
  ∀ x, repo_request s (fr_request_id r) = Some x → fr_local_public_id x = fr_local_public_id r.

Lemma find_listed s r x :
  repo_ok s → is_blank (fr_request_id r) = false → own_id s r →
  repo_request s (fr_request_id r) = Some x →
  find_first (has_id (fr_request_id r)) (repo_list_friend_requests s (fr_local_public_id r)) = Some x.
Proof.
  intros Hs Hb Hown Hx. pose proof (law_id _ _ _ Hs Hx) as Hid.
  destruct (find_first _ _) as [y|] eqn:E.
  - apply find_first_Some in E as [Hy%String.eqb_eq Hin]. apply listed in Hin as [Hin _]; [|done].
    rewrite Hy in Hin. congruence.
  - rewrite find_first_None in E. specialize (E x). rewrite /has_id Hid String.eqb_refl in E.
    discriminate E. apply law_list; [done|]. rewrite Hid. split_and!; [done|by apply Hown|].
    by apply sql_nonblank_trim.
Qed.

Lemma store_request_evolves s r :
  repo_ok s → own_id s r → is_blank (fr_request_id r) = false →
  (∀ x, repo_request s (fr_request_id r) = Some x →
        request_can_transition (fr_state x) (fr_state r) = true) →
  evolves s (store_request (repo_list_friend_requests s (fr_local_public_id r)) r s).2.
Proof.
  intros Hs Hown Hb Htr. rewrite /store_request. set (items := repo_list_friend_requests s _).
  destruct (coalesce_friend_request items r) as [c|] eqn:Hc; [|by apply evolves_refl].
  pose proof (coalesce_fields _ _ _ Hc) as (Hst & _ & Hpid & _).
  assert (∀ old, repo_request s (fr_request_id c) = Some old →
            lifecycle (fr_state old) (fr_state c) = true
            ∧ fr_local_public_id c = fr_local_public_id old) as Hold
    by (intros old; apply (coalesce_transition s r c old); eauto).
  destruct (is_pending r) eqn:Hp; [|by apply evolves_upsert].
  set (others := List.filter _ items). rewrite /mbind /social_bind.
  assert (superseding s r (for_each (λ x, writes (repo_upsert_friend_request (supersede r x)))
                             others s).2) as Hsup.
  { apply supersede_loop; [done|]. intros x [Hin Hx]%elem_of_filterb. rewrite /is_pending in Hx.
    bool_to_prop. apply listed in Hin as [Hin _]; [|done]. split_and!; [done..|].
    by apply String.eqb_neq. }
  destruct (for_each _ others s) as [[e|[]] s1] eqn:E; cbn [snd] in Hsup |- *.
  - by eapply superseding_evolves.
  - eapply evolves_trans; [by eapply superseding_evolves|].
    destruct Hsup as [Hok1 Hsame]. apply evolves_upsert; [done|]. rewrite (Hpid eq_refl).
    destruct (Hsame (fr_request_id r)) as [->|(x & _ & _ & _ & [] & _)]; [|done].
    by rewrite -(Hpid eq_refl).
Qed.

Lemma upsert_evolves s r : repo_ok s → own_id s r → evolves s (upsert_friend_request r s).2.
Proof.
  intros Hs Hown. rewrite /upsert_friend_request. rewrite {1}/mbind {1}/social_bind.
  destruct (validate_run r s) as [[e ->]|[-> Hb]]; [by apply evolves_refl|].
  rewrite {1}/mbind {1}/social_bind {1}/reads.
  destruct (find_first (has_id _) _) as [x|] eqn:E.
  - destruct (request_can_transition _ _) eqn:Htr; cbn [negb].
    + apply store_request_evolves; [done..|]. intros y Hy.
      rewrite (find_listed s r y) // in E. by injection E as ->.
    + destruct (is_pending r); by apply evolves_refl.
  - apply store_request_evolves; [done..|]. intros y Hy. by rewrite (find_listed s r y) // in E.
Qed.

(** *** The listing *)

Lemma keep_requests_sublist b seen items : keep_requests b seen items `sublist_of` items.
Proof.
  revert seen. induction items as [|x items IH]; intros seen; simpl; [done|].
  repeat case_match; by constructor.
Qed.

Lemma dedupe_elem items r : r ∈ dedupe_friend_requests items → r ∈ items.
Proof.
  intros Hr. eapply elem_of_sublist in Hr; [|apply keep_requests_sublist].
  by apply elem_of_order_by in Hr.
Qed.

Lemma list_run local s :
  list_friend_requests local s =
  if is_blank local then (inl (InvalidInput "local_public_id is required"), s)
  else (inr (dedupe_friend_requests (repo_list_friend_requests s local)), s).
Proof. rewrite /list_friend_requests /mbind /social_bind /invalid_when. by destruct (is_blank local). Qed.

Lemma queue_evolves s input :
  repo_ok s →
  (∀ x, repo_request s (qi_request_id input) = Some x →
        fr_local_public_id x = qi_local_public_id input) →
  evolves s (queue_friend_request_decision input s).2.
Proof.
  intros Hs Hown. rewrite /queue_friend_request_decision {1}/mbind /social_bind list_run.
  destruct (is_blank _); [by apply evolves_refl|].
  destruct (is_some_and _ _); [by apply evolves_refl|]. by apply upsert_evolves.
Qed.

Lemma settle_evolves s local c state reason t :
  repo_ok s → evolves s (settle_related_outbound_friend_requests local c state reason t s).2.
Proof.
  intros Hs. rewrite /settle_related_outbound_friend_requests {1}/mbind {1}/social_bind list_run.
  destruct (is_blank local); [by apply evolves_refl|].
  apply (for_each_inv (evolves s)); [|by apply evolves_refl]. intros x s1 Hx [Hok1 Hev].
  destruct (_ || _); [by split|].
  apply dedupe_elem, listed in Hx as [Hx Hl]; [|done].
  set (y := x <| fr_state := state |> <| fr_decision_reason := _ |> <| fr_updated_at := _ |>).
  assert (evolves s1 (upsert_friend_request y s1).2) as Hstep.
  { apply upsert_evolves; [done|]. intros z Hz. destruct (Hev _ _ Hx) as (z' & Hz' & _ & Hlz).
    change (fr_request_id y) with (fr_request_id x) in Hz. rewrite Hz in Hz'.
    injection Hz' as ->. by rewrite Hlz. }
  eapply evolves_trans; [by split|]. apply (bind_inv (evolves s1)); [done|].
  intros [] s2 _ H2. eapply evolves_trans; [done|]. apply evolves_clear, H2.
Qed.

(** *** Acceptance *)

Definition acceptable (r : FriendRequest) : bool := is_open r || superseded r.
Definition related (local : string) (keys : gset string) (t : Z) (r : FriendRequest) : bool :=
  String.eqb (fr_local_public_id r) local && sql_nonblank (fr_request_id r)
  && request_matches_counterpart r keys && (as_millis (fr_created_at r) <=? accepted_at t).
(** What an acceptance makes of a stored request. *)
Definition settled (local : string) (keys : gset string) (t : Z) (r : FriendRequest)
    : FriendRequest :=
  if related local keys t r && acceptable r then accept_request t r else r.
Definition clears (local : string) (keys : gset string) (t : Z) (r : FriendRequest) : bool :=
  related local keys t r && (acceptable r || bool_decide (fr_state r = FRAccepted)).

(** Progress of the loop: the rows [done] are settled, the others untouched. *)
Definition accept_progress (local : string) (keys : gset string) (t : Z) (s : S)
    (done : list FriendRequest) (s1 : S) : Prop :=
  repo_ok s1
  ∧ (∀ id, repo_request s1 id =
           (λ r, if bool_decide (id ∈ fr_request_id <$> done) then settled local keys t r else r)
             <$> repo_request s id)
  ∧ (∀ k i, repo_has_task s1 k i ↔
            repo_has_task s k i
            ∧ ¬ (k = FRIEND_REQUEST_OBJECT_KIND
                 ∧ ∃ r, r ∈ done ∧ clears local keys t r = true ∧ fr_request_id r = i)).

Lemma created_at_id r : r <| fr_created_at := fr_created_at r |> = r.
Proof. by destruct r. Qed.

(** Writing the settled form of a row. *)
Lemma progress_upsert local keys t s dn s1 r :
  repo_request s (fr_request_id r) = Some r →
  related local keys t r && acceptable r = true →
  accept_progress local keys t s dn s1 →
  ∀ id, repo_request (repo_upsert_friend_request (accept_request t r) s1) id =
        (λ r0, if bool_decide (id ∈ fr_request_id <$> r :: dn) then settled local keys t r0 else r0)
          <$> repo_request s id.
Proof.
  intros Hr Hacc (Hok & Hreq & _) id. rewrite law_upsert // Hreq fmap_cons.
  change (fr_request_id (accept_request t r)) with (fr_request_id r). case_decide as Hid.
  - subst id. rewrite Hr /=. rewrite (bool_decide_true (fr_request_id r ∈ fr_request_id r :: _)).
    2:{ by left. }
    f_equal. rewrite /settled Hacc. case_bool_decide; by destruct r.
  - destruct (repo_request s id) as [r0|]; [|done]. simpl. f_equal.
    by rewrite (bool_decide_ext (id ∈ fr_request_id r :: _) (id ∈ fr_request_id <$> dn)) //
       elem_of_cons; tauto.
Qed.

(** Leaving a row that is not to be settled. *)
Lemma progress_skip local keys t s dn s1 r :
  repo_request s (fr_request_id r) = Some r →
  related local keys t r && acceptable r = false →
  accept_progress local keys t s dn s1 →
  ∀ id, repo_request s1 id =
        (λ r0, if bool_decide (id ∈ fr_request_id <$> r :: dn) then settled local keys t r0 else r0)
          <$> repo_request s id.
Proof.
  intros Hr Hacc (Hok & Hreq & _) id. rewrite Hreq fmap_cons.
  destruct (decide (id = fr_request_id r)) as [->|Hid].
  - rewrite Hr /= /settled Hacc. by repeat case_match.
  - destruct (repo_request s id) as [r0|]; [|done]. simpl. f_equal.
    by rewrite (bool_decide_ext (id ∈ fr_request_id r :: _) (id ∈ fr_request_id <$> dn)) //
       elem_of_cons; tauto.
Qed.

Lemma accept_one_run local keys t r s1 :
  fr_local_public_id r = local → sql_nonblank (fr_request_id r) = true →
  accept_one keys t r s1 =
  let s2 := if related local keys t r && acceptable r
            then repo_upsert_friend_request (accept_request t r) s1 else s1 in
  (inr tt, if clears local keys t r
           then repo_clear_reliability_task FRIEND_REQUEST_OBJECT_KIND (fr_request_id r) s2 else s2).
Proof.
  intros <- Hb. rewrite /accept_one /clears /related /acceptable Hb String.eqb_refl Z.ltb_antisym /=.
  destruct (request_matches_counterpart r keys), (as_millis _ <=? _); simpl; try done.
  destruct (is_open r), (superseded r), (bool_decide _); done.
Qed.

Lemma accept_step local keys t s dn s1 r :
  repo_ok s → r ∈ repo_list_friend_requests s local →
  accept_progress local keys t s dn s1 →
  ∃ s2, accept_one keys t r s1 = (inr tt, s2) ∧ accept_progress local keys t s (r :: dn) s2.
Proof.
  intros Hs Hin Hpr. apply law_list in Hin as (Hr & Hl & Hb); [|done].
  rewrite (accept_one_run local) //. eexists. split; [done|].
  set (s2 := if _ && _ then _ else s1).
  assert (repo_ok s2 ∧ (∀ k i, repo_has_task s2 k i ↔ repo_has_task s1 k i)
    ∧ ∀ id, repo_request s2 id =
        (λ r0, if bool_decide (id ∈ fr_request_id <$> r :: dn) then settled local keys t r0 else r0)
          <$> repo_request s id) as (Hok2 & Htask2 & Hreq2).
  { rewrite /s2. destruct (related local keys t r && acceptable r) eqn:Hacc.
    - split_and!; [apply law_upsert_ok, Hpr|intros; apply law_upsert_tasks|by eapply progress_upsert].
    - split_and!; [apply Hpr|done|by eapply progress_skip]. }
  destruct Hpr as (_ & _ & Htask).
  assert (∀ i, (∃ r0, r0 ∈ r :: dn ∧ clears local keys t r0 = true ∧ fr_request_id r0 = i) ↔
    (clears local keys t r = true ∧ fr_request_id r = i)
    ∨ (∃ r0, r0 ∈ dn ∧ clears local keys t r0 = true ∧ fr_request_id r0 = i)) as Hdn.
  { intros i. split.
    - intros (r0 & [->|H0]%elem_of_cons & Hc & Hi); [by left|right; eauto].
    - intros [[Hc Hi]|(r0 & H0 & Hc & Hi)]; [exists r|exists r0]; split_and!; try done;
        [by left|by right]. }
  destruct (clears local keys t r) eqn:Hc; split_and!.
  - by apply law_clear_ok.
  - intros id. by rewrite law_clear.
  - intros k i. rewrite law_clear_tasks Htask2 Htask Hdn.
    assert ((k, i) = (FRIEND_REQUEST_OBJECT_KIND, fr_request_id r)
            ↔ k = FRIEND_REQUEST_OBJECT_KIND ∧ fr_request_id r = i) as -> by (split; [by intros [= -> ->]|by intros [-> <-]]).
    destruct (decide (k = FRIEND_REQUEST_OBJECT_KIND)); tauto.
  - done.
  - done.
  - intros k i. rewrite Htask2 Htask Hdn. assert (false ≠ true) by done. tauto.
Qed.

Lemma accept_loop local keys t s dn rows s1 :
  repo_ok s → (∀ r, r ∈ rows → r ∈ repo_list_friend_requests s local) →
  accept_progress local keys t s dn s1 →
  ∃ s2, for_each (accept_one keys t) rows s1 = (inr tt, s2)
        ∧ accept_progress local keys t s (reverse rows ++ dn) s2.
Proof.
  intros Hs. revert dn s1. induction rows as [|r rows IH]; intros dn s1 Hrows Hpr; [by exists s1|].
  destruct (accept_step local keys t s dn s1 r Hs) as (s2 & Hrun & Hpr2); [by apply Hrows; left|done|].
  destruct (IH (r :: dn) s2) as (s3 & Hrun3 & Hpr3); [intros; apply Hrows; by right|done|].
  exists s3. cbn [for_each]. rewrite /mbind /social_bind Hrun Hrun3. split; [done|].
  by rewrite reverse_cons -app_assoc.
Qed.

Lemma accept_run local c t s :
  repo_ok s →
  let keys := counterpart_match_keys c in
  ∃ s', accept_related_friend_requests local c t s = (inr tt, s')
        ∧ repo_ok s'
        ∧ (∀ id, repo_request s' id = settled local keys t <$> repo_request s id)
        ∧ (∀ k i, repo_has_task s' k i ↔
             repo_has_task s k i
             ∧ ¬ (k = FRIEND_REQUEST_OBJECT_KIND
                  ∧ ∃ r, repo_request s i = Some r ∧ clears local keys t r = true)).
Proof.
  intros Hs keys.
  destruct (accept_loop local keys t s [] (repo_list_friend_requests s local) s)
    as (s' & Hrun & Hok & Hreq & Htask); [done..| |].
  { split_and!; [done| |].
    - intros id. destruct (repo_request s id) as [r|]; done.
    - intros k i. split; [|tauto]. intros Hk. split; [done|]. by intros [_ (r & ?%elem_of_nil & _)]. }
  rewrite app_nil_r in Hreq, Htask.
  assert (∀ r, repo_request s (fr_request_id r) = Some r → related local keys t r = true →
            r ∈ repo_list_friend_requests s local) as Hrel.
  { intros r Hr Hr'. rewrite /related in Hr'. bool_to_prop. by apply law_list. }
  exists s'. split_and!; [exact Hrun|done| |].
  - intros id. rewrite Hreq. destruct (repo_request s id) as [r|] eqn:E; [|done]. simpl. f_equal.
    case_bool_decide as Hid; [done|]. rewrite /settled.
    pose proof (law_id _ _ _ Hs E) as <-. destruct (related local keys t r) eqn:Er; [|done].
    destruct Hid. apply list_elem_of_fmap_2, elem_of_reverse. by apply Hrel.
  - intros k i. rewrite Htask. apply and_iff_compat_l, not_iff_compat, and_iff_compat_l.
    setoid_rewrite elem_of_reverse. split.
    + intros (r & Hin & Hc & <-). apply listed in Hin as [Hin _]; [|done]. eauto.
    + intros (r & Hr & Hc). pose proof (law_id _ _ _ Hs Hr) as <-. exists r. split_and!; try done.
      apply Hrel; [done|]. by rewrite /clears in Hc; bool_to_prop.
Qed.

Lemma settled_lifecycle local keys t r :
  lifecycle (fr_state r) (fr_state (settled local keys t r)) = true
  ∧ fr_local_public_id (settled local keys t r) = fr_local_public_id r.
Proof.
  rewrite /settled. destruct (_ && _) eqn:E; [|by rewrite lifecycle_refl]. split; [|done].
  apply andb_true_iff in E as [_ E]. rewrite /acceptable /is_open /superseded in E. cbn.
  by destruct (fr_state r).
Qed.

Lemma accept_evolves s local c t :
  repo_ok s → evolves s (accept_related_friend_requests local c t s).2.
Proof.
  intros Hs. destruct (accept_run local c t s Hs) as (s' & -> & Hok & Hreq & _). split; [done|].
  intros id r Hr. rewrite Hreq Hr. eexists. split; [done|]. apply settled_lifecycle.
Qed.

(** The operations of the service. *)
Inductive request_step : S → S → Prop :=
  | step_upsert r s : own_id s r → request_step s (upsert_friend_request r s).2
  | step_queue i s :
      (∀ x, repo_request s (qi_request_id i) = Some x →
            fr_local_public_id x = qi_local_public_id i) →
      request_step s (queue_friend_request_decision i s).2
  | step_accept local c t s : request_step s (accept_related_friend_requests local c t s).2
  | step_settle local c st reason t s :
      request_step s (settle_related_outbound_friend_requests local c st reason t s).2
  | step_retry id s : request_step s (clear_friend_request_retry id s).2.

Lemma request_step_evolves s s' : repo_ok s → request_step s s' → evolves s s'.
Proof.
  intros Hs Hstep. revert Hs.
  destruct Hstep; auto using upsert_evolves, queue_evolves, accept_evolves, settle_evolves.
  intros Hs.
  by apply evolves_clear.
Qed.


(** Accepting a counterpart settles, in one go and always successfully, exactly
    the requests of the local identity that match it and were created by then:
    the open and the superseded ones become accepted, every other request stays
    as it is, and no retry is left for the accepted ones. *)
Theorem accept_related_spec local c t s :
  repo_ok s →
  let keys := counterpart_match_keys c in
  ∃ s', accept_related_friend_requests local c t s = (inr tt, s')
        ∧ (∀ id, repo_request s' id = settled local keys t <$> repo_request s id)
        ∧ (∀ id r, repo_request s' id = Some r → related local keys t r = true →
             is_open r = false
             ∧ (fr_state r = FRAccepted → ¬ repo_has_task s' FRIEND_REQUEST_OBJECT_KIND id)).
Proof.
  intros Hs keys. destruct (accept_run local c t s Hs) as (s' & Hrun & _ & Hreq & Htask).
  fold keys in Hreq, Htask. exists s'. split_and!; [done|done|]. intros id r'. rewrite Hreq.
  destruct (repo_request s id) as [r|] eqn:E; [|done]. intros Hr'. injection Hr' as <-.
  assert (related local keys t (settled local keys t r) = related local keys t r) as ->.
  { rewrite /settled. by destruct (_ && _). }
  intros Hrel. rewrite /settled Hrel /=. destruct (acceptable r) eqn:Hacc.
  - split; [done|]. intros _ [_ []]%Htask. split; [done|]. exists r. rewrite /clears Hrel Hacc. done.
  - rewrite /acceptable in Hacc. bool_to_prop. split; [done|]. intros Hst [_ []]%Htask.
    split; [done|]. exists r. rewrite /clears Hrel Hst bool_decide_true //= orb_true_r. done.
Qed.
End laws.

(** ** The listing *)

Lemma keep_requests_decided b seen items r :
  r ∈ items → is_pending r = false → r ∈ keep_requests b seen items.
Proof.
  revert seen. induction items as [|x items IH]; intros seen; [by intros ?%elem_of_nil|].
  intros [->|Hr]%elem_of_cons Hp; cbn [keep_requests].
  - rewrite Hp. by left.
  - repeat case_match; try (right; by apply IH). by apply IH.
Qed.

Lemma keep_requests_fresh b seen items r :
  r ∈ keep_requests b seen items → is_pending r = true →
  identity_pair_key r ∉ b ∧ request_pair_key r ∉ seen.
Proof.
  revert seen. induction items as [|x items IH]; intros seen; [by intros ?%elem_of_nil|].
  cbn [keep_requests]. intros Hr Hp. destruct (is_pending x) eqn:Hx; cbn [negb] in Hr.
  - destruct (_ || _) eqn:E; [by apply IH|]. bool_to_prop.
    apply elem_of_cons in Hr as [->|Hr]; [done|]. apply IH in Hr as [? Hn]; [|done].
    split; [done|]. by apply not_elem_of_cons in Hn as [_ ?].
  - apply elem_of_cons in Hr as [->|Hr]; [congruence|]. by apply IH.
Qed.

Lemma keep_requests_NoDup b seen items :
  NoDup (request_pair_key <$> List.filter is_pending (keep_requests b seen items)).
Proof.
  revert seen. induction items as [|x items IH]; intros seen; [apply NoDup_nil_2|].
  cbn [keep_requests]. destruct (is_pending x) eqn:Hx; cbn [negb].
  - destruct (_ || _); [done|]. cbn [List.filter]. rewrite Hx fmap_cons NoDup_cons. split; [|done].
    intros (y & Hy & [Hin Hp]%elem_of_filterb)%list_elem_of_fmap.
    apply keep_requests_fresh in Hin as [_ Hn]; [|done]. apply Hn. rewrite Hy. by left.
  - cbn [List.filter]. by rewrite Hx.
Qed.

(** Every pending request of a pair that is not blocked is represented by the
    first one of its pair. *)
Lemma keep_requests_first (R : FriendRequest → FriendRequest → Prop) b seen items r :
  Reflexive R → StronglySorted R items → r ∈ items → is_pending r = true →
  identity_pair_key r ∉ b → request_pair_key r ∉ seen →
  ∃ r', r' ∈ keep_requests b seen items ∧ is_pending r' = true
        ∧ request_pair_key r' = request_pair_key r ∧ R r' r.
Proof.
  intros Hrefl Hss. revert seen. induction Hss as [|x items _ IH Hall]; intros seen.
  { by intros ?%elem_of_nil. }
  intros Hr Hp Hb Hn. cbn [keep_requests]. destruct (is_pending x) eqn:Hx; cbn [negb].
  - destruct (decide (request_pair_key x = request_pair_key r)) as [Hk|Hk].
    + exists x. rewrite !bool_decide_false /=; [| |].
      * split_and!; [by left|done..|]. apply elem_of_cons in Hr as [->|Hr]; [done|].
        rewrite Forall_forall in Hall. by apply Hall.
      * by rewrite Hk.
      * rewrite /identity_pair_key in Hb |- *. rewrite /request_pair_key in Hk. congruence.
    + apply elem_of_cons in Hr as [->|Hr]; [done|].
      destruct (_ || _); [by apply IH|].
      destruct (IH (request_pair_key x :: seen)) as (r' & Hr' & ?); [done..| |].
      { by apply not_elem_of_cons. }
      exists r'. split; [by right|done].
  - apply elem_of_cons in Hr as [->|Hr]; [congruence|].
    destruct (IH seen) as (r' & Hr' & ?); [done..|]. exists r'. split; [by right|done].
Qed.

(** The listing of friend requests shows only stored requests, all the decided
    ones, and of the pending ones at most one per pair and direction; a pending
    request is hidden only if its pair has a queued decision or a block, or if one
    of the same pair and direction that was updated no earlier is shown instead. *)
Theorem dedupe_spec items :
  let shown := dedupe_friend_requests items in
  (∀ r, r ∈ shown → r ∈ items)
  ∧ (∀ r, r ∈ items → is_pending r = false → r ∈ shown)
  ∧ NoDup (request_pair_key <$> List.filter is_pending shown)
  ∧ (∀ r, r ∈ items → is_pending r = true →
       (∃ x, x ∈ items ∧ blocks_new_pending_request (fr_state x) = true
             ∧ identity_pair_key x = identity_pair_key r)
       ∨ ∃ r', r' ∈ shown ∧ is_pending r' = true ∧ request_pair_key r' = request_pair_key r
               ∧ fr_updated_at r ≤ fr_updated_at r').
Proof.
  intros shown. split_and!.
  - intros r Hr. eapply elem_of_sublist in Hr; [|apply keep_requests_sublist].
    by apply elem_of_order_by in Hr.
  - intros r Hr Hp. apply keep_requests_decided; [|done]. by apply elem_of_order_by.
  - apply keep_requests_NoDup.
  - intros r Hr Hp. rewrite /shown /dedupe_friend_requests. set (b := identity_pair_key <$> _).
    destruct (decide (identity_pair_key r ∈ b)) as [Hb|Hb].
    + left. apply list_elem_of_fmap in Hb as (x & Hx & [Hin Hbl]%elem_of_filterb). eauto.
    + right. destruct (keep_requests_first (λ x y, fr_updated_at y ≤ fr_updated_at x) b []
        (order_by [desc_Z fr_updated_at; desc_Z fr_created_at; asc_str fr_request_id] items) r)
        as (r' & ?); [intros ?; lia| |by apply elem_of_order_by|done..|apply not_elem_of_nil|by exists r'].
      eapply StronglySorted_weaken; [|apply order_by_sorted].
      * intros x y. cbn [compare_by]. rewrite /desc_Z.
        destruct (Z.compare_spec (fr_updated_at y) (fr_updated_at x)); lia || done.
      * repeat constructor; apply desc_Z_order || apply asc_str_order.
Qed.

(** ** The SQLite store is such a repository *)

#[global] Instance store_requests : FriendRequestRepository SocialStore := {
  repo_upsert_friend_request := SocialStore.upsert_friend_request;
  repo_list_friend_requests := SocialStore.list_friend_requests;
  repo_clear_reliability_task := clear_reliability_task;
}.

Definition stored_request (s : SocialStore) (id : string) : option FriendRequest :=
  find_first (λ x, bool_decide (fr_request_id x = id)) (friend_requests s).

Lemma stored_request_Some s r :
  store_ok s → stored_request s (fr_request_id r) = Some r ↔ r ∈ friend_requests s.
Proof.
  intros Hs. split; [by intros [_ ?]%find_first_Some|].
  intros Hr. apply find_first_key; [apply Hs|done].
Qed.

Lemma get_task_clear k i s k' i' :
  is_Some (get_reliability_task (clear_reliability_task k i s) k' i') ↔
  is_Some (get_reliability_task s k' i') ∧ (k', i') ≠ (k, i).
Proof.
  rewrite /get_reliability_task /clear_reliability_task. cbn [reliability_tasks set_field].
  induction (reliability_tasks s) as [|t ts IH]; cbn [find_first List.filter].
  { split; [by intros []|by intros [[] _]]. }
  destruct (decide (task_key t = (k, i))) as [Ht|Ht].
  - rewrite (bool_decide_true (task_key t = (k, i))) //=. rewrite IH. case_bool_decide as Ht'; [|done].
    split; [intros [_ ?]; split; [done|congruence]|]. intros [_ []]. congruence.
  - rewrite (bool_decide_false (task_key t = (k, i))) //=. case_bool_decide as Ht'; [|done].
    split; [|done]. intros _. split; [done|congruence].
Qed.

#[global] Instance store_request_laws : FriendRequestLaws SocialStore.
Proof.
  apply (Build_FriendRequestLaws _ _ store_ok stored_request
           (λ s k i, is_Some (get_reliability_task s k i))).
  - intros s id r _ [Hid%bool_decide_eq_true_1 _]%find_first_Some. done.
  - intros s local r Hs. rewrite stored_request_Some //. cbn.
    rewrite /SocialStore.list_friend_requests elem_of_order_by elem_of_filterb andb_true_iff
      String.eqb_eq. tauto.
  - intros r s Hs. eapply store_step_ok; [done|]. apply SocialStore.step_request.
  - intros r s id _. apply find_first_upsert. done.
  - done.
  - intros k i s Hs. eapply store_step_ok; [done|]. apply SocialStore.step_clear.
  - done.
  - intros. apply get_task_clear.
Defined.

Module RequestScenario.
Definition request (id : string) (state : FriendRequestState) (at_ : Z) : FriendRequest :=
  mkFriendRequest id "alice" "bob" (Some "node-b") FROutbound state
    (if bool_decide (state = FRPending) then None else Some "x") None at_ at_ None.
Definition bob : FriendRequestCounterpartRef := mkFriendRequestCounterpartRef "bob" "node-b" "".
Definition s1 : SocialStore := (upsert_friend_request (request "r1" FRPending 10) open_in_memory).2.
Definition s2 : SocialStore := (upsert_friend_request (request "r2" FRPending 20) s1).2.

Lemma empty_ok : store_ok open_in_memory.
Proof. split; apply NoDup_nil_2. Qed.
Lemma s2_ok : store_ok s2.
Proof. split; apply (bool_decide_eq_true_1 _); vm_compute; reflexivity. Qed.

(** The second request supersedes the first; accepting bob accepts both. *)
Lemma accept_related_spec_witness :
  store_ok s2 ∧ (∃ s3, accept_related_friend_requests "alice" bob 30 s2 = (inr tt, s3)
    ∧ fr_state <$> stored_request s3 "r1" = Some FRAccepted
    ∧ fr_state <$> stored_request s3 "r2" = Some FRAccepted).
Proof.
  split; [apply s2_ok|].
  destruct (accept_related_spec (Laws := store_request_laws) "alice" bob 30 s2 s2_ok) as (s3 & Hrun & Hreq & _).
  exists s3. split; [done|]. change (stored_request s3) with (repo_request s3).
  rewrite !Hreq. by vm_compute.
Defined.

End RequestScenario.
