(* ===== verification/SocialServices.v ===== *)
(** * Social: services over the store

    [application/{block,friendship,message,receipt,remote_identity,thread,
    transport_binding}_service.rs]: the validation and the transition checks in
    front of each table, and what follows for the stored rows. An operation here
    has the name of the repository method it guards, which is
    [SocialStore.<name>]. *)

From S2P Require Import Prelude Collections Text Json Sql SocialDomain SocialStore.
#[local] Open Scope Z_scope.

Abbreviation svc := (social SocialStore).

(** ** Blocks *)

Definition upsert_block (b : SocialBlock) : svc unit :=
  invalid_when (is_blank (bl_block_id b)) "block_id is required";;
  invalid_when (is_blank (bl_owner_public_id b) || is_blank (bl_blocked_public_id b))
    "owner_public_id and blocked_public_id are required";;
  invalid_when (bl_updated_at b <? bl_created_at b) "updated_at must be >= created_at";;
  writes (SocialStore.upsert_block b).

Definition remove_block (owner blocked : string) : svc unit :=
  invalid_when (is_blank owner || is_blank blocked)
    "owner_public_id and blocked_public_id are required";;
  writes (SocialStore.remove_block owner blocked).

Definition list_blocks (owner : string) : svc (list SocialBlock) :=
  invalid_when (is_blank owner) "owner_public_id is required";;
  reads (λ s, SocialStore.list_blocks s owner).

(** ** Friendships *)

Definition friendship_state_debug (s : FriendshipState) : string :=
  match s with FSActive => "Active" | FSRemoved => "Removed" | FSBlocked => "Blocked" end.

Definition upsert_friendship (f : Friendship) : svc unit :=
  invalid_when (is_blank (fs_friendship_id f)) "friendship_id is required";;
  invalid_when (is_blank (fs_local_public_id f) || is_blank (fs_remote_public_id f))
    "local_public_id and remote_public_id are required";;
  invalid_when (fs_updated_at f <? fs_created_at f) "updated_at must be >= created_at";;
  found ← reads (λ s, find_friendship s (fs_local_public_id f) (fs_remote_public_id f));
  match found with
  | Some existing =>
      if negb (friendship_can_transition (fs_state existing) (fs_state f))
         && negb (is_reestablished_by existing f)
      then raise (Conflict ("invalid friendship transition: "
             +:+ friendship_state_debug (fs_state existing) +:+ " -> "
             +:+ friendship_state_debug (fs_state f)))
      else writes (SocialStore.upsert_friendship f)
  | None => writes (SocialStore.upsert_friendship f)
  end.

Definition list_friendships (local : string) : svc (list Friendship) :=
  invalid_when (is_blank local) "local_public_id is required";;
  reads (λ s, SocialStore.list_friendships s local).

(** ** Messages and receipts *)

Definition upsert_message (m : DirectMessage) : svc unit :=
  invalid_when (is_blank (dm_thread_id m)) "thread_id is required";;
  invalid_when (is_blank (dm_message_id m)) "message_id is required";;
  invalid_when (is_blank (dm_local_public_id m) || is_blank (dm_remote_public_id m))
    "local_public_id and remote_public_id are required";;
  invalid_when (dm_updated_at m <? dm_created_at m) "updated_at must be >= created_at";;
  found ← reads (λ s, SocialStore.get_message s (dm_thread_id m) (dm_message_id m));
  match found with
  | Some existing =>
      if negb (delivery_can_transition (dm_delivery_state existing) (dm_delivery_state m))
         || negb (read_can_transition (dm_read_state existing) (dm_read_state m))
      then raise (Conflict "invalid message delivery/read transition")
      else writes (SocialStore.upsert_message m)
  | None => writes (SocialStore.upsert_message m)
  end.

Definition get_message (thread message : string) : svc (option DirectMessage) :=
  invalid_when (is_blank thread || is_blank message) "thread_id and message_id are required";;
  reads (λ s, SocialStore.get_message s thread message).

Definition list_thread_messages (thread : string) : svc (list DirectMessage) :=
  invalid_when (is_blank thread) "thread_id is required";;
  reads (λ s, SocialStore.list_thread_messages s thread).

Definition upsert_message_receipt (r : MessageReceipt) : svc unit :=
  invalid_when (is_blank (rc_message_id r)) "message_id is required";;
  writes (SocialStore.upsert_message_receipt r).

Definition list_message_receipts (message : string) : svc (list MessageReceipt) :=
  invalid_when (is_blank message) "message_id is required";;
  reads (λ s, SocialStore.list_message_receipts s message).

(** ** Remote identities and transport bindings *)

Definition upsert_remote_identity (i : RemoteIdentityProfile) : svc unit :=
  invalid_when (is_blank (ri_public_id i)) "public_id is required";;
  invalid_when (is_blank (ri_agent_did i)) "agent_did is required";;
  invalid_when (is_blank (ri_display_name i)) "display_name is required";;
  invalid_when (ri_updated_at i <? ri_created_at i) "updated_at must be >= created_at";;
  writes (SocialStore.upsert_remote_identity i).

Definition refresh_remote_display_name (public_id display_name : string) : svc unit :=
  invalid_when (is_blank public_id) "public_id is required";;
  let display_name := trim display_name in
  invalid_when (String.eqb display_name "") "display_name is required";;
  found ← reads (λ s, get_remote_identity s public_id);
  match found with
  | None => mret tt
  | Some identity =>
      if String.eqb (trim (ri_display_name identity)) display_name then mret tt
      else writes (update_remote_identity_display_name public_id display_name)
  end.

Definition upsert_transport_binding (b : RemoteTransportBinding) : svc unit :=
  invalid_when (is_blank (tb_public_id b)) "public_id is required";;
  invalid_when (is_blank (tb_transport_node_id b)) "transport_node_id is required";;
  invalid_when (is_blank (tb_binding_source b)) "binding_source is required";;
  invalid_when (tb_binding_confidence b <? 0) "binding_confidence must be >= 0";;
  writes (SocialStore.upsert_transport_binding b).

(** ** Threads *)

Definition thread_state_debug (s : ThreadState) : string :=
  match s with
  | TSPending => "Pending" | TSReady => "Ready" | TSClosed => "Closed" | TSBlocked => "Blocked"
  end.

Definition upsert_thread_checked (t : DirectThread) (reopen_closed : bool) : svc unit :=
  invalid_when (is_blank (th_thread_id t)) "thread_id is required";;
  invalid_when (is_blank (th_local_public_id t) || is_blank (th_remote_public_id t))
    "local_public_id and remote_public_id are required";;
  invalid_when (is_blank (th_transport_thread_id t)) "transport_thread_id is required";;
  invalid_when (th_updated_at t <? th_created_at t) "updated_at must be >= created_at";;
  invalid_when (is_some_and (λ last, (last <? th_created_at t) || (th_updated_at t <? last))
                  (th_last_message_at t))
    "last_message_at must be within thread lifetime";;
  found ← reads (λ s, SocialStore.find_thread s (th_local_public_id t) (th_remote_public_id t));
  match found with
  | Some existing =>
      if negb (thread_can_transition (th_state existing) (th_state t))
         && negb (reopen_closed && thread_can_reopen (th_state existing) (th_state t))
      then raise (Conflict ("invalid thread transition: "
             +:+ thread_state_debug (th_state existing) +:+ " -> "
             +:+ thread_state_debug (th_state t)))
      else writes (SocialStore.upsert_thread t)
  | None => writes (SocialStore.upsert_thread t)
  end.

Definition upsert_thread (t : DirectThread) : svc unit := upsert_thread_checked t false.
Definition upsert_thread_for_established_friendship (t : DirectThread) : svc unit :=
  upsert_thread_checked t true.

Definition find_thread (local remote : string) : svc (option DirectThread) :=
  invalid_when (is_blank local || is_blank remote)
    "local_public_id and remote_public_id are required";;
  reads (λ s, SocialStore.find_thread s local remote).

Definition list_threads (local : string) : svc (list DirectThread) :=
  invalid_when (is_blank local) "local_public_id is required";;
  reads (λ s, SocialStore.list_threads s local).

Definition list_threads_by_state (local : string) (state : ThreadState)
    : svc (list DirectThread) :=
  invalid_when (is_blank local) "local_public_id is required";;
  reads (λ s, SocialStore.list_threads_by_state s local state).

(** ** What an operation keeps

    A predicate on the store that an operation preserves, also when it fails. *)
Class Preserves {S A : Type} (I : S → Prop) (m : social S A) : Prop :=
  preserves : ∀ s, I s → I (m s).2.

Section preserves.
Context {S : Type} (I : S → Prop).

#[global] Instance preserves_ret {A} (a : A) : Preserves I (mret a).
Proof. by intros s. Qed.
#[global] Instance preserves_raise {A} e : Preserves I (raise e : social S A).
Proof. by intros s. Qed.
#[global] Instance preserves_reads {A} (f : S → A) : Preserves I (reads f).
Proof. by intros s. Qed.
#[global] Instance preserves_invalid b msg : Preserves I (invalid_when b msg).
Proof. intros s. rewrite /invalid_when. by destruct b. Qed.
#[global] Instance preserves_bind {A B} (m : social S A) (k : A → social S B) :
  Preserves I m → (∀ a, Preserves I (k a)) → Preserves I (m ≫= k).
Proof. intros Hm Hk s Hs. apply bind_inv; [by apply Hm|]. intros a s1 _ H1. by apply Hk. Qed.
#[global] Instance preserves_ignore (m : social S unit) :
  Preserves I m → Preserves I (ignore_conflict m).
Proof.
  intros Hm s Hs. specialize (Hm s Hs). rewrite /ignore_conflict.
  by destruct (m s) as [[[]|] s1].
Qed.
#[global] Instance preserves_for_each {A} (f : A → social S unit) l :
  (∀ x, Preserves I (f x)) → Preserves I (for_each f l).
Proof. intros Hf s Hs. apply for_each_inv; [|done]. intros x s1 _. apply Hf. Qed.
#[global] Instance preserves_if {A} (b : bool) (m1 m2 : social S A) :
  Preserves I m1 → Preserves I m2 → Preserves I (if b then m1 else m2).
Proof. by destruct b. Qed.
#[global] Instance preserves_option {A B} (o : option A) (m1 : A → social S B) m2 :
  (∀ a, Preserves I (m1 a)) → Preserves I m2 →
  Preserves I (match o with Some a => m1 a | None => m2 end).
Proof. intros. by destruct o. Qed.
End preserves.
#[global] Hint Mode Preserves - - ! ! : typeclass_instances.

(** ** Looking up rows by pair *)

Section find_upsert.
Context {R K : Type} `{EqDecision K} (key : R → K) (update : R → R → R).

Lemma find_upsert_other (P : R → bool) new t :
  (∀ x, x ∈ t → key x = key new → P x = false ∧ P (update x new) = false) → P new = false →
  find_first P (upsert_row key update new t) = find_first P t.
Proof.
  intros HP Hnew. induction t as [|x t IH]; cbn [upsert_row find_first]; [by rewrite Hnew|].
  destruct (decide (key x = key new)) as [Hk|Hk]; cbn [find_first].
  - by destruct (HP x ltac:(by left) Hk) as [-> ->].
  - rewrite IH; [done|]. intros y Hy. apply HP. by right.
Qed.

Lemma find_upsert_same (P : R → bool) new t :
  (∀ x, x ∈ t → P x = true ↔ key x = key new) →
  (∀ x, x ∈ t → key x = key new → P (update x new) = true) → P new = true →
  find_first P (upsert_row key update new t) =
  Some (default new ((λ old, update old new) <$> find_first P t)).
Proof.
  intros HP Hup Hnew. induction t as [|x t IH]; cbn [upsert_row find_first]; [by rewrite Hnew|].
  destruct (decide (key x = key new)) as [Hk|Hk]; cbn [find_first].
  - rewrite (Hup x) //; [|by left]. by rewrite (proj2 (HP x ltac:(by left)) Hk).
  - assert (P x = false) as ->.
    { apply not_true_iff_false. rewrite HP; [done|by left]. }
    apply IH; intros y Hy; [apply HP|apply Hup]; by right.
Qed.
End find_upsert.

(** The row under the identifier of [f] and the row of its pair are the same. *)
Definition friendship_keyed (s : SocialStore) (f : Friendship) : Prop :=
  ∀ x, x ∈ friendships s →
  fs_friendship_id x = fs_friendship_id f ↔
  fs_local_public_id x = fs_local_public_id f ∧ fs_remote_public_id x = fs_remote_public_id f.

Definition friendship_pair (l r : string) (f : Friendship) : bool :=
  String.eqb (fs_local_public_id f) l && String.eqb (fs_remote_public_id f) r.

Lemma friendship_pair_true l r f :
  friendship_pair l r f = true ↔ fs_local_public_id f = l ∧ fs_remote_public_id f = r.
Proof. by rewrite /friendship_pair andb_true_iff !String.eqb_eq. Qed.

(** The pair of [f] afterwards, and any other pair. *)
Lemma find_friendship_upsert f s l r :
  friendship_keyed s f →
  find_friendship (SocialStore.upsert_friendship f s) l r =
  if decide (fs_local_public_id f = l ∧ fs_remote_public_id f = r)
  then Some (default f ((λ old, f <| fs_created_at := fs_created_at old |>) <$>
                          find_friendship s l r))
  else find_friendship s l r.
Proof.
  intros Hkey. rewrite /find_friendship /SocialStore.upsert_friendship.
  cbn [friendships set_field]. change (λ f, _ && _) with (friendship_pair l r).
  case_decide as Hp.
  - destruct Hp as [<- <-]. apply find_upsert_same.
    + intros x Hx. by rewrite friendship_pair_true Hkey.
    + intros x Hx _. by apply friendship_pair_true.
    + by apply friendship_pair_true.
  - apply find_upsert_other.
    + intros x Hx Hid. apply Hkey in Hid as [Hl Hr]; [|done].
      split; apply not_true_iff_false; rewrite friendship_pair_true; [by rewrite Hl Hr|done].
    + apply not_true_iff_false. by rewrite friendship_pair_true.
Qed.

Lemma upsert_friendship_cases f s :
  (∃ e, upsert_friendship f s = (inl e, s))
  ∨ upsert_friendship f s = (inr tt, SocialStore.upsert_friendship f s)
    ∧ ∀ old, find_friendship s (fs_local_public_id f) (fs_remote_public_id f) = Some old →
             friendship_can_transition (fs_state old) (fs_state f) = true
             ∨ is_reestablished_by old f = true.
Proof.
  rewrite /upsert_friendship. cbv [mbind social_bind invalid_when reads raise writes].
  destruct (is_blank _); [by left; eexists|].
  destruct (_ || _); [by left; eexists|].
  destruct (_ <? _); [by left; eexists|].
  destruct (find_friendship _ _ _) as [old|] eqn:E; [|by right].
  destruct (_ && _) eqn:Hg; [by left; eexists|]. right. split; [done|]. intros x [= <-].
  apply andb_false_iff in Hg as [Hg|Hg]; bool_to_prop; auto.
Qed.

(** The life cycle of a friendship. An update either fails and changes nothing,
    or stores the friendship (keeping its time of creation) and touches no other
    pair; it succeeds only if the friendship was active, stays in its state, or
    was removed and is established again by another request. In particular a
    blocked friendship stays blocked. *)
Theorem friendship_upsert_spec f s :
  friendship_keyed s f →
  let l := fs_local_public_id f in let r := fs_remote_public_id f in
  match upsert_friendship f s with
  | (inl _, s') => s' = s
  | (inr _, s') =>
      find_friendship s' l r =
        Some (default f ((λ old, f <| fs_created_at := fs_created_at old |>) <$>
                           find_friendship s l r))
      ∧ (∀ l' r', (l', r') ≠ (l, r) → find_friendship s' l' r' = find_friendship s l' r')
      ∧ (∀ old, find_friendship s l r = Some old →
           fs_state old = FSActive ∨ fs_state f = fs_state old
           ∨ fs_state old = FSRemoved ∧ fs_state f = FSActive
             ∧ ∃ request, fs_established_from_request_id f = Some request
                          ∧ fs_established_from_request_id old ≠ Some request)
  end.
Proof.
  intros Hkey l r. destruct (upsert_friendship_cases f s) as [[e ->]|[-> Hold]]; [done|].
  split_and!.
  - rewrite find_friendship_upsert // decide_True //.
  - intros l' r' Hne. rewrite find_friendship_upsert // decide_False //. by intros [<- <-].
  - intros old Hf. destruct (Hold old Hf) as [Ht|Hre].
    + destruct (fs_state old), (fs_state f); try done; auto.
    + right. right. rewrite /is_reestablished_by in Hre. bool_to_prop.
      destruct (fs_established_from_request_id f) as [req|]; [|done]. cbn in H0. bool_to_prop. eauto.
Qed.

(** The life cycle of a message. A stored message only moves forward: its
    delivery state along the transitions and from unread to read; an update that
    would go back fails and changes nothing. *)
Theorem message_upsert_spec m s :
  match upsert_message m s with
  | (inl _, s') => s' = s
  | (inr _, s') =>
      SocialStore.get_message s' (dm_thread_id m) (dm_message_id m) =
        Some (default m ((λ old, m <| dm_created_at := dm_created_at old |>) <$>
                           SocialStore.get_message s (dm_thread_id m) (dm_message_id m)))
      ∧ ∀ old, SocialStore.get_message s (dm_thread_id m) (dm_message_id m) = Some old →
               delivery_can_transition (dm_delivery_state old) (dm_delivery_state m) = true
               ∧ read_can_transition (dm_read_state old) (dm_read_state m) = true
  end.
Proof.
  assert (SocialStore.get_message (SocialStore.upsert_message m s) (dm_thread_id m) (dm_message_id m) =
    Some (default m ((λ old, m <| dm_created_at := dm_created_at old |>) <$>
                       SocialStore.get_message s (dm_thread_id m) (dm_message_id m)))) as Hget.
  { rewrite /SocialStore.get_message /SocialStore.upsert_message. cbn [dm_messages set_field].
    apply find_upsert_same.
    - intros x _. rewrite andb_true_iff !String.eqb_eq. split; [by intros [-> ->]|by intros [=]].
    - intros x _ _. by rewrite !String.eqb_refl.
    - by rewrite !String.eqb_refl. }
  rewrite /upsert_message. cbv [mbind social_bind invalid_when reads raise writes].
  destruct (is_blank (dm_thread_id m)); [done|]. destruct (is_blank (dm_message_id m)); [done|].
  destruct (_ || _); [done|]. destruct (_ <? _); [done|].
  destruct (SocialStore.get_message s _ _) as [old|] eqn:E; [|by split].
  destruct (negb _ || negb _) eqn:Hg; [done|]. bool_to_prop. split; [done|]. by intros x [= <-].
Qed.

Module ServiceScenario.
Definition friendship (state : FriendshipState) (request : string) (t : Z) : Friendship :=
  mkFriendship "friendship:alice:bob" "alice" "bob" None state (Some request) None t t.
Definition s_removed : SocialStore :=
  SocialStore.upsert_friendship (friendship FSRemoved "r1" 10) open_in_memory.

(** A removed friendship comes back under a new request, and only so. *)
Lemma friendship_upsert_spec_witness :
  friendship_keyed s_removed (friendship FSActive "r2" 20)
  ∧ find_friendship (upsert_friendship (friendship FSActive "r2" 20) s_removed).2 "alice" "bob"
    = Some (friendship FSActive "r2" 20 <| fs_created_at := 10 |>)
  ∧ (upsert_friendship (friendship FSActive "r1" 20) s_removed).2 = s_removed.
Proof.
  assert (friendship_keyed s_removed (friendship FSActive "r2" 20)) as Hk
    by (by intros x ->%list_elem_of_singleton).
  split; [done|]. split.
  - pose proof (friendship_upsert_spec (friendship FSActive "r2" 20) s_removed Hk) as H.
    destruct (upsert_friendship (friendship FSActive "r2" 20) s_removed) as [[e|u] s'] eqn:E.
    + by vm_compute in E.
    + cbn [snd]. destruct H as (H & _ & _). rewrite H. by vm_compute.
  - by vm_compute.
Defined.
End ServiceScenario.
