(* ===== verification/SocialSync.v ===== *)
(** * Social: orchestration

    [application/orchestration_service.rs]: what the node does to its social store
    when a local user acts on a relationship or sends a message, and when the
    transport reports relationships, threads and messages. *)

From S2P Require Import Prelude Collections Text Json Sql SocialDomain SocialStore.
From S2P Require Import SocialPolicy SocialRequests SocialServices.
#[local] Open Scope Z_scope.

(** ** Snapshots and views *)

Record KnownIdentitySnapshot := mkKnownIdentitySnapshot {
  ki_public_id : string;
  ki_agent_did : option string;
  ki_display_name : string;
  ki_skills : list string;
  ki_active : bool;
  ki_created_at : Z;
}.

Record KnownTransportBindingSnapshot := mkKnownTransportBindingSnapshot {
  kb_binding_source : string;
  kb_binding_confidence : Z;
  kb_binding_verified : bool;
  kb_binding_verified_at : option Z;
}.

Record CounterpartSnapshot := mkCounterpartSnapshot {
  cs_counterpart_public_id : string;
  cs_target_agent : string;
  cs_remote_node_id : string;
  cs_known_identity : option KnownIdentitySnapshot;
  cs_known_binding : option KnownTransportBindingSnapshot;
  cs_observed_at : Z;
}.

Record RelationshipSyncView := mkRelationshipSyncView {
  rv_counterpart : CounterpartSnapshot;
  rv_relationship_state : string;
  rv_last_action : option string;
  rv_initiated_by : string;
  rv_request_id : option string;
  rv_correlation_id : option string;
  rv_requested_at : option Z;
  rv_responded_at : option Z;
  rv_updated_at : Z;
}.

Record DmThreadSyncView := mkDmThreadSyncView {
  tv_counterpart : CounterpartSnapshot;
  tv_transport_thread_id : string;
  tv_session_state : string;
  tv_relationship_established_at : option Z;
  tv_created_at : Z;
  tv_updated_at : Z;
  tv_last_message_at : option Z;
}.

Record DmMessageSyncView := mkDmMessageSyncView {
  mv_counterpart : CounterpartSnapshot;
  mv_transport_thread_id : string;
  mv_message_id : string;
  mv_message_kind : string;
  mv_direction : string;
  mv_delivery_state : string;
  mv_a2a_protocol : string;
  mv_content : json;
  mv_encrypted_body : option string;
  mv_content_encoding : option string;
  mv_agent_envelope_json : option json;
  mv_agent_signature : option string;
  mv_created_at : Z;
  mv_acknowledged_at : option Z;
}.

Inductive RelationshipAction :=
  | ARequest | AAccept | AReject | ACancel | ARemove | ABlock | AUnblock.
#[global] Instance RelationshipAction_eq_dec : EqDecision RelationshipAction.
Proof. solve_decision. Defined.

Record PersistRelationshipActionInput := mkPersistRelationshipActionInput {
  pi_local_public_id : string;
  pi_counterpart : CounterpartSnapshot;
  pi_action : RelationshipAction;
  pi_request_id : option string;
  pi_correlation_id : option string;
  pi_occurred_at : Z;
}.

Record PersistDmMessageInput := mkPersistDmMessageInput {
  di_local_public_id : string;
  di_counterpart : CounterpartSnapshot;
  di_thread_id : string;
  di_message_id : string;
  di_content : json;
  di_agent_envelope_json : json;
  di_agent_signature : option string;
  di_occurred_at : Z;
}.

(** ** Helpers *)

Definition counterpart_display_name (c : CounterpartSnapshot) : option string :=
  match cs_known_identity c with
  | Some identity =>
      let name := trim (ki_display_name identity) in
      if String.eqb name "" then None else Some name
  | None => None
  end.

Definition normalize_agent_did (value : string) : option string :=
  let value := trim value in
  if starts_with "did:" value then Some value else None.

Definition counterpart_agent_did (c : CounterpartSnapshot) : option string :=
  or_else ((cs_known_identity c ≫= ki_agent_did) ≫= normalize_agent_did)
    (or_else (normalize_agent_did (cs_target_agent c))
       (normalize_agent_did (cs_counterpart_public_id c))).

Definition stable_pair_id (prefix left right : string) : string :=
  if str_leb left right
  then prefix +:+ ":" +:+ left +:+ ":" +:+ right
  else prefix +:+ ":" +:+ right +:+ ":" +:+ left.

Definition max_optional_i64 (left right : option Z) : option Z :=
  match left, right with
  | Some l, Some r => Some (Z.max l r)
  | Some v, None | None, Some v => Some v
  | None, None => None
  end.

Definition normalize_thread_lifetime (created_at updated_at : Z) (last_message_at : option Z)
    : Z * Z :=
  let '(c, u) := match last_message_at with
                 | Some l => (Z.min created_at l, Z.max updated_at l)
                 | None => (created_at, updated_at)
                 end in
  (c, Z.max u c).

(** [max_by_key(|item| (item.updated_at, item.created_at))]: of equal keys the
    last. *)
Definition latest_request (items : list FriendRequest) : option FriendRequest :=
  foldl (λ best item,
    match best with
    | Some b =>
        if (fr_updated_at b <? fr_updated_at item)
           || (fr_updated_at b =? fr_updated_at item) && (fr_created_at b <=? fr_created_at item)
        then Some item else Some b
    | None => Some item
    end) None items.
Definition latest_request_for_counterpart (items : list FriendRequest) (counterpart : string)
    : option FriendRequest :=
  latest_request (List.filter (λ i, String.eqb (fr_remote_public_id i) counterpart) items).
Definition latest_pending_request_for_counterpart (items : list FriendRequest)
    (counterpart : string) : option FriendRequest :=
  latest_request (List.filter (λ i, String.eqb (fr_remote_public_id i) counterpart
                                    && bool_decide (fr_state i = FRPending)) items).

Definition thread_state_from_swarm (state : string) : ThreadState :=
  match state with
  | "ready" => TSReady | "blocked" => TSBlocked | "closed" => TSClosed | _ => TSPending
  end.
Definition message_kind_from_swarm (kind : string) : MessageKind :=
  match kind with
  | "relationship_established" => MKRelationshipEstablished
  | "session_init" => MKSessionInit
  | _ => MKMessage
  end.
Definition message_direction_from_swarm (direction : string) : MessageDirection :=
  match direction with "inbound" => MDInbound | _ => MDOutbound end.
Definition delivery_state_from_swarm (state : string) : DeliveryState :=
  match state with
  | "delivered" => DSDelivered | "acknowledged" => DSAcknowledged | "failed" => DSFailed
  | _ => DSPending
  end.

(** [Result::unwrap_or_default] and [Result::ok] on a listing. *)
Definition or_empty {A} (m : svc (list A)) : svc (list A) := λ s,
  match m s with
  | (inl _, s') => (inr [], s')
  | r => r
  end.

Definition request_ref (c : CounterpartSnapshot) : FriendRequestCounterpartRef :=
  mkFriendRequestCounterpartRef (cs_counterpart_public_id c) (cs_remote_node_id c)
    (cs_target_agent c).

(** ** The counterpart *)

Definition cache_counterpart (c : CounterpartSnapshot) : svc unit :=
  let agent_did := counterpart_agent_did c in
  (match agent_did with
   | Some did =>
       existing_identity ← reads (λ s, get_remote_identity s (cs_counterpart_public_id c));
       let '(public_id, display_name, incoming_skills, active, created_at) :=
         match cs_known_identity c with
         | Some i => (ki_public_id i, ki_display_name i, ki_skills i, ki_active i, ki_created_at i)
         | None => (cs_counterpart_public_id c, cs_counterpart_public_id c, [], true,
                    cs_observed_at c)
         end in
       let skills := match incoming_skills with
                     | [] => default [] (ri_skills <$> existing_identity)
                     | _ => incoming_skills
                     end in
       let active := match existing_identity with
                     | Some existing => ri_active existing && active
                     | None => active
                     end in
       let identity_updated_at := Z.max (cs_observed_at c) created_at in
       SocialServices.upsert_remote_identity
         (mkRemoteIdentityProfile public_id did display_name None [] skills None active
            (Some identity_updated_at) created_at identity_updated_at)
   | None => mret tt
   end);;
  let '(source, confidence, verified, verified_at) :=
    match cs_known_binding c with
    | Some b => (kb_binding_source b, kb_binding_confidence b, kb_binding_verified b,
                 kb_binding_verified_at b)
    | None => ("derived", 50, false, None)
    end in
  let binding_updated_at := Z.max (default (cs_observed_at c) verified_at) (cs_observed_at c) in
  SocialServices.upsert_transport_binding
    (mkRemoteTransportBinding (cs_counterpart_public_id c) agent_did Wattswarm
       (cs_remote_node_id c) source confidence None verified verified_at binding_updated_at).

Definition mark_counterpart_identity_state (counterpart : string) (active : bool)
    (updated_at : Z) : svc unit :=
  found ← reads (λ s, get_remote_identity s counterpart);
  match found with
  | None => mret tt
  | Some identity =>
      SocialServices.upsert_remote_identity
        (identity <| ri_active := active |>
                  <| ri_updated_at := Z.max (ri_updated_at identity) updated_at |>)
  end.

Definition reopen_thread_of_active_friendship (local remote : string) (updated_at : Z)
    : svc unit :=
  active ← reads (λ s, has_active_friendship s local remote);
  found ← find_thread local remote;
  match found with
  | None => mret tt
  | Some thread =>
      if negb active || negb (thread_can_reopen (th_state thread) TSReady) then mret tt
      else upsert_thread_for_established_friendship
             (thread <| th_state := TSReady |>
                     <| th_updated_at := Z.max (th_updated_at thread) updated_at |>)
  end.

Definition retire_alias_friendships (local canonical node request_id : string) (updated_at : Z)
    : svc unit :=
  bindings ← reads list_transport_bindings;
  friendships ← list_friendships local;
  for_each (λ friendship,
    if negb (bool_decide (fs_state friendship = FSActive))
       || String.eqb (fs_remote_public_id friendship) canonical
    then mret tt
    else
      let matches_request :=
        bool_decide (fs_established_from_request_id friendship = Some request_id) in
      let matches_node :=
        String.eqb (fs_remote_public_id friendship) node
        || existsb (λ b, String.eqb (tb_public_id b) (fs_remote_public_id friendship)
                         && String.eqb (tb_transport_node_id b) node) bindings in
      if negb matches_request && negb matches_node then mret tt
      else SocialServices.upsert_friendship
             (friendship <| fs_state := FSRemoved |>
                <| fs_updated_at := Z.max (fs_updated_at friendship) updated_at |>)) friendships.

(** ** Relationships reported by the transport *)

(** What one report is reduced to before its state is looked at. *)
Record ViewContext := mkViewContext {
  vc_local : string;
  vc_view : RelationshipSyncView;
  vc_existing_requests : list FriendRequest;
  vc_request_id : string;
  vc_direction : FriendRequestDirection;
  vc_requested_at : Z;
  vc_updated_at : Z;
  vc_thread_id : string;
}.
Definition vc_counterpart (v : ViewContext) : CounterpartSnapshot := rv_counterpart (vc_view v).
Definition vc_remote (v : ViewContext) : string := cs_counterpart_public_id (vc_counterpart v).

Definition view_request (v : ViewContext) (state : FriendRequestState) (reason : option string)
    : FriendRequest :=
  mkFriendRequest (vc_request_id v) (vc_local v) (vc_remote v)
    (Some (cs_remote_node_id (vc_counterpart v))) (vc_direction v) state reason
    (rv_correlation_id (vc_view v)) (vc_requested_at v) (vc_updated_at v) None.

Definition view_friendship (v : ViewContext) (state : FriendshipState) : Friendship :=
  mkFriendship (stable_pair_id "friendship" (vc_local v) (vc_remote v)) (vc_local v) (vc_remote v)
    (counterpart_display_name (vc_counterpart v)) state (Some (vc_request_id v))
    (Some (vc_thread_id v)) (vc_requested_at v) (vc_updated_at v).

Definition reconcile_requested (v : ViewContext) : svc unit :=
  ignore_conflict (SocialRequests.upsert_friend_request (view_request v FRPending None)).

(** A report that is older than the removal of the friendship is not followed. *)
Definition stale_acceptance (v : ViewContext) (already_accepted : bool)
    (friendship : option Friendship) : bool :=
  is_some_and (λ f, bool_decide (fs_state f = FSRemoved)
                    && (already_accepted
                        || (as_millis (vc_updated_at v) <=? as_millis (fs_updated_at f))))
    friendship.

Definition reconcile_accepted (v : ViewContext) : svc unit :=
  let already_accepted :=
    existsb (λ r, String.eqb (fr_request_id r) (vc_request_id v)
                  && bool_decide (fr_state r = FRAccepted)) (vc_existing_requests v) in
  accept_related_friend_requests (vc_local v) (request_ref (vc_counterpart v)) (vc_updated_at v);;
  friendship ← reads (λ s, find_friendship s (vc_local v) (vc_remote v));
  if stale_acceptance v already_accepted friendship then mret tt
  else
    retire_alias_friendships (vc_local v) (vc_remote v) (cs_remote_node_id (vc_counterpart v))
      (vc_request_id v) (vc_updated_at v);;
    ignore_conflict (SocialRequests.upsert_friend_request
                       (view_request v FRAccepted (Some "accepted")));;
    ignore_conflict (SocialServices.upsert_friendship (view_friendship v FSActive));;
    reopen_thread_of_active_friendship (vc_local v) (vc_remote v) (vc_updated_at v);;
    mark_counterpart_identity_state (vc_remote v) true (vc_updated_at v);;
    clear_friend_request_retry (vc_request_id v).

Definition reconcile_rejected (v : ViewContext) : svc unit :=
  ignore_conflict (SocialRequests.upsert_friend_request
                     (view_request v FRRejected (Some "rejected")));;
  settle_related_outbound_friend_requests (vc_local v) (request_ref (vc_counterpart v))
    FRRejected "rejected" (vc_updated_at v);;
  clear_friend_request_retry (vc_request_id v).

Definition reconcile_blocked (v : ViewContext) : svc unit :=
  ignore_conflict (SocialRequests.upsert_friend_request
                     (view_request v FRBlocked (Some "blocked")));;
  (if String.eqb (rv_initiated_by (vc_view v)) "local" then
     ignore_conflict (SocialServices.upsert_block
       (mkSocialBlock (stable_pair_id "block" (vc_local v) (vc_remote v)) (vc_local v) (vc_remote v)
          (Some (cs_remote_node_id (vc_counterpart v))) (Some "blocked")
          (vc_requested_at v) (vc_updated_at v)))
   else mret tt);;
  ignore_conflict (SocialServices.upsert_friendship (view_friendship v FSBlocked));;
  settle_related_outbound_friend_requests (vc_local v) (request_ref (vc_counterpart v))
    FRBlocked "blocked" (vc_updated_at v);;
  clear_friend_request_retry (vc_request_id v).

Definition reconcile_removed (v : ViewContext) : svc unit :=
  listed ← list_friendships (vc_local v);
  let existing := find_first (λ f, String.eqb (fs_remote_public_id f) (vc_remote v)) listed in
  if is_some_and (λ f, vc_updated_at v <? fs_created_at f) existing then mret tt
  else
    existing_thread ← find_thread (vc_local v) (vc_remote v);
    let friendship_id := default (stable_pair_id "friendship" (vc_local v) (vc_remote v))
                           (fs_friendship_id <$> existing) in
    let display_name := or_else (counterpart_display_name (vc_counterpart v))
                          (existing ≫= fs_display_name) in
    let thread_id := default (vc_thread_id v)
                       (or_else (existing ≫= fs_thread_id) (th_thread_id <$> existing_thread)) in
    let created_at := default (vc_requested_at v) (fs_created_at <$> existing) in
    ignore_conflict (SocialServices.upsert_friendship
      (mkFriendship friendship_id (vc_local v) (vc_remote v) display_name FSRemoved
         (existing ≫= fs_established_from_request_id) (Some thread_id) created_at
         (vc_updated_at v)));;
    let '(thread_created_at, transport_thread_id, last_message_at, thread_updated_at) :=
      match existing_thread with
      | Some t => (th_created_at t, th_transport_thread_id t, th_last_message_at t, th_updated_at t)
      | None => (vc_requested_at v, thread_id, None, vc_requested_at v)
      end in
    let '(thread_created_at, thread_updated_at) :=
      normalize_thread_lifetime thread_created_at (Z.max thread_updated_at (vc_updated_at v))
        last_message_at in
    ignore_conflict (upsert_thread
      (mkDirectThread thread_id (vc_local v) (vc_remote v) transport_thread_id TSClosed
         last_message_at thread_created_at thread_updated_at));;
    mark_counterpart_identity_state (vc_remote v) false (vc_updated_at v).

Definition reconcile_cancelled (v : ViewContext) : svc unit :=
  ignore_conflict (SocialRequests.upsert_friend_request
                     (view_request v FRCancelled (Some "cancelled")));;
  clear_friend_request_retry (vc_request_id v).

Definition reconcile_unblocked (v : ViewContext) : svc unit :=
  ignore_conflict (SocialServices.remove_block (vc_local v) (vc_remote v)).

Definition reconcile_relationship_view (local : string) (existing_requests : list FriendRequest)
    (view : RelationshipSyncView) : svc unit :=
  let c := rv_counterpart view in
  let remote := cs_counterpart_public_id c in
  cache_counterpart c;;
  let request_id :=
    default (stable_pair_id "friend-request" local remote)
      (or_else (rv_request_id view)
         (fr_request_id <$> latest_request_for_counterpart existing_requests remote)) in
  let direction :=
    match find_first (λ r, String.eqb (fr_request_id r) request_id) existing_requests with
    | Some r => fr_direction r
    | None => if String.eqb (rv_initiated_by view) "remote" then FRInbound else FROutbound
    end in
  let requested_at := default (rv_updated_at view) (rv_requested_at view) in
  let updated_at :=
    if String.eqb (rv_relationship_state view) "none"
       && bool_decide (rv_last_action view = Some "remove")
       && String.eqb (rv_initiated_by view) "local"
    then Z.max (rv_updated_at view) requested_at
    else Z.max (default (rv_updated_at view) (rv_responded_at view)) requested_at in
  found ← find_thread local remote;
  let thread_id := default (stable_pair_id "dm" local remote) (th_thread_id <$> found) in
  let v := mkViewContext local view existing_requests request_id direction requested_at updated_at
             thread_id in
  if String.eqb (rv_relationship_state view) "requested" then reconcile_requested v
  else if String.eqb (rv_relationship_state view) "accepted" then reconcile_accepted v
  else if String.eqb (rv_relationship_state view) "rejected" then reconcile_rejected v
  else if String.eqb (rv_relationship_state view) "blocked" then reconcile_blocked v
  else if String.eqb (rv_relationship_state view) "none" then
    if bool_decide (rv_last_action view = Some "remove") then reconcile_removed v
    else if bool_decide (rv_last_action view = Some "cancel") then reconcile_cancelled v
    else if bool_decide (rv_last_action view = Some "unblock") then reconcile_unblocked v
    else mret tt
  else mret tt.

Definition reconcile_relationship_views (local : string) (views : list RelationshipSyncView)
    : svc unit :=
  existing_requests ← or_empty (SocialRequests.list_friend_requests local);
  for_each (reconcile_relationship_view local existing_requests) views.

(** ** Threads and messages reported by the transport *)

Definition reconcile_dm_thread (local : string) (view : DmThreadSyncView) : svc unit :=
  let c := tv_counterpart view in
  cache_counterpart c;;
  existing_thread ← find_thread local (cs_counterpart_public_id c);
  let social_thread_id := default (tv_transport_thread_id view) (th_thread_id <$> existing_thread) in
  let created_at := match existing_thread with
                    | Some t => Z.min (th_created_at t) (tv_created_at view)
                    | None => tv_created_at view
                    end in
  let last_message_at := max_optional_i64 (existing_thread ≫= th_last_message_at)
                           (tv_last_message_at view) in
  let updated_at :=
    Z.max (Z.max (Z.max (default (tv_updated_at view) last_message_at)
                    (default (tv_updated_at view) (th_updated_at <$> existing_thread)))
             (tv_updated_at view)) created_at in
  ignore_conflict (upsert_thread
    (mkDirectThread social_thread_id local (cs_counterpart_public_id c)
       (tv_transport_thread_id view) (thread_state_from_swarm (tv_session_state view))
       last_message_at created_at updated_at)).

Definition reconcile_dm_threads (local : string) (views : list DmThreadSyncView) : svc unit :=
  for_each (reconcile_dm_thread local) views.

Definition ensure_inbound_dm_allowed (local : string) (view : DmMessageSyncView) : svc unit :=
  if negb (bool_decide (message_direction_from_swarm (mv_direction view) = MDInbound)) then mret tt
  else
    let remote := cs_counterpart_public_id (mv_counterpart view) in
    found ← reads (λ s, find_friendship s local remote);
    match found with
    | None =>
        raise (Conflict ("inbound_dm_rejected_not_active_friendship: local_public_id=" +:+ local
          +:+ ", remote_public_id=" +:+ remote +:+ ", message_id=" +:+ mv_message_id view))
    | Some friendship =>
        if bool_decide (fs_state friendship = FSActive) then mret tt
        else raise (Conflict ("inbound_dm_rejected_not_active_friendship: local_public_id="
          +:+ local +:+ ", remote_public_id=" +:+ remote +:+ ", state="
          +:+ friendship_state_debug (fs_state friendship)
          +:+ ", message_id=" +:+ mv_message_id view))
    end.

Definition reconcile_dm_message (local : string) (view : DmMessageSyncView) : svc unit :=
  let c := mv_counterpart view in
  let remote := cs_counterpart_public_id c in
  cache_counterpart c;;
  ensure_inbound_dm_allowed local view;;
  existing_thread ← find_thread local remote;
  let social_thread_id := default (mv_transport_thread_id view) (th_thread_id <$> existing_thread) in
  let created_at := match existing_thread with
                    | Some t => Z.min (th_created_at t) (mv_created_at view)
                    | None => mv_created_at view
                    end in
  let message_updated_at :=
    Z.max (default (mv_created_at view) (mv_acknowledged_at view)) (mv_created_at view) in
  let last_message_at :=
    Z.max (default (mv_created_at view) (existing_thread ≫= th_last_message_at))
      (mv_created_at view) in
  let thread_updated_at :=
    Z.max (Z.max (Z.max message_updated_at
                    (default message_updated_at (th_updated_at <$> existing_thread)))
             last_message_at) created_at in
  ignore_conflict (upsert_thread
    (mkDirectThread social_thread_id local remote (mv_transport_thread_id view) TSReady
       (Some last_message_at) created_at thread_updated_at));;
  let delivery_state := delivery_state_from_swarm (mv_delivery_state view) in
  ignore_conflict (SocialServices.upsert_message
    (mkDirectMessage social_thread_id (mv_message_id view) (Some (mv_message_id view)) local remote
       (message_direction_from_swarm (mv_direction view))
       (message_kind_from_swarm (mv_message_kind view)) (mv_content view) (mv_encrypted_body view)
       (mv_content_encoding view) (mv_agent_envelope_json view) (mv_agent_signature view)
       delivery_state RSUnread (mv_created_at view) message_updated_at));;
  (if bool_decide (delivery_state = DSDelivered) || bool_decide (delivery_state = DSAcknowledged)
   then ignore_conflict (SocialServices.upsert_message_receipt
          (mkMessageReceipt (mv_message_id view) RKDelivered (mv_created_at view)
             (Some "reconciled from transport delivery state")))
   else mret tt);;
  match mv_acknowledged_at view with
  | Some acknowledged_at =>
      ignore_conflict (SocialServices.upsert_message_receipt
        (mkMessageReceipt (mv_message_id view) RKAcknowledged acknowledged_at
           (Some "reconciled from transport acknowledgment")))
  | None => mret tt
  end.

Definition reconcile_dm_messages (local : string) (views : list DmMessageSyncView) : svc unit :=
  for_each (reconcile_dm_message local) views.

(** ** Local actions *)

Definition action_request_id (i : PersistRelationshipActionInput) : svc string :=
  if bool_decide (pi_action i = ARemove) then mret ""
  else
    match pi_request_id i with
    | Some id => mret id
    | None =>
        items ← or_empty (SocialRequests.list_friend_requests (pi_local_public_id i));
        let remote := cs_counterpart_public_id (pi_counterpart i) in
        let request := if bool_decide (pi_action i = ARequest)
                       then latest_pending_request_for_counterpart items remote
                       else latest_request_for_counterpart items remote in
        mret (default ("request-" +:+ show_Z (pi_occurred_at i)) (fr_request_id <$> request))
    end.

Definition action_request (i : PersistRelationshipActionInput) (request_id : string)
    (direction : FriendRequestDirection) (state : FriendRequestState) (reason : option string)
    : FriendRequest :=
  mkFriendRequest request_id (pi_local_public_id i) (cs_counterpart_public_id (pi_counterpart i))
    (Some (cs_remote_node_id (pi_counterpart i))) direction state reason (pi_correlation_id i)
    (pi_occurred_at i) (pi_occurred_at i) None.

Definition action_thread (i : PersistRelationshipActionInput) (thread_id : string)
    (state : ThreadState) : DirectThread :=
  mkDirectThread thread_id (pi_local_public_id i) (cs_counterpart_public_id (pi_counterpart i))
    thread_id state None (pi_occurred_at i) (pi_occurred_at i).

Definition action_friendship (i : PersistRelationshipActionInput) (request_id : string)
    (state : FriendshipState) : Friendship :=
  let local := pi_local_public_id i in
  let remote := cs_counterpart_public_id (pi_counterpart i) in
  mkFriendship (stable_pair_id "friendship" local remote) local remote
    (counterpart_display_name (pi_counterpart i)) state (Some request_id)
    (Some (stable_pair_id "dm" local remote)) (pi_occurred_at i) (pi_occurred_at i).

Definition persist_accept (i : PersistRelationshipActionInput) (request_id : string) : svc unit :=
  let local := pi_local_public_id i in
  let remote := cs_counterpart_public_id (pi_counterpart i) in
  SocialRequests.upsert_friend_request
    (action_request i request_id FRInbound FRAccepted (Some "accepted"));;
  SocialServices.upsert_friendship (action_friendship i request_id FSActive);;
  upsert_thread_for_established_friendship
    (action_thread i (stable_pair_id "dm" local remote) TSReady);;
  mark_counterpart_identity_state remote true (pi_occurred_at i);;
  accept_related_friend_requests local (request_ref (pi_counterpart i)) (pi_occurred_at i).

Definition persist_remove (i : PersistRelationshipActionInput) : svc unit :=
  let local := pi_local_public_id i in
  let remote := cs_counterpart_public_id (pi_counterpart i) in
  listed ← list_friendships local;
  let existing := find_first (λ f, String.eqb (fs_remote_public_id f) remote) listed in
  let friendship_id := default (stable_pair_id "friendship" local remote)
                         (fs_friendship_id <$> existing) in
  let display_name := or_else (counterpart_display_name (pi_counterpart i))
                        (existing ≫= fs_display_name) in
  let thread_id := default (stable_pair_id "dm" local remote) (existing ≫= fs_thread_id) in
  let created_at := default (pi_occurred_at i) (fs_created_at <$> existing) in
  SocialServices.upsert_friendship
    (mkFriendship friendship_id local remote display_name FSRemoved
       (existing ≫= fs_established_from_request_id) (Some thread_id) created_at
       (pi_occurred_at i));;
  upsert_thread (action_thread i thread_id TSClosed);;
  mark_counterpart_identity_state remote false (pi_occurred_at i).

Definition persist_block (i : PersistRelationshipActionInput) (request_id : string) : svc unit :=
  let local := pi_local_public_id i in
  let remote := cs_counterpart_public_id (pi_counterpart i) in
  SocialRequests.upsert_friend_request
    (action_request i request_id FRInbound FRBlocked (Some "blocked"));;
  SocialServices.upsert_block
    (mkSocialBlock (stable_pair_id "block" local remote) local remote
       (Some (cs_remote_node_id (pi_counterpart i))) (Some "blocked") (pi_occurred_at i)
       (pi_occurred_at i));;
  SocialServices.upsert_friendship (action_friendship i request_id FSBlocked);;
  upsert_thread (action_thread i (stable_pair_id "dm" local remote) TSBlocked);;
  settle_related_outbound_friend_requests local (request_ref (pi_counterpart i)) FRBlocked
    "blocked" (pi_occurred_at i).

Definition persist_relationship_action (i : PersistRelationshipActionInput) : svc unit :=
  let local := pi_local_public_id i in
  let remote := cs_counterpart_public_id (pi_counterpart i) in
  cache_counterpart (pi_counterpart i);;
  request_id ← action_request_id i;
  match pi_action i with
  | ARequest =>
      SocialRequests.upsert_friend_request (action_request i request_id FROutbound FRPending None)
  | AAccept => persist_accept i request_id
  | AReject =>
      SocialRequests.upsert_friend_request
        (action_request i request_id FRInbound FRRejected (Some "rejected"));;
      settle_related_outbound_friend_requests local (request_ref (pi_counterpart i)) FRRejected
        "rejected" (pi_occurred_at i)
  | ACancel =>
      SocialRequests.upsert_friend_request
        (action_request i request_id FROutbound FRCancelled (Some "cancelled"))
  | ARemove => persist_remove i
  | ABlock => persist_block i request_id
  | AUnblock => SocialServices.remove_block local remote
  end.

Definition persist_dm_message (i : PersistDmMessageInput) : svc unit :=
  let local := di_local_public_id i in
  let remote := cs_counterpart_public_id (di_counterpart i) in
  cache_counterpart (di_counterpart i);;
  existing ← find_thread local remote;
  let created_at := default (di_occurred_at i) (th_created_at <$> existing) in
  upsert_thread
    (mkDirectThread (di_thread_id i) local remote
       (default (di_thread_id i) (th_transport_thread_id <$> existing)) TSReady
       (Some (di_occurred_at i)) created_at (di_occurred_at i));;
  SocialServices.upsert_message
    (mkDirectMessage (di_thread_id i) (di_message_id i) (Some (di_message_id i)) local remote
       MDOutbound MKMessage (di_content i) None None (Some (di_agent_envelope_json i))
       (di_agent_signature i) DSPending RSUnread (di_occurred_at i) (di_occurred_at i));;
  SocialServices.upsert_message_receipt
    (mkMessageReceipt (di_message_id i) RKSent (di_occurred_at i) (Some "transport accepted")).

(** ** What the operations keep *)

(** A predicate that looks only at part of the store is kept by the writes to the
    other tables: they leave the parts it looks at as they are. *)
#[local] Hint Extern 5 (Preserves _ (writes _)) =>
  (let s := fresh "s" in let Hs := fresh "Hs" in intros s Hs; exact Hs) : typeclass_instances.
#[local] Hint Extern 8 (Preserves _ (let '_ := ?t in _)) =>
  (destruct t) : typeclass_instances.

Section kept.
Context (I : SocialStore → Prop).

Abbreviation keeps f := (Preserves I (writes f)).

Lemma preserves_or_empty {A} (m : svc (list A)) : Preserves I m → Preserves I (or_empty m).
Proof. intros Hm s Hs. specialize (Hm s Hs). rewrite /or_empty. by destruct (m s) as [[] ?]. Qed.

#[export] Instance preserves_identity i :
  keeps (SocialStore.upsert_remote_identity i) → Preserves I (SocialServices.upsert_remote_identity i).
Proof. intros. rewrite /SocialServices.upsert_remote_identity. apply _. Qed.
#[export] Instance preserves_binding b :
  keeps (SocialStore.upsert_transport_binding b) →
  Preserves I (SocialServices.upsert_transport_binding b).
Proof. intros. rewrite /SocialServices.upsert_transport_binding. apply _. Qed.
#[export] Instance preserves_block b :
  keeps (SocialStore.upsert_block b) → Preserves I (SocialServices.upsert_block b).
Proof. intros. rewrite /SocialServices.upsert_block. apply _. Qed.
#[export] Instance preserves_unblock o b :
  keeps (SocialStore.remove_block o b) → Preserves I (SocialServices.remove_block o b).
Proof. intros. rewrite /SocialServices.remove_block. apply _. Qed.
#[export] Instance preserves_receipt r :
  keeps (SocialStore.upsert_message_receipt r) → Preserves I (SocialServices.upsert_message_receipt r).
Proof. intros. rewrite /SocialServices.upsert_message_receipt. apply _. Qed.
#[export] Instance preserves_message m :
  keeps (SocialStore.upsert_message m) → Preserves I (SocialServices.upsert_message m).
Proof. intros. rewrite /SocialServices.upsert_message. apply _. Qed.
#[export] Instance preserves_thread t b :
  keeps (SocialStore.upsert_thread t) → Preserves I (upsert_thread_checked t b).
Proof. intros. rewrite /upsert_thread_checked. apply _. Qed.
#[export] Instance preserves_find_thread l r : Preserves I (find_thread l r).
Proof. rewrite /find_thread. apply _. Qed.
#[export] Instance preserves_list_friendships l : Preserves I (list_friendships l).
Proof. rewrite /list_friendships. apply _. Qed.
#[export] Instance preserves_list_requests l : Preserves I (SocialRequests.list_friend_requests (S := SocialStore) l).
Proof. rewrite /SocialRequests.list_friend_requests. apply _. Qed.

#[export] Instance preserves_cache c :
  (∀ i, keeps (SocialStore.upsert_remote_identity i)) →
  (∀ b, keeps (SocialStore.upsert_transport_binding b)) → Preserves I (cache_counterpart c).
Proof.
  intros. rewrite /cache_counterpart.
  apply preserves_bind; [|intros; destruct (cs_known_binding c); apply preserves_binding, _].
  destruct (counterpart_agent_did c); [|apply _]. apply preserves_bind; [apply _|]. intros e.
  destruct (cs_known_identity c); apply preserves_identity, _.
Qed.
#[export] Instance preserves_mark c a t :
  (∀ i, keeps (SocialStore.upsert_remote_identity i)) →
  Preserves I (mark_counterpart_identity_state c a t).
Proof. intros. rewrite /mark_counterpart_identity_state. apply _. Qed.
#[export] Instance preserves_reopen l r t :
  (∀ t, keeps (SocialStore.upsert_thread t)) →
  Preserves I (reopen_thread_of_active_friendship l r t).
Proof. intros. rewrite /reopen_thread_of_active_friendship. apply _. Qed.

Section requests.
Context `{!∀ r, keeps (SocialStore.upsert_friend_request r)}.
Context `{!∀ k i, keeps (clear_reliability_task k i)}.
#[local] Set Default Proof Using "Type*".

#[export] Instance preserves_request r :
  Preserves I (SocialRequests.upsert_friend_request (S := SocialStore) r).
Proof.
  rewrite /SocialRequests.upsert_friend_request /validate_friend_request /store_request. apply _.
Qed.
#[export] Instance preserves_retry id : Preserves I (clear_friend_request_retry (S := SocialStore) id).
Proof. rewrite /clear_friend_request_retry. apply _. Qed.
#[export] Instance preserves_accept l c t :
  Preserves I (accept_related_friend_requests (S := SocialStore) l c t).
Proof. rewrite /accept_related_friend_requests /accept_one. apply _. Qed.
#[export] Instance preserves_settle l c st reason t :
  Preserves I (settle_related_outbound_friend_requests (S := SocialStore) l c st reason t).
Proof. rewrite /settle_related_outbound_friend_requests. apply _. Qed.
End requests.
End kept.

(** ** Inbound messages come from friends *)

(** Nothing but messages between active friends is added to [s0] from outside. *)
Definition dm_guarded (s0 s : SocialStore) : Prop :=
  friendships s = friendships s0 ∧
  ∀ m, m ∈ dm_messages s →
  m ∈ dm_messages s0 ∨ dm_direction m = MDOutbound
  ∨ has_active_friendship s0 (dm_local_public_id m) (dm_remote_public_id m) = true.

(** What an upsert leaves in the table. *)
Lemma upsert_row_elem {R K} `{EqDecision K} (key : R → K) update new t r :
  r ∈ upsert_row key update new t → r ∈ t ∨ r = new ∨ ∃ old, old ∈ t ∧ r = update old new.
Proof.
  induction t as [|x t IH]; cbn [upsert_row]; [by intros ->%list_elem_of_singleton; auto|].
  case_decide; intros [->|Hr]%elem_of_cons.
  - right. right. exists x. split; [by left|done].
  - left. by right.
  - left. by left.
  - destruct (IH Hr) as [?|[?|(old & ? & ?)]]; [left; by right|auto|].
    right. right. exists old. split; [by right|done].
Qed.

Lemma dm_guarded_message s0 m :
  dm_direction m = MDOutbound
  ∨ has_active_friendship s0 (dm_local_public_id m) (dm_remote_public_id m) = true →
  Preserves (dm_guarded s0) (writes (SocialStore.upsert_message m)).
Proof.
  intros Hm s [Hf Hs]. split; [done|]. intros x Hx.
  apply upsert_row_elem in Hx as [Hx|[->|(old & _ & ->)]]; [by apply Hs|by right|by right].
Qed.

Lemma ensure_inbound_ok local view s u s1 :
  ensure_inbound_dm_allowed local view s = (inr u, s1) →
  s1 = s ∧ (message_direction_from_swarm (mv_direction view) = MDOutbound
            ∨ has_active_friendship s local (cs_counterpart_public_id (mv_counterpart view)) = true).
Proof.
  rewrite /ensure_inbound_dm_allowed /has_active_friendship.
  cbv [mbind social_bind reads raise mret social_ret].
  destruct (message_direction_from_swarm _).
  - rewrite bool_decide_true //=. destruct (find_friendship _ _ _) as [f|]; [|done]. rewrite /friendship_is_active /=.
    case_bool_decide; [|done]. intros [= _ <-]. auto.
  - rewrite bool_decide_false //=. intros [= _ <-]. auto.
Qed.

Lemma reconcile_dm_message_guarded s0 local view :
  Preserves (dm_guarded s0) (reconcile_dm_message local view).
Proof.
  intros s Hs. rewrite /reconcile_dm_message.
  apply bind_inv; [by apply (preserves_cache (dm_guarded s0)); try apply _|].
  intros [] s1 _ H1. apply bind_inv.
  { rewrite /ensure_inbound_dm_allowed. by apply (_ : Preserves (dm_guarded s0) _). }
  intros [] s2 [-> Hok]%ensure_inbound_ok H2. revert s1 H2 H1 Hok.
  assert (∀ s, dm_guarded s0 s → has_active_friendship s = has_active_friendship s0) as Hact.
  { intros s' [Hf _]. by rewrite /has_active_friendship /find_friendship Hf. }
  intros s1 H2 _ Hok. rewrite (Hact s1 H2) in Hok. revert s1 H2.
  match goal with |- ∀ s1, dm_guarded s0 s1 → dm_guarded s0 (?m s1).2 =>
    change (Preserves (dm_guarded s0) m) end.
  assert (∀ th dl t, Preserves (dm_guarded s0) (writes (SocialStore.upsert_message
    (mkDirectMessage th (mv_message_id view) (Some (mv_message_id view)) local
       (cs_counterpart_public_id (mv_counterpart view))
       (message_direction_from_swarm (mv_direction view))
       (message_kind_from_swarm (mv_message_kind view)) (mv_content view) (mv_encrypted_body view)
       (mv_content_encoding view) (mv_agent_envelope_json view) (mv_agent_signature view)
       dl RSUnread (mv_created_at view) t)))) by (intros; by apply dm_guarded_message).
  apply _.
Qed.

(** C29: inbound direct messages are stored only from active friends. Whatever the
    transport reports, and also when the reconciliation stops at an error, every
    message it adds or changes is outbound or comes from a counterpart with whom
    the local identity has an active friendship; the friendships stay as they
    are. *)
Theorem inbound_dm_from_friends local views s m :
  m ∈ dm_messages (reconcile_dm_messages local views s).2 →
  m ∈ dm_messages s ∨ dm_direction m = MDOutbound
  ∨ has_active_friendship s (dm_local_public_id m) (dm_remote_public_id m) = true.
Proof.
  intros Hm. assert (dm_guarded s (reconcile_dm_messages local views s).2) as [_ H]; [|by apply H].
  rewrite /reconcile_dm_messages. apply for_each_inv; [|split; by auto].
  intros view s1 _. apply reconcile_dm_message_guarded.
Qed.

(** ** A blocked friendship stays blocked *)

Section blocked.
Context (local : string).
Context (pair_id_inj : ∀ r1 r2, stable_pair_id "friendship" local r1 =
                                stable_pair_id "friendship" local r2 → r1 = r2).

(** The friendships are those of [local], each under the identifier of its pair. *)
Definition pair_keyed (s : SocialStore) : Prop :=
  ∀ f, f ∈ friendships s →
  fs_local_public_id f = local
  ∧ fs_friendship_id f = stable_pair_id "friendship" local (fs_remote_public_id f).

Definition blocked_with (s : SocialStore) (remote : string) : Prop :=
  ∃ f, find_friendship s local remote = Some f ∧ fs_state f = FSBlocked.

Definition still_blocked (s0 s : SocialStore) : Prop :=
  pair_keyed s ∧ ∀ remote, blocked_with s0 remote → blocked_with s remote.

Lemma pair_keyed_row s f :
  pair_keyed s → fs_local_public_id f = local →
  fs_friendship_id f = stable_pair_id "friendship" local (fs_remote_public_id f) →
  friendship_keyed s f.
Proof using pair_id_inj.
  intros Hs Hl Hid x Hx. destruct (Hs x Hx) as [Hxl Hxid]. rewrite Hid Hxid Hxl Hl. split.
  - intros E. split; [done|]. by apply pair_id_inj.
  - by intros [_ ->].
Qed.

Lemma upsert_friendship_blocked s0 f :
  fs_local_public_id f = local →
  fs_friendship_id f = stable_pair_id "friendship" local (fs_remote_public_id f) →
  Preserves (still_blocked s0) (SocialServices.upsert_friendship f).
Proof using pair_id_inj.
  intros Hl Hid s [Hk Hb]. destruct (upsert_friendship_cases f s) as [[e ->]|[-> Hold]].
  { split; [exact Hk|exact Hb]. }
  pose proof (pair_keyed_row s f Hk Hl Hid) as Hkey. cbn [snd]. split.
  - intros x Hx. apply upsert_row_elem in Hx as [Hx|[->|(old & _ & ->)]]; [by apply Hk|done..].
  - intros remote (g & Hg & Hst)%Hb. rewrite /blocked_with find_friendship_upsert //.
    case_decide as Hp; [|by exists g]. destruct Hp as [_ <-]. rewrite Hg.
    eexists. split; [done|]. cbn. destruct (Hold g) as [Ht|Hre]; [by rewrite Hl| |].
    + rewrite Hst in Ht. by destruct (fs_state f).
    + rewrite /is_reestablished_by Hst /= in Hre. done.
Qed.

Lemma list_friendships_run s rows s1 :
  list_friendships local s = (inr rows, s1) →
  s1 = s ∧ ∀ f, f ∈ rows → f ∈ friendships s.
Proof.
  rewrite /list_friendships. cbv [mbind social_bind invalid_when reads].
  destruct (is_blank local); [done|]. intros [= <- <-]. split; [done|].
  intros f. rewrite /SocialStore.list_friendships elem_of_order_by elem_of_filterb. tauto.
Qed.

(** The identifier a removal uses. *)
Lemma removed_id s rows s1 remote :
  pair_keyed s → list_friendships local s = (inr rows, s1) →
  default (stable_pair_id "friendship" local remote)
    (fs_friendship_id <$> find_first (λ f, String.eqb (fs_remote_public_id f) remote) rows)
  = stable_pair_id "friendship" local remote.
Proof.
  intros Hk [_ Hrows]%list_friendships_run. destruct (find_first _ _) as [f|] eqn:E; [|done].
  apply find_first_Some in E as [Hr%String.eqb_eq Hin]. cbn. destruct (Hk f) as [_ ->]; [by apply Hrows|].
  by rewrite Hr.
Qed.

#[local] Ltac as_preserves :=
  match goal with |- ∀ s : _, ?I s → ?I (?m s).2 => change (Preserves I m) end.

Lemma retire_blocked s0 remote node id t :
  Preserves (still_blocked s0) (retire_alias_friendships local remote node id t).
Proof using pair_id_inj.
  intros s Hs. rewrite /retire_alias_friendships. apply bind_inv; [done|].
  intros bindings s1 [= <- <-] _. apply bind_inv; [by apply (_ : Preserves (still_blocked s0) _)|].
  intros rows s1 [-> Hrows]%list_friendships_run _. apply for_each_inv; [|done]. intros f s2 Hf.
  destruct (proj1 Hs f (Hrows f Hf)) as [Hl Hid]. revert s2. as_preserves.
  assert (Preserves (still_blocked s0) (SocialServices.upsert_friendship
    (f <| fs_state := FSRemoved |> <| fs_updated_at := Z.max (fs_updated_at f) t |>)))
    by (by apply upsert_friendship_blocked).
  apply _.
Qed.

Lemma reconcile_removed_blocked s0 v :
  vc_local v = local → Preserves (still_blocked s0) (reconcile_removed v).
Proof using pair_id_inj.
  intros Hl s Hs. rewrite /reconcile_removed Hl.
  apply bind_inv; [by apply (_ : Preserves (still_blocked s0) _)|]. intros rows s1 Hrows _.
  pose proof (removed_id s rows s1 (vc_remote v) (proj1 Hs) Hrows) as Hid.
  apply list_friendships_run in Hrows as [-> _]. revert s Hs. as_preserves.
  assert (∀ n st req th c u, Preserves (still_blocked s0) (SocialServices.upsert_friendship
    (mkFriendship (default (stable_pair_id "friendship" local (vc_remote v)) (fs_friendship_id <$>
       find_first (λ f, String.eqb (fs_remote_public_id f) (vc_remote v)) rows))
       local (vc_remote v) n st req th c u))) by (intros; by apply upsert_friendship_blocked).
  apply preserves_if; [apply _|]. apply preserves_bind; [apply _|]. intros [t|].
  all: apply preserves_bind; [apply _|]; intros ?;
    destruct (normalize_thread_lifetime _ _ _); apply _.
Qed.

Lemma view_friendship_blocked s0 v st :
  vc_local v = local → Preserves (still_blocked s0) (SocialServices.upsert_friendship (view_friendship v st)).
Proof using pair_id_inj. intros Hl. apply upsert_friendship_blocked; by rewrite /view_friendship /= ?Hl. Qed.

Lemma reconcile_view_blocked s0 requests view :
  Preserves (still_blocked s0) (reconcile_relationship_view local requests view).
Proof using pair_id_inj.
  rewrite /reconcile_relationship_view. apply preserves_bind; [apply _|]. intros _.
  apply preserves_bind; [apply _|]. intros found. cbv zeta.
  set (v := mkViewContext _ _ _ _ _ _ _ _).
  pose proof (λ st, view_friendship_blocked s0 v st eq_refl).
  pose proof (reconcile_removed_blocked s0 v eq_refl).
  pose proof (retire_blocked s0).
  rewrite /reconcile_requested /reconcile_accepted /reconcile_rejected /reconcile_blocked
    /reconcile_cancelled /reconcile_unblocked.
  change (vc_local v) with local. apply _.
Qed.

Lemma persist_remove_blocked s0 i :
  pi_local_public_id i = local → Preserves (still_blocked s0) (persist_remove i).
Proof using pair_id_inj.
  intros Hl s Hs. rewrite /persist_remove Hl.
  apply bind_inv; [by apply (_ : Preserves (still_blocked s0) _)|]. intros rows s1 Hrows _.
  pose proof (removed_id s rows s1 (cs_counterpart_public_id (pi_counterpart i)) (proj1 Hs) Hrows) as Hid.
  apply list_friendships_run in Hrows as [-> _]. revert s Hs. as_preserves. cbv zeta.
  apply preserves_bind; [|rewrite /upsert_thread; apply _]. by apply upsert_friendship_blocked.
Qed.

Lemma persist_action_blocked s0 i :
  pi_local_public_id i = local → Preserves (still_blocked s0) (persist_relationship_action i).
Proof using pair_id_inj.
  intros Hl. pose proof (persist_remove_blocked s0 i Hl).
  assert (∀ id st, Preserves (still_blocked s0)
            (SocialServices.upsert_friendship (action_friendship i id st))).
  { intros. apply upsert_friendship_blocked; by rewrite /action_friendship /= ?Hl. }
  assert (Preserves (still_blocked s0) (action_request_id i)).
  { rewrite /action_request_id. apply preserves_if; [apply _|].
    destruct (pi_request_id i); [apply _|]. apply preserves_bind; [|apply _].
    apply preserves_or_empty, _. }
  rewrite /persist_relationship_action. apply preserves_bind; [apply _|]. intros _.
  apply preserves_bind; [apply _|]. intros id.
  destruct (pi_action i); rewrite ?/persist_accept ?/persist_block ?/upsert_thread
    ?/upsert_thread_for_established_friendship; apply _.
Qed.

(** Everything the orchestration does to the store of a local identity. *)
Inductive sync_step : SocialStore → SocialStore → Prop :=
  | sync_action i s :
      pi_local_public_id i = local → sync_step s (persist_relationship_action i s).2
  | sync_relationships views s : sync_step s (reconcile_relationship_views local views s).2
  | sync_threads views s : sync_step s (reconcile_dm_threads local views s).2
  | sync_messages views s : sync_step s (reconcile_dm_messages local views s).2
  | sync_message i s : di_local_public_id i = local → sync_step s (persist_dm_message i s).2.

Lemma sync_step_blocked s0 s s' : still_blocked s0 s → sync_step s s' → still_blocked s0 s'.
Proof using pair_id_inj.
  intros Hs Hstep. revert Hs. destruct Hstep as [i s Hl|views s|views s|views s|i s Hl].
  - by apply persist_action_blocked.
  - pose proof (reconcile_view_blocked s0). revert s. as_preserves.
    rewrite /reconcile_relationship_views. apply preserves_bind; [|apply _].
    apply preserves_or_empty, _.
  - revert s. as_preserves. rewrite /reconcile_dm_threads /reconcile_dm_thread /upsert_thread. apply _.
  - revert s. as_preserves. rewrite /reconcile_dm_messages /reconcile_dm_message /upsert_thread
      /ensure_inbound_dm_allowed. apply _.
  - revert s. as_preserves. rewrite /persist_dm_message /upsert_thread. apply _.
Qed.

End blocked.

(** ** Pair identifiers *)

Lemma str_leb_prefix s t : str_leb s (s +:+ t) = true.
Proof.
  rewrite /str_leb. induction s as [|a s IH]; simpl; [by destruct t|].
  assert (Ascii.compare a a = Eq) as -> by (rewrite /Ascii.compare; apply N.compare_refl). done.
Qed.

Lemma of_bytes_app_inv s l r : to_bytes s = to_bytes l ++ r → ∃ t, s = l +:+ t ∧ to_bytes t = r.
Proof.
  intros H. exists (of_bytes r). rewrite String.list_ascii_of_string_of_list_ascii. split; [|done]. apply to_bytes_inj.
  by rewrite to_bytes_app String.list_ascii_of_string_of_list_ascii.
Qed.

(** An identity without colons has one pair identifier per counterpart. *)
Lemma stable_pair_id_inj prefix local r1 r2 :
  colon_free local → stable_pair_id prefix local r1 = stable_pair_id prefix local r2 → r1 = r2.
Proof.
  intros Hl.
  assert (∀ r r', str_leb local r' = false → local +:+ ":" +:+ r = r' +:+ ":" +:+ local → False) as Hx.
  { intros r r' Hlt H. apply (f_equal to_bytes) in H. rewrite !to_bytes_app in H.
    apply app_eq_inv in H as [(k & Hk & Hr)|(k & Hk & Hr)].
    - destruct k as [|c k].
      + rewrite app_nil_r in Hk. apply to_bytes_inj in Hk as ->. by rewrite str_leb_refl in Hlt.
      + cbn in Hr. injection Hr as <- _. apply Hl. rewrite Hk. apply elem_of_app. right. by left.
    - apply of_bytes_app_inv in Hk as (t & -> & _). by rewrite str_leb_prefix in Hlt. }
  rewrite /stable_pair_id. destruct (str_leb local r1) eqn:E1, (str_leb local r2) eqn:E2; intros H.
  - by do 4 apply (inj _) in H.
  - do 2 apply (inj _) in H. by destruct (Hx r1 r2 E2).
  - do 2 apply (inj _) in H. by destruct (Hx r2 r1 E1).
  - do 2 apply (inj _) in H. apply (f_equal to_bytes) in H. rewrite !to_bytes_app in H.
    apply app_inv_tail in H. by apply to_bytes_inj.
Qed.

(** ** What an acceptance establishes *)

Definition thread_ready (s : SocialStore) (local remote : string) : Prop :=
  ∃ t, SocialStore.find_thread s local remote = Some t ∧ th_state t = TSReady.

(** Runs of [Preserves] for an equality with what is already there. *)
Lemma friendships_kept {A} (m : svc A) s :
  Preserves (λ s', friendships s' = friendships s) m → friendships (m s).2 = friendships s.
Proof. intros Hm. by apply Hm. Qed.

(** A local acceptance that succeeds makes the pair active friends: from then on
    the default policy lets the local identity send direct messages, unless the
    counterpart is blocked. *)
Theorem accept_establishes i s s' :
  friendship_keyed s (action_friendship i "" FSActive) →
  pi_action i = AAccept → persist_relationship_action i s = (inr tt, s') →
  has_active_friendship s' (pi_local_public_id i) (cs_counterpart_public_id (pi_counterpart i)) = true.
Proof.
  intros Hkey Ha Hrun. rewrite /persist_relationship_action Ha in Hrun.
  apply social_bind_ok in Hrun as ([] & s1 & H1 & Hrun).
  apply social_bind_ok in Hrun as (id & s2 & H2 & Hrun).
  rewrite /persist_accept in Hrun. apply social_bind_ok in Hrun as ([] & s3 & H3 & Hrun).
  apply social_bind_ok in Hrun as ([] & s4 & H4 & Hrun).
  assert (friendships s3 = friendships s) as Hf3.
  { transitivity (friendships s2); [|transitivity (friendships s1)].
    - rewrite (_ : s3 = (SocialRequests.upsert_friend_request (S := SocialStore)
        (action_request i id FRInbound FRAccepted (Some "accepted")) s2).2); [|by rewrite H3].
      apply friendships_kept, _.
    - rewrite (_ : s2 = (action_request_id i s1).2); [|by rewrite H2].
      apply friendships_kept. rewrite /action_request_id. apply preserves_if; [apply _|].
      destruct (pi_request_id i); [apply _|]. apply preserves_bind; [|apply _].
      apply preserves_or_empty, _.
    - rewrite (_ : s1 = (cache_counterpart (pi_counterpart i) s).2); [|by rewrite H1].
      apply friendships_kept, _. }
  assert (friendships s' = friendships s4) as Hf'.
  { match type of Hrun with ?m s4 = _ => rewrite (_ : s' = (m s4).2); [|by rewrite Hrun] end.
    apply friendships_kept. rewrite /upsert_thread_for_established_friendship. apply _. }
  destruct (upsert_friendship_cases (action_friendship i id FSActive) s3) as [[e He]|[He _]];
    rewrite He in H4; [done|]. injection H4 as <-.
  rewrite /has_active_friendship (_ : find_friendship s' = find_friendship
    (SocialStore.upsert_friendship (action_friendship i id FSActive) s3)); [|by rewrite /find_friendship Hf'].
  rewrite find_friendship_upsert; [|by intros x; rewrite Hf3; apply Hkey].
  rewrite decide_True //. by destruct (find_friendship s3 _ _).
Qed.

Module SyncScenario.
Definition counterpart (id node : string) : CounterpartSnapshot :=
  mkCounterpartSnapshot id id node None None 10.
Definition act (local remote : string) (a : RelationshipAction) (request : string) (t : Z)
    : PersistRelationshipActionInput :=
  mkPersistRelationshipActionInput local (counterpart remote "node") a (Some request) None t.
Definition run (i : PersistRelationshipActionInput) (s : SocialStore) : SocialStore :=
  (persist_relationship_action i s).2.

Lemma alice_inj r1 r2 :
  stable_pair_id "friendship" "alice" r1 = stable_pair_id "friendship" "alice" r2 → r1 = r2.
Proof. apply stable_pair_id_inj. apply (bool_decide_eq_true_1 _). by vm_compute. Qed.

(** Alice blocks bob. *)
Definition s_blocked : SocialStore := run (act "alice" "bob" ABlock "b1" 20) open_in_memory.
Definition s_unblocked : SocialStore := run (act "alice" "bob" AUnblock "u1" 30) s_blocked.

Lemma s_blocked_keyed : pair_keyed "alice" s_blocked.
Proof.
  assert (Forall (λ f, fs_local_public_id f = "alice"
    ∧ fs_friendship_id f = stable_pair_id "friendship" "alice" (fs_remote_public_id f))
    (friendships s_blocked)) as H by (apply (bool_decide_eq_true_1 _); by vm_compute).
  intros f Hf. rewrite Forall_forall in H. by apply H.
Qed.


(** An unblock does not undo a block. After alice blocked and unblocked bob
    there is no block and the policy allows a friend request to bob, but the request
    is answered with success and not stored: the blocked request of the pair is
    still there and stands in its way. *)
Theorem unblock_drops_requests :
  has_block s_unblocked "alice" "bob" = false
  ∧ (∃ e s1, evaluate_outbound_friend_request_policy "alice" "bob" None 40 s_unblocked = (inr e, s1)
             ∧ pe_decision e = Allow)
  ∧ ∃ s2, persist_relationship_action (act "alice" "bob" ARequest "r9" 40) s_unblocked = (inr tt, s2)
          ∧ friend_requests s2 = friend_requests s_unblocked.
Proof.
  split; [by vm_compute|]. split.
  - destruct (evaluate_outbound_friend_request_policy "alice" "bob" None 40 s_unblocked)
      as [[err|e] s1] eqn:E; [by vm_compute in E|]. exists e, s1. split; [done|].
    vm_compute in E. by injection E as <- _.
  - eexists. split; [by vm_compute|]. by vm_compute.
Qed.

(** Pair identifiers are symmetric, so two local identities of one node share
    the row of their block: when bob blocks alice, alice's block of bob is
    gone. *)
Theorem mutual_block_lost :
  has_block s_blocked "alice" "bob" = true
  ∧ has_block (run (act "bob" "alice" ABlock "b2" 30) s_blocked) "alice" "bob" = false.
Proof. split; by vm_compute. Qed.

(** Pair identifiers of one identity may also collide, when names contain colons. *)
Example pair_id_collision :
  stable_pair_id "friendship" "a:b:a" "b:a" = stable_pair_id "friendship" "a:b:a" "a:b".
Proof. reflexivity. Qed.

(** Blocking a removed friend reports a conflict although the block is stored. *)
Theorem block_after_remove :
  let s := run (act "alice" "bob" ARemove "" 30) (run (act "alice" "bob" AAccept "r1" 20) open_in_memory) in
  let r := persist_relationship_action (act "alice" "bob" ABlock "b1" 40) s in
  r.1 = inl (Conflict "invalid friendship transition: Removed -> Blocked")
  ∧ has_block r.2 "alice" "bob" = true.
Proof. cbv zeta. split; by vm_compute. Qed.

Lemma accept_establishes_witness :
  ∃ s', persist_relationship_action (act "alice" "bob" AAccept "r1" 20) open_in_memory = (inr tt, s')
        ∧ has_active_friendship s' "alice" "bob" = true.
Proof.
  assert (friendship_keyed open_in_memory
            (action_friendship (act "alice" "bob" AAccept "r1" 20) "" FSActive)) as Hk
    by (by intros x ?%elem_of_nil).
  destruct (persist_relationship_action (act "alice" "bob" AAccept "r1" 20) open_in_memory)
    as [[e|[]] s'] eqn:E; [by vm_compute in E|]. exists s'. split; [done|].
  apply (accept_establishes (act "alice" "bob" AAccept "r1" 20) open_in_memory s' Hk eq_refl E).
Defined.

(** An inbound message of a friend is stored, one of a stranger is refused. *)
Definition message (remote : string) : DmMessageSyncView :=
  mkDmMessageSyncView (counterpart remote "node") "t1" "m1" "message" "inbound" "delivered" ""
    JNull None None None None 50 None.
Definition s_friends : SocialStore := run (act "alice" "bob" AAccept "r1" 20) open_in_memory.

Lemma inbound_dm_from_friends_witness :
  ∃ m, m ∈ dm_messages (reconcile_dm_messages "alice" [message "bob"; message "carol"] s_friends).2
       ∧ dm_direction m = MDInbound
       ∧ (m ∈ dm_messages s_friends ∨ dm_direction m = MDOutbound
          ∨ has_active_friendship s_friends (dm_local_public_id m) (dm_remote_public_id m) = true).
Proof.
  destruct (dm_messages (reconcile_dm_messages "alice" [message "bob"; message "carol"] s_friends).2)
    as [|m l] eqn:E; [by vm_compute in E|].
  exists m. split; [by left|]. split; [vm_compute in E; by injection E as <- _|].
  apply (inbound_dm_from_friends "alice" [message "bob"; message "carol"] s_friends m).
  rewrite E. by left.
Defined.
End SyncScenario.
