(* ===== verification/PaymentRoutes.v ===== *)
(** * Payment requests

    The handlers of [P/routes/payments.rs] that change payments, with the listing
    and the lookup: they check who asks, run an operation of the ledger, talk to
    the chain and to the counterpart, and record the decision they carry out.
    While a handler waits (for the chain, the swarm, a lock) other requests run:
    [others] is whatever they do. *)

From S2P Require Import Prelude Collections Text Json Sql LocalDatabase Access Identities SocialDomain SocialStore Signing PaymentModel X402 PaymentLedger PaymentChain.
#[local] Open Scope Z_scope.
#[local] Set Default Proof Using "Type*".

Definition PAYMENT_MESSAGE_CAPABILITY : string := "payments.agent.transfer".
Definition PAYMENT_LEDGER_DOMAIN : string := "payment_ledger".

(** ** The node and what surrounds it *)

Record SocialCounterpartTarget := mkCounterpart {
  counterpart_public_id : string;
  remote_node : string;
  target_agent : string;
}.

Record SwarmAgentPaymentCommand := mkPaymentCommand {
  sc_remote_node_id : string;
  sc_message_kind : string;
  sc_payment : json;
  sc_agent_envelope : json;
}.

Record PaymentAudit := mkPaymentAudit {
  pau_actor : string;
  pau_action : string;
  pau_subject : option string;
  pau_capability : option string;
  pau_details : option json;
}.

(** The ledger in memory, the database, what a handler reads besides, and what
    left the node: transfers on chain, messages, signed events, stream events and
    audit entries, newest first. *)
Record PayNode := mkPayNode {
  pn_ledger : PaymentLedger;
  pn_db : LocalDb;
  pn_limiter : RateLimiter;
  pn_identities : list PublicIdentity;
  pn_social : SocialStore;
  pn_transfers : list (PaymentTransaction * json);
  pn_messages : list SwarmAgentPaymentCommand;
  pn_events : list (string * json);
  pn_stream : list (string * PaymentTransaction);
  pn_audits : list PaymentAudit;
}.
#[global] Instance eta_PayNode : Eta PayNode := λ n,
  mkPayNode (pn_ledger n) (pn_db n) (pn_limiter n) (pn_identities n) (pn_social n) (pn_transfers n)
    (pn_messages n) (pn_events n) (pn_stream n) (pn_audits n).

Record Headers := mkHeaders {
  hd_authorization : option string;
  hd_event_id : option string;
  hd_decision_id : option string;
}.

Record SocialLocalContext := mkLocalContext {
  lc_public_id : string;
  lc_agent_id : string;
  lc_display_name : option string;
}.

Record SignedAgentEnvelopeArgs := mkEnvelopeArgs {
  ea_source_agent_id : string;
  ea_source_public_id : option string;
  ea_source_display_name : option string;
  ea_target_agent_id : option string;
  ea_source_node_id : option string;
  ea_target_node_id : option string;
  ea_capability : string;
  ea_message : json;
}.

(** The local wallet: its accounts and keys, the active account with its public
    key, and its signature of a payload in base64. *)
Record LocalWallet := mkLocalWallet {
  lw_accounts : list PaymentAccount;
  lw_export : string → result (list Z);
  lw_active : result PaymentAccount;
  lw_sign : string → result string;
  lw_public_key : result string;
}.

Record AgentPaymentProposeBody := mkProposeBody {
  pb_public_id : option string;
  pb_counterpart_public_id : option string;
  pb_display_name : option string;
  pb_agent_id : option string;
  pb_amount : string;
  pb_currency : string;
  pb_rail : string;
  pb_layer : SettlementLayer;
  pb_network : option string;
  pb_recipient_address : option string;
  pb_mission_id : option string;
  pb_task_id : option string;
  pb_description : option string;
  pb_metadata : option json;
  pb_expires_at : option Z;
}.

Record PaymentProposalTarget := mkProposalTarget {
  pt_recipient_public_id : string;
  pt_recipient_did : string;
  pt_remote_node_id : string;
  pt_social_counterpart : option SocialCounterpartTarget;
}.

Record AgentPaymentsQuery := mkPaymentsQuery {
  pq_public_id : option string;
  pq_counterpart_public_id : option string;
  pq_display_name : option string;
  pq_recipient_address : option string;
  pq_status : option PaymentStatus;
  pq_role : option string;
  pq_rail : option string;
  pq_limit : option nat;
}.

(** What a request meets. [tick] reads the clock, once per number; the identity
    context, the resolution of counterparts and the signed envelope are those of
    [P/social_host.rs], the target of a proposal is resolved by the social layer or
    the service network. *)
Record PayHost := mkPayHost {
  agent_did : string;
  auth_token : string;
  tick : nat → Z;
  fresh_id : nat → string;
  local_context : option string → SocialLocalContext;
  resolve_counterpart : string → result SocialCounterpartTarget;
  open_wallet : result LocalWallet;
  chain : rpc_node;
  local_node_id : option string;
  account_binding : result (option json);
  signed_envelope : SignedAgentEnvelopeArgs → result json;
  publish : SwarmAgentPaymentCommand → result json;
  append_signed_event : string → json → result unit;
  proposal_target : AgentPaymentProposeBody → result (PaymentProposalTarget * AgentPaymentProposeBody);
  others : nat → PayNode → PayNode;
}.

(** serde's codecs of a payment and of the ledger. *)
Class PaymentCodec := {
  payment_to_json : PaymentTransaction → json;
  ledger_codec :: DomainCodec PaymentLedger;
}.

Notation ph := (hst PayNode).

Section routes.
Context `{Crypto, Wallet, Timestamps, JsonText, PaymentCodec, Evm} (E : PayHost).

(** Other requests run while this one waits. *)
Definition pause (k : nat) : ph unit := λ n, (Answer tt, others E k n).

Definition reads {A} (f : PayNode → A) : ph A := λ n, (Answer (f n), n).
Definition changes (f : PayNode → PayNode) : ph unit := λ n, (Answer tt, f n).

(** An error answered with a status. *)
Definition answer_or {A} (status : Z) (r : result A) : ph A := λ n,
  match r with Ok a => (Answer a, n) | Err e => (Refuse status e, n) end.

Definition on_db {A} (status : Z) (m : stm LocalDb A) : ph A := λ n,
  match m (pn_db n) with
  | (Ok a, d) => (Answer a, n <| pn_db := d |>)
  | (Err e, d) => (Refuse status e, n <| pn_db := d |>)
  end.

Definition on_ledger {A} (status : Z) (m : stm PaymentLedger A) : ph A := λ n,
  match m (pn_ledger n) with
  | (Ok a, l) => (Answer a, n <| pn_ledger := l |>)
  | (Err e, l) => (Refuse status e, n <| pn_ledger := l |>)
  end.

Definition authorized (hd : Headers) : ph string := λ n,
  let '(r, limiter) := Access.authorize (auth_token E) (hd_authorization hd) (tick E 0) (pn_limiter n) in
  (r, n <| pn_limiter := limiter |>).

(** ** Decisions carried out *)

Definition agent_commit_context_from_headers (hd : Headers) : option (string * string) :=
  event_id ← trimmed_nonempty (hd_event_id hd);
  decision_id ← trimmed_nonempty (hd_decision_id hd);
  Some (event_id, decision_id).

Definition replay_commit_response (hd : Headers) (action_type : string) (n : PayNode)
    : result (option json) :=
  match agent_commit_context_from_headers hd with
  | None => Ok None
  | Some (event_id, decision_id) =>
      match load_agent_action_commit (pn_db n) event_id decision_id action_type with
      | None => Ok None
      | Some entry => payload ← json_of_string (ce_result_json entry); Ok (Some payload)
      end
  end.

Record CommitResponseArgs := mkCommitArgs {
  ca_target_id : option string;
  ca_actor_public_id : option string;
  ca_actor_agent_did : option string;
  ca_request_json : json;
  ca_response_json : json;
}.

Definition append_commit_response (hd : Headers) (action_type : string) (args : CommitResponseArgs)
    : ph unit :=
  match agent_commit_context_from_headers hd with
  | None => mret tt
  | Some (event_id, decision_id) =>
      on_db 500 (append_agent_action_commit
        (mkCommit (fresh_id E 0) event_id decision_id action_type "payment" (ca_target_id args) None None
           (json_to_string (ca_request_json args)) (json_to_string (ca_response_json args)) "accepted"
           (ca_actor_public_id args) (ca_actor_agent_did args) (format_timestamp (tick E 1))))
  end.

(** The frame of the six handlers that change a payment: a decision that was
    carried out is answered as before; otherwise the caller is authorized, the
    action runs, and its answer is recorded. *)
Definition committed (hd : Headers) (action_type : string) (act : string → ph CommitResponseArgs)
    : ph json := λ n,
  match replay_commit_response hd action_type n with
  | Ok (Some response) => (Answer response, n)
  | _ =>
      (auth ← authorized hd;
       args ← act auth;
       append_commit_response hd action_type args;;
       mret (ca_response_json args)) n
  end.

(** ** What is shown of a payment *)

Definition normalized_display_name (display_name : option string) : option string :=
  trimmed_nonempty display_name.

Definition payment_identity_display_name (identities : list PublicIdentity) (public_id : string)
    : option string :=
  trimmed_nonempty (option_map pi_display_name
    (find_first (λ i, String.eqb (pi_public_id i) public_id) identities)).

Definition payment_remote_identity_display_name (s : SocialStore) (public_id : string) : option string :=
  trimmed_nonempty (option_map ri_display_name (option_filter ri_active (get_remote_identity s public_id))).

Definition payment_public_display_name (n : PayNode) (public_id : string) : option string :=
  or_else (payment_identity_display_name (pn_identities n) public_id)
    (payment_remote_identity_display_name (pn_social n) public_id).

Definition payment_local_public_id (p : PaymentTransaction) : string :=
  if String.eqb (sender_did p) (agent_did E) then sender_public_id p else recipient_public_id p.

Record PaymentDisplayNames := mkDisplayNames {
  dn_sender : option string;
  dn_recipient : option string;
  dn_counterpart : option string;
}.

Definition payment_display_names (n : PayNode) (local_public_id : string) (p : PaymentTransaction)
    : PaymentDisplayNames :=
  let sender := payment_public_display_name n (sender_public_id p) in
  let recipient := payment_public_display_name n (recipient_public_id p) in
  let counterpart := if String.eqb (sender_public_id p) local_public_id
                     then recipient_public_id p else sender_public_id p in
  mkDisplayNames sender recipient
    (if String.eqb counterpart (sender_public_id p) then sender else recipient).

Definition insert_optional_string (key : string) (value : option string) (o : list (string * json))
    : list (string * json) :=
  match value with Some v => obj_insert key (JString v) o | None => o end.

Definition payment_to_display_json (n : PayNode) (local_public_id : string) (p : PaymentTransaction) : json :=
  let names := payment_display_names n local_public_id p in
  match payment_to_json p with
  | JObject o =>
      JObject (insert_optional_string "counterpart_display_name" (dn_counterpart names)
                 (insert_optional_string "recipient_display_name" (dn_recipient names)
                    (insert_optional_string "sender_display_name" (dn_sender names) o)))
  | v => v
  end.

Definition payment_display_name_matches (n : PayNode) (local_public_id : string) (p : PaymentTransaction)
    (display_name : string) : bool :=
  let names := payment_display_names n local_public_id p in
  existsb (is_some_and (λ name, String.eqb (trim name) display_name))
    [dn_sender names; dn_recipient names; dn_counterpart names].

(** The displayed payment, read after other requests ran. *)
Definition displayed (local_public_id : string) (p : PaymentTransaction) : ph json :=
  pause 3;; reads (λ n, payment_to_display_json n local_public_id p).

(** ** Messages to the counterpart *)

Definition payment_counterpart_from_remote_node (p : PaymentTransaction) : option SocialCounterpartTarget :=
  let remote_node := trim (remote_node_id p) in
  if String.eqb remote_node "" || String.prefix "servicenet:" remote_node then None
  else if String.eqb (sender_did p) (agent_did E)
  then Some (mkCounterpart (recipient_public_id p) remote_node (recipient_did p))
  else if String.eqb (recipient_did p) (agent_did E)
  then Some (mkCounterpart (sender_public_id p) remote_node (sender_did p))
  else None.

Definition is_did (value : string) : bool :=
  eq_ignore_ascii_case (of_bytes (take 4 (to_bytes value))) "did:".
Definition is_node_id (value : string) : bool :=
  (String.length value =? 64)%nat && forallb is_ascii_hexdigit (to_bytes value).
Definition public_agent_id (value : string) : option string :=
  let value := trim value in
  if String.eqb value "" || is_did value || is_node_id value then None else Some value.

Definition with_binding (required : bool) (message : list (string * json)) : result (list (string * json)) :=
  match account_binding E with
  | Ok (Some binding) => Ok (obj_insert "payment_account_binding" binding message)
  | Ok None =>
      if required then Err "payment_account_binding is required for sender-signed payment state"
      else Ok message
  | Err _ => if required then Err "build payment_account_binding" else Ok message
  end.

Definition send_payment_message (counterpart : SocialCounterpartTarget) (message : PaymentAgentMessage)
    : ph json :=
  let local := local_context E None in
  let p := msg_payment message in
  let kind := kind_as_str (msg_kind message) in
  let required := source_payment_account_binding_required (msg_kind message) p (lc_agent_id local) in
  payload ← answer_or 500 (with_binding required
    [("message_kind", JString kind); ("payment", payment_to_json p);
     ("counterpart_public_id", JString (counterpart_public_id counterpart))]);
  envelope ← answer_or 500 (signed_envelope E
    (mkEnvelopeArgs (lc_agent_id local) (public_agent_id (lc_public_id local)) (lc_display_name local)
       (Some (target_agent counterpart)) (local_node_id E) (Some (remote_node counterpart))
       "payment.agent_message" (JObject payload)));
  let command := mkPaymentCommand (remote_node counterpart) kind (payment_to_json p) envelope in
  changes (λ n, n <| pn_messages ::= cons command |>);;
  answer_or 500 (publish E command).

Definition notify_counterpart_of_payment_change (p : PaymentTransaction) (kind : PaymentMessageKind)
    : ph json :=
  match strip_prefix (to_bytes "servicenet:") (to_bytes (remote_node_id p)) with
  | Some agent_id =>
      mret (JObject [("ok", JBool true); ("mode", JString "servicenet");
                     ("agent_id", JString (of_bytes agent_id)); ("message_kind", JString (kind_as_str kind))])
  | None =>
      pause 2;;
      counterpart ← answer_or 500
        match payment_counterpart_from_remote_node p with
        | Some c => Ok c
        | None =>
            match resolve_counterpart E (recipient_public_id p) with
            | Ok c => Ok c
            | Err _ => resolve_counterpart E (sender_public_id p)
            end
        end;
      send_payment_message counterpart (agent_message p kind (tick E 2))
  end.

Definition emit_payment_stream_event (kind : string) (p : PaymentTransaction) : ph unit :=
  changes (λ n, n <| pn_stream ::= cons (kind, p) |>).

Definition append_payment_audit (auth action : string) (subject : option string) (details : option json)
    : ph unit :=
  changes (λ n, n <| pn_audits ::= cons (mkPaymentAudit auth action subject (Some PAYMENT_MESSAGE_CAPABILITY) details) |>).

Definition signed_event (kind : string) (payload : json) : ph unit :=
  _ ← answer_or 500 (append_signed_event E kind payload);
  changes (λ n, n <| pn_events ::= cons (kind, payload) |>).

(** ** Proposing *)

Definition persist_payment_ledger : ph unit := λ n,
  on_db 500 (save_domain PAYMENT_LEDGER_DOMAIN (pn_ledger n) (tick E 3)) n.

Definition dispatch_payment_proposal_message (target : PaymentProposalTarget) (message : PaymentAgentMessage)
    : ph json :=
  match pt_social_counterpart target with
  | Some counterpart => send_payment_message counterpart message
  | None =>
      let node := to_bytes (pt_remote_node_id target) in
      match strip_prefix (to_bytes "servicenet:") node with
      | Some agent_id =>
          mret (JObject [("ok", JBool true); ("mode", JString "servicenet");
                         ("agent_id", JString (of_bytes agent_id))])
      | None =>
          match strip_prefix (to_bytes "payment:") node with
          | Some address =>
              mret (JObject [("ok", JBool true); ("mode", JString "payment_address");
                             ("recipient_address", JString (of_bytes address))])
          | None => mret (JObject [("ok", JBool true); ("mode", JString "unknown")])
          end
      end
  end.

Definition append_payment_proposed_event (p : PaymentTransaction) (target : PaymentProposalTarget)
    (agent_id : option string) : ph unit :=
  signed_event "AGENT_PAYMENT_PROPOSED"
    (JObject [("payment_id", JString (payment_id p));
              ("counterpart_public_id",
               json_of_option JString (option_map counterpart_public_id (pt_social_counterpart target)));
              ("agent_id", json_of_option JString agent_id)]).

Definition propose_agent_payment (hd : Headers) (body : AgentPaymentProposeBody) : ph json :=
  committed hd "payments.propose" (λ auth,
    pause 0;;
    let local := local_context E (pb_public_id body) in
    '(target, filled) ← answer_or 400 (proposal_target E body);
    p ← on_ledger 500 (propose (λ _, tick E 4) (fresh_id E 1) (lc_agent_id local)
      (mkProposePaymentRequest (lc_public_id local) (pt_remote_node_id target)
         (pt_recipient_public_id target) (pt_recipient_did target) (pb_amount filled) (pb_currency filled)
         (pb_rail filled) (pb_layer filled) (pb_network filled) (pb_recipient_address filled)
         (pb_mission_id filled) (pb_task_id filled) (pb_description filled) (pb_metadata filled)
         (pb_expires_at filled)));
    persist_payment_ledger;;
    pause 2;;
    response ← dispatch_payment_proposal_message target (agent_message p MsgRequest (tick E 2));
    append_payment_proposed_event p target (pb_agent_id body);;
    emit_payment_stream_event "payments.proposed" p;;
    append_payment_audit auth "payments.agent.propose" (Some (lc_public_id local))
      (Some (JObject [("payment_id", JString (payment_id p));
                      ("remote_node_id", JString (pt_remote_node_id target));
                      ("agent_id", json_of_option JString (pb_agent_id body))]));;
    shown ← displayed (lc_public_id local) p;
    mret (mkCommitArgs (Some (payment_id p)) (Some (lc_public_id local)) (Some (lc_agent_id local))
      (JObject [("counterpart_public_id", json_of_option JString (pb_counterpart_public_id body));
                ("display_name", json_of_option JString (pb_display_name body));
                ("agent_id", json_of_option JString (pb_agent_id body));
                ("amount", JString (pb_amount body)); ("currency", JString (pb_currency body));
                ("rail", JString (pb_rail body))])
      (JObject [("ok", JBool true); ("payment", shown); ("transport", response)]))).

(** ** Changing a payment *)

Definition ensure_sender_controls_payment (p : PaymentTransaction) : result unit :=
  ensure_ok (String.eqb (sender_did p) (agent_did E)) "only the sender agent can modify this payment state".
Definition ensure_recipient_controls_payment (p : PaymentTransaction) : result unit :=
  ensure_ok (String.eqb (recipient_did p) (agent_did E))
    "only the recipient agent can modify this payment state".
Definition ensure_payment_participant (p : PaymentTransaction) : result unit :=
  ensure_ok (String.eqb (sender_did p) (agent_did E) || String.eqb (recipient_did p) (agent_did E))
    "only payment participants can modify this payment state".

Definition find_payment (id : string) : ph PaymentTransaction := λ n,
  match pn_ledger n !! id with
  | Some p => (Answer p, n)
  | None => (Refuse 404 ("payment not found: " +:+ id), n)
  end.

(** One section under the lock of the ledger. *)
Definition mutate_payment (id : string) (mutate : PaymentTransaction → stm PaymentLedger PaymentTransaction)
    : ph PaymentTransaction :=
  current ← find_payment id;
  updated ← on_ledger 400 (mutate current);
  persist_payment_ledger;;
  mret updated.

(** What follows the change of a payment: the counterpart is told, the change is
    announced and audited, and the payment is shown. *)
Definition announce (kind : PaymentMessageKind) (stream action auth subject : string) (details : json)
    (p : PaymentTransaction) : ph json :=
  notify_counterpart_of_payment_change p kind;;
  emit_payment_stream_event stream p;;
  append_payment_audit auth action (Some subject) (Some details);;
  displayed (payment_local_public_id p) p.

Definition named (id : string) : json := JObject [("payment_id", JString id)].

(** The payment signed by the active account of the wallet. *)
Definition update_outbound_payment_with_wallet_signature (id : string) (requested : option string)
    : ph PaymentTransaction :=
  current ← find_payment id;
  answer_or 403 (ensure_sender_controls_payment current);;
  wallet ← answer_or 500 (open_wallet E);
  account ← answer_or 500 (lw_active wallet);
  require (bool_decide (is_Some (pa_key_handle account))) 403
    "active payment account is watch-only and cannot sign payments";;
  active_address ← answer_or 400 (ok_or "active payment account is missing an address" (pa_address account));
  sender ← (match requested with
            | Some a =>
                if eq_ignore_ascii_case a active_address then mret a
                else refuse 403 "sender_address must match the active signing payment account"
            | None => mret active_address
            end);
  payload ← answer_or 500 (authorization_payload_bytes (current <| sender_address := Some sender |>));
  signature ← answer_or 500 (lw_sign wallet payload);
  key ← answer_or 500 (lw_public_key wallet);
  updated ← on_ledger 500 (authorize (λ k, tick E (4 + k))
              (mkAuthorizePaymentRequest id signature (Some key) (Some sender)));
  persist_payment_ledger;;
  mret updated.

Definition authorize_agent_payment (hd : Headers) (id : string) (requested : option string) : ph json :=
  committed hd "payments.authorize" (λ auth,
    pause 0;;
    p ← update_outbound_payment_with_wallet_signature id requested;
    notify_counterpart_of_payment_change p MsgAuthorized;;
    signed_event "AGENT_PAYMENT_AUTHORIZED" (named (payment_id p));;
    emit_payment_stream_event "payments.authorized" p;;
    append_payment_audit auth "payments.agent.authorize" (Some (sender_public_id p))
      (Some (named (payment_id p)));;
    shown ← displayed (payment_local_public_id p) p;
    mret (mkCommitArgs (Some (payment_id p)) (Some (sender_public_id p)) (Some (sender_did p))
            (named id) shown)).

Definition payment_snapshot_for_submit (id : string) : ph PaymentTransaction :=
  current ← find_payment id;
  answer_or 400 (ensure_sender_controls_payment current);;
  require (bool_decide (status current = Authorized)) 400
    ("payment " +:+ id +:+ " is not in authorized state (current: " +:+ debug_status (status current) +:+ ")");;
  mret current.

Definition wallet_of (w : result LocalWallet) : wallet_keys :=
  (λ w, (lw_accounts w, lw_export w)) <$> w.

(** The transfer on chain; a receipt means that it was sent. *)
Definition send_on_chain (p : PaymentTransaction) : ph (option json) :=
  receipt ← answer_or 400 (submit_x402_erc20_payment (chain E)
    (wallet_of (open_wallet E)) p);
  match receipt with
  | Some r => changes (λ n, n <| pn_transfers ::= cons (p, r) |>)
  | None => mret tt
  end;;
  mret receipt.

Definition submit_agent_payment (hd : Headers) (id : string) (given : option json) : ph json :=
  committed hd "payments.submit" (λ auth,
    pause 0;;
    receipt ← (match given with
               | Some r => mret (Some r)
               | None =>
                   current ← payment_snapshot_for_submit id;
                   pause 1;;
                   send_on_chain current
               end);
    pause 4;;
    p ← mutate_payment id (λ current,
          lift (ensure_sender_controls_payment current);; submit (payment_id current) receipt);
    shown ← announce MsgSubmitted "payments.submitted" "payments.agent.submit" auth (sender_public_id p)
      (JObject [("payment_id", JString (payment_id p));
                ("settlement_receipt", json_of_option (λ r, r) (settlement_receipt p))]) p;
    mret (mkCommitArgs (Some (payment_id p)) (Some (sender_public_id p)) (Some (sender_did p))
            (JObject [("payment_id", JString id); ("settlement_receipt", json_of_option (λ r, r) receipt)])
            shown)).

Definition payment_snapshot_for_settle (id : string) : ph PaymentTransaction :=
  current ← find_payment id;
  answer_or 400 (ensure_payment_participant current);;
  require (match status current with Submitted | Authorized => true | _ => false end) 400
    ("payment " +:+ id +:+ " is not in a settleable state (current: " +:+ debug_status (status current)
     +:+ ")");;
  mret current.

(** A panic of the verification ends the request; no reply is sent. *)
Definition verified_on_chain (p : PaymentTransaction) (receipt : json) : ph unit :=
  match verify_x402_erc20_settlement_receipt (chain E) p receipt with
  | Some r => answer_or 400 r
  | None => refuse 0 "panicked"
  end.

Definition settle_agent_payment (hd : Headers) (id : string) (receipt : json) : ph json :=
  committed hd "payments.settle" (λ auth,
    pause 0;;
    current ← payment_snapshot_for_settle id;
    pause 1;;
    verified_on_chain current receipt;;
    pause 4;;
    p ← mutate_payment id (λ current,
          lift (ensure_payment_participant current);;
          settle (λ _, tick E 4) (mkSettlePaymentRequest (payment_id current) receipt));
    shown ← announce MsgSettled "payments.settled" "payments.agent.settle" auth (sender_public_id p)
      (named (payment_id p)) p;
    mret (mkCommitArgs (Some (payment_id p)) (Some (sender_public_id p)) (Some (sender_did p))
            (named id) shown)).

Definition reject_agent_payment (hd : Headers) (id reject_reason : string) : ph json :=
  committed hd "payments.reject" (λ auth,
    pause 0;;
    p ← mutate_payment id (λ current,
          lift (ensure_recipient_controls_payment current);;
          reject (mkRejectPaymentRequest (payment_id current) reject_reason));
    shown ← announce MsgRejected "payments.rejected" "payments.agent.reject" auth (recipient_public_id p)
      (named (payment_id p)) p;
    mret (mkCommitArgs (Some (payment_id p)) (Some (recipient_public_id p)) (Some (recipient_did p))
            (JObject [("payment_id", JString id); ("reject_reason", JString reject_reason)]) shown)).

Definition cancel_agent_payment (hd : Headers) (id : string) : ph json :=
  committed hd "payments.cancel" (λ auth,
    pause 0;;
    p ← mutate_payment id (λ current,
          lift (ensure_sender_controls_payment current);; cancel (payment_id current));
    shown ← announce MsgCancelled "payments.cancelled" "payments.agent.cancel" auth (sender_public_id p)
      (named (payment_id p)) p;
    mret (mkCommitArgs (Some (payment_id p)) (Some (sender_public_id p)) (Some (sender_did p))
            (named id) shown)).

(** ** Reading *)

Definition involves (public_id : string) (p : PaymentTransaction) : bool :=
  String.eqb (sender_public_id p) public_id || String.eqb (recipient_public_id p) public_id.

Definition listed (q : AgentPaymentsQuery) (local : string) (p : PaymentTransaction) : bool :=
  if negb (involves local p) then false
  else match pq_counterpart_public_id q with
  | Some counterpart => involves counterpart p
  | None =>
      match pq_recipient_address q with
      | Some address => is_some_and (λ a, eq_ignore_ascii_case a address) (recipient_address p)
      | None => true
      end
  end.

Definition role_is (q : AgentPaymentsQuery) (role local : string) : option string :=
  if bool_decide (pq_role q = Some role) then Some local else None.

(** The answer holds the payments and the summary of the whole ledger; the names
    shown are read at one moment. *)
Definition list_agent_payments (hd : Headers) (q : AgentPaymentsQuery)
    : ph (list PaymentTransaction * list json * PaymentSummary) :=
  auth ← authorized hd;
  pause 0;;
  let local := lc_public_id (local_context E (pq_public_id q)) in
  '(payments, sums) ← reads (λ n,
    (List.filter (listed q local)
       (query (pn_ledger n)
          (mkPaymentQuery (pq_status q) None None (role_is q "outbound" local) (role_is q "inbound" local)
             None None None (pq_rail q) None (pq_limit q))),
     summary (pn_ledger n)));
  pause 3;;
  items ← reads (λ n,
    List.filter (λ p, is_none_or (payment_display_name_matches n local p)
                        (normalized_display_name (pq_display_name q))) payments);
  shown ← reads (λ n, payment_to_display_json n local <$> items);
  append_payment_audit auth "payments.agent.list" (Some local)
    (Some (JObject [("count", json_of_Z (Z.of_nat (length items)))]));;
  mret (items, shown, sums).

Definition get_agent_payment (hd : Headers) (id : string) (public_id : option string) : ph json :=
  auth ← authorized hd;
  pause 0;;
  let local := lc_public_id (local_context E public_id) in
  p ← find_payment id;
  require (involves local p) 403 "payment is not visible to this public identity";;
  shown ← displayed local p;
  append_payment_audit auth "payments.agent.get" (Some id) None;;
  mret shown.

Inductive payment_request :=
  | Propose (body : AgentPaymentProposeBody)
  | AuthorizeIt (id : string) (requested : option string)
  | SubmitIt (id : string) (given : option json)
  | SettleIt (id : string) (receipt : json)
  | RejectIt (id reason : string)
  | CancelIt (id : string).

Definition serve (hd : Headers) (r : payment_request) : ph json :=
  match r with
  | Propose body => propose_agent_payment hd body
  | AuthorizeIt id requested => authorize_agent_payment hd id requested
  | SubmitIt id given => submit_agent_payment hd id given
  | SettleIt id receipt => settle_agent_payment hd id receipt
  | RejectIt id reason => reject_agent_payment hd id reason
  | CancelIt id => cancel_agent_payment hd id
  end.

(** ** What a request may do to payments *)

(** One step of the ledger, taken by a party entitled to it. *)
Inductive payment_act (st : PaymentLedger) : PaymentLedger → Prop :=
  | act_propose clk uuid sender r :
      st !! ("payment-" +:+ uuid) = None → payment_act st (exec (propose clk uuid sender r) st)
  | act_authorize clk r p :
      st !! ar_payment_id r = Some p → sender_did p = agent_did E →
      payment_act st (exec (authorize clk r) st)
  | act_submit id receipt p :
      st !! id = Some p → sender_did p = agent_did E → payment_act st (exec (submit id receipt) st)
  | act_settle clk r p :
      st !! sr_payment_id r = Some p → sender_did p = agent_did E ∨ recipient_did p = agent_did E →
      (on_chain p = true → paid_on_chain (chain E) p (sr_receipt r)) →
      payment_act st (exec (settle clk r) st)
  | act_reject r p :
      st !! rr_payment_id r = Some p → recipient_did p = agent_did E → payment_act st (exec (reject r) st)
  | act_cancel id p :
      st !! id = Some p → sender_did p = agent_did E → payment_act st (exec (cancel id) st)
  | act_report m source : payment_act st (exec (merge_remote_agent_message m source) st).

(** What a later state of an authorized payment keeps. *)
Definition kept (p p' : PaymentTransaction) : Prop :=
  same_terms p p' ∧ status p' ≠ Proposed
  ∧ (∀ a, sender_address p = Some a → sender_address p' = Some a)
  ∧ (∀ a, recipient_address p = Some a → recipient_address p' = Some a).

Definition view (n : PayNode) : PaymentLedger * list (PaymentTransaction * json) :=
  (pn_ledger n, pn_transfers n).

(** A step of the node: an entitled step of the ledger, or a transfer on chain
    of a payment that this agent makes and that the ledger has with these terms. *)
Inductive node_act : PaymentLedger * list (PaymentTransaction * json) →
    PaymentLedger * list (PaymentTransaction * json) → Prop :=
  | na_payment st st' sent : payment_act st st' → node_act (st, sent) (st', sent)
  | na_transfer st sent id p p' receipt :
      st !! id = Some p' → kept p p' → status p = Authorized → sender_did p = agent_did E →
      submit_x402_erc20_payment (chain E) (wallet_of (open_wallet E)) p = Ok (Some receipt) →
      node_act (st, sent) (st, (p, receipt) :: sent).

Lemma same_terms_refl p : same_terms p p.
Proof. by rewrite /same_terms. Qed.

Lemma same_terms_trans p q r : same_terms p q → same_terms q r → same_terms p r.
Proof. rewrite /same_terms. intuition congruence. Qed.

Lemma kept_refl p : status p ≠ Proposed → kept p p.
Proof. split; [apply same_terms_refl|done]. Qed.

Lemma kept_trans p q r : kept p q → kept q r → kept p r.
Proof.
  intros (Ht & _ & Hs & Hr) (Ht' & Hn & Hs' & Hr').
  split; [by eapply same_terms_trans|]. split; [done|]. split; eauto.
Qed.

Lemma act_is_step st st' : payment_act st st' → pay_step st st'.
Proof. intros Ha. destruct Ha; [left; by constructor..|right]. Qed.

(** A local operation leaves an authorized payment alone or moves it on. *)
Lemma put_kept (st : PaymentLedger) id sid p q q' :
  st !! id = Some p → status p ≠ Proposed → st !! sid = Some q → (status q ≠ Proposed → kept q q') →
  ∃ p', <[sid := q']> st !! id = Some p' ∧ kept p p'.
Proof.
  intros Hp Hs Hq Hk. destruct (decide (sid = id)) as [->|Hne].
  - exists q'. rewrite lookup_insert_eq. simplify_eq. eauto.
  - exists p. rewrite lookup_insert_ne; [|done]. eauto using kept_refl.
Qed.

Ltac keep_run :=
  rewrite /exec /get_payment /put_payment; stm_cases; eauto using kept_refl;
  bool_to_prop; (eapply put_kept; [done|done|done|]); intros ?;
  try (exfalso; congruence); (split; [by rewrite /same_terms|]); by split; [done|].

Lemma act_keeps st st' id p :
  payment_act st st' → st !! id = Some p → status p ≠ Proposed →
  ∃ p', st' !! id = Some p' ∧ kept p p'.
Proof.
  intros Ha Hp Hs. destruct Ha.
  - exists p. rewrite /propose /exec /put_payment /= lookup_insert_ne; [eauto using kept_refl|congruence].
  - rewrite /authorize. keep_run.
  - rewrite /submit. keep_run.
  - rewrite /settle. keep_run.
  - rewrite /reject. keep_run.
  - rewrite /cancel. keep_run.
  - rewrite /merge_remote_agent_message /exec. cbv [mbind stm_bind lift].
    destruct (validate_agent_payment_message _ _) as [[]|]; [|eauto using kept_refl].
    rewrite /merge_remote_transaction. cbv [mbind stm_bind gets].
    destruct (st !! payment_id (msg_payment m)) as [e|] eqn:He.
    + destruct (merge_transaction e (msg_payment m)) as [merged changed] eqn:Hm. simpl.
      eapply put_kept; [done|done|done|]. intros Hne.
      pose proof (merge_transaction_merged e (msg_payment m)) as (Ht & Hr & _ & Hs1 & Hs2 & _).
      rewrite Hm in Ht, Hr, Hs1, Hs2. simpl in *. split; [done|]. split; [|done].
      intros Heq. rewrite Heq in Hr. destruct (status e) eqn:Hse; simpl in Hr; [done|lia..].
    + exists p. rewrite /= lookup_insert_ne; [eauto using kept_refl|congruence].
Qed.

Lemma node_act_keeps v v' id p :
  rtc node_act v v' → v.1 !! id = Some p → status p ≠ Proposed →
  ∃ p', v'.1 !! id = Some p' ∧ kept p p'.
Proof.
  intros Hr. revert p. induction Hr as [|v1 v2 v3 Hstep _ IH]; intros p Hp Hs; [eauto using kept_refl|].
  destruct Hstep as [st st' sent Ha|]; simpl in *; [|by apply IH].
  destruct (act_keeps _ _ _ _ Ha Hp Hs) as (q & Hq & Hk).
  destruct (IH q Hq) as (p' & Hp' & Hk'); [apply Hk|]. eauto using kept_trans.
Qed.

Lemma node_act_inv v v' : rtc node_act v v' → ledger_inv v.1 → ledger_inv v'.1.
Proof.
  induction 1 as [|v1 v2 v3 Hstep _ IH]; [done|]. intros Hi. apply IH.
  destruct Hstep as [st st' sent Ha|]; simpl in *; [|done]. by eapply pay_step_inv, act_is_step.
Qed.

(** ** Handlers step by step *)

(** A handler run from a state where [P] holds only takes such steps, whatever
    runs in between, and an answer [a] leaves a state where [Q a] holds. *)
Definition spec {A} (P : PayNode → Prop) (m : ph A) (Q : A → PayNode → Prop) : Prop :=
  ∀ n, ledger_inv (pn_ledger n) → P n →
    rtc node_act (view n) (view (m n).2) ∧ ∀ a, (m n).1 = Answer a → Q a (m n).2.

(** What other requests do is made of the same steps. *)
Definition others_behave : Prop := ∀ k n,
  ledger_inv (pn_ledger n) → rtc node_act (view n) (view (others E k n)).

Definition stable (P : PayNode → Prop) : Prop := ∀ n n',
  ledger_inv (pn_ledger n) → rtc node_act (view n) (view n') → P n → P n'.

Definition anything {A} (_ : A) (_ : PayNode) : Prop := True.
Definition always (_ : PayNode) : Prop := True.

Lemma spec_bind {A B} P (m : ph A) Q (k : A → ph B) R :
  spec P m Q → (∀ a, spec (Q a) (k a) R) → spec P (m ≫= k) R.
Proof.
  intros Hm Hk n Hi Hp. destruct (Hm n Hi Hp) as [Hr Hq]. rewrite /mbind /handler_bind.
  destruct (m n) as [[a|s e] n1]; simpl in *; [|by split].
  destruct (Hk a n1 (node_act_inv _ _ Hr Hi) (Hq a eq_refl)) as [Hr' Hq'].
  split; [by etrans|done].
Qed.

Lemma spec_weaken {A} P (m : ph A) Q P' (Q' : A → PayNode → Prop) :
  spec P m Q → (∀ n, P' n → P n) → (∀ a n, Q a n → Q' a n) → spec P' m Q'.
Proof. intros Hm Hp Hq n Hi Hn. destruct (Hm n Hi (Hp n Hn)) as [Hr Ha]. split; eauto. Qed.

Lemma spec_ret {A} P (a : A) : spec P (mret a) (λ a' n, a' = a ∧ P n).
Proof. intros n _ Hp. split; [constructor|]. by intros ? [= ->]. Qed.

(** A step that changes neither the ledger nor the transfers. *)
Definition quiet {A} (m : ph A) : Prop := ∀ n, view (m n).2 = view n.

Lemma spec_quiet {A} P (m : ph A) : stable P → quiet m → spec P m (λ _, P).
Proof.
  intros Hs Hq n Hi Hp. rewrite (Hq n). split; [constructor|]. intros a _.
  eapply Hs; [done| |done]. rewrite (Hq n). constructor.
Qed.

Lemma stable_always : stable always.
Proof. done. Qed.

Lemma spec_pause P k : others_behave → stable P → spec P (pause k) (λ _, P).
Proof. intros Ho Hs n Hi Hp. split; [by apply Ho|]. intros a _. eapply Hs; [done|by apply Ho|done]. Qed.

Lemma answer_or_quiet {A} s (r : result A) : quiet (answer_or s r).
Proof. intros n. by destruct r. Qed.
Lemma on_db_quiet {A} s (m : stm LocalDb A) : quiet (on_db s m).
Proof. intros n. rewrite /on_db. by destruct (m (pn_db n)) as [[]]. Qed.
Lemma authorized_quiet hd : quiet (authorized hd).
Proof. intros n. rewrite /authorized. by destruct (Access.authorize _ _ _ _). Qed.
Lemma append_commit_quiet hd action args : quiet (append_commit_response hd action args).
Proof. rewrite /append_commit_response. case_match; [|done]. case_match. apply on_db_quiet. Qed.
Lemma persist_quiet : quiet persist_payment_ledger.
Proof. intros n. apply on_db_quiet. Qed.
Lemma stream_quiet k p : quiet (emit_payment_stream_event k p).
Proof. done. Qed.
Lemma audit_quiet a b c d : quiet (append_payment_audit a b c d).
Proof. done. Qed.

Lemma quiet_bind {A B} (m : ph A) (k : A → ph B) : quiet m → (∀ a, quiet (k a)) → quiet (m ≫= k).
Proof.
  intros Hm Hk n. rewrite /mbind /handler_bind. pose proof (Hm n) as Hn.
  destruct (m n) as [[a|s e] n1]; [|done]. by rewrite (Hk a n1).
Qed.

Lemma signed_event_quiet k payload : quiet (signed_event k payload).
Proof. apply quiet_bind; [apply answer_or_quiet|done]. Qed.

Lemma send_message_quiet c m : quiet (send_payment_message c m).
Proof. repeat (apply quiet_bind; [first [apply answer_or_quiet|done]|intros ?]); apply answer_or_quiet. Qed.

Hypothesis Hothers : others_behave.

(** Steps that do nothing of interest, one after the other. *)
Lemma spec_then {A B} P (m : ph A) (k : A → ph B) R :
  stable P → quiet m → (∀ a, spec P (k a) R) → spec P (m ≫= k) R.
Proof using Type. intros Hs Hq Hk. eapply spec_bind; [by apply spec_quiet|done]. Qed.

Lemma spec_wait {B} P i (k : unit → ph B) R :
  stable P → (∀ a, spec P (k a) R) → spec P (pause i ≫= k) R.
Proof. intros Hs Hk. eapply spec_bind; [by apply spec_pause|done]. Qed.

Lemma spec_trivial {A} P (m : ph A) Q : spec P m Q → spec P m anything.
Proof using Type. intros Hm. by eapply spec_weaken. Qed.

Lemma spec_last {A} P (a : A) : spec P (mret a) anything.
Proof using Type. eapply spec_trivial, spec_ret. Qed.

Lemma spec_displayed local p : spec always (displayed local p) anything.
Proof. apply spec_wait; [done|]. intros ?. eapply spec_trivial, spec_quiet; done. Qed.

Lemma spec_notify p kind : spec always (notify_counterpart_of_payment_change p kind) anything.
Proof.
  rewrite /notify_counterpart_of_payment_change. case_match; [apply spec_last|].
  apply spec_wait; [done|]. intros ?. apply spec_then; [done|apply answer_or_quiet|]. intros c.
  eapply spec_trivial, spec_quiet; [done|apply send_message_quiet].
Qed.

Lemma spec_announce kind stream action auth subject details p :
  spec always (announce kind stream action auth subject details p) anything.
Proof.
  eapply spec_bind; [apply spec_notify|]. intros ?.
  eapply spec_weaken; [|done|done]. apply spec_then; [apply stable_always|apply stream_quiet|]. intros ?.
  apply spec_then; [done|apply audit_quiet|]. intros ?. apply spec_displayed.
Qed.

(** The frame of a handler; [P] speaks of the ledger only. *)
Lemma spec_committed P hd action act :
  (∀ n, P n → P (authorized hd n).2) → (∀ auth, spec P (act auth) anything) →
  spec P (committed hd action act) anything.
Proof using Type.
  intros Hp Ha n Hi Hn. rewrite /committed.
  assert (spec P (auth ← authorized hd; args ← act auth;
            append_commit_response hd action args;; mret (ca_response_json args)) anything) as Hs.
  { eapply (spec_bind _ _ (λ _, P)).
    - intros n1 _ Hn1. rewrite authorized_quiet. split; [constructor|]. intros ? _. by apply Hp.
    - intros auth. eapply spec_bind; [apply Ha|]. intros args. eapply (spec_weaken always); [|done|done].
      apply spec_then; [done|apply append_commit_quiet|]. intros ?. apply spec_last. }
  destruct (replay_commit_response hd action n) as [[v|]|]; [by split; [constructor|]|exact (Hs n Hi Hn)..].
Qed.

(** ** Sections under the lock of the ledger *)

Definition tracked (id : string) (p : PaymentTransaction) (n : PayNode) : Prop :=
  status p ≠ Proposed ∧ ∃ p', pn_ledger n !! id = Some p' ∧ kept p p'.

Lemma payment_tracked_stable id p : stable (tracked id p).
Proof using Type.
  intros n n' _ Hr [Hs (q & Hq & Hk)]. split; [done|].
  destruct (node_act_keeps _ _ _ _ Hr Hq) as (p' & Hp' & Hk'); [apply Hk|].
  exists p'. split; [done|]. by eapply kept_trans.
Qed.

Lemma tracked_here id p n : pn_ledger n !! id = Some p → status p ≠ Proposed → tracked id p n.
Proof using Type. intros Hp Hs. split; [done|]. exists p. eauto using kept_refl. Qed.

Lemma spec_find P id : spec P (find_payment id) (λ p n, P n ∧ pn_ledger n !! id = Some p).
Proof using Type.
  intros n _ Hp. rewrite /find_payment.
  destruct (pn_ledger n !! id) as [p|] eqn:Hl; (split; [constructor|]); [|done].
  by intros ? [= <-].
Qed.

(** A pure check between two steps. *)
Lemma spec_checked {A B} P s (r : result A) (k : A → ph B) R :
  (∀ a, r = Ok a → spec P (k a) R) → spec P (answer_or s r ≫= k) R.
Proof using Type.
  intros Hk. destruct r as [a|e].
  - intros n Hi Hp. exact (Hk a eq_refl n Hi Hp).
  - intros n Hi Hp. by split; [constructor|].
Qed.

Lemma spec_required {B} P b s e (k : unit → ph B) R :
  (b = true → spec P (k tt) R) → spec P (require b s e ≫= k) R.
Proof using Type.
  intros Hk. destruct b; [intros n Hi Hp; exact (Hk eq_refl n Hi Hp)|].
  intros n Hi Hp. by split; [constructor|].
Qed.

Lemma acts_lift st st' sent : rtc payment_act st st' → rtc node_act (st, sent) (st', sent).
Proof using Type.
  induction 1 as [|st1 st2 st3 Ha _ IH]; [constructor|]. eapply rtc_l; [by constructor|done].
Qed.

Lemma spec_on_ledger {A} P s (m : stm PaymentLedger A) :
  (∀ n, ledger_inv (pn_ledger n) → P n → rtc payment_act (pn_ledger n) (exec m (pn_ledger n))) →
  spec P (on_ledger s m) anything.
Proof using Type.
  intros Hm n Hi Hp. split; [|done]. specialize (Hm n Hi Hp). rewrite /exec in Hm. rewrite /on_ledger.
  destruct (m (pn_ledger n)) as [[a|e] l]; by apply acts_lift.
Qed.

Lemma spec_mutate P id f :
  (∀ n p, P n → pn_ledger n !! id = Some p → payment_id p = id →
     rtc payment_act (pn_ledger n) (exec (f p) (pn_ledger n))) →
  spec P (mutate_payment id f) anything.
Proof using Type.
  intros Hf. eapply spec_bind; [apply spec_find|]. intros p. eapply spec_bind.
  - apply spec_on_ledger. intros n Hi [Hp Hl]. apply Hf; [done..|]. by apply Hi.
  - intros q. eapply (spec_weaken always); [|done|done].
    apply spec_then; [done|apply persist_quiet|]. intros ?. apply spec_last.
Qed.

(** An operation after a check of the caller's role. *)
Lemma exec_checked {A} (r : result unit) (m : stm PaymentLedger A) st :
  (r = Ok tt → payment_act st (exec m st)) → rtc payment_act st (exec (lift r;; m) st).
Proof using Type.
  intros Hm. destruct r as [[]|e]; [|constructor]. apply rtc_once. by apply Hm.
Qed.

Lemma sender_controls p : ensure_sender_controls_payment p = Ok tt → sender_did p = agent_did E.
Proof using Type. intros Hs%ensure_ok_ok. by apply String.eqb_eq. Qed.
Lemma recipient_controls p : ensure_recipient_controls_payment p = Ok tt → recipient_did p = agent_did E.
Proof using Type. intros Hs%ensure_ok_ok. by apply String.eqb_eq. Qed.
Lemma participant_controls p :
  ensure_payment_participant p = Ok tt → sender_did p = agent_did E ∨ recipient_did p = agent_did E.
Proof using Type.
  intros Hs%ensure_ok_ok. by apply orb_true_iff in Hs as [?%String.eqb_eq|?%String.eqb_eq]; [left|right].
Qed.

(** A verified settlement is of the payment as the ledger has it. *)
Lemma paid_kept p p' receipt :
  kept p p' → verify_x402_erc20_settlement_receipt (chain E) p receipt = Some (Ok tt) →
  on_chain p' = true → paid_on_chain (chain E) p' receipt.
Proof using Type.
  intros ((_ & _ & _ & Ha & Hc & Hra & Hla & Hn & _ & _ & Hm & _) & _ & Hsa & Hre) Hv Hon.
  assert (on_chain p = true) as Hon0 by (rewrite /on_chain in Hon |- *; by rewrite -Hra -Hla).
  destruct (verified_paid_on_chain _ _ _ Hon0 Hv)
    as (config & hash & sender & recipient & amt & from & to & cr & logs & log & Hcfg & Hh & He & Hs & Hf
      & Hr & Ht & Hamt & Hrest).
  exists config, hash, sender, recipient, amt, from, to, cr, logs, log.
  assert (resolve_chain_config p' = resolve_chain_config p) as ->.
  { by rewrite /resolve_chain_config /metadata_asset Hn Hc Hm. }
  rewrite Ha. split_and!; try done; [by apply Hsa|by apply Hre|..]; by apply Hrest.
Qed.

(** ** The handlers *)

(** Ids drawn by other requests differ from the one this request draws. *)
Definition drawn : string := "payment-" +:+ fresh_id E 1.
Definition unused (n : PayNode) : Prop := pn_ledger n !! drawn = None.

Lemma spec_propose hd body :
  (∀ n, unused n → unused (others E 0 n)) → spec unused (propose_agent_payment hd body) anything.
Proof.
  intros Hfresh. apply spec_committed.
  { intros n Hn. rewrite /unused. pose proof (authorized_quiet hd n) as [= -> _]. done. }
  intros auth. eapply (spec_bind _ _ (λ _, unused)).
  { intros n Hi Hn. split; [by apply Hothers|]. intros ? _. by apply Hfresh. }
  intros _. apply spec_checked. intros [target filled] _. eapply spec_bind.
  { apply spec_on_ledger. intros n _ Hn. apply rtc_once. by apply act_propose. }
  intros p. eapply (spec_weaken always); [|done|done].
  apply spec_then; [done|apply persist_quiet|]. intros ?. apply spec_wait; [done|]. intros ?.
  apply spec_then; [done| |].
  { rewrite /dispatch_payment_proposal_message. repeat case_match; [apply send_message_quiet|done..]. }
  intros response. apply spec_then; [done|apply signed_event_quiet|]. intros ?.
  apply spec_then; [done|apply stream_quiet|]. intros ?.
  apply spec_then; [done|apply audit_quiet|]. intros ?.
  eapply spec_bind; [apply spec_displayed|]. intros shown. apply spec_last.
Qed.

Lemma spec_update_outbound id requested :
  spec always (update_outbound_payment_with_wallet_signature id requested) anything.
Proof.
  eapply spec_bind; [apply spec_find|]. intros p. apply spec_checked. intros [] Hs%sender_controls.
  apply spec_checked. intros wallet _. apply spec_checked. intros account _.
  apply spec_required. intros _. apply spec_checked. intros address _.
  eapply (spec_bind _ _ (λ _ n, pn_ledger n !! id = Some p)).
  { intros n _ [_ Hp]. destruct requested as [a|]; [case_match|]; (split; [constructor|done]). }
  intros sender. apply spec_checked. intros payload _. apply spec_checked. intros signature _.
  apply spec_checked. intros key _. eapply spec_bind.
  { apply spec_on_ledger. intros n _ Hp. apply rtc_once. by eapply act_authorize. }
  intros q. eapply (spec_weaken always); [|done|done].
  apply spec_then; [done|apply persist_quiet|]. intros ?. apply spec_last.
Qed.

Lemma spec_authorize hd id requested : spec always (authorize_agent_payment hd id requested) anything.
Proof.
  apply spec_committed; [done|]. intros auth. apply spec_wait; [done|]. intros ?.
  eapply spec_bind; [apply spec_update_outbound|]. intros p.
  eapply (spec_weaken always); [|done|done]. eapply spec_bind; [apply spec_notify|]. intros ?.
  eapply (spec_weaken always); [|done|done]. apply spec_then; [done|apply signed_event_quiet|]. intros ?.
  apply spec_then; [done|apply stream_quiet|]. intros ?. apply spec_then; [done|apply audit_quiet|]. intros ?.
  eapply spec_bind; [apply spec_displayed|]. intros ?. apply spec_last.
Qed.

(** After the change of a payment nothing else touches payments. *)
Lemma spec_announced P id f kind stream action auth subject details (args : PaymentTransaction → json → CommitResponseArgs) :
  spec P (mutate_payment id f) anything →
  spec P (p ← mutate_payment id f;
          shown ← announce kind stream action auth (subject p) (details p) p;
          mret (args p shown)) anything.
Proof.
  intros Hm. eapply spec_bind; [done|]. intros p. eapply (spec_weaken always); [|done|done].
  eapply spec_bind; [apply spec_announce|]. intros ?. apply spec_last.
Qed.

Lemma spec_send id p :
  status p = Authorized → sender_did p = agent_did E →
  spec (tracked id p) (send_on_chain p) anything.
Proof.
  intros Hs Hd. rewrite /send_on_chain. apply spec_checked. intros receipt Hsub.
  destruct receipt as [r|].
  - apply (spec_bind _ _ anything); [|intros ?; apply spec_last]. intros n _ [_ (p' & Hp' & Hk)]. split; [|done].
    apply rtc_once. by eapply na_transfer.
  - eapply spec_bind; [apply spec_ret|]. intros ?. apply spec_last.
Qed.

Lemma spec_answer {A} (P : PayNode → Prop) (a : A) (Q : A → PayNode → Prop) :
  (∀ n, P n → Q a n) → spec P (mret a) Q.
Proof using Type. intros Hq n _ Hp. split; [constructor|]. intros ? [= <-]. by apply Hq. Qed.

Lemma spec_submit_snapshot id :
  spec always (payment_snapshot_for_submit id)
    (λ p n, (status p = Authorized ∧ sender_did p = agent_did E) ∧ tracked id p n).
Proof using Type.
  eapply spec_bind; [apply spec_find|]. intros p. apply spec_checked. intros [] Hs%sender_controls.
  apply spec_required. intros Ha%bool_decide_eq_true_1. apply spec_answer. intros n [_ Hp].
  split; [done|]. apply tracked_here; [done|]. by rewrite Ha.
Qed.

Lemma spec_settle_snapshot id : spec always (payment_snapshot_for_settle id) (tracked id).
Proof using Type.
  eapply spec_bind; [apply spec_find|]. intros p. apply spec_checked. intros [] _.
  apply spec_required. intros Hs. apply spec_answer. intros n [_ Hp]. apply tracked_here; [done|].
  by destruct (status p).
Qed.

Lemma spec_submit hd id given : spec always (submit_agent_payment hd id given) anything.
Proof.
  apply spec_committed; [done|]. intros auth. apply spec_wait; [done|]. intros ?.
  eapply (spec_bind _ _ anything).
  { destruct given as [r|]; [apply spec_last|]. eapply spec_bind.
    - apply spec_submit_snapshot.
    - intros p n Hi [[Ha Hs] Hp]. revert n Hi Hp. apply spec_wait; [apply payment_tracked_stable|].
      intros ?. by apply spec_send. }
  intros receipt. eapply (spec_weaken always); [|done|done]. apply spec_wait; [done|]. intros ?.
  apply spec_announced, spec_mutate. intros n p _ Hp Hid. apply exec_checked. intros Hs%sender_controls.
  rewrite Hid. by eapply act_submit.
Qed.

Lemma spec_settle hd id receipt : spec always (settle_agent_payment hd id receipt) anything.
Proof.
  apply spec_committed; [done|]. intros auth. apply spec_wait; [done|]. intros ?. eapply spec_bind.
  - apply spec_settle_snapshot.
  - intros p. apply spec_wait; [apply payment_tracked_stable|]. intros ?.
    rewrite /verified_on_chain. destruct (verify_x402_erc20_settlement_receipt _ p receipt) as [r|] eqn:Hv;
      [|intros n Hi Hp; by split; [constructor|]].
    apply spec_checked. intros [] ->. apply spec_wait; [apply payment_tracked_stable|]. intros ?.
    apply spec_announced, spec_mutate. intros n q [_ (q' & Hq & Hk)] Hp Hid. simplify_eq.
    apply exec_checked. intros Hpart%participant_controls. eapply act_settle; simpl; rewrite ?Hid; [done|done|].
    by eapply paid_kept.
Qed.

Lemma spec_reject hd id reason : spec always (reject_agent_payment hd id reason) anything.
Proof.
  apply spec_committed; [done|]. intros auth. apply spec_wait; [done|]. intros ?.
  apply spec_announced, spec_mutate. intros n p _ Hp Hid. apply exec_checked.
  intros Hs%recipient_controls. by eapply act_reject; simpl; rewrite ?Hid.
Qed.

Lemma spec_cancel hd id : spec always (cancel_agent_payment hd id) anything.
Proof.
  apply spec_committed; [done|]. intros auth. apply spec_wait; [done|]. intros ?.
  apply spec_announced, spec_mutate. intros n p _ Hp Hid. apply exec_checked.
  intros Hs%sender_controls. rewrite Hid. by eapply act_cancel.
Qed.


(** ** A decision is carried out once *)

Lemma committed_answer `{!JsonTextLaws} hd event decision action act n v n' :
  agent_commit_context_from_headers hd = Some (event, decision) →
  committed hd action act n = (Answer v, n') →
  ∃ e, e ∈ commit_log (pn_db n') ∧ commit_key e = (event, decision, action)
    ∧ json_of_string (ce_result_json e) = Ok v.
Proof using Type.
  intros Hc. rewrite /committed. destruct (replay_commit_response hd action n) as [[w|]|] eqn:Hr.
  { intros [= <- <-]. rewrite /replay_commit_response Hc in Hr.
    destruct (load_agent_action_commit _ _ _ _) as [e|] eqn:Hl; [|done].
    apply result_bind_ok in Hr as (x & Hx & [= ->]). exists e.
    by apply find_first_Some in Hl as [Hk%bool_decide_eq_true_1 He]. }
  all: intros (auth & n1 & _ & Hrun)%handler_bind_inv.
  all: apply handler_bind_inv in Hrun as (args & n2 & _ & Hrun).
  all: apply handler_bind_inv in Hrun as (u & n3 & Happ & [= <- <-]).
  all: rewrite /append_commit_response Hc /on_db /append_agent_action_commit in Happ.
  all: cbv [mbind stm_bind gets ensure modify] in Happ; destruct (_ && _); [|done].
  all: injection Happ as _ <-; eexists; (split; [apply elem_of_app; right; by apply list_elem_of_singleton|]).
  all: split; [done|apply json_of_to_string].
Qed.

Lemma committed_again hd event decision action act m e v :
  agent_commit_context_from_headers hd = Some (event, decision) →
  commits_unique (pn_db m) → e ∈ commit_log (pn_db m) → commit_key e = (event, decision, action) →
  json_of_string (ce_result_json e) = Ok v →
  committed hd action act m = (Answer v, m).
Proof using Type.
  intros Hc Hu He [= He1 He2 He3] Hv. pose proof (load_commit_elem _ _ Hu He) as Hl.
  rewrite He1 He2 He3 in Hl. by rewrite /committed /replay_commit_response Hc Hl Hv.
Qed.

(** C11: A decision is carried out once. When a request that names an event and
    a decision was answered, the same request, at any later time, is given the same
    answer and changes nothing: no payment, no transfer, no message. *)
Theorem decision_carried_out_once `{!JsonTextLaws} hd r n v n' m :
  is_Some (agent_commit_context_from_headers hd) →
  serve hd r n = (Answer v, n') →
  commits_unique (pn_db m) → commit_log (pn_db n') ⊆ commit_log (pn_db m) →
  serve hd r m = (Answer v, m).
Proof using Type.
  intros [[event decision] Hc] Hs Hu Hsub. destruct r; simpl in *.
  all: destruct (committed_answer _ _ _ _ _ _ _ _ Hc Hs) as (e & He & Hk & Hv).
  all: by eapply committed_again; [done|done|apply Hsub|..].
Qed.
End routes.

(** ** A node with one payment *)

Module RoutesScenario.
Import Signing.Demo DatabaseScenario ChainScenario.
#[local] Instance wallet_lib : Wallet := {
  json_to_vec := λ _, Ok "payload";
  verify_secp256k1 := λ _ _ _, Ok tt;
  evm_address := λ key, Ok key;
}.
#[local] Instance codec : PaymentCodec := {|
  payment_to_json p := JObject [("payment_id", JString (payment_id p))];
  ledger_codec := {| to_text _ := Ok "ledger"; of_text _ := Err "unsupported" |};
|}.

Definition account : PaymentAccount :=
  mkPaymentAccount true (Some "key-1") (Some alice) "x402" (Some "eip155:84532").
Definition local_wallet : LocalWallet :=
  mkLocalWallet accounts export (Ok account) (λ payload, Ok payload) (Ok "key").

Definition host (others : nat → PayNode → PayNode) : PayHost :=
  mkPayHost "did:a" "token" (λ _, 100) (λ k, if k is O then "commit" else "u9")
    (λ _, mkLocalContext "a" "did:a" None) (λ _, Err "unknown") (Ok local_wallet) rpc None
    (Ok (Some (JString "binding"))) (λ _, Ok JNull) (λ _, Ok JNull) (λ _ _, Ok tt)
    (λ _, Err "no target") others.

Definition quiet_host : PayHost := host (λ _ n, n).
Definition headers : Headers := mkHeaders (Some "Bearer token") (Some "event") (Some "decision").
Definition plain : Headers := mkHeaders (Some "Bearer token") None None.

Definition signed (id : string) : PaymentTransaction :=
  payment id <| authorization_signature := Some "signature" |>.
Definition node : PayNode :=
  mkPayNode {["p1" := signed "p1"]} opened (new_limiter 10 60) [] open_in_memory [] [] [] [] [].

Definition once : PayNode := (serve quiet_host headers (SubmitIt "p1" None) node).2.
Definition answer : json := JObject [("payment_id", JString "p1")].

Lemma served : serve quiet_host headers (SubmitIt "p1" None) node = (Answer answer, once).
Proof. vm_compute. reflexivity. Qed.

(** The payment is submitted, its transfer sent and the counterpart told. *)
Example submitted_once :
  (status <$> pn_ledger once !! "p1", length (pn_transfers once), length (pn_messages once))
  = (Some Submitted, 1%nat, 1%nat).
Proof. vm_compute. reflexivity. Qed.


Lemma decision_carried_out_once_witness :
  serve quiet_host headers (SubmitIt "p1" None) once = (Answer answer, once).
Proof.
  refine (decision_carried_out_once quiet_host headers (SubmitIt "p1" None) node answer once once
            _ served _ _).
  - by eexists.
  - split; vm_compute; repeat constructor; by intros ?%elem_of_nil.
  - done.
Defined.

(** The stored answer is given to a caller without a token. *)
Example replayed_without_token :
  serve quiet_host (mkHeaders None (Some "event") (Some "decision")) (SubmitIt "p1" None) once
  = (Answer answer, once).
Proof. vm_compute. reflexivity. Qed.

Definition is_answer {A} (r : reply A) : bool := match r with Answer _ => true | Refuse _ _ => false end.

(** While one request sends the transfer, another one for the same payment finds it
    authorized too: both send a transfer, and one of them is answered with an
    error. *)
Definition busy_host : PayHost :=
  host (λ k n, if k is 1%nat then (serve quiet_host plain (SubmitIt "p1" None) n).2 else n).

Example transfer_sent_twice :
  let '(r, n) := serve busy_host plain (SubmitIt "p1" None) node in
  (is_answer r, length (pn_transfers n)) = (false, 2%nat).
Proof. vm_compute. reflexivity. Qed.

(** The limit counts payments before those of other identities are left out. *)
Definition two_payments : PayNode :=
  node <| pn_ledger ::= <["p2" := signed "p2" <| sender_public_id := "c" |> <| recipient_public_id := "d" |>
                                  <| proposed_at := 5 |>]> |>.
Example limit_hides_payments :
  let q := mkPaymentsQuery None None None None None None None (Some 1%nat) in
  ((list_agent_payments quiet_host plain q two_payments).1 : reply _)
  = Answer ([], [], summary (pn_ledger two_payments)).
Proof. vm_compute. reflexivity. Qed.
End RoutesScenario.
